(* ===== verification/_CoqProject ===== *)
-Q . S2P
Prelude.v
LsmtSegment.v
LsmtFormat.v
LsmtIndex.v
LsmtLookup.v
LsmtBpt.v
LsmtIo.v
LsmtHelper.v
LsmtFile.v
LsmtRead.v
LsmtLog.v
LsmtWrite.v
LsmtDisk.v
LsmtOpen.v
LsmtStack.v
LsmtSeal.v
LsmtCompact.v
LsmtCommit.v
LsmtExport.v
LsmtPremerged.v
LsmtPrune.v
LsmtCreate.v
ZFormat.v
ZBuild.v
ZImage.v
ZRead.v
ZPread.v
ZOpen.v
ZFile.v
ZCompact.v
Text.v
NetPolicy.v
NetFilter.v
NetSni.v
NetSlot.v
WarmPool.v
NetManager.v
NetThreads.v
IdAllocator.v
Pagination.v
SandboxStore.v
ListApi.v
CacheMeta.v
CacheEntry.v
CachePool.v
CacheStore.v
CacheFile.v
CacheInv.v
CacheQuery.v
CacheRefill.v
CacheRead.v
CacheOps.v
CacheHandle.v
CacheOpen.v
CacheBackground.v
CacheList.v
CacheHistory.v
CacheConc.v
BkQueue.v
BkSched.v
BkDownload.v
StartupManifest.v
PackPlanner.v
PackRuns.v
