(* ===== verification/Prelude.v ===== *)
(** * AgentENV: verification of the storage, network and control components

    AgentENV runs sandboxes (micro virtual machines) on a node.  This library
    models the parts of it that compute something a kernel can check, and proves
    what those parts promise to each other.  Paths are relative to the
    repository; [lsmt/] is [storage/overlaybd/src/lsmt/] and [network/] is
    [src/sandbox/network/].

    ** The program and the files of the library

    1. The layered disk.  A sandbox's disk is a stack of layers.  A layer is a
    data file and an index that says which sector of the disk lies where.  The
    bottom layers are sealed; the top one is writable, in one of three layouts
    (log-structured, sparse, hybrid).

    - [LsmtSegment], [LsmtIndex], [LsmtLookup], [LsmtBpt]: [lsmt/index.rs].
      Mappings and their compression, the read-only, mutable and combined index,
      the linearized B+ tree.  The trait [LogIndex] is a class with a contract;
      everything that reads is proved against the contract.
    - [LsmtFormat]: [lsmt/format.rs].  The packed mapping and the header/trailer
      block, bit for bit.
    - [LsmtIo], [LsmtHelper]: [io/vfile_io.rs], [io/virtual_file.rs],
      [lsmt/file/types.rs], [lsmt/file/helper.rs].  Files, header blocks, loading
      an index, recovering the mappings of a sparse file.
    - [LsmtFile]: [lsmt/file/readwrite.rs].  The writable file as a record, its
      methods in a state-and-error monad.  [LsmtRead], [LsmtLog], [LsmtWrite],
      [LsmtDisk] and [LsmtOpen] prove what its methods do; [LsmtCreate] adds the
      creation and validation of the pair of files.
    - [LsmtStack], [LsmtSeal]: [lsmt/file/readonly.rs], [lsmt/file/stack.rs].
      Opening sealed layers, sealing, stacking.
    - [LsmtCompact], [LsmtCommit], [LsmtExport]: [compact_to] and the operations
      that end in it (flatten, commit, merge, export), over any
      [CompactWriter] of [storage/util/src/compact_writer.rs].
    - [LsmtPremerged], [LsmtPrune]: the on-disk cache of merged indexes, its
      artifact format, and the bound on its size.

    - [ZFormat], [ZBuild], [ZRead]: [storage/overlaybd/src/compression/zfile.rs].
      The compressed file a layer is shipped in: header, trailer and jump table,
      the builder with its worker pool, the reader with its retries.  [ZImage],
      [ZPread], [ZOpen] and [ZFile] prove what they do; [ZCompact] shows that the
      compressed file is a destination of [compact_to].

    2. The file cache, [storage/overlaybd/src/backend/cache/].  Remote files are
    kept block by block in sparse files on the node, shared by the sandboxes.

    - [CacheMeta]: [mod.rs], [meta.rs].  Rounding, and the record [meta.bin].
    - [CacheEntry], [CachePool]: [full_file_cache/cache_entry.rs] and
      [cache_pool.rs].  A cached file, and the pool: options, pressure,
      eviction, opening, renaming, starting on what a directory holds.
    - [CacheStore], [CacheFile]: [full_file_cache/cache_store.rs].  Reading,
      refilling and writing, and the handle with its prefetches and background
      refills.  [CacheList]: statistics and listings of [cache_pool.rs].
    - [CacheInv] has the invariant; [CacheQuery], [CacheRefill], [CacheRead],
      [CacheOps], [CacheHandle], [CacheOpen] and [CacheBackground] prove what the
      operations keep and return, [CacheHistory] puts them together.
    - [CacheConc]: the tasks of one entry as a step relation.
    - [BkQueue], [BkSched], [BkDownload]: [bk_download.rs], the life cycle of
      [startup_pack_task.rs] and the gate of [download_gate.rs].  The queue of
      ready downloads, the scheduler with its dispatcher, callers, handles and the
      tasks that read chunks as a step relation over a list of futures, and the
      run of a download over the file cache.
    - [StartupManifest]: [startup_pack.rs] and [startup_manifest.rs] of
      [storage/overlaybd/src/].  The trace of the pages a machine touched while it
      started, and the manifest made of it.
    - [PackPlanner], [PackRuns]: [pack_planner.rs] and the merging of
      [startup_pack_task.rs].  The blocks of the layer objects that hold the pages
      of a manifest, and the requests that fetch them.

    3. The network of a sandbox.  A slot is a network namespace with three
    addresses and an egress policy, enforced by packet-filter rules and, for
    domain names, by a proxy.

    - [NetPolicy]: [network/policy.rs], [src/cfg/network.rs] and the API's
      validation in [src/api/impls/sandbox.rs].  Policies and decisions.
    - [NetFilter]: the iptables commands of [policy.rs], [slot.rs] and
      [iptables_util.rs], and what the kernel does with them.
    - [NetSni], [NetSlot]: [network/egress_proxy.rs], [network/slot.rs].  Which
      host a connection asks for, the proxy's decision, setting a policy.
    - [WarmPool]: [crates/warm-pool/src/lib.rs].  Idle resources between two
      watermarks.
    - [NetManager], [NetThreads]: [network/address_plan.rs] and
      [network/manager.rs].  Addresses, allocation and recycling of slots over the
      pool: the operations are programs whose actions each touch the shared state
      once ([perform]), and [NetThreads] runs them as threads ([nm_step]).

    4. The control plane.

    - [SandboxStore]: [src/orchestrator/store/].  The metadata of the sandboxes,
      the index by deadline, the state notifications.
    - [Pagination]: [src/api/impls/pagination.rs].  Cursors, tokens, pages.
    - [ListApi]: the list endpoints of [src/api/impls/sandbox.rs] and
      [src/api/impls/snapshots.rs] over the store and over the snapshot catalog
      ([src/snapshot/catalog.rs]).
    - [IdAllocator]: [storage/util/src/id_allocator.rs].

    [Prelude] (this file) has the result type with the [?] operator, machine
    integers, lists indexed by [Z] and the tactics; [Text] has Rust's strings as
    lists of UTF-8 bytes.

    ** What the theorems show

    - A writable layer is an array of bytes: over any history of successful
      writes, discards, truncations, flushes and reopens, its disk is what that
      history wrote, and after a flush its files open with that disk, unless the
      data ends like a sealed layer ([LsmtOpen.history_refines_array], from the
      theorems of [LsmtDisk] about the single operations).  Rejected operations
      change nothing.
    - A stack shows, for every byte, what the newest layer storing it says;
      sealing, flattening, merging and exporting keep that content whatever the
      writer, its buffer size and the completion order of concurrent copies
      ([LsmtSeal], [LsmtExport]).  Opening through the cache of merged indexes
      gives the same stack as opening without it, also when artifacts are
      missing, of another stack, or damaged in a way their bytes show, as long as
      SHA-256 tells the keys of the stacks apart and the identity of a layer
      determines its index ([LsmtPremerged]); the cache stays within its budget,
      with one scan at a time ([LsmtPrune]).
    - A compressed file reads back exactly, its bytes do not depend on the sizes
      of the writes, on the workers or on their order, and a cache below a reader
      that returns damaged bytes is repaired or reported, never believed
      ([ZFile]).  Its writer keeps the contract of [CompactWriter] ([ZCompact]).
    - In every state the file cache reaches, through evictions, background
      refills, failing system calls and restarts, a read returns the bytes of the
      file behind the cache, and succeeds when the source does; for a process
      that takes over the files of an earlier one, three system calls must not
      have failed ([CacheHistory.reachable_read_right]).  However the tasks of an
      entry interleave, and whenever the process ends, listed blocks are right and
      returned bytes do not change, unless an eviction was dropped while it ran or
      left its [meta.bin] behind; both are shown to break it ([CacheConc]).  The range to refill is the
      exact hole of a request ([CacheQuery]); background refills cover what is
      missing and leave nothing out ([CacheOps], [CacheBackground]); listings are
      complete ([CacheList]).
    - However the futures of the download scheduler interleave, a file is
      downloaded by one task at a time, the slots are respected, and after a
      shutdown has returned no future that it waits for is left and no read begins,
      while a read that has begun can go on ([BkSched]); no device waits for more than one
      task of each other device per task of its own ([BkQueue]); a download that
      ends well, alone with the cache, leaves the whole file in it ([BkDownload]).
    - A manifest has exactly the pages of its trace in the order of first need,
      and the formats of both are exact ([StartupManifest]).  The plan of a
      prefetch has exactly the blocks that reading the pages takes, through the
      merged index and the jump tables, up to the first span that does not fit the
      budget ([PackPlanner]); the requests have these blocks, each once, the first needed
      first ([PackRuns]).
    - The indexes agree with each other and with the function from sectors to
      places that their mappings denote; the codecs are exact.
    - After any history of policy changes, failed ones included, a namespace
      forwards DNS queries to the guest's resolver and exactly what the policy in
      its chain allows, which is the last one that was set, or one whose batch
      failed after it; the proxy dials only authorised addresses ([NetSlot]).  Host extraction does not depend on how
      the bytes are cut into records ([NetSni]).
    - In every interleaving of the manager's threads, slots in use have different
      addresses, every bit of the bitmap is accounted for, and shutdown empties the
      pool for good ([NetThreads]); maintenance brings the pool between its
      watermarks ([NetManager]).
    - The expiry query of the store is exact, and waiting tasks follow the states
      of their sandbox when notifications are sent in order; following the tokens of a listing
      gives every matching sandbox or snapshot once and in order
      ([SandboxStore], [ListApi]).  The id allocator is the set of its occupied
      ids ([IdAllocator]).

    ** How the code is rendered

    Unsigned integers are [Z]; arithmetic that can leave its width wraps, as in
    a release build, or is checked, as the code has it.  Fallible code returns
    [result]; a method that fails keeps what it has already changed.  Code under
    a lock is one step; where the order of steps of several threads matters
    ([LsmtPrune], [LsmtPremerged], [NetThreads], [SandboxStore], [CacheConc],
    [BkSched]) the steps are a relation or the notifications are explicit, and the
    theorem is about all orders or says which one it needs.

    Loops that are not structural take fuel, which the callers compute from the
    data and the proofs show to be enough: one unit per chunk, sector, byte or
    record that is left.  Where no bound exists in the code the theorem gives
    one: [prune_cache_returns] (the first quiet round), [worker_burst] (one
    round), [list_all] (one page more than there are items).

    Bounds: compressed files are built from less than 2^61 bytes in blocks of
    4 KiB to 64 KiB; cached files have at most 2^44 bytes and blocks of at least
    4 KiB, so that a block number fits the 32 bits of the bitmap.  Fuel of the
    loops of the cache is the number of bytes or blocks that are left.

    Code outside the repository is a class or an argument with its documented
    behaviour, and every theorem that uses one has an instance: UUIDs
    ([UuidOps]), SHA-256, readers that return short and discards that promise
    nothing about the bytes ([FileReader], [FileDiscard]), writers that write
    short ([FileWriter]), LZ4 and zstd ([Codec]), CRC-32C ([Crc32c]), the order in
    which workers finish ([Completion]), files below a reader that may lie
    ([BackingFile], [ZOpen.CachedFile]), the roaring bitmap ([Roaring]), the
    outcome of system calls, the clock and the free space ([CacheEnv]), what the
    node decides about a running download ([BkEnv]), IP
    networks ([NetOps], [RangeOps]), the HTTP and TLS grammars ([Grammars]),
    base64, RFC 3339 and UUID text ([TokenOps]), the search of the slot bitmap.
    [apply_command] and [traverse] of [NetFilter] state the documented meaning
    of iptables.

    ** Not modelled

    Effects on the operating system with no algorithm of their own: starting
    machines, sockets and relays, devices (ublk, userfaultfd, io_uring), host
    set-up, logging and metrics.  Clients of remote services and the backends
    over them; tar and OCI images.  Of background downloads the throttle, the
    sleeps and the wait for a sandbox to be ready, which only take time; of
    start-up packs the opening of the layer objects and what the workers do to the
    cache.  Of the file cache the worker threads, the fan-out of one
    source read to several waiting readers and the io-uring variants; its writes
    and its renaming are defined, but the histories of [CacheHistory] have
    neither: a write changes the cached bytes and not the file behind them.  Of
    the orchestrator only the store and its listing; of the snapshot catalog only
    the listing; of the network manager not the diagnostics about foreign
    interfaces.  The Go services (gateway, scheduler, compose) and the command-line tools.  Power
    loss: the end of a process loses its memory and no byte it has written. *)

From Stdlib Require Export ZArith Lia ZifyBool.
From stdpp Require Export base sets list list_numbers option decidable sorting.

#[global] Open Scope Z_scope.

(** ** Fallible code *)

(** [Result<T, E>] of the source; each component instantiates [E] with the
    enumeration of its own error conditions. *)
Inductive result (E A : Type) : Type :=
| Ok (a : A)
| Err (e : E).
Arguments Ok {E A} a.
Arguments Err {E A} e.

Definition rbind {E A B} (m : result E A) (k : A → result E B) : result E B :=
  match m with Ok a => k a | Err e => Err e end.

Declare Scope result_scope.
Delimit Scope result_scope with result.

(** The [?] operator: [let? x := m in k] returns early on an error. *)
Notation "'let?' x ':=' m 'in' k" := (rbind m (λ x, k))
  (at level 10, x pattern, k at level 200) : result_scope.

(** The [ensure!] macro. *)
Definition ensure {E} (b : bool) (e : E) : result E unit :=
  if b then Ok tt else Err e.

Definition is_ok {E A} (r : result E A) : bool :=
  match r with Ok _ => true | Err _ => false end.

(** Code that changes a state and may fail: the state is kept on both exits. *)
Definition eff (S E A : Type) : Type := S → S * result E A.

Definition eret {S E A} (a : A) : eff S E A := λ s, (s, Ok a).
Definition eerr {S E A} (e : E) : eff S E A := λ s, (s, Err e).
Definition elift {S E A} (r : result E A) : eff S E A := λ s, (s, r).
Definition emodify {S E} (f : S → S) : eff S E unit := λ s, (f s, Ok tt).
Definition ebind {S E A B} (m : eff S E A) (k : A → eff S E B) : eff S E B := λ s,
  match m s with
  | (s', Ok a) => k a s'
  | (s', Err e) => (s', Err e)
  end.

(** [let! x := m in k] runs [m] and then [k]. *)
Notation "'let!' x ':=' m 'in' k" := (ebind m (λ x, k))
  (at level 10, x pattern, k at level 200) : result_scope.

Lemma ebind_ok {S E A B} (m : eff S E A) (k : A → eff S E B) s s' a :
  m s = (s', Ok a) → ebind m k s = k a s'.
Proof. intros H. unfold ebind. by rewrite H. Qed.

Lemma ebind_inv {S E A B} (m : eff S E A) (k : A → eff S E B) s s' b :
  ebind m k s = (s', Ok b) → ∃ s1 a, m s = (s1, Ok a) ∧ k a s1 = (s', Ok b).
Proof. unfold ebind. destruct (m s) as [s1 [a|e]]; intros H; [by exists s1, a|congruence]. Qed.

(** ** Machine integers

    Unsigned integers are kept as [Z]; arithmetic that can leave its width is
    written with the wrap-around of a release build. *)
Definition U8_MAX : Z := 2 ^ 8 - 1.
Definition U32_MAX : Z := 2 ^ 32 - 1.
Definition U64_MAX : Z := 2 ^ 64 - 1.

Definition wrap8 (z : Z) : Z := z mod 2 ^ 8.
Definition wrap32 (z : Z) : Z := z mod 2 ^ 32.
Definition wrap64 (z : Z) : Z := z mod 2 ^ 64.

Lemma wrap8_small z : 0 ≤ z < 2 ^ 8 → wrap8 z = z.
Proof. apply Z.mod_small. Qed.
Lemma wrap32_small z : 0 ≤ z < 2 ^ 32 → wrap32 z = z.
Proof. apply Z.mod_small. Qed.
Lemma wrap64_small z : 0 ≤ z < 2 ^ 64 → wrap64 z = z.
Proof. apply Z.mod_small. Qed.
Lemma wrap8_range z : 0 ≤ wrap8 z < 2 ^ 8.
Proof. apply Z.mod_pos_bound; lia. Qed.
Lemma wrap32_range z : 0 ≤ wrap32 z < 2 ^ 32.
Proof. apply Z.mod_pos_bound; lia. Qed.
Lemma wrap64_range z : 0 ≤ wrap64 z < 2 ^ 64.
Proof. apply Z.mod_pos_bound; lia. Qed.

(** [checked_add] on [u64]. *)
Definition checked_add64 (a b : Z) : option Z :=
  if a + b <=? U64_MAX then Some (a + b) else None.

(** [!x] on a [u32] and on a [u64] *)
Definition not32 (x : Z) : Z := U32_MAX - x.
Definition not64 (x : Z) : Z := U64_MAX - x.

(** [saturating_sub] *)
Definition saturating_sub (a b : Z) : Z := Z.max 0 (a - b).

(** [div_ceil] *)
Definition div_ceil (a b : Z) : Z := if a mod b =? 0 then a / b else a / b + 1.

(** [is_multiple_of] *)
Definition is_multiple_of (a b : Z) : bool := a mod b =? 0.

(** Replace every wrap-around whose argument provably fits its width. *)
Ltac unwrap :=
  repeat match goal with
  | |- context [wrap64 ?z] => rewrite (wrap64_small z) by lia
  | |- context [wrap32 ?z] => rewrite (wrap32_small z) by lia
  | |- context [wrap8 ?z] => rewrite (wrap8_small z) by lia
  | H : context [wrap64 ?z] |- _ => rewrite (wrap64_small z) in H by lia
  | H : context [wrap32 ?z] |- _ => rewrite (wrap32_small z) in H by lia
  | H : context [wrap8 ?z] |- _ => rewrite (wrap8_small z) in H by lia
  end.

(** Case analysis on the integer tests of the source. *)
Ltac zcase :=
  match goal with
  | |- context [Z.leb ?a ?b] => destruct (Z.leb_spec a b)
  | |- context [Z.ltb ?a ?b] => destruct (Z.ltb_spec a b)
  | |- context [Z.eqb ?a ?b] => destruct (Z.eqb_spec a b)
  end.
Ltac zcases := repeat (zcase; simpl; try lia).
(** The same, reducing nothing but the boolean connectives. *)
Ltac bcases := repeat (zcase; cbn [andb orb negb]; try lia).

(** Linear arithmetic with division by constants. *)
Ltac dlia := Z.to_euclidean_division_equations; lia.

Lemma div_ceil_bounds a b : 0 < b → a ≤ div_ceil a b * b < a + b.
Proof.
  intros Hb. unfold div_ceil. pose proof (Z.div_mod a b ltac:(lia)).
  pose proof (Z.mod_pos_bound a b Hb). destruct (Z.eqb_spec (a mod b) 0); nia.
Qed.

(** ** Lists indexed by [Z] *)
Definition zlen {A} (l : list A) : Z := Z.of_nat (length l).
Definition ztake {A} (n : Z) (l : list A) : list A := take (Z.to_nat n) l.
Definition zdrop {A} (n : Z) (l : list A) : list A := drop (Z.to_nat n) l.

(** The bytes [l[off .. off + len]]. *)
Definition slice {A} (off len : Z) (l : list A) : list A := ztake len (zdrop off l).
Definition zeros (n : Z) : list Z := replicate (Z.to_nat n) 0.

(** The byte at position [p]; bytes past the end read as zero. *)
Definition byte_at (l : list Z) (p : Z) : Z := default 0 (l !! Z.to_nat p).

(** Overwriting the bytes from [off] on, inside the buffer. *)
Definition splice (buf : list Z) (off : Z) (data : list Z) : list Z :=
  ztake off buf ++ data ++ zdrop (off + zlen data) buf.

(** [Option::is_some_and] and [Option::is_none_or] *)
Definition some_and {A} (f : A → bool) (o : option A) : bool := match o with Some x => f x | None => false end.
Definition none_or {A} (f : A → bool) (o : option A) : bool := match o with Some x => f x | None => true end.

(** [is_empty] *)
Definition is_nil {A} (l : list A) : bool := match l with [] => true | _ => false end.

(** ** Generic list lemmas *)

Lemma elem_of_lfilter {A} (p : A → bool) l a : a ∈ List.filter p l ↔ a ∈ l ∧ p a = true.
Proof. by rewrite !list_elem_of_In, List.filter_In. Qed.

Lemma lfilter_none {A} (p : A → bool) l :
  (∀ a, a ∈ l → p a = false) → List.filter p l = [].
Proof.
  induction l as [|a l IH]; simpl; [done|]. intros H.
  rewrite (H a) by set_solver. apply IH. set_solver.
Qed.

Lemma lfilter_all {A} (p : A → bool) l :
  (∀ a, a ∈ l → p a = true) → List.filter p l = l.
Proof.
  induction l as [|a l IH]; simpl; [done|]. intros H.
  rewrite (H a) by set_solver. f_equal. apply IH. set_solver.
Qed.

Lemma lfilter_ext {A} (p1 p2 : A → bool) l :
  (∀ a, a ∈ l → p1 a = p2 a) → List.filter p1 l = List.filter p2 l.
Proof. intros H. apply List.filter_ext_in. intros a Ha%list_elem_of_In. auto. Qed.

Lemma lfilter_lfilter {A} (p1 p2 : A → bool) l :
  List.filter p1 (List.filter p2 l) = List.filter (λ a, p2 a && p1 a) l.
Proof.
  induction l as [|a l IH]; simpl; [done|].
  destruct (p2 a); simpl; [|done]. destruct (p1 a); by rewrite IH.
Qed.

Lemma zlen_app {A} (l1 l2 : list A) : zlen (l1 ++ l2) = zlen l1 + zlen l2.
Proof. unfold zlen. rewrite length_app. lia. Qed.
Lemma zlen_nonneg {A} (l : list A) : 0 ≤ zlen l.
Proof. unfold zlen. lia. Qed.

(** ** Bytes of a list *)

Lemma zlen_nil {A} : zlen (@nil A) = 0.
Proof. done. Qed.
Lemma zlen_cons {A} (a : A) l : zlen (a :: l) = zlen l + 1.
Proof. unfold zlen. simpl. lia. Qed.
Lemma zlen_0 {A} (l : list A) : zlen l = 0 → l = [].
Proof. unfold zlen. destruct l; simpl; [done|lia]. Qed.
Lemma zlen_pos {A} (l : list A) : l ≠ [] → 0 < zlen l.
Proof. unfold zlen. destruct l; simpl; [done|lia]. Qed.
Lemma zlen_fmap {A B} (f : A → B) l : zlen (f <$> l) = zlen l.
Proof. unfold zlen. by rewrite length_fmap. Qed.
Lemma zlen_zeros n : zlen (zeros n) = Z.max 0 n.
Proof. unfold zlen, zeros. rewrite length_replicate. lia. Qed.
Lemma zlen_ztake {A} n (l : list A) : zlen (ztake n l) = Z.max 0 (Z.min n (zlen l)).
Proof. unfold zlen, ztake. rewrite length_take. lia. Qed.
Lemma zlen_zdrop {A} n (l : list A) : 0 ≤ n → zlen (zdrop n l) = Z.max 0 (zlen l - n).
Proof. unfold zlen, zdrop. rewrite length_drop. lia. Qed.
Lemma zlen_slice {A} off len (l : list A) : 0 ≤ off → 0 ≤ len → off + len ≤ zlen l →
  zlen (slice off len l) = len.
Proof. intros. unfold slice. rewrite zlen_ztake, zlen_zdrop by lia. lia. Qed.

Lemma ztake_all {A} n (l : list A) : zlen l ≤ n → ztake n l = l.
Proof. unfold zlen, ztake. intros. apply take_ge. lia. Qed.
Lemma ztake_zdrop {A} n (l : list A) : ztake n l ++ zdrop n l = l.
Proof. apply take_drop. Qed.

Lemma slice_app_skip {A} off len (l1 l2 : list A) : zlen l1 ≤ off →
  slice off len (l1 ++ l2) = slice (off - zlen l1) len l2.
Proof.
  intros H. unfold slice, zdrop, zlen in *. rewrite drop_app_ge by lia. do 2 f_equal. lia.
Qed.

Lemma slice_app_here {A} len (l1 l2 : list A) : zlen l1 = len →
  slice 0 len (l1 ++ l2) = l1.
Proof.
  intros <-. unfold slice, zdrop, ztake, zlen. simpl. rewrite drop_0, Nat2Z.id.
  by rewrite take_app_length.
Qed.

Lemma slice_app_mid {A} (l1 l2 l3 : list A) : slice (zlen l1) (zlen l2) (l1 ++ l2 ++ l3) = l2.
Proof.
  unfold slice, ztake, zdrop, zlen. rewrite !Nat2Z.id, drop_app_length. by rewrite take_app_length.
Qed.

Lemma slice_slice_app {A} (l : list A) off a b : 0 ≤ off → 0 ≤ a → 0 ≤ b →
  slice off a l ++ slice (off + a) b l = slice off (a + b) l.
Proof.
  intros. unfold slice, ztake, zdrop.
  replace (Z.to_nat (off + a)) with (Z.to_nat off + Z.to_nat a)%nat by lia.
  replace (Z.to_nat (a + b)) with (Z.to_nat a + Z.to_nat b)%nat by lia.
  rewrite <- drop_drop. by rewrite take_take_drop.
Qed.

Lemma slice_slice {A} a n b m (l : list A) : 0 ≤ a → 0 ≤ b → b + m ≤ n → slice b m (slice a n l) = slice (a + b) m l.
Proof.
  intros. unfold slice, ztake, zdrop. rewrite skipn_firstn_comm, take_take, drop_drop. f_equal; [lia|f_equal; lia].
Qed.

Lemma seqZ_snoc k n : 0 ≤ n → seqZ k (n + 1) = seqZ k n ++ [k + n].
Proof. intros Hn. by rewrite seqZ_app by lia. Qed.

Lemma ztake_app_here {A} n (l1 l2 : list A) : zlen l1 = n → ztake n (l1 ++ l2) = l1.
Proof. intros <-. unfold ztake, zlen. by rewrite Nat2Z.id, take_app_length. Qed.

Lemma zdrop_app_skip {A} n (l1 l2 : list A) : zlen l1 ≤ n → zdrop n (l1 ++ l2) = zdrop (n - zlen l1) l2.
Proof. intros. unfold zdrop, zlen in *. rewrite drop_app_ge by lia. f_equal. lia. Qed.

Lemma zdrop_app_here {A} n (l1 l2 : list A) : zlen l1 = n → zdrop n (l1 ++ l2) = l2.
Proof. intros <-. unfold zdrop, zlen. rewrite Nat2Z.id. apply drop_app_length. Qed.

Lemma zdrop_0 {A} n (l : list A) : n ≤ 0 → zdrop n l = l.
Proof. intros. unfold zdrop. by replace (Z.to_nat n) with 0%nat by lia. Qed.

(** Overwriting a part of known length. *)
Lemma splice_mid l m r off data : zlen l = off → zlen m = zlen data →
  splice (l ++ m ++ r) off data = l ++ data ++ r.
Proof.
  intros Hl Hm. pose proof (zlen_nonneg m). unfold splice.
  rewrite ztake_app_here, zdrop_app_skip, zdrop_app_skip, zdrop_0 by lia. done.
Qed.

Lemma splice_zeros l off n data : zlen l = off → zlen data ≤ n →
  splice (l ++ zeros n) off data = (l ++ data) ++ zeros (n - zlen data).
Proof.
  intros Hl Hn. pose proof (zlen_nonneg data).
  assert (zeros n = zeros (zlen data) ++ zeros (n - zlen data)) as ->.
  { unfold zeros. rewrite <- replicate_add. f_equal. lia. }
  rewrite splice_mid; [by rewrite app_assoc|done|]. rewrite zlen_zeros. lia.
Qed.

Lemma byte_at_app l1 l2 p : 0 ≤ p →
  byte_at (l1 ++ l2) p = if p <? zlen l1 then byte_at l1 p else byte_at l2 (p - zlen l1).
Proof.
  intros Hp. unfold byte_at, zlen. destruct (Z.ltb_spec p (Z.of_nat (length l1))).
  - by rewrite lookup_app_l by lia.
  - rewrite lookup_app_r by lia. do 2 f_equal. lia.
Qed.

Lemma byte_at_past l p : zlen l ≤ p → byte_at l p = 0.
Proof. intros Hp. unfold byte_at, zlen in *. by rewrite lookup_ge_None_2 by lia. Qed.

Lemma byte_at_ztake n l p : 0 ≤ p → byte_at (ztake n l) p = if p <? n then byte_at l p else 0.
Proof.
  intros Hp. destruct (Z.ltb_spec p n).
  - unfold byte_at, ztake. by rewrite lookup_take_lt by lia.
  - apply byte_at_past. rewrite zlen_ztake. lia.
Qed.

Lemma byte_at_zdrop n l p : 0 ≤ n → 0 ≤ p → byte_at (zdrop n l) p = byte_at l (n + p).
Proof. intros. unfold byte_at, zdrop. rewrite lookup_drop. do 2 f_equal. lia. Qed.

Lemma byte_at_slice off len l p : 0 ≤ off → 0 ≤ p < len → byte_at (slice off len l) p = byte_at l (off + p).
Proof.
  intros. unfold slice. rewrite byte_at_ztake, byte_at_zdrop by lia.
  destruct (Z.ltb_spec p len); [done|lia].
Qed.

Lemma zlen_splice buf off data : 0 ≤ off → off + zlen data ≤ zlen buf → zlen (splice buf off data) = zlen buf.
Proof.
  intros. pose proof (zlen_nonneg data). unfold splice.
  rewrite !zlen_app, zlen_ztake, zlen_zdrop by lia. lia.
Qed.

Lemma byte_at_splice buf off data p : 0 ≤ off → off + zlen data ≤ zlen buf → 0 ≤ p →
  byte_at (splice buf off data) p
  = if (off <=? p) && (p <? off + zlen data) then byte_at data (p - off) else byte_at buf p.
Proof.
  intros Ho Hl Hp. pose proof (zlen_nonneg data). unfold splice.
  assert (zlen (ztake off buf) = off) as Ht by (rewrite zlen_ztake; lia).
  rewrite byte_at_app, Ht, byte_at_ztake by lia. destruct (Z.ltb_spec p off).
  - bcases; done.
  - rewrite byte_at_app by lia. destruct (Z.ltb_spec (p - off) (zlen data)); [bcases; done|].
    rewrite byte_at_zdrop by lia. bcases. f_equal. lia.
Qed.

Lemma byte_at_zeros n p : byte_at (zeros n) p = 0.
Proof.
  unfold byte_at, zeros. destruct (replicate _ _ !! _) eqn:E; [|done].
  apply lookup_replicate in E as [-> _]. done.
Qed.

(** Two byte strings of one length with the same bytes are equal. *)
Lemma bytes_ext l1 l2 : zlen l1 = zlen l2 →
  (∀ p, 0 ≤ p < zlen l1 → byte_at l1 p = byte_at l2 p) → l1 = l2.
Proof.
  intros Hl Hb. unfold zlen in Hl. apply list_eq. intros i.
  destruct (decide (i < length l1)%nat).
  - destruct (lookup_lt_is_Some_2 l1 i) as [x Hx]; [lia|].
    destruct (lookup_lt_is_Some_2 l2 i) as [y Hy]; [lia|].
    specialize (Hb (Z.of_nat i)). unfold byte_at, zlen in Hb.
    rewrite Nat2Z.id, Hx, Hy in Hb. rewrite Hx, Hy. f_equal. apply Hb. lia.
  - rewrite !lookup_ge_None_2 by lia. done.
Qed.

Lemma StronglySorted_lookup {A} (R : relation A) l : StronglySorted R l →
  ∀ i j x y, (i < j)%nat → l !! i = Some x → l !! j = Some y → R x y.
Proof.
  induction 1 as [|a l _ IH Ha]; [done|]. intros [|i] [|j] x y Hij Hx Hy; try lia; simpl in *.
  - injection Hx as <-. rewrite Forall_forall in Ha. by apply Ha, (list_elem_of_lookup_2 _ j).
  - apply (IH i j); [lia|done|done].
Qed.

Lemma StronglySorted_lookup_2 {A} (R : relation A) l :
  (∀ i j x y, (i < j)%nat → l !! i = Some x → l !! j = Some y → R x y) → StronglySorted R l.
Proof.
  induction l as [|a l IH]; intros Hl; constructor.
  - apply IH. intros i j x y Hij. apply (Hl (S i) (S j)). lia.
  - apply Forall_forall. intros x [j Hj]%list_elem_of_lookup. apply (Hl 0%nat (S j)); [lia|done|done].
Qed.

(** Folding steps that commute pairwise over any permutation. *)
Lemma fold_left_perm {A B} (f : B → A → B) (l1 l2 : list A) b :
  (∀ i j a1 a2 b, i ≠ j → l1 !! i = Some a1 → l1 !! j = Some a2 → f (f b a1) a2 = f (f b a2) a1) →
  l1 ≡ₚ l2 → fold_left f l1 b = fold_left f l2 b.
Proof.
  intros Hf Hp. set (g := λ a b, f b a).
  assert (∀ l, fold_left f l b = foldr g b (reverse l)) as Hg.
  { intros l. unfold reverse. rewrite <- rev_alt. symmetry. exact (List.fold_left_rev_right g l b). }
  rewrite !Hg. apply (foldr_permutation (=) g).
  - solve_proper.
  - intros i a1 j a2 c Hij H1 H2. apply reverse_lookup_Some in H1 as [H1 L1], H2 as [H2 L2].
    unfold g. eapply Hf; [|exact H2|exact H1]. lia.
  - by rewrite (reverse_Permutation l1), (reverse_Permutation l2).
Qed.

(** Sorting any permutation of a list that is sorted without ties gives it back. *)
Lemma merge_sort_perm {A} (R : relation A) `{!RelDecision R, !Transitive R, !Total R} (l l' : list A) :
  (∀ x y, x ∈ l → y ∈ l → R x y → R y x → x = y) → StronglySorted R l → l' ≡ₚ l →
  merge_sort R l' = l.
Proof.
  intros Hu Hs Hp. apply (StronglySorted_unique_strong R).
  - intros x y Hx Hy. rewrite (merge_sort_Permutation R l'), Hp in Hx. auto.
  - by apply StronglySorted_merge_sort.
  - done.
  - by rewrite merge_sort_Permutation.
Qed.

(** ** Little-endian encodings *)

(** [to_le_bytes] of an [n]-byte unsigned integer, and its inverse. *)
Fixpoint le_bytes (n : nat) (z : Z) : list Z :=
  match n with
  | O => []
  | S n' => z mod 2 ^ 8 :: le_bytes n' (z / 2 ^ 8)
  end.

Fixpoint le_val (bs : list Z) : Z :=
  match bs with
  | [] => 0
  | b :: bs' => b + 2 ^ 8 * le_val bs'
  end.

Definition is_byte (b : Z) : Prop := 0 ≤ b < 2 ^ 8.

Lemma length_le_bytes n : ∀ z, length (le_bytes n z) = n.
Proof. induction n as [|n IH]; intros z; simpl; [done|]. by rewrite IH. Qed.

Lemma zlen_le_bytes n z : zlen (le_bytes n z) = Z.of_nat n.
Proof. unfold zlen. by rewrite length_le_bytes. Qed.

Lemma le_bytes_bytes n : ∀ z, Forall is_byte (le_bytes n z).
Proof.
  induction n as [|n IH]; intros z; simpl; constructor; [|done].
  apply Z.mod_pos_bound. lia.
Qed.

Lemma le_val_le_bytes n : ∀ z, 0 ≤ z < 2 ^ (8 * Z.of_nat n) → le_val (le_bytes n z) = z.
Proof.
  induction n as [|n IH]; intros z Hz; cbn [le_bytes le_val].
  - change (2 ^ (8 * Z.of_nat 0)) with 1 in Hz. lia.
  - replace (8 * Z.of_nat (S n)) with (8 + 8 * Z.of_nat n) in Hz by lia.
    rewrite Z.pow_add_r in Hz by lia.
    rewrite IH; [pose proof (Z.div_mod z (2 ^ 8)); lia|].
    split; [apply Z.div_pos; lia|]. apply Z.div_lt_upper_bound; lia.
Qed.

Lemma le_val_bound bs : Forall is_byte bs → 0 ≤ le_val bs < 2 ^ (8 * zlen bs).
Proof.
  induction 1 as [|b bs Hb _ IH]; cbn [le_val]; [unfold zlen; simpl; lia|].
  unfold is_byte in Hb. replace (8 * zlen (b :: bs)) with (8 + 8 * zlen bs)
    by (unfold zlen; simpl length; lia).
  rewrite Z.pow_add_r by (pose proof (zlen_nonneg bs); lia). nia.
Qed.

Lemma le_bytes_le_val bs : Forall is_byte bs → le_bytes (length bs) (le_val bs) = bs.
Proof.
  induction 1 as [|b bs Hb Hbs IH]; [done|]. cbn [length le_bytes le_val].
  unfold is_byte in Hb. f_equal.
  - rewrite Z.mul_comm, Z.mod_add, Z.mod_small by lia. done.
  - rewrite Z.mul_comm, Z.div_add, Z.div_small, Z.add_0_l by lia. done.
Qed.

(** The fields of a header, one after the other. *)
Lemma field_skip n m off len z rest : off - Z.of_nat n = m → 0 ≤ m →
  slice off len (le_bytes n z ++ rest) = slice m len rest.
Proof. intros Hm H0. rewrite slice_app_skip by (rewrite zlen_le_bytes; lia). by rewrite zlen_le_bytes, Hm. Qed.

Lemma field_here n z rest : 0 ≤ z < 2 ^ (8 * Z.of_nat n) →
  le_val (slice 0 (Z.of_nat n) (le_bytes n z ++ rest)) = z.
Proof. intros Hz. rewrite slice_app_here by apply zlen_le_bytes. by apply le_val_le_bytes. Qed.

Ltac read_field :=
  repeat (erewrite field_skip; [|cbv; reflexivity|lia]); first
    [ rewrite (field_here 8) by (cbn; lia); reflexivity
    | rewrite (field_here 4) by (cbn; lia); reflexivity ].

(** ** Bit fields *)

Lemma lor_shiftl_add a b n : 0 ≤ n → 0 ≤ a < 2 ^ n → Z.lor a (Z.shiftl b n) = a + b * 2 ^ n.
Proof.
  intros Hn Ha. assert (Z.land a (Z.shiftl b n) = 0) as Hl.
  { apply Z.bits_inj'. intros i Hi. rewrite Z.land_spec, Z.bits_0.
    destruct (decide (i < n)).
    - rewrite Z.shiftl_spec_low by done. apply andb_false_r.
    - rewrite <- (Z.mod_small a (2 ^ n)), Z.mod_pow2_bits_high by lia. done. }
  rewrite <- Z.lxor_lor, <- Z.add_nocarry_lxor, Z.shiftl_mul_pow2 by done. done.
Qed.

Lemma testbit_one_shift s t : 0 ≤ s → 0 ≤ t → Z.testbit (Z.shiftl 1 s) t = (s =? t).
Proof.
  intros Hs Ht. rewrite Z.shiftl_1_l, Z.pow2_bits_eqb by done. done.
Qed.

Lemma land_mask z n : 0 ≤ n → Z.land z (2 ^ n - 1) = z mod 2 ^ n.
Proof. intros. rewrite <- Z.land_ones, Z.ones_equiv by done. f_equal. Qed.
