(* ===== verification/LsmtSegment.v ===== *)
(** * LSMT segments and segment mappings

    Models [Segment], [SegmentMapping] and the raw-index compression of
    [storage/overlaybd/src/lsmt/index.rs].  Offsets and lengths are counted in
    512-byte sectors.  The meaning of a list of mappings is its [view]: the
    function from a logical sector to the place the sector is stored. *)

From S2P Require Import Prelude.

(** ** Data *)

(** A zero mapping without physical backing: the all-ones 55-bit offset. *)
Definition NO_PHYSICAL_OFFSET : Z := 2 ^ 55 - 1.

Record Segment : Type := mkSeg { seg_offset : Z; seg_length : Z }.

Definition MAX_LENGTH : Z := Z.shiftl 1 14 - 1.

Lemma MAX_LENGTH_val : MAX_LENGTH = 16383.
Proof. done. Qed.

(** [Segment::end] *)
Definition seg_end (s : Segment) : Z := wrap64 (seg_offset s + seg_length s).

(** [Segment::forward_offset_to] returns the number of sectors skipped. *)
Definition seg_forward_offset_to (s : Segment) (x : Z) : Segment * Z :=
  if x <=? seg_offset s then (s, 0)
  else
    let delta := x - seg_offset s in
    if seg_length s <=? delta
    then (mkSeg x 0, delta)
    else (mkSeg x (seg_length s - wrap32 delta), delta).

(** [Segment::backward_end_to] *)
Definition seg_backward_end_to (s : Segment) (x : Z) : Segment :=
  if seg_offset s <? x
  then mkSeg (seg_offset s) (wrap32 (x - seg_offset s))
  else mkSeg (seg_offset s) 0.

Record SegmentMapping : Type := mkMapping {
  segment : Segment;
  moffset : Z;
  zeroed : bool;
  tag : Z
}.

#[global] Instance Segment_eq_dec : EqDecision Segment.
Proof. solve_decision. Defined.
#[global] Instance SegmentMapping_eq_dec : EqDecision SegmentMapping.
Proof. solve_decision. Defined.

(** [SegmentMapping::new] *)
Definition sm_new (offset length moff : Z) (z : bool) (t : Z) : SegmentMapping :=
  mkMapping (mkSeg offset length) moff z t.

Definition sm_offset (m : SegmentMapping) : Z := seg_offset (segment m).
Definition sm_length (m : SegmentMapping) : Z := seg_length (segment m).
Definition sm_end (m : SegmentMapping) : Z := seg_end (segment m).

Definition has_physical_range (m : SegmentMapping) : bool :=
  negb (moffset m =? NO_PHYSICAL_OFFSET).

Definition mend (m : SegmentMapping) : Z :=
  if has_physical_range m then wrap64 (moffset m + sm_length m) else NO_PHYSICAL_OFFSET.

Definition sm_forward_offset_to (m : SegmentMapping) (x : Z) : SegmentMapping :=
  let '(s, delta) := seg_forward_offset_to (segment m) x in
  let mo := if has_physical_range m && (0 <? delta)
            then wrap64 (moffset m + delta) else moffset m in
  mkMapping s mo (zeroed m) (tag m).

Definition sm_backward_end_to (m : SegmentMapping) (x : Z) : SegmentMapping :=
  mkMapping (seg_backward_end_to (segment m) x) (moffset m) (zeroed m) (tag m).

Definition can_merge_with (m next : SegmentMapping) : bool :=
  (sm_end m =? sm_offset next)
  && Bool.eqb (zeroed m) (zeroed next)
  && (tag m =? tag next)
  && Bool.eqb (has_physical_range m) (has_physical_range next)
  && (mend m =? moffset next)
  && (sm_length m + sm_length next <=? MAX_LENGTH).

(** [mapping.segment.length += n] on a [u32] *)
Definition sm_grow (m : SegmentMapping) (n : Z) : SegmentMapping :=
  mkMapping (mkSeg (sm_offset m) (wrap32 (sm_length m + n))) (moffset m) (zeroed m) (tag m).

Definition set_tag (m : SegmentMapping) (t : Z) : SegmentMapping :=
  mkMapping (segment m) (moffset m) (zeroed m) t.
Definition set_moffset (m : SegmentMapping) (mo : Z) : SegmentMapping :=
  mkMapping (segment m) mo (zeroed m) (tag m).
Definition set_zeroed (m : SegmentMapping) (z : bool) : SegmentMapping :=
  mkMapping (segment m) (moffset m) z (tag m).

(** ** Raw-index compression *)

(** The loop of [compress_raw_index]: [j] runs over the positions [1 .. n],
    [i] is the last slot of the compressed prefix; the vector is updated in
    place.  An out-of-range index would panic and is [None]. *)
Fixpoint compress_loop (js : list nat) (i : nat) (v : list SegmentMapping)
  : option (nat * list SegmentMapping) :=
  match js with
  | [] => Some (i, v)
  | j :: js' =>
      match v !! i, v !! j with
      | Some m_i, Some m_j =>
          if can_merge_with m_i m_j
          then compress_loop js' i (<[i := sm_grow m_i (sm_length m_j)]> v)
          else if decide (S i < length v)%nat
               then compress_loop js' (S i) (<[S i := m_j]> v)
               else None
      | _, _ => None
      end
  end.

Definition compress_raw_index (v : list SegmentMapping)
  : option (nat * list SegmentMapping) :=
  let n := length v in
  if (n <? 2)%nat then Some (n, v)
  else match compress_loop (seq 1 (n - 1)) 0 v with
       | Some (i, v') => Some (S i, take (S i) v')
       | None => None
       end.

Definition predict_step (acc : nat * SegmentMapping) (item : SegmentMapping)
  : nat * SegmentMapping :=
  let '(i, m) := acc in
  if can_merge_with m item then (i, sm_grow m (sm_length item)) else (S i, item).

Definition compress_raw_index_predict (v : list SegmentMapping) : nat :=
  match v with
  | [] => 0%nat
  | m0 :: rest =>
      if (length v <? 2)%nat then length v
      else S (fst (fold_left predict_step rest (0%nat, m0)))
  end.

(** ** Meaning of a list of mappings *)

(** Where one logical sector is stored: the physical sector it retains (if
    any), whether it reads as zero, and the layer tag. *)
Record Loc : Type := mkLoc {
  loc_phys : option Z;
  loc_zeroed : bool;
  loc_tag : Z
}.

Definition loc_at (m : SegmentMapping) (x : Z) : Loc :=
  mkLoc (if has_physical_range m then Some (moffset m + (x - sm_offset m)) else None)
        (zeroed m) (tag m).

Definition covers (m : SegmentMapping) (x : Z) : bool :=
  (sm_offset m <=? x) && (x <? sm_offset m + sm_length m).

Fixpoint view (ms : list SegmentMapping) (x : Z) : option Loc :=
  match ms with
  | [] => None
  | m :: ms' => if covers m x then Some (loc_at m x) else view ms' x
  end.

(** A mapping whose fields fit their machine widths with no overflow in
    [end] and [mend]; a physical range never reaches the marker value. *)
Record wf_mapping (m : SegmentMapping) : Prop := mk_wf_mapping {
  wf_off : 0 ≤ sm_offset m;
  wf_len : 0 < sm_length m < 2 ^ 32;
  wf_end : sm_offset m + sm_length m < 2 ^ 64;
  wf_phys : moffset m = NO_PHYSICAL_OFFSET
            ∨ (0 ≤ moffset m ∧ moffset m + sm_length m ≤ NO_PHYSICAL_OFFSET);
  wf_tag : 0 ≤ tag m < 2 ^ 8
}.

(** [a] ends before [b] begins. *)
Definition before (a b : SegmentMapping) : Prop :=
  sm_offset a + sm_length a ≤ sm_offset b.

(** Sorted by offset and pairwise disjoint: the invariant of every index. *)
Definition wf_index (ms : list SegmentMapping) : Prop :=
  Forall wf_mapping ms ∧ StronglySorted before ms.

Record wf_query (q : Segment) : Prop := mk_wf_query {
  wq_off : 0 ≤ seg_offset q;
  wq_len : 0 ≤ seg_length q < 2 ^ 32;
  wq_end : seg_offset q + seg_length q < 2 ^ 64
}.

Create HintDb lsmt.
#[export] Hint Resolve wf_off wf_len wf_end wf_phys wf_tag : lsmt.

(** Bring the numeric facts of every well-formed mapping in scope. *)
Ltac wf_facts :=
  repeat match goal with
  | H : wf_mapping ?m |- _ =>
      lazymatch goal with
      | _ : 0 ≤ sm_offset m |- _ => fail
      | _ => pose proof (wf_off m H); pose proof (wf_len m H);
             pose proof (wf_end m H); pose proof (wf_phys m H);
             pose proof (wf_tag m H)
      end
  | H : wf_query ?q |- _ =>
      lazymatch goal with
      | _ : 0 ≤ seg_offset q |- _ => fail
      | _ => pose proof (wq_off q H); pose proof (wq_len q H); pose proof (wq_end q H)
      end
  end.

(** Reduce mappings to their fields. *)
Ltac sm_unfold :=
  unfold sm_offset, sm_length, sm_end, seg_end, covers, before, set_tag, set_moffset,
    set_zeroed in *; simpl in *.

Lemma covers_iff m x : covers m x = true ↔ sm_offset m ≤ x < sm_offset m + sm_length m.
Proof. unfold covers. lia. Qed.

Lemma sm_end_wf m : wf_mapping m → sm_end m = sm_offset m + sm_length m.
Proof. intros H. wf_facts. sm_unfold. by unwrap. Qed.

Lemma seg_end_wf q : wf_query q → seg_end q = seg_offset q + seg_length q.
Proof. intros H. wf_facts. unfold seg_end. by unwrap. Qed.

Lemma mend_wf m : wf_mapping m → has_physical_range m = true →
  mend m = moffset m + sm_length m.
Proof.
  intros H Hp. wf_facts. unfold mend. rewrite Hp.
  unfold has_physical_range, NO_PHYSICAL_OFFSET in *. by unwrap.
Qed.

(** ** Clipping keeps every remaining sector where it was *)

Lemma forward_offset_to_spec m x :
  wf_mapping m → sm_offset m < x < sm_offset m + sm_length m →
  let m' := sm_forward_offset_to m x in
  wf_mapping m' ∧ sm_offset m' = x
  ∧ sm_offset m' + sm_length m' = sm_offset m + sm_length m
  ∧ (∀ y, loc_at m' y = loc_at m y).
Proof.
  intros Hwf Hx. wf_facts. unfold sm_forward_offset_to, seg_forward_offset_to.
  destruct m as [[o l] mo z t]; sm_unfold.
  destruct (Z.leb_spec x o); [lia|].
  destruct (Z.leb_spec l (x - o)); [lia|].
  unfold has_physical_range in *; simpl in *.
  destruct (Z.ltb_spec 0 (x - o)); [|lia].
  unfold NO_PHYSICAL_OFFSET in *.
  destruct (Z.eqb_spec mo (2 ^ 55 - 1)); simpl; unwrap.
  - split; [constructor; sm_unfold; unfold NO_PHYSICAL_OFFSET; lia|].
    repeat split; try lia. intros y. unfold loc_at, has_physical_range; sm_unfold.
    unfold NO_PHYSICAL_OFFSET. destruct (Z.eqb_spec mo (2 ^ 55 - 1)); [done|lia].
  - split; [constructor; sm_unfold; unfold NO_PHYSICAL_OFFSET; lia|].
    repeat split; try lia. intros y. unfold loc_at, has_physical_range; sm_unfold.
    unfold NO_PHYSICAL_OFFSET.
    destruct (Z.eqb_spec (mo + (x - o)) (2 ^ 55 - 1)); [lia|].
    destruct (Z.eqb_spec mo (2 ^ 55 - 1)); [lia|]. simpl. do 2 f_equal. lia.
Qed.

Lemma backward_end_to_spec m x :
  wf_mapping m → sm_offset m < x ≤ sm_offset m + sm_length m →
  let m' := sm_backward_end_to m x in
  wf_mapping m' ∧ sm_offset m' = sm_offset m
  ∧ sm_offset m' + sm_length m' = x
  ∧ (∀ y, loc_at m' y = loc_at m y).
Proof.
  intros Hwf Hx. wf_facts. unfold sm_backward_end_to, seg_backward_end_to.
  destruct m as [[o l] mo z t]; sm_unfold.
  destruct (Z.ltb_spec o x); [|lia]. unwrap.
  split; [constructor; sm_unfold; lia|]. split_and!; [done|simpl; lia|done].
Qed.

(** ** Views of sorted lists *)

Lemma before_trans a b c : wf_mapping b → before a b → before b c → before a c.
Proof. intros. wf_facts. unfold before in *. lia. Qed.

Lemma wf_index_nil : wf_index [].
Proof. split; constructor. Qed.

Lemma wf_index_cons m ms :
  wf_index (m :: ms) ↔ wf_mapping m ∧ Forall (before m) ms ∧ wf_index ms.
Proof.
  unfold wf_index. rewrite Forall_cons.
  split.
  - intros [[? ?] Hs]. apply StronglySorted_inv in Hs as [? ?]. done.
  - intros (? & ? & ? & ?). split; [done|]. by constructor.
Qed.

Lemma wf_index_app l1 l2 :
  wf_index (l1 ++ l2) ↔
  wf_index l1 ∧ wf_index l2 ∧ ∀ a b, a ∈ l1 → b ∈ l2 → before a b.
Proof.
  induction l1 as [|m l1 IH]; simpl.
  - split; [intros H; split; [apply wf_index_nil|split; [done|]]|naive_solver].
    intros a b Ha. by apply not_elem_of_nil in Ha.
  - rewrite !wf_index_cons, IH, Forall_app, !Forall_forall. set_solver.
Qed.

Lemma view_app l1 l2 x :
  view (l1 ++ l2) x = match view l1 x with Some l => Some l | None => view l2 x end.
Proof. induction l1 as [|m l1 IH]; simpl; [done|]. by destruct (covers m x). Qed.

Lemma view_None ms x : view ms x = None ↔ ∀ m, m ∈ ms → covers m x = false.
Proof.
  induction ms as [|m ms IH]; simpl.
  - split; [|done]. intros _ m Hm. by apply not_elem_of_nil in Hm.
  - destruct (covers m x) eqn:E.
    + split; [done|]. intros H. rewrite (H m) in E; [done|]. apply elem_of_cons; auto.
    + rewrite IH. set_solver.
Qed.

Lemma view_Some ms x l : view ms x = Some l →
  ∃ m, m ∈ ms ∧ covers m x = true ∧ l = loc_at m x.
Proof.
  induction ms as [|m ms IH]; simpl; [done|].
  destruct (covers m x) eqn:E.
  - intros [= <-]. exists m. split; [apply elem_of_cons|]; auto.
  - intros H. apply IH in H as (m' & ? & ? & ?). exists m'.
    split; [apply elem_of_cons|]; auto.
Qed.

Lemma elem_of_wf ms m : wf_index ms → m ∈ ms → wf_mapping m.
Proof. intros [H _] Hm. rewrite Forall_forall in H. auto. Qed.

(** In a disjoint list a sector belongs to at most one mapping. *)
Lemma view_elem ms m x : wf_index ms → m ∈ ms → covers m x = true →
  view ms x = Some (loc_at m x).
Proof.
  induction ms as [|a ms IH]; intros Hwf Hm Hc; [by apply not_elem_of_nil in Hm|].
  apply wf_index_cons in Hwf as (Ha & Hb & Hwf). simpl.
  apply elem_of_cons in Hm as [->|Hm]; [by rewrite Hc|].
  rewrite Forall_forall in Hb. specialize (Hb m Hm).
  pose proof (elem_of_wf _ _ Hwf Hm).
  destruct (covers a x) eqn:E; [|by apply IH].
  apply covers_iff in E, Hc. unfold before in Hb. lia.
Qed.

Lemma view_below ms x :
  (∀ m, m ∈ ms → x < sm_offset m) → view ms x = None.
Proof. intros H. apply view_None. intros m Hm. specialize (H m Hm). unfold covers. lia. Qed.

Lemma view_above ms x :
  (∀ m, m ∈ ms → sm_offset m + sm_length m ≤ x) → view ms x = None.
Proof. intros H. apply view_None. intros m Hm. specialize (H m Hm). unfold covers. lia. Qed.

(** Two mappings of a well-formed index that overlap are the same mapping. *)
Lemma wf_index_overlap ms a b : wf_index ms → a ∈ ms → b ∈ ms →
  sm_offset a < sm_offset b + sm_length b → sm_offset b < sm_offset a + sm_length a →
  a = b.
Proof.
  induction ms as [|m ms IH]; intros Hwf Ha Hb H1 H2; [by apply not_elem_of_nil in Ha|].
  apply wf_index_cons in Hwf as (? & Hf & Hwf). rewrite Forall_forall in Hf.
  unfold before in Hf.
  apply elem_of_cons in Ha as [->|Ha], Hb as [->|Hb]; auto.
  - specialize (Hf b Hb). lia.
  - specialize (Hf a Ha). lia.
Qed.

(** ** Compression computes the greedy merge *)

(** Reference: merge the current mapping with its successor while possible. *)
Fixpoint compress_ref (cur : SegmentMapping) (rest : list SegmentMapping)
  : list SegmentMapping :=
  match rest with
  | [] => [cur]
  | x :: rest' =>
      if can_merge_with cur x
      then compress_ref (sm_grow cur (sm_length x)) rest'
      else cur :: compress_ref x rest'
  end.

Definition compress_spec (v : list SegmentMapping) : list SegmentMapping :=
  match v with [] => [] | m :: rest => compress_ref m rest end.

Lemma length_compress_ref cur rest : (0 < length (compress_ref cur rest))%nat.
Proof.
  revert cur. induction rest as [|x rest IH]; intros cur; simpl; [lia|].
  destruct (can_merge_with cur x); [apply IH|simpl; lia].
Qed.

Lemma compress_loop_ref rest : ∀ pre cur junk,
  ∃ i' v',
    compress_loop (seq (length pre + 1 + length junk) (length rest)) (length pre)
      (pre ++ cur :: junk ++ rest) = Some (i', v')
    ∧ take (S i') v' = pre ++ compress_ref cur rest
    ∧ S i' = (length pre + length (compress_ref cur rest))%nat.
Proof.
  induction rest as [|x rest IH]; intros pre cur junk; simpl.
  - exists (length pre), (pre ++ cur :: junk ++ []). split; [done|].
    rewrite take_app_ge, Nat.sub_succ_l, Nat.sub_diag by lia.
    simpl. rewrite take_0. split; [done|lia].
  - rewrite list_lookup_middle by done.
    assert ((pre ++ cur :: junk ++ x :: rest) !! (length pre + 1 + length junk)%nat
            = Some x) as ->.
    { rewrite lookup_app_r, lookup_cons_ne_0, lookup_app_r by lia.
      by replace (_ - _)%nat with 0%nat by lia. }
    destruct (can_merge_with cur x) eqn:Hm.
    + rewrite insert_app_r_alt, Nat.sub_diag by lia. simpl.
      destruct (IH pre (sm_grow cur (sm_length x)) (junk ++ [x])) as (i' & v' & E & ?).
      rewrite length_app, <- (assoc_L (++)) in E. simpl in E.
      exists i', v'. rewrite <- E. split; [|done]. do 2 f_equal; lia.
    + rewrite decide_True by (rewrite length_app; simpl; rewrite length_app; simpl; lia).
      replace (<[S (length pre):=x]> (pre ++ cur :: junk ++ x :: rest))
        with ((pre ++ [cur]) ++ x :: tail (junk ++ [x]) ++ rest).
      2:{ rewrite insert_app_r_alt by lia. replace (_ - _)%nat with 1%nat by lia.
          rewrite <- (assoc_L (++)). simpl. do 2 f_equal.
          destruct junk as [|y junk]; simpl; [done|].
          by rewrite <- (assoc_L (++)). }
      destruct (IH (pre ++ [cur]) x (tail (junk ++ [x]))) as (i' & v' & E & Ht & Hl).
      exists i', v'. rewrite !length_app in E. rewrite length_app in Hl. simpl in *.
      split; [|split; [by rewrite Ht, <- (assoc_L (++))|lia]].
      rewrite <- E. f_equal; [f_equal|lia].
      destruct junk; simpl; rewrite ?length_app; simpl; lia.
Qed.

Lemma compress_raw_index_ref v :
  compress_raw_index v = Some (length (compress_spec v), compress_spec v).
Proof.
  destruct v as [|m [|x rest]]; [done..|].
  unfold compress_raw_index. cbn [length Nat.ltb Nat.leb].
  destruct (compress_loop_ref (x :: rest) [] m []) as (i' & v' & E & Ht & Hl).
  replace (S (S (length rest)) - 1)%nat with (length (x :: rest)) by (simpl; lia).
  change (length [] + 1 + length [])%nat with 1%nat in E. simpl app in E.
  change (length []) with 0%nat in E. rewrite E, Ht, Hl. done.
Qed.

Lemma predict_step_count rest : ∀ i m,
  fst (fold_left predict_step rest (i, m)) = (i + (length (compress_ref m rest) - 1))%nat.
Proof.
  induction rest as [|x rest IH]; intros i m; simpl; [lia|].
  destruct (can_merge_with m x); rewrite IH; [done|].
  simpl. pose proof (length_compress_ref x rest). lia.
Qed.

Lemma compress_predict_ref v : compress_raw_index_predict v = length (compress_spec v).
Proof.
  destruct v as [|m [|x rest]]; [done..|].
  unfold compress_raw_index_predict. cbn [length Nat.ltb Nat.leb].
  rewrite predict_step_count.
  change (compress_spec (m :: x :: rest)) with (compress_ref m (x :: rest)).
  pose proof (length_compress_ref m (x :: rest)). lia.
Qed.

(** *** Merging two adjacent mappings loses nothing *)

Lemma can_merge_fields m n : wf_mapping m → wf_mapping n → can_merge_with m n = true →
  sm_offset n = sm_offset m + sm_length m ∧ zeroed n = zeroed m ∧ tag n = tag m
  ∧ has_physical_range n = has_physical_range m
  ∧ (has_physical_range m = true → moffset n = moffset m + sm_length m)
  ∧ sm_length m + sm_length n ≤ MAX_LENGTH.
Proof.
  intros Hm Hn. unfold can_merge_with. rewrite !andb_true_iff, sm_end_wf by done.
  intros (((((?%Z.eqb_eq & ?%Bool.eqb_prop) & ?%Z.eqb_eq) & ?%Bool.eqb_prop) & Hme) & ?).
  split_and!; try done; try lia. intros Hp. rewrite mend_wf in Hme by done. lia.
Qed.

Lemma sm_grow_spec m n : wf_mapping m → wf_mapping n → can_merge_with m n = true →
  let g := sm_grow m (sm_length n) in
  wf_mapping g ∧ sm_offset g = sm_offset m
  ∧ sm_length g = sm_length m + sm_length n
  ∧ (∀ x, view [g] x = view [m; n] x).
Proof.
  intros Hm Hn Hc. destruct (can_merge_fields m n Hm Hn Hc) as (Ho & Hz & Ht & Hp & Hmo & Hl).
  wf_facts. rewrite MAX_LENGTH_val in Hl.
  assert (sm_length (sm_grow m (sm_length n)) = sm_length m + sm_length n) as Hlen.
  { change (sm_length (sm_grow m (sm_length n)))
      with (wrap32 (sm_length m + sm_length n)). by unwrap. }
  assert (has_physical_range (sm_grow m (sm_length n)) = has_physical_range m) as Hph by done.
  unfold has_physical_range in Hp, Hmo.
  split_and!; try done.
  - constructor; rewrite ?Hlen; change (sm_offset (sm_grow m (sm_length n)))
      with (sm_offset m); simpl; lia.
  - intros x. simpl.
    assert (covers (sm_grow m (sm_length n)) x = covers m x || covers n x) as ->.
    { unfold covers. rewrite Hlen.
      change (sm_offset (sm_grow m (sm_length n))) with (sm_offset m). lia. }
    destruct (covers m x) eqn:E1; simpl; [done|].
    destruct (covers n x) eqn:E2; [|done]. f_equal. unfold loc_at. rewrite Hph.
    change (sm_offset (sm_grow m (sm_length n))) with (sm_offset m). simpl.
    rewrite Hz, Ht. f_equal. unfold has_physical_range. rewrite Hp.
    destruct (negb (moffset m =? NO_PHYSICAL_OFFSET)); [|done].
    rewrite Hmo by done. f_equal. lia.
Qed.

Lemma compress_ref_head rest : ∀ cur, ∃ h t,
  compress_ref cur rest = h :: t ∧ sm_offset h = sm_offset cur.
Proof.
  induction rest as [|x rest IH]; intros cur; simpl; [by eexists _, _|].
  destruct (can_merge_with cur x); [|by eexists _, _].
  destruct (IH (sm_grow cur (sm_length x))) as (h & t & -> & Hh). eauto.
Qed.

Lemma compress_ref_lb rest : ∀ cur b,
  (∀ m, m ∈ cur :: rest → b ≤ sm_offset m) →
  ∀ m, m ∈ compress_ref cur rest → b ≤ sm_offset m.
Proof.
  induction rest as [|x rest IH]; intros cur b Hb m; simpl.
  - apply Hb.
  - destruct (can_merge_with cur x).
    + apply IH. intros m' [->|Hm']%elem_of_cons; [apply (Hb cur)|apply Hb]; set_solver.
    + intros [->|Hm]%elem_of_cons; [apply Hb; set_solver|].
      revert m Hm. apply IH. intros m' Hm'. apply Hb. set_solver.
Qed.

Lemma compress_ref_view rest : ∀ cur, wf_index (cur :: rest) →
  wf_index (compress_ref cur rest)
  ∧ ∀ x, view (compress_ref cur rest) x = view (cur :: rest) x.
Proof.
  induction rest as [|n rest IH]; intros cur Hwf; simpl; [done|].
  pose proof Hwf as Hwf'.
  apply wf_index_cons in Hwf' as (Hc & Hb & Hwf').
  pose proof Hwf' as Hwf''. apply wf_index_cons in Hwf'' as (Hn & Hb' & Hr).
  destruct (can_merge_with cur n) eqn:Hm.
  - destruct (sm_grow_spec cur n Hc Hn Hm) as (Hg & Hgo & Hgl & Hgv).
    destruct (can_merge_fields cur n Hc Hn Hm) as (Ho & _).
    destruct (IH (sm_grow cur (sm_length n))) as [Hw Hv].
    { apply wf_index_cons. split_and!; [done| |done].
      eapply Forall_impl; [exact Hb'|]. unfold before. intros y. simpl. lia. }
    split; [done|]. intros x. rewrite Hv.
    specialize (Hgv x). simpl in Hgv |- *.
    destruct (covers (sm_grow cur (sm_length n)) x), (covers cur x), (covers n x); congruence.
  - destruct (IH n Hwf') as [Hw Hv]. split.
    + apply wf_index_cons. split_and!; [done| |done].
      apply Forall_forall. intros m Hm'. unfold before.
      eapply compress_ref_lb; [|done]. rewrite Forall_forall in Hb. exact Hb.
    + intros x. simpl. destruct (covers cur x); [done|]. apply Hv.
Qed.

(** No two neighbours of the result can be merged, so compressing twice
    changes nothing. *)
Lemma can_merge_grow m n k : wf_mapping n → 0 < k → sm_length n + k < 2 ^ 32 →
  can_merge_with m n = false → can_merge_with m (sm_grow n k) = false.
Proof.
  intros Hn Hk Hl Hf. wf_facts. apply not_true_iff_false in Hf. apply not_true_iff_false.
  intros Ht. apply Hf. revert Ht. unfold can_merge_with, sm_grow, has_physical_range.
  rewrite !andb_true_iff. unfold sm_length, sm_offset in *; simpl. unwrap.
  intros (((((? & ?) & ?) & ?) & ?) & ?). split_and!; try done. lia.
Qed.

Lemma compress_ref_fix l : ∀ m,
  (∀ i a b, (m :: l) !! i = Some a → (m :: l) !! S i = Some b → can_merge_with a b = false) →
  compress_ref m l = m :: l.
Proof.
  induction l as [|x l IH]; intros m H; simpl; [done|].
  rewrite (H 0%nat m x) by done. f_equal. apply IH. intros i. apply (H (S i)).
Qed.

Lemma compress_ref_stuck rest : ∀ cur, wf_index (cur :: rest) →
  (∀ i a b, compress_ref cur rest !! i = Some a → compress_ref cur rest !! S i = Some b →
    can_merge_with a b = false)
  ∧ (∀ p h, wf_mapping cur → can_merge_with p cur = false →
      compress_ref cur rest !! 0%nat = Some h → can_merge_with p h = false).
Proof.
  induction rest as [|n rest IH]; intros cur Hwf; simpl.
  - split; [intros [|] a b; simpl; done|]. intros p h ? ? [= <-]. done.
  - apply wf_index_cons in Hwf as (Hc & Hb & Hwf').
    pose proof Hwf' as Hwf''. apply wf_index_cons in Hwf'' as (Hn & Hb' & Hr).
    destruct (can_merge_with cur n) eqn:Hm.
    + destruct (sm_grow_spec cur n Hc Hn Hm) as (Hg & Hgo & Hgl & Hgv).
      destruct (can_merge_fields cur n Hc Hn Hm) as (Ho & _ & _ & _ & _ & HM).
      destruct (IH (sm_grow cur (sm_length n))) as [H1 H2].
      { apply wf_index_cons. split_and!; [done| |done].
        eapply Forall_impl; [exact Hb'|]. unfold before. intros y. simpl. lia. }
      split; [done|]. intros p h Hwc Hpc. apply H2; [done|].
      wf_facts. rewrite MAX_LENGTH_val in HM. apply can_merge_grow; try done; lia.
    + destruct (IH n Hwf') as [H1 H2]. split; [|intros p h ? ? [= <-]; done].
      intros [|i] a b; simpl; [|apply H1]. intros [= <-] Hh. by apply H2.
Qed.

Lemma compress_spec_view v : wf_index v →
  wf_index (compress_spec v) ∧ ∀ x, view (compress_spec v) x = view v x.
Proof. destruct v; [done|]. apply compress_ref_view. Qed.

Lemma compress_spec_idemp v : wf_index v →
  compress_spec (compress_spec v) = compress_spec v.
Proof.
  destruct v as [|m rest]; [done|]. simpl. intros Hwf.
  destruct (compress_ref_stuck rest m Hwf) as [H _].
  destruct (compress_ref m rest) as [|h t] eqn:E; [done|]. simpl. by apply compress_ref_fix.
Qed.

(** ** Checking well-formedness by evaluation *)

Definition wf_mapping_b (m : SegmentMapping) : bool :=
  (0 <=? sm_offset m) && (0 <? sm_length m) && (sm_length m <? 2 ^ 32)
  && (sm_offset m + sm_length m <? 2 ^ 64)
  && ((moffset m =? NO_PHYSICAL_OFFSET)
      || (0 <=? moffset m) && (moffset m + sm_length m <=? NO_PHYSICAL_OFFSET))
  && (0 <=? tag m) && (tag m <? 2 ^ 8).

Fixpoint wf_index_b (ms : list SegmentMapping) : bool :=
  match ms with
  | [] => true
  | m :: ms' =>
      wf_mapping_b m
      && forallb (λ a, sm_offset m + sm_length m <=? sm_offset a) ms' && wf_index_b ms'
  end.

Lemma wf_mapping_b_true m : wf_mapping_b m = true → wf_mapping m.
Proof. unfold wf_mapping_b. intros H. constructor; lia. Qed.

Lemma wf_index_b_true ms : wf_index_b ms = true → wf_index ms.
Proof.
  induction ms as [|m ms IH]; simpl; [intros _; apply wf_index_nil|].
  intros [[Hm Hf]%andb_prop Hs]%andb_prop. apply wf_index_cons.
  split_and!; [by apply wf_mapping_b_true| |by apply IH].
  rewrite forallb_forall in Hf. apply Forall_forall. intros a Ha. unfold before.
  apply list_elem_of_In in Ha. specialize (Hf a Ha). cbv beta in Hf. lia.
Qed.

(** ** Properties *)

(** compressing a raw index never fails, returns exactly the predicted
    number of mappings, keeps the index well-formed, stores every sector where
    it was stored before, and leaves nothing more to merge. *)
Theorem compress_raw_index_correct v : wf_index v →
  ∃ out, compress_raw_index v = Some (compress_raw_index_predict v, out)
    ∧ length out = compress_raw_index_predict v
    ∧ wf_index out
    ∧ (∀ x, view out x = view v x)
    ∧ compress_raw_index out = Some (length out, out).
Proof.
  intros Hv. exists (compress_spec v).
  rewrite !compress_raw_index_ref, compress_predict_ref, compress_spec_idemp by done.
  destruct (compress_spec_view v Hv). done.
Qed.

Definition raw_example : list SegmentMapping :=
  [sm_new 0 8 100 false 1; sm_new 8 4 108 false 1; sm_new 20 8 NO_PHYSICAL_OFFSET true 1;
   sm_new 28 8 NO_PHYSICAL_OFFSET true 1; sm_new 40 1 7 false 2].

Lemma compress_raw_index_correct_witness :
  ∃ out, compress_raw_index raw_example = Some (3%nat, out)
    ∧ view out 10 = Some (mkLoc (Some 110) false 1).
Proof.
  destruct (compress_raw_index_correct raw_example) as (out & E & _ & _ & Hv & _).
  - apply wf_index_b_true. vm_compute. reflexivity.
  - exists out. split; [exact E|]. rewrite Hv. vm_compute. reflexivity.
Defined.
