(* ===== verification/LsmtFormat.v ===== *)
(** * The on-disk LSMT format

    Models [storage/overlaybd/src/lsmt/format.rs]: the packed 16-byte
    [DiskSegmentMapping] and the 390-byte [HeaderTrailer] with its flag word. *)

From S2P Require Import Prelude LsmtSegment.

(** ** [DiskSegmentMapping] *)

Record DiskSegmentMapping : Type := mkDisk { data_low : Z; data_high : Z }.

Definition OFFSET_MASK : Z := 2 ^ 50 - 1.
Definition LENGTH_MASK : Z := 2 ^ 14 - 1.
Definition MOFFSET_MASK : Z := 2 ^ 55 - 1.
Definition TAG_MASK : Z := 2 ^ 8 - 1.

(** Low word: offset (0..50), length (50..64).  High word: moffset (0..55),
    zeroed (55), tag (56..64). *)
Definition from_memory (m : SegmentMapping) : DiskSegmentMapping :=
  let offset := Z.land (sm_offset m) OFFSET_MASK in
  let length := Z.land (sm_length m) LENGTH_MASK in
  let low := Z.lor offset (wrap64 (Z.shiftl length 50)) in
  let moff := Z.land (moffset m) MOFFSET_MASK in
  let z := if zeroed m then 1 else 0 in
  let t := Z.land (tag m) TAG_MASK in
  let high := Z.lor (Z.lor moff (wrap64 (Z.shiftl z 55))) (wrap64 (Z.shiftl t 56)) in
  mkDisk low high.

Definition to_memory (d : DiskSegmentMapping) : SegmentMapping :=
  let offset := Z.land (data_low d) OFFSET_MASK in
  let length := Z.land (Z.shiftr (data_low d) 50) LENGTH_MASK in
  let moff := Z.land (data_high d) MOFFSET_MASK in
  let z := negb (Z.land (Z.shiftr (data_high d) 55) 1 =? 0) in
  let t := wrap8 (Z.shiftr (data_high d) 56) in
  sm_new offset (wrap32 length) moff z t.

Definition MAPPING_SIZE : Z := 16.

(** [as_bytes] and [read_from_bytes] of the packed pair of words. *)
Definition disk_bytes (d : DiskSegmentMapping) : list Z :=
  le_bytes 8 (data_low d) ++ le_bytes 8 (data_high d).

Definition disk_from_bytes (bs : list Z) : option DiskSegmentMapping :=
  if zlen bs =? MAPPING_SIZE
  then Some (mkDisk (le_val (take 8 bs)) (le_val (drop 8 bs)))
  else None.

(** ** [HeaderTrailer] *)

Record HeaderTrailer : Type := mkHT {
  magic0 : Z;
  magic1 : list Z;
  ht_size : Z;
  flags : Z;
  index_offset : Z;
  index_size : Z;
  virtual_size : Z;
  uuid : list Z;
  parent_uuid : list Z;
  reserved : Z;
  version : Z;
  sub_version : Z;
  user_tag : list Z
}.

Definition HT_SIZE : Z := 390.
Definition HT_SPACE : Z := 4096.
Definition MAGIC0 : Z := 0x00020100544d534c.
Definition MAGIC1 : list Z :=
  [0x65; 0x7e; 0x63; 0xd2; 0x94; 0x44; 0x08; 0x4c; 0xa2; 0xd2; 0xc8; 0xec; 0x4f; 0xcf; 0xae; 0x8a].

Definition FLAG_SHIFT_HEADER : Z := 0.
Definition FLAG_SHIFT_TYPE : Z := 1.
Definition FLAG_SHIFT_SEALED : Z := 2.
Definition FLAG_SHIFT_SPARSE_RW : Z := 4.
Definition FLAG_SHIFT_HYBRID_RW : Z := 5.

Definition ht_default : HeaderTrailer := {|
  magic0 := 0; magic1 := zeros 16; ht_size := HT_SIZE; flags := 0;
  index_offset := 0; index_size := 0; virtual_size := 0;
  uuid := zeros 37; parent_uuid := zeros 37; reserved := 0;
  version := 1; sub_version := 1; user_tag := zeros 256
|}.

Definition ht_new : HeaderTrailer := {|
  magic0 := MAGIC0; magic1 := MAGIC1; ht_size := ht_size ht_default;
  flags := flags ht_default; index_offset := index_offset ht_default;
  index_size := index_size ht_default; virtual_size := virtual_size ht_default;
  uuid := uuid ht_default; parent_uuid := parent_uuid ht_default;
  reserved := reserved ht_default; version := version ht_default;
  sub_version := sub_version ht_default; user_tag := user_tag ht_default
|}.

Definition verify_magic (h : HeaderTrailer) : bool :=
  (magic0 h =? MAGIC0) && bool_decide (magic1 h = MAGIC1).

(** [update_flags] *)
Definition update_flags (f : Z → Z) (h : HeaderTrailer) : HeaderTrailer := {|
  magic0 := magic0 h; magic1 := magic1 h; ht_size := ht_size h; flags := f (flags h);
  index_offset := index_offset h; index_size := index_size h;
  virtual_size := virtual_size h; uuid := uuid h; parent_uuid := parent_uuid h;
  reserved := reserved h; version := version h; sub_version := sub_version h;
  user_tag := user_tag h
|}.

Definition flag_is (s : Z) (h : HeaderTrailer) : bool :=
  negb (Z.land (flags h) (Z.shiftl 1 s) =? 0).
Definition flag_set (s : Z) : HeaderTrailer → HeaderTrailer :=
  update_flags (λ f, Z.lor f (Z.shiftl 1 s)).
Definition flag_clear (s : Z) : HeaderTrailer → HeaderTrailer :=
  update_flags (λ f, Z.land f (not32 (Z.shiftl 1 s))).

Definition is_header : HeaderTrailer → bool := flag_is FLAG_SHIFT_HEADER.
Definition is_trailer (h : HeaderTrailer) : bool := negb (is_header h).
Definition is_data_file : HeaderTrailer → bool := flag_is FLAG_SHIFT_TYPE.
Definition is_sealed : HeaderTrailer → bool := flag_is FLAG_SHIFT_SEALED.
Definition is_sparse_rw : HeaderTrailer → bool := flag_is FLAG_SHIFT_SPARSE_RW.
Definition is_hybrid_rw : HeaderTrailer → bool := flag_is FLAG_SHIFT_HYBRID_RW.
Definition set_trailer : HeaderTrailer → HeaderTrailer := flag_clear FLAG_SHIFT_HEADER.
Definition set_header : HeaderTrailer → HeaderTrailer := flag_set FLAG_SHIFT_HEADER.
Definition set_data_file : HeaderTrailer → HeaderTrailer := flag_set FLAG_SHIFT_TYPE.
Definition set_index_file : HeaderTrailer → HeaderTrailer := flag_clear FLAG_SHIFT_TYPE.
Definition set_sealed : HeaderTrailer → HeaderTrailer := flag_set FLAG_SHIFT_SEALED.
Definition set_sparse_rw : HeaderTrailer → HeaderTrailer := flag_set FLAG_SHIFT_SPARSE_RW.
Definition set_hybrid_rw : HeaderTrailer → HeaderTrailer := flag_set FLAG_SHIFT_HYBRID_RW.

Definition ht_with (h : HeaderTrailer) (io isz vs : Z) : HeaderTrailer := {|
  magic0 := magic0 h; magic1 := magic1 h; ht_size := ht_size h; flags := flags h;
  index_offset := io; index_size := isz; virtual_size := vs;
  uuid := uuid h; parent_uuid := parent_uuid h; reserved := reserved h;
  version := version h; sub_version := sub_version h; user_tag := user_tag h
|}.
Definition set_index_offset (h : HeaderTrailer) (v : Z) : HeaderTrailer :=
  ht_with h v (index_size h) (virtual_size h).
Definition set_index_size (h : HeaderTrailer) (v : Z) : HeaderTrailer :=
  ht_with h (index_offset h) v (virtual_size h).
Definition set_virtual_size (h : HeaderTrailer) (v : Z) : HeaderTrailer :=
  ht_with h (index_offset h) (index_size h) v.
Definition set_unsealed_index_offset (h : HeaderTrailer) : HeaderTrailer :=
  set_index_offset h HT_SPACE.

(** The packed layout, field after field. *)
Definition ht_bytes (h : HeaderTrailer) : list Z :=
  le_bytes 8 (magic0 h) ++ magic1 h ++ le_bytes 4 (ht_size h) ++ le_bytes 4 (flags h)
  ++ le_bytes 8 (index_offset h) ++ le_bytes 8 (index_size h) ++ le_bytes 8 (virtual_size h)
  ++ uuid h ++ parent_uuid h ++ le_bytes 2 (reserved h)
  ++ le_bytes 1 (version h) ++ le_bytes 1 (sub_version h) ++ user_tag h.

(** [read_from_bytes]: one field is the next [n] bytes of the input. *)
Definition ht_from_bytes (bs : list Z) : option HeaderTrailer :=
  if zlen bs =? HT_SIZE then
    Some {|
      magic0 := le_val (slice 0 8 bs); magic1 := slice 8 16 bs;
      ht_size := le_val (slice 24 4 bs); flags := le_val (slice 28 4 bs);
      index_offset := le_val (slice 32 8 bs); index_size := le_val (slice 40 8 bs);
      virtual_size := le_val (slice 48 8 bs);
      uuid := slice 56 37 bs; parent_uuid := slice 93 37 bs;
      reserved := le_val (slice 130 2 bs); version := le_val (slice 132 1 bs);
      sub_version := le_val (slice 133 1 bs); user_tag := slice 134 256 bs
    |}
  else None.

(** Every field fits the width it has on disk. *)
Record wf_ht (h : HeaderTrailer) : Prop := mk_wf_ht {
  wh_magic0 : 0 ≤ magic0 h < 2 ^ 64;
  wh_magic1 : length (magic1 h) = 16%nat;
  wh_size : 0 ≤ ht_size h < 2 ^ 32;
  wh_flags : 0 ≤ flags h < 2 ^ 32;
  wh_index_offset : 0 ≤ index_offset h < 2 ^ 64;
  wh_index_size : 0 ≤ index_size h < 2 ^ 64;
  wh_virtual_size : 0 ≤ virtual_size h < 2 ^ 64;
  wh_uuid : length (uuid h) = 37%nat;
  wh_parent_uuid : length (parent_uuid h) = 37%nat;
  wh_reserved : 0 ≤ reserved h < 2 ^ 16;
  wh_version : 0 ≤ version h < 2 ^ 8;
  wh_sub_version : 0 ≤ sub_version h < 2 ^ 8;
  wh_user_tag : length (user_tag h) = 256%nat
}.

(** ** The mapping codec is a bijection *)

(** Fields that survive the disk format. *)
Definition disk_fits (m : SegmentMapping) : Prop :=
  0 ≤ sm_offset m < 2 ^ 50 ∧ 0 ≤ sm_length m < 2 ^ 14
  ∧ 0 ≤ moffset m < 2 ^ 55 ∧ 0 ≤ tag m < 2 ^ 8.

Lemma pack2 a b n : 0 ≤ n → 0 ≤ a < 2 ^ n →
  (a + b * 2 ^ n) mod 2 ^ n = a ∧ (a + b * 2 ^ n) / 2 ^ n = b.
Proof.
  intros Hn Ha. assert (0 < 2 ^ n) by (apply Z.pow_pos_nonneg; lia). split.
  - by rewrite Z.mod_add, Z.mod_small by lia.
  - rewrite Z.div_add, Z.div_small by lia. done.
Qed.

Definition bit (b : bool) : Z := if b then 1 else 0.

Lemma from_memory_low m : data_low (from_memory m) =
  sm_offset m mod 2 ^ 50 + (sm_length m mod 2 ^ 14) * 2 ^ 50.
Proof.
  unfold from_memory, OFFSET_MASK, LENGTH_MASK. simpl data_low.
  rewrite !land_mask by lia.
  pose proof (Z.mod_pos_bound (sm_offset m) (2 ^ 50)).
  pose proof (Z.mod_pos_bound (sm_length m) (2 ^ 14)).
  rewrite wrap64_small by (rewrite Z.shiftl_mul_pow2 by lia; lia).
  apply lor_shiftl_add; lia.
Qed.

Lemma from_memory_high m : data_high (from_memory m) =
  (moffset m mod 2 ^ 55 + bit (zeroed m) * 2 ^ 55) + (tag m mod 2 ^ 8) * 2 ^ 56.
Proof.
  unfold from_memory, MOFFSET_MASK, TAG_MASK. simpl data_high.
  rewrite !land_mask by lia. fold (bit (zeroed m)).
  pose proof (Z.mod_pos_bound (moffset m) (2 ^ 55)).
  pose proof (Z.mod_pos_bound (tag m) (2 ^ 8)).
  assert (0 ≤ bit (zeroed m) ≤ 1) by (destruct (zeroed m); simpl; lia).
  rewrite !wrap64_small by (rewrite Z.shiftl_mul_pow2 by lia; lia).
  rewrite (lor_shiftl_add (moffset m mod 2 ^ 55)) by lia. apply lor_shiftl_add; lia.
Qed.

Lemma to_memory_fields d :
  0 ≤ data_low d < 2 ^ 64 → 0 ≤ data_high d < 2 ^ 64 →
  to_memory d = sm_new (data_low d mod 2 ^ 50) (data_low d / 2 ^ 50)
    (data_high d mod 2 ^ 55) (negb (data_high d / 2 ^ 55 mod 2 =? 0)) (data_high d / 2 ^ 56).
Proof.
  intros Hl Hh. unfold to_memory, OFFSET_MASK, LENGTH_MASK, MOFFSET_MASK.
  rewrite !land_mask, !Z.shiftr_div_pow2 by lia.
  change 1 with (2 ^ 1 - 1). rewrite land_mask by lia.
  assert (0 ≤ data_low d / 2 ^ 50 < 2 ^ 14)
    by (split; [apply Z.div_pos; lia|apply Z.div_lt_upper_bound; lia]).
  assert (0 ≤ data_high d / 2 ^ 56 < 2 ^ 8)
    by (split; [apply Z.div_pos; lia|apply Z.div_lt_upper_bound; lia]).
  rewrite (Z.mod_small (data_low d / 2 ^ 50)) by lia. by unwrap.
Qed.

Lemma from_memory_range m :
  0 ≤ data_low (from_memory m) < 2 ^ 64 ∧ 0 ≤ data_high (from_memory m) < 2 ^ 64.
Proof.
  rewrite from_memory_low, from_memory_high.
  pose proof (Z.mod_pos_bound (sm_offset m) (2 ^ 50)).
  pose proof (Z.mod_pos_bound (sm_length m) (2 ^ 14)).
  pose proof (Z.mod_pos_bound (moffset m) (2 ^ 55)).
  pose proof (Z.mod_pos_bound (tag m) (2 ^ 8)).
  assert (0 ≤ bit (zeroed m) ≤ 1) by (destruct (zeroed m); simpl; lia). lia.
Qed.

(** Encoding keeps exactly the low bits of every field. *)
Lemma to_from_memory m : to_memory (from_memory m) =
  sm_new (sm_offset m mod 2 ^ 50) (sm_length m mod 2 ^ 14)
         (moffset m mod 2 ^ 55) (zeroed m) (tag m mod 2 ^ 8).
Proof.
  destruct (from_memory_range m) as [Hl Hh]. rewrite to_memory_fields by done.
  rewrite from_memory_low, from_memory_high.
  pose proof (Z.mod_pos_bound (sm_offset m) (2 ^ 50)).
  pose proof (Z.mod_pos_bound (moffset m) (2 ^ 55)).
  assert (0 ≤ bit (zeroed m) ≤ 1) by (destruct (zeroed m); simpl; lia).
  destruct (pack2 (sm_offset m mod 2 ^ 50) (sm_length m mod 2 ^ 14) 50) as [-> ->]; [lia..|].
  destruct (pack2 (moffset m mod 2 ^ 55 + bit (zeroed m) * 2 ^ 55) (tag m mod 2 ^ 8) 56)
    as [_ ->]; [lia..|].
  replace (moffset m mod 2 ^ 55 + bit (zeroed m) * 2 ^ 55 + tag m mod 2 ^ 8 * 2 ^ 56)
    with (moffset m mod 2 ^ 55 + (bit (zeroed m) + tag m mod 2 ^ 8 * 2) * 2 ^ 55) by lia.
  destruct (pack2 (moffset m mod 2 ^ 55) (bit (zeroed m) + tag m mod 2 ^ 8 * 2) 55)
    as [-> ->]; [lia..|].
  rewrite Z.mod_add by lia. f_equal. by destruct (zeroed m).
Qed.

Lemma disk_roundtrip m : disk_fits m → to_memory (from_memory m) = m.
Proof.
  intros (? & ? & ? & ?). rewrite to_from_memory, !Z.mod_small by done.
  by destruct m as [[] ? ? ?].
Qed.

Lemma disk_bytes_length d : zlen (disk_bytes d) = MAPPING_SIZE.
Proof. unfold disk_bytes, zlen. rewrite length_app, !length_le_bytes. done. Qed.

Lemma disk_bytes_roundtrip d : 0 ≤ data_low d < 2 ^ 64 → 0 ≤ data_high d < 2 ^ 64 →
  disk_from_bytes (disk_bytes d) = Some d.
Proof.
  intros Hl Hh. unfold disk_from_bytes. rewrite disk_bytes_length, Z.eqb_refl.
  unfold disk_bytes. rewrite take_app_length', drop_app_length' by by rewrite length_le_bytes.
  rewrite !le_val_le_bytes by done. by destruct d.
Qed.

Lemma mapping_bytes_roundtrip m : disk_fits m →
  to_memory <$> disk_from_bytes (disk_bytes (from_memory m)) = Some m.
Proof.
  intros Hm. destruct (from_memory_range m).
  rewrite disk_bytes_roundtrip by done. simpl. by rewrite disk_roundtrip.
Qed.

Lemma from_to_memory d : 0 ≤ data_low d < 2 ^ 64 → 0 ≤ data_high d < 2 ^ 64 →
  disk_fits (to_memory d) ∧ from_memory (to_memory d) = d.
Proof.
  intros Hl Hh. rewrite to_memory_fields by done.
  assert (0 ≤ data_low d / 2 ^ 50 < 2 ^ 14)
    by (split; [apply Z.div_pos; lia|apply Z.div_lt_upper_bound; lia]).
  assert (0 ≤ data_high d / 2 ^ 56 < 2 ^ 8)
    by (split; [apply Z.div_pos; lia|apply Z.div_lt_upper_bound; lia]).
  pose proof (Z.mod_pos_bound (data_low d) (2 ^ 50)).
  pose proof (Z.mod_pos_bound (data_high d) (2 ^ 55)).
  split; [unfold disk_fits, sm_offset, sm_length; simpl; lia|].
  destruct d as [lo hi]; simpl in *.
  assert (∀ d1 d2 : DiskSegmentMapping,
    data_low d1 = data_low d2 → data_high d1 = data_high d2 → d1 = d2) as ext.
  { intros [] []; simpl. by intros -> ->. }
  apply ext; rewrite ?from_memory_low, ?from_memory_high;
    unfold sm_offset, sm_length, sm_new; simpl.
  - rewrite Z.mod_mod, (Z.mod_small (lo / _)) by lia.
    pose proof (Z.div_mod lo (2 ^ 50)). lia.
  - rewrite Z.mod_mod, (Z.mod_small (hi / 2 ^ 56)) by lia.
    change (2 ^ 56) with (2 ^ 55 * 2). rewrite <- Z.div_div by lia.
    pose proof (Z.div_mod hi (2 ^ 55)). pose proof (Z.div_mod (hi / 2 ^ 55) 2).
    pose proof (Z.mod_pos_bound (hi / 2 ^ 55) 2).
    assert (bit (negb (hi / 2 ^ 55 mod 2 =? 0)) = hi / 2 ^ 55 mod 2) as ->
      by (destruct (Z.eqb_spec (hi / 2 ^ 55 mod 2) 0); simpl; lia).
    lia.
Qed.

(** ** The header codec *)

Lemma zlen_ht_bytes h : wf_ht h → zlen (ht_bytes h) = HT_SIZE.
Proof.
  intros []. unfold ht_bytes. rewrite !zlen_app, !zlen_le_bytes. unfold zlen, HT_SIZE. lia.
Qed.

(** Side conditions on the lengths of header fields. *)
Ltac field_len := rewrite ?zlen_le_bytes; unfold zlen; lia.

(** Walk to the field that starts at the requested offset. *)
Ltac field_at :=
  repeat (rewrite slice_app_skip by field_len);
  match goal with
  | |- context [slice ?o ?n (?l ++ _)] => replace o with 0 by field_len; rewrite slice_app_here by field_len
  | |- context [slice ?o ?n ?l] => replace o with 0 by field_len; rewrite <- (app_nil_r l) at 1;
      rewrite slice_app_here by field_len
  end.

Lemma ht_roundtrip h : wf_ht h → ht_from_bytes (ht_bytes h) = Some h.
Proof.
  intros Hwf. unfold ht_from_bytes. rewrite zlen_ht_bytes, Z.eqb_refl by done.
  destruct Hwf, h as [m0 m1 sz fl io isz vs u pu re ve sv ut].
  cbn [magic0 magic1 ht_size flags index_offset index_size virtual_size uuid parent_uuid
       reserved version sub_version user_tag] in *.
  f_equal. unfold ht_bytes.
  cbn [magic0 magic1 ht_size flags index_offset index_size virtual_size uuid parent_uuid
       reserved version sub_version user_tag].
  f_equal; field_at; try done; by apply le_val_le_bytes.
Qed.

(** ** Flags are independent bits *)

Lemma flag_is_testbit s h : 0 ≤ s → flag_is s h = Z.testbit (flags h) s.
Proof.
  intros Hs. unfold flag_is. destruct (Z.testbit (flags h) s) eqn:E.
  - apply negb_true_iff, Z.eqb_neq. intros H.
    assert (Z.testbit (Z.land (flags h) (Z.shiftl 1 s)) s = true) as Ht
      by (rewrite Z.land_spec, testbit_one_shift, E, Z.eqb_refl by done; done).
    rewrite H, Z.bits_0 in Ht. done.
  - apply negb_false_iff, Z.eqb_eq. apply Z.bits_inj'. intros t Ht.
    rewrite Z.land_spec, testbit_one_shift, Z.bits_0 by done.
    destruct (Z.eqb_spec s t) as [<-|]; [by rewrite E|apply andb_false_r].
Qed.

Lemma flag_is_set s t h : 0 ≤ s → 0 ≤ t → flag_is t (flag_set s h) = flag_is t h || (s =? t).
Proof.
  intros Hs Ht. rewrite !flag_is_testbit by done. unfold flag_set, update_flags. simpl.
  by rewrite Z.lor_spec, testbit_one_shift.
Qed.

Lemma not32_bit s t : 0 ≤ s < 32 → 0 ≤ t < 32 → Z.testbit (not32 (Z.shiftl 1 s)) t = negb (s =? t).
Proof.
  intros Hs Ht. unfold not32, U32_MAX.
  replace (2 ^ 32 - 1) with (Z.ones 32) by done.
  rewrite Z.sub_nocarry_ldiff.
  - rewrite Z.ldiff_spec, testbit_one_shift, Z.ones_spec_low by lia. done.
  - apply Z.bits_inj'. intros i Hi. rewrite Z.ldiff_spec, testbit_one_shift, Z.bits_0 by lia.
    destruct (Z.eqb_spec s i) as [<-|]; [|done]. by rewrite Z.ones_spec_low by lia.
Qed.

Lemma flag_is_clear s t h : 0 ≤ s < 32 → 0 ≤ t < 32 →
  flag_is t (flag_clear s h) = flag_is t h && negb (s =? t).
Proof.
  intros Hs Ht. rewrite !flag_is_testbit by lia. unfold flag_clear, update_flags. simpl.
  by rewrite Z.land_spec, not32_bit.
Qed.

Lemma land_range a b n : 0 ≤ n → 0 ≤ a < 2 ^ n → 0 ≤ b → 0 ≤ Z.land a b < 2 ^ n.
Proof.
  intros Hn Ha Hb. split; [apply Z.land_nonneg; lia|].
  destruct (decide (Z.land a b = 0)) as [->|Hne]; [lia|].
  assert (0 < Z.land a b) by (pose proof (proj2 (Z.land_nonneg a b)); lia).
  apply Z.log2_lt_pow2; [done|]. eapply Z.le_lt_trans; [apply Z.log2_land; lia|].
  destruct (decide (a = 0)) as [->|]; [rewrite Z.land_0_l in *; lia|].
  assert (Z.log2 a < n) by (apply Z.log2_lt_pow2; lia). lia.
Qed.

Lemma lor_range a b n : 0 ≤ n → 0 ≤ a < 2 ^ n → 0 ≤ b < 2 ^ n → 0 ≤ Z.lor a b < 2 ^ n.
Proof.
  intros Hn Ha Hb. split; [apply Z.lor_nonneg; lia|].
  destruct (decide (Z.lor a b = 0)) as [->|Hne]; [lia|].
  assert (0 < Z.lor a b) by (pose proof (proj2 (Z.lor_nonneg a b)); lia).
  apply Z.log2_lt_pow2; [done|]. rewrite Z.log2_lor by lia.
  destruct (decide (a = 0)) as [->|], (decide (b = 0)) as [->|];
    rewrite ?Z.lor_0_l, ?Z.lor_0_r in *; try lia.
  - change (Z.log2 0) with 0. assert (Z.log2 b < n) by (apply Z.log2_lt_pow2; lia).
    pose proof (Z.log2_nonneg b). lia.
  - change (Z.log2 0) with 0. assert (Z.log2 a < n) by (apply Z.log2_lt_pow2; lia).
    pose proof (Z.log2_nonneg a). lia.
  - assert (Z.log2 a < n) by (apply Z.log2_lt_pow2; lia).
    assert (Z.log2 b < n) by (apply Z.log2_lt_pow2; lia). lia.
Qed.

Lemma wf_flag_set s h : 0 ≤ s < 32 → wf_ht h → wf_ht (flag_set s h).
Proof.
  intros Hs []. constructor; try done. simpl. apply lor_range; [lia|done|].
  rewrite Z.shiftl_1_l. split; [lia|]. apply Z.pow_lt_mono_r; lia.
Qed.

Lemma wf_flag_clear s h : 0 ≤ s < 32 → wf_ht h → wf_ht (flag_clear s h).
Proof.
  intros Hs []. constructor; try done. simpl. apply land_range; [lia|done|].
  unfold not32, U32_MAX. rewrite Z.shiftl_1_l.
  assert (2 ^ s ≤ 2 ^ 31) by (apply Z.pow_le_mono_r; lia). lia.
Qed.

#[export] Hint Resolve wf_flag_set wf_flag_clear : lsmt.

Lemma wf_ht_new : wf_ht ht_new.
Proof. constructor; vm_compute; done || lia || intuition congruence. Qed.

Lemma disk_fits_iff m : to_memory (from_memory m) = m ↔ disk_fits m.
Proof.
  split; [|apply disk_roundtrip]. rewrite to_from_memory. intros E.
  rewrite <- E. unfold disk_fits, sm_new, sm_offset, sm_length. simpl.
  split_and!; apply Z.mod_pos_bound; lia.
Qed.

(** ** Properties *)

(** the packed 16-byte mapping format loses nothing exactly on the
    mappings whose offset, length, physical offset and tag fit in 50, 14, 55
    and 8 bits; every 16-byte value decodes to such a mapping, and encoding it
    again gives the same bytes. *)
Theorem disk_mapping_codec_exact :
  (∀ m, to_memory <$> disk_from_bytes (disk_bytes (from_memory m)) = Some m ↔ disk_fits m)
  ∧ (∀ bs, zlen bs = MAPPING_SIZE → Forall is_byte bs →
       ∃ d, disk_from_bytes bs = Some d ∧ disk_fits (to_memory d)
            ∧ disk_bytes (from_memory (to_memory d)) = bs).
Proof.
  split.
  - intros m. destruct (from_memory_range m) as [Hl Hh].
    rewrite disk_bytes_roundtrip by done. simpl. rewrite <- disk_fits_iff. split; [by intros [= ?]|by intros ->].
  - intros bs Hl Hb. unfold disk_from_bytes. rewrite Hl, Z.eqb_refl.
    unfold MAPPING_SIZE, zlen in Hl.
    assert (Forall is_byte (take 8 bs)) by by apply Forall_take.
    assert (Forall is_byte (drop 8 bs)) by by apply Forall_drop.
    assert (length (take 8 bs) = 8%nat) as E1 by (rewrite length_take; lia).
    assert (length (drop 8 bs) = 8%nat) as E2 by (rewrite length_drop; lia).
    pose proof (le_val_bound (take 8 bs)) as B1. pose proof (le_val_bound (drop 8 bs)) as B2.
    unfold zlen in B1, B2. rewrite E1 in B1. rewrite E2 in B2. eexists. split; [done|].
    destruct (from_to_memory (mkDisk (le_val (take 8 bs)) (le_val (drop 8 bs)))) as [Hf ->];
      [apply B1|apply B2|]; [done..|]. split; [done|].
    unfold disk_bytes. cbn [data_low data_high].
    pose proof (le_bytes_le_val (take 8 bs)) as R1. pose proof (le_bytes_le_val (drop 8 bs)) as R2.
    rewrite E1 in R1. rewrite E2 in R2. rewrite R1, R2 by done. apply take_drop.
Qed.

(** a header or trailer written to disk takes exactly 390 bytes and is
    read back unchanged. *)
Theorem header_trailer_roundtrip h : wf_ht h →
  zlen (ht_bytes h) = HT_SIZE ∧ ht_from_bytes (ht_bytes h) = Some h.
Proof. intros Hh. split; [by apply zlen_ht_bytes|by apply ht_roundtrip]. Qed.

Lemma header_trailer_roundtrip_witness :
  ht_from_bytes (ht_bytes (set_sealed (set_hybrid_rw ht_new)))
  = Some (set_sealed (set_hybrid_rw ht_new)).
Proof.
  apply header_trailer_roundtrip. constructor; vm_compute; intuition congruence.
Defined.
