(* ===== verification/LsmtIndex.v ===== *)
(** * The LSMT indexes

    Models the index structures of [storage/overlaybd/src/lsmt/index.rs]:
    [ReadOnlyIndex], [MutableIndex] and [ComboIndex], with the [LogIndex]
    trait as a type class.  The contract of the trait is [LogIndexSpec]: a
    lookup returns sorted disjoint pieces inside the query that agree, sector
    by sector, with the view of the index.  Clients are proved against that
    contract only. *)

From S2P Require Import Prelude LsmtSegment.

(** ** [BTreeSet<SegmentMapping>]: mappings ordered by their offset *)

(** [BTreeSet::insert] keeps the element already stored under an equal key. *)
Fixpoint bset_insert (m : SegmentMapping) (s : list SegmentMapping) : list SegmentMapping :=
  match s with
  | [] => [m]
  | a :: s' =>
      if sm_offset m <? sm_offset a then m :: s
      else if sm_offset m =? sm_offset a then s
      else a :: bset_insert m s'
  end.

Definition bset_remove (m : SegmentMapping) (s : list SegmentMapping) : list SegmentMapping :=
  List.filter (λ a, negb (sm_offset a =? sm_offset m)) s.

(** [range(..k)] and [range(lo..hi)] *)
Definition range_to (k : Z) (s : list SegmentMapping) : list SegmentMapping :=
  List.filter (λ a, sm_offset a <? k) s.
Definition range_between (lo hi : Z) (s : list SegmentMapping) : list SegmentMapping :=
  List.filter (λ a, (lo <=? sm_offset a) && (sm_offset a <? hi)) s.

(** ** [MutableIndex] *)

(** The backward scan of [insert]: stop at the first mapping that ends before
    the inserted one begins. *)
Fixpoint scan_overlaps (start : Z) (l : list SegmentMapping) : list SegmentMapping :=
  match l with
  | [] => []
  | other :: l' => if sm_end other <=? start then [] else other :: scan_overlaps start l'
  end.

(** Remove one overlapped mapping and put back what sticks out on each side. *)
Definition mi_split (m : SegmentMapping) (s : list SegmentMapping) (old : SegmentMapping)
  : list SegmentMapping :=
  let s := bset_remove old s in
  let s := if sm_offset old <? sm_offset m
           then let lm := sm_backward_end_to old (sm_offset m) in
                if 0 <? sm_length lm then bset_insert lm s else s
           else s in
  if sm_end m <? sm_end old
  then let rm := sm_forward_offset_to old (sm_end m) in
       if 0 <? sm_length rm then bset_insert rm s else s
  else s.

Definition mi_insert (s : list SegmentMapping) (m : SegmentMapping) : list SegmentMapping :=
  if sm_length m =? 0 then s
  else
    let to_remove := scan_overlaps (sm_offset m) (rev (range_to (sm_end m) s)) in
    bset_insert m (fold_left (mi_split m) to_remove s).

(** The clipping shared by the lookups. *)
Definition clip_back (q : Segment) (mp : SegmentMapping) : SegmentMapping :=
  if seg_end q <? sm_end mp then sm_backward_end_to mp (seg_end q) else mp.
Definition clip (q : Segment) (m : SegmentMapping) : SegmentMapping :=
  clip_back q (if sm_offset m <? seg_offset q
               then sm_forward_offset_to m (seg_offset q) else m).
Definition push_nonempty (mp : SegmentMapping) : list SegmentMapping :=
  if 0 <? sm_length mp then [mp] else [].

Definition mi_lookup (s : list SegmentMapping) (q : Segment) (dst : list SegmentMapping)
  : list SegmentMapping * Z :=
  if seg_length q =? 0 then (dst, 0)
  else
    let end_offset := seg_end q in
    let left_part :=
      match last (range_to (seg_offset q) s) with
      | Some lm => if seg_offset q <? sm_end lm then push_nonempty (clip q lm) else []
      | None => []
      end in
    let right_part :=
      mjoin ((λ m, push_nonempty (clip_back q m)) <$>
             range_between (seg_offset q) end_offset s) in
    let out := left_part ++ right_part in
    (dst ++ out, zlen out).

(** ** [ReadOnlyIndex] *)

(** [ReadOnlyIndex::new] drops the physical range of every zero mapping. *)
Definition ro_new (ms : list SegmentMapping) : list SegmentMapping :=
  (λ m, if zeroed m then set_moffset m NO_PHYSICAL_OFFSET else m) <$> ms.

(** [partition_point] on a partitioned slice: the length of the prefix on which
    the predicate holds. *)
Fixpoint partition_point {A} (p : A → bool) (l : list A) : nat :=
  match l with
  | [] => 0
  | a :: l' => if p a then S (partition_point p l') else 0
  end.

Fixpoint lookup_scan (q : Segment) (ms : list SegmentMapping) : list SegmentMapping :=
  match ms with
  | [] => []
  | m :: ms' =>
      if seg_end q <=? sm_offset m then []
      else push_nonempty (clip q m) ++ lookup_scan q ms'
  end.

Definition ro_lookup (ms : list SegmentMapping) (q : Segment) (dst : list SegmentMapping)
  : list SegmentMapping * Z :=
  if (seg_length q =? 0) || is_nil ms then (dst, 0)
  else
    let idx := partition_point (λ m, sm_end m <=? seg_offset q) ms in
    let out := lookup_scan q (drop idx ms) in
    (dst ++ out, zlen out).

(** [ReadOnlyIndex::merge]: layer [0] is the newest; layers are inserted from
    the oldest to the newest, each mapping tagged with its layer number. *)
Definition merge_layer (mi : list SegmentMapping) (l : nat * list SegmentMapping)
  : list SegmentMapping :=
  fold_left (λ mi m, mi_insert mi (set_tag m (wrap8 (Z.of_nat l.1)))) l.2 mi.

Definition enumerate {A} (l : list A) : list (nat * A) := zip (seq 0 (length l)) l.

Definition ro_merge (indexes : list (list SegmentMapping)) : list SegmentMapping :=
  ro_new (fold_left merge_layer (rev (enumerate indexes)) []).

(** ** [ComboIndex] *)
Record ComboIndex : Type := mkCombo {
  upper : list SegmentMapping;
  lower : option (list SegmentMapping)
}.

Definition combo_new (up : list SegmentMapping) (lo : option (list SegmentMapping))
  (ro_layers_count : Z) : ComboIndex :=
  if 0 <? ro_layers_count
  then mkCombo (fold_left (λ s m, bset_insert (set_tag m (wrap8 (tag m + ro_layers_count))) s)
                  up []) lo
  else mkCombo up lo.

Definition combo_insert (ci : ComboIndex) (m : SegmentMapping) : ComboIndex :=
  mkCombo (mi_insert (upper ci) m) (lower ci).

(** Fill the gaps between the pieces found in the upper index from the lower. *)
Fixpoint combo_fill (lo : list SegmentMapping) (current_pos end_pos : Z)
  (ups dst : list SegmentMapping) : list SegmentMapping :=
  match ups with
  | [] =>
      if current_pos <? end_pos
      then (ro_lookup lo (mkSeg current_pos (wrap32 (end_pos - current_pos))) dst).1
      else dst
  | m :: ups' =>
      let dst :=
        if current_pos <? sm_offset m
        then (ro_lookup lo (mkSeg current_pos (wrap32 (sm_offset m - current_pos))) dst).1
        else dst in
      combo_fill lo (sm_end m) end_pos ups' (dst ++ [m])
  end.

Definition combo_lookup (ci : ComboIndex) (q : Segment) (dst : list SegmentMapping)
  : list SegmentMapping * Z :=
  if seg_length q =? 0 then (dst, 0)
  else
    let upper_results := (mi_lookup (upper ci) q []).1 in
    let dst' :=
      match lower ci with
      | None => dst ++ upper_results
      | Some lo => combo_fill lo (seg_offset q) (seg_end q) upper_results dst
      end in
    (dst', zlen dst' - zlen dst).

(** ** The [LogIndex] trait and its contract *)
Class LogIndex (I : Type) : Type :=
  li_lookup : I → Segment → list SegmentMapping → list SegmentMapping * Z.

(** [out] lies inside the sectors [a .. b) and agrees there with [V]. *)
Definition tiles (V : Z → option Loc) (a b : Z) (out : list SegmentMapping) : Prop :=
  wf_index out
  ∧ (∀ m, m ∈ out → a ≤ sm_offset m ∧ sm_offset m + sm_length m ≤ b)
  ∧ (∀ x, a ≤ x < b → view out x = V x).

Class LogIndexSpec (I : Type) `{LogIndex I} : Type := {
  li_wf : I → Prop;
  li_view : I → Z → option Loc;
  li_lookup_spec : ∀ (idx : I) (q : Segment) (dst : list SegmentMapping),
    li_wf idx → wf_query q →
    ∃ out, li_lookup idx q dst = (dst ++ out, zlen out)
      ∧ tiles (li_view idx) (seg_offset q) (seg_offset q + seg_length q) out
}.

(** ** Element-wise characterisation of views *)

Lemma view_iff ms x l : wf_index ms →
  view ms x = Some l ↔ ∃ m, m ∈ ms ∧ covers m x = true ∧ l = loc_at m x.
Proof.
  intros Hwf. split; [apply view_Some|]. intros (m & ? & ? & ->). by apply view_elem.
Qed.

(** Two well-formed indexes with the same mappings have the same view. *)
Lemma view_ext s1 s2 x : wf_index s1 → wf_index s2 →
  (∀ m, covers m x = true → m ∈ s1 ↔ m ∈ s2) → view s1 x = view s2 x.
Proof.
  intros H1 H2 H. destruct (view s1 x) as [l|] eqn:E1.
  - apply view_Some in E1 as (m & Hm & Hc & ->). symmetry.
    apply view_iff; [done|]. exists m. rewrite <- H by done. done.
  - symmetry. apply view_None. intros m Hm. rewrite view_None in E1.
    destruct (covers m x) eqn:Hc; [|done]. rewrite <- H in Hm by done.
    rewrite E1 in Hc; done.
Qed.

Definition disjoint_maps (a b : SegmentMapping) : Prop := before a b ∨ before b a.

Lemma elem_of_bset_insert_1 m s a : a ∈ bset_insert m s → a = m ∨ a ∈ s.
Proof.
  induction s as [|b s IH]; simpl; [set_solver|].
  repeat case_match; set_solver.
Qed.

Lemma bset_insert_wf m s : wf_index s → wf_mapping m →
  (∀ a, a ∈ s → disjoint_maps a m) →
  wf_index (bset_insert m s) ∧ (∀ a, a ∈ bset_insert m s ↔ a = m ∨ a ∈ s).
Proof.
  induction s as [|b s IH]; intros Hwf Hm Hd; simpl.
  - split; [|set_solver]. apply wf_index_cons. split_and!; [done|constructor|apply wf_index_nil].
  - pose proof Hwf as (Hb & Hf & Hs)%wf_index_cons.
    assert (disjoint_maps b m) as Hbm by (apply Hd; set_solver).
    wf_facts. unfold disjoint_maps, before in Hbm.
    destruct (Z.ltb_spec (sm_offset m) (sm_offset b)).
    + split; [|set_solver]. apply wf_index_cons. split_and!; [done| |done].
      apply Forall_cons. split; [unfold before; lia|].
      eapply Forall_impl; [exact Hf|]. unfold before. intros y. lia.
    + destruct (Z.eqb_spec (sm_offset m) (sm_offset b)); [lia|].
      destruct IH as [Hw He]; [done..|set_solver|].
      split; [|set_solver]. apply wf_index_cons. split_and!; [done| |done].
      apply Forall_forall. intros a Ha%He. rewrite Forall_forall in Hf.
      destruct Ha as [->|Ha]; [unfold before; lia|auto].
Qed.

Lemma view_bset_insert m s x : wf_index s → wf_mapping m →
  (∀ a, a ∈ s → disjoint_maps a m) →
  view (bset_insert m s) x = if covers m x then Some (loc_at m x) else view s x.
Proof.
  intros Hwf Hm Hd. destruct (bset_insert_wf m s Hwf Hm Hd) as [Hw He].
  destruct (covers m x) eqn:Hc.
  - apply view_elem; [done| |done]. apply He. auto.
  - apply view_ext; [done..|]. intros a Ha. rewrite He. split; [|auto].
    intros [->|?]; [congruence|done].
Qed.

Lemma wf_index_filter p s : wf_index s → wf_index (List.filter p s).
Proof.
  induction s as [|a s IH]; simpl; [done|]. intros (Ha & Hf & Hs)%wf_index_cons.
  destruct (p a); [|auto]. apply wf_index_cons. split_and!; [done| |auto].
  apply Forall_forall. intros b [Hb _]%list_elem_of_In%filter_In.
  rewrite Forall_forall in Hf. apply Hf. by apply list_elem_of_In.
Qed.

Lemma elem_of_bset_remove s old a : wf_index s → old ∈ s →
  a ∈ bset_remove old s ↔ a ∈ s ∧ a ≠ old.
Proof.
  intros Hwf Ho. unfold bset_remove. rewrite elem_of_lfilter. split.
  - intros [Ha Hne]. split; [done|]. intros ->. lia.
  - intros [Ha Hne]. split; [done|]. apply negb_true_iff, Z.eqb_neq. intros E.
    apply Hne. pose proof (elem_of_wf _ _ Hwf Ha). pose proof (elem_of_wf _ _ Hwf Ho).
    wf_facts. eapply wf_index_overlap; [done..|lia|lia].
Qed.

(** ** Insertion overwrites exactly the inserted range *)

Lemma view_bset_remove s old x : wf_index s → old ∈ s →
  view (bset_remove old s) x = if covers old x then None else view s x.
Proof.
  intros Hwf Ho. assert (wf_index (bset_remove old s)) by by apply wf_index_filter.
  destruct (covers old x) eqn:Hc.
  - apply view_None. intros a [Ha Hne]%elem_of_bset_remove; [|done..].
    destruct (covers a x) eqn:Hca; [|done]. exfalso. apply Hne.
    apply covers_iff in Hc, Hca. apply (wf_index_overlap s); [done..|lia|lia].
  - apply view_ext; [done..|]. intros a Ha. rewrite elem_of_bset_remove by done.
    split; [naive_solver|]. intros ?. split; [done|congruence].
Qed.

(** What remains of [old] on either side of [m]. *)
Definition pieces (m old : SegmentMapping) : list SegmentMapping :=
  (if sm_offset old <? sm_offset m then [sm_backward_end_to old (sm_offset m)] else [])
  ++ (if sm_end m <? sm_end old then [sm_forward_offset_to old (sm_end m)] else []).

Definition overlaps (m old : SegmentMapping) : Prop :=
  sm_offset old < sm_offset m + sm_length m ∧ sm_offset m < sm_offset old + sm_length old.

Lemma not_overlaps_disjoint m a : ¬ overlaps m a → disjoint_maps a m.
Proof. unfold overlaps, disjoint_maps, before. lia. Qed.

Lemma pieces_elem m old p : wf_mapping m → wf_mapping old → overlaps m old →
  p ∈ pieces m old →
  wf_mapping p ∧ disjoint_maps p m
  ∧ sm_offset old ≤ sm_offset p ∧ sm_offset p + sm_length p ≤ sm_offset old + sm_length old
  ∧ (∀ y, loc_at p y = loc_at old y).
Proof.
  intros Hm Ho [H1 H2] Hp. wf_facts. unfold pieces in Hp.
  rewrite !sm_end_wf in Hp by done. unfold disjoint_maps, before.
  apply elem_of_app in Hp as [Hp|Hp].
  - destruct (Z.ltb_spec (sm_offset old) (sm_offset m)); [|set_solver].
    apply list_elem_of_singleton in Hp as ->.
    destruct (backward_end_to_spec old (sm_offset m)) as (? & ? & ? & ?); [done|lia|].
    split_and!; done || lia.
  - destruct (Z.ltb_spec (sm_offset m + sm_length m) (sm_offset old + sm_length old));
      [|set_solver].
    apply list_elem_of_singleton in Hp as ->.
    destruct (forward_offset_to_spec old (sm_offset m + sm_length m)) as (? & ? & ? & ?);
      [done|lia|].
    split_and!; done || lia.
Qed.

Lemma pieces_wf m old : wf_mapping m → wf_mapping old → overlaps m old →
  wf_index (pieces m old).
Proof.
  intros Hm Ho Hov. pose proof (λ p, pieces_elem m old p Hm Ho Hov) as Hp.
  destruct Hov as [H1 H2]. wf_facts. unfold pieces in *. rewrite !sm_end_wf in * by done.
  destruct (Z.ltb_spec (sm_offset old) (sm_offset m));
    destruct (Z.ltb_spec (sm_offset m + sm_length m) (sm_offset old + sm_length old));
    simpl in *; rewrite ?wf_index_cons; split_and!;
    try apply wf_index_nil; try apply Forall_nil; try (apply Hp; set_solver); try done.
  apply Forall_singleton. unfold before.
  destruct (backward_end_to_spec old (sm_offset m)) as (_ & _ & ? & _); [done|lia|].
  destruct (forward_offset_to_spec old (sm_offset m + sm_length m)) as (_ & ? & _);
    [done|lia|]. lia.
Qed.

Lemma pieces_cover m old x : wf_mapping m → wf_mapping old → overlaps m old →
  covers old x = true → covers m x = false →
  ∃ p, p ∈ pieces m old ∧ covers p x = true.
Proof.
  intros Hm Ho [H1 H2] Hc Hn. wf_facts. unfold pieces. rewrite !sm_end_wf by done.
  apply covers_iff in Hc. apply not_true_iff_false in Hn. rewrite covers_iff in Hn.
  destruct (decide (x < sm_offset m)).
  - destruct (Z.ltb_spec (sm_offset old) (sm_offset m)); [|lia].
    destruct (backward_end_to_spec old (sm_offset m)) as (? & ? & ? & _); [done|lia|].
    eexists. split; [apply elem_of_app; left; by apply list_elem_of_singleton|].
    apply covers_iff. lia.
  - destruct (Z.ltb_spec (sm_offset m + sm_length m) (sm_offset old + sm_length old)); [|lia].
    destruct (forward_offset_to_spec old (sm_offset m + sm_length m)) as (? & ? & ? & _);
      [done|lia|].
    eexists. split; [apply elem_of_app; right; by apply list_elem_of_singleton|].
    apply covers_iff. lia.
Qed.

Definition bset_insert_all (ps s : list SegmentMapping) : list SegmentMapping :=
  fold_left (λ s p, bset_insert p s) ps s.

Lemma bset_insert_all_wf ps : ∀ s, wf_index s → wf_index ps →
  (∀ a p, a ∈ s → p ∈ ps → disjoint_maps a p) →
  wf_index (bset_insert_all ps s) ∧ (∀ a, a ∈ bset_insert_all ps s ↔ a ∈ ps ∨ a ∈ s).
Proof.
  induction ps as [|p ps IH]; intros s Hs Hps Hd; simpl; [set_solver|].
  apply wf_index_cons in Hps as (Hp & Hf & Hps). rewrite Forall_forall in Hf.
  destruct (bset_insert_wf p s Hs Hp) as [Hw He]; [set_solver|].
  destruct (IH (bset_insert p s) Hw Hps) as [Hw' He'].
  { intros a p' [->|Ha]%He Hp'; [left; auto|set_solver]. }
  split; [done|]. intros a. rewrite He', He. set_solver.
Qed.

Lemma mi_split_pieces m s old : wf_mapping m → wf_mapping old → overlaps m old →
  mi_split m s old = bset_insert_all (pieces m old) (bset_remove old s).
Proof.
  intros Hm Ho Hov. pose proof (λ p, pieces_elem m old p Hm Ho Hov) as Hp.
  unfold mi_split, pieces in *.
  destruct (sm_offset old <? sm_offset m), (sm_end m <? sm_end old); simpl in *; try done;
  repeat match goal with
  | |- context [0 <? sm_length ?p] =>
      destruct (Z.ltb_spec 0 (sm_length p));
      [|destruct (Hp p) as [[] _]; [set_solver|lia]]
  end; done.
Qed.

Lemma mi_split_elem m s old : wf_index s → wf_mapping m → old ∈ s → overlaps m old →
  wf_index (mi_split m s old)
  ∧ (∀ a, a ∈ mi_split m s old ↔ a ∈ pieces m old ∨ (a ∈ s ∧ a ≠ old)).
Proof.
  intros Hs Hm Ho Hov. pose proof (elem_of_wf _ _ Hs Ho) as Hwo.
  rewrite mi_split_pieces by done.
  destruct (bset_insert_all_wf (pieces m old) (bset_remove old s)) as [Hw He].
  - by apply wf_index_filter.
  - by apply pieces_wf.
  - intros a p [Ha Hne]%elem_of_bset_remove Hp; [|done..].
    apply pieces_elem in Hp as (_ & _ & ? & ? & _); [|done..].
    apply not_overlaps_disjoint. intros [? ?]. apply Hne.
    apply (wf_index_overlap s); [done..|lia|lia].
  - split; [done|]. intros a. by rewrite He, elem_of_bset_remove.
Qed.

Lemma mi_split_view m s old x : wf_index s → wf_mapping m → old ∈ s → overlaps m old →
  covers m x = false → view (mi_split m s old) x = view s x.
Proof.
  intros Hs Hm Ho Hov Hx. pose proof (elem_of_wf _ _ Hs Ho) as Hwo.
  destruct (mi_split_elem m s old Hs Hm Ho Hov) as [Hw He].
  destruct (covers old x) eqn:Hc.
  - destruct (pieces_cover m old x) as (p & Hp & Hpc); [done..|].
    rewrite (view_elem s old x), (view_elem _ p x) by (done || apply He; auto).
    f_equal. by apply pieces_elem in Hp as (_ & _ & _ & _ & ->).
  - apply view_ext; [done..|]. intros a Ha. rewrite He. split.
    + intros [Hp|[? _]]; [|done]. apply pieces_elem in Hp as (_ & _ & ? & ? & _); [|done..].
      apply covers_iff in Ha. apply not_true_iff_false in Hc. rewrite covers_iff in Hc. lia.
    + intros ?. right. split; [done|congruence].
Qed.

(** [a] is a part of [b]. *)
Definition within (a b : SegmentMapping) : Prop :=
  sm_offset b ≤ sm_offset a ∧ sm_offset a + sm_length a ≤ sm_offset b + sm_length b.

(** Splitting every overlapped mapping leaves the range of [m] free. *)
Lemma mi_split_all m olds : ∀ s, wf_index s → wf_mapping m → NoDup olds →
  (∀ a, a ∈ olds → a ∈ s ∧ overlaps m a) → (∀ a, a ∈ s → overlaps m a → a ∈ olds) →
  let s' := fold_left (mi_split m) olds s in
  wf_index s' ∧ (∀ a, a ∈ s' → disjoint_maps a m)
  ∧ (∀ x, covers m x = false → view s' x = view s x)
  ∧ (∀ a, a ∈ s' → ∃ b, b ∈ s ∧ within a b).
Proof.
  induction olds as [|old olds IH]; intros s Hs Hm Hnd Ho Hall; simpl.
  - split_and!; [done| |done|].
    + intros a Ha. apply not_overlaps_disjoint. intros Hov. specialize (Hall a Ha Hov). set_solver.
    + intros a Ha. exists a. unfold within. split; [done|lia].
  - apply NoDup_cons in Hnd as [Hni Hnd].
    destruct (Ho old) as [Hos Hov]; [set_solver|].
    pose proof (elem_of_wf _ _ Hs Hos) as Hwo.
    destruct (mi_split_elem m s old) as [Hw He]; [done..|].
    destruct (IH (mi_split m s old)) as (H1 & H2 & H3 & H4); try done.
    + intros a Ha. destruct (Ho a) as [? ?]; [set_solver|]. split; [|done].
      apply He. right. split; [done|]. by intros ->.
    + intros a [Hp|[Ha Hne]]%He Hova.
      * apply pieces_elem in Hp as (_ & Hd & _); [|done..].
        unfold disjoint_maps, before, overlaps in *. lia.
      * specialize (Hall a Ha Hova). set_solver.
    + split_and!; [done|done| |].
      * intros x Hx. rewrite H3 by done. by apply mi_split_view.
      * intros a (b & [Hp|[Hb _]]%He & Hin)%H4; [|by exists b].
        apply pieces_elem in Hp as (_ & _ & ? & ? & _); [|done..].
        exists old. unfold within in *. split; [done|lia].
Qed.

Lemma scan_overlaps_rev k s : wf_index s →
  scan_overlaps k (rev s) = rev (List.filter (λ a, k <? sm_end a) s).
Proof.
  induction s as [|a s IH] using rev_ind; intros Hs; [done|].
  apply wf_index_app in Hs as (Hs & Ha & Hb).
  apply wf_index_cons in Ha as (Ha & _ & _).
  rewrite rev_app_distr, List.filter_app, rev_app_distr. simpl.
  rewrite sm_end_wf by done.
  destruct (Z.leb_spec (sm_offset a + sm_length a) k), (Z.ltb_spec k (sm_offset a + sm_length a));
    try lia; simpl; [|by rewrite IH].
  destruct (List.filter _ s) as [|b l] eqn:E; [done|].
  assert (b ∈ List.filter (λ a, k <? sm_end a) s) as Hbs by (rewrite E; set_solver).
  apply elem_of_lfilter in Hbs as [Hbs Hk]. pose proof (elem_of_wf _ _ Hs Hbs).
  specialize (Hb b a Hbs ltac:(set_solver)). rewrite sm_end_wf in Hk by done.
  wf_facts. unfold before in Hb. lia.
Qed.

Lemma wf_index_NoDup s : wf_index s → NoDup s.
Proof.
  induction s as [|a s IH]; [constructor|]. intros (Ha & Hf & Hs)%wf_index_cons.
  apply NoDup_cons. split; [|auto]. intros Hin. rewrite Forall_forall in Hf.
  specialize (Hf a Hin). wf_facts. unfold before in Hf. lia.
Qed.

Lemma to_remove_spec m s : wf_index s → wf_mapping m →
  let olds := scan_overlaps (sm_offset m) (rev (range_to (sm_end m) s)) in
  NoDup olds ∧ (∀ a, a ∈ olds ↔ a ∈ s ∧ overlaps m a).
Proof.
  intros Hs Hm. cbv zeta.
  assert (wf_index (range_to (sm_end m) s)) as Hr by by apply wf_index_filter.
  rewrite scan_overlaps_rev by done. split.
  - rewrite <- (Permutation_rev _). by apply wf_index_NoDup, wf_index_filter.
  - intros a. rewrite <- (Permutation_rev _), elem_of_lfilter. unfold range_to.
    rewrite elem_of_lfilter, (sm_end_wf m) by done. split.
    + intros [[Ha ?] Hk]. rewrite sm_end_wf in Hk by by apply (elem_of_wf s).
      unfold overlaps. split; [done|lia].
    + intros [Ha [? ?]]. rewrite sm_end_wf by by apply (elem_of_wf s).
      split_and!; [done|lia|lia].
Qed.

(** Insertion keeps the index sorted and disjoint, and overwrites exactly the
    sectors of the inserted mapping. *)
Lemma mi_insert_spec s m : wf_index s → wf_mapping m →
  wf_index (mi_insert s m)
  ∧ ∀ x, view (mi_insert s m) x = if covers m x then Some (loc_at m x) else view s x.
Proof.
  intros Hs Hm. unfold mi_insert. pose proof (wf_len m Hm).
  destruct (Z.eqb_spec (sm_length m) 0); [lia|].
  destruct (to_remove_spec m s Hs Hm) as [Hnd Ho].
  destruct (mi_split_all m _ s Hs Hm Hnd) as (Hw & Hd & Hv & _).
  - intros a. apply Ho.
  - intros a ? ?. by apply Ho.
  - split; [by apply bset_insert_wf|]. intros x. rewrite view_bset_insert by done.
    destruct (covers m x) eqn:E; [done|]. auto.
Qed.

(** No mapping ever grows. *)
Lemma mi_insert_within s m a : wf_index s → wf_mapping m → a ∈ mi_insert s m →
  a = m ∨ ∃ b, b ∈ s ∧ within a b.
Proof.
  intros Hs Hm Ha. unfold mi_insert in Ha. pose proof (wf_len m Hm).
  destruct (Z.eqb_spec (sm_length m) 0); [lia|].
  destruct (to_remove_spec m s Hs Hm) as [Hnd Ho].
  destruct (mi_split_all m _ s Hs Hm Hnd) as (_ & _ & _ & Hin).
  - intros b. apply Ho.
  - intros b ? ?. by apply Ho.
  - apply elem_of_bset_insert_1 in Ha as [->|Ha]; [by left|right]. by apply Hin.
Qed.

(** A bound on the mappings that splitting respects holds of the whole index. *)
Lemma insert_log_bound (P : SegmentMapping → Prop) log : (∀ a b, within a b → P b → P a) →
  ∀ s, wf_index s → Forall P s → Forall (λ m, wf_mapping m ∧ P m) log →
  Forall P (fold_left mi_insert log s).
Proof.
  intros HP. induction log as [|m log IH]; intros s Hs HPs Hl; [done|].
  apply Forall_cons in Hl as [[Hm HPm] Hl]. simpl. apply IH; [by apply mi_insert_spec| |done].
  rewrite Forall_forall in HPs. apply Forall_forall. intros a Ha.
  apply mi_insert_within in Ha as [->|(b & Hb & Hin)]; [done| |done..]. eauto.
Qed.

Lemma insert_log_view log : ∀ s, wf_index s → Forall wf_mapping log →
  wf_index (fold_left mi_insert log s)
  ∧ ∀ x, view (fold_left mi_insert log s) x
         = match view (rev log) x with Some l => Some l | None => view s x end.
Proof.
  induction log as [|m log IH] using rev_ind; intros s Hs Hl; [done|].
  apply Forall_app in Hl as [Hl [Hm _]%Forall_cons].
  rewrite fold_left_app. simpl. destruct (IH s Hs Hl) as [Hw Hv].
  destruct (mi_insert_spec _ m Hw Hm) as [Hw' Hv']. split; [done|]. intros x.
  rewrite Hv', Hv, rev_app_distr. simpl. by destruct (covers m x).
Qed.

(** ** Properties *)

(** replaying any log of writes into the mutable index yields a sorted,
    disjoint index in which every sector is stored where the last mapping of
    the log that covers it says, overlaps and splits included. *)
Theorem mutable_index_last_writer_wins log : Forall wf_mapping log →
  wf_index (fold_left mi_insert log [])
  ∧ ∀ x, view (fold_left mi_insert log []) x = view (rev log) x.
Proof.
  intros Hl. destruct (insert_log_view log [] wf_index_nil Hl) as [Hw Hv].
  split; [done|]. intros x. rewrite Hv. by destruct (view (rev log) x).
Qed.

Definition log_example : list SegmentMapping :=
  [sm_new 0 100 1000 false 1; sm_new 40 20 5000 false 1; sm_new 90 30 NO_PHYSICAL_OFFSET true 1].

Lemma mutable_index_last_writer_wins_witness :
  wf_index (fold_left mi_insert log_example [])
  ∧ view (fold_left mi_insert log_example []) 70 = Some (mkLoc (Some 1070) false 1).
Proof.
  destruct (mutable_index_last_writer_wins log_example) as [Hw Hv].
  - repeat constructor; vm_compute; intuition congruence.
  - split; [exact Hw|]. rewrite Hv. vm_compute. reflexivity.
Defined.
