(* ===== verification/LsmtLookup.v ===== *)
(** * Lookups in the LSMT indexes

    Proves that every index of [LsmtIndex] implements the [LogIndex]
    contract, that the binary-search lookup of [ReadOnlyIndex] and the tree
    lookup of [MutableIndex] compute the same answer, and what merging and
    stacking indexes means. *)

From S2P Require Import Prelude LsmtSegment LsmtIndex.

(** ** The canonical answer of a lookup *)

Definition q_overlaps (q : Segment) (m : SegmentMapping) : bool :=
  (sm_offset m <? seg_offset q + seg_length q)
  && (seg_offset q <? sm_offset m + sm_length m).

Definition canonical (q : Segment) (s : list SegmentMapping) : list SegmentMapping :=
  clip q <$> List.filter (q_overlaps q) s.

Lemma clip_spec q m : wf_query q → wf_mapping m → 0 < seg_length q → q_overlaps q m = true →
  wf_mapping (clip q m)
  ∧ sm_offset (clip q m) = Z.max (sm_offset m) (seg_offset q)
  ∧ sm_offset (clip q m) + sm_length (clip q m)
    = Z.min (sm_offset m + sm_length m) (seg_offset q + seg_length q)
  ∧ ∀ y, loc_at (clip q m) y = loc_at m y.
Proof.
  intros Hq Hm Hlen Hov. unfold q_overlaps in Hov. wf_facts. unfold clip.
  set (m1 := if sm_offset m <? seg_offset q then _ else m).
  assert (wf_mapping m1 ∧ sm_offset m1 = Z.max (sm_offset m) (seg_offset q)
          ∧ sm_offset m1 + sm_length m1 = sm_offset m + sm_length m
          ∧ ∀ y, loc_at m1 y = loc_at m y) as (Hw1 & Ho1 & He1 & Hl1).
  { subst m1. destruct (Z.ltb_spec (sm_offset m) (seg_offset q)).
    - destruct (forward_offset_to_spec m (seg_offset q)) as (? & ? & ? & ?); [done|lia|].
      split_and!; done || lia.
    - split_and!; done || lia. }
  unfold clip_back. rewrite sm_end_wf, seg_end_wf by done.
  destruct (Z.ltb_spec (seg_offset q + seg_length q) (sm_offset m1 + sm_length m1)).
  - destruct (backward_end_to_spec m1 (seg_offset q + seg_length q)) as (? & ? & ? & Hl2);
      [done|lia|].
    split_and!; [done|lia|lia|]. intros y. by rewrite Hl2.
  - split_and!; done || lia.
Qed.

Lemma push_nonempty_clip q m : wf_query q → wf_mapping m → 0 < seg_length q →
  q_overlaps q m = true → push_nonempty (clip q m) = [clip q m].
Proof.
  intros Hq Hm Hl Ho. destruct (clip_spec q m Hq Hm Hl Ho) as ([] & _). unfold push_nonempty.
  destruct (Z.ltb_spec 0 (sm_length (clip q m))); [done|lia].
Qed.

Lemma canonical_tiles q s : wf_query q → wf_index s → 0 < seg_length q →
  tiles (view s) (seg_offset q) (seg_offset q + seg_length q) (canonical q s).
Proof.
  intros Hq Hs Hlen. unfold canonical, tiles.
  induction s as [|m s IH]; simpl.
  { split_and!; [apply wf_index_nil|set_solver|done]. }
  pose proof Hs as (Hm & Hf & Hs')%wf_index_cons. destruct (IH Hs') as (Hw & Hin & Hv).
  wf_facts. destruct (q_overlaps q m) eqn:Ho; simpl.
  - destruct (clip_spec q m Hq Hm Hlen Ho) as (Hwc & Hco & Hce & Hcl).
    unfold q_overlaps in Ho. split_and!.
    + apply wf_index_cons. split_and!; [done| |done].
      apply Forall_forall. intros c (a & -> & [Ha Hoa]%elem_of_lfilter)%list_elem_of_fmap.
      pose proof (elem_of_wf _ _ Hs' Ha). wf_facts.
      destruct (clip_spec q a Hq ltac:(done) Hlen Hoa) as (_ & ? & _).
      rewrite Forall_forall in Hf. specialize (Hf a Ha). unfold before in *. lia.
    + intros c [->|Hc]%elem_of_cons; [lia|by apply Hin].
    + intros x Hx. simpl. rewrite Hv, Hcl by done.
      assert (covers (clip q m) x = covers m x) as ->; [|done].
      unfold covers. lia.
  - split_and!; [done..|]. intros x Hx. rewrite Hv by done.
    assert (covers m x = false) as ->; [|done].
    unfold q_overlaps in Ho. unfold covers. lia.
Qed.

(** ** [ReadOnlyIndex] *)

Lemma lookup_scan_canonical q s : wf_query q → wf_index s → 0 < seg_length q →
  (∀ m, m ∈ s → seg_offset q < sm_offset m + sm_length m) →
  lookup_scan q s = canonical q s.
Proof.
  intros Hq Hs Hlen He. unfold canonical. induction s as [|m s IH]; simpl; [done|].
  pose proof Hs as (Hm & Hf & Hs')%wf_index_cons. rewrite seg_end_wf by done. wf_facts.
  assert (seg_offset q < sm_offset m + sm_length m) by (apply He; set_solver).
  destruct (Z.leb_spec (seg_offset q + seg_length q) (sm_offset m)).
  - assert (List.filter (q_overlaps q) (m :: s) = []) as E.
    { apply lfilter_none. intros a [->|Ha]%elem_of_cons; unfold q_overlaps; [lia|].
      rewrite Forall_forall in Hf. specialize (Hf a Ha). unfold before in Hf. lia. }
    simpl in E. by rewrite E.
  - assert (q_overlaps q m = true) as Ho by (unfold q_overlaps; lia).
    rewrite Ho, push_nonempty_clip by done. simpl. f_equal. apply IH; [done|set_solver].
Qed.

Lemma canonical_drop_partition q s : wf_index s → wf_query q →
  let idx := partition_point (λ m, sm_end m <=? seg_offset q) s in
  canonical q (drop idx s) = canonical q s
  ∧ (∀ m, m ∈ drop idx s → seg_offset q < sm_offset m + sm_length m).
Proof.
  intros Hs Hq. unfold canonical. induction s as [|m s IH]; simpl; [split; [done|set_solver]|].
  pose proof Hs as (Hm & Hf & Hs')%wf_index_cons. wf_facts. rewrite sm_end_wf by done.
  destruct (Z.leb_spec (sm_offset m + sm_length m) (seg_offset q)).
  - simpl. destruct (IH Hs') as [-> ?]. split; [|done].
    assert (q_overlaps q m = false) as ->; [|done]. unfold q_overlaps. lia.
  - split; [done|]. simpl. intros a [->|Ha]%elem_of_cons; [lia|].
    rewrite Forall_forall in Hf. specialize (Hf a Ha).
    pose proof (elem_of_wf _ _ Hs' Ha). wf_facts. unfold before in Hf. lia.
Qed.

Lemma wf_index_drop n s : wf_index s → wf_index (drop n s).
Proof. intros H. rewrite <- (take_drop n s) in H. by apply wf_index_app in H as (_ & ? & _). Qed.

Lemma ro_lookup_canonical s q dst : wf_index s → wf_query q → 0 < seg_length q →
  ro_lookup s q dst = (dst ++ canonical q s, zlen (canonical q s)).
Proof.
  intros Hs Hq Hlen. unfold ro_lookup.
  destruct (Z.eqb_spec (seg_length q) 0); [lia|]. simpl.
  destruct s as [|m s']; [unfold canonical; simpl; by rewrite app_nil_r|]. cbv [is_nil].
  destruct (canonical_drop_partition q (m :: s') Hs Hq) as [Hc Hin].
  rewrite lookup_scan_canonical by (done || by apply wf_index_drop). by rewrite Hc.
Qed.

Lemma tiles_empty V a : tiles V a a [].
Proof. split_and!; [apply wf_index_nil|set_solver|lia]. Qed.

Lemma ro_lookup_tiles s q dst : wf_index s → wf_query q →
  ∃ out, ro_lookup s q dst = (dst ++ out, zlen out)
    ∧ tiles (view s) (seg_offset q) (seg_offset q + seg_length q) out.
Proof.
  intros Hs Hq. wf_facts. destruct (decide (seg_length q = 0)) as [E|E].
  - exists []. rewrite E, Z.add_0_r, app_nil_r. split; [|apply tiles_empty].
    unfold ro_lookup. by rewrite E.
  - exists (canonical q s). split; [apply ro_lookup_canonical|apply canonical_tiles];
      done || lia.
Qed.

(** ** [MutableIndex] *)

Lemma sorted_split k s : wf_index s →
  s = range_to k s ++ List.filter (λ a, k <=? sm_offset a) s.
Proof.
  unfold range_to. induction s as [|m s IH]; simpl; [done|].
  intros (Hm & Hf & Hs')%wf_index_cons. wf_facts. rewrite Forall_forall in Hf.
  destruct (Z.ltb_spec (sm_offset m) k), (Z.leb_spec k (sm_offset m)); try lia; simpl.
  - f_equal. auto.
  - rewrite lfilter_none.
    2:{ intros a Ha. specialize (Hf a Ha). unfold before in Hf. lia. }
    simpl. f_equal. symmetry. apply lfilter_all.
    intros a Ha. specialize (Hf a Ha). unfold before in Hf. lia.
Qed.

(** Only the last mapping that starts before the query can reach into it. *)
Lemma canonical_left q s : wf_query q → wf_index s → 0 < seg_length q →
  canonical q (range_to (seg_offset q) s) =
    match last (range_to (seg_offset q) s) with
    | Some lm => if seg_offset q <? sm_end lm then push_nonempty (clip q lm) else []
    | None => []
    end.
Proof.
  intros Hq Hs Hlen. unfold canonical.
  assert (∀ a, a ∈ range_to (seg_offset q) s → sm_offset a < seg_offset q) as Hlt.
  { intros a [_ ?]%elem_of_lfilter. lia. }
  assert (wf_index (range_to (seg_offset q) s)) as Hr by by apply wf_index_filter.
  destruct (range_to (seg_offset q) s) as [|lm l _] using rev_ind; [done|].
  rewrite last_snoc, List.filter_app, fmap_app.
  apply wf_index_app in Hr as (Hl & Hlm & Hb). apply wf_index_cons in Hlm as (Hlm & _ & _).
  assert (sm_offset lm < seg_offset q) by (apply Hlt; set_solver). wf_facts.
  rewrite lfilter_none; simpl.
  2:{ intros a Ha. specialize (Hb a lm Ha ltac:(set_solver)). unfold before in Hb.
      unfold q_overlaps. lia. }
  rewrite sm_end_wf by done.
  destruct (Z.ltb_spec (seg_offset q) (sm_offset lm + sm_length lm)).
  - assert (q_overlaps q lm = true) as Ho by (unfold q_overlaps; lia).
    by rewrite Ho, push_nonempty_clip.
  - assert (q_overlaps q lm = false) as -> by (unfold q_overlaps; lia). done.
Qed.

Lemma canonical_right q s : wf_query q → wf_index s → 0 < seg_length q →
  canonical q (List.filter (λ a, seg_offset q <=? sm_offset a) s) =
    mjoin ((λ m, push_nonempty (clip_back q m)) <$>
           range_between (seg_offset q) (seg_end q) s).
Proof.
  intros Hq Hs Hlen. unfold canonical, range_between. rewrite seg_end_wf by done.
  induction s as [|m s IH]; simpl; [done|].
  apply wf_index_cons in Hs as (Hm & _ & Hs'). wf_facts.
  destruct (Z.leb_spec (seg_offset q) (sm_offset m)); simpl; [|auto].
  destruct (Z.ltb_spec (sm_offset m) (seg_offset q + seg_length q)) as [Hlt|Hge].
  - assert (q_overlaps q m = true) as Ho by (unfold q_overlaps; lia).
    rewrite Ho. simpl.
    assert (clip q m = clip_back q m) as Hc.
    { unfold clip. destruct (Z.ltb_spec (sm_offset m) (seg_offset q)); [lia|done]. }
    rewrite <- Hc, push_nonempty_clip by done. simpl. f_equal. by apply IH.
  - assert (q_overlaps q m = false) as -> by (unfold q_overlaps; lia). auto.
Qed.

Lemma mi_lookup_canonical s q dst : wf_index s → wf_query q → 0 < seg_length q →
  mi_lookup s q dst = (dst ++ canonical q s, zlen (canonical q s)).
Proof.
  intros Hs Hq Hlen. unfold mi_lookup. destruct (Z.eqb_spec (seg_length q) 0); [lia|].
  rewrite <- canonical_left, <- canonical_right by done.
  unfold canonical. rewrite <- fmap_app, <- List.filter_app, <- sorted_split by done. done.
Qed.

Lemma mi_lookup_tiles s q dst : wf_index s → wf_query q →
  ∃ out, mi_lookup s q dst = (dst ++ out, zlen out)
    ∧ tiles (view s) (seg_offset q) (seg_offset q + seg_length q) out.
Proof.
  intros Hs Hq. wf_facts. destruct (decide (seg_length q = 0)) as [E|E].
  - exists []. rewrite E, Z.add_0_r, app_nil_r. split; [|apply tiles_empty].
    unfold mi_lookup. by rewrite E.
  - exists (canonical q s). split; [apply mi_lookup_canonical|apply canonical_tiles];
      done || lia.
Qed.

(** Every piece a lookup returns lies inside a mapping of the index. *)
Lemma canonical_within s q a : wf_index s → wf_query q → 0 < seg_length q → a ∈ canonical q s →
  ∃ b, b ∈ s ∧ within a b.
Proof.
  intros Hs Hq Hl Ha. apply list_elem_of_fmap in Ha as (b & -> & [Hb Ho]%elem_of_lfilter).
  pose proof (elem_of_wf _ _ Hs Hb). destruct (clip_spec q b) as (_ & Ho1 & Ho2 & _); [done..|].
  exists b. unfold within. split; [done|lia].
Qed.

Lemma mi_lookup_within s q a : wf_index s → wf_query q → a ∈ (mi_lookup s q []).1 →
  ∃ b, b ∈ s ∧ within a b.
Proof.
  intros Hs Hq Ha. wf_facts. destruct (decide (seg_length q = 0)) as [E|E].
  { unfold mi_lookup in Ha. rewrite E in Ha. simpl in Ha. set_solver. }
  rewrite mi_lookup_canonical in Ha by (done || lia). eapply canonical_within; [done|done|lia|done].
Qed.

Lemma ro_lookup_within s q dst a : wf_index s → wf_query q → a ∈ (ro_lookup s q dst).1 →
  a ∈ dst ∨ ∃ b, b ∈ s ∧ within a b.
Proof.
  intros Hs Hq Ha. wf_facts. destruct (decide (seg_length q = 0)) as [E|E].
  { unfold ro_lookup in Ha. rewrite E in Ha. by left. }
  rewrite ro_lookup_canonical in Ha by (done || lia). apply elem_of_app in Ha as [Ha|Ha]; [by left|right].
  eapply canonical_within; [done|done|lia|done].
Qed.

(** ** [ComboIndex] *)

Definition opt_or {A} (a b : option A) : option A :=
  match a with Some x => Some x | None => b end.

(** The upper index hides the lower one. *)
Definition combo_view (ci : ComboIndex) (x : Z) : option Loc :=
  opt_or (view (upper ci) x) (match lower ci with Some lo => view lo x | None => None end).

Definition wf_combo (ci : ComboIndex) : Prop :=
  wf_index (upper ci) ∧ ∀ lo, lower ci = Some lo → wf_index lo.

Lemma tiles_app V a b c l1 l2 : a ≤ b → b ≤ c →
  tiles V a b l1 → tiles V b c l2 → tiles V a c (l1 ++ l2).
Proof.
  intros Hab Hbc (Hw1 & Hi1 & Hv1) (Hw2 & Hi2 & Hv2). split_and!.
  - apply wf_index_app. split_and!; [done..|]. intros m1 m2 Hm1 Hm2.
    specialize (Hi1 m1 Hm1). specialize (Hi2 m2 Hm2). unfold before. lia.
  - intros m [Hm|Hm]%elem_of_app; [specialize (Hi1 m Hm)|specialize (Hi2 m Hm)]; lia.
  - intros x Hx. rewrite view_app. destruct (decide (x < b)).
    + rewrite Hv1 by lia. destruct (V x); [done|]. apply view_below.
      intros m Hm. specialize (Hi2 m Hm). lia.
    + rewrite view_above; [apply Hv2; lia|]. intros m Hm. specialize (Hi1 m Hm). lia.
Qed.

Lemma tiles_ext V1 V2 a b l : (∀ x, a ≤ x < b → V1 x = V2 x) → tiles V1 a b l → tiles V2 a b l.
Proof. intros HV (? & ? & Hv). split_and!; [done..|]. intros x Hx. rewrite <- HV by done. auto. Qed.

Lemma tiles_cons V a b m l : tiles V a b (m :: l) →
  wf_mapping m ∧ a ≤ sm_offset m ∧ sm_offset m + sm_length m ≤ b
  ∧ (∀ x, covers m x = true → V x = Some (loc_at m x))
  ∧ tiles V (sm_offset m + sm_length m) b l.
Proof.
  intros (Hwf & Hin & Hv). destruct (Hin m) as [Ha Hb]; [by left|].
  apply wf_index_cons in Hwf as (Hm & Hbef & Hl). wf_facts. split_and!; [done..| |].
  - intros x Hx. rewrite <- Hv by (apply covers_iff in Hx; lia). simpl. by rewrite Hx.
  - split_and!; [done| |].
    + intros m' Hm'. split; [|apply Hin; by right]. rewrite Forall_forall in Hbef.
      by apply Hbef.
    + intros x Hx. rewrite <- Hv by lia. simpl. destruct (covers m x) eqn:E; [|done].
      apply covers_iff in E. lia.
Qed.

Lemma zlen_tiles V l : ∀ a b, a ≤ b → tiles V a b l → zlen l ≤ b - a.
Proof.
  induction l as [|m l IH]; intros a b Hab Ht; [change (zlen []) with 0; lia|].
  apply tiles_cons in Ht as (Hm & Ho & He & _ & Ht). specialize (IH _ _ He Ht). wf_facts.
  rewrite zlen_cons. lia.
Qed.

Lemma tiles_singleton m : wf_mapping m →
  tiles (λ x, Some (loc_at m x)) (sm_offset m) (sm_offset m + sm_length m) [m].
Proof.
  intros Hm. split_and!.
  - apply wf_index_cons. split_and!; [done|constructor|apply wf_index_nil].
  - intros a ->%list_elem_of_singleton. lia.
  - intros x Hx. simpl. assert (covers m x = true) as -> by (apply covers_iff; lia). done.
Qed.

(** Looking up one gap in the lower index. *)
Lemma gap_lookup lo a b dst : wf_index lo → 0 ≤ a → a ≤ b → b < 2 ^ 64 → b - a < 2 ^ 32 →
  ∃ out, (if a <? b then (ro_lookup lo (mkSeg a (wrap32 (b - a))) dst).1 else dst) = dst ++ out
    ∧ tiles (view lo) a b out.
Proof.
  intros Hlo ? ? ? ?. destruct (Z.ltb_spec a b).
  - unwrap. destruct (ro_lookup_tiles lo (mkSeg a (b - a)) dst) as (out & E & Ht); [done| |].
    { constructor; simpl; lia. }
    exists out. rewrite E. split; [done|]. simpl in Ht. by replace (a + (b - a)) with b in Ht by lia.
  - exists []. rewrite app_nil_r. split; [done|]. replace b with a by lia. apply tiles_empty.
Qed.

Lemma combo_fill_tiles lo b ups : ∀ a dst, wf_index lo → wf_index ups →
  0 ≤ a → a ≤ b → b < 2 ^ 64 → b - a < 2 ^ 32 →
  (∀ m, m ∈ ups → a ≤ sm_offset m ∧ sm_offset m + sm_length m ≤ b) →
  ∃ out, combo_fill lo a b ups dst = dst ++ out
    ∧ tiles (λ x, opt_or (view ups x) (view lo x)) a b out.
Proof.
  induction ups as [|m ups IH]; intros a dst Hlo Hu Ha Hab Hb Hlen Hin; simpl.
  { apply gap_lookup; done. }
  apply wf_index_cons in Hu as (Hm & Hf & Hu). rewrite Forall_forall in Hf.
  destruct (Hin m) as [? ?]; [set_solver|]. wf_facts. rewrite sm_end_wf by done.
  destruct (gap_lookup lo a (sm_offset m) dst) as (gap & -> & Hgap); [done|lia..|].
  destruct (IH (sm_offset m + sm_length m) ((dst ++ gap) ++ [m])) as (out & -> & Hout);
    [done|done|lia|lia|lia|lia| |].
  { intros a' Ha'. destruct (Hin a'); [set_solver|]. specialize (Hf a' Ha'). unfold before in Hf.
    lia. }
  exists (gap ++ [m] ++ out). split; [by rewrite <- !(assoc_L (++))|].
  eapply tiles_app; [| |eapply tiles_ext; [|exact Hgap]|]; [lia|lia| |].
  { intros x Hx. assert (covers m x = false) as -> by (unfold covers; lia).
    rewrite (view_below ups); [done|]. intros a' Ha'. specialize (Hf a' Ha'). unfold before in Hf. lia. }
  eapply tiles_app; [| |eapply tiles_ext; [|by apply tiles_singleton]
                      |eapply tiles_ext; [|exact Hout]]; [lia|lia| |].
  - intros x Hx. assert (covers m x = true) as -> by (apply covers_iff; lia). done.
  - intros x Hx. assert (covers m x = false) as -> by (unfold covers; lia). done.
Qed.

Lemma combo_lookup_tiles ci q dst : wf_combo ci → wf_query q →
  ∃ out, combo_lookup ci q dst = (dst ++ out, zlen out)
    ∧ tiles (combo_view ci) (seg_offset q) (seg_offset q + seg_length q) out.
Proof.
  intros [Hu Hl] Hq. wf_facts. unfold combo_lookup, combo_view.
  destruct (Z.eqb_spec (seg_length q) 0) as [E|E].
  { exists []. rewrite E, Z.add_0_r, app_nil_r. split; [done|apply tiles_empty]. }
  destruct (mi_lookup_tiles (upper ci) q []) as (ups & -> & Htu); [done..|]. simpl.
  destruct (lower ci) as [lo|].
  - rewrite seg_end_wf by done. destruct Htu as (Hwu & Hiu & Hvu).
    destruct (combo_fill_tiles lo (seg_offset q + seg_length q) ups (seg_offset q) dst)
      as (out & -> & Ht); [auto|done|lia..|done|].
    exists out. rewrite zlen_app. split; [f_equal; lia|].
    eapply tiles_ext; [|exact Ht]. intros x Hx. cbv beta. by rewrite Hvu.
  - exists ups. rewrite zlen_app. split; [f_equal; lia|].
    eapply tiles_ext; [|exact Htu]. intros x Hx. by destruct (view (upper ci) x).
Qed.

(** ** Instances of the trait *)
Record ReadOnlyIndex : Type := mkReadOnly { ro_mappings : list SegmentMapping }.
Record MutableIndex : Type := mkMutable { mi_mappings : list SegmentMapping }.

#[global] Instance ReadOnlyIndex_LogIndex : LogIndex ReadOnlyIndex :=
  λ idx, ro_lookup (ro_mappings idx).
#[global] Instance MutableIndex_LogIndex : LogIndex MutableIndex :=
  λ idx, mi_lookup (mi_mappings idx).
#[global] Instance ComboIndex_LogIndex : LogIndex ComboIndex := combo_lookup.

#[global] Instance ReadOnlyIndex_LogIndexSpec : LogIndexSpec ReadOnlyIndex := {|
  li_wf idx := wf_index (ro_mappings idx);
  li_view idx := view (ro_mappings idx);
  li_lookup_spec idx q dst := ro_lookup_tiles (ro_mappings idx) q dst
|}.
#[global] Instance MutableIndex_LogIndexSpec : LogIndexSpec MutableIndex := {|
  li_wf idx := wf_index (mi_mappings idx);
  li_view idx := view (mi_mappings idx);
  li_lookup_spec idx q dst := mi_lookup_tiles (mi_mappings idx) q dst
|}.
#[global] Instance ComboIndex_LogIndexSpec : LogIndexSpec ComboIndex := {|
  li_wf := wf_combo;
  li_view := combo_view;
  li_lookup_spec := combo_lookup_tiles
|}.

Lemma combo_fill_within lo b ups : ∀ c dst m, wf_index lo → wf_index ups → 0 ≤ c → b < 2 ^ 64 →
  b - c < 2 ^ 32 → (∀ m, m ∈ ups → c ≤ sm_offset m ∧ sm_offset m + sm_length m ≤ b) →
  m ∈ combo_fill lo c b ups dst → m ∈ dst ∨ m ∈ ups ∨ ∃ m', m' ∈ lo ∧ within m m'.
Proof.
  induction ups as [|u ups IH]; intros c dst m Hlo Hu Hc Hb Hlen Hin Hm; simpl in Hm.
  - destruct (Z.ltb_spec c b); [|by left].
    apply ro_lookup_within in Hm as [?|?]; [by left|by right; right|done|].
    rewrite wrap32_small by lia. constructor; simpl; lia.
  - apply wf_index_cons in Hu as (Hwu & Hbef & Hu). rewrite Forall_forall in Hbef.
    destruct (Hin u) as [Hu1 Hu2]; [by left|]. wf_facts.
    assert (sm_end u = sm_offset u + sm_length u) as Eu by (by apply sm_end_wf). rewrite Eu in Hm.
    apply IH in Hm; [|done|done|lia|done|lia|].
    + destruct Hm as [Hm|[Hm|Hm]]; [|by right; left; right|by right; right].
      apply elem_of_app in Hm as [Hm|Hm]; [|apply list_elem_of_singleton in Hm as ->; by right; left; left].
      destruct (Z.ltb_spec c (sm_offset u)); [|by left].
      apply ro_lookup_within in Hm as [?|?]; [by left|by right; right|done|].
      rewrite wrap32_small by lia. constructor; simpl; lia.
    + intros m' Hm'. specialize (Hbef m' Hm'). unfold before in Hbef. destruct (Hin m'); [by right|]. lia.
Qed.

Lemma combo_lookup_within ci q a : wf_combo ci → wf_query q → a ∈ (combo_lookup ci q []).1 →
  (∃ b, b ∈ upper ci ∧ within a b) ∨ ∃ lo b, lower ci = Some lo ∧ b ∈ lo ∧ within a b.
Proof.
  intros [Hup Hlo] Hq. unfold combo_lookup. destruct (Z.eqb_spec (seg_length q) 0); [by intros ?%not_elem_of_nil|].
  destruct (mi_lookup_tiles (upper ci) q [] Hup Hq) as (out & E & Htl). cbn [fst].
  destruct (lower ci) as [lo|] eqn:El.
  - intros Ha. wf_facts. apply combo_fill_within in Ha as [Ha|[Ha|(b & Hb & Hw)]].
    + by apply not_elem_of_nil in Ha.
    + left. by eapply mi_lookup_within.
    + right. by exists lo, b.
    + by apply Hlo.
    + rewrite E. apply Htl.
    + done.
    + rewrite seg_end_wf by done. lia.
    + rewrite seg_end_wf by done. lia.
    + rewrite E, seg_end_wf by done. apply Htl.
  - intros Ha. left. by eapply mi_lookup_within.
Qed.

(** ** Merging layers *)

Definition retag (t : Z) (l : Loc) : Loc := mkLoc (loc_phys l) (loc_zeroed l) t.
(** Zeros of a read-only index own no physical sector. *)
Definition norm_loc (l : Loc) : Loc :=
  if loc_zeroed l then mkLoc None true (loc_tag l) else l.

(** The newest layer that maps the sector wins; the tag is its position. *)
Fixpoint stack_view (i : Z) (layers : list (list SegmentMapping)) (x : Z) : option Loc :=
  match layers with
  | [] => None
  | l :: rest => opt_or (retag i <$> view l x) (stack_view (i + 1) rest x)
  end.

(** Replacing fields that do not move a mapping maps the view. *)
Lemma view_fmap (f : SegmentMapping → SegmentMapping) (g : Loc → Loc) ms x :
  (∀ m, m ∈ ms → segment (f m) = segment m) →
  (∀ m, m ∈ ms → loc_at (f m) x = g (loc_at m x)) →
  view (f <$> ms) x = g <$> view ms x.
Proof.
  induction ms as [|m ms IH]; intros Hs Hg; simpl; [done|].
  assert (covers (f m) x = covers m x) as ->.
  { unfold covers, sm_offset, sm_length. by rewrite Hs by set_solver. }
  destruct (covers m x); [by rewrite Hg by set_solver|].
  apply IH; intros; [apply Hs|apply Hg]; set_solver.
Qed.

Lemma wf_index_fmap (f : SegmentMapping → SegmentMapping) ms :
  (∀ m, m ∈ ms → segment (f m) = segment m) →
  (∀ m, m ∈ ms → wf_mapping m → wf_mapping (f m)) →
  wf_index ms → wf_index (f <$> ms).
Proof.
  induction ms as [|m ms IH]; intros Hs Hw; simpl; [done|].
  rewrite !wf_index_cons. intros (Hm & Hf & Hms). split_and!.
  - apply Hw; [set_solver|done].
  - apply Forall_forall. intros a (b & -> & Hb)%list_elem_of_fmap.
    rewrite Forall_forall in Hf. specialize (Hf b Hb).
    unfold before, sm_offset, sm_length in *. rewrite !Hs by set_solver. done.
  - apply IH; [intros; apply Hs|intros; apply Hw|]; set_solver.
Qed.

Lemma wf_set_tag m t : 0 ≤ t < 2 ^ 8 → wf_mapping m → wf_mapping (set_tag m t).
Proof. intros Ht []. constructor; try done. Qed.

Lemma wf_drop_phys m : wf_mapping m → wf_mapping (set_moffset m NO_PHYSICAL_OFFSET).
Proof. intros []. constructor; try done. by left. Qed.

Lemma ro_new_idemp ms : ro_new (ro_new ms) = ro_new ms.
Proof.
  unfold ro_new. rewrite <- list_fmap_compose. apply list_fmap_ext. intros i m _. simpl.
  destruct (zeroed m) eqn:E; simpl; by rewrite E.
Qed.

Lemma ro_new_spec ms : wf_index ms →
  wf_index (ro_new ms) ∧ ∀ x, view (ro_new ms) x = norm_loc <$> view ms x.
Proof.
  intros Hms. split.
  - apply wf_index_fmap; [intros m _; by destruct (zeroed m)| |done].
    intros m _ Hm. destruct (zeroed m); [by apply wf_drop_phys|done].
  - intros x. apply view_fmap; intros m _; [by destruct (zeroed m)|].
    by destruct m as [? ? [] ?].
Qed.

Lemma insert_all_view (f : SegmentMapping → SegmentMapping) (g : Loc → Loc) ms : ∀ s,
  wf_index ms → wf_index s →
  (∀ m, segment (f m) = segment m) → (∀ m x, loc_at (f m) x = g (loc_at m x)) →
  (∀ m, wf_mapping m → wf_mapping (f m)) →
  let s' := fold_left (λ s m, mi_insert s (f m)) ms s in
  wf_index s' ∧ ∀ x, view s' x = opt_or (g <$> view ms x) (view s x).
Proof.
  induction ms as [|m ms IH]; intros s Hms Hs Hseg Hloc Hwf; simpl; [done|].
  pose proof Hms as (Hm & Hf & Hms')%wf_index_cons. rewrite Forall_forall in Hf.
  destruct (mi_insert_spec s (f m)) as [Hw Hv]; [done|auto|].
  destruct (IH (mi_insert s (f m))) as [Hw' Hv']; try done.
  split; [done|]. intros x. rewrite Hv', Hv.
  assert (covers (f m) x = covers m x) as ->.
  { unfold covers, sm_offset, sm_length. by rewrite Hseg. }
  destruct (covers m x) eqn:E; [|done]. rewrite Hloc.
  destruct (view ms x) as [l|] eqn:E2; [|done].
  apply view_Some in E2 as (a & Ha & Hc & _). specialize (Hf a Ha).
  apply covers_iff in E, Hc. unfold before in Hf. lia.
Qed.

Lemma merge_layers_view layers : ∀ k, Forall wf_index layers → 0 ≤ Z.of_nat k →
  Z.of_nat k + zlen layers ≤ 2 ^ 8 →
  let mi := fold_left merge_layer (rev (zip (seq k (length layers)) layers)) [] in
  wf_index mi ∧ ∀ x, view mi x = stack_view (Z.of_nat k) layers x.
Proof.
  induction layers as [|l layers IH]; intros k Hl Hk Hlen; simpl.
  { split; [apply wf_index_nil|done]. }
  apply Forall_cons in Hl as [Hl Hls]. unfold zlen in Hlen. simpl in Hlen.
  destruct (IH (S k)) as [Hw Hv]; [done|lia|unfold zlen; lia|].
  rewrite fold_left_app. simpl. unfold merge_layer at 1 3. simpl.
  destruct (insert_all_view (λ m, set_tag m (wrap8 (Z.of_nat k))) (retag (Z.of_nat k)) l _ Hl Hw)
    as [Hw' Hv']; [done| |intros m; apply wf_set_tag, wrap8_range|].
  { intros m x. rewrite wrap8_small by lia. done. }
  split; [done|]. intros x. rewrite Hv', Hv. by replace (Z.of_nat (S k)) with (Z.of_nat k + 1) by lia.
Qed.

Lemma ro_merge_spec layers : Forall wf_index layers → zlen layers ≤ 2 ^ 8 →
  wf_index (ro_merge layers)
  ∧ ∀ x, view (ro_merge layers) x = norm_loc <$> stack_view 0 layers x.
Proof.
  intros Hl Hlen. destruct (merge_layers_view layers 0 Hl) as [Hw Hv]; [lia..|].
  destruct (ro_new_spec _ Hw) as [Hw' Hv']. split; [done|].
  intros x. unfold ro_merge, enumerate. rewrite Hv', Hv. done.
Qed.

(** Rebuilding the tree from its own sorted mappings keeps their order. *)
Lemma bset_insert_snoc s m : wf_index (s ++ [m]) → bset_insert m s = s ++ [m].
Proof.
  induction s as [|a s IH]; simpl; [done|]. intros (Ha & Hf & Hs)%wf_index_cons.
  rewrite Forall_forall in Hf. specialize (Hf m ltac:(set_solver)). wf_facts.
  unfold before in Hf. zcases. f_equal. auto.
Qed.

Lemma combo_new_upper up lo n : wf_index up → 0 ≤ n →
  (∀ m, m ∈ up → tag m + n < 2 ^ 8) →
  combo_new up lo n = mkCombo ((λ m, set_tag m (tag m + n)) <$> up) lo.
Proof.
  intros Hup Hn Htag. unfold combo_new. destruct (Z.ltb_spec 0 n).
  - f_equal. induction up as [|m up IH] using rev_ind; [done|].
    rewrite fold_left_app, fmap_app. simpl.
    pose proof Hup as (Hup' & Hm & _)%wf_index_app. apply wf_index_cons in Hm as (Hm & _).
    rewrite IH by (done || set_solver).
    assert (tag m + n < 2 ^ 8) by (apply Htag; set_solver). wf_facts. unwrap.
    apply bset_insert_snoc. change ([set_tag m (tag m + n)]) with ((λ m, set_tag m (tag m + n)) <$> [m]).
    rewrite <- fmap_app. apply wf_index_fmap; [done| |done].
    intros a Ha [? ? ? ? ?]. apply wf_set_tag; [|done]. specialize (Htag a Ha). lia.
  - replace n with 0 by lia. f_equal. induction up as [|m up IH]; [done|].
    rewrite fmap_cons. apply wf_index_cons in Hup as (_ & _ & Hup).
    rewrite <- IH by (done || set_solver). f_equal. rewrite Z.add_0_r. by destruct m.
Qed.

(** ** Properties *)

(** the tree walk of the mutable index and the binary search of the
    read-only index are the same function: on the same mappings they append
    the same pieces, in the same order, for every query. *)
Theorem mutable_lookup_eq_readonly_lookup s q dst : wf_index s → wf_query q →
  mi_lookup s q dst = ro_lookup s q dst.
Proof.
  intros Hs Hq. destruct (decide (seg_length q = 0)) as [E|E].
  - unfold mi_lookup, ro_lookup. by rewrite E.
  - wf_facts. rewrite mi_lookup_canonical, ro_lookup_canonical by (done || lia). done.
Qed.

(** a lookup in the layered index appends sorted disjoint pieces inside
    the query that locate every sector where the upper index has it and, in
    the gaps, where the lower index has it. *)
Theorem combo_lookup_refines_overlay ci q dst : wf_combo ci → wf_query q →
  ∃ out, combo_lookup ci q dst = (dst ++ out, zlen out)
    ∧ wf_index out
    ∧ (∀ m, m ∈ out → seg_offset q ≤ sm_offset m
                      ∧ sm_offset m + sm_length m ≤ seg_offset q + seg_length q)
    ∧ (∀ x, seg_offset q ≤ x < seg_offset q + seg_length q → view out x = combo_view ci x).
Proof. intros Hc Hq. apply (combo_lookup_tiles ci q dst Hc Hq). Qed.

(** merging a stack of layers, newest first, gives a well-formed index in
    which each sector belongs to the newest layer that maps it, tagged with
    that layer's position, and zero mappings hold no physical sectors. *)
Theorem merge_newest_layer_wins layers : Forall wf_index layers → zlen layers ≤ 2 ^ 8 →
  wf_index (ro_merge layers)
  ∧ ∀ x, view (ro_merge layers) x = norm_loc <$> stack_view 0 layers x.
Proof. apply ro_merge_spec. Qed.

Definition lower_example : list SegmentMapping :=
  [sm_new 0 16 10 false 0; sm_new 32 16 50 false 0].
Definition upper_example : list SegmentMapping :=
  [sm_new 8 4 900 false 1; sm_new 30 4 NO_PHYSICAL_OFFSET true 1].

Lemma mutable_lookup_eq_readonly_lookup_witness :
  mi_lookup lower_example (mkSeg 10 30) [] = ro_lookup lower_example (mkSeg 10 30) [].
Proof.
  apply mutable_lookup_eq_readonly_lookup.
  - apply wf_index_b_true. vm_compute. reflexivity.
  - constructor; simpl; lia.
Defined.

Lemma combo_lookup_refines_overlay_witness :
  ∃ out, (combo_lookup (mkCombo upper_example (Some lower_example)) (mkSeg 0 40) []).1 = out
    ∧ view out 9 = Some (mkLoc (Some 901) false 1)
    ∧ view out 12 = Some (mkLoc (Some 22) false 0).
Proof.
  destruct (combo_lookup_refines_overlay (mkCombo upper_example (Some lower_example))
    (mkSeg 0 40) []) as (out & E & _ & _ & Hv).
  - split; [apply wf_index_b_true; vm_compute; reflexivity|].
    intros lo [= <-]. apply wf_index_b_true. vm_compute. reflexivity.
  - constructor; simpl; lia.
  - exists out. rewrite E. split; [done|].
    split; rewrite Hv by (simpl; lia); vm_compute; reflexivity.
Defined.

Lemma merge_newest_layer_wins_witness :
  view (ro_merge [upper_example; lower_example]) 9 = Some (mkLoc (Some 901) false 0)
  ∧ view (ro_merge [upper_example; lower_example]) 12 = Some (mkLoc (Some 22) false 1).
Proof.
  destruct (merge_newest_layer_wins [upper_example; lower_example]) as [_ Hv].
  - repeat constructor; apply wf_index_b_true || idtac; vm_compute; intuition congruence.
  - vm_compute. intuition congruence.
  - rewrite !Hv. vm_compute. done.
Defined.
