(* ===== verification/LsmtBpt.v ===== *)
(** * The linearized B+ tree index

    Models [BptConfig], [LinearizedBptree] and [IndexLBPT] of
    [storage/overlaybd/src/lsmt/index.rs]: a static search tree laid out level
    by level in one vector.  The main result is that the tree lookup returns
    exactly what the binary-search lookup of [ReadOnlyIndex] returns. *)

From S2P Require Import Prelude LsmtSegment LsmtIndex LsmtLookup.

(** ** Configuration *)
Class BptConfig : Type := {
  KEYS_PER_NODE : Z;
  MAX_LEVEL : Z;
  nodes_per_level : list Z;
  level_start_id : list Z;
  from_offset : Z → Z;
  to_offset : Z → Z
}.

Definition bpt_u64 : BptConfig := {|
  KEYS_PER_NODE := 8;
  MAX_LEVEL := 10;
  nodes_per_level :=
    [8; 72; 648; 5832; 52488; 472392; 4251528; 38263752; 344373768; 3099363912];
  level_start_id := [0; 8; 80; 728; 6560; 59048; 531440; 4782968; 43046720; 387420488];
  from_offset := λ offset, offset;
  to_offset := λ k, k
|}.

Definition bpt_u32 : BptConfig := {|
  KEYS_PER_NODE := 16;
  MAX_LEVEL := 7;
  nodes_per_level := [16; 272; 4624; 78608; 1336336; 22717712; 386200304];
  level_start_id := [0; 16; 288; 4912; 83520; 1419856; 24137568];
  from_offset := λ offset, wrap32 offset;
  to_offset := λ k, k
|}.

Inductive bpt_error : Type := EmptyMapping | TooManyMappings | IndexPanic.

Section Bpt.
Context {cfg : BptConfig}.

Definition zget {A} (l : list A) (i : Z) : option A :=
  if 0 <=? i then l !! Z.to_nat i else None.

(** [v[i] = x], panicking out of range. *)
Definition zset (l : list Z) (i x : Z) : option (list Z) :=
  if (0 <=? i) && (i <? zlen l) then Some (<[Z.to_nat i := x]> l) else None.

Record LinearizedBptree : Type := mkBpt { node : list Z; depth : Z }.

(** The first level whose capacity holds every mapping. *)
Fixpoint find_level (caps : list Z) (i size : Z) : option Z :=
  match caps with
  | [] => None
  | c :: caps' => if size <=? c then Some (i + 1) else find_level caps' (i + 1) size
  end.

(** Copy the leaf keys behind [leaf_start]. *)
Fixpoint fill_leaves (ms : list SegmentMapping) (p : Z) (v : list Z) : option (list Z) :=
  match ms with
  | [] => Some v
  | m :: ms' =>
      match zset v p (from_offset (sm_offset m)) with
      | Some v' => fill_leaves ms' (p + 1) v'
      | None => None
      end
  end.

(** One key of an inner node: the leaf key that starts the subtree to its right. *)
Definition fill_key (leaf_start g n i : Z) (st : option (list Z * Z)) (j : Z)
  : option (list Z * Z) :=
  match st with
  | None => None
  | Some (v, pos) =>
      let lower_id := leaf_start + i + g * j in
      let key := if lower_id <? n then zget v lower_id else Some (from_offset U64_MAX) in
      match key with
      | None => None
      | Some k => match zset v pos k with Some v' => Some (v', pos + 1) | None => None end
      end
  end.

Definition fill_node (leaf_start g n : Z) (st : option (list Z * Z)) (i : Z)
  : option (list Z * Z) :=
  fold_left (fill_key leaf_start g n i) (seqZ 1 KEYS_PER_NODE) st.

(** The [while i < leaf_size] loop visits the multiples of [step]. *)
Definition node_starts (leaf_size step : Z) : list Z :=
  (λ t, t * step) <$> seqZ 0 (div_ceil leaf_size step).

Definition fill_level (leaf_start leaf_size n : Z) (st : option (list Z * Z)) (level : Z)
  : option (list Z * Z) :=
  match st with
  | None => None
  | Some (v, g) =>
      match level_start_id !! Z.to_nat (level - 1) with
      | None => None
      | Some pos =>
          let step := g * (KEYS_PER_NODE + 1) in
          match fold_left (fill_node leaf_start g n) (node_starts leaf_size step) (Some (v, pos)) with
          | Some (v', _) => Some (v', g * (KEYS_PER_NODE + 1))
          | None => None
          end
      end
  end.

Definition bpt_build (ms : list SegmentMapping) : result bpt_error LinearizedBptree :=
  match ms with
  | [] => Err EmptyMapping
  | _ =>
      let mapping_size := zlen ms in
      match find_level (ztake MAX_LEVEL nodes_per_level) 0 mapping_size with
      | None => Err TooManyMappings
      | Some d =>
          match level_start_id !! Z.to_nat (d - 1), nodes_per_level !! Z.to_nat (d - 1) with
          | Some leaf_start, Some leaf_size =>
              let n_raw := leaf_start + mapping_size + KEYS_PER_NODE - 1 in
              let n := n_raw / KEYS_PER_NODE * KEYS_PER_NODE in
              let v0 := replicate (Z.to_nat n) (from_offset U64_MAX) in
              match fill_leaves ms leaf_start v0 with
              | None => Err IndexPanic
              | Some v1 =>
                  match fold_left (fill_level leaf_start leaf_size n)
                          (rev (seqZ 1 (d - 1))) (Some (v1, KEYS_PER_NODE)) with
                  | Some (v2, _) => Ok (mkBpt v2 d)
                  | None => Err IndexPanic
                  end
              end
          | _, _ => Err IndexPanic
          end
      end
  end.

(** [inner_search] sets bit [i] of a mask for every key not above [x] and
    counts the ones. *)
Definition mask_step (x : Z) (acc : Z * Z) (item : Z) : Z * Z :=
  let '(mask, i) := acc in
  (if item <=? x then Z.lor mask (Z.shiftl 1 i) else mask, i + 1).
Definition count_ones (z : Z) : Z := zlen (List.filter (Z.testbit z) (seqZ 0 32)).
Definition inner_search (base : list Z) (x : Z) : Z :=
  count_ones (fold_left (mask_step x) (ztake KEYS_PER_NODE base) (0, 0)).1.

(** [&self.node[res..]] panics when [res] is past the end. *)
Definition node_from (t : LinearizedBptree) (res : Z) : option (list Z) :=
  if (0 <=? res) && (res <=? zlen (node t)) then Some (zdrop res (node t)) else None.

Definition search_step (t : LinearizedBptree) (x : Z) (res : option Z) (_ : Z) : option Z :=
  match res with
  | None => None
  | Some res =>
      match node_from t res with
      | None => None
      | Some base =>
          Some ((KEYS_PER_NODE + 1) * res + (inner_search base x + 1) * KEYS_PER_NODE)
      end
  end.

Definition bpt_search (t : LinearizedBptree) (x_val : Z) : option Z :=
  if depth t <=? 0 then Some 0
  else
    let x := from_offset x_val in
    match fold_left (search_step t x) (rev (seqZ 2 (depth t - 1))) (Some 0) with
    | None => None
    | Some res =>
        match node_from t res, level_start_id !! Z.to_nat (depth t - 1) with
        | Some base, Some start_id =>
            let res := res + inner_search base x in
            if (0 <? res) && (start_id <? res) then Some (res - start_id - 1) else Some 0
        | _, _ => None
        end
    end.

Record IndexLBPT : Type := mkLBPT {
  lbpt_mappings : list SegmentMapping;
  lbpt : LinearizedBptree;
  lbpt_virtual_size : Z
}.

(** [IndexLBPT::new] panics when the tree cannot be built. *)
Definition lbpt_new (ms : list SegmentMapping) (vsize : Z) : option IndexLBPT :=
  match bpt_build ms with
  | Ok t => Some (mkLBPT ms t vsize)
  | Err _ => None
  end.

Definition lbpt_lookup (idx : IndexLBPT) (q : Segment) (dst : list SegmentMapping)
  : option (list SegmentMapping * Z) :=
  let ms := lbpt_mappings idx in
  if (seg_length q =? 0) || is_nil ms || (lbpt_virtual_size idx =? 0) then Some (dst, 0)
  else
    let start :=
      if negb (depth (lbpt idx) =? -1) then
        match bpt_search (lbpt idx) (seg_offset q) with
        | None => None
        | Some i =>
            match zget ms i with
            | Some m => Some (if sm_end m <=? seg_offset q then i + 1 else i)
            | None => Some i
            end
        end
      else Some (Z.of_nat (partition_point (λ m, sm_end m <=? seg_offset q) ms)) in
    match start with
    | None => None
    | Some i => let out := lookup_scan q (zdrop i ms) in Some (dst ++ out, zlen out)
    end.
End Bpt.

(** ** Arrays indexed by [Z] *)

Lemma zget_lt {A} (l : list A) i : 0 ≤ i < zlen l → is_Some (zget l i).
Proof.
  intros Hi. unfold zget. destruct (Z.leb_spec 0 i); [|lia].
  apply lookup_lt_is_Some. unfold zlen in Hi. lia.
Qed.

Lemma zget_ge {A} (l : list A) i : zlen l ≤ i → zget l i = None.
Proof.
  intros Hi. unfold zget. destruct (Z.leb_spec 0 i); [|done].
  apply lookup_ge_None. unfold zlen in Hi. lia.
Qed.

Lemma zget_inv {A} (l : list A) i x : zget l i = Some x → 0 ≤ i < zlen l.
Proof.
  unfold zget. destruct (Z.leb_spec 0 i); [|done]. intros E%lookup_lt_Some.
  unfold zlen. lia.
Qed.

Lemma zget_cons {A} (a : A) l i : 0 < i → zget (a :: l) i = zget l (i - 1).
Proof.
  intros Hi. unfold zget. destruct (Z.leb_spec 0 i), (Z.leb_spec 0 (i - 1)); [|lia..].
  replace (Z.to_nat i) with (S (Z.to_nat (i - 1))) by lia. done.
Qed.

Lemma zset_spec l i x : 0 ≤ i < zlen l →
  ∃ l', zset l i x = Some l' ∧ zlen l' = zlen l
    ∧ ∀ q, zget l' q = if q =? i then Some x else zget l q.
Proof.
  intros Hi. unfold zset, zlen in *.
  destruct (Z.leb_spec 0 i), (Z.ltb_spec i (Z.of_nat (length l))); [|lia..]. simpl.
  eexists. split; [done|]. rewrite length_insert. split; [done|]. intros q. unfold zget.
  destruct (Z.leb_spec 0 q), (Z.eqb_spec q i); try lia; [subst| |done].
  - apply list_lookup_insert_eq. lia.
  - apply list_lookup_insert_ne. lia.
Qed.

(** A monotone sequence has a threshold. *)
Lemma threshold (f : Z → Z) (x : Z) (n : nat) :
  (∀ i j, 0 ≤ i ≤ j → j < Z.of_nat n → f i ≤ f j) →
  ∃ c, 0 ≤ c ≤ Z.of_nat n ∧ (∀ i, 0 ≤ i < c → f i ≤ x) ∧ (∀ i, c ≤ i < Z.of_nat n → x < f i).
Proof.
  induction n as [|n IH]; intros Hmono.
  { exists 0. split_and!; intros; lia. }
  destruct IH as (c & Hc & Hlo & Hhi). { intros. apply Hmono; lia. }
  destruct (decide (f (Z.of_nat n) ≤ x)) as [Hf|Hf].
  - exists (Z.of_nat (S n)). split_and!; [lia|lia| |lia]. intros i Hi.
    pose proof (Hmono i (Z.of_nat n) ltac:(lia) ltac:(lia)). lia.
  - exists c. split_and!; [lia|lia|done|]. intros i Hi.
    destruct (decide (i = Z.of_nat n)) as [->|]; [lia|]. apply Hhi. lia.
Qed.

(** ** Laws of the level tables

    A level can hold at most [K * (K + 1) ^ (l - 1)] keys.  The tables give
    exactly that number, except the last entry of the [u32] table. *)
Class BptLaws (cfg : BptConfig) : Prop := {
  bl_keys : 0 < KEYS_PER_NODE ≤ 32;
  bl_levels : zlen nodes_per_level = MAX_LEVEL;
  bl_start : ∀ l, 1 ≤ l ≤ MAX_LEVEL →
    level_start_id !! Z.to_nat (l - 1) = Some ((KEYS_PER_NODE + 1) ^ (l - 1) - 1);
  bl_nodes : ∀ l, 1 ≤ l ≤ MAX_LEVEL → ∃ cap,
    nodes_per_level !! Z.to_nat (l - 1) = Some cap
    ∧ 0 < cap ≤ KEYS_PER_NODE * (KEYS_PER_NODE + 1) ^ (l - 1)
}.

#[global] Instance bpt_u64_laws : BptLaws bpt_u64.
Proof.
  constructor; [simpl; lia|done| |]; simpl; intros l Hl;
    assert (l = 1 ∨ l = 2 ∨ l = 3 ∨ l = 4 ∨ l = 5 ∨ l = 6 ∨ l = 7 ∨ l = 8 ∨ l = 9 ∨ l = 10)
      by lia; destruct_or!; subst l; try eexists; (reflexivity || by split).
Qed.

#[global] Instance bpt_u32_laws : BptLaws bpt_u32.
Proof.
  constructor; [simpl; lia|done| |]; simpl; intros l Hl;
    assert (l = 1 ∨ l = 2 ∨ l = 3 ∨ l = 4 ∨ l = 5 ∨ l = 6 ∨ l = 7) by lia;
    destruct_or!; subst l; try eexists; (reflexivity || by split).
Qed.

Section BptProofs.
Context `{BptLaws}.
Abbreviation K := KEYS_PER_NODE.
Abbreviation B := (KEYS_PER_NODE + 1).

(** The key stored at leaf position [t]: padding positions hold the maximum. *)
Definition leaf_key (ms : list SegmentMapping) (t : Z) : Z :=
  match zget ms t with
  | Some m => from_offset (sm_offset m)
  | None => from_offset U64_MAX
  end.

(** First key of level [l], counted from the root. *)
Definition start_of (l : Z) : Z := B ^ (l - 1) - 1.

Lemma pow_split l : 1 ≤ l → B ^ l = B * B ^ (l - 1).
Proof.
  intros Hl. replace l with (Z.succ (l - 1)) at 1 by lia. apply Z.pow_succ_r. lia.
Qed.

Lemma pow_pos l : 0 ≤ l → 0 < B ^ l.
Proof. pose proof bl_keys. intros. apply Z.pow_pos_nonneg; lia. Qed.

Lemma start_of_succ l : 1 ≤ l → start_of (l + 1) = start_of l + K * B ^ (l - 1).
Proof.
  intros Hl. unfold start_of. replace (l + 1 - 1) with l by lia. rewrite pow_split by lia. lia.
Qed.

Lemma start_of_nonneg l : 1 ≤ l → 0 ≤ start_of l.
Proof. intros Hl. unfold start_of. pose proof (pow_pos (l - 1) ltac:(lia)). lia. Qed.

Lemma start_of_mono l l' : 1 ≤ l → l ≤ l' → start_of l ≤ start_of l'.
Proof.
  intros. unfold start_of. pose proof bl_keys.
  assert (B ^ (l - 1) ≤ B ^ (l' - 1)) by (apply Z.pow_le_mono_r; lia). lia.
Qed.

(** Level starts are aligned to whole nodes. *)
Lemma start_of_aligned l : 1 ≤ l → start_of l mod K = 0.
Proof.
  intros Hl. pose proof bl_keys. unfold start_of.
  replace l with (1 + Z.of_nat (Z.to_nat (l - 1))) by lia.
  generalize (Z.to_nat (l - 1)) as n. clear l Hl. intros n.
  induction n as [|n IH]; [done|]. apply Z.mod_divide in IH as [k Hk]; [|lia].
  apply Z.mod_divide; [lia|]. exists (k * B + 1).
  rewrite pow_split by lia.
  replace (1 + Z.of_nat (S n) - 1 - 1) with (1 + Z.of_nat n - 1) by lia. nia.
Qed.

(** ** Building the tree *)

Lemma find_level_spec caps : ∀ i size d, find_level caps i size = Some d →
  i < d ≤ i + zlen caps ∧ ∃ c, caps !! Z.to_nat (d - i - 1) = Some c ∧ size ≤ c.
Proof.
  induction caps as [|c caps IH]; intros i size d; simpl; [done|].
  unfold zlen in *. cbn [length]. destruct (Z.leb_spec size c).
  - intros [= <-]. split; [lia|]. exists c. by replace (i + 1 - i - 1) with 0 by lia.
  - intros E. destruct (IH _ _ _ E) as (? & c' & Hc & ?). split; [lia|]. exists c'.
    replace (Z.to_nat (d - i - 1)) with (S (Z.to_nat (d - (i + 1) - 1))) by lia. done.
Qed.

Lemma fill_leaves_spec ms : ∀ p v, 0 ≤ p → p + zlen ms ≤ zlen v →
  ∃ v', fill_leaves ms p v = Some v' ∧ zlen v' = zlen v
    ∧ ∀ q, zget v' q = if (p <=? q) && (q <? p + zlen ms)
                       then Some (leaf_key ms (q - p)) else zget v q.
Proof.
  induction ms as [|m ms IH]; intros p v Hp Hlen; simpl.
  { exists v. split_and!; [done..|]. intros q. unfold zlen. simpl. by zcases. }
  unfold zlen in Hlen. cbn [length] in Hlen.
  destruct (zset_spec v p (from_offset (sm_offset m))) as (v1 & -> & Hl1 & Hg1);
    [unfold zlen; lia|].
  destruct (IH (p + 1) v1) as (v2 & -> & Hl2 & Hg2); [lia|unfold zlen in *; lia|].
  exists v2. split_and!; [done|lia|]. intros q. rewrite Hg2, Hg1.
  unfold zlen, leaf_key in *. cbn [length].
  destruct (Z.eqb_spec q p) as [->|].
  - rewrite Z.sub_diag. zcases; done || lia.
  - zcases; try done; try lia. rewrite zget_cons by lia. by replace (q - p - 1) with (q - (p + 1)) by lia.
Qed.

Section Levels.
Context (ms : list SegmentMapping) (d n leaf_size : Z).
Context (Hd : 1 ≤ d ≤ MAX_LEVEL).
Context (Hcap : zlen ms ≤ leaf_size ≤ K * B ^ (d - 1)).
Context (Hpos : 0 < leaf_size).
Context (Hn : start_of d + zlen ms ≤ n).

(** The leaf region holds the leaf keys. *)
Definition leaves_ok (v : list Z) : Prop :=
  zlen v = n ∧ ∀ t, 0 ≤ t → start_of d + t < n → zget v (start_of d + t) = Some (leaf_key ms t).

(** Key [c] of inner level [l] starts the subtree to its right. *)
Definition inner_key (l c : Z) : Z :=
  leaf_key ms (c / K * (K * B ^ (d - l)) + K * B ^ (d - l - 1) * (c mod K + 1)).

Definition level_ok (v : list Z) (l : Z) : Prop :=
  ∀ c, 0 ≤ c < K * B ^ (l - 1) → zget v (start_of l + c) = Some (inner_key l c).

Lemma leaf_key_past t : zlen ms ≤ t → leaf_key ms t = from_offset U64_MAX.
Proof. intros Ht. unfold leaf_key. by rewrite zget_ge. Qed.

Lemma fill_key_spec g i j v pos : leaves_ok v → 0 ≤ i + g * j → 0 ≤ pos < start_of d →
  ∃ v', fill_key (start_of d) g n i (Some (v, pos)) j = Some (v', pos + 1) ∧ leaves_ok v'
    ∧ ∀ q, zget v' q = if q =? pos then Some (leaf_key ms (i + g * j)) else zget v q.
Proof.
  intros [Hl Hv] Hij Hp. unfold fill_key.
  assert ((if start_of d + i + g * j <? n then zget v (start_of d + i + g * j)
           else Some (from_offset U64_MAX)) = Some (leaf_key ms (i + g * j))) as ->.
  { destruct (Z.ltb_spec (start_of d + i + g * j) n).
    - rewrite <- Z.add_assoc in *. by apply Hv.
    - rewrite leaf_key_past by lia. done. }
  pose proof (zlen_nonneg ms).
  destruct (zset_spec v pos (leaf_key ms (i + g * j))) as (v' & -> & Hl' & Hg'); [lia|].
  exists v'. split_and!; [done| |done]. split; [lia|]. intros t Ht Htn.
  rewrite Hg'. destruct (Z.eqb_spec (start_of d + t) pos); [lia|]. by apply Hv.
Qed.

Lemma fill_keys_spec g i len : ∀ a v pos, leaves_ok v → 0 ≤ i → 0 ≤ g → 0 ≤ a →
  0 ≤ pos → pos + Z.of_nat len ≤ start_of d →
  ∃ v', fold_left (fill_key (start_of d) g n i) (seqZ a (Z.of_nat len)) (Some (v, pos))
        = Some (v', pos + Z.of_nat len) ∧ leaves_ok v'
    ∧ ∀ q, zget v' q = if (pos <=? q) && (q <? pos + Z.of_nat len)
                       then Some (leaf_key ms (i + g * (a + (q - pos)))) else zget v q.
Proof.
  induction len as [|len IH]; intros a v pos Hv Hi Hg Ha Hp Hlen.
  { exists v. simpl. rewrite Z.add_0_r. split_and!; [done..|]. intros q. by zcases. }
  rewrite seqZ_cons by lia. cbn [fold_left].
  destruct (fill_key_spec g i a v pos) as (v1 & -> & Hv1 & Hg1); [done|nia|lia|].
  replace (Z.pred (Z.of_nat (S len))) with (Z.of_nat len) by lia.
  destruct (IH (Z.succ a) v1 (pos + 1)) as (v2 & -> & Hv2 & Hg2); [done|lia..|].
  exists v2. split_and!; [f_equal; f_equal; lia|done|]. intros q. rewrite Hg2, Hg1.
  destruct (Z.eqb_spec q pos) as [->|].
  - rewrite Z.sub_diag, Z.add_0_r. zcases; done || lia.
  - zcases; try done. do 2 f_equal. lia.
Qed.

Lemma fill_nodes_spec g step len : ∀ a v pos, leaves_ok v → 0 ≤ g → 0 ≤ step → 0 ≤ a →
  0 ≤ pos → pos + K * Z.of_nat len ≤ start_of d →
  ∃ v', fold_left (fill_node (start_of d) g n) ((λ t, t * step) <$> seqZ a (Z.of_nat len))
          (Some (v, pos)) = Some (v', pos + K * Z.of_nat len) ∧ leaves_ok v'
    ∧ ∀ q, zget v' q = if (pos <=? q) && (q <? pos + K * Z.of_nat len)
        then Some (leaf_key ms ((a + (q - pos) / K) * step + g * ((q - pos) mod K + 1)))
        else zget v q.
Proof.
  pose proof bl_keys as HK.
  induction len as [|len IH]; intros a v pos Hv Hg Hs Ha Hp Hlen.
  { exists v. simpl. rewrite Z.mul_0_r, Z.add_0_r. split_and!; [done..|]. intros q. by zcases. }
  rewrite seqZ_cons by lia. rewrite fmap_cons. cbn [fold_left]. unfold fill_node at 2.
  destruct (fill_keys_spec g (a * step) (Z.to_nat K) 1 v pos) as (v1 & E1 & Hv1 & Hg1);
    [done|nia|lia..|]. rewrite Z2Nat.id in E1, Hg1 by lia. rewrite E1.
  replace (Z.pred (Z.of_nat (S len))) with (Z.of_nat len) by lia.
  destruct (IH (Z.succ a) v1 (pos + K)) as (v2 & -> & Hv2 & Hg2); [done|lia..|].
  exists v2. split_and!; [f_equal; f_equal; lia|done|]. intros q. rewrite Hg2, Hg1.
  destruct (decide (pos ≤ q < pos + K)).
  - rewrite (Z.div_small (q - pos) K), (Z.mod_small (q - pos) K) by lia. zcases; try lia. do 2 f_equal. lia.
  - zcases; try done. do 2 f_equal.
    replace (q - pos) with (q - (pos + K) + 1 * K) by lia.
    rewrite Z.div_add, Z.mod_add by lia. lia.
Qed.

(** Number of nodes the loop of level [l] visits, and what it leaves out. *)
Lemma node_count l : 1 ≤ l < d →
  0 ≤ div_ceil leaf_size (K * B ^ (d - l)) ≤ B ^ (l - 1)
  ∧ leaf_size ≤ div_ceil leaf_size (K * B ^ (d - l)) * (K * B ^ (d - l)).
Proof.
  intros Hl. pose proof bl_keys. pose proof (pow_pos (d - l) ltac:(lia)) as HB.
  set (w := K * B ^ (d - l)). assert (0 < w) by (unfold w; nia).
  assert (K * B ^ (d - 1) = w * B ^ (l - 1)) as E.
  { unfold w. rewrite <- Z.mul_assoc, <- Z.pow_add_r by lia. do 2 f_equal. lia. }
  pose proof (div_ceil_bounds leaf_size w ltac:(lia)). split; [split|lia]; nia.
Qed.

Lemma fill_level_spec l v : 1 ≤ l < d → leaves_ok v →
  (∀ q, 0 ≤ q < start_of (l + 1) → zget v q = Some (from_offset U64_MAX)) →
  ∃ v', fill_level (start_of d) leaf_size n (Some (v, K * B ^ (d - l - 1))) l
        = Some (v', K * B ^ (d - l))
    ∧ leaves_ok v' ∧ level_ok v' l
    ∧ ∀ q, q < start_of l ∨ start_of (l + 1) ≤ q → zget v' q = zget v q.
Proof.
  intros Hl Hv Hmax. pose proof bl_keys. unfold fill_level. rewrite bl_start by lia.
  fold (start_of l).
  assert (K * B ^ (d - l - 1) * B = K * B ^ (d - l)) as ->.
  { rewrite (pow_split (d - l)) by lia. lia. }
  destruct (node_count l Hl) as [Ht Hsz]. unfold node_starts.
  set (w := K * B ^ (d - l)) in *. set (cnt := div_ceil leaf_size w) in *.
  pose proof (start_of_succ l ltac:(lia)). pose proof (start_of_nonneg l ltac:(lia)).
  pose proof (start_of_mono (l + 1) d ltac:(lia) ltac:(lia)).
  pose proof (pow_pos (d - l - 1) ltac:(lia)). pose proof (pow_pos (d - l) ltac:(lia)).
  destruct (fill_nodes_spec (K * B ^ (d - l - 1)) w (Z.to_nat cnt) 0 v (start_of l))
    as (v' & E & Hv' & Hg); [done|nia|nia|lia|lia|nia|].
  rewrite Z2Nat.id in E, Hg by lia. rewrite E. exists v'. split_and!; [done..| |].
  - intros c Hc. rewrite Hg. unfold inner_key. fold w.
    replace (start_of l + c - start_of l) with c by lia. rewrite Z.add_0_l.
    zcases; [done|]. rewrite Hmax by lia. f_equal. symmetry. apply leaf_key_past.
    assert (cnt ≤ c / K) by (apply Z.div_le_lower_bound; lia).
    assert (0 ≤ c mod K < K) by (apply Z.mod_pos_bound; lia). nia.
  - intros q Hq. rewrite Hg. zcases; [nia|done..].
Qed.

Lemma fill_levels_spec (k : nat) : ∀ v, Z.of_nat k < d → leaves_ok v →
  (∀ q, 0 ≤ q < start_of (Z.of_nat k + 1) → zget v q = Some (from_offset U64_MAX)) →
  (∀ l, Z.of_nat k < l < d → level_ok v l) →
  ∃ v' g, fold_left (fill_level (start_of d) leaf_size n) (rev (seqZ 1 (Z.of_nat k)))
            (Some (v, K * B ^ (d - Z.of_nat k - 1))) = Some (v', g)
    ∧ leaves_ok v' ∧ ∀ l, 1 ≤ l < d → level_ok v' l.
Proof.
  induction k as [|k IH]; intros v Hk Hv Hmax Hlv.
  { exists v. eexists. split_and!; [done..|]. intros l Hl. apply Hlv. lia. }
  rewrite seqZ_S, rev_app_distr. cbn [rev app fold_left].
  destruct (fill_level_spec (1 + Z.of_nat k) v) as (v1 & E & Hv1 & Hl1 & Hsame); [lia|done| |].
  { intros q Hq. apply Hmax. by replace (Z.of_nat (S k) + 1) with (1 + Z.of_nat k + 1) by lia. }
  replace (d - Z.of_nat (S k) - 1) with (d - (1 + Z.of_nat k) - 1) by lia. rewrite E.
  replace (d - (1 + Z.of_nat k)) with (d - Z.of_nat k - 1) by lia.
  replace (1 + Z.of_nat k) with (Z.of_nat k + 1) in * by lia.
  pose proof (start_of_mono (Z.of_nat k + 1) (Z.of_nat k + 1 + 1) ltac:(lia) ltac:(lia)).
  apply IH; [lia|done| |].
  - intros q Hq. rewrite Hsame by lia. apply Hmax.
    replace (Z.of_nat (S k) + 1) with (Z.of_nat k + 1 + 1) by lia. lia.
  - intros l Hl. destruct (decide (l = Z.of_nat k + 1)) as [->|]; [done|].
    intros c Hc. pose proof (start_of_mono (Z.of_nat k + 1 + 1) l ltac:(lia) ltac:(lia)).
    rewrite Hsame by lia. apply Hlv; lia.
Qed.
End Levels.

(** What a built tree looks like. *)
Definition tree_ok (ms : list SegmentMapping) (t : LinearizedBptree) : Prop :=
  let d := depth t in
  1 ≤ d ≤ MAX_LEVEL
  ∧ 0 < zlen ms ≤ K * B ^ (d - 1)
  ∧ (∃ n, start_of d + zlen ms ≤ n ∧ n mod K = 0 ∧ leaves_ok ms d n (node t))
  ∧ ∀ l, 1 ≤ l < d → level_ok ms d (node t) l.

Lemma zget_replicate {A} (x : A) n q : 0 ≤ q < n → zget (replicate (Z.to_nat n) x) q = Some x.
Proof.
  intros Hq. unfold zget. destruct (Z.leb_spec 0 q); [|lia]. apply lookup_replicate_2. lia.
Qed.

Lemma bpt_build_ok ms d : ms ≠ [] →
  find_level (ztake MAX_LEVEL nodes_per_level) 0 (zlen ms) = Some d →
  ∃ t, bpt_build ms = Ok t ∧ tree_ok ms t.
Proof.
  pose proof bl_keys as HK. intros Hne Ed. unfold bpt_build. rewrite Ed.
  destruct ms as [|m0 ms']; [done|]. clear Hne.
  set (ms := m0 :: ms') in *. assert (0 < zlen ms) by (unfold zlen, ms; simpl; lia).
  apply find_level_spec in Ed as (Hd & c & Hc & Hsz).
  unfold ztake in Hc, Hd. pose proof bl_levels as Hlev.
  rewrite take_ge in Hc, Hd by (unfold zlen in Hlev; lia). rewrite Hlev in Hd. replace (d - 0 - 1) with (d - 1) in Hc by lia.
  rewrite bl_start, Hc by lia. assert (1 ≤ d ≤ MAX_LEVEL) as Hd' by lia.
  destruct (bl_nodes d Hd') as (cap & Ec & Hcap).
  rewrite Hc in Ec. injection Ec as <-. fold (start_of d).
  pose proof (start_of_nonneg d ltac:(lia)).
  set (n := (start_of d + zlen ms + K - 1) / K * K).
  assert (start_of d + zlen ms ≤ n) as Hn.
  { unfold n. set (a := start_of d + zlen ms + K - 1).
    assert (a = K * (a / K) + a mod K) by (apply Z.div_mod; lia).
    assert (0 ≤ a mod K < K) by (apply Z.mod_pos_bound; lia). lia. }
  set (v0 := replicate _ _). assert (zlen v0 = n) as Hv0.
  { unfold v0, zlen. rewrite length_replicate. lia. }
  destruct (fill_leaves_spec ms (start_of d) v0) as (v1 & -> & Hl1 & Hg1); [lia..|].
  destruct (fill_levels_spec ms d n c Hd' (conj Hsz (proj2 Hcap)) (proj1 Hcap) Hn (Z.to_nat (d - 1)) v1)
    as (v2 & g & E & Hv2 & Hlv); [lia| | |lia|].
  - split; [lia|]. intros t' Ht Htn. rewrite Hg1.
    replace (start_of d + t' - start_of d) with t' by lia. zcases; [done|].
    unfold v0. rewrite zget_replicate by lia. f_equal. symmetry. apply leaf_key_past. lia.
  - intros q Hq. replace (Z.of_nat (Z.to_nat (d - 1)) + 1) with d in Hq by lia.
    rewrite Hg1. zcases. unfold v0. by rewrite zget_replicate by lia.
  - rewrite Z2Nat.id in E by lia. replace (d - (d - 1) - 1) with 0 in E by lia.
    rewrite Z.pow_0_r, Z.mul_1_r in E. rewrite E. eexists. split; [done|].
    split_and!; simpl; [lia|lia|lia|lia| |done]. exists n. split_and!; [done| |done].
    unfold n. by rewrite Z.mod_mul by lia.
Qed.

Lemma find_level_complete caps : ∀ i size c, c ∈ caps → size ≤ c →
  is_Some (find_level caps i size).
Proof.
  induction caps as [|c0 caps IH]; intros i size c Hc Hs; simpl; [set_solver|].
  destruct (Z.leb_spec size c0); [by eexists|].
  apply elem_of_cons in Hc as [->|Hc]; [lia|]. eauto.
Qed.

(** Building fails only on an empty index or one above the last capacity. *)
Lemma bpt_build_total ms : ms ≠ [] → (∃ c, c ∈ ztake MAX_LEVEL nodes_per_level ∧ zlen ms ≤ c) →
  ∃ t, bpt_build ms = Ok t ∧ tree_ok ms t.
Proof.
  intros Hne (c & Hc & Hs). destruct (find_level_complete _ 0 _ _ Hc Hs) as [d Hd].
  by eapply bpt_build_ok.
Qed.

Lemma bpt_build_spec ms t : bpt_build ms = Ok t → tree_ok ms t.
Proof.
  intros E. assert (ms ≠ []) as Hne by by intros ->.
  destruct (find_level (ztake MAX_LEVEL nodes_per_level) 0 (zlen ms)) as [d|] eqn:Ed.
  - destruct (bpt_build_ok ms d Hne Ed) as (t' & E' & Ht). congruence.
  - unfold bpt_build in E. rewrite Ed in E. by destruct ms.
Qed.

(** ** Searching a node *)

Lemma mask_bits x l : ∀ mask i b, 0 ≤ i → 0 ≤ b →
  Z.testbit (fold_left (mask_step x) l (mask, i)).1 b
  = Z.testbit mask b || match zget l (b - i) with Some y => y <=? x | None => false end.
Proof.
  induction l as [|y l IH]; intros mask i b Hi Hb; cbn [fold_left].
  { unfold zget. destruct (Z.leb_spec 0 (b - i)); simpl; by rewrite orb_false_r. }
  unfold mask_step at 2. rewrite IH by lia.
  destruct (decide (b = i)) as [->|Hne].
  - rewrite Z.sub_diag. unfold zget at 1. destruct (Z.leb_spec 0 (i - (i + 1))); [lia|].
    change (zget (y :: l) 0) with (Some y). rewrite orb_false_r. destruct (y <=? x).
    + rewrite Z.lor_spec, Z.shiftl_spec, Z.sub_diag by lia. done.
    + by rewrite orb_false_r.
  - assert (zget (y :: l) (b - i) = zget l (b - (i + 1))) as ->.
    { destruct (decide (b < i)).
      - unfold zget. destruct (Z.leb_spec 0 (b - i)), (Z.leb_spec 0 (b - (i + 1))); lia || done.
      - rewrite zget_cons by lia. f_equal. lia. }
    f_equal. destruct (y <=? x); [|done].
    rewrite Z.lor_spec, Z.shiftl_spec by lia.
    assert (Z.testbit 1 (b - i) = false) as ->; [|apply orb_false_r].
    destruct (decide (b < i)); [apply Z.testbit_neg_r; lia|].
    apply Z.bits_above_log2; simpl; lia.
Qed.

Lemma count_ones_threshold z c : 0 ≤ c ≤ 32 →
  (∀ b, 0 ≤ b < 32 → Z.testbit z b = (b <? c)) → count_ones z = c.
Proof.
  intros Hc Hb. unfold count_ones.
  replace 32 with (c + (32 - c)) by lia. rewrite seqZ_app by lia.
  rewrite List.filter_app, (lfilter_all _ (seqZ 0 c)), (lfilter_none _ (seqZ (0 + c) _)).
  - rewrite app_nil_r. unfold zlen. rewrite length_seqZ. lia.
  - intros a Ha%elem_of_seqZ. rewrite Hb by lia. lia.
  - intros a Ha%elem_of_seqZ. rewrite Hb by lia. lia.
Qed.

Lemma zget_ztake {A} (l : list A) k i : i < k → zget (ztake k l) i = zget l i.
Proof.
  intros Hi. unfold zget, ztake. destruct (Z.leb_spec 0 i); [|done].
  apply lookup_take_lt. lia.
Qed.

Lemma zget_zdrop {A} (l : list A) k i : 0 ≤ k → 0 ≤ i → zget (zdrop k l) i = zget l (k + i).
Proof.
  intros Hk Hi. unfold zget, zdrop. destruct (Z.leb_spec 0 i), (Z.leb_spec 0 (k + i)); [|lia..].
  rewrite lookup_drop. f_equal. lia.
Qed.

(** On a sorted node, [inner_search] counts the keys not above [x]. *)
Lemma inner_search_spec base f x :
  (∀ i, 0 ≤ i < K → zget base i = Some (f i)) →
  (∀ i j, 0 ≤ i ≤ j → j < K → f i ≤ f j) →
  let c := inner_search base x in
  0 ≤ c ≤ K ∧ (∀ i, 0 ≤ i < c → f i ≤ x) ∧ (∀ i, c ≤ i < K → x < f i).
Proof.
  intros Hb Hm. pose proof bl_keys as HK.
  destruct (threshold f x (Z.to_nat K)) as (c & Hc & Hlo & Hhi).
  { intros i j ? ?. apply Hm; lia. }
  rewrite Z2Nat.id in Hc, Hhi by lia.
  assert (inner_search base x = c) as ->; [|done].
  apply count_ones_threshold; [lia|]. intros b Hbb.
  rewrite mask_bits, Z.bits_0, Z.sub_0_r by lia. simpl.
  destruct (decide (b < K)).
  - rewrite zget_ztake, Hb by lia. destruct (Z.ltb_spec b c) as [Hlt|Hge].
    + specialize (Hlo b ltac:(lia)). lia.
    + specialize (Hhi b ltac:(lia)). lia.
  - rewrite zget_ge; [symmetry; apply Z.ltb_ge; lia|].
    unfold zlen, ztake. rewrite length_take. lia.
Qed.

Lemma node_coords j i : 0 ≤ i < K → (j * K + i) / K = j ∧ (j * K + i) mod K = i.
Proof.
  intros Hi. rewrite Z.add_comm, Z.div_add, Z.mod_add by lia.
  rewrite Z.div_small, Z.mod_small by lia. lia.
Qed.

Lemma whole_nodes k u v : 0 < k → u * k < v * k → u * k + k ≤ v * k.
Proof.
  intros Hk Hlt. apply Z.mul_lt_mono_pos_r in Hlt; [|done].
  assert ((u + 1) * k ≤ v * k) by (apply Z.mul_le_mono_nonneg_r; lia). lia.
Qed.

(** ** Descending the tree *)
Section Search.
Context (ms : list SegmentMapping) (t : LinearizedBptree) (x : Z).
Context (Ht : tree_ok ms t).
Context (Hsorted : ∀ i j, 0 ≤ i ≤ j → leaf_key ms i ≤ leaf_key ms j).
Context (Hx : x < from_offset U64_MAX).

(** The answer lies below node [j] of level [l]. *)
Definition at_node (l j : Z) : Prop :=
  0 ≤ j < B ^ (l - 1)
  ∧ (j = 0 ∨ leaf_key ms (j * (K * B ^ (depth t - l))) ≤ x)
  ∧ ∀ i, (j + 1) * (K * B ^ (depth t - l)) ≤ i → x < leaf_key ms i.

Lemma tree_len : start_of (depth t) + zlen ms ≤ zlen (node t) ∧ zlen (node t) mod K = 0.
Proof. destruct Ht as (_ & _ & (n & Hn & Hm & Hl & _) & _). by rewrite Hl. Qed.

Lemma node_from_ok res : 0 ≤ res ≤ zlen (node t) → node_from t res = Some (zdrop res (node t)).
Proof. intros Hr. unfold node_from. zcases. done. Qed.

(** Width of the subtrees of level [l]. *)
Definition width (l : Z) : Z := K * B ^ (depth t - l).

Lemma width_succ l : l < depth t → width l = B * width (l + 1).
Proof.
  intros Hl. unfold width. rewrite (pow_split (depth t - l)) by lia.
  replace (depth t - (l + 1)) with (depth t - l - 1) by lia.
  generalize (B ^ (depth t - l - 1)). intros P. clear. lia.
Qed.

Lemma width_pos l : l ≤ depth t → 0 < width l.
Proof.
  intros Hl. pose proof bl_keys. pose proof (pow_pos (depth t - l) ltac:(lia)).
  unfold width. apply Z.mul_pos_pos; lia.
Qed.

Lemma at_node_child l j c : 1 ≤ l < depth t → at_node l j → 0 ≤ c ≤ K →
  (∀ i, 0 ≤ i < c → leaf_key ms (j * width l + width (l + 1) * (i + 1)) ≤ x) →
  (∀ i, c ≤ i < K → x < leaf_key ms (j * width l + width (l + 1) * (i + 1))) →
  at_node (l + 1) (j * B + c).
Proof.
  intros Hl (Hj & Hlo & Hhi) Hc Hclo Hchi. unfold at_node.
  fold (width l) in Hlo, Hhi. fold (width (l + 1)). rewrite width_succ in * by lia.
  pose proof bl_keys as HK. pose proof (width_pos (l + 1) ltac:(lia)) as Hw.
  replace (l + 1 - 1) with l by lia. rewrite (pow_split l) by lia.
  revert Hj Hlo Hhi Hclo Hchi Hw. generalize (width (l + 1)) as w, (B ^ (l - 1)) as P.
  intros w P Hj Hlo Hhi Hclo Hchi Hw.
  assert (j * B ≤ (P - 1) * B) by (apply Z.mul_le_mono_nonneg_r; lia).
  assert (0 ≤ j * B) by (apply Z.mul_nonneg_nonneg; lia).
  split_and!; [lia|lia| |].
  - destruct (decide (c = 0)) as [->|].
    + destruct Hlo as [->|Hlo]; [left; lia|right]. by rewrite Z.add_0_r, <- Z.mul_assoc.
    + right. specialize (Hclo (c - 1) ltac:(lia)).
      by replace ((j * B + c) * w) with (j * (B * w) + w * (c - 1 + 1)) by lia.
  - intros i Hi. destruct (decide (c = K)) as [Ec|].
    + apply Hhi. etrans; [|exact Hi]. rewrite Ec. lia.
    + specialize (Hchi c ltac:(lia)).
      replace (j * (B * w) + w * (c + 1)) with ((j * B + c + 1) * w) in Hchi by lia.
      assert (0 ≤ (j * B + c + 1) * w) by (apply Z.mul_nonneg_nonneg; lia).
      pose proof (Hsorted _ i (conj ltac:(eassumption) Hi)). lia.
Qed.

Lemma search_step_spec l j y : 1 ≤ l < depth t → at_node l j →
  ∃ j', search_step t x (Some (start_of l + j * K)) y = Some (start_of (l + 1) + j' * K)
    ∧ at_node (l + 1) j'.
Proof.
  intros Hl Hat. pose proof Hat as (Hj & _). pose proof bl_keys as HK.
  destruct Ht as (Hd & _ & _ & Hlv). destruct tree_len as [Hlen _].
  pose proof (start_of_nonneg l ltac:(lia)). pose proof (start_of_succ l ltac:(lia)).
  pose proof (start_of_mono (l + 1) (depth t) ltac:(lia) ltac:(lia)). pose proof (zlen_nonneg ms).
  assert (0 ≤ j * K) by (apply Z.mul_nonneg_nonneg; lia).
  assert (j * K + K ≤ K * B ^ (l - 1)) by
    (assert (K * (j + 1) ≤ K * B ^ (l - 1)) by (apply Z.mul_le_mono_nonneg_l; lia); lia).
  unfold search_step. rewrite node_from_ok by lia. pose proof (width_pos (l + 1) ltac:(lia)).
  destruct (inner_search_spec (zdrop (start_of l + j * K) (node t))
    (λ i, leaf_key ms (j * width l + width (l + 1) * (i + 1))) x) as (Hc & Hclo & Hchi).
  { intros i Hi. rewrite zget_zdrop, <- Z.add_assoc, (Hlv l Hl) by lia. unfold inner_key, width.
    destruct (node_coords j i Hi) as [-> ->].
    by replace (depth t - (l + 1)) with (depth t - l - 1) by lia. }
  { intros i i' ? ?. apply Hsorted. pose proof (width_pos l ltac:(lia)). nia. }
  exists (j * B + inner_search (zdrop (start_of l + j * K) (node t)) x).
  split; [|by apply at_node_child]. f_equal. unfold start_of at 1 3.
  replace (l + 1 - 1) with l by lia. rewrite (pow_split l) by lia.
  generalize (B ^ (l - 1)), (inner_search (zdrop (start_of l + j * K) (node t)) x).
  intros P c. clear. lia.
Qed.

Lemma search_descent ys : ∀ l j, 1 ≤ l → l + zlen ys = depth t → at_node l j →
  ∃ j', fold_left (search_step t x) ys (Some (start_of l + j * K))
        = Some (start_of (depth t) + j' * K) ∧ at_node (depth t) j'.
Proof.
  induction ys as [|y ys IH]; intros l j Hl E Hj; cbn [fold_left].
  { unfold zlen in E. simpl in E. replace (depth t) with l in * by lia. eauto. }
  unfold zlen in E. cbn [length] in E.
  destruct (search_step_spec l j y) as (j' & -> & Hj'); [lia|done|].
  apply IH; [lia|unfold zlen; lia|done].
Qed.

(** The leaf node reached by the descent holds the boundary. *)
Lemma search_leaf j : at_node (depth t) j →
  let res := start_of (depth t) + j * K in
  0 ≤ res ≤ zlen (node t)
  ∧ let r := j * K + inner_search (zdrop res (node t)) x in
    0 ≤ r ∧ (∀ i, 0 ≤ i < r → leaf_key ms i ≤ x) ∧ (∀ i, r ≤ i → x < leaf_key ms i).
Proof.
  intros (Hj & Hlo & Hhi). rewrite Z.sub_diag, Z.pow_0_r, Z.mul_1_r in Hlo, Hhi.
  pose proof bl_keys as HK. destruct tree_len as [Hlen Hmod]. pose proof (zlen_nonneg ms).
  destruct Ht as (Hd & Hsz & (n & Hn & _ & Hl & Hleaf) & _).
  pose proof (start_of_nonneg (depth t) ltac:(lia)) as Hs0.
  pose proof (start_of_aligned (depth t) ltac:(lia)) as Hal.
  cbv zeta. set (res := start_of (depth t) + j * K).
  assert (res + K ≤ zlen (node t)) as Hin.
  { assert (j * K < zlen ms).
    { destruct Hlo as [->|Hlo]; [lia|]. destruct (decide (zlen ms ≤ j * K)); [|lia].
      rewrite leaf_key_past in Hlo by lia. lia. }
    apply Z.mod_divide in Hmod as [a Ha]; [|lia]. apply Z.mod_divide in Hal as [b Hb]; [|lia].
    unfold res. rewrite Ha, Hb in *.
    assert ((b + j) * K + K ≤ a * K) by (apply whole_nodes; lia). lia. }
  split; [unfold res; nia|].
  destruct (inner_search_spec (zdrop res (node t)) (λ i, leaf_key ms (j * K + i)) x)
    as (Hc & Hclo & Hchi).
  { intros i Hi. unfold res. rewrite zget_zdrop, <- Z.add_assoc by nia. apply Hleaf; [nia|].
    unfold res in Hin. lia. }
  { intros i i' ? ?. apply Hsorted. nia. }
  set (c := inner_search _ _) in *. split_and!; [nia| |].
  - intros i Hi. destruct (decide (i < j * K)).
    + destruct Hlo as [->|Hlo]; [lia|]. assert (0 ≤ i ≤ j * K) as Hij by lia.
      specialize (Hsorted _ _ Hij). lia.
    + replace i with (j * K + (i - j * K)) by lia. apply Hclo. lia.
  - intros i Hi. destruct (decide (i < (j + 1) * K)).
    + replace i with (j * K + (i - j * K)) by lia. apply Hchi. lia.
    + apply Hhi. lia.
Qed.

Lemma at_root : at_node 1 0.
Proof.
  destruct Ht as (Hd & Hsz & _). split_and!; [done|done|by left|]. intros i Hi.
  rewrite leaf_key_past by (rewrite Z.mul_1_l in Hi; lia). done.
Qed.
End Search.

(** The search returns the last key not above the wanted one, or [0]. *)
Lemma bpt_search_spec ms t x : tree_ok ms t →
  (∀ i j, 0 ≤ i ≤ j → leaf_key ms i ≤ leaf_key ms j) →
  from_offset x < from_offset U64_MAX →
  ∃ r, bpt_search t x = Some (Z.max 0 (r - 1)) ∧ 0 ≤ r
    ∧ (∀ i, 0 ≤ i < r → leaf_key ms i ≤ from_offset x)
    ∧ (∀ i, r ≤ i → from_offset x < leaf_key ms i).
Proof.
  intros Ht Hs Hx. pose proof Ht as (Hd & _). unfold bpt_search.
  destruct (Z.leb_spec (depth t) 0); [lia|].
  destruct (search_descent ms t (from_offset x) Ht Hs (rev (seqZ 2 (depth t - 1))) 1 0)
    as (j & E & Hj); [lia| |by apply at_root|].
  { unfold zlen. rewrite length_rev, length_seqZ. lia. }
  change (start_of 1 + 0 * K) with 0 in E. rewrite E.
  destruct (search_leaf ms t (from_offset x) Ht Hs Hx j Hj) as (Hres & Hr & Hlo & Hhi).
  rewrite node_from_ok, bl_start by lia. fold (start_of (depth t)).
  pose proof (start_of_nonneg (depth t) ltac:(lia)).
  eexists. split; [|split_and!; [exact Hr|exact Hlo|exact Hhi]].
  zcases; f_equal; lia.
Qed.

(** ** The tree finds the start position of the binary search *)

(** The keys of the index and of the query survive [from_offset] and stay
    below the padding key. *)
Definition key_fits (o : Z) : Prop := from_offset o = o ∧ o < from_offset U64_MAX.

Lemma zget_before ms i j a b : wf_index ms → i < j →
  zget ms i = Some a → zget ms j = Some b → before a b.
Proof.
  intros Hms Hij Ha Hb. pose proof (zget_inv _ _ _ Ha). pose proof (zget_inv _ _ _ Hb).
  unfold zget in Ha, Hb. zcases. destruct (Z.leb_spec 0 i), (Z.leb_spec 0 j); [|lia..].
  rewrite <- (take_drop (Z.to_nat j) ms) in Hms. apply wf_index_app in Hms as (_ & _ & Hsep).
  apply Hsep.
  - apply list_elem_of_lookup. exists (Z.to_nat i). rewrite lookup_take_lt by lia. done.
  - apply list_elem_of_lookup. exists 0%nat. by rewrite lookup_drop, Nat.add_0_r.
Qed.

Lemma leaf_key_get ms i m : (∀ m, m ∈ ms → key_fits (sm_offset m)) → zget ms i = Some m →
  leaf_key ms i = sm_offset m ∧ sm_offset m < from_offset U64_MAX.
Proof.
  intros Hk E. unfold leaf_key. rewrite E. unfold zget in E. destruct (0 <=? i); [|done].
  apply list_elem_of_lookup_2 in E. by destruct (Hk m E).
Qed.

Lemma leaf_key_mono ms : wf_index ms → (∀ m, m ∈ ms → key_fits (sm_offset m)) →
  ∀ i j, 0 ≤ i ≤ j → leaf_key ms i ≤ leaf_key ms j.
Proof.
  intros Hms Hk i j Hij. destruct (decide (i = j)) as [->|]; [lia|].
  destruct (zget ms j) as [b|] eqn:Eb.
  - pose proof (zget_inv _ _ _ Eb). destruct (zget_lt ms i ltac:(lia)) as [a Ea].
    destruct (leaf_key_get _ _ _ Hk Ea) as [-> _], (leaf_key_get _ _ _ Hk Eb) as [-> _].
    assert (i < j) as Hlt by lia. pose proof (zget_before _ _ _ _ _ Hms Hlt Ea Eb) as Hb.
    assert (wf_mapping a) as Hwa.
    { apply (elem_of_wf ms); [done|]. unfold zget in Ea. destruct (0 <=? i); [|done].
      by eapply list_elem_of_lookup_2. }
    unfold before in Hb. wf_facts. lia.
  - unfold leaf_key at 2. rewrite Eb. destruct (zget ms i) as [a|] eqn:Ea.
    + destruct (leaf_key_get _ _ _ Hk Ea). lia.
    + unfold leaf_key. rewrite Ea. lia.
Qed.

Lemma partition_point_eq {A} (p : A → bool) l : ∀ n, (n ≤ length l)%nat →
  (∀ i a, (i < n)%nat → l !! i = Some a → p a = true) →
  (∀ a, l !! n = Some a → p a = false) → partition_point p l = n.
Proof.
  induction l as [|a l IH]; intros n Hn Hlo Hhi; simpl in *; [lia|].
  destruct n as [|n]; [by rewrite (Hhi a)|].
  rewrite (Hlo 0%nat a) by (done || lia). f_equal. apply IH; [lia| |done].
  intros i b Hi. apply (Hlo (S i)). lia.
Qed.

Definition ends_before (q : Segment) (m : SegmentMapping) : bool := sm_end m <=? seg_offset q.

Lemma search_partition_point ms t q : wf_index ms → tree_ok ms t →
  (∀ m, m ∈ ms → key_fits (sm_offset m)) → key_fits (seg_offset q) →
  ∃ i, bpt_search t (seg_offset q) = Some i
    ∧ match zget ms i with
      | Some m => if ends_before q m then i + 1 else i
      | None => i
      end = Z.of_nat (partition_point (ends_before q) ms).
Proof.
  intros Hms Ht Hk [Hq1 Hq2]. pose proof Ht as (_ & Hlen & _).
  destruct (bpt_search_spec ms t (seg_offset q) Ht (leaf_key_mono ms Hms Hk)) as
    (r & -> & Hr & Hlo & Hhi); [by rewrite Hq1|]. rewrite Hq1 in Hlo, Hhi.
  eexists. split; [done|].
  assert (r ≤ zlen ms).
  { destruct (decide (r ≤ zlen ms)) as [|Hgt]; [done|]. specialize (Hlo (zlen ms)).
    rewrite leaf_key_past in Hlo by lia. lia. }
  destruct (zget_lt ms (Z.max 0 (r - 1)) ltac:(lia)) as [m Em]. rewrite Em.
  assert (∀ i a, zget ms i = Some a → wf_mapping a ∧ sm_end a = sm_offset a + sm_length a
    ∧ leaf_key ms i = sm_offset a) as Hget.
  { intros i a E. destruct (leaf_key_get _ _ _ Hk E) as [-> _].
    unfold zget in E. destruct (0 <=? i); [|done]. apply list_elem_of_lookup_2 in E.
    pose proof (elem_of_wf _ _ Hms E). by rewrite sm_end_wf. }
  assert (∀ n, (∀ a, zget ms n = Some a → ends_before q a = false) → 0 ≤ n ≤ zlen ms →
    (∀ i a, i < n → zget ms i = Some a → ends_before q a = true) →
    n = Z.of_nat (partition_point (ends_before q) ms)) as Hpp.
  { intros n H1 H2 H3. rewrite (partition_point_eq _ ms (Z.to_nat n)); unfold zlen in *; [lia..| |].
    - intros i a Hi E. apply (H3 (Z.of_nat i)); [lia|]. unfold zget. zcases. by rewrite Nat2Z.id.
    - intros a E. apply H1. unfold zget. by zcases. }
  destruct (Hget _ _ Em) as (Hwm & Hem & Hkm). wf_facts.
  assert (∀ i a, i < Z.max 0 (r - 1) → zget ms i = Some a → ends_before q a = true) as Hleft.
  { intros i a Hi E. destruct (Hget _ _ E) as (_ & Hea & _).
    pose proof (zget_before _ _ _ _ _ Hms Hi E Em) as Hb. pose proof (zget_inv _ _ _ E).
    specialize (Hlo (Z.max 0 (r - 1)) ltac:(lia)).
    unfold ends_before, before in *. lia. }
  assert (∀ i a, r ≤ i → zget ms i = Some a → ends_before q a = false) as Hright.
  { intros i a Hi E. destruct (Hget _ _ E) as (Hwa & Hea & Hka). specialize (Hhi i Hi).
    unfold ends_before. wf_facts. lia. }
  destruct (ends_before q m) eqn:Eq.
  - destruct (decide (r = 0)) as [->|]; [rewrite (Hright (Z.max 0 (0 - 1)) m) in Eq; done|].
    apply Hpp; [intros a; apply Hright; lia|lia|]. intros i a Hi E.
    destruct (decide (i = Z.max 0 (r - 1))) as [->|]; [congruence|]. apply (Hleft i); [lia|done].
  - apply Hpp; [congruence|lia|done].
Qed.

(** The tree index answers exactly like the sorted vector. *)
Lemma lbpt_lookup_ro ms t vsize q dst : wf_index ms → tree_ok ms t → vsize ≠ 0 →
  (∀ m, m ∈ ms → key_fits (sm_offset m)) → (seg_length q ≠ 0 → key_fits (seg_offset q)) →
  lbpt_lookup (mkLBPT ms t vsize) q dst = Some (ro_lookup ms q dst).
Proof.
  intros Hms Ht Hvs Hk Hq. pose proof Ht as (Hd & _). unfold lbpt_lookup, ro_lookup. simpl.
  destruct (Z.eqb_spec vsize 0); [done|]. rewrite orb_false_r.
  destruct (Z.eqb_spec (seg_length q) 0); [done|]. simpl.
  destruct (is_nil ms); [done|].
  destruct (Z.eqb_spec (depth t) (-1)); [lia|]. simpl.
  destruct (search_partition_point ms t q) as (i & -> & E); [auto..|].
  fold (ends_before q) in *. unfold ends_before at 1 in E.
  destruct (zget ms i); rewrite E; unfold zdrop; by rewrite Nat2Z.id.
Qed.
End BptProofs.

(** ** Properties *)

(** C35: with 64-bit keys, the tree index can be built for every non-empty
    well-formed index up to its capacity of 3099363912 mappings, and its lookup
    then returns exactly the pieces the binary search of the read-only index
    returns, for every query. *)
Theorem lbpt_lookup_eq_readonly_lookup ms vsize q dst :
  wf_index ms → ms ≠ [] → zlen ms ≤ 3099363912 → vsize ≠ 0 → wf_query q →
  ∃ idx, lbpt_new (cfg := bpt_u64) ms vsize = Some idx
    ∧ lbpt_lookup (cfg := bpt_u64) idx q dst = Some (ro_lookup ms q dst).
Proof.
  intros Hms Hne Hlen Hvs Hq.
  destruct (bpt_build_total (cfg := bpt_u64) ms Hne) as (t & E & Ht).
  { exists 3099363912. split; [vm_compute; set_solver|done]. }
  unfold lbpt_new. rewrite E. eexists. split; [done|].
  apply lbpt_lookup_ro; [done..| |]; unfold key_fits; simpl; unfold U64_MAX.
  - intros m Hm. pose proof (elem_of_wf _ _ Hms Hm). wf_facts. lia.
  - wf_facts. lia.
Qed.

Definition lbpt_example : list SegmentMapping :=
  (λ i, sm_new (i * 10) 6 (i * 10) false 0) <$> seqZ 0 100.

Lemma lbpt_lookup_eq_readonly_lookup_witness :
  ∃ idx, lbpt_new (cfg := bpt_u64) lbpt_example 1 = Some idx
    ∧ depth (lbpt idx) = 3
    ∧ lbpt_lookup (cfg := bpt_u64) idx (mkSeg 333 60) []
      = Some (ro_lookup lbpt_example (mkSeg 333 60) []).
Proof.
  destruct (lbpt_lookup_eq_readonly_lookup lbpt_example 1 (mkSeg 333 60) [])
    as (idx & E & Hl).
  - apply wf_index_b_true. vm_compute. reflexivity.
  - discriminate.
  - vm_compute. discriminate.
  - discriminate.
  - constructor; simpl; lia.
  - exists idx. split; [exact E|]. split; [|exact Hl].
    vm_compute in E. injection E as <-. reflexivity.
Defined.

(** The last capacity of the [u32] table is below the full level of
    [16 * 17 ^ 6] keys; the tree laws hold for it all the same. *)
Lemma u32_last_capacity :
  @nodes_per_level bpt_u32 !! 6%nat = Some 386200304 ∧ 16 * 17 ^ 6 = 386201104.
Proof. split; reflexivity. Qed.
