(* ===== verification/LsmtIo.v ===== *)
(** * Files as the LSMT layer uses them

    The [VirtualFile] trait of [storage/overlaybd/src/io/virtual_file.rs] as
    the local file of [backend/local.rs] implements it, and the helpers of
    [storage/overlaybd/src/io/vfile_io.rs].  A file is the list of its bytes.
    Writing past the end extends the file with zeros and a read stops at the
    end of the file.  The device itself does not fail.  Two behaviours stay
    open and are interfaces here: a reader may return fewer bytes than asked
    ([FileReader]), and discarding a range keeps the file size but promises
    nothing about the bytes of the range ([FileDiscard]). *)

From S2P Require Import Prelude.

(** ** Operations *)

(** [write_at]; an empty write does nothing. *)
Definition file_write (f : list Z) (off : Z) (data : list Z) : list Z :=
  if is_nil data then f
  else ztake off (f ++ zeros (off - zlen f)) ++ data ++ zdrop (off + zlen data) f.

(** [truncate] cuts the file or extends it with zeros. *)
Definition file_truncate (f : list Z) (size : Z) : list Z :=
  ztake size f ++ zeros (size - zlen f).

(** [read_at_into] of the local file: everything available, up to [len]. *)
Definition file_read (f : list Z) (off len : Z) : list Z := slice off len f.

(** The [FileReader] strategies: each read returns a prefix of what is
    available and makes progress when something is. *)
Class FileReader : Type := fr_read : list Z → Z → Z → list Z.

Class FileReaderSpec `{FileReader} : Prop :=
  fr_prefix : ∀ f off len, 0 ≤ off → 0 < len → ∃ k,
    fr_read f off len = slice off k f
    ∧ 0 ≤ k ≤ len ∧ (0 < k → off + k ≤ zlen f) ∧ (off < zlen f → 0 < k).

(** [DirectRead] *)
#[global] Instance DirectRead : FileReader := file_read.

(** [VirtualFile::discard] *)
Class FileDiscard : Type := fd_discard : list Z → Z → Z → list Z.

Class FileDiscardSpec `{FileDiscard} : Prop := {
  fd_size : ∀ f off len, 0 ≤ off → 0 ≤ len → zlen (fd_discard f off len) = zlen f;
  fd_outside : ∀ f off len p, 0 ≤ off → 0 ≤ len → 0 ≤ p → p < off ∨ off + len ≤ p →
    byte_at (fd_discard f off len) p = byte_at f p
}.

(** [fallocate(PUNCH_HOLE | KEEP_SIZE)] on Linux zeroes the range. *)
Definition punch_hole : FileDiscard := λ f off len,
  if zlen f <=? off then f
  else ztake off f ++ zeros (Z.min len (zlen f - off)) ++ zdrop (off + len) f.

(** [read_exact] loops over short reads; [None] is the premature end of file.
    Every read takes at least one byte, so [len] rounds are enough. *)
Fixpoint read_exact_loop `{FileReader} (fuel : nat) (f : list Z) (off len : Z) (acc : list Z)
  : option (list Z) :=
  if len <=? 0 then Some acc
  else match fuel with
       | O => None
       | S fuel' =>
           let got := fr_read f off len in
           let n := zlen got in
           if n =? 0 then None
           else read_exact_loop fuel' f (off + n) (len - n) (acc ++ got)
       end.

Definition read_exact `{FileReader} (f : list Z) (off len : Z) : option (list Z) :=
  read_exact_loop (Z.to_nat len) f off len [].

(** Copying bytes over a part of a buffer; a range outside the buffer panics. *)
Definition buf_write (buf : list Z) (pos : Z) (data : list Z) : option (list Z) :=
  if (0 <=? pos) && (pos + zlen data <=? zlen buf)
  then Some (ztake pos buf ++ data ++ zdrop (pos + zlen data) buf)
  else None.

(** ** Lemmas *)

Lemma zlen_file_write f off data : 0 ≤ off →
  zlen (file_write f off data) = if is_nil data then zlen f else Z.max (zlen f) (off + zlen data).
Proof.
  intros Ho. unfold file_write. destruct (is_nil data); [done|].
  pose proof (zlen_nonneg f). pose proof (zlen_nonneg data).
  rewrite !zlen_app, zlen_ztake, zlen_zdrop, zlen_app, zlen_zeros by lia. lia.
Qed.

Lemma byte_at_file_write f off data p : 0 ≤ off → 0 ≤ p →
  byte_at (file_write f off data) p
  = if (off <=? p) && (p <? off + zlen data) then byte_at data (p - off) else byte_at f p.
Proof.
  intros Ho Hp. unfold file_write. pose proof (zlen_nonneg f). pose proof (zlen_nonneg data).
  destruct (is_nil data) eqn:E.
  { destruct data; [|done]. rewrite zlen_nil. zcases; done. }
  assert (zlen (ztake off (f ++ zeros (off - zlen f))) = off) as Hl.
  { rewrite zlen_ztake, zlen_app, zlen_zeros. lia. }
  rewrite byte_at_app, Hl by lia. destruct (Z.ltb_spec p off).
  - rewrite byte_at_ztake, byte_at_app, byte_at_zeros by lia.
    destruct (decide (p < zlen f)); zcases; try done. by rewrite byte_at_past by lia.
  - rewrite byte_at_app by lia. zcases; try done.
    rewrite byte_at_zdrop by lia. f_equal. lia.
Qed.

(** Appending at the end of the file. *)
Lemma file_write_end f data : file_write f (zlen f) data = f ++ data.
Proof.
  unfold file_write. destruct data as [|b data]; [by rewrite app_nil_r|]. cbn [is_nil].
  rewrite Z.sub_diag. change (zeros 0) with (@nil Z). rewrite app_nil_r, ztake_all by lia.
  f_equal. assert (zdrop (zlen f + zlen (b :: data)) f = []) as ->; [|apply app_nil_r].
  apply zlen_0. pose proof (zlen_nonneg (b :: data)). pose proof (zlen_nonneg f).
  rewrite zlen_zdrop by lia. lia.
Qed.

(** Two consecutive writes are one. *)
Lemma file_write_app F off d1 d2 : 0 ≤ off →
  file_write (file_write F off d1) (off + zlen d1) d2 = file_write F off (d1 ++ d2).
Proof.
  intros Ho. pose proof (zlen_nonneg d1). pose proof (zlen_nonneg d2). apply bytes_ext.
  - rewrite !zlen_file_write, !zlen_app by lia. destruct d1 as [|b1 d1]; [by destruct d2; rewrite ?Z.add_0_r|].
    cbn [is_nil app]. destruct d2; cbn [is_nil]; rewrite ?zlen_nil; lia.
  - intros p Hp. rewrite !byte_at_file_write, zlen_app by lia.
    bcases; try done; rewrite byte_at_app by lia; bcases; f_equal; lia.
Qed.

Lemma zlen_file_truncate f n : 0 ≤ n → zlen (file_truncate f n) = n.
Proof.
  intros Hn. unfold file_truncate. rewrite zlen_app, zlen_ztake, zlen_zeros.
  pose proof (zlen_nonneg f). lia.
Qed.

Lemma byte_at_file_truncate f n p : 0 ≤ p → 0 ≤ n →
  byte_at (file_truncate f n) p = if p <? n then byte_at f p else 0.
Proof.
  intros Hp Hn. unfold file_truncate. rewrite byte_at_app, byte_at_zeros, byte_at_ztake, zlen_ztake by lia.
  pose proof (zlen_nonneg f). destruct (decide (p < zlen f)); zcases; try done.
  by rewrite byte_at_past by lia.
Qed.

#[global] Instance DirectRead_spec : @FileReaderSpec DirectRead.
Proof.
  intros f off len Ho Hl. unfold fr_read, DirectRead, file_read.
  pose proof (zlen_nonneg f). exists (Z.max 0 (Z.min len (zlen f - off))).
  split_and!; [|lia..]. apply bytes_ext.
  - unfold slice. rewrite !zlen_ztake, zlen_zdrop by lia. lia.
  - intros p Hp. unfold slice in *. rewrite zlen_ztake, zlen_zdrop in Hp by lia.
    rewrite !byte_at_ztake by lia. zcases; done.
Qed.

#[global] Instance punch_hole_spec : @FileDiscardSpec punch_hole.
Proof.
  constructor; unfold fd_discard, punch_hole; intros f off len.
  - intros Ho Hl. pose proof (zlen_nonneg f). destruct (Z.leb_spec (zlen f) off); [done|].
    rewrite !zlen_app, zlen_ztake, zlen_zdrop, zlen_zeros by lia. lia.
  - intros p Ho Hl Hp Hout. pose proof (zlen_nonneg f).
    destruct (Z.leb_spec (zlen f) off); [done|].
    rewrite byte_at_app, zlen_ztake, byte_at_ztake by lia.
    replace (Z.max 0 (Z.min off (zlen f))) with off by lia.
    destruct (Z.ltb_spec p off); [done|].
    rewrite byte_at_app, zlen_zeros, byte_at_zeros by lia.
    destruct (Z.ltb_spec (p - off) (Z.max 0 (Z.min len (zlen f - off)))); [lia|].
    destruct (decide (zlen f ≤ p)).
    + rewrite !byte_at_past; [done|lia|rewrite zlen_zdrop by lia; lia].
    + rewrite byte_at_zdrop by lia. f_equal. lia.
Qed.

(** [read_exact] returns the requested bytes, or nothing if the file ends. *)
Section Reader.
Context `{FileReaderSpec}.

Lemma read_exact_loop_ok fuel : ∀ f off len acc, 0 ≤ off → (Z.to_nat len ≤ fuel)%nat →
  off + len ≤ zlen f →
  read_exact_loop fuel f off len acc = Some (acc ++ slice off len f).
Proof.
  induction fuel as [|fuel IH]; intros f off len acc Ho Hf Hl; cbn [read_exact_loop].
  { destruct (Z.leb_spec len 0); [|lia]. replace (Z.to_nat len) with 0%nat by lia.
    unfold slice, ztake. replace (Z.to_nat len) with 0%nat by lia. by rewrite app_nil_r. }
  destruct (Z.leb_spec len 0).
  { unfold slice, ztake. replace (Z.to_nat len) with 0%nat by lia. by rewrite app_nil_r. }
  destruct (fr_prefix f off len) as (k & -> & Hk & Hk1 & Hk2); [lia..|].
  rewrite zlen_slice by lia. destruct (Z.eqb_spec k 0); [lia|].
  rewrite IH by lia. rewrite <- app_assoc, slice_slice_app by lia. do 3 f_equal. lia.
Qed.

Lemma read_exact_ok f off len : 0 ≤ off → off + len ≤ zlen f →
  read_exact f off len = Some (slice off len f).
Proof. intros. unfold read_exact. by rewrite read_exact_loop_ok. Qed.
End Reader.

Lemma buf_write_ok buf pos data : 0 ≤ pos → pos + zlen data ≤ zlen buf →
  ∃ buf', buf_write buf pos data = Some buf' ∧ zlen buf' = zlen buf
    ∧ ∀ p, 0 ≤ p → byte_at buf' p
        = if (pos <=? p) && (p <? pos + zlen data) then byte_at data (p - pos) else byte_at buf p.
Proof.
  intros Hp Hl. pose proof (zlen_nonneg data). unfold buf_write.
  destruct (Z.leb_spec 0 pos), (Z.leb_spec (pos + zlen data) (zlen buf)); [|lia..].
  eexists. split; [done|]. split.
  { rewrite !zlen_app, zlen_ztake, zlen_zdrop by lia. lia. }
  intros p Hp0. rewrite byte_at_app, zlen_ztake, byte_at_ztake by lia.
  replace (Z.max 0 (Z.min pos (zlen buf))) with pos by lia.
  destruct (Z.ltb_spec p pos); [zcases; done|]. rewrite byte_at_app by lia. destruct (Z.ltb_spec (p - pos) (zlen data)).
  - zcases; done.
  - rewrite byte_at_zdrop by lia. zcases. f_equal. lia.
Qed.
