(* ===== verification/LsmtHelper.v ===== *)
(** * Headers, trailers and index loading

    Models [storage/overlaybd/src/lsmt/file/types.rs] and the parts of
    [storage/overlaybd/src/lsmt/file/helper.rs] that read and write the fixed
    blocks of an LSMT file: the header and trailer blocks, the on-disk index,
    the identity fields and the recovery of mappings from a sparse file.  UUIDs
    come from the [uuid] crate and are the interface [UuidOps]. *)

From S2P Require Import Prelude LsmtSegment LsmtFormat LsmtIo.

Open Scope result_scope.

(** ** Constants and layouts *)

Definition ALIGNMENT : Z := 512.
Definition HEADER_SIZE : Z := 4096.
Definition MAX_IO_SIZE : Z := 4 * 1024 * 1024.
Definition ALIGNMENT_4K : Z := 4096.
Definition INVALID_SEGMENT_OFFSET : Z := 2 ^ 50 - 1.
Definition MAX_STACK_LAYERS : Z := 255.

Inductive LSMTFileType : Type := ReadOnly | ReadWrite | SparseReadWrite | HybridReadWrite.
Inductive RwLayout : Type := LogStructured | Sparse | HybridLogStructured.

#[global] Instance LSMTFileType_eq_dec : EqDecision LSMTFileType.
Proof. solve_decision. Defined.
#[global] Instance RwLayout_eq_dec : EqDecision RwLayout.
Proof. solve_decision. Defined.

Definition layout_file_type (l : RwLayout) : LSMTFileType :=
  match l with
  | LogStructured => ReadWrite
  | Sparse => SparseReadWrite
  | HybridLogStructured => HybridReadWrite
  end.

(** One constructor per failure the code reports. *)
Inductive lsmt_error : Type :=
| FileSealed | AlreadySealed | Unaligned | ShortRead | BadHeader | BadTrailer | TooSmall
| BothLayoutFlags | UnsupportedLayout | CannotOpenSealed | MissingIndexFile
| IndexMisaligned | IndexOverflow | IndexOutOfRange | IndexTooShort | BadMapping
| DataWithoutPhysical | DataFileMisaligned | IndexFileMisaligned | AppendOverflow | CursorRace
| BadIoSize | InvalidLayerTag | StackedCommit | PhysicalOverflow | BufferPanic
| WriterBufferMisaligned | EmptyFileList | TooManyLayers | LengthMismatch | ParentMismatch
| DigestOutOfOrder | LayerOutOfRange | UnalignedExtent | UnalignedStart | ReadOnlyFile
| HeaderMismatch | NotSealed | WriterError | OutOfFuel.

(** [ensure_supported]: a sparse upper needs reliable extents. *)
Definition ensure_supported (sparse_extents_are_reliable : bool) (l : RwLayout)
  : result lsmt_error RwLayout :=
  let? _ := ensure (negb (bool_decide (l = Sparse)) || sparse_extents_are_reliable)
              UnsupportedLayout in
  Ok l.

Definition check_alignment (offset len : Z) : result lsmt_error unit :=
  ensure (is_multiple_of offset ALIGNMENT && is_multiple_of len ALIGNMENT) Unaligned.

(** ** Identity fields *)

Class UuidOps : Type := {
  Uuid : Type;
  uuid_nil : Uuid;
  uuid_is_nil : Uuid → bool;
  uuid_eqb : Uuid → Uuid → bool;
  uuid_bytes : Uuid → list Z;
  uuid_hyphenated : Uuid → list Z;
  uuid_parse_str : list Z → option Uuid
}.

(** Documented behaviour of the [uuid] crate: the hyphenated form has 36 ASCII
    characters and parses back. *)
Class UuidSpec `{UuidOps} : Prop := {
  us_len : ∀ u, zlen (uuid_hyphenated u) = 36;
  us_ascii : ∀ u, Forall (λ b, 0 < b < 128) (uuid_hyphenated u);
  us_parse : ∀ u, uuid_parse_str (uuid_hyphenated u) = Some u
}.

(** Bytes before the first NUL. *)
Fixpoint until_nul (field : list Z) : list Z :=
  match field with
  | [] => []
  | b :: rest => if b =? 0 then [] else b :: until_nul rest
  end.

Section Uuids.
Context `{UuidOps}.

(** [parse_str] rejects every non-ASCII byte, which covers the UTF-8 check. *)
Definition parse_uuid_field (field : list Z) : option Uuid :=
  match until_nul field with
  | [] => None
  | s => uuid_parse_str s
  end.

(** [fill_uuid_field] on a field of [n] bytes keeps a final NUL. *)
Definition fill_uuid_field (n : Z) (u : option Uuid) : list Z :=
  match u with
  | None => zeros n
  | Some u =>
      let s := uuid_hyphenated u in
      let k := Z.min (zlen s) (saturating_sub n 1) in
      ztake k s ++ zeros (n - k)
  end.

Definition fill_user_tag (n : Z) (t : option (list Z)) : list Z :=
  match t with
  | None => zeros n
  | Some t => let k := Z.min (zlen t) n in ztake k t ++ zeros (n - k)
  end.

Definition parse_user_tag_field (field : list Z) : option (list Z) :=
  match until_nul field with
  | [] => None
  | s => Some s
  end.

Definition set_identity (h : HeaderTrailer) (u p t : list Z) : HeaderTrailer := {|
  magic0 := magic0 h; magic1 := magic1 h; ht_size := ht_size h; flags := flags h;
  index_offset := index_offset h; index_size := index_size h; virtual_size := virtual_size h;
  uuid := u; parent_uuid := p; reserved := reserved h;
  version := version h; sub_version := sub_version h; user_tag := t
|}.

(** [HeaderTrailer::set_uuid] *)
Definition set_uuid (h : HeaderTrailer) (u : Uuid) : HeaderTrailer :=
  set_identity h (uuid_hyphenated u ++ [0]) (parent_uuid h) (user_tag h).

(** [header.size = size_of::<HeaderTrailer>()] *)
Definition set_ht_size (h : HeaderTrailer) : HeaderTrailer := {|
  magic0 := magic0 h; magic1 := magic1 h; ht_size := HT_SIZE; flags := flags h;
  index_offset := index_offset h; index_size := index_size h; virtual_size := virtual_size h;
  uuid := uuid h; parent_uuid := parent_uuid h; reserved := reserved h;
  version := version h; sub_version := sub_version h; user_tag := user_tag h
|}.

Definition fill_identity (h : HeaderTrailer) (u : Uuid) (parent : option Uuid)
  (tag : option (list Z)) : HeaderTrailer :=
  let h := set_uuid h u in
  set_identity h (uuid h) (fill_uuid_field 37 parent) (fill_user_tag 256 tag).

Definition rw_header (vsize : Z) (l : RwLayout) (u : Uuid) (parent : option Uuid)
  (tag : option (list Z)) : HeaderTrailer :=
  let h := set_virtual_size (set_ht_size ht_new) vsize in
  let h := set_data_file (set_header h) in
  let h := match l with
           | LogStructured => h
           | Sparse => set_sparse_rw h
           | HybridLogStructured => set_hybrid_rw h
           end in
  fill_identity h u parent tag.
End Uuids.

(** [hex_lower] and the textual digest [sha256:<hex>] *)
Definition hex_digit (d : Z) : Z := if d <? 10 then 48 + d else 87 + d.
Definition hex_lower (bs : list Z) : list Z :=
  mjoin ((λ b, [hex_digit (Z.shiftr b 4); hex_digit (Z.land b 15)]) <$> bs).
Definition sha256_text (d : list Z) : list Z := [115; 104; 97; 50; 53; 54; 58] ++ hex_lower d.

(** ** Header blocks *)

(** [copy_header_block]: the header padded to a 4 KiB block. *)
Definition header_block (h : HeaderTrailer) : list Z := ht_bytes h ++ zeros (HEADER_SIZE - HT_SIZE).

Definition write_header_block (f : list Z) (h : HeaderTrailer) : list Z :=
  file_write f 0 (header_block h).

Definition verify_ht (f : list Z) (trailer : bool) (file_size : Z)
  : result lsmt_error HeaderTrailer :=
  if negb trailer then
    let bytes := file_read f 0 HEADER_SIZE in
    let? _ := ensure (HT_SIZE <=? zlen bytes) ShortRead in
    match ht_from_bytes (ztake HT_SIZE bytes) with
    | None => Err BadHeader
    | Some ht => let? _ := ensure (verify_magic ht && is_header ht) BadHeader in Ok ht
    end
  else
    let? _ := ensure (HEADER_SIZE <=? file_size) TooSmall in
    let bytes := file_read f (file_size - HEADER_SIZE) HEADER_SIZE in
    let? _ := ensure (HT_SIZE <=? zlen bytes) ShortRead in
    match ht_from_bytes (ztake HT_SIZE bytes) with
    | None => Err BadTrailer
    | Some ht =>
        let? _ := ensure (verify_magic ht && is_trailer ht && is_data_file ht && is_sealed ht)
                    BadTrailer in
        Ok ht
    end.

(** [update_header_vsize] rewrites the header block with a new virtual size. *)
Definition update_header_vsize (f : list Z) (vsize : Z) : result lsmt_error (list Z) :=
  let got := file_read f 0 HEADER_SIZE in
  let? _ := ensure (HT_SIZE <=? zlen got) ShortRead in
  let raw := got ++ zeros (HEADER_SIZE - zlen got) in
  match ht_from_bytes (ztake HT_SIZE raw) with
  | None => Err BadHeader
  | Some ht =>
      Ok (file_write f 0 (ht_bytes (set_virtual_size ht vsize) ++ zdrop HT_SIZE raw))
  end.

(** ** The on-disk index *)

Fixpoint load_mappings (count : nat) (raw : list Z) (reset_tag : bool)
  : result lsmt_error (list SegmentMapping) :=
  match count with
  | O => Ok []
  | S count' =>
      match disk_from_bytes (ztake MAPPING_SIZE raw) with
      | None => Err BadMapping
      | Some dm =>
          let m := to_memory dm in
          let rest := zdrop MAPPING_SIZE raw in
          if (sm_length m =? 0) || (sm_offset m =? U64_MAX) then load_mappings count' rest reset_tag
          else
            let? _ := ensure (zeroed m || has_physical_range m) DataWithoutPhysical in
            let m := if reset_tag then set_tag m 0 else m in
            let? ms := load_mappings count' rest reset_tag in
            Ok (m :: ms)
      end
  end.

Definition load_index (f : list Z) (offset count : Z) (reset_tag : bool)
  : result lsmt_error (list SegmentMapping) :=
  if count =? 0 then Ok []
  else
    let size_bytes := count * MAPPING_SIZE in
    let? _ := ensure (size_bytes <=? U64_MAX) IndexOverflow in
    let? _ := ensure (match checked_add64 offset size_bytes with
                      | Some e => e <=? zlen f
                      | None => false
                      end) IndexOutOfRange in
    let raw := file_read f offset size_bytes in
    let? _ := ensure (size_bytes <=? zlen raw) IndexTooShort in
    load_mappings (Z.to_nat count) raw reset_tag.

Definition load_index_and_reset_tags (f : list Z) (offset count : Z)
  : result lsmt_error (list SegmentMapping) :=
  load_index f offset count true.

(** The bytes of a run of mappings. *)
Definition index_bytes (ms : list SegmentMapping) : list Z :=
  mjoin ((λ m, disk_bytes (from_memory m)) <$> ms).

(** [append_invalid_index_padding] *)
Definition invalid_disk_mapping : DiskSegmentMapping :=
  from_memory (sm_new INVALID_SEGMENT_OFFSET 0 0 false 0).
Definition append_invalid_index_padding (bytes : list Z) (padding_count : Z) : list Z :=
  bytes ++ mjoin (replicate (Z.to_nat padding_count) (disk_bytes invalid_disk_mapping)).

(** ** Recovering mappings from the extents of a sparse file *)
Section SparseScan.
Context (seek_data seek_hole : Z → option Z).

(** One extent, cut into mappings of at most [MAX_LENGTH] sectors. *)
Fixpoint extent_mappings (fuel : nat) (logical physical blocks : Z) : list SegmentMapping :=
  match fuel with
  | O => []
  | S fuel' =>
      if blocks <=? 0 then []
      else
        let step := Z.min blocks MAX_LENGTH in
        sm_new logical (wrap32 step) physical false 0
          :: extent_mappings fuel' (logical + step) (physical + step) (blocks - step)
  end.

Fixpoint sparse_loop (fuel : nat) (file_size start_offset cursor : Z)
  : result lsmt_error (list SegmentMapping) :=
  match fuel with
  | O => Err OutOfFuel
  | S fuel' =>
      match seek_data cursor with
      | None => Ok []
      | Some begin =>
          if file_size <=? begin then Ok []
          else
            let e := match seek_hole begin with
                     | Some v => Z.min v file_size
                     | None => file_size
                     end in
            if e <=? begin then Ok []
            else if begin <? start_offset
            then sparse_loop fuel' file_size start_offset (Z.max e start_offset)
            else
              let? _ := ensure (is_multiple_of begin ALIGNMENT && is_multiple_of e ALIGNMENT)
                          UnalignedExtent in
              let blocks := (e - begin) / ALIGNMENT in
              let ms := extent_mappings (Z.to_nat blocks) ((begin - start_offset) / ALIGNMENT)
                          (begin / ALIGNMENT) blocks in
              let? rest := sparse_loop fuel' file_size start_offset e in
              Ok (ms ++ rest)
      end
  end.

(** Every round moves the cursor forward, so the file size bounds the rounds. *)
Definition create_mappings_from_sparse (file_size start_offset : Z)
  : result lsmt_error (list SegmentMapping) :=
  let? _ := ensure (is_multiple_of start_offset ALIGNMENT) UnalignedStart in
  if file_size <=? start_offset then Ok []
  else sparse_loop (S (Z.to_nat (file_size - start_offset))) file_size start_offset start_offset.
End SparseScan.

(** A single identifier satisfies the laws of [UuidSpec]. *)
Definition one_uuid : UuidOps := {|
  Uuid := unit;
  uuid_nil := tt;
  uuid_is_nil := λ _, false;
  uuid_eqb := λ _ _, true;
  uuid_bytes := λ _, zeros 16;
  uuid_hyphenated := λ _, replicate 36 49;
  uuid_parse_str := λ s, if bool_decide (s = replicate 36 49) then Some tt else None
|}.

Lemma one_uuid_spec : @UuidSpec one_uuid.
Proof.
  constructor; [done| |].
  - intros []. apply Forall_replicate. lia.
  - intros []. by vm_compute.
Qed.
