(* ===== verification/LsmtFile.v ===== *)
(** * The writable LSMT file

    Models [LSMTFile] of [storage/overlaybd/src/lsmt/file/readwrite.rs]: the
    state of an open file as a record, and each method as a computation that
    passes the state along and may fail.  What a failing method has already
    written stays written, as in the code.

    The data file of the writable layer is shared between [rw_data_file] and
    the last entry of [layers]; the model keeps it once and computes [layers].
    Index updates, data writes and cursor moves of one chunk happen under the
    index write lock, so a method body is one step of the state. *)

From S2P Require Import Prelude LsmtSegment LsmtFormat LsmtIndex LsmtLookup LsmtIo LsmtHelper.

(** ** State *)

(** [AppendDigestTracker]: the bytes hashed so far and the next offset. *)
Record AppendDigestTracker : Type := mkTracker { hasher : list Z; td_offset : Z }.

Record LayerDescriptor : Type := mkDescriptor { digest : list Z; desc_size : Z }.

Record DataStat : Type := mkDataStat { total_data_size : Z; valid_data_size : Z }.

Section State.
Context `{UuidOps}.

Record LSMTFile : Type := mkLSMT {
  index : ComboIndex;
  lower_layers : list (list Z);
  rw_data_file : list Z;
  rw_index_file : option (list Z);
  virtual_size_of : Z;
  rw_tag : Z;
  sealed : bool;
  max_io_size : Z;
  uuids : list Uuid;
  file_type : LSMTFileType;
  group_commit_size : Z;
  group_commit_buf : list DiskSegmentMapping;
  rw_data_append_offset : Z;
  rw_index_append_offset : Z;
  append_digest : option AppendDigestTracker
}.

(** [layers]: top to bottom, then the writable layer. *)
Definition layers (f : LSMTFile) : list (list Z) := lower_layers f ++ [rw_data_file f].

Definition upd_index (f : LSMTFile) (v : ComboIndex) : LSMTFile :=
  mkLSMT v (lower_layers f) (rw_data_file f) (rw_index_file f) (virtual_size_of f) (rw_tag f)
    (sealed f) (max_io_size f) (uuids f) (file_type f) (group_commit_size f) (group_commit_buf f)
    (rw_data_append_offset f) (rw_index_append_offset f) (append_digest f).
Definition upd_data (f : LSMTFile) (v : list Z) : LSMTFile :=
  mkLSMT (index f) (lower_layers f) v (rw_index_file f) (virtual_size_of f) (rw_tag f)
    (sealed f) (max_io_size f) (uuids f) (file_type f) (group_commit_size f) (group_commit_buf f)
    (rw_data_append_offset f) (rw_index_append_offset f) (append_digest f).
Definition upd_index_file (f : LSMTFile) (v : option (list Z)) : LSMTFile :=
  mkLSMT (index f) (lower_layers f) (rw_data_file f) v (virtual_size_of f) (rw_tag f)
    (sealed f) (max_io_size f) (uuids f) (file_type f) (group_commit_size f) (group_commit_buf f)
    (rw_data_append_offset f) (rw_index_append_offset f) (append_digest f).
Definition upd_vsize (f : LSMTFile) (v : Z) : LSMTFile :=
  mkLSMT (index f) (lower_layers f) (rw_data_file f) (rw_index_file f) v (rw_tag f)
    (sealed f) (max_io_size f) (uuids f) (file_type f) (group_commit_size f) (group_commit_buf f)
    (rw_data_append_offset f) (rw_index_append_offset f) (append_digest f).
Definition upd_sealed (f : LSMTFile) (v : bool) : LSMTFile :=
  mkLSMT (index f) (lower_layers f) (rw_data_file f) (rw_index_file f) (virtual_size_of f)
    (rw_tag f) v (max_io_size f) (uuids f) (file_type f) (group_commit_size f)
    (group_commit_buf f) (rw_data_append_offset f) (rw_index_append_offset f) (append_digest f).
Definition upd_max_io (f : LSMTFile) (v : Z) : LSMTFile :=
  mkLSMT (index f) (lower_layers f) (rw_data_file f) (rw_index_file f) (virtual_size_of f)
    (rw_tag f) (sealed f) v (uuids f) (file_type f) (group_commit_size f)
    (group_commit_buf f) (rw_data_append_offset f) (rw_index_append_offset f) (append_digest f).
Definition upd_uuids (f : LSMTFile) (v : list Uuid) : LSMTFile :=
  mkLSMT (index f) (lower_layers f) (rw_data_file f) (rw_index_file f) (virtual_size_of f)
    (rw_tag f) (sealed f) (max_io_size f) v (file_type f) (group_commit_size f)
    (group_commit_buf f) (rw_data_append_offset f) (rw_index_append_offset f) (append_digest f).
Definition upd_group (f : LSMTFile) (size : Z) (buf : list DiskSegmentMapping) : LSMTFile :=
  mkLSMT (index f) (lower_layers f) (rw_data_file f) (rw_index_file f) (virtual_size_of f)
    (rw_tag f) (sealed f) (max_io_size f) (uuids f) (file_type f) size buf
    (rw_data_append_offset f) (rw_index_append_offset f) (append_digest f).
Definition upd_cursors (f : LSMTFile) (data idx : Z) : LSMTFile :=
  mkLSMT (index f) (lower_layers f) (rw_data_file f) (rw_index_file f) (virtual_size_of f)
    (rw_tag f) (sealed f) (max_io_size f) (uuids f) (file_type f) (group_commit_size f)
    (group_commit_buf f) data idx (append_digest f).
Definition upd_digest (f : LSMTFile) (v : option AppendDigestTracker) : LSMTFile :=
  mkLSMT (index f) (lower_layers f) (rw_data_file f) (rw_index_file f) (virtual_size_of f)
    (rw_tag f) (sealed f) (max_io_size f) (uuids f) (file_type f) (group_commit_size f)
    (group_commit_buf f) (rw_data_append_offset f) (rw_index_append_offset f) v.

(** ** State and errors *)

Definition M (A : Type) : Type := LSMTFile → LSMTFile * result lsmt_error A.
Definition ret {A} (a : A) : M A := λ f, (f, Ok a).
Definition throw {A} (e : lsmt_error) : M A := λ f, (f, Err e).
Definition bind {A B} (m : M A) (k : A → M B) : M B := λ f,
  match m f with (f', Ok a) => k a f' | (f', Err e) => (f', Err e) end.
Definition get : M LSMTFile := λ f, (f, Ok f).
Definition modify (g : LSMTFile → LSMTFile) : M unit := λ f, (g f, Ok tt).
Definition lift {A} (r : result lsmt_error A) : M A := λ f, (f, r).
Definition ensure_m (b : bool) (e : lsmt_error) : M unit := lift (ensure b e).
End State.

Declare Scope lsmt_scope.
Delimit Scope lsmt_scope with lsmt.
Notation "'let!' x ':=' m 'in' k" := (bind m (λ x, k))
  (at level 10, x pattern, k at level 200) : lsmt_scope.
Notation "m ';;;' k" := (bind m (λ _, k)) (at level 100, right associativity) : lsmt_scope.
Open Scope lsmt_scope.

Section Ops.
Context `{UuidOps}.

(** ** Digest of an append-only data file *)

Definition tracker_from_header (data : list Z) : result lsmt_error AppendDigestTracker :=
  let raw := file_read data 0 HEADER_SIZE in
  rbind (ensure (zlen raw =? HEADER_SIZE) ShortRead) (λ _, Ok (mkTracker raw HEADER_SIZE)).

Definition absorb (t : AppendDigestTracker) (offset : Z) (data : list Z)
  : result lsmt_error AppendDigestTracker :=
  if is_nil data then Ok t
  else
    rbind (ensure (offset =? td_offset t) DigestOutOfOrder) (λ _,
      match checked_add64 (td_offset t) (zlen data) with
      | None => Err DigestOutOfOrder
      | Some next => Ok (mkTracker (hasher t ++ data) next)
      end).

Definition initial_append_digest (data : list Z) (t : LSMTFileType) (size : Z)
  : result lsmt_error (option AppendDigestTracker) :=
  if negb (bool_decide (t = ReadWrite)) then Ok None
  else if negb (size =? HEADER_SIZE) then Ok None
  else rbind (tracker_from_header data) (λ tr, Ok (Some tr)).

(** [rebuild_append_digest_from_file] reads the file in 128 KiB steps. *)
Fixpoint rebuild_loop (fuel : nat) (data : list Z) (size offset : Z) (t : AppendDigestTracker)
  : result lsmt_error AppendDigestTracker :=
  match fuel with
  | O => Err OutOfFuel
  | S fuel' =>
      if offset <? size then
        let want := Z.min (128 * 1024) (size - offset) in
        let got := file_read data offset want in
        rbind (ensure (zlen got =? want) ShortRead) (λ _,
        rbind (absorb t offset got) (λ t', rebuild_loop fuel' data size (offset + zlen got) t'))
      else Ok t
  end.

Definition rebuild_append_digest_from_file (data : list Z) (size : Z)
  : result lsmt_error AppendDigestTracker :=
  rbind (ensure (HEADER_SIZE <=? size) TooSmall) (λ _,
  rbind (tracker_from_header data) (λ t,
    rebuild_loop (S (Z.to_nat (size - HEADER_SIZE))) data size HEADER_SIZE t)).

(** ** Append cursors *)

Definition data_append_offset : M Z :=
  let! f := get in
  let! _ := ensure_m (is_multiple_of (rw_data_append_offset f) ALIGNMENT) DataFileMisaligned in
  ret (rw_data_append_offset f).

Definition advance_data_append_offset (start len : Z) : M unit :=
  match checked_add64 start len with
  | None => throw AppendOverflow
  | Some next =>
      let! f := get in
      let! _ := ensure_m (rw_data_append_offset f =? start) CursorRace in
      modify (λ f, upd_cursors f next (rw_index_append_offset f))
  end.

Definition index_append_offset : M Z :=
  let! f := get in
  let! _ := ensure_m (is_multiple_of (rw_index_append_offset f) MAPPING_SIZE) IndexFileMisaligned in
  ret (rw_index_append_offset f).

Definition advance_index_append_offset (start len : Z) : M unit :=
  match checked_add64 start len with
  | None => throw AppendOverflow
  | Some next =>
      let! f := get in
      let! _ := ensure_m (rw_index_append_offset f =? start) CursorRace in
      modify (λ f, upd_cursors f (rw_data_append_offset f) next)
  end.

(** ** Index log *)

Definition append_index_bytes (bytes : list Z) : M unit :=
  if is_nil bytes then ret tt
  else
    let! f := get in
    match rw_index_file f with
    | None => ret tt
    | Some file =>
        let! offset := index_append_offset in
        modify (λ f, upd_index_file f (Some (file_write file offset bytes))) ;;;
        advance_index_append_offset offset (zlen bytes)
    end.

Definition disks_bytes (buf : list DiskSegmentMapping) : list Z := mjoin (disk_bytes <$> buf).

Definition flush_group_commit : M unit :=
  let! f := get in
  if is_nil (group_commit_buf f) then ret tt
  else
    append_index_bytes (disks_bytes (group_commit_buf f)) ;;;
    modify (λ f, upd_group f (group_commit_size f) []).

Definition append_index_mapping (m : DiskSegmentMapping) : M unit :=
  let! f := get in
  if group_commit_size f =? 0 then append_index_bytes (disk_bytes m)
  else
    let capacity := Z.max (group_commit_size f / MAPPING_SIZE) 1 in
    modify (λ f, upd_group f (group_commit_size f) (group_commit_buf f ++ [m])) ;;;
    let! f := get in
    if capacity <=? zlen (group_commit_buf f)
    then append_index_bytes (disks_bytes (group_commit_buf f)) ;;;
         modify (λ f, upd_group f (group_commit_size f) [])
    else ret tt.

(** [idx.insert(m)] *)
Definition insert_mapping (m : SegmentMapping) : M unit :=
  modify (λ f, upd_index f (combo_insert (index f) m)).

(** [m_disk.tag = 0; DiskSegmentMapping::from_memory(&m_disk)] *)
Definition to_disk (m : SegmentMapping) : DiskSegmentMapping := from_memory (set_tag m 0).

(** [writer.write(self.rw_data_file, offset, data)] *)
Definition write_data (offset : Z) (data : list Z) : M unit :=
  modify (λ f, upd_data f (file_write (rw_data_file f) offset data)).

(** ** Hybrid writes *)

Inductive WriteFragment : Type :=
| InPlace (data_offset len phys_offset : Z)
| ReuseZero (logical_offset data_offset len phys_offset : Z)
| Append (logical_offset data_offset len : Z).

Definition append_fragment (start_blk from_blk to_blk : Z) : WriteFragment :=
  Append (from_blk * ALIGNMENT) ((from_blk - start_blk) * ALIGNMENT) ((to_blk - from_blk) * ALIGNMENT).

(** One fragment per stored range, an append for every gap. *)
Fixpoint plan_loop (start_blk end_blk current_blk : Z) (ms : list SegmentMapping)
  : result lsmt_error (list WriteFragment) :=
  match ms with
  | [] => Ok (if current_blk <? end_blk then [append_fragment start_blk current_blk end_blk] else [])
  | m :: ms' =>
      let gap := if current_blk <? sm_offset m
                 then [append_fragment start_blk current_blk (sm_offset m)] else [] in
      let current_blk := Z.max current_blk (sm_offset m) in
      if end_blk <=? current_blk then Ok gap
      else
        let fragment_end := Z.min (sm_end m) end_blk in
        if fragment_end <=? current_blk
        then rbind (plan_loop start_blk end_blk current_blk ms') (λ rest, Ok (gap ++ rest))
        else
          let data_offset := (current_blk - start_blk) * ALIGNMENT in
          let len := (fragment_end - current_blk) * ALIGNMENT in
          rbind
            (if zeroed m && negb (has_physical_range m)
             then Ok (Append (current_blk * ALIGNMENT) data_offset len)
             else match checked_add64 (moffset m) (current_blk - sm_offset m) with
                  | None => Err PhysicalOverflow
                  | Some blk =>
                      let phys_offset := wrap64 (blk * ALIGNMENT) in
                      Ok (if zeroed m
                          then ReuseZero (current_blk * ALIGNMENT) data_offset len phys_offset
                          else InPlace data_offset len phys_offset)
                  end)
            (λ fr, rbind (plan_loop start_blk end_blk fragment_end ms') (λ rest,
               Ok (gap ++ fr :: rest)))
  end.

Definition plan_hybrid_write (up : list SegmentMapping) (logical_offset data_len : Z)
  : result lsmt_error (list WriteFragment) :=
  let start_blk := logical_offset / ALIGNMENT in
  let block_count := wrap32 (data_len / ALIGNMENT) in
  let end_blk := wrap64 (start_blk + block_count) in
  plan_loop start_blk end_blk start_blk (mi_lookup up (mkSeg start_blk block_count) []).1.

(** Execute the fragments in order; mappings are collected and inserted after
    the last one.  [next] is [next_append_offset]. *)
Definition data_mapping (f : LSMTFile) (logical_offset len phys_offset : Z) : SegmentMapping :=
  sm_new (logical_offset / ALIGNMENT) (wrap32 (len / ALIGNMENT)) (phys_offset / ALIGNMENT) false
    (wrap8 (rw_tag f)).

Definition run_fragment (chunk : list Z) (next : option Z) (fr : WriteFragment)
  : M (list SegmentMapping * option Z) :=
  match fr with
  | InPlace data_offset len phys_offset =>
      write_data phys_offset (slice data_offset len chunk) ;;;
      ret ([], next)
  | ReuseZero logical_offset data_offset len phys_offset =>
      write_data phys_offset (slice data_offset len chunk) ;;;
      let! f := get in
      let m_mem := data_mapping f logical_offset len phys_offset in
      append_index_mapping (to_disk m_mem) ;;;
      ret ([m_mem], next)
  | Append logical_offset data_offset len =>
      let! phys_offset := match next with Some o => ret o | None => data_append_offset end in
      write_data phys_offset (slice data_offset len chunk) ;;;
      advance_data_append_offset phys_offset len ;;;
      let! f := get in
      let m_mem := data_mapping f logical_offset len phys_offset in
      append_index_mapping (to_disk m_mem) ;;;
      match checked_add64 phys_offset len with
      | None => throw AppendOverflow
      | Some n => ret ([m_mem], Some n)
      end
  end.

Fixpoint run_fragments (chunk : list Z) (next : option Z) (frs : list WriteFragment)
  : M (list SegmentMapping) :=
  match frs with
  | [] => ret []
  | fr :: frs' =>
      let! r := run_fragment chunk next fr in
      let! rest := run_fragments chunk r.2 frs' in
      ret (r.1 ++ rest)
  end.

Fixpoint insert_all (ms : list SegmentMapping) : M unit :=
  match ms with
  | [] => ret tt
  | m :: ms' => insert_mapping m ;;; insert_all ms'
  end.

Definition write_hybrid_chunk (current_offset : Z) (chunk : list Z) : M unit :=
  let! f := get in
  let! frs := lift (plan_hybrid_write (upper (index f)) current_offset (zlen chunk)) in
  let! inserted := run_fragments chunk None frs in
  insert_all inserted.

(** ** Writes *)

(** The log-structured and sparse branches of one chunk. *)
Definition write_plain_chunk (current_offset : Z) (chunk : list Z) : M unit :=
  let! f := get in
  let! m_mem :=
    if bool_decide (file_type f = SparseReadWrite) then
      let phys_offset := HEADER_SIZE + current_offset in
      write_data phys_offset chunk ;;;
      ret (data_mapping f current_offset (zlen chunk) phys_offset)
    else
      let! phys_offset := data_append_offset in
      write_data phys_offset chunk ;;;
      advance_data_append_offset phys_offset (zlen chunk) ;;;
      modify (λ f, upd_digest f
        (match append_digest f with
         | Some t => match absorb t phys_offset chunk with Ok t' => Some t' | Err _ => None end
         | None => None
         end)) ;;;
      ret (data_mapping f current_offset (zlen chunk) phys_offset)
  in
  insert_mapping m_mem ;;;
  if bool_decide (file_type f = SparseReadWrite) then ret tt
  else append_index_mapping (to_disk m_mem).

Definition write_chunk (current_offset : Z) (chunk : list Z) : M unit :=
  let! f := get in
  if bool_decide (file_type f = HybridReadWrite) then write_hybrid_chunk current_offset chunk
  else write_plain_chunk current_offset chunk.

(** [while !remaining_data.is_empty()]: a chunk takes at least one byte. *)
Fixpoint write_loop (fuel : nat) (max_io current_offset : Z) (data : list Z) : M unit :=
  match data with
  | [] => ret tt
  | _ =>
      match fuel with
      | O => throw OutOfFuel
      | S fuel' =>
          let chunk_len := Z.min (zlen data) max_io in
          write_chunk current_offset (ztake chunk_len data) ;;;
          write_loop fuel' max_io (current_offset + chunk_len) (zdrop chunk_len data)
      end
  end.

Definition write_internal (offset : Z) (data : list Z) : M Z :=
  let! f := get in
  let! _ := ensure_m (negb (sealed f)) FileSealed in
  if is_nil data then ret 0
  else
    let! _ := lift (check_alignment offset (zlen data)) in
    write_loop (length data) (max_io_size f) offset data ;;;
    ret (zlen data).

(** ** Discards *)

Definition zero_gap (f : LSMTFile) (from_blk to_blk : Z) : SegmentMapping :=
  sm_new from_blk (wrap32 (to_blk - from_blk)) NO_PHYSICAL_OFFSET true (wrap8 (rw_tag f)).

(** The zero mappings of a hybrid discard: stored ranges keep their physical
    sectors, gaps get markers. *)
Fixpoint discard_plan (f : LSMTFile) (current end_blk : Z) (ms : list SegmentMapping)
  : list SegmentMapping :=
  match ms with
  | [] => if current <? end_blk then [zero_gap f current end_blk] else []
  | m :: ms' =>
      (if current <? sm_offset m then [zero_gap f current (sm_offset m)] else [])
      ++ set_zeroed m true :: discard_plan f (sm_end m) end_blk ms'
  end.

Fixpoint log_and_insert_all (ms : list SegmentMapping) : M unit :=
  match ms with
  | [] => ret tt
  | m :: ms' => append_index_mapping (to_disk m) ;;; insert_mapping m ;;; log_and_insert_all ms'
  end.

Definition discard_hybrid_range (offset len : Z) : M unit :=
  let! f := get in
  let seg := mkSeg (offset / ALIGNMENT) (wrap32 (len / ALIGNMENT)) in
  let ms := (mi_lookup (upper (index f)) seg []).1 in
  log_and_insert_all (discard_plan f (seg_offset seg) (seg_end seg) ms).

Definition discard_step `{FileDiscard} (current_offset step_bytes : Z) : M unit :=
  let! f := get in
  if bool_decide (file_type f = HybridReadWrite)
  then discard_hybrid_range current_offset step_bytes
  else
    (if bool_decide (file_type f = SparseReadWrite)
     then modify (λ f, upd_data f (fd_discard (rw_data_file f) (HEADER_SIZE + current_offset) step_bytes))
     else ret tt) ;;;
    let m_mem := sm_new (current_offset / ALIGNMENT) (wrap32 (step_bytes / ALIGNMENT))
                   NO_PHYSICAL_OFFSET true (wrap8 (rw_tag f)) in
    insert_mapping m_mem ;;;
    if bool_decide (file_type f = SparseReadWrite) then ret tt
    else append_index_mapping (to_disk m_mem).

Fixpoint discard_loop `{FileDiscard} (fuel : nat) (current_offset remaining : Z) : M unit :=
  if remaining <=? 0 then ret tt
  else match fuel with
       | O => throw OutOfFuel
       | S fuel' =>
           let step_bytes := Z.min remaining (MAX_LENGTH * ALIGNMENT) in
           discard_step current_offset step_bytes ;;;
           discard_loop fuel' (current_offset + step_bytes) (remaining - step_bytes)
       end.

Definition discard_range `{FileDiscard} (offset len : Z) : M unit :=
  let! f := get in
  let! _ := ensure_m (negb (sealed f)) FileSealed in
  if len =? 0 then ret tt
  else
    let! _ := ensure_m (is_multiple_of offset ALIGNMENT && is_multiple_of len ALIGNMENT) Unaligned in
    discard_loop (Z.to_nat (div_ceil len (MAX_LENGTH * ALIGNMENT))) offset len.
End Ops.

(** ** Reads

    Shared by the writable and the read-only file: copy the sectors the
    mappings locate into the buffer, and zeros where nothing is mapped. *)
Section Reads.
Context `{FileReader}.

Definition put (buf : list Z) (pos : Z) (data : list Z) : result lsmt_error (list Z) :=
  match buf_write buf pos data with Some b => Ok b | None => Err BufferPanic end.

(** The code after the loop: zero what the mappings did not reach. *)
Definition read_tail (begin_blk end_blk step buf_pos current_blk : Z) (buf : list Z)
  : result lsmt_error (list Z) :=
  if current_blk <? end_blk then
    let local := (current_blk - begin_blk) * ALIGNMENT in
    if local <? step then put buf (buf_pos + local) (zeros (step - local)) else Ok buf
  else Ok buf.

Fixpoint read_loop (lrs : list (list Z)) (begin_blk end_blk step buf_pos current_blk : Z)
  (ms : list SegmentMapping) (buf : list Z) : result lsmt_error (list Z) :=
  match ms with
  | [] => read_tail begin_blk end_blk step buf_pos current_blk buf
  | m :: ms' =>
      rbind
        (if current_blk <? sm_offset m then
           let hole_bytes := (sm_offset m - current_blk) * ALIGNMENT in
           let local := (current_blk - begin_blk) * ALIGNMENT in
           let fill_len := Z.min hole_bytes (saturating_sub step local) in
           if 0 <? fill_len then put buf (buf_pos + local) (zeros fill_len) else Ok buf
         else Ok buf)
        (λ buf,
           let current_blk := Z.max current_blk (sm_offset m) in
           let local := (current_blk - begin_blk) * ALIGNMENT in
           if (end_blk <=? current_blk) || (step <=? local)
           then read_tail begin_blk end_blk step buf_pos current_blk buf
           else
             let actual := Z.min (sm_length m * ALIGNMENT) (step - local) in
             rbind
               (if zeroed m then put buf (buf_pos + local) (zeros actual)
                else match lrs !! Z.to_nat (tag m) with
                     | None => Err InvalidLayerTag
                     | Some layer =>
                         match read_exact layer (wrap64 (moffset m * ALIGNMENT)) actual with
                         | None => Err ShortRead
                         | Some data => put buf (buf_pos + local) data
                         end
                     end)
               (λ buf, read_loop lrs begin_blk end_blk step buf_pos (sm_end m) ms' buf))
  end.

(** [read_mappings_into_generic] *)
Definition read_mappings_into (lrs : list (list Z)) (ms : list SegmentMapping)
  (begin_blk count_blk step buf_pos : Z) (buf : list Z) : result lsmt_error (list Z) :=
  read_loop lrs begin_blk (begin_blk + count_blk) step buf_pos begin_blk ms buf.

(** [while remaining > 0] of the read path, over any index. *)
Fixpoint read_chunks {I} `{LogIndex I} (fuel : nat) (idx : I) (lrs : list (list Z))
  (max_io remaining curr_offset buf_pos : Z) (buf : list Z) : result lsmt_error (list Z) :=
  if remaining <=? 0 then Ok buf
  else match fuel with
       | O => Err OutOfFuel
       | S fuel' =>
           let step := Z.min remaining max_io in
           let begin_blk := curr_offset / ALIGNMENT in
           let count_blk := div_ceil step ALIGNMENT in
           let ms := (li_lookup idx (mkSeg begin_blk (wrap32 count_blk)) []).1 in
           rbind (read_mappings_into lrs ms begin_blk count_blk step buf_pos buf) (λ buf,
             read_chunks fuel' idx lrs max_io (remaining - step) (curr_offset + step)
               (buf_pos + step) buf)
       end.

(** [read_internal_into_generic]: the filled buffer and the number of bytes. *)
Definition read_into {I} `{LogIndex I} (idx : I) (lrs : list (list Z)) (vsize max_io offset : Z)
  (dst : list Z) : result lsmt_error (list Z * Z) :=
  rbind (check_alignment offset (zlen dst)) (λ _,
    if vsize <=? offset then Ok (dst, 0)
    else
      let read_len := Z.min (zlen dst) (vsize - offset) in
      if read_len =? 0 then Ok (dst, 0)
      else
        rbind (read_chunks (Z.to_nat read_len) idx lrs max_io read_len offset 0 (ztake read_len dst))
          (λ buf, Ok (buf ++ zdrop read_len dst, read_len))).

Context `{UuidOps}.

(** [VirtualFile::read_at_into] and [read_at] of the writable file. *)
Definition lsmt_read_at_into (f : LSMTFile) (offset : Z) (dst : list Z)
  : result lsmt_error (list Z * Z) :=
  if is_nil dst then Ok (dst, 0)
  else read_into (index f) (layers f) (virtual_size_of f) (max_io_size f) offset dst.

Definition lsmt_read_at (f : LSMTFile) (offset len : Z) : result lsmt_error (list Z) :=
  if (len =? 0) || (virtual_size_of f <=? offset) then Ok []
  else
    let read_len := Z.min len (virtual_size_of f - offset) in
    rbind (read_into (index f) (layers f) (virtual_size_of f) (max_io_size f) offset (zeros read_len))
      (λ r, Ok (ztake r.2 r.1)).
End Reads.

(** ** Lifecycle *)
Section Lifecycle.
Context `{UuidOps} `{FileDiscard}.

Definition rw_layout_from_header (h : HeaderTrailer) : result lsmt_error RwLayout :=
  match is_sparse_rw h, is_hybrid_rw h with
  | false, false => Ok LogStructured
  | true, false => Ok Sparse
  | false, true => Ok HybridLogStructured
  | true, true => Err BothLayoutFlags
  end.

(** Index recovery of [open]: the upper mappings and the index append cursor. *)
Definition recover_index (sparse_ok : bool) (seek_data seek_hole : Z → option Z)
  (layout : RwLayout) (data : list Z) (idx : option (list Z))
  : result lsmt_error (list SegmentMapping * Z) :=
  match layout with
  | Sparse =>
      rbind (ensure sparse_ok UnsupportedLayout) (λ _,
      rbind (create_mappings_from_sparse seek_data seek_hole (zlen data) HEADER_SIZE) (λ ms,
        Ok (fold_left mi_insert ms [], HEADER_SIZE)))
  | _ =>
      match idx with
      | None => Err MissingIndexFile
      | Some file =>
          let size := zlen file in
          if HEADER_SIZE <? size then
            let area := size - HEADER_SIZE in
            rbind (ensure (is_multiple_of area MAPPING_SIZE) IndexMisaligned) (λ _,
            rbind (load_index_and_reset_tags file HEADER_SIZE (area / MAPPING_SIZE)) (λ ms,
              Ok (fold_left mi_insert ms [], size)))
          else Ok ([], size)
      end
  end.

Definition lsmt_open (sparse_ok : bool) (seek_data seek_hole : Z → option Z)
  (data : list Z) (idx : option (list Z)) (lower_index : option (list SegmentMapping))
  (lowers : list (list Z)) : result lsmt_error LSMTFile :=
  let size := zlen data in
  rbind (verify_ht data false size) (λ header,
  rbind (rw_layout_from_header header) (λ layout,
  rbind (ensure_supported sparse_ok layout) (λ layout,
    if (HEADER_SIZE + 4096 <=? size) && is_ok (verify_ht data true size) then Err CannotOpenSealed
    else
      let tag := zlen lowers in
      let ids := replicate (Z.to_nat tag) uuid_nil
                 ++ [default uuid_nil (parse_uuid_field (uuid header))] in
      rbind (recover_index sparse_ok seek_data seek_hole layout data idx) (λ '(up, cursor),
      let ft := layout_file_type layout in
      rbind (initial_append_digest data ft size) (λ dg,
        Ok (mkLSMT (combo_new up lower_index (wrap8 tag)) lowers data idx (virtual_size header)
              tag false MAX_IO_SIZE ids ft 0 [] size cursor dg)))))).

Definition create_with_metadata (sparse_ok : bool) (data : list Z) (idx : option (list Z))
  (vsize : Z) (layout : RwLayout) (u : Uuid) (parent : option Uuid) (tag : option (list Z))
  : result lsmt_error LSMTFile :=
  rbind (ensure_supported sparse_ok layout) (λ layout,
    let header := rw_header vsize layout u parent tag in
    let data := write_header_block data header in
    rbind
      (match layout with
       | Sparse => Ok (file_truncate data (vsize + HEADER_SIZE), idx, vsize + HEADER_SIZE)
       | _ =>
           match idx with
           | None => Err MissingIndexFile
           | Some file =>
               let h := set_unsealed_index_offset (set_index_file header) in
               Ok (data, Some (write_header_block file h), HEADER_SIZE)
           end
       end)
      (λ '(data, idx, cursor),
        let ft := layout_file_type layout in
        rbind (initial_append_digest data ft HEADER_SIZE) (λ dg,
          Ok (mkLSMT (combo_new [] None 0) [] data idx vsize 0 false MAX_IO_SIZE [u] ft 0 []
                cursor HEADER_SIZE dg)))).

(** [LSMTFile::create] *)
Definition lsmt_create (sparse_ok : bool) (data : list Z) (idx : option (list Z)) (vsize : Z)
  (sparse_rw : bool) (u : Uuid) : result lsmt_error LSMTFile :=
  create_with_metadata sparse_ok data idx vsize (if sparse_rw then Sparse else LogStructured)
    u None None.

Definition set_max_io_size (size : Z) : M unit :=
  let! _ := ensure_m (negb (size =? 0) && is_multiple_of size ALIGNMENT_4K) BadIoSize in
  modify (λ f, upd_max_io f size).

Definition set_index_group_commit (size : Z) : M unit :=
  modify (λ f, upd_group f size (group_commit_buf f)).

Definition get_uuid (f : LSMTFile) (i : Z) : result lsmt_error Uuid :=
  match uuids f !! Z.to_nat i with Some u => Ok u | None => Err LayerOutOfRange end.

Definition update_vsize (vsize : Z) : M unit :=
  let! f := get in
  let before := rw_data_append_offset f in
  let rebuild := bool_decide (file_type f = ReadWrite)
                 && match append_digest f with
                    | Some t => (td_offset t =? before) && (HEADER_SIZE <=? before)
                    | None => false
                    end in
  modify (λ f, if bool_decide (file_type f = ReadWrite) then upd_digest f None else f) ;;;
  modify (λ f, upd_vsize f vsize) ;;;
  let! f := get in
  let! data := lift (update_header_vsize (rw_data_file f) vsize) in
  modify (λ f, upd_data f data) ;;;
  (if rebuild then
     let! t := lift (rebuild_append_digest_from_file data before) in
     modify (λ f, if rw_data_append_offset f =? td_offset t then upd_digest f (Some t) else f)
   else ret tt) ;;;
  (if bool_decide (file_type f = SparseReadWrite) then
     modify (λ f, upd_cursors (upd_data f (file_truncate (rw_data_file f) (vsize + HEADER_SIZE)))
                    (vsize + HEADER_SIZE) (rw_index_append_offset f))
   else ret tt) ;;;
  let! f := get in
  match rw_index_file f with
  | None => ret tt
  | Some file =>
      let! file' := lift (update_header_vsize file vsize) in
      modify (λ f, upd_index_file f (Some file'))
  end.

(** [truncate] and [sync] *)
Definition lsmt_truncate (size : Z) : M unit :=
  let! f := get in
  let! _ := ensure_m (negb (sealed f)) FileSealed in
  flush_group_commit ;;; update_vsize size.

Definition lsmt_sync : M unit := flush_group_commit.

(** The query that covers the whole virtual disk. *)
Definition whole_disk (vsize : Z) : Segment := mkSeg 0 (wrap32 (div_ceil vsize ALIGNMENT)).

Definition sum_data (ms : list SegmentMapping) : Z :=
  foldr (λ m acc, sm_length m * (if zeroed m then 0 else 1) + acc) 0 ms.

Definition data_stat (f : LSMTFile) : DataStat :=
  let total := saturating_sub (zlen (rw_data_file f)) HEADER_SIZE in
  let ms := (combo_lookup (index f) (whole_disk (virtual_size_of f)) []).1 in
  mkDataStat total (sum_data ms * ALIGNMENT).

Definition seek_data_segments (ms : list SegmentMapping) : list Segment :=
  (λ m, mkSeg (sm_offset m) (sm_length m)) <$> List.filter (λ m, negb (zeroed m)) ms.

Definition seek_data (f : LSMTFile) (from_byte to_byte : Z) (segs : list Segment) : list Segment * Z :=
  if to_byte <=? from_byte then (segs, 0)
  else
    let begin_blk := from_byte / ALIGNMENT in
    let end_blk := div_ceil to_byte ALIGNMENT in
    if end_blk <=? begin_blk then (segs, 0)
    else
      let ms := (combo_lookup (index f) (mkSeg begin_blk (wrap32 (end_blk - begin_blk))) []).1 in
      let segs := segs ++ seek_data_segments ms in
      (segs, zlen segs).

(** ** Sealing *)
Context (sha256 : list Z → list Z).

(** [AppendDigestTracker::descriptor] *)
Definition descriptor (t : AppendDigestTracker) : LayerDescriptor :=
  mkDescriptor (sha256_text (sha256 (hasher t))) (td_offset t).

Definition absorb_seal_bytes (t : option AppendDigestTracker) (offset : Z) (data : list Z)
  : option AppendDigestTracker :=
  match t with
  | Some s => match absorb s offset data with Ok s' => Some s' | Err _ => None end
  | None => None
  end.

(** Append bytes to the data file and to the digest. *)
Definition seal_append (offset : Z) (data : list Z) : M unit :=
  modify (λ f, upd_digest (upd_data f (file_write (rw_data_file f) offset data))
                 (absorb_seal_bytes (append_digest f) offset data)).

Definition seal_mapping (m : SegmentMapping) : SegmentMapping :=
  let m := set_tag m 0 in if zeroed m then set_moffset m NO_PHYSICAL_OFFSET else m.

Definition seal_index (f : LSMTFile) : list SegmentMapping :=
  seal_mapping <$> (mi_lookup (upper (index f)) (whole_disk (virtual_size_of f)) []).1.

(** The index padded to a whole sector with 0xff. *)
Definition seal_index_bytes (ms : list SegmentMapping) : list Z :=
  let bytes := index_bytes ms in
  let rem := zlen bytes mod ALIGNMENT in
  if rem =? 0 then bytes else bytes ++ replicate (Z.to_nat (ALIGNMENT - rem)) 255.

Definition close_seal : M (option LayerDescriptor) :=
  let! f := get in
  let was_sealed := sealed f in
  modify (λ f, upd_sealed f true) ;;;
  let! _ := ensure_m (negb was_sealed) AlreadySealed in
  flush_group_commit ;;;
  let! f := get in
  let ms := seal_index f in
  let index_offset := zlen (rw_data_file f) in
  let bytes := seal_index_bytes ms in
  seal_append index_offset bytes ;;;
  let trailer_offset := index_offset + zlen bytes in
  let pad_len := if is_multiple_of trailer_offset 4096 then 0 else 4096 - trailer_offset mod 4096 in
  (if pad_len =? 0 then ret tt else seal_append trailer_offset (zeros pad_len)) ;;;
  let trailer_offset := trailer_offset + pad_len in
  let! f := get in
  let header_bytes := file_read (rw_data_file f) 0 HEADER_SIZE in
  let! _ := ensure_m (HT_SIZE <=? zlen header_bytes) ShortRead in
  match ht_from_bytes (ztake HT_SIZE header_bytes) with
  | None => throw BadHeader
  | Some h =>
      let t := set_virtual_size h (virtual_size_of f) in
      let t := set_index_size (set_index_offset t index_offset) (zlen ms) in
      let t := set_trailer (set_data_file (set_sealed t)) in
      seal_append trailer_offset (header_block t) ;;;
      let! f := get in
      ret (descriptor <$> append_digest f)
  end.
End Lifecycle.
