(* ===== verification/LsmtRead.v ===== *)
(** * Reading an LSMT file

    The disk an LSMT file presents is a function from byte addresses to bytes:
    each sector is where the index locates it, and zero where the index has
    nothing or a zero mapping.  The chunked read loop of [LSMTFile] and
    [LSMTReadOnlyFile] returns exactly those bytes, for any index that meets
    the [LogIndex] contract and any reader that may return short. *)

From S2P Require Import Prelude LsmtSegment LsmtIndex LsmtLookup LsmtIo LsmtHelper LsmtFile.

(** ** The byte a location stands for *)

Definition loc_byte (lrs : list (list Z)) (o : option Loc) (p : Z) : Z :=
  match o with
  | None => 0
  | Some l =>
      if loc_zeroed l then 0
      else match loc_phys l, lrs !! Z.to_nat (loc_tag l) with
           | Some ph, Some layer => byte_at layer (ph * ALIGNMENT + p mod ALIGNMENT)
           | _, _ => 0
           end
  end.

(** The location lies inside its layer file. *)
Definition loc_readable (lrs : list (list Z)) (o : option Loc) (p : Z) : Prop :=
  ∀ l, o = Some l → loc_zeroed l = false →
    ∃ ph layer, loc_phys l = Some ph ∧ lrs !! Z.to_nat (loc_tag l) = Some layer
      ∧ ph * ALIGNMENT + p mod ALIGNMENT < zlen layer.

Definition disk_byte (lrs : list (list Z)) (V : Z → option Loc) (p : Z) : Z :=
  loc_byte lrs (V (p / ALIGNMENT)) p.

Definition disk_readable (lrs : list (list Z)) (V : Z → option Loc) (from_byte to_byte : Z) : Prop :=
  ∀ p, from_byte ≤ p < to_byte → loc_readable lrs (V (p / ALIGNMENT)) p.

Lemma disk_readable_mono lrs V a b a' b' : a ≤ a' → b' ≤ b →
  disk_readable lrs V a b → disk_readable lrs V a' b'.
Proof. intros ? ? Hr p Hp. apply Hr. lia. Qed.

Lemma disk_readable_ext lrs V V' a b : (∀ x, a / ALIGNMENT ≤ x ≤ (b - 1) / ALIGNMENT → V x = V' x) →
  disk_readable lrs V a b → disk_readable lrs V' a b.
Proof.
  intros HV Hr p Hp. rewrite <- HV; [by apply Hr|].
  split; apply Z.div_le_mono; unfold ALIGNMENT; lia.
Qed.

(** ** One chunk *)
Section Read.
Context `{FileReaderSpec}.

Lemma put_ok buf pos data : 0 ≤ pos → pos + zlen data ≤ zlen buf →
  ∃ buf', put buf pos data = Ok buf' ∧ zlen buf' = zlen buf
    ∧ ∀ i, 0 ≤ i → byte_at buf' i
        = if (pos <=? i) && (i <? pos + zlen data) then byte_at data (i - pos) else byte_at buf i.
Proof.
  intros Hp Hl. destruct (buf_write_ok buf pos data Hp Hl) as (b & E & Hb).
  exists b. unfold put. by rewrite E.
Qed.

(** Filling with zeros. *)
Lemma put_zeros buf pos n : 0 ≤ pos → 0 ≤ n → pos + n ≤ zlen buf →
  ∃ buf', put buf pos (zeros n) = Ok buf' ∧ zlen buf' = zlen buf
    ∧ ∀ i, 0 ≤ i → byte_at buf' i = if (pos <=? i) && (i <? pos + n) then 0 else byte_at buf i.
Proof.
  intros Hp Hn Hl. destruct (put_ok buf pos (zeros n)) as (b & E & Hz & Hb); [lia|rewrite zlen_zeros; lia|].
  exists b. split_and!; [done..|]. intros i Hi. rewrite Hb, zlen_zeros, byte_at_zeros by done.
  by replace (Z.max 0 n) with n by lia.
Qed.

(** The bytes of one stored mapping. *)
Lemma read_mapping_ok lrs m n : wf_mapping m → zeroed m = false → 0 < n ≤ sm_length m * ALIGNMENT →
  disk_readable lrs (λ x, Some (loc_at m x)) (sm_offset m * ALIGNMENT) (sm_offset m * ALIGNMENT + n) →
  ∃ layer data, lrs !! Z.to_nat (tag m) = Some layer
    ∧ read_exact layer (wrap64 (moffset m * ALIGNMENT)) n = Some data ∧ zlen data = n
    ∧ ∀ p, 0 ≤ p < n → byte_at data p
        = disk_byte lrs (λ x, Some (loc_at m x)) (sm_offset m * ALIGNMENT + p).
Proof.
  intros Hm Hz Hn Hr. wf_facts. unfold ALIGNMENT, NO_PHYSICAL_OFFSET in *.
  destruct (Hr (sm_offset m * 512 + n - 1) ltac:(lia) _ eq_refl Hz) as (ph & layer & Eph & El & Hin).
  simpl in Eph, El. destruct (has_physical_range m) eqn:Ep; [|done]. injection Eph as <-.
  unfold ALIGNMENT in Hin.
  unfold has_physical_range, NO_PHYSICAL_OFFSET in Ep.
  exists layer, (slice (moffset m * 512) n layer). split; [done|]. unwrap.
  rewrite read_exact_ok by dlia. split; [done|]. rewrite zlen_slice by dlia. split; [done|].
  intros p Hp. rewrite byte_at_slice by lia. unfold disk_byte, loc_byte. simpl. rewrite Hz, El.
  destruct (has_physical_range m) eqn:Ep'; [|unfold has_physical_range, NO_PHYSICAL_OFFSET in Ep'; congruence].
  f_equal. unfold ALIGNMENT. dlia.
Qed.

Section Loop.
Context (lrs : list (list Z)) (begin_blk end_blk step buf_pos : Z).
Context (Hbegin : 0 ≤ begin_blk) (Hstep : 0 < step ≤ (end_blk - begin_blk) * ALIGNMENT).
Context (Hpos : 0 ≤ buf_pos).

(** The disk address of buffer position [i], and the end of the chunk. *)
Abbreviation addr i := (i - buf_pos + begin_blk * ALIGNMENT).
Abbreviation limit := (begin_blk * ALIGNMENT + step).

(** The loop fills the addresses from sector [cur] to the end of the chunk. *)
Definition filled (V : Z → option Loc) (cur : Z) (buf buf' : list Z) : Prop :=
  zlen buf' = zlen buf
  ∧ ∀ i, 0 ≤ i → byte_at buf' i
      = if (cur * ALIGNMENT <=? addr i) && (addr i <? limit)
        then disk_byte lrs V (addr i) else byte_at buf i.

Lemma read_tail_spec cur buf : begin_blk ≤ cur ≤ end_blk → buf_pos + step ≤ zlen buf →
  ∃ buf', read_tail begin_blk end_blk step buf_pos cur buf = Ok buf'
    ∧ filled (λ _, None) cur buf buf'.
Proof.
  intros Hcur Hbuf. unfold read_tail, filled, disk_byte, ALIGNMENT in *. simpl.
  destruct (Z.ltb_spec cur end_blk); [destruct (Z.ltb_spec ((cur - begin_blk) * 512) step)|].
  - destruct (put_zeros buf (buf_pos + (cur - begin_blk) * 512) (step - (cur - begin_blk) * 512))
      as (b & -> & Hl & Hb); [lia..|].
    exists b. split_and!; [done..|]. intros i Hi. rewrite Hb by done. zcases; done.
  - exists buf. split_and!; [done..|]. intros i Hi. zcases; done.
  - exists buf. split_and!; [done..|]. intros i Hi. zcases; done.
Qed.

Lemma filled_ext V V' cur buf buf' : (∀ x, cur ≤ x → x * ALIGNMENT < limit → V x = V' x) →
  filled V cur buf buf' → filled V' cur buf buf'.
Proof.
  intros HV [Hl Hb]. split; [done|]. intros i Hi. rewrite Hb by done.
  unfold ALIGNMENT in *. zcases; [|done..]. unfold disk_byte, ALIGNMENT.
  rewrite HV; [done|dlia..].
Qed.

(** Filling up to sector [cur2] and then from there on. *)
Lemma filled_trans V cur1 cur2 buf buf1 buf2 : cur1 ≤ cur2 → zlen buf1 = zlen buf →
  (∀ i, 0 ≤ i → byte_at buf1 i
      = if (cur1 * ALIGNMENT <=? addr i) && (addr i <? cur2 * ALIGNMENT) && (addr i <? limit)
        then disk_byte lrs V (addr i) else byte_at buf i) →
  filled V cur2 buf1 buf2 → filled V cur1 buf buf2.
Proof.
  intros Hc Hl1 H1 [Hl2 H2]. split; [lia|]. intros i Hi. rewrite H2, H1 by done.
  unfold ALIGNMENT in *. zcases; done.
Qed.

(** The hole before the next mapping. *)
Lemma read_hole_spec cur off buf : begin_blk ≤ cur ≤ off → off ≤ end_blk →
  buf_pos + step ≤ zlen buf →
  ∃ buf1, (if cur <? off then
             let hole_bytes := (off - cur) * ALIGNMENT in
             let local := (cur - begin_blk) * ALIGNMENT in
             let fill_len := Z.min hole_bytes (saturating_sub step local) in
             if 0 <? fill_len then put buf (buf_pos + local) (zeros fill_len) else Ok buf
           else Ok buf) = Ok buf1
    ∧ zlen buf1 = zlen buf
    ∧ ∀ i, 0 ≤ i → byte_at buf1 i
        = if (cur * ALIGNMENT <=? addr i) && (addr i <? off * ALIGNMENT) && (addr i <? limit)
          then 0 else byte_at buf i.
Proof.
  intros Hcur Hoff Hbuf. unfold saturating_sub, ALIGNMENT in *. cbv zeta.
  destruct (Z.ltb_spec cur off); [|exists buf; split_and!; [done..|]; intros i Hi; by zcases].
  set (n := Z.min ((off - cur) * 512) (Z.max 0 (step - (cur - begin_blk) * 512))).
  destruct (Z.ltb_spec 0 n);
    [|exists buf; split_and!; [done..|]; intros i Hi; unfold n in *; by zcases].
  destruct (put_zeros buf (buf_pos + (cur - begin_blk) * 512) n) as (b & -> & Hl & Hb);
    [lia..|unfold n in *; lia|].
  exists b. split_and!; [done..|]. intros i Hi. rewrite Hb by done. unfold n in *. zcases; done.
Qed.

(** The bytes of the mapping itself. *)
Lemma read_body_spec m buf : wf_mapping m → begin_blk ≤ sm_offset m →
  sm_offset m * ALIGNMENT < limit → buf_pos + step ≤ zlen buf →
  disk_readable lrs (λ x, Some (loc_at m x)) (sm_offset m * ALIGNMENT)
    (Z.min ((sm_offset m + sm_length m) * ALIGNMENT) limit) →
  ∃ buf1,
    let local := (sm_offset m - begin_blk) * ALIGNMENT in
    let actual := Z.min (sm_length m * ALIGNMENT) (step - local) in
    (if zeroed m then put buf (buf_pos + local) (zeros actual)
     else match lrs !! Z.to_nat (tag m) with
          | None => Err InvalidLayerTag
          | Some layer =>
              match read_exact layer (wrap64 (moffset m * ALIGNMENT)) actual with
              | None => Err ShortRead
              | Some data => put buf (buf_pos + local) data
              end
          end) = Ok buf1
    ∧ zlen buf1 = zlen buf
    ∧ ∀ i, 0 ≤ i → byte_at buf1 i
        = if (sm_offset m * ALIGNMENT <=? addr i)
             && (addr i <? (sm_offset m + sm_length m) * ALIGNMENT) && (addr i <? limit)
          then disk_byte lrs (λ x, Some (loc_at m x)) (addr i) else byte_at buf i.
Proof.
  intros Hm Hb Hlt Hbuf Hr. wf_facts. cbv zeta. unfold ALIGNMENT in Hlt, Hstep.
  set (local := (sm_offset m - begin_blk) * ALIGNMENT).
  set (actual := Z.min (sm_length m * ALIGNMENT) (step - local)).
  assert (0 < actual ∧ 0 ≤ local ∧ local + actual ≤ step) as (Ha & Hl0 & Hle)
    by (unfold actual, local, ALIGNMENT; lia).
  destruct (zeroed m) eqn:Hz.
  - destruct (put_zeros buf (buf_pos + local) actual) as (b & -> & Hl & Hbb); [lia..|].
    exists b. split_and!; [done..|]. intros i Hi. rewrite Hbb by done.
    unfold disk_byte. simpl. rewrite Hz. unfold actual, local, ALIGNMENT in *. zcases; done.
  - destruct (read_mapping_ok lrs m actual) as (layer & data & El & Er & Hlen & Hd); [done..| | |].
    { unfold actual, ALIGNMENT in *. lia. }
    { eapply disk_readable_mono; [| |exact Hr]; [done|]. unfold actual, local, ALIGNMENT. lia. }
    rewrite El, Er.
    destruct (put_ok buf (buf_pos + local) data) as (b & -> & Hl & Hbb); [lia..|].
    exists b. split_and!; [done..|]. intros i Hi. rewrite Hbb by done. rewrite Hlen.
    unfold actual, local, ALIGNMENT in *. zcases; try done.
    rewrite Hd by lia. f_equal. lia.
Qed.

Lemma read_loop_spec ms : ∀ cur buf, wf_index ms →
  (∀ m, m ∈ ms → cur ≤ sm_offset m ∧ sm_offset m + sm_length m ≤ end_blk) →
  begin_blk ≤ cur ≤ end_blk → buf_pos + step ≤ zlen buf →
  disk_readable lrs (view ms) (cur * ALIGNMENT) limit →
  ∃ buf', read_loop lrs begin_blk end_blk step buf_pos cur ms buf = Ok buf'
    ∧ filled (view ms) cur buf buf'.
Proof.
  induction ms as [|m ms IH]; intros cur buf Hms Hin Hcur Hbuf Hr.
  { by apply read_tail_spec. }
  apply wf_index_cons in Hms as (Hm & Hf & Hms). rewrite Forall_forall in Hf.
  destruct (Hin m) as [Hmo Hme]; [set_solver|]. wf_facts. cbn [read_loop].
  destruct (read_hole_spec cur (sm_offset m) buf) as (buf1 & E1 & Hl1 & Hb1); [lia..|].
  cbv zeta in E1. rewrite E1. cbn [rbind].
  replace (Z.max cur (sm_offset m)) with (sm_offset m) by lia.
  assert (∀ a, a < sm_offset m * ALIGNMENT → disk_byte lrs (view (m :: ms)) a = 0) as Hhole.
  { intros a Ha. unfold disk_byte, ALIGNMENT in *.
    assert (view (m :: ms) (a / 512) = None) as ->; [|done]. apply view_None.
    intros b [->|Hb]%elem_of_cons; unfold covers; [dlia|].
    specialize (Hf b Hb). unfold before in Hf. dlia. }
  destruct (Z.leb_spec end_blk (sm_offset m)); [lia|]. cbn [orb].
  destruct (Z.leb_spec step ((sm_offset m - begin_blk) * ALIGNMENT)) as [Hs|Hs].
  - (* the chunk ends in the hole *)
    destruct (read_tail_spec (sm_offset m) buf1) as (buf2 & -> & Hf2); [lia..|].
    exists buf2. split; [done|]. apply (filled_trans _ cur (sm_offset m) buf buf1); [lia|done| |].
    + intros i Hi. rewrite Hb1 by done. destruct (decide (addr i < sm_offset m * ALIGNMENT)).
      { rewrite Hhole by lia. unfold ALIGNMENT in *. by bcases. }
      unfold ALIGNMENT in *. by bcases.
    + eapply filled_ext; [|exact Hf2]. intros x Hx Hlim. unfold ALIGNMENT in *. lia.
  - destruct (read_body_spec m buf1) as (buf2 & E2 & Hl2 & Hb2); [done|lia| |lia| |].
    { unfold ALIGNMENT in *. lia. }
    { intros p Hp. unfold ALIGNMENT in *. specialize (Hr p ltac:(unfold ALIGNMENT; lia)).
      simpl in Hr. assert (covers m (p / ALIGNMENT) = true) as E.
      { apply covers_iff. unfold ALIGNMENT. dlia. } by rewrite E in Hr. }
    cbv zeta in E2. rewrite E2. cbn [rbind]. rewrite sm_end_wf by done.
    destruct (IH (sm_offset m + sm_length m) buf2) as (buf3 & -> & Hf3); [done| |lia|lia| |].
    { intros a Ha. destruct (Hin a); [set_solver|]. specialize (Hf a Ha). unfold before in Hf. lia. }
    { intros p Hp. unfold ALIGNMENT in *. specialize (Hr p ltac:(unfold ALIGNMENT; lia)).
      simpl in Hr. assert (covers m (p / ALIGNMENT) = false) as E.
      { apply not_true_iff_false. rewrite covers_iff. unfold ALIGNMENT. dlia. }
      by rewrite E in Hr. }
    exists buf3. split; [done|].
    apply (filled_trans _ cur (sm_offset m + sm_length m) buf buf2); [lia|lia| |].
    + intros i Hi. rewrite Hb2, Hb1 by done.
      destruct (decide (addr i < sm_offset m * ALIGNMENT)) as [Hlt|Hge].
      * rewrite Hhole by lia. unfold ALIGNMENT in *. by bcases.
      * unfold ALIGNMENT in *. bcases; try done. unfold disk_byte. simpl.
        match goal with |- context [covers m ?x] => assert (covers m x = true) as -> end; [|done].
        apply covers_iff. unfold ALIGNMENT. dlia.
    + eapply filled_ext; [|exact Hf3]. intros x Hx Hlim. simpl.
      destruct (covers m x) eqn:E; [|done]. apply covers_iff in E. lia.
Qed.
End Loop.

(** ** The whole read *)

(** [n] bytes of the disk from address [off]. *)
Definition disk_range (lrs : list (list Z)) (V : Z → option Loc) (off n : Z) : list Z :=
  disk_byte lrs V <$> seqZ off n.

Lemma zlen_disk_range lrs V off n : 0 ≤ n → zlen (disk_range lrs V off n) = n.
Proof. intros. unfold disk_range. rewrite zlen_fmap. unfold zlen. rewrite length_seqZ. lia. Qed.

Lemma byte_at_disk_range lrs V off n i : 0 ≤ i < n →
  byte_at (disk_range lrs V off n) i = disk_byte lrs V (off + i).
Proof.
  intros Hi. unfold disk_range, byte_at.
  rewrite list_lookup_fmap, lookup_seqZ_lt by lia. simpl. f_equal. lia.
Qed.

(** Chunk sizes the index can be asked for. *)
Definition io_size_ok (max_io : Z) : Prop :=
  0 < max_io ∧ max_io mod ALIGNMENT = 0 ∧ max_io / ALIGNMENT < 2 ^ 32.

Section Chunks.
Context {I : Type} `{LogIndexSpec I} (idx : I) (lrs : list (list Z)) (max_io : Z).
Context (Hidx : li_wf idx) (Hio : io_size_ok max_io).

Lemma read_chunk_spec step curr buf_pos buf : 0 < step ≤ max_io → 0 ≤ curr →
  curr mod ALIGNMENT = 0 → curr + step < 2 ^ 64 → 0 ≤ buf_pos → buf_pos + step ≤ zlen buf →
  disk_readable lrs (li_view idx) curr (curr + step) →
  ∃ buf', read_mappings_into lrs
            (li_lookup idx (mkSeg (curr / ALIGNMENT) (wrap32 (div_ceil step ALIGNMENT))) []).1
            (curr / ALIGNMENT) (div_ceil step ALIGNMENT) step buf_pos buf = Ok buf'
    ∧ zlen buf' = zlen buf
    ∧ ∀ i, 0 ≤ i → byte_at buf' i = if (buf_pos <=? i) && (i <? buf_pos + step)
        then disk_byte lrs (li_view idx) (curr + (i - buf_pos)) else byte_at buf i.
Proof.
  intros Hs Hc Hal Hend Hp Hbuf Hr. destruct Hio as (Hio1 & Hio2 & Hio3).
  pose proof (div_ceil_bounds step ALIGNMENT ltac:(done)) as Hceil.
  assert (0 < div_ceil step ALIGNMENT < 2 ^ 32) by (unfold ALIGNMENT in *; dlia).
  unwrap. set (b := curr / ALIGNMENT) in *. set (cnt := div_ceil step ALIGNMENT) in *.
  assert (curr = b * ALIGNMENT) as Eb by (unfold b, ALIGNMENT in *; dlia).
  destruct (li_lookup_spec idx (mkSeg b cnt) []) as (out & -> & Hw & Hin & Hv); [done| |].
  { constructor; simpl; unfold b, ALIGNMENT in *; dlia. }
  simpl in Hin, Hv. simpl. unfold read_mappings_into.
  destruct (read_loop_spec lrs b (b + cnt) step buf_pos) with (ms := out) (cur := b) (buf := buf)
    as (buf' & E & Hl & Hb); [unfold b, ALIGNMENT in *; dlia|unfold ALIGNMENT in *; lia|done|done
    |done|lia|done| |].
  { rewrite <- Eb. eapply disk_readable_ext; [|exact Hr]. intros x Hx. symmetry. apply Hv.
    rewrite Eb in Hx. unfold ALIGNMENT in *. dlia. }
  exists buf'. split_and!; [done..|]. intros i Hi. rewrite Hb by done. rewrite Eb.
  unfold ALIGNMENT in *. bcases; try done. unfold disk_byte, ALIGNMENT.
  rewrite Hv by dlia. replace (b * 512 + (i - buf_pos)) with (i - buf_pos + b * 512) by lia. done.
Qed.

Lemma read_chunks_spec fuel : ∀ remaining curr buf_pos buf, (Z.to_nat remaining ≤ fuel)%nat →
  0 ≤ remaining → 0 ≤ curr → curr mod ALIGNMENT = 0 → curr + remaining < 2 ^ 64 →
  0 ≤ buf_pos → buf_pos + remaining ≤ zlen buf →
  disk_readable lrs (li_view idx) curr (curr + remaining) →
  ∃ buf', read_chunks fuel idx lrs max_io remaining curr buf_pos buf = Ok buf'
    ∧ zlen buf' = zlen buf
    ∧ ∀ i, 0 ≤ i → byte_at buf' i = if (buf_pos <=? i) && (i <? buf_pos + remaining)
        then disk_byte lrs (li_view idx) (curr + (i - buf_pos)) else byte_at buf i.
Proof.
  induction fuel as [|fuel IH]; intros remaining curr buf_pos buf Hf Hrem Hc Hal Hend Hp Hbuf Hr;
    cbn [read_chunks].
  - destruct (Z.leb_spec remaining 0); [|lia]. exists buf. split_and!; [done..|].
    intros i Hi. by bcases.
  - destruct (Z.leb_spec remaining 0).
    { exists buf. split_and!; [done..|]. intros i Hi. by bcases. }
    pose proof Hio as (Hio1 & Hio2 & _). set (step := Z.min remaining max_io).
    destruct (read_chunk_spec step curr buf_pos buf) as (buf1 & -> & Hl1 & Hb1);
      [unfold step; lia..| |].
    { eapply disk_readable_mono; [| |exact Hr]; unfold step; lia. }
    cbn [rbind]. destruct (decide (remaining ≤ max_io)).
    { replace (remaining - step) with 0 by (unfold step; lia).
      destruct fuel; simpl; exists buf1; (split_and!; [done..|]);
        by replace remaining with step by (unfold step; lia). }
    replace step with max_io in * by (unfold step; lia).
    destruct (IH (remaining - max_io) (curr + max_io) (buf_pos + max_io) buf1)
      as (buf2 & -> & Hl2 & Hb2); [lia..| |lia|lia|lia| |].
    { unfold ALIGNMENT in *. dlia. }
    { eapply disk_readable_mono; [| |exact Hr]; lia. }
    exists buf2. split_and!; [done|lia|]. intros i Hi. rewrite Hb2, Hb1 by done.
    bcases; try done. f_equal. lia.
Qed.

Lemma read_into_spec vsize offset dst : 0 ≤ offset → offset mod ALIGNMENT = 0 →
  zlen dst mod ALIGNMENT = 0 → vsize < 2 ^ 64 →
  disk_readable lrs (li_view idx) 0 vsize →
  let n := Z.max 0 (Z.min (zlen dst) (vsize - offset)) in
  read_into idx lrs vsize max_io offset dst
  = Ok (disk_range lrs (li_view idx) offset n ++ zdrop n dst, n).
Proof.
  intros Ho Hoa Hla Hvs Hr. cbv zeta. set (n := Z.max 0 (Z.min (zlen dst) (vsize - offset))).
  assert (n = 0 → Ok (dst, 0) = Ok (disk_range lrs (li_view idx) offset n ++ zdrop n dst, n)
    :> result lsmt_error _) as Hnone by by intros ->.
  pose proof (zlen_nonneg dst). unfold read_into, check_alignment, is_multiple_of.
  rewrite Hoa, Hla. cbn [Z.eqb andb ensure rbind].
  destruct (Z.leb_spec vsize offset); [apply Hnone; lia|].
  destruct (Z.eqb_spec (Z.min (zlen dst) (vsize - offset)) 0); [apply Hnone; lia|].
  replace (Z.min (zlen dst) (vsize - offset)) with n by lia.
  destruct (read_chunks_spec (Z.to_nat n) n offset 0 (ztake n dst)) as (buf & -> & Hl & Hb);
    [lia|lia|lia|done|lia|lia|rewrite zlen_ztake; lia| |].
  { eapply disk_readable_mono; [| |exact Hr]; lia. }
  cbn [rbind]. do 3 f_equal. rewrite zlen_ztake in Hl. apply bytes_ext.
  - rewrite zlen_disk_range by lia. lia.
  - intros p Hp. rewrite Hb, byte_at_disk_range by lia. bcases. f_equal. lia.
Qed.
End Chunks.
End Read.
