(* ===== verification/LsmtLog.v ===== *)
(** * The index log of a writable LSMT file

    Every mapping of a log-structured or hybrid layer is appended to the index
    file, directly or through the group-commit buffer.  The bytes already in
    the file followed by the buffered ones are the log; appending a mapping
    extends the log by its 16 bytes, whatever the buffering, and never fails
    while the cursor stays below the 64-bit range. *)

From S2P Require Import Prelude LsmtSegment LsmtFormat LsmtIndex LsmtLookup LsmtIo LsmtHelper.
From S2P Require Import LsmtFile.

Section Log.
Context `{UuidOps}.

(** ** Running computations *)

Lemma bind_ok {A B} (m : M A) (k : A → M B) f f' a :
  m f = (f', Ok a) → bind m k f = k a f'.
Proof. intros E. unfold bind. by rewrite E. Qed.
Lemma bind_get {B} (k : LSMTFile → M B) f : bind get k f = k f f.
Proof. done. Qed.
Lemma bind_modify {B} g (k : unit → M B) f : bind (modify g) k f = k tt (g f).
Proof. done. Qed.
Lemma bind_ret {A B} (a : A) (k : A → M B) f : bind (ret a) k f = k a f.
Proof. done. Qed.
Lemma bind_ensure {B} b e (k : unit → M B) f : b = true → bind (ensure_m b e) k f = k tt f.
Proof. by intros ->. Qed.
Lemma bind_lift_ok {A B} (a : A) (k : A → M B) f : bind (lift (Ok a)) k f = k a f.
Proof. done. Qed.

Lemma data_append_offset_ok f : rw_data_append_offset f mod ALIGNMENT = 0 →
  data_append_offset f = (f, Ok (rw_data_append_offset f)).
Proof.
  intros Ha. unfold data_append_offset. rewrite bind_get, bind_ensure; [done|].
  unfold is_multiple_of. lia.
Qed.

Lemma advance_data_ok f start len : rw_data_append_offset f = start → start + len < 2 ^ 64 →
  advance_data_append_offset start len f
  = (upd_cursors f (start + len) (rw_index_append_offset f), Ok tt).
Proof.
  intros <- Hb. unfold advance_data_append_offset, checked_add64, U64_MAX.
  destruct (Z.leb_spec (rw_data_append_offset f + len) (2 ^ 64 - 1)); [|lia].
  rewrite bind_get, bind_ensure; [done|lia].
Qed.

Lemma index_append_offset_ok f : rw_index_append_offset f mod MAPPING_SIZE = 0 →
  index_append_offset f = (f, Ok (rw_index_append_offset f)).
Proof.
  intros Ha. unfold index_append_offset. rewrite bind_get, bind_ensure; [done|].
  unfold is_multiple_of. lia.
Qed.

Lemma advance_index_ok f start len : rw_index_append_offset f = start → start + len < 2 ^ 64 →
  advance_index_append_offset start len f
  = (upd_cursors f (rw_data_append_offset f) (start + len), Ok tt).
Proof.
  intros <- Hb. unfold advance_index_append_offset, checked_add64, U64_MAX.
  destruct (Z.leb_spec (rw_index_append_offset f + len) (2 ^ 64 - 1)); [|lia].
  rewrite bind_get, bind_ensure; [done|lia].
Qed.

(** ** The log *)

(** The part of the state the log lives in. *)
Definition set_log (f : LSMTFile) (a : option (list Z)) (b : list DiskSegmentMapping) (c : Z)
  : LSMTFile :=
  mkLSMT (index f) (lower_layers f) (rw_data_file f) a (virtual_size_of f) (rw_tag f)
    (sealed f) (max_io_size f) (uuids f) (file_type f) (group_commit_size f) b
    (rw_data_append_offset f) c (append_digest f).

Definition log_bytes (a : option (list Z)) (b : list DiskSegmentMapping) : list Z :=
  match a with
  | Some file => zdrop HEADER_SIZE file ++ disks_bytes b
  | None => []
  end.

(** The index file ends at its cursor, which is aligned to mappings. *)
Definition log_ok (a : option (list Z)) (c : Z) : Prop :=
  ∃ file, a = Some file ∧ c = zlen file ∧ HEADER_SIZE ≤ c ∧ c mod MAPPING_SIZE = 0.

(** Where the cursor is once the buffer is flushed. *)
Definition log_end (b : list DiskSegmentMapping) (c : Z) : Z := c + MAPPING_SIZE * zlen b.

Lemma disks_bytes_cons m b : disks_bytes (m :: b) = disk_bytes m ++ disks_bytes b.
Proof. done. Qed.

Lemma zlen_disks_bytes b : zlen (disks_bytes b) = MAPPING_SIZE * zlen b.
Proof.
  induction b as [|m b IH]; [done|].
  rewrite disks_bytes_cons, zlen_app, disk_bytes_length, zlen_cons, IH. lia.
Qed.

Lemma disks_bytes_app b1 b2 : disks_bytes (b1 ++ b2) = disks_bytes b1 ++ disks_bytes b2.
Proof. unfold disks_bytes. by rewrite fmap_app, join_app. Qed.

Lemma disks_bytes_one m : disks_bytes [m] = disk_bytes m.
Proof. change (disks_bytes [m]) with (disk_bytes m ++ []). by rewrite app_nil_r. Qed.

Lemma disks_bytes_snoc b m : disks_bytes (b ++ [m]) = disks_bytes b ++ disk_bytes m.
Proof.
  rewrite disks_bytes_app. change (disks_bytes [m]) with (disk_bytes m ++ []). by rewrite app_nil_r.
Qed.

Lemma set_log_id f : set_log f (rw_index_file f) (group_commit_buf f) (rw_index_append_offset f) = f.
Proof. by destruct f. Qed.

Lemma append_index_bytes_ok f bytes a b c : log_ok a c → zlen bytes mod MAPPING_SIZE = 0 →
  c + zlen bytes < 2 ^ 64 →
  ∃ a' c', append_index_bytes bytes (set_log f a b c) = (set_log f a' b c', Ok tt)
    ∧ log_ok a' c' ∧ c' = c + zlen bytes
    ∧ ∀ b', log_bytes a' b' = log_bytes a [] ++ bytes ++ disks_bytes b'.
Proof.
  intros (file & -> & -> & Hh & Hc) Hb Hlen. unfold append_index_bytes.
  destruct (is_nil bytes) eqn:E.
  { destruct bytes; [|done]. exists (Some file), (zlen file). unfold ret.
    split_and!; [done|by exists file|rewrite zlen_nil; lia|].
    intros b'. simpl. by rewrite app_nil_r. }
  exists (Some (file ++ bytes)), (zlen file + zlen bytes). pose proof (zlen_nonneg bytes).
  rewrite bind_get. change (rw_index_file (set_log f (Some file) b (zlen file))) with (Some file).
  cbv iota beta. erewrite bind_ok by by apply index_append_offset_ok.
  rewrite bind_modify. cbn [set_log rw_index_append_offset]. rewrite file_write_end, advance_index_ok by (done || lia).
  split_and!; [done| |done|].
  - exists (file ++ bytes). rewrite zlen_app. unfold MAPPING_SIZE in *. split_and!; [done..|lia|dlia].
  - intros b'. unfold log_bytes. change (disks_bytes []) with (@nil Z). rewrite app_nil_r, app_assoc.
    f_equal. unfold zdrop, zlen, HEADER_SIZE in *. rewrite drop_app_le by lia. done.
Qed.

(** Without group commit nothing is buffered. *)
Definition group_ok (f : LSMTFile) (b : list DiskSegmentMapping) : Prop :=
  group_commit_size f = 0 → b = [].

Lemma log_bytes_split a c b : log_ok a c → log_bytes a b = log_bytes a [] ++ disks_bytes b.
Proof.
  intros (file & -> & _). unfold log_bytes. change (disks_bytes []) with (@nil Z). by rewrite app_nil_r.
Qed.

(** Appending one mapping, with or without group commit. *)
Lemma append_index_mapping_ok f m a b c : log_ok a c → group_ok f b →
  log_end b c + MAPPING_SIZE < 2 ^ 64 →
  ∃ a' b' c', append_index_mapping m (set_log f a b c) = (set_log f a' b' c', Ok tt)
    ∧ log_ok a' c' ∧ group_ok f b' ∧ log_end b' c' = log_end b c + MAPPING_SIZE
    ∧ log_bytes a' b' = log_bytes a b ++ disk_bytes m.
Proof.
  intros Hok Hg Hroom. unfold log_end in *. pose proof (zlen_nonneg b).
  unfold append_index_mapping. rewrite bind_get. cbn [set_log group_commit_size].
  destruct (Z.eqb_spec (group_commit_size f) 0) as [Hz|Hz].
  - rewrite (Hg Hz) in *. destruct (append_index_bytes_ok f (disk_bytes m) a [] c)
      as (a' & c' & E & Hok' & Ec & Hb); [done|..].
    { by rewrite disk_bytes_length. }
    { rewrite disk_bytes_length. unfold MAPPING_SIZE in *. lia. }
    exists a', [], c'. rewrite disk_bytes_length in Ec.
    split_and!; [exact E|done|done|change (zlen []) with 0 in *; lia|].
    rewrite (Hb []). change (disks_bytes []) with (@nil Z). by rewrite app_nil_r.
  - rewrite bind_modify, bind_get. cbn [set_log upd_group group_commit_buf group_commit_size].
    destruct (Z.leb_spec (Z.max (group_commit_size f / MAPPING_SIZE) 1) (zlen (b ++ [m]))).
    + destruct (append_index_bytes_ok f (disks_bytes (b ++ [m])) a (b ++ [m]) c)
        as (a' & c' & E & Hok' & Ec & Hb); [done|..].
      { rewrite zlen_disks_bytes, Z.mul_comm. by apply Z.mod_mul. }
      { rewrite zlen_disks_bytes, zlen_app, zlen_cons, zlen_nil. unfold MAPPING_SIZE in *. lia. }
      rewrite zlen_disks_bytes, zlen_app, zlen_cons, zlen_nil in Ec.
      exists a', [], c'. erewrite bind_ok by exact E. split_and!; [done..| |].
      * change (zlen []) with 0 in *. unfold MAPPING_SIZE in *. lia.
      * rewrite (Hb []), (log_bytes_split a c b), disks_bytes_snoc by done.
        change (disks_bytes []) with (@nil Z). by rewrite app_nil_r, app_assoc.
    + exists a, (b ++ [m]), c. split_and!; [done|done|by intros ?| |].
      * rewrite zlen_app, zlen_cons, zlen_nil. lia.
      * rewrite (log_bytes_split a c b), (log_bytes_split a c (b ++ [m])) by done.
        by rewrite disks_bytes_snoc, app_assoc.
Qed.

Lemma flush_group_commit_ok f a b c : log_ok a c → log_end b c < 2 ^ 64 →
  ∃ a', flush_group_commit (set_log f a b c) = (set_log f a' [] (log_end b c), Ok tt)
    ∧ log_ok a' (log_end b c) ∧ log_bytes a' [] = log_bytes a b.
Proof.
  intros Hok Hroom. unfold log_end in *. unfold flush_group_commit. rewrite bind_get.
  cbn [set_log upd_group group_commit_buf group_commit_size]. destruct b as [|m b].
  { exists a. change (zlen []) with 0. rewrite Z.mul_0_r, Z.add_0_r. done. }
  destruct (append_index_bytes_ok f (disks_bytes (m :: b)) a (m :: b) c)
    as (a' & c' & E & Hok' & Ec & Hb); [done|..].
  { rewrite zlen_disks_bytes, Z.mul_comm. by apply Z.mod_mul. }
  { by rewrite zlen_disks_bytes. }
  rewrite zlen_disks_bytes in Ec. rewrite <- Ec. exists a'.
  change (is_nil (m :: b)) with false. cbv iota. erewrite bind_ok by exact E.
  split_and!; [done..|]. rewrite (Hb []), (log_bytes_split a c (m :: b)) by done.
  change (disks_bytes []) with (@nil Z). by rewrite app_nil_r.
Qed.
End Log.
