(* ===== verification/LsmtWrite.v ===== *)
(** * Writing an LSMT file

    The invariant [wf_file] of an open writable file and the effect of writes
    and discards on the disk it presents: a write changes exactly the bytes it
    covers, a discard makes exactly its range read as zeros, for the
    log-structured, the sparse and the hybrid layout.  In the hybrid layout
    this rests on physical sectors never being shared by two logical ones, so
    that an in-place write cannot reach another sector. *)

From S2P Require Import Prelude LsmtSegment LsmtFormat LsmtIndex LsmtLookup LsmtIo LsmtHelper.
From S2P Require Import LsmtFile LsmtRead LsmtLog.

(** ** The writable layer *)

(** The byte at position [i] of the sector a mapping of the upper layer locates. *)
Definition up_byte (data : list Z) (l : Loc) (i : Z) : Z :=
  if loc_zeroed l then 0
  else match loc_phys l with
       | Some ph => byte_at data (ph * ALIGNMENT + i)
       | None => 0
       end.

(** Where the sectors of the upper layer may be stored. *)
Definition placed (ft : LSMTFileType) (size x ph : Z) : Prop :=
  match ft with
  | SparseReadWrite => ph = x + HEADER_SIZE / ALIGNMENT
  | _ => HEADER_SIZE / ALIGNMENT ≤ ph ∧ (ph + 1) * ALIGNMENT ≤ size
  end.

Record upper_ok (ft : LSMTFileType) (tg : Z) (up : list SegmentMapping) (size : Z) : Prop := {
  uo_wf : wf_index up;
  uo_tag : ∀ x l, view up x = Some l → loc_tag l = tg;
  uo_data : ∀ x l, view up x = Some l → loc_zeroed l = false → is_Some (loc_phys l);
  uo_place : ∀ x l ph, view up x = Some l → loc_phys l = Some ph → placed ft size x ph;
  uo_inj : ft = HybridReadWrite → ∀ x y lx ly ph, view up x = Some lx → view up y = Some ly →
    loc_phys lx = Some ph → loc_phys ly = Some ph → x = y
}.

(** Sectors [s .. e) get the bytes [new], everything else is untouched. *)
Definition rewrites (s e : Z) (new : Z → Z) (up : list SegmentMapping) (data : list Z)
  (up' : list SegmentMapping) (data' : list Z) : Prop :=
  (∀ x, s ≤ x < e → ∃ l, view up' x = Some l
     ∧ ∀ i, 0 ≤ i < ALIGNMENT → up_byte data' l i = new ((x - s) * ALIGNMENT + i))
  ∧ (∀ x, ¬ s ≤ x < e → view up' x = view up x
     ∧ ∀ l, view up x = Some l → ∀ i, 0 ≤ i < ALIGNMENT → up_byte data' l i = up_byte data l i).

Section Wf.
Context `{UuidOps}.

(** The lower layers and their merged index. *)
Definition lower_ok (lowers : list (list Z)) (lo : option (list SegmentMapping)) : Prop :=
  ∀ ms, lo = Some ms → wf_index ms ∧
    ∀ x l, view ms x = Some l → 0 ≤ loc_tag l < zlen lowers
      ∧ (loc_zeroed l = false → ∃ ph layer, loc_phys l = Some ph
           ∧ lowers !! Z.to_nat (loc_tag l) = Some layer ∧ (ph + 1) * ALIGNMENT ≤ zlen layer).

(** Cursor and size of the data file. *)
Definition data_ok (ft : LSMTFileType) (vsize : Z) (data : list Z) (cursor : Z) : Prop :=
  match ft with
  | ReadOnly => False
  | SparseReadWrite => HEADER_SIZE + vsize ≤ zlen data
  | _ => cursor = zlen data ∧ zlen data mod ALIGNMENT = 0 ∧ HEADER_SIZE ≤ zlen data
  end.

(** The digest, while it is tracked, is that of an append-only data file. *)
Definition digest_ok (ft : LSMTFileType) (data : list Z) (t : option AppendDigestTracker) : Prop :=
  ∀ t', t = Some t' → ft = ReadWrite ∧ hasher t' = data ∧ td_offset t' = zlen data.

Record wf_file (f : LSMTFile) : Prop := {
  wf_io : io_size_ok (max_io_size f);
  wf_vsize : 0 ≤ virtual_size_of f < 2 ^ 63;
  wf_rw_tag : rw_tag f = zlen (lower_layers f) ∧ rw_tag f < 2 ^ 8;
  wf_lowers : lower_ok (lower_layers f) (lower (index f));
  wf_upper : upper_ok (file_type f) (rw_tag f) (upper (index f)) (zlen (rw_data_file f));
  wf_data : data_ok (file_type f) (virtual_size_of f) (rw_data_file f) (rw_data_append_offset f);
  wf_digest : digest_ok (file_type f) (rw_data_file f) (append_digest f)
}.

(** The disk the file presents. *)
Definition disk (f : LSMTFile) (p : Z) : Z := disk_byte (layers f) (combo_view (index f)) p.

Lemma layer_upper f : rw_tag f = zlen (lower_layers f) →
  layers f !! Z.to_nat (rw_tag f) = Some (rw_data_file f).
Proof.
  intros ->. unfold layers, zlen. rewrite Nat2Z.id.
  rewrite lookup_app_r, Nat.sub_diag by lia. done.
Qed.

Lemma layer_lower f i : 0 ≤ i < zlen (lower_layers f) →
  layers f !! Z.to_nat i = lower_layers f !! Z.to_nat i.
Proof. intros Hi. unfold layers, zlen in *. apply lookup_app_l. lia. Qed.

(** Bytes of the disk, by layer. *)
Lemma disk_upper f p l : wf_file f → view (upper (index f)) (p / ALIGNMENT) = Some l →
  disk f p = up_byte (rw_data_file f) l (p mod ALIGNMENT).
Proof.
  intros Hf Hv. unfold disk, disk_byte, combo_view. rewrite Hv. simpl. unfold up_byte.
  rewrite (uo_tag _ _ _ _ (wf_upper f Hf) _ _ Hv), (layer_upper f (proj1 (wf_rw_tag f Hf))).
  by destruct (loc_phys l).
Qed.

Lemma disk_lower_eq f f' p : wf_file f → lower (index f') = lower (index f) →
  lower_layers f' = lower_layers f →
  view (upper (index f)) (p / ALIGNMENT) = None → view (upper (index f')) (p / ALIGNMENT) = None →
  disk f' p = disk f p.
Proof.
  intros Hf El Ell Hv Hv'. unfold disk, disk_byte, combo_view. rewrite Hv, Hv', El. simpl.
  destruct (lower (index f)) as [ms|] eqn:E; [|done].
  destruct (view ms (p / ALIGNMENT)) as [l|] eqn:Evl; [|done]. unfold loc_byte.
  destruct (wf_lowers f Hf ms E) as [_ Hlo]. destruct (Hlo _ _ Evl) as [Ht _].
  rewrite !layer_lower by (rewrite ?Ell; done). by rewrite Ell.
Qed.

(** A rewrite of the upper layer is a rewrite of the disk. *)
Lemma disk_rewrites f f' s e new : wf_file f → wf_file f' →
  lower (index f') = lower (index f) → lower_layers f' = lower_layers f →
  rewrites s e new (upper (index f)) (rw_data_file f) (upper (index f')) (rw_data_file f') →
  ∀ p, disk f' p = if (s * ALIGNMENT <=? p) && (p <? e * ALIGNMENT)
                   then new (p - s * ALIGNMENT) else disk f p.
Proof.
  intros Hf Hf' El Ell [Hin Hout] p.
  assert (0 ≤ p mod ALIGNMENT < ALIGNMENT) by (apply Z.mod_pos_bound; done).
  destruct (decide (s ≤ p / ALIGNMENT < e)) as [Hx|Hx].
  - destruct (Hin _ Hx) as (l & Hv & Hb). rewrite (disk_upper f' p l), Hb by done.
    unfold ALIGNMENT in *. bcases; [f_equal; dlia|dlia..].
  - destruct (Hout _ Hx) as [Hv Hb].
    assert ((s * ALIGNMENT <=? p) && (p <? e * ALIGNMENT) = false) as ->
      by (unfold ALIGNMENT in *; bcases; dlia).
    destruct (view (upper (index f)) (p / ALIGNMENT)) as [l|] eqn:E.
    + rewrite (disk_upper f' p l), (disk_upper f p l), Hb by (done || congruence). done.
    + by apply disk_lower_eq.
Qed.

(** A well-formed file is readable up to its virtual size. *)
Lemma wf_file_combo f : wf_file f → wf_combo (index f).
Proof.
  intros Hf. split; [apply (uo_wf _ _ _ _ (wf_upper f Hf))|].
  intros lo E. by destruct (wf_lowers f Hf lo E).
Qed.

Lemma wf_file_readable f : wf_file f →
  disk_readable (layers f) (combo_view (index f)) 0 (virtual_size_of f).
Proof.
  intros Hf p Hp l Hl Hz. unfold combo_view in Hl. pose proof (wf_rw_tag f Hf) as [Ht _].
  assert (0 ≤ p mod ALIGNMENT < ALIGNMENT) by (apply Z.mod_pos_bound; done).
  destruct (view (upper (index f)) (p / ALIGNMENT)) as [l'|] eqn:E.
  - injection Hl as ->. pose proof (wf_upper f Hf) as Hu.
    destruct (uo_data _ _ _ _ Hu _ _ E Hz) as [ph Eph].
    rewrite (uo_tag _ _ _ _ Hu _ _ E), layer_upper by done.
    exists ph, (rw_data_file f). split_and!; [done..|].
    pose proof (uo_place _ _ _ _ Hu _ _ _ E Eph) as Hpl. pose proof (wf_data f Hf) as Hd.
    unfold placed, data_ok, ALIGNMENT, HEADER_SIZE in *. destruct (file_type f); try lia.
    subst ph. change (4096 / 512) with 8. dlia.
  - simpl in Hl. destruct (lower (index f)) as [ms|] eqn:El; [|done].
    destruct (wf_lowers f Hf ms El) as [_ Hlo]. destruct (Hlo _ _ Hl) as [Htg Hb].
    destruct (Hb Hz) as (ph & layer & Eph & Elay & Hsz). exists ph, layer.
    rewrite layer_lower by done. split_and!; [done..|]. unfold ALIGNMENT in *. lia.
Qed.
End Wf.

(** ** Inserting one mapping into the upper layer *)

Lemma placed_mono ft size size' x ph : size ≤ size' → placed ft size x ph → placed ft size' x ph.
Proof. unfold placed. destruct ft; lia. Qed.

Lemma upper_insert ft tg up size size' m : upper_ok ft tg up size → wf_mapping m → tag m = tg →
  (zeroed m = false → has_physical_range m = true) → size ≤ size' →
  (has_physical_range m = true → ∀ x, covers m x = true →
     placed ft size' x (moffset m + (x - sm_offset m))) →
  (ft = HybridReadWrite → has_physical_range m = true → ∀ x y ly, covers m x = true →
     covers m y = false → view up y = Some ly →
     loc_phys ly ≠ Some (moffset m + (x - sm_offset m))) →
  upper_ok ft tg (mi_insert up m) size'.
Proof.
  intros [Hwf Htag Hdata Hpl Hinj] Hm Ht Hz Hsz Hp Hi.
  destruct (mi_insert_spec up m Hwf Hm) as [Hw Hv]. constructor; [done|..].
  - intros x l. rewrite Hv. destruct (covers m x); [|apply Htag]. by intros [= <-].
  - intros x l. rewrite Hv. destruct (covers m x); [|apply Hdata]. intros [= <-] E.
    simpl in *. rewrite Hz by done. by eexists.
  - intros x l ph. rewrite Hv. destruct (covers m x) eqn:Ec.
    + intros [= <-]. simpl. destruct (has_physical_range m) eqn:Ep; [|done].
      intros [= <-]. by apply Hp.
    + intros Ex Eph. eapply placed_mono; [exact Hsz|]. by eapply Hpl.
  - intros Eft x y lx ly ph. specialize (Hinj Eft). specialize (Hi Eft). rewrite !Hv.
    destruct (covers m x) eqn:Ex, (covers m y) eqn:Ey.
    + intros [= <-] [= <-]. simpl. destruct (has_physical_range m); [|done].
      intros [= <-] [= E]. lia.
    + intros [= <-] Hy. simpl. destruct (has_physical_range m); [|done]. intros [= <-] E.
      by destruct (Hi eq_refl x y ly).
    + intros Hx [= <-]. simpl. destruct (has_physical_range m); [|done]. intros E [= <-].
      by destruct (Hi eq_refl y x lx).
    + by apply Hinj.
Qed.

(** A single insertion as a rewrite. *)
Lemma rewrites_insert up data data' m new : wf_index up → wf_mapping m →
  (∀ x i, covers m x = true → 0 ≤ i < ALIGNMENT →
     up_byte data' (loc_at m x) i = new ((x - sm_offset m) * ALIGNMENT + i)) →
  (∀ x l i, covers m x = false → view up x = Some l → 0 ≤ i < ALIGNMENT →
     up_byte data' l i = up_byte data l i) →
  rewrites (sm_offset m) (sm_offset m + sm_length m) new up data (mi_insert up m) data'.
Proof.
  intros Hup Hm Hin Hout. destruct (mi_insert_spec up m Hup Hm) as [_ Hv]. split; intros x Hx.
  - exists (loc_at m x). apply covers_iff in Hx as Hc. rewrite Hv, Hc. split; [done|]. auto.
  - assert (covers m x = false) as Hc by (apply not_true_iff_false; by rewrite covers_iff).
    rewrite Hv, Hc. split; [done|]. intros l Hl i Hi. by eapply Hout.
Qed.

(** The data mapping of a chunk of [n] sectors stored from sector [base]. *)
Lemma data_mapping_wf s n base tg : 0 ≤ s → 0 < n < 2 ^ 32 → s + n < 2 ^ 64 → 0 ≤ base →
  base + n < NO_PHYSICAL_OFFSET → 0 ≤ tg < 2 ^ 8 →
  wf_mapping (sm_new s n base false tg) ∧ has_physical_range (sm_new s n base false tg) = true.
Proof.
  intros. unfold has_physical_range, sm_new. simpl. split; [|lia].
  constructor; unfold sm_offset, sm_length; simpl; lia.
Qed.

Lemma loc_at_data m x : has_physical_range m = true →
  loc_at m x = mkLoc (Some (moffset m + (x - sm_offset m))) (zeroed m) (tag m).
Proof. unfold loc_at. by intros ->. Qed.

Section Plain.
Context (tg s n : Z) (up : list SegmentMapping) (data chunk : list Z).
Context (Htg : 0 ≤ tg < 2 ^ 8) (Hs : 0 ≤ s) (Hn : 0 < n < 2 ^ 32) (Hend : s + n < 2 ^ 50).
Context (Hlen : zlen chunk = n * ALIGNMENT).

(** Log-structured: the chunk goes to the end of the data file. *)
Lemma log_chunk : upper_ok ReadWrite tg up (zlen data) → zlen data mod ALIGNMENT = 0 →
  HEADER_SIZE ≤ zlen data → zlen data + zlen chunk < 2 ^ 62 →
  let m := sm_new s n (zlen data / ALIGNMENT) false tg in
  wf_mapping m
  ∧ upper_ok ReadWrite tg (mi_insert up m) (zlen (data ++ chunk))
  ∧ rewrites s (s + n) (byte_at chunk) up data (mi_insert up m) (data ++ chunk).
Proof.
  intros Hup Hal Hh Hb m. unfold ALIGNMENT, HEADER_SIZE in *. pose proof (zlen_nonneg data).
  destruct (data_mapping_wf s n (zlen data / 512) tg) as [Hm Hp];
    [lia|lia|lia|dlia|unfold NO_PHYSICAL_OFFSET; dlia|lia|]. fold m in Hm, Hp.
  assert (∀ x, covers m x = true → s ≤ x < s + n) as Hc by (intros x; apply covers_iff).
  split_and!; [done| |].
  - eapply upper_insert; [exact Hup|done..|rewrite zlen_app; lia| |done].
    intros _ x Hx%Hc. unfold placed, HEADER_SIZE, ALIGNMENT, m, sm_offset. simpl.
    rewrite zlen_app. dlia.
  - apply (rewrites_insert up data (data ++ chunk) m); [apply (uo_wf _ _ _ _ Hup)|done|..].
    + intros x i Hx Hi. apply Hc in Hx. unfold up_byte. rewrite loc_at_data by done.
      change (moffset m) with (zlen data / 512). change (sm_offset m) with s.
      unfold ALIGNMENT in *. cbn [loc_zeroed loc_phys zeroed m]. rewrite byte_at_app by dlia.
      bcases; [dlia|]. f_equal. dlia.
    + intros x l i _ Hl Hi. unfold up_byte. destruct (loc_zeroed l); [done|].
      destruct (loc_phys l) as [ph|] eqn:Eph; [|done].
      pose proof (uo_place _ _ _ _ Hup _ _ _ Hl Eph) as Hpl.
      unfold placed, HEADER_SIZE, ALIGNMENT in *. rewrite byte_at_app by dlia. by bcases.
Qed.

(** Sparse: the chunk goes to its own place. *)
Lemma sparse_chunk : upper_ok SparseReadWrite tg up (zlen data) →
  let m := sm_new s n (s + HEADER_SIZE / ALIGNMENT) false tg in
  let data' := file_write data (HEADER_SIZE + s * ALIGNMENT) chunk in
  wf_mapping m
  ∧ upper_ok SparseReadWrite tg (mi_insert up m) (zlen data')
  ∧ rewrites s (s + n) (byte_at chunk) up data (mi_insert up m) data'.
Proof.
  intros Hup m data'. unfold ALIGNMENT, HEADER_SIZE in *. pose proof (zlen_nonneg data).
  destruct (data_mapping_wf s n (s + 8) tg) as [Hm Hp];
    [lia|lia|lia|lia|unfold NO_PHYSICAL_OFFSET; lia|lia|].
  change (sm_new s n (s + 8) false tg) with m in Hm, Hp.
  assert (∀ x, covers m x = true ↔ s ≤ x < s + n) as Hc by (intros x; apply covers_iff).
  split_and!; [done| |].
  - eapply upper_insert; [exact Hup|done..| | |done].
    + unfold data'. rewrite zlen_file_write by lia. destruct (is_nil chunk); lia.
    + intros _ x Hx%Hc. unfold placed, m, sm_offset, HEADER_SIZE, ALIGNMENT. simpl. lia.
  - apply (rewrites_insert up data data' m); [apply (uo_wf _ _ _ _ Hup)|done|..].
    + intros x i Hx Hi. apply Hc in Hx. unfold up_byte. rewrite loc_at_data by done.
      change (moffset m) with (s + 8). change (sm_offset m) with s.
      unfold data', ALIGNMENT in *. cbn [loc_zeroed loc_phys zeroed m].
      rewrite byte_at_file_write by lia. bcases. f_equal. lia.
    + intros x l i Hx Hl Hi. apply not_true_iff_false in Hx. rewrite Hc in Hx.
      unfold up_byte. destruct (loc_zeroed l); [done|].
      destruct (loc_phys l) as [ph|] eqn:Eph; [|done].
      pose proof (uo_place _ _ _ _ Hup _ _ _ Hl Eph) as ->.
      assert (wf_index up) as Hw by apply (uo_wf _ _ _ _ Hup).
      apply view_Some in Hl as (m' & Hm' & Hcov & _). apply covers_iff in Hcov.
      pose proof (elem_of_wf _ _ Hw Hm'). wf_facts.
      unfold data', HEADER_SIZE, ALIGNMENT in *. change (4096 / 512) with 8.
      rewrite byte_at_file_write by lia. by bcases.
Qed.

(** Discard outside the hybrid layout: a zero mapping without physical range.
    The data file may change inside the range of the sparse layout. *)
Lemma zero_chunk ft data' : ft = ReadWrite ∨ ft = SparseReadWrite → upper_ok ft tg up (zlen data) →
  zlen data' = zlen data →
  (∀ x ph i, placed ft (zlen data) x ph → ¬ s ≤ x < s + n → 0 ≤ x → 0 ≤ i < ALIGNMENT →
     byte_at data' (ph * ALIGNMENT + i) = byte_at data (ph * ALIGNMENT + i)) →
  let m := sm_new s n NO_PHYSICAL_OFFSET true tg in
  wf_mapping m
  ∧ upper_ok ft tg (mi_insert up m) (zlen data')
  ∧ rewrites s (s + n) (λ _, 0) up data (mi_insert up m) data'.
Proof.
  intros Hft Hup Hl' Hb m.
  assert (wf_mapping m) as Hm by (constructor; unfold sm_offset, sm_length, m; simpl; lia).
  assert (∀ x, covers m x = true ↔ s ≤ x < s + n) as Hc by (intros x; apply covers_iff).
  split_and!; [done| |].
  - eapply upper_insert; [exact Hup|done..|lia|done|]. by intros ->; destruct Hft.
  - apply (rewrites_insert up data data' m); [apply (uo_wf _ _ _ _ Hup)|done|done|].
    intros x l i Hx Hl Hi. apply not_true_iff_false in Hx. rewrite Hc in Hx.
    unfold up_byte. destruct (loc_zeroed l); [done|].
    destruct (loc_phys l) as [ph|] eqn:Eph; [|done].
    assert (wf_index up) as Hw by apply (uo_wf _ _ _ _ Hup).
    pose proof (uo_place _ _ _ _ Hup _ _ _ Hl Eph) as Hpl.
    apply view_Some in Hl as (m' & Hm' & Hcov & _). apply covers_iff in Hcov.
    pose proof (elem_of_wf _ _ Hw Hm'). wf_facts. eapply Hb; [done..|lia|done].
Qed.
End Plain.

(** ** One fragment of a hybrid write *)

Lemma upper_ok_mono ft tg up size size' : size ≤ size' → upper_ok ft tg up size →
  upper_ok ft tg up size'.
Proof.
  intros Hs [H1 H2 H3 H4 H5]. constructor; [done..| |done].
  intros x l ph Hl Hp. eapply placed_mono; eauto.
Qed.

Section Hybrid.
Context (tg s e : Z) (chunk : list Z) (U : list SegmentMapping) (D0 : list Z).
Context (Htg : 0 ≤ tg < 2 ^ 8) (Hs : 0 ≤ s) (He : s < e < 2 ^ 50) (Hlen : e - s < 2 ^ 32).
Context (Hchunk : zlen chunk = (e - s) * ALIGNMENT).
Context (HU : upper_ok HybridReadWrite tg U (zlen D0)).
Context (Hroom : zlen D0 + (e - s) * ALIGNMENT < 2 ^ 62).

(** Progress up to sector [cur] with the mappings [ins] still to be inserted. *)
Record hybrid_at (cur : Z) (D : list Z) (ins : list SegmentMapping) : Prop := {
  ha_range : s ≤ cur ≤ e;
  ha_align : zlen D mod ALIGNMENT = 0;
  ha_header : HEADER_SIZE ≤ zlen D;
  ha_grow : zlen D0 ≤ zlen D ≤ zlen D0 + (cur - s) * ALIGNMENT;
  ha_upper : upper_ok HybridReadWrite tg (fold_left mi_insert ins U) (zlen D);
  ha_head : ∀ p, 0 ≤ p < HEADER_SIZE → byte_at D p = byte_at D0 p;
  ha_wf : Forall (λ m, wf_mapping m ∧ s ≤ sm_offset m ∧ sm_offset m + sm_length m ≤ e
                       ∧ tag m = tg ∧ has_physical_range m = true) ins;
  ha_rewrites : rewrites s cur (byte_at chunk) U D0 (fold_left mi_insert ins U) D
}.

(** The bytes of the chunk for the sectors [cur .. cur + n). *)
Definition piece (cur n : Z) : list Z := slice ((cur - s) * ALIGNMENT) (n * ALIGNMENT) chunk.

Lemma zlen_piece cur n : s ≤ cur → 0 ≤ n → cur + n ≤ e → zlen (piece cur n) = n * ALIGNMENT.
Proof. intros. unfold piece. apply zlen_slice; unfold ALIGNMENT in *; lia. Qed.

Section Place.
Context (cur n base : Z) (D : list Z) (ins : list SegmentMapping).
Context (Hat : hybrid_at cur D ins) (Hn : 0 < n) (Hcn : cur + n ≤ e) (Hbase : 0 ≤ base).
Let W := fold_left mi_insert ins U.
Let D' := file_write D (base * ALIGNMENT) (piece cur n).

(** Either the sectors are new at the end of the file, or they are the ones
    the upper layer already holds for this range. *)
Definition fresh : Prop := base * ALIGNMENT = zlen D.
Definition owned : Prop := ∀ x, cur ≤ x < cur + n →
  ∃ l, view U x = Some l ∧ loc_phys l = Some (base + (x - cur)).

Lemma view_ahead x : cur ≤ x → view W x = view U x.
Proof. intros Hx. apply (ha_rewrites _ _ _ Hat). lia. Qed.

Lemma piece_byte p : 0 ≤ p →
  byte_at D' p = if (base * ALIGNMENT <=? p) && (p <? (base + n) * ALIGNMENT)
                 then byte_at chunk ((cur - s) * ALIGNMENT + (p - base * ALIGNMENT)) else byte_at D p.
Proof.
  intros Hp. destruct (ha_range _ _ _ Hat). unfold D'.
  rewrite byte_at_file_write, zlen_piece by (unfold ALIGNMENT in *; lia).
  unfold piece, ALIGNMENT in *. bcases; try done. by rewrite byte_at_slice by lia.
Qed.

Lemma place_untouched y ly ph i : fresh ∨ owned → ¬ cur ≤ y < cur + n → view W y = Some ly →
  loc_phys ly = Some ph → 0 ≤ i < ALIGNMENT →
  byte_at D' (ph * ALIGNMENT + i) = byte_at D (ph * ALIGNMENT + i).
Proof.
  intros Hor Hy Hv Hph Hi. pose proof (ha_upper _ _ _ Hat) as Hup.
  pose proof (uo_place _ _ _ _ Hup _ _ _ Hv Hph) as Hpl.
  unfold placed, HEADER_SIZE, ALIGNMENT in *. change (4096 / 512) with 8 in Hpl.
  rewrite piece_byte by (unfold ALIGNMENT; lia). unfold ALIGNMENT.
  destruct Hor as [Hfr|Hown].
  - unfold fresh, ALIGNMENT in Hfr. by bcases.
  - bcases; try done. exfalso. apply Hy.
    destruct (Hown (cur + (ph - base)) ltac:(lia)) as (l & Hl & Hlp).
    rewrite <- view_ahead in Hl by lia.
    replace (base + (cur + (ph - base) - cur)) with ph in Hlp by lia.
    rewrite (uo_inj _ _ _ _ Hup eq_refl _ _ _ _ _ Hv Hl Hph Hlp). lia.
Qed.

Lemma place_rewrites W' : fresh ∨ owned →
  (∀ x, cur ≤ x < cur + n → view W' x = Some (mkLoc (Some (base + (x - cur))) false tg)) →
  (∀ x, ¬ cur ≤ x < cur + n → view W' x = view W x) →
  rewrites s (cur + n) (byte_at chunk) U D0 W' D'.
Proof.
  intros Hor Hin Hout. destruct (ha_rewrites _ _ _ Hat) as [Rin Rout].
  pose proof (ha_range _ _ _ Hat).
  assert (∀ y ly i, ¬ cur ≤ y < cur + n → view W y = Some ly → 0 ≤ i < ALIGNMENT →
    up_byte D' ly i = up_byte D ly i) as Hsame.
  { intros y ly i Hy Hv Hi. unfold up_byte. destruct (loc_zeroed ly); [done|].
    destruct (loc_phys ly) as [ph|] eqn:E; [|done]. by eapply place_untouched. }
  split; intros x Hx.
  - destruct (decide (cur ≤ x)).
    + eexists. rewrite Hin by lia. split; [done|]. intros i Hi. unfold up_byte. simpl.
      unfold ALIGNMENT in *. rewrite piece_byte by (unfold ALIGNMENT; lia). unfold ALIGNMENT.
      bcases. f_equal. lia.
    + destruct (Rin x ltac:(lia)) as (l & Hl & Hb). exists l. rewrite Hout by lia.
      split; [done|]. intros i Hi. rewrite (Hsame x), Hb by (done || lia). done.
  - destruct (Rout x ltac:(lia)) as [Hv Hb]. rewrite Hout by lia. split; [done|].
    intros l Hl i Hi. assert (view W x = Some l) as HW by (unfold W; by rewrite Hv).
    rewrite (Hsame x), Hb by (done || lia). done.
Qed.

Lemma zlen_place : fresh ∨ owned →
  zlen D ≤ zlen D' ≤ zlen D + n * ALIGNMENT ∧ zlen D' mod ALIGNMENT = 0
  ∧ base + n < NO_PHYSICAL_OFFSET ∧ (base + n) * ALIGNMENT ≤ zlen D'.
Proof.
  intros Hor. destruct (ha_range _ _ _ Hat). pose proof (ha_align _ _ _ Hat) as Hal.
  pose proof (ha_grow _ _ _ Hat).
  assert (zlen D' = Z.max (zlen D) ((base + n) * ALIGNMENT)) as E.
  { unfold D'. rewrite zlen_file_write, zlen_piece by (unfold ALIGNMENT in *; lia).
    destruct (is_nil (piece cur n)) eqn:En; [|unfold ALIGNMENT; lia].
    assert (zlen (piece cur n) = n * ALIGNMENT) as Hp by (apply zlen_piece; lia).
    destruct (piece cur n); [|done]. unfold zlen, ALIGNMENT in Hp. simpl in Hp. lia. }
  unfold NO_PHYSICAL_OFFSET. rewrite E. destruct Hor as [Hfr|Hown].
  - unfold fresh, ALIGNMENT in *. split_and!; try lia. dlia.
  - destruct (Hown (cur + n - 1) ltac:(lia)) as (l & Hl & Hph).
    pose proof (uo_place _ _ _ _ HU _ _ _ Hl Hph) as Hpl. unfold placed, ALIGNMENT in *.
    rewrite Z.max_l by lia. split_and!; try lia.
Qed.

(** The header block is never touched. *)
Lemma place_head : fresh ∨ owned → ∀ p, 0 ≤ p < HEADER_SIZE → byte_at D' p = byte_at D0 p.
Proof.
  intros Hor p Hp. rewrite piece_byte, <- (ha_head _ _ _ Hat) by lia.
  assert (HEADER_SIZE ≤ base * ALIGNMENT) as Hb.
  { destruct Hor as [Hfr|Hown]; [rewrite Hfr; apply (ha_header _ _ _ Hat)|].
    destruct (Hown cur ltac:(lia)) as (l & Hl & Hph).
    pose proof (uo_place _ _ _ _ HU _ _ _ Hl Hph) as Hpl.
    unfold placed, HEADER_SIZE, ALIGNMENT in *. change (4096 / 512) with 8 in Hpl. lia. }
  by bcases.
Qed.

(** Owned sectors exist already: the file does not grow. *)
Lemma zlen_owned : owned → zlen D' = zlen D.
Proof.
  intros Hown. destruct (zlen_place (or_intror Hown)) as (Hz & _).
  destruct (ha_range _ _ _ Hat). pose proof (ha_grow _ _ _ Hat).
  destruct (Hown (cur + n - 1) ltac:(lia)) as (l & Hl & Hph).
  pose proof (uo_place _ _ _ _ HU _ _ _ Hl Hph) as Hpl. unfold D'.
  rewrite zlen_file_write, zlen_piece by (unfold ALIGNMENT in *; lia).
  unfold placed, ALIGNMENT in *. destruct (is_nil (piece cur n)); lia.
Qed.

(** Writing and publishing a mapping. *)
Lemma place_insert : fresh ∨ owned →
  hybrid_at (cur + n) D' (ins ++ [sm_new cur n base false tg]).
Proof.
  intros Hor. destruct (zlen_place Hor) as (Hz1 & Hz2 & Hz3 & Hz4).
  destruct (ha_range _ _ _ Hat). pose proof (ha_grow _ _ _ Hat). pose proof (ha_upper _ _ _ Hat) as Hup.
  destruct (data_mapping_wf cur n base tg) as [Hm Hp]; [lia..|].
  set (m := sm_new cur n base false tg) in *.
  assert (∀ x, covers m x = true ↔ cur ≤ x < cur + n) as Hc by (intros x; apply covers_iff).
  destruct (mi_insert_spec W m) as [_ Hv]; [apply (uo_wf _ _ _ _ Hup)|done|].
  pose proof (ha_header _ _ _ Hat).
  constructor; rewrite ?fold_left_app; cbn [fold_left]; [lia|done|lia|lia| |by apply place_head| |].
  - eapply upper_insert; [exact Hup|done..|lia| |].
    + intros _ x Hx%Hc. change (moffset m) with base. change (sm_offset m) with cur.
      destruct Hor as [Hfr|Hown].
      * unfold placed, fresh, HEADER_SIZE, ALIGNMENT in *.
        pose proof (ha_header _ _ _ Hat). dlia.
      * destruct (Hown x Hx) as (l & Hl & Hph). eapply placed_mono; [|by eapply (uo_place _ _ _ _ HU)]. lia.
    + intros _ _ x y ly Hx Hy Hly E. apply Hc in Hx.
      assert (¬ cur ≤ y < cur + n) as Hy' by (rewrite <- Hc; congruence).
      change (moffset m) with base in E. change (sm_offset m) with cur in E.
      destruct Hor as [Hfr|Hown].
      * pose proof (uo_place _ _ _ _ Hup _ _ _ Hly E) as Hpl.
        unfold placed, fresh, ALIGNMENT in *. lia.
      * destruct (Hown x Hx) as (l & Hl & Hph). rewrite <- view_ahead in Hl by lia.
        apply Hy'. by rewrite (uo_inj _ _ _ _ Hup eq_refl _ _ _ _ _ Hly Hl E Hph).
  - apply Forall_app. split; [apply (ha_wf _ _ _ Hat)|]. constructor; [|done].
    change (sm_offset m) with cur. change (sm_length m) with n. split_and!; [done|lia|lia|done|done].
  - apply place_rewrites; [done|..]; intros x Hx; rewrite Hv.
    + apply Hc in Hx. rewrite Hx, loc_at_data by done. done.
    + destruct (covers m x) eqn:E; [|done]. apply Hc in E. lia.
Qed.

(** Writing in place under the existing data mapping. *)
Lemma place_in_place :
  (∀ x, cur ≤ x < cur + n → view U x = Some (mkLoc (Some (base + (x - cur))) false tg)) →
  hybrid_at (cur + n) D' ins.
Proof.
  intros Hd. assert (fresh ∨ owned) as Hor.
  { right. intros x Hx. eexists. rewrite Hd by done. done. }
  destruct (zlen_place Hor) as (Hz1 & Hz2 & _ & _).
  destruct (ha_range _ _ _ Hat). pose proof (ha_grow _ _ _ Hat).
  pose proof (ha_header _ _ _ Hat). constructor; [lia|done|lia|lia| |by apply place_head| |].
  - eapply upper_ok_mono; [|apply (ha_upper _ _ _ Hat)]. lia.
  - apply (ha_wf _ _ _ Hat).
  - apply place_rewrites; [done| |done]. intros x Hx. rewrite view_ahead by lia. auto.
Qed.
End Place.

Lemma hybrid_start : zlen D0 mod ALIGNMENT = 0 → HEADER_SIZE ≤ zlen D0 → hybrid_at s D0 [].
Proof.
  intros Hal Hh. constructor; [lia|done|done|lia|done|done|done|]. split; [lia|]. done.
Qed.
End Hybrid.

(** ** Running the plan of a hybrid write *)
Section Run.
Context `{UuidOps} (f : LSMTFile) (s e : Z) (chunk : list Z).
Let tg := rw_tag f.
Let U := upper (index f).
Let D0 := rw_data_file f.
Context (Htg : 0 ≤ tg < 2 ^ 8) (Hs : 0 ≤ s) (He : s < e < 2 ^ 50) (Hlen : e - s < 2 ^ 32).
Context (Hchunk : zlen chunk = (e - s) * ALIGNMENT).
Context (HU : upper_ok HybridReadWrite tg U (zlen D0)).
Context (Hroom : zlen D0 + (e - s) * ALIGNMENT < 2 ^ 62).

(** The state while the fragments run: data file, its cursor and the log. *)
Definition running (D : list Z) (a : option (list Z)) (b : list DiskSegmentMapping) (c : Z)
  : LSMTFile :=
  mkLSMT (index f) (lower_layers f) D a (virtual_size_of f) (rw_tag f)
    (sealed f) (max_io_size f) (uuids f) (file_type f) (group_commit_size f) b
    (zlen D) c (append_digest f).

(** Log state with room for [k] more mappings. *)
Definition log_room (a : option (list Z)) (b : list DiskSegmentMapping) (c k : Z) : Prop :=
  log_ok a c ∧ group_ok f b ∧ log_end b c + MAPPING_SIZE * k < 2 ^ 64.

Lemma append_mapping_running D a b c m k : 1 ≤ k → log_room a b c k →
  ∃ a' b' c', append_index_mapping m (running D a b c) = (running D a' b' c', Ok tt)
    ∧ log_room a' b' c' (k - 1) ∧ log_bytes a' b' = log_bytes a b ++ disk_bytes m.
Proof.
  intros Hk (Hok & Hg & Hr).
  destruct (append_index_mapping_ok (running D a b c) m a b c) as (a' & b' & c' & E & Hok' & Hg' & He' & Hb');
    [done|done|unfold MAPPING_SIZE in *; lia|].
  exists a', b', c'. split; [exact E|]. split; [|done]. split_and!; [done|exact Hg'|].
  rewrite He'. unfold MAPPING_SIZE in *. lia.
Qed.

Lemma data_mapping_eq D a b c cur n ph : 0 ≤ n < 2 ^ 32 →
  data_mapping (running D a b c) (cur * ALIGNMENT) (n * ALIGNMENT) (ph * ALIGNMENT)
  = sm_new cur n ph false tg.
Proof.
  intros Hn. unfold data_mapping. rewrite !Z.div_mul by done.
  change (rw_tag (running D a b c)) with tg. by unwrap.
Qed.

(** [next_append_offset] is the end of the data file whenever it is known. *)
Definition next_ok (next : option Z) (D : list Z) : Prop := next = None ∨ next = Some (zlen D).

Lemma run_append next D a b c k cur nxt : next_ok next D → 1 ≤ k → log_room a b c k →
  s ≤ cur < nxt → nxt ≤ e → zlen D mod ALIGNMENT = 0 → zlen D ≤ zlen D0 + (cur - s) * ALIGNMENT →
  let n := nxt - cur in
  let base := zlen D / ALIGNMENT in
  let D' := file_write D (base * ALIGNMENT) (piece s chunk cur n) in
  let m := sm_new cur n base false tg in
  ∃ a' b' c', run_fragment chunk next (Append (cur * ALIGNMENT) ((cur - s) * ALIGNMENT) (n * ALIGNMENT))
                (running D a b c) = (running D' a' b' c', Ok ([m], Some (zlen D')))
    ∧ log_room a' b' c' (k - 1) ∧ log_bytes a' b' = log_bytes a b ++ disk_bytes (to_disk m).
Proof.
  intros Hnext Hk Hlog Hcur Hnxt Hal Hgrow n base D' m.
  assert (base * ALIGNMENT = zlen D) as Eb by (unfold base, ALIGNMENT in *; dlia).
  assert (zlen (piece s chunk cur n) = n * ALIGNMENT) as Hp
    by (apply zlen_slice; unfold n, ALIGNMENT in *; lia).
  assert (zlen D' = zlen D + n * ALIGNMENT) as HD'.
  { unfold D'. rewrite Eb, file_write_end, zlen_app. lia. }
  destruct (append_mapping_running D' a b c (to_disk m) k) as (a' & b' & c' & E & Hlog' & Hb'); [done..|].
  exists a', b', c'. split; [|done]. unfold run_fragment.
  assert ((match next with Some o => ret o | None => data_append_offset end) (running D a b c)
          = (running D a b c, Ok (zlen D))) as E1.
  { destruct Hnext as [->| ->]; [by apply data_append_offset_ok|done]. }
  erewrite bind_ok by exact E1. unfold write_data. rewrite bind_modify.
  erewrite bind_ok by (apply advance_data_ok; [done|unfold n, ALIGNMENT in *; lia]).
  rewrite bind_get. unfold checked_add64, U64_MAX.
  match goal with |- bind (append_index_mapping (to_disk (data_mapping ?st _ _ _))) _ _ = _ =>
    assert (st = running D' a b c) as ->
  end.
  { unfold running, upd_data, upd_cursors. simpl. f_equal; [|lia].
    change (slice ((cur - s) * ALIGNMENT) (n * ALIGNMENT) chunk) with (piece s chunk cur n).
    unfold D'. by rewrite Eb. }
  assert (data_mapping (running D' a b c) (cur * ALIGNMENT) (n * ALIGNMENT) (zlen D) = m) as ->.
  { rewrite <- Eb. apply data_mapping_eq. unfold n. lia. }
  erewrite bind_ok by exact E. rewrite <- HD'.
  bcases; [|unfold n, ALIGNMENT in *; lia]. done.
Qed.

Lemma run_reuse next D a b c k cur n base : 1 ≤ k → log_room a b c k → 0 ≤ n < 2 ^ 32 →
  let D' := file_write D (base * ALIGNMENT) (piece s chunk cur n) in
  let m := sm_new cur n base false tg in
  zlen D' = zlen D →
  ∃ a' b' c', run_fragment chunk next
                (ReuseZero (cur * ALIGNMENT) ((cur - s) * ALIGNMENT) (n * ALIGNMENT) (base * ALIGNMENT))
                (running D a b c) = (running D' a' b' c', Ok ([m], next))
    ∧ log_room a' b' c' (k - 1) ∧ log_bytes a' b' = log_bytes a b ++ disk_bytes (to_disk m).
Proof.
  intros Hk Hlog Hn D' m HD'.
  destruct (append_mapping_running D' a b c (to_disk m) k) as (a' & b' & c' & E & Hlog' & Hb'); [done..|].
  exists a', b', c'. split; [|done]. unfold run_fragment, write_data. rewrite bind_modify, bind_get.
  match goal with |- bind (append_index_mapping (to_disk (data_mapping ?st _ _ _))) _ _ = _ =>
    assert (st = running D' a b c) as ->
  end.
  { unfold running, upd_data. simpl. f_equal. by rewrite HD'. }
  rewrite data_mapping_eq by done. fold m. by erewrite bind_ok by exact E.
Qed.

Lemma run_in_place next D a b c cur n base :
  let D' := file_write D (base * ALIGNMENT) (piece s chunk cur n) in
  zlen D' = zlen D →
  run_fragment chunk next (InPlace ((cur - s) * ALIGNMENT) (n * ALIGNMENT) (base * ALIGNMENT))
    (running D a b c) = (running D' a b c, Ok ([], next)).
Proof.
  intros D' HD'. unfold run_fragment, write_data. rewrite bind_modify. unfold ret. f_equal.
  unfold running, upd_data. simpl. f_equal. by rewrite HD'.
Qed.

Lemma run_fragments_cons next fr frs g g1 g2 ms1 ms2 next1 :
  run_fragment chunk next fr g = (g1, Ok (ms1, next1)) →
  run_fragments chunk next1 frs g1 = (g2, Ok ms2) →
  run_fragments chunk next (fr :: frs) g = (g2, Ok (ms1 ++ ms2)).
Proof.
  intros E1 E2. cbn [run_fragments]. erewrite bind_ok by exact E1. by erewrite bind_ok by exact E2.
Qed.

(** Everything that describes a point of the run. *)
Record at_point (cur : Z) (next : option Z) (D : list Z) (ins : list SegmentMapping)
  (a : option (list Z)) (b : list DiskSegmentMapping) (c k : Z) : Prop := {
  ap_at : hybrid_at tg s e chunk U D0 cur D ins;
  ap_next : next_ok next D;
  ap_log : log_room a b c k
}.

(** A fragment [fr] that carries the run from [cur] to [nxt]. *)
Definition carries (fr : WriteFragment) (cur nxt : Z) : Prop :=
  ∀ next D ins a b c k, 0 ≤ k → at_point cur next D ins a b c (k + (nxt - cur)) →
  ∃ next' D' new a' b' c', run_fragment chunk next fr (running D a b c)
                           = (running D' a' b' c', Ok (new, next'))
    ∧ at_point nxt next' D' (ins ++ new) a' b' c' k
    ∧ log_bytes a' b' = log_bytes a b ++ disks_bytes (to_disk <$> new).

Lemma log_room_weaken a b c k k' : k' ≤ k → log_room a b c k → log_room a b c k'.
Proof. intros Hk (? & ? & ?). split_and!; [done..|]. unfold MAPPING_SIZE in *. lia. Qed.

Lemma carries_append cur nxt : s ≤ cur < nxt → nxt ≤ e → carries (append_fragment s cur nxt) cur nxt.
Proof.
  intros Hcur Hnxt next D ins a b c k Hk [Hat Hnext Hlog].
  pose proof (ha_align _ _ _ _ _ _ _ _ _ Hat) as Hal. pose proof (ha_grow _ _ _ _ _ _ _ _ _ Hat) as Hg.
  destruct (run_append next D a b c (k + (nxt - cur)) cur nxt) as (a' & b' & c' & E & Hlog' & Hb);
    [done|lia|done|done|done|done|lia|].
  do 6 eexists. split; [exact E|]. split; [|by rewrite Hb, <- disks_bytes_one].
  constructor; [|by right|by eapply log_room_weaken; [|exact Hlog']; lia].
  replace nxt with (cur + (nxt - cur)) at 1 by lia. pose proof (zlen_nonneg D).
  apply place_insert; [done..|lia|lia|unfold ALIGNMENT; dlia|].
  left. unfold fresh, ALIGNMENT in *. dlia.
Qed.

(** The fragment planned for a stored range. *)
Definition body_fragment (m : SegmentMapping) : result lsmt_error WriteFragment :=
  let data_offset := (sm_offset m - s) * ALIGNMENT in
  let len := sm_length m * ALIGNMENT in
  if zeroed m && negb (has_physical_range m)
  then Ok (Append (sm_offset m * ALIGNMENT) data_offset len)
  else match checked_add64 (moffset m) (sm_offset m - sm_offset m) with
       | None => Err PhysicalOverflow
       | Some blk =>
           let phys_offset := wrap64 (blk * ALIGNMENT) in
           Ok (if zeroed m
               then ReuseZero (sm_offset m * ALIGNMENT) data_offset len phys_offset
               else InPlace data_offset len phys_offset)
       end.

Lemma carries_body m : wf_mapping m → s ≤ sm_offset m → sm_offset m + sm_length m ≤ e →
  (∀ x, covers m x = true → view U x = Some (loc_at m x)) →
  ∃ fr, body_fragment m = Ok fr ∧ carries fr (sm_offset m) (sm_offset m + sm_length m).
Proof.
  intros Hm Hso Hse Hv. wf_facts. unfold body_fragment.
  set (off := sm_offset m) in *. set (n := sm_length m) in *.
  assert (∀ x, off ≤ x < off + n → view U x = Some (loc_at m x)) as Hv'
    by (intros x Hx; apply Hv; by apply covers_iff).
  destruct (has_physical_range m) eqn:Hp; cycle 1.
  - assert (zeroed m = true) as ->.
    { destruct (zeroed m) eqn:Hz; [done|].
      destruct (uo_data _ _ _ _ HU off (loc_at m off)) as [ph E]; [apply Hv'; lia|done|].
      unfold loc_at in E. by rewrite Hp in E. }
    simpl. eexists. split; [done|].
    replace (Append (off * ALIGNMENT) ((off - s) * ALIGNMENT) (n * ALIGNMENT))
      with (append_fragment s off (off + n)) by (unfold append_fragment; do 2 f_equal; lia).
    apply carries_append; lia.
  - rewrite andb_false_r. assert (0 ≤ moffset m < 2 ^ 55 - 1) as Hmo.
    { unfold has_physical_range, NO_PHYSICAL_OFFSET in *. lia. }
    unfold checked_add64, U64_MAX. rewrite Z.sub_diag, Z.add_0_r.
    destruct (Z.leb_spec (moffset m) (2 ^ 64 - 1)); [|lia].
    rewrite wrap64_small by (unfold ALIGNMENT; lia). eexists. split; [done|].
    intros next D ins a b c k Hk [Hat Hnext Hlog].
    assert (∀ x, off ≤ x < off + n →
      view U x = Some (mkLoc (Some (moffset m + (x - off))) (zeroed m) tg)) as Hv2.
    { intros x Hx. rewrite Hv', loc_at_data by done. f_equal. f_equal.
      change (tag m) with (loc_tag (loc_at m x)). by apply (uo_tag _ _ _ _ HU x), Hv'. }
    assert (owned U off n (moffset m)) as Hown.
    { intros x Hx. eexists. by rewrite Hv2. }
    assert (zlen (file_write D (moffset m * ALIGNMENT) (piece s chunk off n)) = zlen D) as HD'.
    { eapply zlen_owned with (tg := tg) (ins := ins); [..|exact Hown]; first [eassumption|lia]. }
    destruct (zeroed m) eqn:Hz.
    + destruct (run_reuse next D a b c (k + (off + n - off)) off n (moffset m))
        as (a' & b' & c' & E & Hlog' & Hb); [lia|done|lia|done|].
      do 6 eexists. split; [exact E|]. split; [|by rewrite Hb, <- disks_bytes_one].
      constructor; [|by destruct Hnext as [->| ->]; [left|right; rewrite HD']
                    |by eapply log_room_weaken; [|exact Hlog']; lia].
      apply place_insert; [done..|lia|lia|lia|by right].
    + exists next, (file_write D (moffset m * ALIGNMENT) (piece s chunk off n)), [], a, b, c.
      split; [by apply run_in_place|]. split; [|simpl; by rewrite app_nil_r].
      rewrite app_nil_r. constructor; [|by destruct Hnext as [->| ->]; [left|right; rewrite HD']
                    |by eapply log_room_weaken; [|exact Hlog]; lia].
      apply place_in_place; [done..|lia|lia|lia|done].
Qed.

(** A run of fragments, composed with what follows it. *)
Lemma carries_then fr cur nxt next D ins a b c k : carries fr cur nxt → 0 ≤ k →
  at_point cur next D ins a b c (k + (nxt - cur)) →
  ∃ next' D' new a' b' c', at_point nxt next' D' (ins ++ new) a' b' c' k
    ∧ log_bytes a' b' = log_bytes a b ++ disks_bytes (to_disk <$> new)
    ∧ ∀ frs g ms, run_fragments chunk next' frs (running D' a' b' c') = (g, Ok ms) →
        run_fragments chunk next (fr :: frs) (running D a b c) = (g, Ok (new ++ ms)).
Proof.
  intros Hc Hk Hat. destruct (Hc _ _ _ _ _ _ _ Hk Hat) as (next' & D' & new & a' & b' & c' & E & Hat' & Hb).
  exists next', D', new, a', b', c'. split_and!; [done..|]. intros frs g ms. by apply run_fragments_cons.
Qed.

(** An optional append up to [nxt]. *)
Lemma gap_then cur nxt next D ins a b c k : s ≤ cur ≤ nxt → nxt ≤ e → 0 ≤ k →
  at_point cur next D ins a b c (k + (nxt - cur)) →
  ∃ next' D' new a' b' c', at_point nxt next' D' (ins ++ new) a' b' c' k
    ∧ log_bytes a' b' = log_bytes a b ++ disks_bytes (to_disk <$> new)
    ∧ ∀ frs g ms, run_fragments chunk next' frs (running D' a' b' c') = (g, Ok ms) →
        run_fragments chunk next ((if cur <? nxt then [append_fragment s cur nxt] else []) ++ frs)
          (running D a b c) = (g, Ok (new ++ ms)).
Proof.
  intros Hcur Hnxt Hk Hat. destruct (Z.ltb_spec cur nxt).
  - apply (carries_then _ cur); [apply carries_append; lia|done..].
  - assert (nxt = cur) as -> by lia. exists next, D, [], a, b, c. rewrite !app_nil_r.
    replace (k + (cur - cur)) with k in Hat by lia. done.
Qed.

Lemma run_plan ms : ∀ cur next D ins a b c k, s ≤ cur ≤ e → 0 ≤ k → tiles (view U) cur e ms →
  at_point cur next D ins a b c (k + (e - cur)) →
  ∃ frs next' D' new a' b' c', plan_loop s e cur ms = Ok frs
    ∧ run_fragments chunk next frs (running D a b c) = (running D' a' b' c', Ok new)
    ∧ at_point e next' D' (ins ++ new) a' b' c' k
    ∧ log_bytes a' b' = log_bytes a b ++ disks_bytes (to_disk <$> new).
Proof.
  induction ms as [|m ms IH]; intros cur next D ins a b c k Hcur Hk Ht Hat; cbn [plan_loop].
  - destruct (gap_then cur e next D ins a b c k) as (next' & D' & new & a' & b' & c' & Hat' & Hb & Hrun);
      [lia|lia|done|done|].
    eexists _, next', D', new, a', b', c'. split_and!; [done| |done|done].
    specialize (Hrun [] _ [] eq_refl). by rewrite !app_nil_r in Hrun.
  - apply tiles_cons in Ht as (Hm & Ho & Hoe & Hv & Ht). wf_facts.
    destruct (carries_body m) as (fr & Ef & Hfr); [done|lia|done|done|].
    destruct (gap_then cur (sm_offset m) next D ins a b c (k + (e - sm_offset m)))
      as (n1 & D1 & new1 & a1 & b1 & c1 & Hat1 & Hb1 & Hrun1); [lia|lia|lia|..].
    { replace (k + (e - sm_offset m) + (sm_offset m - cur)) with (k + (e - cur)) by lia. done. }
    destruct (carries_then _ _ _ n1 D1 (ins ++ new1) a1 b1 c1 (k + (e - (sm_offset m + sm_length m))) Hfr)
      as (n2 & D2 & new2 & a2 & b2 & c2 & Hat2 & Hb2 & Hrun2); [lia|..].
    { replace (_ + _) with (k + (e - sm_offset m)) by lia. done. }
    destruct (IH (sm_offset m + sm_length m) n2 D2 ((ins ++ new1) ++ new2) a2 b2 c2 k)
      as (frs & n3 & D3 & new3 & a3 & b3 & c3 & Ep & E3 & Hat3 & Hb3); [lia|done|done|done|].
    exists ((if cur <? sm_offset m then [append_fragment s cur (sm_offset m)] else []) ++ fr :: frs),
      n3, D3, (new1 ++ new2 ++ new3), a3, b3, c3.
    rewrite Z.max_r, sm_end_wf, Z.min_l by (done || lia).
    destruct (Z.leb_spec e (sm_offset m)); [lia|].
    destruct (Z.leb_spec (sm_offset m + sm_length m) (sm_offset m)); [lia|].
    unfold body_fragment in Ef.
    replace (sm_offset m + sm_length m - sm_offset m) with (sm_length m) by lia.
    rewrite Ef. cbn [rbind]. rewrite Ep. split_and!; [done|by apply Hrun1, Hrun2| |].
    + by rewrite !app_assoc.
    + by rewrite Hb3, Hb2, Hb1, !fmap_app, !disks_bytes_app, !app_assoc.
Qed.
End Run.
