(* ===== verification/LsmtDisk.v ===== *)
(** * The disk a writable LSMT file presents

    Theorems about the public operations of the writable file: reads return
    the disk, a write changes exactly the bytes it covers, a discard zeroes
    exactly its range, and each of them extends the index log by the mappings
    it puts into the index. *)

From S2P Require Import Prelude LsmtSegment LsmtFormat LsmtIndex LsmtLookup LsmtIo LsmtHelper.
From S2P Require Import LsmtFile LsmtRead LsmtLog LsmtWrite.

Section Disk.
Context `{UuidOps}.

(** ** What an operation may change *)

Definition log_of (f : LSMTFile) : list Z := log_bytes (rw_index_file f) (group_commit_buf f).

Definition log_at (f : LSMTFile) (k : Z) : Prop :=
  log_room f (rw_index_file f) (group_commit_buf f) (rw_index_append_offset f) k.

(** Room for [k] more sectors, and mappings, in the files of the layer. *)
Definition has_room (f : LSMTFile) (k : Z) : Prop :=
  file_type f ≠ SparseReadWrite → zlen (rw_data_file f) + k * ALIGNMENT < 2 ^ 62 ∧ log_at f k.

(** Mappings a write or a discard produces. *)
Definition storable (f : LSMTFile) (m : SegmentMapping) : Prop :=
  wf_mapping m ∧ sm_offset m + sm_length m < 2 ^ 50
  ∧ sm_length m ≤ Z.max (max_io_size f / ALIGNMENT) MAX_LENGTH
  ∧ tag m = rw_tag f ∧ zeroed m || has_physical_range m = true.

(** [f'] is [f] with the mappings [ms] inserted and logged. *)
Record extends (f f' : LSMTFile) (ms : list SegmentMapping) : Prop := {
  ex_lower : lower (index f') = lower (index f);
  ex_upper : upper (index f') = fold_left mi_insert ms (upper (index f));
  ex_layers : lower_layers f' = lower_layers f;
  ex_vsize : virtual_size_of f' = virtual_size_of f;
  ex_tag : rw_tag f' = rw_tag f;
  ex_sealed : sealed f' = sealed f;
  ex_io : max_io_size f' = max_io_size f;
  ex_type : file_type f' = file_type f;
  ex_group : group_commit_size f' = group_commit_size f;
  ex_head : ∀ p, 0 ≤ p < HEADER_SIZE → byte_at (rw_data_file f') p = byte_at (rw_data_file f) p;
  ex_storable : Forall (storable f) ms;
  ex_log : file_type f ≠ SparseReadWrite → log_of f' = log_of f ++ disks_bytes (to_disk <$> ms)
}.

Lemma extends_refl f : extends f f [].
Proof. constructor; try done. intros _. by rewrite app_nil_r. Qed.

Lemma extends_trans f g h ms1 ms2 : extends f g ms1 → extends g h ms2 → extends f h (ms1 ++ ms2).
Proof.
  intros [] [Hlo Hup Hla Hv Ht Hs Hio Hty Hgr Hhd Hst Hlog]. constructor; try congruence.
  - by rewrite fold_left_app, Hup, ex_upper0.
  - intros p Hp. by rewrite Hhd, ex_head0.
  - apply Forall_app. split; [done|]. eapply Forall_impl; [exact Hst|]. intros m.
    unfold storable. by rewrite ex_io0, ex_tag0.
  - intros Hn. rewrite Hlog, ex_log0, fmap_app, disks_bytes_app, app_assoc by congruence. done.
Qed.

Lemma wf_extends f f' ms : wf_file f → extends f f' ms →
  upper_ok (file_type f) (rw_tag f) (upper (index f')) (zlen (rw_data_file f')) →
  data_ok (file_type f) (virtual_size_of f) (rw_data_file f') (rw_data_append_offset f') →
  digest_ok (file_type f) (rw_data_file f') (append_digest f') → wf_file f'.
Proof.
  intros [] [] Hup Hd Hg.
  constructor; by rewrite ?ex_io0, ?ex_vsize0, ?ex_tag0, ?ex_layers0, ?ex_lower0, ?ex_type0.
Qed.

(** The sectors [s .. s + n) are replaced by [new], nothing else is. *)
Definition disk_update (f f' : LSMTFile) (s n : Z) (new : Z → Z) : Prop :=
  ∀ p, disk f' p = if (s * ALIGNMENT <=? p) && (p <? (s + n) * ALIGNMENT)
                   then new (p - s * ALIGNMENT) else disk f p.

(** Outcome of one step of a write or a discard. *)
Record step_ok (f f' : LSMTFile) (s n : Z) (new : Z → Z) (k : Z) : Prop := {
  so_wf : wf_file f';
  so_room : has_room f' k;
  so_ext : ∃ ms, extends f f' ms;
  so_disk : disk_update f f' s n new
}.

Lemma step_intro f f' s n new k ms : wf_file f → extends f f' ms →
  upper_ok (file_type f) (rw_tag f) (upper (index f')) (zlen (rw_data_file f')) →
  data_ok (file_type f) (virtual_size_of f) (rw_data_file f') (rw_data_append_offset f') →
  digest_ok (file_type f) (rw_data_file f') (append_digest f') →
  rewrites s (s + n) new (upper (index f)) (rw_data_file f) (upper (index f')) (rw_data_file f') →
  has_room f' k → step_ok f f' s n new k.
Proof.
  intros Hf He Hup Hd Hg Hr Hk. pose proof (wf_extends f f' ms Hf He Hup Hd Hg) as Hf'.
  constructor; [done|done|by eexists|]. intros p.
  by apply disk_rewrites; [done..|apply (ex_lower _ _ _ He)|apply (ex_layers _ _ _ He)|].
Qed.

(** Appending a mapping to the log of any state. *)
Lemma append_logged g m k : 1 ≤ k → log_at g k →
  ∃ a' b' c', append_index_mapping m g = (set_log g a' b' c', Ok tt)
    ∧ log_room g a' b' c' (k - 1) ∧ log_bytes a' b' = log_of g ++ disk_bytes m.
Proof.
  intros Hk (Hok & Hg & Hr).
  destruct (append_index_mapping_ok g m _ _ _ Hok Hg) as (a' & b' & c' & E & Hok' & Hg' & He' & Hb');
    [unfold MAPPING_SIZE in *; lia|]. rewrite set_log_id in E.
  exists a', b', c'. split; [exact E|]. split; [|done]. split_and!; [done|exact Hg'|].
  rewrite He'. unfold MAPPING_SIZE in *. lia.
Qed.

Lemma insert_all_ok ms : ∀ g,
  insert_all ms g = (upd_index g (fold_left combo_insert ms (index g)), Ok tt).
Proof.
  induction ms as [|m ms IH]; intros g; [by destruct g|].
  cbn [insert_all]. unfold insert_mapping. rewrite bind_modify, IH. done.
Qed.

Lemma upper_insert_all ms : ∀ ci,
  upper (fold_left combo_insert ms ci) = fold_left mi_insert ms (upper ci)
  ∧ lower (fold_left combo_insert ms ci) = lower ci.
Proof. induction ms as [|m ms IH]; intros ci; [done|]. apply (IH (combo_insert ci m)). Qed.

(** ** One chunk *)
Section Chunk.
Context (f : LSMTFile) (s n k : Z) (chunk : list Z).
Context (Hf : wf_file f) (Hk : 0 ≤ k) (Hroom : has_room f (k + n)).
Context (Hs : 0 ≤ s) (Hn : 0 < n ≤ max_io_size f / ALIGNMENT) (Hend : s + n < 2 ^ 50).
Context (Hlen : zlen chunk = n * ALIGNMENT).

Lemma chunk_facts : n < 2 ^ 32 ∧ 0 ≤ rw_tag f < 2 ^ 8.
Proof.
  pose proof (wf_io f Hf) as Hio. destruct (wf_rw_tag f Hf) as [Ht Ht'].
  pose proof (zlen_nonneg (lower_layers f)). unfold io_size_ok, ALIGNMENT in *. split; [dlia|lia].
Qed.

Lemma chunk_mapping g base : rw_tag g = rw_tag f →
  data_mapping g (s * ALIGNMENT) (zlen chunk) (base * ALIGNMENT) = sm_new s n base false (rw_tag f).
Proof.
  intros E. destruct chunk_facts. unfold data_mapping. rewrite Hlen, E, !Z.div_mul by done.
  by unwrap.
Qed.

Lemma storable_in m : wf_mapping m ∧ s ≤ sm_offset m ∧ sm_offset m + sm_length m ≤ s + n
  ∧ tag m = rw_tag f ∧ has_physical_range m = true → storable f m.
Proof.
  intros (Hm & H1 & H2 & H3 & H4). split_and!; [done|lia|lia|done|by rewrite H4, orb_true_r].
Qed.

(** The mapping of a whole chunk. *)
Lemma storable_chunk base : 0 ≤ base → base + n < NO_PHYSICAL_OFFSET →
  Forall (storable f) [sm_new s n base false (rw_tag f)].
Proof.
  intros Hb1 Hb2. destruct chunk_facts. constructor; [|done]. apply storable_in.
  destruct (data_mapping_wf s n base (rw_tag f)) as [Hm Hp]; [lia..|].
  unfold sm_offset, sm_length. simpl. split_and!; done || lia.
Qed.

Lemma write_hybrid_chunk_ok : file_type f = HybridReadWrite →
  ∃ f', write_hybrid_chunk (s * ALIGNMENT) chunk f = (f', Ok tt)
    ∧ step_ok f f' s n (byte_at chunk) k.
Proof.
  intros Et. destruct chunk_facts as [Hn32 Htg]. destruct (Hroom ltac:(by rewrite Et)) as [Hsp Hlog].
  pose proof (wf_data f Hf) as Hd. rewrite Et in Hd. destruct Hd as (Hcur & Hal & Hh).
  pose proof (wf_upper f Hf) as Hup. rewrite Et in Hup.
  destruct (mi_lookup_tiles (upper (index f)) (mkSeg s n) []) as (ms & El & Ht);
    [apply (uo_wf _ _ _ _ Hup)|constructor; simpl; lia|]. cbn [seg_offset seg_length] in Ht.
  destruct (run_plan f s (s + n) chunk Htg) with (ms := ms) (cur := s) (next := @None Z)
    (D := rw_data_file f) (ins := @nil SegmentMapping) (a := rw_index_file f)
    (b := group_commit_buf f) (c := rw_index_append_offset f) (k := k)
    as (frs & n' & D' & new & a' & b' & c' & Ep & Er & Hat & Hb);
    [lia|lia|lia|rewrite Hlen; f_equal; lia|done|unfold ALIGNMENT in *; lia|lia|done|done|..].
  { constructor; [|by left|replace (k + (s + n - s)) with (k + n) by lia; done].
    apply hybrid_start; try done; lia. }
  assert (running f (rw_data_file f) (rw_index_file f) (group_commit_buf f)
            (rw_index_append_offset f) = f) as Ef.
  { unfold running. rewrite <- Hcur. by destruct f. }
  rewrite Ef in Er. destruct Hat as [[_ Hal' Hh' Hg' Hup' Hhd' Hwf' Hrw] _ Hlog'].
  destruct (upper_insert_all new (index f)) as [Eu Elo].
  unfold write_hybrid_chunk. rewrite bind_get. unfold plan_hybrid_write.
  rewrite Hlen, !Z.div_mul, wrap32_small, wrap64_small, El by (done || lia). cbn [fst app].
  rewrite Ep, bind_lift_ok. erewrite bind_ok by exact Er. rewrite insert_all_ok.
  eexists. split; [reflexivity|]. apply step_intro with (ms := new).
  - done.
  - constructor; try done.
    eapply Forall_impl; [exact Hwf'|apply storable_in].
  - cbn [upd_index running index rw_data_file]. rewrite Eu, Et. done.
  - rewrite Et. done.
  - rewrite Et. intros t E. destruct (wf_digest f Hf t E) as [E' _]. by rewrite Et in E'.
  - cbn [upd_index running index rw_data_file]. by rewrite Eu.
  - intros _. split; [|done]. cbn [upd_index running index rw_data_file].
    unfold ALIGNMENT in *. lia.
Qed.

(** The digest follows an append. *)
Lemma absorb_append ft data t : digest_ok ft data t → zlen data + zlen chunk < 2 ^ 64 →
  digest_ok ft (data ++ chunk)
    (match t with
     | Some t => match absorb t (zlen data) chunk with Ok t' => Some t' | Err _ => None end
     | None => None
     end).
Proof.
  intros Hd Hb t' E. destruct t as [t|]; [|done]. destruct (Hd t eq_refl) as (Hft & Hh & Ho).
  unfold absorb in E. destruct (is_nil chunk) eqn:En.
  { destruct chunk; [|done]. rewrite app_nil_r. injection E as <-. done. }
  rewrite Ho, Z.eqb_refl in E. simpl in E. unfold checked_add64, U64_MAX in E.
  destruct (_ <=? _); [|done]. injection E as <-. by rewrite Hh, zlen_app.
Qed.

Lemma write_log_chunk_ok : file_type f = ReadWrite →
  ∃ f', write_plain_chunk (s * ALIGNMENT) chunk f = (f', Ok tt)
    ∧ step_ok f f' s n (byte_at chunk) k.
Proof.
  intros Et. destruct chunk_facts as [Hn32 Htg]. destruct (Hroom ltac:(by rewrite Et)) as [Hsp Hlog].
  pose proof (wf_data f Hf) as Hd. rewrite Et in Hd. destruct Hd as (Hcur & Hal & Hh).
  pose proof (wf_upper f Hf) as Hup. rewrite Et in Hup. pose proof (wf_digest f Hf) as Hdg.
  destruct (log_chunk (rw_tag f) s n (upper (index f)) (rw_data_file f) chunk) as (Hm & Hup' & Hrw);
    [done|done|lia|done|done|done|done|done|unfold ALIGNMENT in *; lia|].
  set (m := sm_new s n _ false _) in *. set (data := rw_data_file f) in *.
  assert (data_mapping f (s * ALIGNMENT) (zlen chunk) (zlen data) = m) as Em.
  { replace (zlen data) with (zlen data / ALIGNMENT * ALIGNMENT) at 1 by (unfold ALIGNMENT in *; dlia).
    by apply chunk_mapping. }
  unfold write_plain_chunk. rewrite bind_get, Et. rewrite bool_decide_false by done. unfold bind at 1.
  rewrite (bind_ok _ _ f f (zlen data)) by (rewrite <- Hcur; apply data_append_offset_ok; by rewrite Hcur).
  unfold write_data. rewrite bind_modify. erewrite bind_ok by (apply advance_data_ok;
    [done|unfold ALIGNMENT in *; lia]).
  rewrite bind_modify. cbn [ret]. rewrite Em. unfold insert_mapping. rewrite bind_modify.
  match goal with |- context [append_index_mapping _ ?st] => set (g := st) end.
  destruct (append_logged g (to_disk m) (k + n)) as (a' & b' & c' & E & Hlog' & Hb); [lia|done|].
  rewrite E. eexists. split; [reflexivity|].
  assert (rw_data_file (set_log g a' b' c') = data ++ chunk) as Ed by apply file_write_end.
  apply step_intro with (ms := [m]); rewrite ?Ed, ?Et.
  - done.
  - constructor; try done; rewrite ?Ed.
    + intros p Hp. rewrite byte_at_app by lia. unfold HEADER_SIZE in *. by bcases.
    + pose proof (zlen_nonneg data). apply storable_chunk; unfold NO_PHYSICAL_OFFSET, ALIGNMENT in *; dlia.
  - done.
  - split_and!; [change (zlen data + zlen chunk = zlen (data ++ chunk)); by rewrite zlen_app| |];
      rewrite zlen_app; unfold ALIGNMENT in *; [dlia|lia].
  - rewrite Et in Hdg. apply absorb_append; [done|]. unfold ALIGNMENT in *. lia.
  - done.
  - intros _. rewrite Ed, zlen_app. split; [unfold ALIGNMENT in *; lia|].
    eapply log_room_weaken; [|exact Hlog']. lia.
Qed.

Lemma write_sparse_chunk_ok : file_type f = SparseReadWrite →
  ∃ f', write_plain_chunk (s * ALIGNMENT) chunk f = (f', Ok tt)
    ∧ step_ok f f' s n (byte_at chunk) k.
Proof.
  intros Et. destruct chunk_facts as [Hn32 Htg].
  pose proof (wf_data f Hf) as Hd. rewrite Et in Hd. simpl in Hd.
  pose proof (wf_upper f Hf) as Hup. rewrite Et in Hup.
  destruct (sparse_chunk (rw_tag f) s n (upper (index f)) (rw_data_file f) chunk) as (Hm & Hup' & Hrw);
    [done|done|lia|done|done|done|].
  set (m := sm_new s n _ false _) in *. set (data' := file_write _ _ _) in *.
  assert (data_mapping f (s * ALIGNMENT) (zlen chunk) (HEADER_SIZE + s * ALIGNMENT) = m) as Em.
  { replace (HEADER_SIZE + s * ALIGNMENT) with ((s + HEADER_SIZE / ALIGNMENT) * ALIGNMENT)
      by (unfold HEADER_SIZE, ALIGNMENT; dlia). by apply chunk_mapping. }
  unfold write_plain_chunk. rewrite bind_get, Et, !bool_decide_true by done. unfold write_data, bind at 1.
  rewrite bind_modify. cbn [ret]. rewrite Em. eexists. split; [reflexivity|].
  apply step_intro with (ms := [m]); rewrite ?Et; try done.
  - constructor; try done.
    + intros p Hp. unfold HEADER_SIZE, ALIGNMENT in *. unfold data'.
      change (byte_at data' p = byte_at (rw_data_file f) p). unfold data', HEADER_SIZE, ALIGNMENT.
      rewrite byte_at_file_write by lia. by bcases.
    + apply storable_chunk; unfold HEADER_SIZE, ALIGNMENT, NO_PHYSICAL_OFFSET; dlia.
  - change (HEADER_SIZE + virtual_size_of f ≤ zlen data'). unfold data'.
    rewrite zlen_file_write by (unfold HEADER_SIZE, ALIGNMENT; lia). destruct (is_nil chunk); lia.
  - intros t E. destruct (wf_digest f Hf t E) as [E' _]. by rewrite Et in E'.
Qed.

Lemma write_chunk_ok :
  ∃ f', write_chunk (s * ALIGNMENT) chunk f = (f', Ok tt) ∧ step_ok f f' s n (byte_at chunk) k.
Proof.
  pose proof (wf_data f Hf) as Hd. unfold write_chunk. rewrite bind_get.
  destruct (file_type f) eqn:Et; [done|..].
  - rewrite bool_decide_false by done. by apply write_log_chunk_ok.
  - rewrite bool_decide_false by done. by apply write_sparse_chunk_ok.
  - rewrite bool_decide_true by done. by apply write_hybrid_chunk_ok.
Qed.
End Chunk.

(** ** Composing steps *)

Lemma step_trans f g h s n1 n2 new1 new2 new k1 k2 :
  0 ≤ n1 → 0 ≤ n2 → step_ok f g s n1 new1 k1 → step_ok g h (s + n1) n2 new2 k2 →
  (∀ p, 0 ≤ p < n1 * ALIGNMENT → new p = new1 p) →
  (∀ p, 0 ≤ p < n2 * ALIGNMENT → new (n1 * ALIGNMENT + p) = new2 p) →
  step_ok f h s (n1 + n2) new k2.
Proof.
  intros Hn1 Hn2 [_ _ [ms1 He1] Hd1] [Hwf Hr [ms2 He2] Hd2] E1 E2.
  constructor; [done|done|eexists; by eapply extends_trans|]. intros p. rewrite Hd2, Hd1.
  unfold ALIGNMENT in *. bcases; try done; try lia.
  - rewrite <- E2 by lia. f_equal. lia.
  - by rewrite E1 by lia.
Qed.

Lemma step_refl f s new k : wf_file f → has_room f k → step_ok f f s 0 new k.
Proof.
  intros Hf Hr. constructor; [done|done|by eexists; apply extends_refl|].
  intros p. unfold ALIGNMENT. by bcases; lia.
Qed.

(** A step in terms of bytes. *)
Lemma step_bytes f f' offset len new k : 0 ≤ offset → 0 ≤ len → offset mod ALIGNMENT = 0 →
  len mod ALIGNMENT = 0 → step_ok f f' (offset / ALIGNMENT) (len / ALIGNMENT) new k →
  wf_file f' ∧ virtual_size_of f' = virtual_size_of f
  ∧ ∀ p, disk f' p = if (offset <=? p) && (p <? offset + len) then new (p - offset) else disk f p.
Proof.
  intros Ho Hl Hoa Hla [Hwf _ [ms []] Hd]. split_and!; [done..|]. intros p. rewrite Hd.
  replace (offset / ALIGNMENT * ALIGNMENT) with offset by (unfold ALIGNMENT in *; dlia).
  replace ((offset / ALIGNMENT + len / ALIGNMENT) * ALIGNMENT) with (offset + len)
    by (unfold ALIGNMENT in *; dlia). done.
Qed.

Lemma write_loop_ok fuel : ∀ f s n k data, (length data ≤ fuel)%nat → wf_file f → 0 ≤ k →
  has_room f (k + n) → 0 ≤ s → 0 ≤ n → s + n < 2 ^ 50 → zlen data = n * ALIGNMENT →
  ∃ f', write_loop fuel (max_io_size f) (s * ALIGNMENT) data f = (f', Ok tt)
    ∧ step_ok f f' s n (byte_at data) k.
Proof.
  induction fuel as [|fuel IH]; intros f s n k data Hfuel Hf Hk Hr Hs Hn He Hlen;
    (destruct (decide (data = [])) as [->|Hne];
      [change (zlen []) with 0 in Hlen; assert (n = 0) as -> by (unfold ALIGNMENT in *; lia);
       rewrite Z.add_0_r in Hr; exists f; split; [done|by apply step_refl]|]).
  { destruct data; [done|]. simpl in Hfuel. lia. }
  pose proof (wf_io f Hf) as Hio. set (n1 := Z.min n (max_io_size f / ALIGNMENT)).
  assert (0 < n) by (destruct data; [done|]; rewrite zlen_cons in Hlen; pose proof (zlen_nonneg data);
                     unfold ALIGNMENT in *; lia).
  assert (Z.min (zlen data) (max_io_size f) = n1 * ALIGNMENT) as E1
    by (unfold io_size_ok, n1, ALIGNMENT in *; dlia).
  assert (0 < n1 ≤ n ∧ n1 ≤ max_io_size f / ALIGNMENT) as [Hn1 Hn1']
    by (unfold io_size_ok, n1, ALIGNMENT in *; dlia).
  destruct (write_chunk_ok f s n1 (k + (n - n1)) (ztake (n1 * ALIGNMENT) data)) as (g & Eg & Hg);
    [done|lia|replace (k + (n - n1) + n1) with (k + n) by lia; done|done|lia|lia|..].
  { rewrite zlen_ztake; unfold ALIGNMENT in *; lia. }
  assert (max_io_size g = max_io_size f) as Eio by (destruct (so_ext _ _ _ _ _ _ Hg) as [ms []]; done).
  destruct (IH g (s + n1) (n - n1) k (zdrop (n1 * ALIGNMENT) data)) as (f' & Ef' & Hf').
  { pose proof (zlen_zdrop (n1 * ALIGNMENT) data). unfold zlen, ALIGNMENT in *. lia. }
  { apply (so_wf _ _ _ _ _ _ Hg). }
  { done. }
  { apply (so_room _ _ _ _ _ _ Hg). }
  1-3: lia.
  { rewrite zlen_zdrop; unfold ALIGNMENT in *; lia. }
  exists f'. split.
  - destruct data as [|x data]; [done|]. cbn [write_loop]. rewrite E1.
    erewrite bind_ok by exact Eg. rewrite <- Eio.
    replace (s * ALIGNMENT + n1 * ALIGNMENT) with ((s + n1) * ALIGNMENT) by lia. exact Ef'.
  - replace n with (n1 + (n - n1)) by lia. eapply step_trans; [..|exact Hg|exact Hf'| |]; [lia|lia|..].
    + intros p Hp. rewrite byte_at_ztake by lia. by bcases.
    + intros p Hp. rewrite byte_at_zdrop by (unfold ALIGNMENT in *; lia). done.
Qed.

(** ** Discards *)

(** A zero mapping of the hybrid layout keeps the physical sectors its logical
    sectors already own, or has none. *)
Lemma zero_keep tg W size m : upper_ok HybridReadWrite tg W size → wf_mapping m → tag m = tg →
  zeroed m = true →
  (has_physical_range m = true → ∀ x, covers m x = true →
     ∃ l, view W x = Some l ∧ loc_phys l = Some (moffset m + (x - sm_offset m))) →
  upper_ok HybridReadWrite tg (mi_insert W m) size.
Proof.
  intros Hup Hm Ht Hz Hown. eapply upper_insert; [exact Hup|done|done|congruence|lia| |].
  - intros Hp x Hx. destruct (Hown Hp x Hx) as (l & Hl & Hph). by eapply (uo_place _ _ _ _ Hup).
  - intros _ Hp x y ly Hx Hy Hly E. destruct (Hown Hp x Hx) as (l & Hl & Hph).
    rewrite (uo_inj _ _ _ _ Hup eq_refl _ _ _ _ _ Hly Hl E Hph) in Hy. congruence.
Qed.

Section Zero.
Context (f : LSMTFile) (s e : Z).
Context (Hf : wf_file f) (Et : file_type f = HybridReadWrite).
Context (Hs : 0 ≤ s) (He : s < e < 2 ^ 50) (Hlen : e - s ≤ MAX_LENGTH).

(** Zeroed up to sector [cur]. *)
Record zero_at (cur : Z) (g : LSMTFile) (k : Z) : Prop := {
  za_range : s ≤ cur ≤ e;
  za_ext : ∃ ms, extends f g ms;
  za_data : rw_data_file g = rw_data_file f;
  za_cursor : rw_data_append_offset g = rw_data_append_offset f;
  za_digest : append_digest g = append_digest f;
  za_upper : upper_ok HybridReadWrite (rw_tag f) (upper (index g)) (zlen (rw_data_file f));
  za_rewrites : rewrites s cur (λ _, 0) (upper (index f)) (rw_data_file f)
                  (upper (index g)) (rw_data_file f);
  za_log : log_at g k
}.

Lemma zero_step cur g k m : 0 ≤ k → sm_offset m = cur → cur + sm_length m ≤ e →
  wf_mapping m → tag m = rw_tag f → zeroed m = true →
  (has_physical_range m = true → ∀ x, covers m x = true →
     ∃ l, view (upper (index f)) x = Some l ∧ loc_phys l = Some (moffset m + (x - sm_offset m))) →
  zero_at cur g (k + sm_length m) →
  ∃ g', zero_at (cur + sm_length m) g' k ∧ ∀ ms g'', log_and_insert_all ms g' = (g'', Ok tt) →
    log_and_insert_all (m :: ms) g = (g'', Ok tt).
Proof.
  intros Hk Eo Hend Hm Ht Hz Hown [Hr [ms0 Hext] Hd Hc Hdg Hup Hrw Hlog].
  wf_facts. assert (∀ x, covers m x = true ↔ cur ≤ x < cur + sm_length m) as Hcov
    by (intros x; rewrite covers_iff; lia).
  destruct (append_logged g (to_disk m) (k + sm_length m)) as (a & b & c & E & Hlog' & Hb); [lia|done|].
  destruct (mi_insert_spec (upper (index g)) m (uo_wf _ _ _ _ Hup) Hm) as [_ Hv].
  exists (upd_index (set_log g a b c) (combo_insert (index g) m)). split.
  - constructor; try done.
    + lia.
    + eexists. eapply extends_trans; [exact Hext|].
      instantiate (1 := [m]). constructor; try done.
      constructor; [|done]. destruct Hext. split_and!; [done|lia|lia|congruence|by rewrite Hz].
    + apply zero_keep; [done..|]. intros Hp x Hx. destruct (Hown Hp x Hx) as (l & Hl & Hph).
      exists l. split; [|done]. rewrite <- Hl. apply Hrw. apply Hcov in Hx. lia.
    + destruct Hrw as [Rin Rout]. split; intros x Hx; cbn [upd_index index combo_insert upper]; rewrite Hv.
      * destruct (covers m x) eqn:Ec.
        { eexists. split; [done|]. intros i Hi. unfold up_byte, loc_at. simpl. by rewrite Hz. }
        apply Rin. apply not_true_iff_false in Ec. rewrite Hcov in Ec. lia.
      * destruct (covers m x) eqn:Ec; [apply Hcov in Ec; lia|]. apply Rout. lia.
    + eapply log_room_weaken; [|exact Hlog']. lia.
  - intros ms g'' Erest. cbn [log_and_insert_all]. erewrite bind_ok by exact E.
    unfold insert_mapping. rewrite bind_modify. exact Erest.
Qed.

Lemma zero_gap_step cur nxt g k : 0 ≤ k → cur ≤ nxt ≤ e → zero_at cur g (k + (nxt - cur)) →
  ∃ g', zero_at nxt g' k ∧ ∀ ms g'', log_and_insert_all ms g' = (g'', Ok tt) →
    log_and_insert_all ((if cur <? nxt then [zero_gap f cur nxt] else []) ++ ms) g = (g'', Ok tt).
Proof.
  intros Hk Hn Hat. pose proof (za_range _ _ _ Hat). destruct (Z.ltb_spec cur nxt).
  - destruct (wf_rw_tag f Hf) as [Htg Htg']. pose proof (zlen_nonneg (lower_layers f)).
    unfold zero_gap. pose proof Hlen as Hlen'. rewrite MAX_LENGTH_val in Hlen'. rewrite wrap32_small, wrap8_small by lia.
    set (m := sm_new cur (nxt - cur) NO_PHYSICAL_OFFSET true (rw_tag f)).
    destruct (zero_step cur g k m) as (g' & Hg' & Hrun); try done.
    + change (cur + (nxt - cur) ≤ e). lia.
    + constructor; unfold sm_offset, sm_length, m; simpl; lia.
    + exists g'. split; [|done]. replace nxt with (cur + sm_length m); [done|].
      change (cur + (nxt - cur) = nxt). lia.
  - assert (nxt = cur) as -> by lia. exists g. split; [|done].
    replace (k + (cur - cur)) with k in Hat by lia. done.
Qed.

Lemma discard_plan_ok ms : ∀ cur g k, 0 ≤ k → tiles (view (upper (index f))) cur e ms →
  zero_at cur g (k + (e - cur)) →
  ∃ g', log_and_insert_all (discard_plan f cur e ms) g = (g', Ok tt) ∧ zero_at e g' k.
Proof.
  induction ms as [|m ms IH]; intros cur g k Hk Ht Hat; pose proof (za_range _ _ _ Hat) as Hcur;
    cbn [discard_plan].
  - destruct (zero_gap_step cur e g k) as (g' & Hg' & Hrun); [done|lia|done|].
    exists g'. split; [|done]. specialize (Hrun [] g' eq_refl). by rewrite app_nil_r in Hrun.
  - apply tiles_cons in Ht as (Hm & Ho & Hoe & Hv & Ht). wf_facts.
    destruct (zero_gap_step cur (sm_offset m) g (k + (e - sm_offset m))) as (g1 & Hg1 & Hrun1); [lia|lia|..].
    { replace (_ + _) with (k + (e - cur)) by lia. done. }
    destruct (zero_step (sm_offset m) g1 (k + (e - (sm_offset m + sm_length m))) (set_zeroed m true))
      as (g2 & Hg2 & Hrun2); [lia|done|done|by destruct Hm; constructor| |done|..].
    + assert (covers m (sm_offset m) = true) as Hc by (apply covers_iff; lia).
      apply Hv in Hc. by apply (uo_tag _ _ _ _ (wf_upper f Hf)) in Hc.
    + intros Hp x Hx. exists (loc_at m x). split; [by apply Hv|]. by rewrite loc_at_data.
    + change (sm_length (set_zeroed m true)) with (sm_length m).
      replace (_ + _) with (k + (e - sm_offset m)) by lia. done.
    + change (sm_length (set_zeroed m true)) with (sm_length m) in Hg2.
      destruct (IH _ g2 k Hk Ht Hg2) as (g3 & E3 & Hg3). exists g3. split; [|done].
      rewrite sm_end_wf by done. by apply Hrun1, Hrun2.
Qed.
End Zero.

Section DiscardStep.
Context `{FileDiscardSpec}.
Context (f : LSMTFile) (s n k : Z).
Context (Hf : wf_file f) (Hk : 0 ≤ k) (Hroom : has_room f (k + n)).
Context (Hs : 0 ≤ s) (Hn : 0 < n ≤ MAX_LENGTH) (Hend : s + n < 2 ^ 50).

Lemma discard_facts : n ≤ 16383 ∧ 0 ≤ rw_tag f < 2 ^ 8.
Proof.
  destruct (wf_rw_tag f Hf) as [Ht Ht']. pose proof (zlen_nonneg (lower_layers f)).
  rewrite <- MAX_LENGTH_val. lia.
Qed.

Lemma discard_hybrid_ok : file_type f = HybridReadWrite →
  ∃ f', discard_hybrid_range (s * ALIGNMENT) (n * ALIGNMENT) f = (f', Ok tt)
    ∧ step_ok f f' s n (λ _, 0) k.
Proof.
  intros Et. destruct discard_facts as [Hn' Htg]. destruct (Hroom ltac:(by rewrite Et)) as [Hsp Hlog].
  pose proof (wf_upper f Hf) as Hup. rewrite Et in Hup. pose proof (wf_data f Hf) as Hd.
  destruct (mi_lookup_tiles (upper (index f)) (mkSeg s n) []) as (ms & El & Ht);
    [apply (uo_wf _ _ _ _ Hup)|constructor; simpl; lia|]. cbn [seg_offset seg_length] in Ht.
  destruct (discard_plan_ok f s (s + n) Hf) with (ms := ms) (cur := s) (g := f) (k := k)
    as (f' & E & [_ [ms' Hext] Ed Ec Edg Hup' Hrw Hlog']); [done|lia|lia|done|done|..].
  { constructor; try done; [lia|by eexists; apply extends_refl|by split; [lia|]|].
    replace (k + (s + n - s)) with (k + n) by lia. done. }
  exists f'. unfold discard_hybrid_range. rewrite bind_get, !Z.div_mul, wrap32_small, El by (done || lia).
  unfold seg_end. cbn [seg_offset seg_length fst app]. rewrite wrap64_small by lia. split; [exact E|].
  eapply step_intro; [done|exact Hext|..]; rewrite ?Ed, ?Ec, ?Edg, ?Et; try done.
  - by rewrite Et in Hd.
  - rewrite <- Et. apply (wf_digest f Hf).
  - intros _. rewrite Ed. split; [unfold ALIGNMENT in *; lia|done].
Qed.

(** The zero mapping of the other layouts. *)
Lemma zero_mapping_eq : sm_new (s * ALIGNMENT / ALIGNMENT) (wrap32 (n * ALIGNMENT / ALIGNMENT))
  NO_PHYSICAL_OFFSET true (wrap8 (rw_tag f)) = sm_new s n NO_PHYSICAL_OFFSET true (rw_tag f).
Proof. destruct discard_facts. rewrite !Z.div_mul by done. by unwrap. Qed.

Lemma storable_zero : wf_mapping (sm_new s n NO_PHYSICAL_OFFSET true (rw_tag f)) →
  Forall (storable f) [sm_new s n NO_PHYSICAL_OFFSET true (rw_tag f)].
Proof.
  intros Hm. constructor; [|done]. split; [done|]. unfold sm_new, sm_offset, sm_length. simpl.
  split_and!; done || lia.
Qed.

Lemma discard_log_ok : file_type f = ReadWrite →
  ∃ f', discard_step (s * ALIGNMENT) (n * ALIGNMENT) f = (f', Ok tt) ∧ step_ok f f' s n (λ _, 0) k.
Proof.
  intros Et. destruct discard_facts as [Hn' Htg]. destruct (Hroom ltac:(by rewrite Et)) as [Hsp Hlog].
  pose proof (wf_upper f Hf) as Hup. pose proof (wf_data f Hf) as Hd.
  destruct (zero_chunk (rw_tag f) s n (upper (index f)) (rw_data_file f) Htg Hs)
    with (ft := file_type f) (data' := rw_data_file f) as (Hm & Hup' & Hrw);
    [lia|lia|by left|done|done|done|].
  unfold discard_step. rewrite bind_get, Et, !bool_decide_false, bind_ret by done.
  rewrite zero_mapping_eq. set (m := sm_new _ _ _ _ _) in *. unfold insert_mapping. rewrite bind_modify.
  match goal with |- context [append_index_mapping _ ?st] => set (g := st) end.
  destruct (append_logged g (to_disk m) (k + n)) as (a & b & c & E & Hlog' & Hb); [lia|done|].
  rewrite E. eexists. split; [reflexivity|]. apply step_intro with (ms := [m]); try done.
  - constructor; try done. by apply storable_zero.
  - apply (wf_digest f Hf).
  - intros _. split; [change (rw_data_file (set_log g a b c)) with (rw_data_file f); unfold ALIGNMENT in *; lia|].
    eapply log_room_weaken; [|exact Hlog']. lia.
Qed.

Lemma discard_sparse_ok : file_type f = SparseReadWrite →
  ∃ f', discard_step (s * ALIGNMENT) (n * ALIGNMENT) f = (f', Ok tt) ∧ step_ok f f' s n (λ _, 0) k.
Proof.
  intros Et. destruct discard_facts as [Hn' Htg].
  pose proof (wf_upper f Hf) as Hup. pose proof (wf_data f Hf) as Hd.
  set (data' := fd_discard (rw_data_file f) (HEADER_SIZE + s * ALIGNMENT) (n * ALIGNMENT)).
  assert (zlen data' = zlen (rw_data_file f)) as Ez
    by (apply fd_size; unfold HEADER_SIZE, ALIGNMENT; lia).
  destruct (zero_chunk (rw_tag f) s n (upper (index f)) (rw_data_file f) Htg Hs)
    with (ft := file_type f) (data' := data') as (Hm & Hup' & Hrw);
    [lia|lia|by right|done|done| |].
  { rewrite Et. intros x ph i -> Hx Hx0 Hi. unfold HEADER_SIZE, ALIGNMENT in *.
    change (4096 / 512) with 8. apply fd_outside; unfold HEADER_SIZE, ALIGNMENT; lia. }
  unfold discard_step. rewrite bind_get, Et, bool_decide_false, !bool_decide_true by done.
  rewrite bind_modify, zero_mapping_eq. set (m := sm_new _ _ _ _ _) in *.
  eexists. split; [reflexivity|]. apply step_intro with (ms := [m]); try done.
  - constructor; try done; [|by apply storable_zero].
    intros p Hp. apply fd_outside; unfold HEADER_SIZE, ALIGNMENT in *; lia.
  - rewrite Et in Hd |- *. simpl in Hd |- *. fold data'. lia.
  - intros t E. destruct (wf_digest f Hf t E) as [E' _]. by rewrite Et in E'.
Qed.

Lemma discard_step_ok :
  ∃ f', discard_step (s * ALIGNMENT) (n * ALIGNMENT) f = (f', Ok tt) ∧ step_ok f f' s n (λ _, 0) k.
Proof.
  pose proof (wf_data f Hf) as Hd. destruct (file_type f) eqn:Et; [done|..].
  - by apply discard_log_ok.
  - by apply discard_sparse_ok.
  - unfold discard_step. rewrite bind_get, Et, bool_decide_true by done. by apply discard_hybrid_ok.
Qed.
End DiscardStep.

Lemma discard_loop_ok `{FileDiscardSpec} fuel : ∀ f s n k, n ≤ MAX_LENGTH * Z.of_nat fuel →
  wf_file f → 0 ≤ k → has_room f (k + n) → 0 ≤ s → 0 ≤ n → s + n < 2 ^ 50 →
  ∃ f', discard_loop fuel (s * ALIGNMENT) (n * ALIGNMENT) f = (f', Ok tt)
    ∧ step_ok f f' s n (λ _, 0) k.
Proof.
  rewrite MAX_LENGTH_val. induction fuel as [|fuel IH]; intros f s n k Hfuel Hf Hk Hr Hs Hn He;
    cbn [discard_loop]; destruct (Z.leb_spec (n * ALIGNMENT) 0) as [Hz|Hz].
  1,3: assert (n = 0) as -> by (unfold ALIGNMENT in *; lia); rewrite Z.add_0_r in Hr;
       exists f; split; [done|by apply step_refl].
  { unfold ALIGNMENT in *. lia. }
  assert (0 < n) by (unfold ALIGNMENT in *; lia). set (n1 := Z.min n 16383).
  assert (0 < n1 ≤ n ∧ n1 ≤ 16383) as [Hn1 Hn1'] by lia.
  assert (Z.min (n * ALIGNMENT) (MAX_LENGTH * ALIGNMENT) = n1 * ALIGNMENT) as ->
    by (rewrite MAX_LENGTH_val; unfold ALIGNMENT; lia).
  destruct (discard_step_ok f s n1 (k + (n - n1))) as (g & Eg & Hg);
    [done|lia|replace (k + (n - n1) + n1) with (k + n) by lia; done|done|rewrite MAX_LENGTH_val; lia|lia|].
  destruct (IH g (s + n1) (n - n1) k) as (f' & Ef' & Hf');
    [lia|apply (so_wf _ _ _ _ _ _ Hg)|done|apply (so_room _ _ _ _ _ _ Hg)|lia..|].
  exists f'. split.
  - erewrite bind_ok by exact Eg.
    replace (s * ALIGNMENT + n1 * ALIGNMENT) with ((s + n1) * ALIGNMENT) by lia.
    replace (n * ALIGNMENT - n1 * ALIGNMENT) with ((n - n1) * ALIGNMENT) by lia. exact Ef'.
  - replace n with (n1 + (n - n1)) by lia. by eapply step_trans; [..|exact Hg|exact Hf'| |]; [lia|lia|..].
Qed.

(** ** The public operations *)

Lemma write_internal_ok f offset data : wf_file f → sealed f = false → 0 ≤ offset →
  offset mod ALIGNMENT = 0 → zlen data mod ALIGNMENT = 0 → offset + zlen data < 2 ^ 59 →
  has_room f (zlen data / ALIGNMENT) →
  ∃ f', write_internal offset data f = (f', Ok (zlen data))
    ∧ step_ok f f' (offset / ALIGNMENT) (zlen data / ALIGNMENT) (byte_at data) 0.
Proof.
  intros Hf Hs Ho Hoa Hla Hend Hr. pose proof (zlen_nonneg data).
  destruct (write_loop_ok (length data) f (offset / ALIGNMENT) (zlen data / ALIGNMENT) 0 data)
    as (f' & E & Hf'); [lia|done|lia|done|unfold ALIGNMENT in *; dlia..|].
  exists f'. split; [|done]. unfold write_internal. rewrite bind_get, bind_ensure by (by rewrite Hs).
  destruct data as [|b data]; [by injection E as <-|]. cbn [is_nil].
  unfold check_alignment, is_multiple_of. rewrite Hoa, Hla. cbn [Z.eqb andb ensure]. rewrite bind_lift_ok.
  replace (offset / ALIGNMENT * ALIGNMENT) with offset in E by (unfold ALIGNMENT in *; dlia).
  by erewrite bind_ok by exact E.
Qed.

Lemma discard_range_ok `{FileDiscardSpec} f offset len : wf_file f → sealed f = false → 0 ≤ offset →
  0 ≤ len → offset mod ALIGNMENT = 0 → len mod ALIGNMENT = 0 → offset + len < 2 ^ 59 →
  has_room f (len / ALIGNMENT) →
  ∃ f', discard_range offset len f = (f', Ok tt)
    ∧ step_ok f f' (offset / ALIGNMENT) (len / ALIGNMENT) (λ _, 0) 0.
Proof.
  intros Hf Hs Ho Hl Hoa Hla Hend Hr.
  set (fuel := Z.to_nat (div_ceil len (MAX_LENGTH * ALIGNMENT))).
  destruct (discard_loop_ok fuel f (offset / ALIGNMENT) (len / ALIGNMENT) 0)
    as (f' & E & Hf'); [|done|lia|done|unfold ALIGNMENT in *; dlia..|].
  { unfold fuel. pose proof (div_ceil_bounds len (MAX_LENGTH * ALIGNMENT)) as Hb.
    rewrite MAX_LENGTH_val in *. unfold ALIGNMENT in *. dlia. }
  exists f'. split; [|done]. unfold discard_range. rewrite bind_get, bind_ensure by (by rewrite Hs).
  replace (offset / ALIGNMENT * ALIGNMENT) with offset in E by (unfold ALIGNMENT in *; dlia).
  replace (len / ALIGNMENT * ALIGNMENT) with len in E by (unfold ALIGNMENT in *; dlia).
  destruct (Z.eqb_spec len 0) as [->|Hne]; [by injection E as <-|].
  rewrite bind_ensure by (unfold is_multiple_of; by rewrite Hoa, Hla). exact E.
Qed.

(** A read of an open writable file returns the bytes of the disk it
    presents: the newest mapping of every sector decides, zeros elsewhere, up
    to the virtual size; the rest of the buffer stays as it was.  Reads of the
    underlying files may be short. *)
Theorem read_returns_disk `{FileReaderSpec} f offset dst : wf_file f → 0 ≤ offset →
  offset mod ALIGNMENT = 0 → zlen dst mod ALIGNMENT = 0 →
  let n := Z.max 0 (Z.min (zlen dst) (virtual_size_of f - offset)) in
  lsmt_read_at_into f offset dst = Ok ((disk f <$> seqZ offset n) ++ zdrop n dst, n).
Proof.
  intros Hf Ho Hoa Hla n. unfold lsmt_read_at_into. destruct dst as [|b dst].
  { unfold n. change (zlen []) with 0. rewrite Z.max_l by lia. done. }
  pose proof (wf_vsize f Hf). cbn [is_nil].
  change (disk f <$> seqZ offset n) with (disk_range (layers f) (li_view (index f)) offset n).
  apply (read_into_spec (index f) (layers f)); [by apply wf_file_combo|apply (wf_io f Hf)|done..|lia|].
  by apply wf_file_readable.
Qed.

(** A write to an unsealed file succeeds and replaces exactly the bytes it
    covers, in all three layouts; the invariant is kept and the virtual size
    does not change. *)
Theorem write_changes_exactly_its_range f offset data : wf_file f → sealed f = false → 0 ≤ offset →
  offset mod ALIGNMENT = 0 → zlen data mod ALIGNMENT = 0 → offset + zlen data < 2 ^ 59 →
  has_room f (zlen data / ALIGNMENT) →
  ∃ f', write_internal offset data f = (f', Ok (zlen data)) ∧ wf_file f'
    ∧ virtual_size_of f' = virtual_size_of f
    ∧ ∀ p, disk f' p = if (offset <=? p) && (p <? offset + zlen data)
                       then byte_at data (p - offset) else disk f p.
Proof.
  intros Hf Hs Ho Hoa Hla Hend Hr.
  destruct (write_internal_ok f offset data) as (f' & E & Hf'); [done..|].
  exists f'. split; [done|]. eapply step_bytes; [..|exact Hf']; try done. apply zlen_nonneg.
Qed.

(** C33: A discard makes exactly its range read as zeros, whatever the lower
    layers hold there and whatever the underlying file leaves in the punched
    range. *)
Theorem discard_zeroes_exactly_its_range `{FileDiscardSpec} f offset len : wf_file f →
  sealed f = false → 0 ≤ offset → 0 ≤ len → offset mod ALIGNMENT = 0 → len mod ALIGNMENT = 0 →
  offset + len < 2 ^ 59 → has_room f (len / ALIGNMENT) →
  ∃ f', discard_range offset len f = (f', Ok tt) ∧ wf_file f'
    ∧ ∀ p, disk f' p = if (offset <=? p) && (p <? offset + len) then 0 else disk f p.
Proof.
  intros Hf Hs Ho Hl Hoa Hla Hend Hr.
  destruct (discard_range_ok f offset len) as (f' & E & Hf'); [done..|].
  exists f'. split; [done|]. by apply (step_bytes _ _ offset len _ _) in Hf' as (? & _ & ?).
Qed.

(** C34: A sealed file rejects writes, discards and truncation, and an unsealed
    one rejects unaligned writes and discards, in each case without changing
    anything. *)
Theorem rejected_without_effect `{FileDiscard} f offset data len size :
  (sealed f = true → write_internal offset data f = (f, Err FileSealed)
     ∧ discard_range offset len f = (f, Err FileSealed)
     ∧ lsmt_truncate size f = (f, Err FileSealed))
  ∧ (sealed f = false → data ≠ [] →
       offset mod ALIGNMENT ≠ 0 ∨ zlen data mod ALIGNMENT ≠ 0 →
       write_internal offset data f = (f, Err Unaligned))
  ∧ (sealed f = false → len ≠ 0 → offset mod ALIGNMENT ≠ 0 ∨ len mod ALIGNMENT ≠ 0 →
       discard_range offset len f = (f, Err Unaligned)).
Proof.
  assert (∀ a b, a mod ALIGNMENT ≠ 0 ∨ b mod ALIGNMENT ≠ 0 →
    is_multiple_of a ALIGNMENT && is_multiple_of b ALIGNMENT = false) as Hal.
  { intros a b. unfold is_multiple_of. bcases; lia. }
  split_and!.
  - intros Hs. unfold write_internal, discard_range, lsmt_truncate, bind, get, ensure_m, lift.
    by rewrite Hs.
  - intros Hs Hne Hu. unfold write_internal, bind, get, ensure_m, lift, check_alignment.
    rewrite Hs. destruct data; [done|]. cbn [negb ensure is_nil]. by rewrite Hal.
  - intros Hs Hne Hu. unfold discard_range, bind, get, ensure_m, lift. rewrite Hs. cbn [negb ensure].
    destruct (Z.eqb_spec len 0); [done|]. by rewrite Hal.
Qed.
End Disk.

(** ** Examples *)
#[local] Existing Instance one_uuid.
#[local] Existing Instance DirectRead.
#[local] Existing Instance punch_hole.

(** A hybrid layer over one lower layer that holds a sector of sevens. *)
Definition example_file : LSMTFile :=
  mkLSMT (mkCombo [] (Some [sm_new 1 1 8 false 0])) [zeros 4096 ++ replicate 512 7]
    (zeros 4096) (Some (zeros 4096)) 8192 1 false MAX_IO_SIZE [] HybridReadWrite 0 [] 4096 4096 None.

Lemma example_file_wf : wf_file example_file.
Proof.
  constructor; try done.
  - intros ms [= <-]. split; [by apply wf_index_b_true|]. intros x l Hl.
    simpl in Hl. destruct (covers _ x) eqn:E; [|done]. apply covers_iff in E.
    injection Hl as <-. split; [done|]. intros _.
    unfold sm_offset, sm_length in E. simpl in E. assert (x = 1) as -> by lia.
    by exists 8, (zeros 4096 ++ replicate 512 7).
  - by constructor; try apply wf_index_nil.
Qed.

Lemma example_file_room k : 0 ≤ k < 1000 → has_room example_file k.
Proof.
  intros Hk _. change (zlen (rw_data_file example_file)) with 4096. split; [unfold ALIGNMENT; lia|].
  split_and!; [|done|].
  - by exists (zeros 4096).
  - unfold log_end, MAPPING_SIZE. cbn [example_file group_commit_buf rw_index_append_offset].
    change (zlen []) with 0. lia.
Qed.

Lemma read_returns_disk_witness :
  lsmt_read_at_into example_file 512 (zeros 512) = Ok (replicate 512 7, 512).
Proof.
  etransitivity; [apply (read_returns_disk example_file 512 (zeros 512) example_file_wf); done|].
  by vm_compute.
Defined.

Lemma write_changes_exactly_its_range_witness :
  ∃ f', write_internal 512 (replicate 1024 9) example_file = (f', Ok 1024)
    ∧ disk f' 512 = 9 ∧ disk f' 1536 = 0.
Proof.
  destruct (write_changes_exactly_its_range example_file 512 (replicate 1024 9) example_file_wf)
    as (f' & E & _ & _ & Hd); [done..|by apply example_file_room|].
  exists f'. split; [exact E|]. rewrite !Hd. by vm_compute.
Defined.

Lemma discard_zeroes_exactly_its_range_witness :
  ∃ f', discard_range 512 512 example_file = (f', Ok tt)
    ∧ disk example_file 600 = 7 ∧ disk f' 600 = 0.
Proof.
  destruct (discard_zeroes_exactly_its_range example_file 512 512 example_file_wf)
    as (f' & E & _ & Hd); [done..|by apply example_file_room|].
  exists f'. split; [exact E|]. rewrite !Hd. by vm_compute.
Defined.

Lemma rejected_without_effect_witness :
  write_internal 1 [0] example_file = (example_file, Err Unaligned).
Proof. by apply (rejected_without_effect example_file 1 [0] 0 0); [..|left]. Defined.
