(* ===== verification/LsmtOpen.v ===== *)
(** * Creating, reopening and the life of a writable LSMT file

    A created file presents an empty disk.  Opening the files of a synced layer
    again recovers the disk from the index log.  Over any sequence of writes,
    discards, flushes and reopens the file refines a plain array of bytes. *)

From S2P Require Import Prelude LsmtSegment LsmtFormat LsmtIndex LsmtLookup LsmtIo LsmtHelper.
From S2P Require Import LsmtFile LsmtRead LsmtLog LsmtWrite LsmtDisk.

(** ** Reading the log back *)

(** Mappings the log keeps exactly. *)
Definition logged (tg : Z) (m : SegmentMapping) : Prop :=
  wf_mapping m ∧ sm_offset m + sm_length m < 2 ^ 50 ∧ sm_length m ≤ MAX_LENGTH
  ∧ tag m = tg ∧ zeroed m || has_physical_range m = true.

Lemma load_logged tg ms : Forall (logged tg) ms →
  load_mappings (length ms) (disks_bytes (to_disk <$> ms)) true = Ok ((λ m, set_tag m 0) <$> ms).
Proof.
  induction 1 as [|m ms (Hm & He & Hl & _ & Hz) _ IH]; [done|].
  cbn [length fmap list_fmap load_mappings]. rewrite disks_bytes_cons.
  rewrite MAX_LENGTH_val in Hl. wf_facts.
  assert (disk_fits (set_tag m 0)) as Hfit.
  { unfold disk_fits, NO_PHYSICAL_OFFSET in *. unfold set_tag, sm_offset, sm_length in *. simpl. lia. }
  pose proof (mapping_bytes_roundtrip _ Hfit) as Hrt.
  change (from_memory (set_tag m 0)) with (to_disk m) in Hrt.
  pose proof (disk_bytes_length (to_disk m)) as Hlen. set (b := disk_bytes (to_disk m)) in *.
  unfold ztake, zdrop. unfold zlen in Hlen. rewrite take_app_length', drop_app_length' by lia.
  destruct (disk_from_bytes _) as [dm|]; [|done].
  change (Some (to_memory dm) = Some (set_tag m 0)) in Hrt. apply Some_inj in Hrt. rewrite Hrt.
  change (sm_length (set_tag m 0)) with (sm_length m). change (sm_offset (set_tag m 0)) with (sm_offset m).
  destruct (Z.eqb_spec (sm_length m) 0); [lia|].
  destruct (Z.eqb_spec (sm_offset m) U64_MAX); [unfold U64_MAX in *; lia|]. cbn [orb].
  change (zeroed (set_tag m 0)) with (zeroed m).
  change (has_physical_range (set_tag m 0)) with (has_physical_range m). rewrite Hz. cbn [ensure rbind].
  change (fmap to_disk ms) with (to_disk <$> ms). rewrite IH. done.
Qed.

Lemma load_index_logged tg file off ms : Forall (logged tg) ms → 0 ≤ off → zlen file < 2 ^ 64 →
  off + MAPPING_SIZE * zlen ms ≤ zlen file →
  slice off (MAPPING_SIZE * zlen ms) file = disks_bytes (to_disk <$> ms) →
  load_index_and_reset_tags file off (zlen ms) = Ok ((λ m, set_tag m 0) <$> ms).
Proof.
  intros Hms Ho Hz Hend Hd. pose proof (zlen_nonneg ms).
  unfold load_index_and_reset_tags, load_index. destruct (Z.eqb_spec (zlen ms) 0) as [E|E].
  { by apply zlen_0 in E as ->. }
  rewrite (Z.mul_comm (zlen ms)).
  rewrite (proj2 (Z.leb_le (MAPPING_SIZE * zlen ms) U64_MAX)) by (unfold U64_MAX; lia).
  unfold checked_add64.
  rewrite (proj2 (Z.leb_le (off + MAPPING_SIZE * zlen ms) U64_MAX)) by (unfold U64_MAX; lia).
  rewrite (proj2 (Z.leb_le (off + MAPPING_SIZE * zlen ms) (zlen file))) by lia.
  unfold file_read. rewrite Hd, (proj2 (Z.leb_le _ (zlen (disks_bytes _))))
    by (rewrite zlen_disks_bytes, zlen_fmap; lia). cbn [ensure rbind].
  unfold zlen. rewrite Nat2Z.id. by apply (load_logged tg).
Qed.

Lemma recover_logged sparse_ok sd sh layout data tg ms file : layout ≠ Sparse →
  Forall (logged tg) ms → zlen file < 2 ^ 64 → HEADER_SIZE ≤ zlen file →
  zdrop HEADER_SIZE file = disks_bytes (to_disk <$> ms) →
  recover_index sparse_ok sd sh layout data (Some file)
  = Ok (fold_left mi_insert ((λ m, set_tag m 0) <$> ms) [], zlen file).
Proof.
  intros Hlay Hms Hz Hh Hd.
  assert (zlen file = HEADER_SIZE + MAPPING_SIZE * zlen ms) as El.
  { pose proof (zlen_zdrop HEADER_SIZE file ltac:(done)) as E.
    rewrite Hd, zlen_disks_bytes, zlen_fmap in E. lia. }
  pose proof (zlen_nonneg ms).
  assert (load_index_and_reset_tags file HEADER_SIZE (zlen ms) = Ok ((λ m, set_tag m 0) <$> ms)) as Eload.
  { apply (load_index_logged tg); [done|done|done|lia|]. unfold slice. rewrite Hd.
    by rewrite ztake_all by (rewrite zlen_disks_bytes, zlen_fmap; lia). }
  unfold recover_index. replace (zlen file - HEADER_SIZE) with (zlen ms * MAPPING_SIZE) by lia.
  unfold is_multiple_of. rewrite Z.mod_mul, Z.div_mul, Eload by done. cbn [Z.eqb ensure rbind].
  destruct layout; [|done|]; (destruct (Z.ltb_spec HEADER_SIZE (zlen file)) as [Hlt|Hge]; [done|];
    assert (zlen ms = 0) as ->%zlen_0 by (unfold MAPPING_SIZE in *; lia); done).
Qed.

(** Mappings whose length and end fit the disk format. *)
Definition small (m : SegmentMapping) : Prop :=
  sm_length m ≤ MAX_LENGTH ∧ sm_offset m + sm_length m < 2 ^ 50.

Lemma small_within a b : within a b → small b → small a.
Proof. unfold within, small. lia. Qed.

Lemma rev_fmap {A B} (g : A → B) l : rev (g <$> l) = g <$> rev l.
Proof. induction l as [|a l IH]; [done|]. simpl. by rewrite fmap_app, <- IH. Qed.

(** Replaying the log without tags and shifting them to [tg'] gives the upper
    index with that tag. *)
Lemma replayed_view tg tg' ms lo : 0 ≤ tg' < 2 ^ 8 → Forall (logged tg) ms →
  let ci := combo_new (fold_left mi_insert ((λ m, set_tag m 0) <$> ms) []) lo (wrap8 tg') in
  lower ci = lo ∧ wf_index (upper ci) ∧ (∀ x, view (upper ci) x = retag tg' <$> view (rev ms) x)
  ∧ Forall small (upper ci).
Proof.
  intros Htg Hms. pose proof Hms as Hms0. rewrite Forall_forall in Hms. rewrite wrap8_small by done.
  destruct (insert_log_view ((λ m, set_tag m 0) <$> ms) []) as [Hw Hv]; [apply wf_index_nil|..].
  { apply Forall_forall. intros a (m & -> & Hm)%list_elem_of_fmap. apply wf_set_tag; [lia|].
    by apply Hms. }
  set (up := fold_left _ _ _) in *.
  assert (∀ x, view up x = retag 0 <$> view (rev ms) x) as Hv0.
  { intros x. rewrite Hv, rev_fmap. rewrite (view_fmap _ (retag 0)) by done.
    by destruct (view (rev ms) x). }
  assert (∀ m, m ∈ up → tag m = 0) as Htag.
  { intros m Hm. pose proof (elem_of_wf _ _ Hw Hm). wf_facts.
    assert (covers m (sm_offset m) = true) as Hc by (apply covers_iff; lia).
    pose proof (view_elem _ _ _ Hw Hm Hc) as E. rewrite Hv0 in E.
    destruct (view (rev ms) _); [|done]. by injection E as _ _ <-. }
  rewrite combo_new_upper by (done || lia || (intros m Hm; rewrite Htag by done; lia)).
  cbn [upper lower]. split_and!; [done| | |].
  - apply wf_index_fmap; [done| |done]. intros m Hm Hwm. rewrite Htag by done. by apply wf_set_tag.
  - intros x. rewrite (view_fmap _ (retag tg')); [|done|].
    + rewrite Hv0. by destruct (view (rev ms) x).
    + intros m Hm. by rewrite Htag.
  - apply Forall_fmap. unfold up. eapply (Forall_impl small); [|done].
    apply insert_log_bound; [exact small_within|apply wf_index_nil|done|].
    apply Forall_fmap. eapply Forall_impl; [exact Hms0|]. intros m (H1 & H2 & H3 & _).
    split; [by apply wf_set_tag|done].
Qed.

(** ** The invariant of a layer that can be reopened *)

(** The first block of [data] is the header [h]. *)
Definition header_of (data : list Z) (h : HeaderTrailer) : Prop :=
  HEADER_SIZE ≤ zlen data ∧ wf_ht h ∧ ztake HT_SIZE data = ht_bytes h
  ∧ verify_magic h && is_header h = true.

Lemma verify_header data h size : header_of data h → verify_ht data false size = Ok h.
Proof.
  intros (Hz & Hh & Hd & Hm). unfold verify_ht. cbn [negb]. unfold file_read, slice.
  change (zdrop 0 data) with data.
  rewrite (proj2 (Z.leb_le HT_SIZE (zlen (ztake HEADER_SIZE data))))
    by (rewrite zlen_ztake; unfold HT_SIZE, HEADER_SIZE in *; lia).
  cbn [ensure rbind]. unfold ztake at 1 2. rewrite take_take.
  change (Z.to_nat HT_SIZE `min` Z.to_nat HEADER_SIZE)%nat with (Z.to_nat HT_SIZE).
  change (take (Z.to_nat HT_SIZE) data) with (ztake HT_SIZE data).
  rewrite Hd, ht_roundtrip by done. by rewrite Hm.
Qed.

Lemma header_of_ext data data' h : header_of data h → HEADER_SIZE ≤ zlen data' →
  (∀ p, 0 ≤ p < HEADER_SIZE → byte_at data' p = byte_at data p) → header_of data' h.
Proof.
  intros (Hz & Hh & Hd & Hm) Hz' Hb. split_and!; [done|done| |done]. rewrite <- Hd.
  unfold HT_SIZE, HEADER_SIZE in *. apply bytes_ext; [rewrite !zlen_ztake; lia|].
  intros p Hp. rewrite zlen_ztake in Hp. rewrite !byte_at_ztake by lia. bcases; apply Hb; lia.
Qed.

Section Life.
Context `{UuidOps}.

(** The mappings in the log, oldest first, decide the upper layer. *)
Definition durable (f : LSMTFile) : Prop := ∃ ms,
  (∀ x, view (upper (index f)) x = view (rev ms) x)
  ∧ Forall (logged (rw_tag f)) ms ∧ log_of f = disks_bytes (to_disk <$> ms).

Definition header_ok (f : LSMTFile) : Prop := ∃ h layout,
  header_of (rw_data_file f) h ∧ rw_layout_from_header h = Ok layout
  ∧ layout ≠ Sparse ∧ layout_file_type layout = file_type f ∧ virtual_size h = virtual_size_of f.

Record live (f : LSMTFile) : Prop := {
  lv_wf : wf_file f;
  lv_log : log_ok (rw_index_file f) (rw_index_append_offset f);
  lv_group : group_ok f (group_commit_buf f);
  lv_end : log_end (group_commit_buf f) (rw_index_append_offset f) < 2 ^ 64;
  lv_io : max_io_size f / ALIGNMENT ≤ MAX_LENGTH;
  lv_small : Forall small (upper (index f));
  lv_durable : durable f;
  lv_header : header_ok f
}.

Lemma live_type f : live f → file_type f ≠ SparseReadWrite.
Proof. intros Hf. destruct (lv_header f Hf) as (h & l & _ & _ & Hl & <- & _). by destruct l. Qed.

Lemma durable_extends f f' ms : durable f → extends f f' ms → file_type f ≠ SparseReadWrite →
  max_io_size f / ALIGNMENT ≤ MAX_LENGTH → wf_file f → durable f'.
Proof.
  intros (ms0 & Hv & Hl & Hb) He Ht Hio Hf.
  assert (Forall wf_mapping ms) as Hms by (eapply Forall_impl; [exact (ex_storable _ _ _ He)|]; by intros m []).
  destruct (insert_log_view ms (upper (index f))) as [_ Hv'];
    [apply (uo_wf _ _ _ _ (wf_upper f Hf))|done|].
  exists (ms0 ++ ms). split_and!.
  - intros x. rewrite (ex_upper _ _ _ He), Hv', Hv, rev_app_distr, view_app. by destruct (view (rev ms) x).
  - rewrite (ex_tag _ _ _ He). apply Forall_app. split; [done|]. eapply Forall_impl; [exact (ex_storable _ _ _ He)|].
    intros m (H1 & H2 & H3 & H4 & H5). split_and!; [done|done|lia|done|done].
  - by rewrite (ex_log _ _ _ He), Hb, fmap_app, disks_bytes_app.
Qed.

Lemma data_header f : wf_file f → file_type f ≠ SparseReadWrite → HEADER_SIZE ≤ zlen (rw_data_file f).
Proof. intros Hf Ht. pose proof (wf_data f Hf) as Hd. destruct (file_type f); try done; apply Hd. Qed.

Lemma live_step f f' s n new : live f → step_ok f f' s n new 0 → live f'.
Proof.
  intros Hf [Hwf Hr [ms He] _]. pose proof (live_type f Hf) as Ht. destruct (He).
  assert (file_type f' ≠ SparseReadWrite) as Ht' by congruence.
  destruct (Hr Ht') as (_ & Hok & Hg & Hend). constructor; try done.
  - unfold MAPPING_SIZE in *. lia.
  - rewrite ex_io. apply (lv_io f Hf).
  - rewrite ex_upper. apply insert_log_bound; [exact small_within|apply (uo_wf _ _ _ _ (wf_upper f (lv_wf f Hf)))
      |apply (lv_small f Hf)|].
    pose proof (lv_io f Hf). eapply Forall_impl; [exact ex_storable|].
    intros m (H1 & H2 & H3 & _). split; [done|]. unfold small. lia.
  - by eapply durable_extends; [apply (lv_durable f Hf)|exact He|done|apply (lv_io f Hf)|apply (lv_wf f Hf)].
  - destruct (lv_header f Hf) as (h & l & Hh & Hl & Hs & Hft & Hvs). exists h, l.
    split_and!; [|done|done|congruence|congruence].
    eapply header_of_ext; [exact Hh|by apply data_header|done].
Qed.

(** ** Flushing *)

Lemma sync_ok f : live f → ∃ f', lsmt_sync f = (f', Ok tt) ∧ live f' ∧ group_commit_buf f' = []
  ∧ virtual_size_of f' = virtual_size_of f ∧ ∀ p, disk f' p = disk f p.
Proof.
  intros Hf. destruct (flush_group_commit_ok f _ _ _ (lv_log f Hf) (lv_end f Hf)) as (a & E & Hok & Hb).
  rewrite set_log_id in E. eexists. split; [exact E|]. split; [|done].
  destruct (Hf) as [[] _ _ Hend Hio Hsm (ms & Hv & Hl & Hlog) Hh]. constructor; try done.
  - unfold log_end in *. cbn [set_log group_commit_buf rw_index_append_offset].
    change (zlen []) with 0. lia.
  - exists ms. split_and!; [done..|]. rewrite <- Hlog. exact Hb.
Qed.

(** ** Opening *)

(** The last block of the file does not look like the trailer of a sealed layer. *)
Definition unsealed_data (data : list Z) : bool :=
  negb ((HEADER_SIZE + 4096 <=? zlen data) && is_ok (verify_ht data true (zlen data))).

(** The upper index under another tag. *)
Lemma upper_ok_retag ft tg tg' up up' size : upper_ok ft tg up size → wf_index up' →
  (∀ x, view up' x = retag tg' <$> view up x) → upper_ok ft tg' up' size.
Proof.
  intros [H1 H2 H3 H4 H5] Hw Hv.
  assert (∀ x l, view up' x = Some l → ∃ l0, view up x = Some l0 ∧ l = retag tg' l0) as Hinv.
  { intros x l E. rewrite Hv in E. destruct (view up x) as [l0|]; [|done]. exists l0. by injection E as <-. }
  constructor; [done|..].
  - by intros x l (l0 & _ & ->)%Hinv.
  - intros x l (l0 & E & ->)%Hinv. apply (H3 _ _ E).
  - intros x l ph (l0 & E & ->)%Hinv. apply (H4 _ _ _ E).
  - intros Hft x y lx ly ph (l1 & E1 & ->)%Hinv (l2 & E2 & ->)%Hinv. by apply (H5 Hft _ _ _ _ _ E1 E2).
Qed.

Lemma initial_digest_ok data ft : HEADER_SIZE ≤ zlen data →
  ∃ dg, initial_append_digest data ft (zlen data) = Ok dg ∧ digest_ok ft data dg.
Proof.
  intros Hz. unfold initial_append_digest. case_bool_decide as Et; [|by eexists].
  cbn [negb]. destruct (Z.eqb_spec (zlen data) HEADER_SIZE) as [E|E]; [|by eexists].
  unfold tracker_from_header, file_read, slice. change (zdrop 0 data) with data.
  rewrite ztake_all, E by lia. eexists. split; [done|]. intros t [= <-]. done.
Qed.

(** The log under another tag. *)
Lemma durable_retag tg tg' ms : 0 ≤ tg' < 2 ^ 8 → Forall (logged tg) ms →
  let ms' := (λ m, set_tag m tg') <$> ms in
  Forall (logged tg') ms' ∧ to_disk <$> ms' = to_disk <$> ms
  ∧ ∀ x, view (rev ms') x = retag tg' <$> view (rev ms) x.
Proof.
  intros Ht Hms ms'. split_and!.
  - apply Forall_fmap. eapply Forall_impl; [exact Hms|]. intros m (H1 & H2 & H3 & _ & H5).
    by split_and!; [apply wf_set_tag|..].
  - unfold ms'. by rewrite <- list_fmap_compose.
  - intros x. unfold ms'. rewrite rev_fmap. by apply view_fmap.
Qed.

(** Opening the files of a flushed layer over any lower layers. *)
Lemma open_ok f sparse_ok sd sh lo lrs : live f → group_commit_buf f = [] →
  unsealed_data (rw_data_file f) = true → zlen lrs < 2 ^ 8 → lower_ok lrs lo →
  ∃ f', lsmt_open sparse_ok sd sh (rw_data_file f) (rw_index_file f) lo lrs = Ok f'
    ∧ live f' ∧ virtual_size_of f' = virtual_size_of f ∧ lower (index f') = lo
    ∧ lower_layers f' = lrs ∧ rw_data_file f' = rw_data_file f ∧ group_commit_buf f' = []
    ∧ ∀ x, view (upper (index f')) x = retag (zlen lrs) <$> view (upper (index f)) x.
Proof.
  intros Hf Hbuf Hun Hlt Hlo. pose proof (lv_wf f Hf) as Hwf. pose proof (live_type f Hf) as Ht.
  destruct (lv_header f Hf) as (h & layout & Hh & Hlay & Hns & Hft & Hvs).
  destruct (lv_durable f Hf) as (ms & Hv & Hl & Hlog).
  destruct (lv_log f Hf) as (file & Hfile & Hcur & Hhf & Hal).
  pose proof (lv_end f Hf) as Hend. pose proof (zlen_nonneg lrs). set (data := rw_data_file f) in *.
  unfold log_end in Hend. rewrite Hbuf, Hcur in Hend. change (zlen []) with 0 in Hend.
  unfold log_of in Hlog. rewrite Hbuf, Hfile in Hlog. simpl in Hlog. rewrite app_nil_r in Hlog.
  destruct (replayed_view (rw_tag f) (zlen lrs) ms lo) as (Elo & Hwu & Hvu & Hsm); [lia|done|].
  destruct (durable_retag (rw_tag f) (zlen lrs) ms) as (Hl' & Hd' & Hv'); [lia|done|].
  assert (HEADER_SIZE ≤ zlen data) as Hhd by by apply data_header.
  destruct (initial_digest_ok data (file_type f) Hhd) as (dg & Edg & Hdg).
  unfold unsealed_data in Hun. apply negb_true_iff in Hun.
  unfold lsmt_open. rewrite (verify_header data h) by done. cbn [rbind]. rewrite Hlay. cbn [rbind].
  unfold ensure_supported. rewrite bool_decide_false by done. cbn [negb orb ensure rbind].
  rewrite Hun, Hfile, (recover_logged _ _ _ _ _ (rw_tag f) ms) by (done || lia).
  cbn [rbind]. rewrite Hft, Edg. cbn [rbind]. eexists. split; [reflexivity|].
  set (f' := mkLSMT _ _ _ _ _ _ _ _ _ _ _ _ _ _ _).
  assert (∀ x, view (upper (index f')) x = retag (zlen lrs) <$> view (upper (index f)) x) as Hview.
  { intros x. rewrite Hv. apply Hvu. }
  assert (wf_file f') as Hwf'.
  { constructor; cbn [f' index max_io_size virtual_size_of rw_tag lower_layers file_type rw_data_file
      rw_data_append_offset append_digest]; [done|..|done].
    - rewrite Hvs. apply (wf_vsize f Hwf).
    - lia.
    - by rewrite Elo.
    - eapply upper_ok_retag; [apply (wf_upper f Hwf)|done|exact Hview].
    - pose proof (wf_data f Hwf) as Hd. destruct (file_type f); try done. all: by destruct Hd as (_ & ? & ?). }
  split_and!; try done. constructor; try done.
  - rewrite Hcur in Hhf, Hal. by exists file.
  - exists ((λ m, set_tag m (zlen lrs)) <$> ms). split_and!; [intros x; by rewrite Hv', Hview, Hv|done|].
    rewrite Hd'. unfold log_of. simpl. by rewrite app_nil_r.
  - by exists h, layout.
Qed.

Lemma reopen_ok f sparse_ok sd sh : live f → group_commit_buf f = [] →
  unsealed_data (rw_data_file f) = true →
  ∃ f', lsmt_open sparse_ok sd sh (rw_data_file f) (rw_index_file f) (lower (index f)) (lower_layers f)
        = Ok f' ∧ live f' ∧ virtual_size_of f' = virtual_size_of f ∧ ∀ p, disk f' p = disk f p.
Proof.
  intros Hf Hbuf Hun. pose proof (lv_wf f Hf) as Hwf. destruct (wf_rw_tag f Hwf) as [Htg Htg'].
  destruct (open_ok f sparse_ok sd sh (lower (index f)) (lower_layers f))
    as (f' & E & Hf' & Ev & Elo & Ell & Ed & _ & Hv); [done|done|done|lia|apply (wf_lowers f Hwf)|].
  exists f'. split_and!; [done..|]. intros p. unfold disk, disk_byte, combo_view, layers.
  rewrite Hv, Elo, Ell, Ed. do 2 f_equal.
  destruct (view (upper (index f)) (p / ALIGNMENT)) as [l|] eqn:El; [|done]. simpl. f_equal.
  rewrite <- Htg, <- (uo_tag _ _ _ _ (wf_upper f Hwf) _ _ El). by destruct l.
Qed.

(** ** Creating *)

Lemma wf_set_identity h u p t : wf_ht h → length u = 37%nat → length p = 37%nat →
  length t = 256%nat → wf_ht (set_identity h u p t).
Proof. intros [] Hu Hp Ht. by constructor. Qed.

Lemma wf_set_virtual_size h v : 0 ≤ v < 2 ^ 64 → wf_ht h → wf_ht (set_virtual_size h v).
Proof. intros Hv []. by constructor. Qed.

Lemma length_uuid_field `{!UuidSpec} u : length (fill_uuid_field 37 u) = 37%nat.
Proof.
  unfold fill_uuid_field. destruct u as [q|]; [|done]. pose proof (us_len q) as Hq. rewrite Hq.
  unfold zlen in Hq. unfold ztake, zeros, saturating_sub. rewrite length_app, length_take, length_replicate. lia.
Qed.

Lemma length_user_tag t : length (fill_user_tag 256 t) = 256%nat.
Proof.
  unfold fill_user_tag. destruct t as [t|]; [|done]. unfold ztake, zeros, zlen.
  rewrite length_app, length_take, length_replicate. lia.
Qed.

Lemma wf_rw_header `{!UuidSpec} vsize layout u parent tag : 0 ≤ vsize < 2 ^ 64 →
  wf_ht (rw_header vsize layout u parent tag).
Proof.
  intros Hv. unfold rw_header. set (h0 := set_data_file _).
  assert (wf_ht h0) as Hh0.
  { apply wf_flag_set; [done|]. apply wf_flag_set; [done|]. apply wf_set_virtual_size; [done|].
    destruct wf_ht_new. by constructor. }
  set (h1 := match layout with LogStructured => h0 | Sparse => _ | HybridLogStructured => _ end).
  assert (wf_ht h1) as Hh1 by (destruct layout; [done|by apply wf_flag_set..]).
  assert (length (uuid_hyphenated u ++ [0]) = 37%nat) as Hu.
  { pose proof (us_len u) as Hu. unfold zlen in Hu. rewrite length_app. simpl. lia. }
  unfold fill_identity, set_uuid.
  repeat apply wf_set_identity; try done; try apply length_uuid_field; try apply length_user_tag;
    destruct Hh1; done.
Qed.

Lemma header_block_of h : wf_ht h → verify_magic h && is_header h = true → header_of (header_block h) h.
Proof.
  intros Hh Hm. pose proof (zlen_ht_bytes h Hh) as Hz. split_and!; [|done| |done].
  - unfold header_block. rewrite zlen_app, Hz, zlen_zeros. unfold HT_SIZE, HEADER_SIZE. lia.
  - unfold header_block, ztake. unfold zlen in Hz. by rewrite take_app_length' by lia.
Qed.

Lemma zlen_header_block h : wf_ht h → zlen (header_block h) = HEADER_SIZE.
Proof.
  intros Hh. unfold header_block. rewrite zlen_app, zlen_ht_bytes, zlen_zeros by done. done.
Qed.

Lemma create_ok `{!UuidSpec} sparse_ok vsize layout u parent tag : layout ≠ Sparse →
  0 ≤ vsize < 2 ^ 63 →
  ∃ f, create_with_metadata sparse_ok [] (Some []) vsize layout u parent tag = Ok f
    ∧ live f ∧ sealed f = false ∧ virtual_size_of f = vsize
    ∧ file_type f = layout_file_type layout ∧ ∀ p, disk f p = 0.
Proof.
  intros Hl Hv. set (h := rw_header vsize layout u parent tag).
  assert (wf_ht h) as Hh by (apply wf_rw_header; lia).
  set (hi := set_unsealed_index_offset (set_index_file h)).
  assert (wf_ht hi) as Hhi.
  { assert (wf_ht (set_index_file h)) as Hi by (by apply wf_flag_clear).
    destruct Hi. by constructor. }
  destruct (initial_digest_ok (header_block h) (layout_file_type layout)) as (dg & Edg & Hdg);
    [by rewrite zlen_header_block|]. rewrite zlen_header_block in Edg by done.
  assert (∀ h, write_header_block [] h = header_block h) as Ew.
  { intros h'. apply (file_write_end [] (header_block h')). }
  unfold create_with_metadata, ensure_supported. rewrite bool_decide_false by done.
  cbn [negb orb ensure rbind]. fold h. rewrite !Ew. fold hi. exists
    (mkLSMT (combo_new [] None 0) [] (header_block h) (Some (header_block hi)) vsize 0 false MAX_IO_SIZE
       [u] (layout_file_type layout) 0 [] HEADER_SIZE HEADER_SIZE dg).
  split; [destruct layout; [|done|]; cbn [rbind]; by rewrite Edg|].
  split; [|done]. constructor; try done.
  - constructor; try done.
    + by constructor; try apply wf_index_nil.
    + cbn [file_type rw_data_file rw_data_append_offset virtual_size_of].
      destruct layout; try done; unfold layout_file_type, data_ok; by rewrite zlen_header_block.
  - exists (header_block hi). by rewrite zlen_header_block.
  - exists []. split_and!; [done..|]. unfold log_of, log_bytes. cbn [rw_index_file group_commit_buf].
    pose proof (zlen_header_block hi Hhi) as E. unfold zdrop. unfold zlen in E. rewrite drop_ge by lia. done.
  - exists h, layout. split_and!; [|by destruct layout|done|done|by destruct layout].
    apply header_block_of; [done|]. by destruct layout.
Qed.

(** ** Changing the virtual size *)

Lemma zlen_slice_parts bs : zlen bs = HT_SIZE → ∀ h vs, ht_from_bytes bs = Some h →
  zlen (ht_bytes (set_virtual_size h vs)) = HT_SIZE.
Proof.
  intros Hz h vs. unfold ht_from_bytes. rewrite Hz, Z.eqb_refl. intros [= <-].
  unfold ht_bytes. cbn [set_virtual_size ht_with magic0 magic1 ht_size flags index_offset index_size
    virtual_size uuid parent_uuid reserved version sub_version user_tag].
  rewrite !zlen_app, !zlen_le_bytes, !zlen_slice by (unfold HT_SIZE in *; lia). done.
Qed.

(** The header block changes, nothing after it does. *)
Lemma update_vsize_block file vsize : HEADER_SIZE ≤ zlen file → 0 ≤ vsize < 2 ^ 64 →
  ∃ file', update_header_vsize file vsize = Ok file' ∧ zlen file' = zlen file
    ∧ (∀ p, HT_SIZE ≤ p → byte_at file' p = byte_at file p)
    ∧ ∀ h, header_of file h → header_of file' (set_virtual_size h vsize).
Proof.
  intros Hz Hv. unfold update_header_vsize, file_read, slice. change (zdrop 0 file) with file.
  assert (zlen (ztake HEADER_SIZE file) = HEADER_SIZE) as Hg
    by (rewrite zlen_ztake; unfold HEADER_SIZE in *; lia).
  rewrite Hg, (proj2 (Z.leb_le HT_SIZE HEADER_SIZE)) by done. cbn [ensure rbind].
  change (zeros (HEADER_SIZE - HEADER_SIZE)) with (@nil Z). rewrite app_nil_r.
  assert (ztake HT_SIZE (ztake HEADER_SIZE file) = ztake HT_SIZE file) as Et.
  { unfold ztake. by rewrite take_take. }
  assert (zlen (ztake HT_SIZE file) = HT_SIZE) as Hh
    by (rewrite zlen_ztake; unfold HEADER_SIZE, HT_SIZE in *; lia).
  rewrite Et. destruct (ht_from_bytes (ztake HT_SIZE file)) as [h|] eqn:Eh;
    [|by unfold ht_from_bytes in Eh; rewrite Hh in Eh].
  pose proof (zlen_slice_parts _ Hh h vsize Eh) as Hl.
  set (nb := ht_bytes (set_virtual_size h vsize)) in *.
  set (block := nb ++ zdrop HT_SIZE (ztake HEADER_SIZE file)).
  assert (zlen block = HEADER_SIZE) as Hb
    by (unfold block; rewrite zlen_app, zlen_zdrop, Hg, Hl by done; done).
  assert (is_nil block = false) as Hnn by (destruct block; [by vm_compute in Hb|done]).
  eexists. split; [reflexivity|]. split_and!.
  - rewrite zlen_file_write, Hnn, Hb by lia. lia.
  - intros p Hp. unfold HT_SIZE in Hp. rewrite byte_at_file_write, Hb by lia.
    replace (p - 0) with p by lia. destruct (Z.ltb_spec p (0 + HEADER_SIZE)); [|by rewrite andb_false_r].
    rewrite (proj2 (Z.leb_le 0 p)) by lia. cbn [andb]. unfold block.
    rewrite byte_at_app, Hl by lia. unfold HT_SIZE. bcases.
    rewrite byte_at_zdrop, byte_at_ztake by (unfold HT_SIZE; lia).
    unfold HEADER_SIZE, HT_SIZE in *. bcases; f_equal; lia.
  - intros h' (_ & Hwf & Hd & Hm).
    rewrite Hd, ht_roundtrip in Eh by done. injection Eh as <-. split_and!.
    + rewrite zlen_file_write, Hnn, Hb by lia. lia.
    + by destruct Hwf; constructor.
    + unfold file_write. rewrite Hnn. change (ztake 0 _) with (@nil Z). cbn [app].
      unfold block. rewrite <- app_assoc. unfold ztake. unfold zlen in Hl.
      rewrite take_app_length' by lia. done.
    + done.
Qed.

(** Rebuilding the digest reads the whole file. *)
Lemma rebuild_loop_ok data fuel : ∀ offset t, zlen data < 2 ^ 64 → 0 ≤ offset ≤ zlen data →
  (Z.to_nat (zlen data - offset) < fuel)%nat → t = mkTracker (ztake offset data) offset →
  rebuild_loop fuel data (zlen data) offset t = Ok (mkTracker data (zlen data)).
Proof.
  induction fuel as [|fuel IH]; intros offset t Hz Ho Hfuel ->; [lia|]. cbn [rebuild_loop].
  destruct (Z.ltb_spec offset (zlen data)).
  - set (want := Z.min (128 * 1024) (zlen data - offset)).
    assert (zlen (file_read data offset want) = want) as Hw by (apply zlen_slice; lia).
    rewrite Hw, Z.eqb_refl. cbn [ensure rbind]. unfold absorb. destruct (is_nil _) eqn:En.
    { destruct (file_read data offset want); [|done]. change (zlen []) with 0 in Hw. lia. }
    cbn [td_offset]. rewrite Z.eqb_refl, Hw. cbn [ensure rbind]. unfold checked_add64, U64_MAX.
    destruct (Z.leb_spec (offset + want) (2 ^ 64 - 1)); [|lia]. cbn [rbind hasher].
    apply IH; [done|lia|lia|]. f_equal. unfold file_read, slice, ztake, zdrop.
    rewrite Z2Nat.inj_add, <- take_take_drop by lia. done.
  - assert (offset = zlen data) as -> by lia. by rewrite ztake_all by lia.
Qed.

Lemma rebuild_ok data : HEADER_SIZE ≤ zlen data < 2 ^ 64 →
  rebuild_append_digest_from_file data (zlen data) = Ok (mkTracker data (zlen data)).
Proof.
  intros Hz. unfold rebuild_append_digest_from_file, tracker_from_header, file_read, slice.
  change (zdrop 0 data) with data. rewrite zlen_ztake, Z.min_l, Z.max_r by (unfold HEADER_SIZE in *; lia).
  rewrite Z.eqb_refl, (proj2 (Z.leb_le _ _)) by lia. cbn [ensure rbind].
  apply rebuild_loop_ok; try done; unfold HEADER_SIZE in *; lia.
Qed.

(** A file whose data differs only inside the header block. *)
Lemma wf_new_header f f' : wf_file f → file_type f ≠ SparseReadWrite →
  index f' = index f → lower_layers f' = lower_layers f → rw_tag f' = rw_tag f →
  max_io_size f' = max_io_size f → file_type f' = file_type f → 0 ≤ virtual_size_of f' < 2 ^ 63 →
  rw_data_append_offset f' = rw_data_append_offset f →
  zlen (rw_data_file f') = zlen (rw_data_file f) →
  (∀ p, HEADER_SIZE ≤ p → byte_at (rw_data_file f') p = byte_at (rw_data_file f) p) →
  digest_ok (file_type f') (rw_data_file f') (append_digest f') →
  wf_file f' ∧ ∀ p, disk f' p = disk f p.
Proof.
  intros Hf Ht Ei El Eg Eio Et Hv Ec Ez Eb Hdg. assert (wf_file f') as Hf'.
  { destruct Hf. constructor; rewrite ?Ei, ?El, ?Eg, ?Eio, ?Et, ?Ez, ?Ec; try done; [|by rewrite Et in Hdg].
    destruct (file_type f); try done; unfold data_ok in *; by rewrite Ez. }
  split; [done|]. intros p. destruct (view (upper (index f)) (p / ALIGNMENT)) as [l|] eqn:E.
  - rewrite (disk_upper f' p l), (disk_upper f p l) by (done || by rewrite Ei).
    unfold up_byte. destruct (loc_zeroed l); [done|]. destruct (loc_phys l) as [ph|] eqn:Eph; [|done].
    apply Eb. pose proof (uo_place _ _ _ _ (wf_upper f Hf) _ _ _ E Eph) as Hpl.
    pose proof (Z.mod_pos_bound p ALIGNMENT ltac:(done)).
    destruct (file_type f); try done; unfold placed, HEADER_SIZE, ALIGNMENT in *;
      change (4096 / 512) with 8 in Hpl; lia.
  - apply disk_lower_eq; [done|by rewrite Ei|done|done|by rewrite Ei].
Qed.

(** The state [update_vsize] leaves. *)
Definition resized (f : LSMTFile) (data : list Z) (idx : option (list Z)) (vsize : Z) : LSMTFile :=
  mkLSMT (index f) (lower_layers f) data idx vsize (rw_tag f) (sealed f) (max_io_size f) (uuids f)
    (file_type f) (group_commit_size f) (group_commit_buf f) (rw_data_append_offset f)
    (rw_index_append_offset f)
    ((λ _, mkTracker data (zlen data)) <$> append_digest f).

Lemma update_vsize_run f vsize data' file file' : wf_file f →
  file_type f ≠ SparseReadWrite → zlen (rw_data_file f) < 2 ^ 64 →
  zlen data' = zlen (rw_data_file f) → rw_index_file f = Some file →
  update_header_vsize (rw_data_file f) vsize = Ok data' →
  update_header_vsize file vsize = Ok file' →
  update_vsize vsize f = (resized f data' (Some file') vsize, Ok tt).
Proof.
  intros Hf Ht Hlt Ez Efile Ed Ei. pose proof (data_header f Hf Ht) as Hh.
  assert (rw_data_append_offset f = zlen data') as Ec.
  { rewrite Ez. pose proof (wf_data f Hf) as Hd. destruct (file_type f); try done; apply Hd. }
  pose proof (wf_digest f Hf) as Hdg. unfold update_vsize, resized, bind, get, modify, lift, ret.
  destruct f as [ix lo d a v tg se io us ft gs gb dc ic dg].
  cbn [file_type append_digest rw_data_append_offset rw_data_file rw_index_file] in *. subst a dc.
  destruct dg as [t|].
  - destruct (Hdg t eq_refl) as (-> & _ & Eo).
    assert ((td_offset t =? zlen data') && (HEADER_SIZE <=? zlen data') = true) as Er by lia.
    rewrite Er, !bool_decide_true, !bool_decide_false by done.
    cbn -[update_header_vsize rebuild_append_digest_from_file]. rewrite Ed.
    cbn -[update_header_vsize rebuild_append_digest_from_file]. rewrite rebuild_ok by lia.
    cbn -[update_header_vsize]. rewrite Z.eqb_refl. cbn -[update_header_vsize]. by rewrite Ei.
  - rewrite andb_false_r. destruct (bool_decide (ft = ReadWrite)); cbn -[update_header_vsize]; rewrite Ed;
      cbn -[update_header_vsize]; rewrite bool_decide_false by done; cbn -[update_header_vsize];
      by rewrite Ei.
Qed.

Lemma update_vsize_ok f vsize : live f → zlen (rw_data_file f) < 2 ^ 64 → 0 ≤ vsize < 2 ^ 63 →
  ∃ f', update_vsize vsize f = (f', Ok tt) ∧ live f' ∧ virtual_size_of f' = vsize
    ∧ group_commit_buf f' = group_commit_buf f ∧ ∀ p, disk f' p = disk f p.
Proof.
  intros Hf Hlt Hv. pose proof (lv_wf f Hf) as Hwf. pose proof (live_type f Hf) as Ht.
  destruct (lv_log f Hf) as (file & Efile & Hcur & Hhf & Hal).
  destruct (update_vsize_block (rw_data_file f) vsize) as (data' & Ed & Ez & Eb & Hhd);
    [by apply data_header|lia|].
  destruct (update_vsize_block file vsize) as (file' & Ei & Ezi & Ebi & _); [lia|lia|].
  exists (resized f data' (Some file') vsize). split; [by eapply update_vsize_run|].
  destruct (wf_new_header f (resized f data' (Some file') vsize)) as [Hwf' Hdisk]; try done.
  { intros p Hp. apply Eb. unfold HEADER_SIZE, HT_SIZE in *. lia. }
  { intros t E. cbn [resized append_digest] in E. destruct (append_digest f) as [t0|] eqn:E0; [|done].
    injection E as <-. by destruct (wf_digest f Hwf t0 E0). }
  split; [|done]. constructor; try done.
  - exists file'. cbn [resized rw_index_file rw_index_append_offset]. by rewrite Ezi.
  - apply (lv_group f Hf).
  - apply (lv_end f Hf).
  - apply (lv_io f Hf).
  - apply (lv_small f Hf).
  - destruct (lv_durable f Hf) as (ms & Hvw & Hl & Hlog). exists ms. split_and!; [done..|].
    rewrite <- Hlog. unfold log_of, log_bytes. cbn [resized rw_index_file group_commit_buf]. rewrite Efile.
    f_equal. apply bytes_ext; [by rewrite !zlen_zdrop, Ezi|]. intros p Hp.
    rewrite !byte_at_zdrop by lia || (unfold HEADER_SIZE; lia). apply Ebi. unfold HEADER_SIZE, HT_SIZE. lia.
  - destruct (lv_header f Hf) as (h & l & Hh & Hl & Hs & Hft & _).
    exists (set_virtual_size h vsize), l. split_and!; [by apply Hhd|done..].
Qed.

Lemma truncate_ok f vsize : live f → sealed f = false → zlen (rw_data_file f) < 2 ^ 64 →
  0 ≤ vsize < 2 ^ 63 →
  ∃ f', lsmt_truncate vsize f = (f', Ok tt) ∧ live f' ∧ virtual_size_of f' = vsize
    ∧ ∀ p, disk f' p = disk f p.
Proof.
  intros Hf Hs Hlt Hv.
  destruct (flush_group_commit_ok f _ _ _ (lv_log f Hf) (lv_end f Hf)) as (a & E & _ & _).
  destruct (sync_ok f Hf) as (g & Eg & Hg & _ & _ & Hd). rewrite set_log_id in E.
  unfold lsmt_sync in Eg. assert (rw_data_file g = rw_data_file f) as Ed by (rewrite E in Eg; by injection Eg as <-).
  destruct (update_vsize_ok g vsize Hg) as (f' & Ef' & Hf' & Hv' & _ & Hd'); [by rewrite Ed|done|].
  exists f'. split_and!; [|done|done|intros p; by rewrite Hd', Hd].
  unfold lsmt_truncate. rewrite bind_get, bind_ensure by (by rewrite Hs). by erewrite bind_ok by exact Eg.
Qed.

(** ** Histories *)

(** A history of a layer and the array of bytes it should present: operations
    that fit the 64-bit cursors, flushes, and reopens of the flushed files. *)
Inductive history `{FileDiscard} (f0 : LSMTFile) : LSMTFile → (Z → Z) → Z → Prop :=
| h_start : history f0 f0 (disk f0) (virtual_size_of f0)
| h_write f d v offset data f' n : history f0 f d v → 0 ≤ offset → offset + zlen data < 2 ^ 59 →
    has_room f (zlen data / ALIGNMENT) → write_internal offset data f = (f', Ok n) →
    history f0 f' (λ p, if (offset <=? p) && (p <? offset + zlen data)
                        then byte_at data (p - offset) else d p) v
| h_discard f d v offset len f' : history f0 f d v → 0 ≤ offset → 0 ≤ len → offset + len < 2 ^ 59 →
    has_room f (len / ALIGNMENT) → discard_range offset len f = (f', Ok tt) →
    history f0 f' (λ p, if (offset <=? p) && (p <? offset + len) then 0 else d p) v
| h_truncate f d v vsize f' : history f0 f d v → 0 ≤ vsize < 2 ^ 63 → zlen (rw_data_file f) < 2 ^ 64 →
    lsmt_truncate vsize f = (f', Ok tt) → history f0 f' d vsize
| h_sync f d v f' : history f0 f d v → lsmt_sync f = (f', Ok tt) → history f0 f' d v
| h_reopen f d v sparse_ok sd sh f' : history f0 f d v → group_commit_buf f = [] →
    lsmt_open sparse_ok sd sh (rw_data_file f) (rw_index_file f) (lower (index f)) (lower_layers f)
    = Ok f' → history f0 f' d v.

(** What success of an operation tells about its arguments. *)
Lemma write_succeeds offset data f f' n : write_internal offset data f = (f', Ok n) →
  sealed f = false ∧ (data = [] ∨ offset mod ALIGNMENT = 0 ∧ zlen data mod ALIGNMENT = 0).
Proof.
  unfold write_internal, bind at 1. cbn [get]. unfold bind at 1, ensure_m, lift, check_alignment.
  destruct (sealed f); [done|]. cbn [negb ensure]. intros E. split; [done|].
  destruct data as [|b data]; [by left|right]. cbn [is_nil] in E. unfold bind at 1 in E.
  destruct (is_multiple_of _ _ && _) eqn:Ea; [|done].
  apply andb_true_iff in Ea as [H1 H2]. unfold is_multiple_of in *. lia.
Qed.

Lemma discard_succeeds `{FileDiscard} offset len f f' : discard_range offset len f = (f', Ok tt) →
  sealed f = false ∧ (len = 0 ∨ offset mod ALIGNMENT = 0 ∧ len mod ALIGNMENT = 0).
Proof.
  unfold discard_range, bind at 1. cbn [get]. unfold bind at 1, ensure_m, lift.
  destruct (sealed f); [done|]. cbn [negb ensure]. intros E. split; [done|].
  destruct (Z.eqb_spec len 0); [by left|right]. unfold bind at 1 in E.
  destruct (is_multiple_of _ _ && _) eqn:Ea; [|done].
  apply andb_true_iff in Ea as [H1 H2]. unfold is_multiple_of in *. lia.
Qed.

Lemma open_unsealed sparse_ok sd sh data idx li ls f' :
  lsmt_open sparse_ok sd sh data idx li ls = Ok f' → unsealed_data data = true.
Proof.
  unfold lsmt_open, unsealed_data. destruct (verify_ht data false _); [|done]. cbn [rbind].
  destruct (rw_layout_from_header _) as [l|]; [|done]. cbn [rbind].
  destruct (ensure_supported _ l); [|done]. cbn [rbind]. by destruct (_ && _).
Qed.

Lemma write_effect offset data f f' n : live f → 0 ≤ offset → offset + zlen data < 2 ^ 59 →
  has_room f (zlen data / ALIGNMENT) → write_internal offset data f = (f', Ok n) →
  live f' ∧ virtual_size_of f' = virtual_size_of f
  ∧ ∀ p, disk f' p = if (offset <=? p) && (p <? offset + zlen data)
                     then byte_at data (p - offset) else disk f p.
Proof.
  intros Hf Ho Hend Hr E. destruct (write_succeeds _ _ _ _ _ E) as [Hs [->|[Hoa Hla]]].
  - unfold write_internal in E. rewrite bind_get, bind_ensure in E by (by rewrite Hs).
    injection E as <- _. split_and!; [done..|]. intros p. change (zlen []) with 0. by bcases; lia.
  - destruct (write_internal_ok f offset data (lv_wf f Hf)) as (g & Eg & Hg); [done..|].
    rewrite Eg in E. injection E as <- _. split; [by eapply live_step|].
    eapply step_bytes; [..|exact Hg]; try done. apply zlen_nonneg.
Qed.

Lemma discard_effect `{FileDiscardSpec} offset len f f' : live f → 0 ≤ offset → 0 ≤ len →
  offset + len < 2 ^ 59 → has_room f (len / ALIGNMENT) → discard_range offset len f = (f', Ok tt) →
  live f' ∧ virtual_size_of f' = virtual_size_of f
  ∧ ∀ p, disk f' p = if (offset <=? p) && (p <? offset + len) then 0 else disk f p.
Proof.
  intros Hf Ho Hl Hend Hr E. destruct (discard_succeeds _ _ _ _ E) as [Hs [->|[Hoa Hla]]].
  - unfold discard_range in E. rewrite bind_get, bind_ensure in E by (by rewrite Hs).
    injection E as <-. split_and!; [done..|]. intros p. by bcases; lia.
  - destruct (discard_range_ok f offset len (lv_wf f Hf)) as (g & Eg & Hg); [done..|].
    rewrite Eg in E. injection E as <-. split; [by eapply live_step|].
    by apply (step_bytes _ _ offset len _ _) in Hg as (? & ? & ?).
Qed.

Lemma truncate_succeeds vsize f f' : lsmt_truncate vsize f = (f', Ok tt) → sealed f = false.
Proof.
  unfold lsmt_truncate, bind at 1. cbn [get]. unfold bind at 1, ensure_m, lift. by destruct (sealed f).
Qed.

(** A flushed layer can be opened again, and presents the same disk: the
    index log alone rebuilds the upper index.  (The open code takes a data
    file whose last block looks like a sealed trailer for a sealed layer.) *)
Theorem synced_layer_reopens f sparse_ok sd sh : live f →
  ∃ f1, lsmt_sync f = (f1, Ok tt)
    ∧ (unsealed_data (rw_data_file f1) = true →
       ∃ f2, lsmt_open sparse_ok sd sh (rw_data_file f1) (rw_index_file f1) (lower (index f1))
               (lower_layers f1) = Ok f2
         ∧ live f2 ∧ virtual_size_of f2 = virtual_size_of f ∧ ∀ p, disk f2 p = disk f p).
Proof.
  intros Hf. destruct (sync_ok f Hf) as (f1 & E1 & Hf1 & Hb & Hv1 & Hd1). exists f1. split; [done|].
  intros Hu. destruct (reopen_ok f1 sparse_ok sd sh Hf1 Hb Hu) as (f2 & E2 & Hf2 & Hv2 & Hd2).
  exists f2. split_and!; [done|done|congruence|]. intros p. by rewrite Hd2.
Qed.
(** The disk after a history. *)
Lemma history_disk `{FileDiscardSpec} f0 f d v : live f0 → history f0 f d v →
  live f ∧ virtual_size_of f = v ∧ ∀ p, disk f p = d p.
Proof.
  intros Hf0. induction 1 as [|f d v offset data f' n _ (Hf & <- & Hd) Ho Hend Hr E
    |f d v offset len f' _ (Hf & <- & Hd) Ho Hl Hend Hr E|f d v vsize f' _ (Hf & <- & Hd) Hvs Hz E
    |f d v f' _ (Hf & <- & Hd) E|f d v so sd sh f' _ (Hf & <- & Hd) Hb E]; [done|..].
  - destruct (write_effect _ _ _ _ _ Hf Ho Hend Hr E) as (Hf' & Hv & Hd').
    split_and!; [done..|]. intros p. by rewrite Hd', Hd.
  - destruct (discard_effect _ _ _ _ Hf Ho Hl Hend Hr E) as (Hf' & Hv & Hd').
    split_and!; [done..|]. intros p. by rewrite Hd', Hd.
  - destruct (truncate_ok f vsize Hf (truncate_succeeds _ _ _ E) Hz Hvs) as (g & Eg & Hg & Hv' & Hd').
    rewrite Eg in E. injection E as <-. split_and!; [done..|]. intros p. by rewrite Hd'.
  - destruct (sync_ok f Hf) as (g & Eg & Hg & _ & Hv & Hd'). rewrite Eg in E. injection E as <-.
    split_and!; [done..|]. intros p. by rewrite Hd'.
  - destruct (reopen_ok f so sd sh Hf Hb) as (g & Eg & Hg & Hv & Hd'); [by eapply open_unsealed|].
    rewrite Eg in E. injection E as <-. split_and!; [done..|]. intros p. by rewrite Hd'.
Qed.

(** C1: Over any history of successful writes, discards, truncations, flushes
    and reopens an open layer behaves as a plain array of bytes with a length:
    the disk it presents is the array.  A flush then succeeds, and after it the
    files of the layer open again with the same disk, unless the data file ends
    in a block that looks like the trailer of a sealed layer. *)
Theorem history_refines_array `{FileDiscardSpec} f0 f d v : live f0 → history f0 f d v →
  live f ∧ virtual_size_of f = v ∧ (∀ p, disk f p = d p)
  ∧ ∃ f1, lsmt_sync f = (f1, Ok tt)
    ∧ (unsealed_data (rw_data_file f1) = true → ∀ sparse_ok sd sh,
       ∃ f2, lsmt_open sparse_ok sd sh (rw_data_file f1) (rw_index_file f1) (lower (index f1)) (lower_layers f1) = Ok f2
         ∧ live f2 ∧ virtual_size_of f2 = v ∧ ∀ p, disk f2 p = d p).
Proof.
  intros Hf0 Hh. destruct (history_disk f0 f d v Hf0 Hh) as (Hf & Hv & Hd). split_and!; [done..|].
  destruct (sync_ok f Hf) as (f1 & E1 & _). exists f1. split; [done|]. intros Hu sparse_ok sd sh.
  destruct (synced_layer_reopens f sparse_ok sd sh Hf) as (f1' & E1' & Hr). assert (f1' = f1) as -> by congruence.
  destruct (Hr Hu) as (f2 & E2 & Hf2 & Hv2 & Hd2). exists f2. split_and!; [done|done|congruence|]. intros p. by rewrite Hd2.
Qed.

(** Creating a log-structured or hybrid layer succeeds and yields an empty
    disk of the requested size in the layer's own invariant. *)
Theorem create_empty_disk `{!UuidSpec} sparse_ok vsize layout u parent tag : layout ≠ Sparse →
  0 ≤ vsize < 2 ^ 63 →
  ∃ f, create_with_metadata sparse_ok [] (Some []) vsize layout u parent tag = Ok f
    ∧ live f ∧ sealed f = false ∧ virtual_size_of f = vsize ∧ ∀ p, disk f p = 0.
Proof.
  intros Hl Hv. destruct (create_ok sparse_ok vsize layout u parent tag Hl Hv)
    as (f & E & Hf & Hs & Hvs & _ & Hd). by exists f.
Qed.

End Life.

(** ** Examples *)
#[local] Existing Instance one_uuid.
#[local] Existing Instance one_uuid_spec.
#[local] Existing Instance punch_hole.

(** The state an operation leaves, for operations known to succeed. *)
Definition after {A} (m : M A) (f : LSMTFile) : LSMTFile := (m f).1.
Definition opened (r : result lsmt_error LSMTFile) (f : LSMTFile) : LSMTFile :=
  match r with Ok f' => f' | Err _ => f end.
Definition no_seek : Z → option Z := λ _, None.
Definition reopen (f : LSMTFile) : result lsmt_error LSMTFile :=
  lsmt_open true no_seek no_seek (rw_data_file f) (rw_index_file f) (lower (index f)) (lower_layers f).

(** A new log-structured layer of 8 KiB, and the same layer after one write. *)
Definition ex_new : LSMTFile :=
  opened (create_with_metadata true [] (Some []) 8192 LogStructured uuid_nil None None) example_file.
Definition ex_written : LSMTFile := after (write_internal 512 (replicate 512 5)) ex_new.

Lemma ex_new_live : live ex_new.
Proof.
  destruct (create_ok true 8192 LogStructured uuid_nil None None) as (f & E & Hf & _); [done|lia|].
  unfold ex_new. by rewrite E.
Qed.

Lemma ex_new_room : has_room ex_new 1.
Proof. intros _. split; [by vm_compute|]. split_and!; [|done|by vm_compute]. by eexists; vm_compute. Qed.

Lemma history_refines_array_witness :
  live (opened (reopen ex_written) ex_new) ∧ disk (opened (reopen ex_written) ex_new) 600 = 5.
Proof.
  destruct (history_refines_array ex_new (opened (reopen ex_written) ex_new)
    (λ p, if (512 <=? p) && (p <? 512 + zlen (replicate 512 5))
          then byte_at (replicate 512 5) (p - 512) else disk ex_new p) 8192 ex_new_live) as (Hl & _ & Hd & _).
  - apply h_reopen with (f := ex_written) (sparse_ok := true) (sd := no_seek) (sh := no_seek);
      [|by vm_compute|by vm_compute].
    apply h_write with (f := ex_new) (n := 512); [apply (h_start ex_new)|lia|by vm_compute
      |exact ex_new_room|by vm_compute].
  - split; [done|]. by rewrite Hd.
Defined.

Lemma create_empty_disk_witness :
  ∃ f, create_with_metadata true [] (Some []) 8192 HybridLogStructured uuid_nil None (Some [97]) = Ok f
    ∧ disk f 4096 = 0.
Proof.
  destruct (create_empty_disk true 8192 HybridLogStructured uuid_nil None (Some [97]))
    as (f & E & _ & _ & _ & Hd); [done|lia|]. by exists f.
Defined.

Lemma ex_new_facts : lsmt_sync ex_new = (ex_new, Ok tt)
  ∧ unsealed_data (rw_data_file ex_new) = true ∧ virtual_size_of ex_new = 8192.
Proof. by vm_compute. Qed.

Lemma synced_layer_reopens_witness :
  ∃ f1 f2, lsmt_sync ex_new = (f1, Ok tt)
    ∧ lsmt_open true no_seek no_seek (rw_data_file f1) (rw_index_file f1) (lower (index f1))
        (lower_layers f1) = Ok f2
    ∧ virtual_size_of f2 = 8192.
Proof.
  destruct (synced_layer_reopens ex_new true no_seek no_seek ex_new_live) as (f1 & E1 & Hr).
  destruct ex_new_facts as (E & Hu & Hv). assert (f1 = ex_new) as -> by congruence.
  destruct (Hr Hu) as (f2 & E2 & _ & Hv2 & _). exists ex_new, f2. split_and!; [done..|congruence].
Defined.

(** ** Where the code departs from its intent *)

(** Switching group commit off with mappings still buffered lets newer mappings
    overtake them in the log: after a flush and a reopen the older write wins. *)
Definition regrouped : LSMTFile :=
  after lsmt_sync
    (after (write_internal 0 (replicate 512 2))
      (after (set_index_group_commit 0)
        (after (write_internal 0 (replicate 512 1))
          (after (set_index_group_commit 64) ex_new)))).

Theorem group_commit_off_reorders :
  disk regrouped 0 = 2 ∧ ∃ f, reopen regrouped = Ok f ∧ disk f 0 = 1.
Proof. split; [by vm_compute|]. eexists. split; [by vm_compute|by vm_compute]. Qed.

(** A data file whose last 4 KiB were written to look like a sealed trailer is
    refused by the next open, although the layer was never sealed. *)
Definition trailer_like : list Z := header_block (set_sealed (set_data_file ht_new)).

Theorem trailer_like_block_blocks_open :
  reopen (after (write_internal 0 trailer_like) ex_new) = Err CannotOpenSealed.
Proof. by vm_compute. Qed.

(** [set_max_io_size] accepts chunks of 16384 sectors, whose mapping has length
    zero on disk and is dropped when the log is read back. *)
Theorem oversized_chunk_is_lost :
  (set_max_io_size (16384 * ALIGNMENT) ex_new).2 = Ok tt
  ∧ load_mappings 1 (disk_bytes (to_disk (sm_new 0 16384 8 false 0))) true = Ok [].
Proof. by vm_compute. Qed.
