(* ===== verification/LsmtStack.v ===== *)
(** * Read-only layers and layer stacks

    Models [LSMTReadOnlyFile] of [lsmt/file/readonly.rs] and the stacking of
    [lsmt/file/stack.rs]: opening one sealed layer, opening a list of them as
    one read-only disk, and putting a writable layer on top.

    Layers are given bottom to top and kept top to bottom.  The metadata and
    the indexes are loaded concurrently and then put into layer order; the
    model loads them in order.  When several layers fail, the code reports one
    of the failures, the model the first. *)

From S2P Require Import Prelude LsmtSegment LsmtFormat LsmtIndex LsmtLookup LsmtIo LsmtHelper.
From S2P Require Import LsmtFile.

Section ReadOnlyFile.
Context `{UuidOps}.

Record LSMTReadOnlyFile : Type := mkRO {
  ro_index : ReadOnlyIndex;
  ro_layers : list (list Z);
  ro_virtual_size : Z;
  ro_max_io_size : Z;
  ro_uuids : list Uuid
}.

(** [LSMTReadOnlyFile::open] *)
Definition ro_open (file : list Z) : result lsmt_error LSMTReadOnlyFile :=
  let file_size := zlen file in
  let? _ := verify_ht file false file_size in
  let? trailer := verify_ht file true file_size in
  let? mappings := load_index_and_reset_tags file (index_offset trailer) (index_size trailer) in
  Ok (mkRO (mkReadOnly (ro_new mappings)) [file] (virtual_size trailer) MAX_IO_SIZE
        [default uuid_nil (parse_uuid_field (uuid trailer))]).

Definition ro_set_max_io_size (f : LSMTReadOnlyFile) (size : Z) : result lsmt_error LSMTReadOnlyFile :=
  let? _ := ensure (negb (size =? 0) && is_multiple_of size ALIGNMENT_4K) BadIoSize in
  Ok (mkRO (ro_index f) (ro_layers f) (ro_virtual_size f) size (ro_uuids f)).

Definition ro_get_uuid (f : LSMTReadOnlyFile) (i : Z) : result lsmt_error Uuid :=
  match ro_uuids f !! Z.to_nat i with Some u => Ok u | None => Err LayerOutOfRange end.

Definition ro_data_stat (f : LSMTReadOnlyFile) : DataStat :=
  let ms := (li_lookup (ro_index f) (whole_disk (ro_virtual_size f)) []).1 in
  let valid := sum_data ms * ALIGNMENT in
  mkDataStat valid valid.

Definition ro_seek_data (f : LSMTReadOnlyFile) (from_byte to_byte : Z) (segs : list Segment)
  : list Segment * Z :=
  if to_byte <=? from_byte then (segs, 0)
  else
    let begin_blk := from_byte / ALIGNMENT in
    let end_blk := div_ceil to_byte ALIGNMENT in
    if end_blk <=? begin_blk then (segs, 0)
    else
      let ms := (li_lookup (ro_index f) (mkSeg begin_blk (wrap32 (end_blk - begin_blk))) []).1 in
      let segs := segs ++ seek_data_segments ms in
      (segs, zlen segs).

(** [from_merged_layers] *)
Definition from_merged_layers (lrs : list (list Z)) (merged : list SegmentMapping) (vsize : Z)
  (ids : list Uuid) : LSMTReadOnlyFile :=
  mkRO (mkReadOnly merged) lrs vsize MAX_IO_SIZE ids.

(** [read_internal_into_generic] of the read-only file: the loops are, statement
    by statement, those of the writable file, over the read-only index. *)
Definition ro_read_into `{FileReader} (f : LSMTReadOnlyFile) (offset : Z) (dst : list Z)
  : result lsmt_error (list Z * Z) :=
  read_into (ro_index f) (ro_layers f) (ro_virtual_size f) (ro_max_io_size f) offset dst.

(** [VirtualFile] of the read-only file. *)
Definition ro_read_at_into `{FileReader} (f : LSMTReadOnlyFile) (offset : Z) (dst : list Z)
  : result lsmt_error (list Z * Z) :=
  if is_nil dst then Ok (dst, 0)
  else ro_read_into f offset dst.

Definition ro_read_at `{FileReader} (f : LSMTReadOnlyFile) (offset len : Z)
  : result lsmt_error (list Z) :=
  if (len =? 0) || (ro_virtual_size f <=? offset) then Ok []
  else
    let read_len := Z.min len (ro_virtual_size f - offset) in
    let? r := ro_read_into f offset (zeros read_len) in
    Ok (ztake r.2 r.1).

Definition ro_write_at (offset : Z) (data : list Z) : result lsmt_error Z := Err ReadOnlyFile.

(** ** Opening a list of layers *)

Record ReadOnlyLayerMetadata : Type := mkMeta {
  lm_uuid : Uuid;
  lm_file_size : Z;
  lm_virtual_size : Z;
  lm_index_offset : Z;
  lm_index_size : Z;
  lm_header_version : Z;
  lm_header_sub_version : Z;
  lm_trailer_version : Z;
  lm_trailer_sub_version : Z
}.

Definition load_readonly_layer_metadata (file : list Z) : result lsmt_error ReadOnlyLayerMetadata :=
  let file_size := zlen file in
  let? header := verify_ht file false file_size in
  let? trailer := verify_ht file true file_size in
  Ok (mkMeta (default uuid_nil (parse_uuid_field (uuid trailer))) file_size (virtual_size trailer)
        (index_offset trailer) (index_size trailer) (version header) (sub_version header)
        (version trailer) (sub_version trailer)).

Fixpoint load_readonly_layers_metadata (files : list (list Z))
  : result lsmt_error (list ReadOnlyLayerMetadata) :=
  match files with
  | [] => Ok []
  | file :: rest =>
      let? m := load_readonly_layer_metadata file in
      let? ms := load_readonly_layers_metadata rest in
      Ok (m :: ms)
  end.

Definition validate_open_files_ro_inputs (files : list (list Z)) : result lsmt_error unit :=
  let? _ := ensure (negb (is_nil files)) EmptyFileList in
  ensure (zlen files <=? MAX_STACK_LAYERS) TooManyLayers.

(** The index of every layer, in the order of the files. *)
Fixpoint load_layer_indexes (files : list (list Z)) (metadata : list ReadOnlyLayerMetadata)
  : result lsmt_error (list (list SegmentMapping)) :=
  match files, metadata with
  | file :: files', m :: metadata' =>
      let? ms := load_index_and_reset_tags file (lm_index_offset m) (lm_index_size m) in
      let? rest := load_layer_indexes files' metadata' in
      Ok (ro_new ms :: rest)
  | _, _ => Ok []
  end.

Definition merge_readonly_indexes (files : list (list Z)) (metadata : list ReadOnlyLayerMetadata)
  : result lsmt_error (list SegmentMapping) :=
  let? _ := ensure (zlen files =? zlen metadata) LengthMismatch in
  let? indexes := load_layer_indexes files metadata in
  Ok (ro_merge (rev indexes)).

(** The newest layer that declares a size decides the size of the stack. *)
Definition stack_virtual_size (metadata : list ReadOnlyLayerMetadata) : Z :=
  fold_left (λ v m, if 0 <? lm_virtual_size m then lm_virtual_size m else v) metadata 0.

Definition build_readonly_stack_from_merged (files : list (list Z))
  (metadata : list ReadOnlyLayerMetadata) (merged : list SegmentMapping)
  : result lsmt_error LSMTReadOnlyFile :=
  let? _ := ensure (zlen files =? zlen metadata) LengthMismatch in
  Ok (from_merged_layers (rev files) merged (stack_virtual_size metadata) (rev (lm_uuid <$> metadata))).

Definition open_files_ro (files : list (list Z)) : result lsmt_error LSMTReadOnlyFile :=
  let? _ := validate_open_files_ro_inputs files in
  let? metadata := load_readonly_layers_metadata files in
  let? merged := merge_readonly_indexes files metadata in
  build_readonly_stack_from_merged files metadata merged.

(** [open_file_index] and [is_lsmt] *)
Definition open_file_index (file : list Z) : result lsmt_error (list SegmentMapping) :=
  let? trailer := verify_ht file true (zlen file) in
  let? ms := load_index_and_reset_tags file (index_offset trailer) (index_size trailer) in
  Ok (ro_new ms).

Definition is_lsmt (file : list Z) : Z :=
  if negb (is_ok (verify_ht file false (zlen file))) then 0
  else if is_ok (verify_ht file true (zlen file)) then 1 else 0.

(** ** Stacking a writable layer *)

(** Every layer names the one below it as its parent. *)
Fixpoint verify_order_loop (parent : option Uuid) (lrs : list (list Z)) (ids : list Uuid)
  : result lsmt_error unit :=
  match lrs, ids with
  | layer :: lrs', u :: ids' =>
      let? _ := ensure (match parent with Some expected => uuid_eqb u expected | None => true end)
                  ParentMismatch in
      if is_nil lrs' then Ok tt
      else
        let? ht := verify_ht layer false (zlen layer) in
        verify_order_loop (parse_uuid_field (parent_uuid ht)) lrs' ids'
  | _, _ => Ok tt
  end.

Definition verify_layer_order (lrs : list (list Z)) (ids : list Uuid) (start_layer : Z)
  : result lsmt_error unit :=
  let? _ := ensure (zlen lrs =? zlen ids) LengthMismatch in
  if zlen lrs <=? start_layer then Ok tt
  else verify_order_loop None (zdrop start_layer lrs) (zdrop start_layer ids).

Definition stack_files (sparse_ok : bool) (seek_data seek_hole : Z → option Z)
  (upper_layer : LSMTFile) (lower_layers : LSMTReadOnlyFile) (check_order : bool)
  : result lsmt_error LSMTFile :=
  let? _ := if check_order then verify_layer_order (ro_layers lower_layers) (ro_uuids lower_layers) 1
            else Ok tt in
  let? stacked := lsmt_open sparse_ok seek_data seek_hole (rw_data_file upper_layer)
                    (rw_index_file upper_layer) (Some (ro_mappings (ro_index lower_layers)))
                    (ro_layers lower_layers) in
  let? stacked :=
    (if virtual_size_of stacked =? 0 then
       match update_vsize (ro_virtual_size lower_layers) stacked with
       | (f, Ok _) => Ok f
       | (_, Err e) => Err e
       end
     else Ok stacked) in
  let stacked := upd_max_io stacked (max_io_size upper_layer) in
  let stacked := upd_group stacked (group_commit_size upper_layer) (group_commit_buf stacked) in
  Ok (upd_uuids stacked (ro_uuids lower_layers ++ [default uuid_nil (head (uuids upper_layer))])).
End ReadOnlyFile.
