(* ===== verification/LsmtSeal.v ===== *)
(** * Sealing a layer and stacking sealed layers

    Sealing writes the index and a trailer after the data and yields a file
    that opens as a read-only layer with the content of the upper layer.  A
    list of sealed layers opens as one disk in which the newest layer wins, and
    a writable layer stacked on it presents its own sectors over that disk. *)

From S2P Require Import Prelude LsmtSegment LsmtFormat LsmtIndex LsmtLookup LsmtIo LsmtHelper.
From S2P Require Import LsmtFile LsmtRead LsmtLog LsmtWrite LsmtDisk LsmtOpen LsmtStack.

(** ** What a sealed layer is *)

(** [file] holds a sealed layer of [vsize] bytes whose index is [ms]. *)
Record sealed_layer (file : list Z) (vsize : Z) (ms : list SegmentMapping) : Prop := {
  sl_header : ∃ h, verify_ht file false (zlen file) = Ok h;
  sl_trailer : ∃ t, verify_ht file true (zlen file) = Ok t ∧ virtual_size t = vsize
    ∧ load_index_and_reset_tags file (index_offset t) (index_size t) = Ok ms;
  sl_wf : wf_index ms;
  sl_data : ∀ x l, view ms x = Some l → loc_zeroed l = false →
    ∃ ph, loc_phys l = Some ph ∧ (ph + 1) * ALIGNMENT ≤ zlen file
}.

(** What a layer says about a byte of the disk, if anything. *)
Definition layer_byte (file : list Z) (ms : list SegmentMapping) (p : Z) : option Z :=
  (λ l, up_byte file l (p mod ALIGNMENT)) <$> view ms (p / ALIGNMENT).

(** ** Running the seal *)
Section Seal.
Context `{UuidOps} (sha256 : list Z → list Z) (f : LSMTFile).

Definition sealing (D : list Z) (dg : option AppendDigestTracker) : LSMTFile :=
  mkLSMT (index f) (lower_layers f) D (rw_index_file f) (virtual_size_of f) (rw_tag f)
    true (max_io_size f) (uuids f) (file_type f) (group_commit_size f) (group_commit_buf f)
    (rw_data_append_offset f) (rw_index_append_offset f) dg.

(** The digest, when there is one, is that of the bytes written so far. *)
Definition tracked (D : list Z) : option AppendDigestTracker :=
  (λ _, mkTracker D (zlen D)) <$> append_digest f.

Lemma seal_append_ok D bytes : zlen D + zlen bytes < 2 ^ 64 →
  seal_append (zlen D) bytes (sealing D (tracked D))
  = (sealing (D ++ bytes) (tracked (D ++ bytes)), Ok tt).
Proof.
  intros Hb. unfold seal_append, modify. cbn [sealing rw_data_file append_digest].
  rewrite file_write_end. unfold upd_digest, upd_data, sealing. do 2 f_equal. unfold tracked.
  destruct (append_digest f); [|done]. unfold absorb_seal_bytes, absorb. simpl.
  destruct bytes as [|b bytes]; [by rewrite app_nil_r|]. cbn [is_nil]. rewrite Z.eqb_refl.
  cbn [ensure rbind]. unfold checked_add64, U64_MAX.
  rewrite (proj2 (Z.leb_le _ _)) by lia. by rewrite zlen_app.
Qed.

(** The trailer sealing writes. *)
Definition trailer_of (h : HeaderTrailer) (off count : Z) : HeaderTrailer :=
  set_trailer (set_data_file (set_sealed
    (set_index_size (set_index_offset (set_virtual_size h (virtual_size_of f)) off) count))).

Lemma trailer_ok h off count : wf_ht h → verify_magic h = true → 0 ≤ off < 2 ^ 64 →
  0 ≤ count < 2 ^ 64 → 0 ≤ virtual_size_of f < 2 ^ 64 →
  let t := trailer_of h off count in
  wf_ht t ∧ verify_magic t && is_trailer t && is_data_file t && is_sealed t = true
  ∧ index_offset t = off ∧ index_size t = count ∧ virtual_size t = virtual_size_of f
  ∧ uuid t = uuid h.
Proof.
  intros Hh Hm Ho Hc Hv t. split_and!; try done.
  - apply wf_flag_clear; [done|]. apply wf_flag_set; [done|]. apply wf_flag_set; [done|].
    by destruct Hh; constructor.
  - assert (verify_magic t = true) as -> by done.
    unfold is_trailer, is_header, is_data_file, is_sealed, t, trailer_of, set_trailer, set_data_file, set_sealed,
      FLAG_SHIFT_HEADER, FLAG_SHIFT_TYPE, FLAG_SHIFT_SEALED.
    rewrite !flag_is_clear, !flag_is_set by lia. simpl. by rewrite !andb_false_r, !orb_true_r.
Qed.

(** The padding up to the trailer block. *)
Definition seal_pad (n : Z) : list Z :=
  zeros (if is_multiple_of n 4096 then 0 else 4096 - n mod 4096).

(** The sealed file. *)
Definition sealed_file (D : list Z) (ms : list SegmentMapping) (h : HeaderTrailer) : list Z :=
  let body := D ++ seal_index_bytes ms in
  (body ++ seal_pad (zlen body)) ++ header_block (trailer_of h (zlen D) (zlen ms)).

Lemma header_bytes_ok D E h : header_of D h →
  (HT_SIZE <=? zlen (file_read (D ++ E) 0 HEADER_SIZE)) = true
  ∧ ht_from_bytes (ztake HT_SIZE (file_read (D ++ E) 0 HEADER_SIZE)) = Some h.
Proof.
  intros (Hz & Hh & Hd & _). unfold file_read, slice. change (zdrop 0 (D ++ E)) with (D ++ E).
  unfold HEADER_SIZE, HT_SIZE in *. pose proof (zlen_nonneg E). split.
  - rewrite zlen_ztake, zlen_app. lia.
  - unfold ztake in *. unfold zlen in Hz. rewrite take_take, take_app_le by lia.
    change (Z.to_nat 390 `min` Z.to_nat 4096)%nat with (Z.to_nat 390). rewrite Hd. by apply ht_roundtrip.
Qed.

Lemma zlen_seal_pad n : zlen (seal_pad n) = if is_multiple_of n 4096 then 0 else 4096 - n mod 4096.
Proof. unfold seal_pad, is_multiple_of. rewrite zlen_zeros. destruct (_ =? _); dlia. Qed.

Lemma seal_tail D ms h : header_of D h → zlen (sealed_file D ms h) < 2 ^ 64 →
  (seal_append (zlen D) (seal_index_bytes ms) ;;;
   let trailer_offset := zlen D + zlen (seal_index_bytes ms) in
   let pad_len := if is_multiple_of trailer_offset 4096 then 0 else 4096 - trailer_offset mod 4096 in
   (if pad_len =? 0 then ret tt else seal_append trailer_offset (zeros pad_len)) ;;;
   let trailer_offset := trailer_offset + pad_len in
   let! f := get in
   let header_bytes := file_read (rw_data_file f) 0 HEADER_SIZE in
   let! _ := ensure_m (HT_SIZE <=? zlen header_bytes) ShortRead in
   match ht_from_bytes (ztake HT_SIZE header_bytes) with
   | None => throw BadHeader
   | Some h =>
       let t := set_virtual_size h (virtual_size_of f) in
       let t := set_index_size (set_index_offset t (zlen D)) (zlen ms) in
       let t := set_trailer (set_data_file (set_sealed t)) in
       seal_append trailer_offset (header_block t) ;;;
       let! f := get in
       ret (descriptor sha256 <$> append_digest f)
   end) (sealing D (tracked D))
  = (sealing (sealed_file D ms h) (tracked (sealed_file D ms h)),
     Ok (descriptor sha256 <$> tracked (sealed_file D ms h))).
Proof.
  intros Hh Hz. unfold sealed_file in *. set (bytes := seal_index_bytes ms) in *.
  set (body := D ++ bytes) in *. set (tb := header_block _) in *. rewrite !zlen_app in Hz.
  pose proof (zlen_nonneg (seal_pad (zlen body))). pose proof (zlen_nonneg tb).
  pose proof (zlen_nonneg bytes). assert (zlen D + zlen bytes = zlen body) as Eb by (unfold body; by rewrite zlen_app).
  erewrite bind_ok by (apply seal_append_ok; lia). fold body. rewrite Eb.
  assert ((if zlen (seal_pad (zlen body)) =? 0 then ret tt
           else seal_append (zlen body) (seal_pad (zlen body))) (sealing body (tracked body))
    = (sealing (body ++ seal_pad (zlen body)) (tracked (body ++ seal_pad (zlen body))), Ok tt)) as E2.
  { destruct (Z.eqb_spec (zlen (seal_pad (zlen body))) 0) as [E0%zlen_0|E0].
    - by rewrite E0, app_nil_r.
    - apply seal_append_ok. lia. }
  cbv zeta. unfold seal_pad at 2 in E2. rewrite zlen_seal_pad in E2.
  erewrite bind_ok by exact E2. rewrite bind_get, <- zlen_seal_pad. cbn [sealing rw_data_file virtual_size_of].
  set (pad := seal_pad (zlen body)) in *.
  destruct (header_bytes_ok D (bytes ++ pad) h Hh) as [Hb1 Hb2]. rewrite app_assoc in Hb1, Hb2.
  fold body in Hb1, Hb2. rewrite bind_ensure by exact Hb1. rewrite Hb2.
  fold (trailer_of h (zlen D) (zlen ms)). change (header_block (trailer_of h (zlen D) (zlen ms))) with tb.
  rewrite <- zlen_app. erewrite bind_ok by (apply seal_append_ok; rewrite zlen_app; lia). done.
Qed.
End Seal.

Section SealThm.
Context `{UuidOps}.

Lemma close_seal_run (sha256 : list Z → list Z) f h : live f → sealed f = false → header_of (rw_data_file f) h →
  let F := sealed_file f (rw_data_file f) (seal_index f) h in
  zlen F < 2 ^ 64 →
  ∃ f', close_seal sha256 f
        = (f', Ok ((λ _, mkDescriptor (sha256_text (sha256 F)) (zlen F)) <$> append_digest f))
    ∧ sealed f' = true ∧ rw_data_file f' = F.
Proof.
  intros Hf Hs Hh F Hz. unfold close_seal. rewrite bind_get, bind_modify, bind_ensure by (by rewrite Hs).
  destruct (flush_group_commit_ok (upd_sealed f true) _ _ _ (lv_log f Hf) (lv_end f Hf)) as (a & E & _ & _).
  change (set_log (upd_sealed f true) (rw_index_file f) _ _) with (upd_sealed f true) in E. erewrite bind_ok by exact E. rewrite bind_get.
  set (g := set_log (upd_sealed f true) a [] _).
  assert (seal_index g = seal_index f) as -> by done.
  assert (rw_data_file g = rw_data_file f) as -> by done.
  pose proof (seal_tail sha256 g (rw_data_file f) (seal_index f) h Hh Hz) as Er.
  assert (sealing g (rw_data_file f) (tracked g (rw_data_file f)) = g) as Eg.
  { assert (tracked g (rw_data_file f) = append_digest f) as ->; [|done].
    unfold tracked. change (append_digest g) with (append_digest f).
    destruct (append_digest f) as [t|] eqn:Et; [|done].
    destruct (wf_digest f (lv_wf f Hf) t Et) as (_ & Eh & Eo). simpl. rewrite <- Eo, <- Eh. by destruct t. }
  rewrite Eg in Er. change (sealed_file g) with (sealed_file f) in Er. fold F in Er.
  exists (sealing g F (tracked g F)). split; [etransitivity; [exact Er|]|by split].
  f_equal. f_equal. unfold tracked. change (append_digest g) with (append_digest f).
  by destruct (append_digest f).
Qed.

(** ** The sealed file is a layer *)

Lemma verify_trailer A t : wf_ht t →
  verify_magic t && is_trailer t && is_data_file t && is_sealed t = true →
  verify_ht (A ++ header_block t) true (zlen (A ++ header_block t)) = Ok t.
Proof.
  intros Ht Hf. pose proof (zlen_header_block t Ht) as Hb. pose proof (zlen_nonneg A).
  unfold verify_ht. cbn [negb]. rewrite zlen_app, Hb.
  rewrite (proj2 (Z.leb_le HEADER_SIZE _)) by lia. cbn [ensure rbind].
  replace (zlen A + HEADER_SIZE - HEADER_SIZE) with (zlen A) by lia.
  unfold file_read. rewrite <- (app_nil_r (header_block t)), <- Hb, slice_app_mid, Hb.
  rewrite (proj2 (Z.leb_le HT_SIZE HEADER_SIZE)) by done. cbn [ensure rbind].
  assert (ztake HT_SIZE (header_block t) = ht_bytes t) as ->.
  { unfold header_block, ztake. pose proof (zlen_ht_bytes t Ht) as Hz. unfold zlen in Hz.
    by rewrite take_app_length' by lia. }
  by rewrite ht_roundtrip, Hf by done.
Qed.

Definition seal_loc (l : Loc) : Loc := norm_loc (retag 0 l).

(** Sectors of the virtual disk. *)
Definition disk_sectors (vsize : Z) : Z := div_ceil vsize ALIGNMENT.

Lemma seal_index_spec f : live f → disk_sectors (virtual_size_of f) < 2 ^ 32 →
  let ms := seal_index f in
  Forall (logged 0) ms ∧ wf_index ms ∧ zlen ms < 2 ^ 32
  ∧ (∀ x, view ms x = if (0 <=? x) && (x <? disk_sectors (virtual_size_of f))
                      then seal_loc <$> view (upper (index f)) x else None).
Proof.
  intros Hf Hn ms. pose proof (lv_wf f Hf) as Hwf. pose proof (wf_vsize f Hwf) as Hv.
  pose proof (wf_upper f Hwf) as Hup. pose proof (uo_wf _ _ _ _ Hup) as Hw.
  set (n := disk_sectors (virtual_size_of f)) in *.
  assert (0 ≤ n) as Hn0.
  { unfold n, disk_sectors. pose proof (div_ceil_bounds (virtual_size_of f) ALIGNMENT ltac:(done)).
    unfold ALIGNMENT in *. lia. }
  assert (whole_disk (virtual_size_of f) = mkSeg 0 n) as Eq.
  { unfold whole_disk. fold (disk_sectors (virtual_size_of f)). fold n. by rewrite wrap32_small by lia. }
  assert (wf_query (mkSeg 0 n)) as Hq by (constructor; simpl; lia).
  destruct (mi_lookup_tiles (upper (index f)) (mkSeg 0 n) [] Hw Hq) as (out & El & Htl).
  assert (zlen out ≤ 0 + n - 0) as Hcount by (by eapply zlen_tiles; [|exact Htl]; simpl; lia). destruct Htl as (Hwo & Hin & Hvo).
  cbn [seg_offset seg_length app] in *. set (g := seal_mapping).
  assert (ms = g <$> out) as Ems by (unfold ms, seal_index; by rewrite Eq, El).
  assert (∀ m, segment (g m) = segment m) as Hseg by (intros m; unfold g, seal_mapping; simpl; by destruct (zeroed m)).
  assert (∀ m, wf_mapping m → wf_mapping (g m)) as Hwg.
  { intros m Hm. unfold g, seal_mapping. simpl. apply (wf_set_tag m 0) in Hm; [|lia].
    destruct (zeroed m); [by apply wf_drop_phys|done]. }
  rewrite Ems. split_and!.
  - apply Forall_fmap, Forall_forall. intros m Hm. destruct (mi_lookup_within (upper (index f)) (mkSeg 0 n) m)
      as (b & Hb & Hbw); [done|done|by rewrite El|].
    pose proof (lv_small f Hf) as Hsm. rewrite Forall_forall in Hsm.
    pose proof (small_within m b Hbw (Hsm b Hb)) as [Hs1 Hs2].
    pose proof (elem_of_wf _ _ Hwo Hm) as Hwm. pose proof (wf_len m Hwm).
    assert (covers m (sm_offset m) = true) as Hc by (apply covers_iff; lia).
    pose proof (view_elem _ _ _ Hwo Hm Hc) as E. rewrite Hvo in E by (destruct (Hin m Hm); lia).
    change (logged 0 (g m)). unfold logged, sm_length, sm_offset in *. rewrite Hseg.
    split_and!; [by apply Hwg|done|done|by unfold g, seal_mapping; simpl; destruct (zeroed m)|].
    unfold g, seal_mapping. simpl. destruct (zeroed m) eqn:Ez; [by simpl; rewrite Ez|].
    destruct (uo_data _ _ _ _ Hup _ _ E Ez) as [ph Eph]. unfold loc_at in Eph. simpl in Eph |- *.
    change (has_physical_range (set_tag m 0)) with (has_physical_range m).
    destruct (has_physical_range m); [by rewrite orb_true_r|done].
  - apply wf_index_fmap; [by intros|by intros; apply Hwg|done].
  - rewrite zlen_fmap. lia.
  - intros x. rewrite (view_fmap g seal_loc) by (by intros; apply Hseg || (destruct m as [? ? [] ?])).
    destruct (Z.leb_spec 0 x), (Z.ltb_spec x n); cbn [andb]; [by rewrite Hvo by lia|..];
    (destruct (view out x) as [l|] eqn:E; [|done]; apply view_Some in E as (m & Hm & Hc & _);
     apply covers_iff in Hc; apply Hin in Hm; lia).
Qed.

Lemma zlen_index_bytes ms : zlen (index_bytes ms) = MAPPING_SIZE * zlen ms.
Proof.
  pose proof (zlen_disks_bytes (from_memory <$> ms)) as E. unfold disks_bytes in E.
  rewrite <- list_fmap_compose, zlen_fmap in E. exact E.
Qed.

(** What the upper layer itself says about a byte. *)
Definition upper_byte (f : LSMTFile) (p : Z) : option Z :=
  layer_byte (rw_data_file f) (upper (index f)) p.

Section Sealed.
Context (f : LSMTFile) (h : HeaderTrailer).
Context (Hf : live f) (Hn : disk_sectors (virtual_size_of f) < 2 ^ 32).
Context (Hh : header_of (rw_data_file f) h).
Let D := rw_data_file f.
Let ms := seal_index f.
Let F := sealed_file f D ms h.

Lemma sealed_bound : zlen D < 2 ^ 60 → zlen F < 2 ^ 64.
Proof.
  intros HD. destruct (seal_index_spec f Hf Hn) as (_ & _ & Hc & _). destruct (Hh) as (_ & Hwf & _ & Hm).
  apply andb_true_iff in Hm as [Hm _]. pose proof (zlen_nonneg ms). pose proof (wf_vsize f (lv_wf f Hf)).
  pose proof (zlen_nonneg D). destruct (trailer_ok f h (zlen D) (zlen ms)) as (Ht & _); [done|done|fold ms in Hc; lia..|].
  unfold F, sealed_file. rewrite !zlen_app, (zlen_header_block _ Ht), zlen_seal_pad.
  assert (zlen (seal_index_bytes ms) ≤ MAPPING_SIZE * zlen ms + ALIGNMENT).
  { unfold seal_index_bytes, ALIGNMENT. destruct (_ =? 0); rewrite ?zlen_app, zlen_index_bytes; [lia|].
    unfold zlen at 2. rewrite length_replicate. dlia. }
  fold ms in Hc. unfold MAPPING_SIZE, ALIGNMENT, HEADER_SIZE, is_multiple_of in *. destruct (_ =? _); dlia.
Qed.

Lemma sealed_prefix : ∃ E, F = D ++ seal_index_bytes ms ++ E.
Proof. eexists. unfold F, sealed_file. by rewrite <- !app_assoc. Qed.

Lemma sealed_byte p : 0 ≤ p < zlen D → byte_at F p = byte_at D p.
Proof.
  intros Hp. destruct sealed_prefix as [E ->]. rewrite byte_at_app by lia.
  destruct (Z.ltb_spec p (zlen D)); [done|lia].
Qed.

Lemma sealed_size : zlen D + MAPPING_SIZE * zlen ms ≤ zlen F ∧ HEADER_SIZE ≤ zlen D.
Proof.
  destruct sealed_prefix as [E EF]. rewrite EF, !zlen_app. pose proof (zlen_nonneg E).
  split; [|apply Hh]. unfold seal_index_bytes.
  destruct (_ =? 0); rewrite ?zlen_app, zlen_index_bytes; [lia|].
  pose proof (zlen_nonneg (replicate (Z.to_nat (ALIGNMENT - MAPPING_SIZE * zlen ms mod ALIGNMENT)) 255)). lia.
Qed.

Context (Hz : zlen F < 2 ^ 64).

Lemma sealed_trailer : ∃ t, verify_ht F true (zlen F) = Ok t ∧ virtual_size t = virtual_size_of f
  ∧ index_offset t = zlen D ∧ index_size t = zlen ms.
Proof.
  destruct sealed_size as [Hs Hs']. destruct (Hh) as (_ & Hwf & _ & Hm).
  apply andb_true_iff in Hm as [Hm _]. pose proof (zlen_nonneg ms). pose proof (wf_vsize f (lv_wf f Hf)).
  destruct (trailer_ok f h (zlen D) (zlen ms)) as (Ht & Hfl & Eo & Ec & Ev & _);
    [done|done|unfold HEADER_SIZE, MAPPING_SIZE in *; lia..|].
  eexists. split; [by apply verify_trailer|]. by rewrite Ev, Eo, Ec.
Qed.

Lemma sealed_index : load_index_and_reset_tags F (zlen D) (zlen ms) = Ok ms.
Proof.
  destruct (seal_index_spec f Hf Hn) as (Hl & _). fold ms in Hl. destruct sealed_size as [Hs Hs'].
  assert ((λ m, set_tag m 0) <$> ms = ms) as Eid.
  { rewrite <- (list_fmap_id ms) at 2. apply list_fmap_ext. intros i m Hm.
    rewrite Forall_forall in Hl. destruct (Hl m) as (_ & _ & _ & Ht & _); [by apply list_elem_of_lookup_2 in Hm|].
    destruct m. simpl in *. by rewrite Ht. }
  rewrite <- Eid at 2. apply (load_index_logged 0); [done|unfold HEADER_SIZE in *; lia|done|lia|].
  assert (index_bytes ms = disks_bytes (to_disk <$> ms)) as Eb.
  { unfold index_bytes, disks_bytes. rewrite <- Eid at 1. by rewrite <- !list_fmap_compose. }
  destruct sealed_prefix as [E ->]. rewrite <- Eb. unfold seal_index_bytes.
  assert (zlen (index_bytes ms) = MAPPING_SIZE * zlen ms) as El
    by (rewrite Eb, zlen_disks_bytes, zlen_fmap; done).
  rewrite <- El. destruct (_ =? 0); [apply slice_app_mid|]. rewrite <- app_assoc. apply slice_app_mid.
Qed.

Lemma sealed_file_layer : sealed_layer F (virtual_size_of f) ms.
Proof.
  destruct (seal_index_spec f Hf Hn) as (_ & Hw & _ & Hv). destruct sealed_size as [Hs Hs'].
  pose proof (zlen_nonneg ms). constructor; [| |done|].
  - exists h. apply verify_header. eapply header_of_ext; [exact Hh|unfold MAPPING_SIZE in *; lia|].
    intros p Hp. apply sealed_byte. lia.
  - destruct sealed_trailer as (t & Et & Ev & Eo & Ec). exists t. rewrite Eo, Ec.
    split_and!; [done|done|apply sealed_index].
  - intros x l. unfold ms. rewrite Hv. destruct (_ && _); [|done].
    destruct (view (upper (index f)) x) as [l0|] eqn:E; [|done]. intros [= <-] Hz0.
    pose proof (wf_upper f (lv_wf f Hf)) as Hup. pose proof (live_type f Hf) as Hty.
    unfold seal_loc, norm_loc, retag in Hz0 |- *. simpl in *. destruct (loc_zeroed l0) eqn:Ez; [done|].
    destruct (uo_data _ _ _ _ Hup _ _ E Ez) as [ph Eph]. exists ph. split; [done|].
    pose proof (uo_place _ _ _ _ Hup _ _ _ E Eph) as Hpl. fold D in Hpl.
    destruct (file_type f); try done; simpl in Hpl; unfold ALIGNMENT, MAPPING_SIZE in *; lia.
Qed.

Lemma sealed_content p : 0 ≤ p < virtual_size_of f → layer_byte F ms p = upper_byte f p.
Proof.
  intros Hp. destruct (seal_index_spec f Hf Hn) as (_ & _ & _ & Hv). unfold layer_byte, upper_byte, layer_byte.
  pose proof (div_ceil_bounds (virtual_size_of f) ALIGNMENT ltac:(done)) as Hd.
  fold (disk_sectors (virtual_size_of f)) in Hd. unfold ms. rewrite Hv.
  assert ((0 <=? p / ALIGNMENT) && (p / ALIGNMENT <? disk_sectors (virtual_size_of f)) = true) as ->
    by (unfold ALIGNMENT in *; bcases; dlia).
  destruct (view (upper (index f)) (p / ALIGNMENT)) as [l|] eqn:E; [|done]. simpl. f_equal.
  unfold up_byte, seal_loc, norm_loc, retag. simpl. destruct (loc_zeroed l) eqn:Ez; [done|]. simpl.
  destruct (loc_phys l) as [ph|] eqn:Eph; [|done]. apply sealed_byte.
  pose proof (uo_place _ _ _ _ (wf_upper f (lv_wf f Hf)) _ _ _ E Eph) as Hpl. fold D in Hpl.
  pose proof (live_type f Hf) as Hty. pose proof (Z.mod_pos_bound p ALIGNMENT ltac:(done)).
  destruct (file_type f); try done; unfold placed, HEADER_SIZE, ALIGNMENT in *;
    change (4096 / 512) with 8 in Hpl; lia.
Qed.
End Sealed.

(** ** Opening a list of layers *)

(** A sealed layer with what its trailer and index say. *)
Record Layer : Type := mkLayer { ly_file : list Z; ly_vsize : Z; ly_index : list SegmentMapping }.
Definition layer_ok (l : Layer) : Prop := sealed_layer (ly_file l) (ly_vsize l) (ly_index l).

(** The newest layer that says something about a byte decides; layers are
    given newest first. *)
Fixpoint stack_byte (ls : list Layer) (p : Z) : option Z :=
  match ls with
  | [] => None
  | l :: rest => opt_or (layer_byte (ly_file l) (ly_index l) p) (stack_byte rest p)
  end.

Definition stack_size (ls : list Layer) : Z :=
  fold_left (λ v l, if 0 <? ly_vsize l then ly_vsize l else v) ls 0.

Definition merged_index (ls : list Layer) : list SegmentMapping :=
  ro_merge ((λ l, ro_new (ly_index l)) <$> rev ls).

Lemma load_metadata_ok l : layer_ok l → ∃ m, load_readonly_layer_metadata (ly_file l) = Ok m
  ∧ lm_virtual_size m = ly_vsize l
  ∧ load_index_and_reset_tags (ly_file l) (lm_index_offset m) (lm_index_size m) = Ok (ly_index l).
Proof.
  intros [(h & Eh) (t & Et & Ev & Ei) _ _]. unfold load_readonly_layer_metadata. rewrite Eh. cbn [rbind].
  rewrite Et. cbn [rbind]. by eexists.
Qed.

Lemma load_layers_ok ls : Forall layer_ok ls → ∃ mds,
  load_readonly_layers_metadata (ly_file <$> ls) = Ok mds ∧ length mds = length ls
  ∧ lm_virtual_size <$> mds = ly_vsize <$> ls
  ∧ load_layer_indexes (ly_file <$> ls) mds = Ok ((λ l, ro_new (ly_index l)) <$> ls).
Proof.
  induction 1 as [|l ls Hl _ (mds & E & Hlen & Hv & Ei)]; [by exists []|].
  destruct (load_metadata_ok l Hl) as (m & Em & Ev & Eidx). exists (m :: mds).
  rewrite !fmap_cons. cbn [load_readonly_layers_metadata load_layer_indexes]. rewrite Em. cbn [rbind].
  rewrite E. cbn [rbind]. rewrite Eidx. cbn [rbind]. rewrite Ei. cbn [rbind length].
  split_and!; [done|congruence|congruence|done].
Qed.

Lemma stack_size_eq mds ls : lm_virtual_size <$> mds = ly_vsize <$> ls →
  stack_virtual_size mds = stack_size ls.
Proof.
  unfold stack_virtual_size, stack_size. intros E0.
  assert (∀ v, fold_left (λ v m, if 0 <? lm_virtual_size m then lm_virtual_size m else v) mds v
    = fold_left (λ v l, if 0 <? ly_vsize l then ly_vsize l else v) ls v) as Hv; [|apply Hv].
  revert ls E0. induction mds as [|m mds IH]; intros [|l ls] E v; try done. rewrite !fmap_cons in E.
  injection E as E1 E2. simpl. rewrite E1. by apply IH.
Qed.

Lemma open_files_ok ls : ls ≠ [] → zlen ls ≤ MAX_STACK_LAYERS → Forall layer_ok ls → ∃ ids,
  open_files_ro (ly_file <$> ls)
  = Ok (mkRO (mkReadOnly (merged_index ls)) (ly_file <$> rev ls) (stack_size ls) MAX_IO_SIZE ids)
  ∧ zlen ids = zlen ls.
Proof.
  intros Hne Hlen Hls. destruct (load_layers_ok ls Hls) as (mds & E & El & Ev & Ei).
  exists (rev (lm_uuid <$> mds)). split; [|unfold zlen; rewrite length_rev, length_fmap; lia].
  unfold open_files_ro, validate_open_files_ro_inputs.
  assert (is_nil (ly_file <$> ls) = false) as -> by (by destruct ls). cbn [negb ensure rbind].
  rewrite zlen_fmap, (proj2 (Z.leb_le _ _) Hlen). cbn [ensure rbind]. rewrite E. cbn [rbind].
  assert ((zlen (ly_file <$> ls) =? zlen mds) = true) as Hl
    by (rewrite zlen_fmap; unfold zlen; lia).
  unfold merge_readonly_indexes, build_readonly_stack_from_merged. rewrite Hl. cbn [ensure rbind].
  rewrite Ei. cbn [rbind]. unfold from_merged_layers, merged_index.
  by rewrite (stack_size_eq mds ls Ev), !rev_fmap.
Qed.

(** The merged index finds in the layers what the layers say. *)
Lemma stack_view_byte ls : ∀ pre p, Forall layer_ok ls →
  let l := stack_view (zlen pre) ((λ l, ro_new (ly_index l)) <$> ls) (p / ALIGNMENT) in
  (l = None ∧ stack_byte ls p = None)
  ∨ ∃ l0, l = Some l0 ∧ 0 ≤ loc_tag l0 < zlen pre + zlen ls
      ∧ stack_byte ls p = Some (loc_byte (pre ++ (ly_file <$> ls)) (Some (norm_loc l0)) p)
      ∧ (loc_zeroed l0 = false → ∃ ph layer, loc_phys l0 = Some ph
           ∧ (pre ++ (ly_file <$> ls)) !! Z.to_nat (loc_tag l0) = Some layer
           ∧ (ph + 1) * ALIGNMENT ≤ zlen layer).
Proof.
  induction ls as [|a ls IH]; intros pre p Hls; [by left|].
  apply Forall_cons in Hls as [Ha Hls]. rewrite !fmap_cons. cbn [stack_view stack_byte].
  destruct (ro_new_spec (ly_index a)) as [_ Hv]; [apply Ha|]. rewrite Hv. unfold layer_byte.
  pose proof (zlen_nonneg pre). pose proof (zlen_nonneg ls).
  assert ((pre ++ ly_file a :: (ly_file <$> ls)) !! Z.to_nat (zlen pre) = Some (ly_file a)) as Hlk.
  { unfold zlen. rewrite Nat2Z.id, lookup_app_r, Nat.sub_diag by lia. done. }
  destruct (view (ly_index a) (p / ALIGNMENT)) as [l|] eqn:E; simpl.
  - right. eexists. split; [done|]. rewrite zlen_cons. split; [simpl; lia|].
    pose proof (sl_data _ _ _ Ha _ _ E) as Hd. unfold norm_loc, retag, up_byte, loc_byte.
    destruct l as [ph0 [] t0]; cbn -[Z.to_nat lookup zlen]; [done|]. rewrite Hlk.
    destruct (Hd eq_refl) as (ph & Eph & Hsz). simpl in Eph. rewrite Eph.
    split; [done|]. intros _. by exists ph, (ly_file a).
  - assert (zlen (pre ++ [ly_file a]) = zlen pre + 1) as Ez by (by rewrite zlen_app).
    pose proof (IH (pre ++ [ly_file a]) p Hls) as Hrest. rewrite Ez, <- app_assoc in Hrest.
    destruct Hrest as [[E1 E2]|(l0 & E1 & Ht & E2 & E3)]; rewrite E1, E2; [by left|right].
    exists l0. split_and!; [done|lia|rewrite zlen_cons; lia|done|done].
Qed.

(** The merged index as lower layers of a disk. *)
Section Stack.
Context (ls : list Layer) (Hls : Forall layer_ok ls) (Hlen : zlen ls ≤ MAX_STACK_LAYERS).

Lemma zlen_rev {A} (l : list A) : zlen (rev l) = zlen l.
Proof. unfold zlen. by rewrite length_rev. Qed.

Lemma merged_spec : wf_index (merged_index ls)
  ∧ ∀ x, view (merged_index ls) x
         = norm_loc <$> stack_view 0 ((λ l, ro_new (ly_index l)) <$> rev ls) x.
Proof.
  apply ro_merge_spec.
  - apply Forall_fmap, Forall_rev. eapply Forall_impl; [exact Hls|]. intros l Hl.
    by apply ro_new_spec, Hl.
  - rewrite zlen_fmap, zlen_rev. unfold MAX_STACK_LAYERS in *. lia.
Qed.

(** Either no layer knows the byte, or the location found leads to it. *)
Lemma merged_byte p :
  let l := view (merged_index ls) (p / ALIGNMENT) in
  (l = None ∧ stack_byte (rev ls) p = None)
  ∨ ∃ l0, l = Some l0 ∧ 0 ≤ loc_tag l0 < zlen ls
      ∧ stack_byte (rev ls) p = Some (loc_byte (ly_file <$> rev ls) (Some l0) p)
      ∧ (loc_zeroed l0 = false → ∃ ph layer, loc_phys l0 = Some ph
           ∧ (ly_file <$> rev ls) !! Z.to_nat (loc_tag l0) = Some layer
           ∧ (ph + 1) * ALIGNMENT ≤ zlen layer).
Proof.
  cbv zeta. destruct merged_spec as [_ Hv]. rewrite Hv.
  destruct (stack_view_byte (rev ls) [] p) as [[E1 E2]|(l0 & E1 & Ht & E2 & E3)];
    [by apply Forall_rev|left; change (zlen []) with 0 in E1; by rewrite E1|right].
  change (zlen []) with 0 in E1, Ht. rewrite zlen_rev in Ht. rewrite E1. eexists. split; [done|].
  assert (loc_tag (norm_loc l0) = loc_tag l0) as -> by (unfold norm_loc; by destruct (loc_zeroed l0)).
  split_and!; [lia|lia|done|]. unfold norm_loc. destruct (loc_zeroed l0); [done|]. intros _. by apply E3.
Qed.

Lemma merged_lower_ok : lower_ok (ly_file <$> rev ls) (Some (merged_index ls)).
Proof.
  intros ms [= <-]. split; [apply merged_spec|]. intros x l E. rewrite zlen_fmap, zlen_rev.
  destruct (merged_byte (x * ALIGNMENT)) as [[E1 _]|(l0 & E1 & Ht & _ & E3)];
    rewrite Z.div_mul, E in E1 by done; [done|]. by injection E1 as <-.
Qed.

Lemma merged_disk p : disk_byte (ly_file <$> rev ls) (view (merged_index ls)) p
  = default 0 (stack_byte (rev ls) p).
Proof.
  unfold disk_byte. destruct (merged_byte p) as [[E1 E2]|(l0 & E1 & _ & E2 & _)]; by rewrite E1, E2.
Qed.

Lemma merged_readable a b : disk_readable (ly_file <$> rev ls) (view (merged_index ls)) a b.
Proof.
  intros p _ l E Hz. destruct (merged_byte p) as [[E1 _]|(l0 & E1 & _ & _ & E3)]; [congruence|].
  assert (l0 = l) as -> by congruence. destruct (E3 Hz) as (ph & layer & Eph & El & Hsz).
  exists ph, layer. split_and!; [done..|]. pose proof (Z.mod_pos_bound p ALIGNMENT ltac:(done)).
  unfold ALIGNMENT in *. lia.
Qed.
End Stack.

(** C2: A list of sealed layers opens as one read-only disk: a read returns,
    for every byte, what the newest layer that stores the byte says, and zero
    where no layer does, up to the size declared by the newest layer that
    declares one. *)
Theorem stack_reads_newest_layer `{FileReaderSpec} ls : ls ≠ [] → zlen ls ≤ MAX_STACK_LAYERS →
  Forall layer_ok ls → stack_size ls < 2 ^ 64 →
  ∃ r, open_files_ro (ly_file <$> ls) = Ok r ∧ ro_virtual_size r = stack_size ls
    ∧ ∀ offset dst, 0 ≤ offset → offset mod ALIGNMENT = 0 → zlen dst mod ALIGNMENT = 0 →
      let n := Z.max 0 (Z.min (zlen dst) (stack_size ls - offset)) in
      ro_read_at_into r offset dst
      = Ok (((λ p, default 0 (stack_byte (rev ls) p)) <$> seqZ offset n) ++ zdrop n dst, n).
Proof.
  intros Hne Hlen Hls Hsz. destruct (open_files_ok ls Hne Hlen Hls) as (ids & E & _).
  eexists. split; [exact E|]. split; [done|]. intros offset dst Ho Hoa Hla n.
  unfold ro_read_at_into, ro_read_into. cbn [ro_index ro_layers ro_virtual_size ro_max_io_size].
  destruct dst as [|b dst].
  { unfold n. change (zlen []) with 0. rewrite Z.max_l by lia. done. }
  cbn [is_nil]. rewrite (read_into_spec (mkReadOnly (merged_index ls)) (ly_file <$> rev ls));
    [|by apply merged_spec|done|done|done|done|done|by apply merged_readable].
  fold n. unfold disk_range. do 3 f_equal. apply list_fmap_ext. intros i p _.
  by apply merged_disk.
Qed.

(** C4: Sealing a live layer succeeds and yields a sealed layer with exactly
    the content of its upper layer; the descriptor, when the layer was tracked,
    carries the digest and the size of the whole file. *)
Theorem seal_keeps_content (sha256 : list Z → list Z) f : live f → sealed f = false →
  disk_sectors (virtual_size_of f) < 2 ^ 32 → zlen (rw_data_file f) < 2 ^ 60 →
  ∃ f' ms, let F := rw_data_file f' in
    close_seal sha256 f
    = (f', Ok ((λ _, mkDescriptor (sha256_text (sha256 F)) (zlen F)) <$> append_digest f))
    ∧ sealed f' = true ∧ layer_ok (mkLayer F (virtual_size_of f) ms)
    ∧ ∀ p, 0 ≤ p < virtual_size_of f → layer_byte F ms p = upper_byte f p.
Proof.
  intros Hf Hs Hn HD. destruct (lv_header f Hf) as (h & _ & Hh & _).
  pose proof (sealed_bound f h Hf Hn Hh HD) as Hz.
  destruct (close_seal_run sha256 f h Hf Hs Hh Hz) as (f' & E & Hs' & Ef). exists f', (seal_index f).
  cbv zeta. rewrite Ef. split_and!; [done|done|by apply sealed_file_layer|].
  intros p Hp. by apply sealed_content.
Qed.

(** Settings that do not concern the disk. *)
Lemma live_settings f io gc ids : live f → io_size_ok io → io / ALIGNMENT ≤ MAX_LENGTH →
  group_commit_buf f = [] →
  let f' := upd_uuids (upd_group (upd_max_io f io) gc (group_commit_buf f)) ids in
  live f' ∧ virtual_size_of f' = virtual_size_of f ∧ ∀ p, disk f' p = disk f p.
Proof.
  intros [[] ? ? ? ? ? ? ?] Hio Hio' Hb f'. split; [|done]. constructor; try done.
  intros _. exact Hb.
Qed.

Lemma stack_size_nonneg ls : 0 ≤ stack_size ls.
Proof.
  unfold stack_size. assert (∀ v, 0 ≤ v →
    0 ≤ fold_left (λ v l, if 0 <? ly_vsize l then ly_vsize l else v) ls v) as Hv; [|by apply Hv].
  induction ls as [|l ls IH]; intros v Hv0; [done|]. simpl. apply IH. destruct (Z.ltb_spec 0 (ly_vsize l)); lia.
Qed.

(** The disk of a layer opened over merged lower layers. *)
Lemma overlay_disk ls up s : Forall layer_ok ls → zlen ls ≤ MAX_STACK_LAYERS → wf_file s →
  lower (index s) = Some (merged_index ls) → lower_layers s = ly_file <$> rev ls →
  rw_data_file s = rw_data_file up → (∀ x, view (upper (index s)) x
    = retag (zlen (ly_file <$> rev ls)) <$> view (upper (index up)) x) →
  ∀ p, disk s p = match upper_byte up p with
                  | Some b => b
                  | None => default 0 (stack_byte (rev ls) p)
                  end.
Proof.
  intros Hls Hlen Hwf Elo Ell Ed Hv p. unfold upper_byte, layer_byte. pose proof (Hv (p / ALIGNMENT)) as Hvp.
  destruct (view (upper (index up)) (p / ALIGNMENT)) as [l|]; simpl in *.
  - by rewrite (disk_upper s p _ Hwf Hvp), Ed.
  - unfold disk, disk_byte, combo_view. rewrite Hvp, Elo. simpl.
    destruct (merged_byte ls Hls Hlen p) as [[E1 E2]|(l0 & E1 & Ht & E2 & E3)]; rewrite E1, E2; [done|].
    simpl. unfold loc_byte. destruct (loc_zeroed l0); [done|].
    rewrite layer_lower by (rewrite Ell, zlen_fmap, zlen_rev; lia). by rewrite Ell.
Qed.

(** C3: Stacking a flushed writable layer on sealed layers presents the upper
    layer's own bytes over the stack below; a layer created without a size
    takes the size of the stack. *)
Theorem stacked_layer_overlays sparse_ok sd sh ls up check_order r : Forall layer_ok ls → ls ≠ [] →
  zlen ls ≤ MAX_STACK_LAYERS → stack_size ls < 2 ^ 63 → open_files_ro (ly_file <$> ls) = Ok r →
  live up → group_commit_buf up = [] → unsealed_data (rw_data_file up) = true →
  zlen (rw_data_file up) < 2 ^ 64 →
  (check_order = true → verify_layer_order (ro_layers r) (ro_uuids r) 1 = Ok tt) →
  ∃ s, stack_files sparse_ok sd sh up r check_order = Ok s ∧ live s
    ∧ virtual_size_of s = (if virtual_size_of up =? 0 then stack_size ls else virtual_size_of up)
    ∧ ∀ p, disk s p = match upper_byte up p with
                      | Some b => b
                      | None => default 0 (stack_byte (rev ls) p)
                      end.
Proof.
  intros Hls Hne Hlen Hsz Er Hup Hb Hun Hlt Hord.
  destruct (open_files_ok ls Hne Hlen Hls) as (ids & E & _). rewrite Er in E. injection E as ->.
  unfold stack_files. cbn [ro_layers ro_uuids ro_index ro_mappings ro_virtual_size] in *.
  assert ((if check_order then verify_layer_order (ly_file <$> rev ls) ids 1 else Ok tt) = Ok tt) as ->
    by (destruct check_order; auto). cbn [rbind].
  destruct (open_ok up sparse_ok sd sh (Some (merged_index ls)) (ly_file <$> rev ls))
    as (s0 & Eo & Hs0 & Ev & Elo & Ell & Ed & Eb & Hv); try done.
  { rewrite zlen_fmap, zlen_rev. unfold MAX_STACK_LAYERS in *. lia. }
  { by apply merged_lower_ok. }
  rewrite Eo. cbn [rbind]. rewrite Ev.
  pose proof (overlay_disk ls up s0 Hls Hlen (lv_wf s0 Hs0) Elo Ell Ed Hv) as Hd.
  pose proof (wf_io up (lv_wf up Hup)) as Hio. pose proof (lv_io up Hup) as Hio'.
  destruct (Z.eqb_spec (virtual_size_of up) 0) as [E0|E0].
  - destruct (update_vsize_ok s0 (stack_size ls) Hs0) as (s1 & E1 & Hs1 & Ev1 & Eb1 & Hd1);
      [by rewrite Ed|pose proof (stack_size_nonneg ls); lia|].
    rewrite E1. cbn [rbind]. rewrite Eb in Eb1. eexists. split; [done|].
    edestruct (live_settings s1 (max_io_size up) (group_commit_size up)) as (Hl & Hv2 & Hd2); [done..|].
    split_and!; [exact Hl|by etransitivity; [exact Hv2|]|]. intros p. etransitivity; [apply Hd2|]. by rewrite Hd1.
  - cbn [rbind]. eexists. split; [done|].
    edestruct (live_settings s0 (max_io_size up) (group_commit_size up)) as (Hl & Hv2 & Hd2); [done..|].
    split_and!; [exact Hl|by etransitivity; [exact Hv2|]|]. intros p. by etransitivity; [apply Hd2|].
Qed.
End SealThm.

(** ** Examples *)
#[local] Existing Instance one_uuid.
#[local] Existing Instance one_uuid_spec.
#[local] Existing Instance DirectRead.

Definition ex_sha (bytes : list Z) : list Z := [zlen bytes mod 256].

Lemma ex_written_live : live ex_written.
Proof.
  assert (write_internal 512 (replicate 512 5) ex_new = (ex_written, Ok 512)) as E by by vm_compute.
  eapply write_effect; [exact ex_new_live| | | |exact E]; [done|by vm_compute|exact ex_new_room].
Qed.

(** Its header. *)
Definition ex_h : HeaderTrailer := rw_header 8192 LogStructured uuid_nil None None.

Lemma ex_written_facts : sealed ex_written = false ∧ virtual_size_of ex_written = 8192
  ∧ zlen (rw_data_file ex_written) = 4608 ∧ ztake HT_SIZE (rw_data_file ex_written)
    = ht_bytes ex_h.
Proof. by vm_compute. Qed.

Lemma seal_keeps_content_witness :
  ∃ f' ms d, close_seal ex_sha ex_written = (f', Ok d)
    ∧ layer_byte (rw_data_file f') ms 600 = upper_byte ex_written 600.
Proof.
  destruct ex_written_facts as (Hs & Hv & Hz & _).
  destruct (seal_keeps_content ex_sha ex_written ex_written_live) as (f' & ms & E & _ & _ & Hb);
    [done|by rewrite Hv|by rewrite Hz|].
  exists f', ms. eexists. split; [exact E|]. apply Hb. rewrite Hv. lia.
Defined.

(** The sealed layer of the example. *)
Definition ex_layer : Layer :=
  mkLayer (sealed_file ex_written (rw_data_file ex_written) (seal_index ex_written) ex_h)
    (virtual_size_of ex_written) (seal_index ex_written).

Lemma ex_layer_ok : layer_ok ex_layer.
Proof.
  assert (header_of (rw_data_file ex_written) ex_h) as Hh.
  { destruct ex_written_facts as (_ & _ & Hz & Ht).
    refine (conj _ (conj _ (conj Ht eq_refl))); [rewrite Hz; unfold HEADER_SIZE; lia|].
    apply wf_rw_header. lia. }
  destruct ex_written_facts as (_ & Hv & Hz & _).
  assert (disk_sectors (virtual_size_of ex_written) < 2 ^ 32) as Hn by by rewrite Hv.
  assert (zlen (rw_data_file ex_written) < 2 ^ 60) as HD by (rewrite Hz; lia).
  pose proof (sealed_bound ex_written ex_h ex_written_live Hn Hh HD) as Hb.
  exact (sealed_file_layer ex_written ex_h ex_written_live Hn Hh Hb).
Qed.

Lemma ex_layers_ok : Forall layer_ok [ex_layer].
Proof. constructor; [apply ex_layer_ok|done]. Qed.

Lemma stack_reads_newest_layer_witness :
  ∃ r, open_files_ro [ly_file ex_layer] = Ok r
    ∧ ro_read_at_into r 512 (zeros 512) = Ok (replicate 512 5, 512).
Proof.
  destruct (stack_reads_newest_layer [ex_layer]) as (r & E & _ & Hr);
    [done|done|exact ex_layers_ok|by vm_compute|].
  exists r. split; [exact E|]. rewrite Hr by done. by vm_compute.
Defined.

Definition ex_stack : LSMTReadOnlyFile :=
  match open_files_ro (ly_file <$> [ex_layer]) with Ok r => r | Err _ => mkRO (mkReadOnly []) [] 0 0 [] end.

Lemma ex_stack_facts : open_files_ro (ly_file <$> [ex_layer]) = Ok ex_stack
  ∧ group_commit_buf ex_new = [] ∧ unsealed_data (rw_data_file ex_new) = true
  ∧ zlen (rw_data_file ex_new) < 2 ^ 64 ∧ stack_size [ex_layer] < 2 ^ 63
  ∧ upper_byte ex_new 600 = None ∧ default 0 (stack_byte [ex_layer] 600) = 5
  ∧ verify_layer_order (ro_layers ex_stack) (ro_uuids ex_stack) 1 = Ok tt.
Proof. by vm_compute. Qed.

Lemma stacked_layer_overlays_witness :
  ∃ s, stack_files true no_seek no_seek ex_new ex_stack true = Ok s ∧ disk s 600 = 5.
Proof.
  destruct ex_stack_facts as (Er & Hb & Hu & Hz & Hs & Hup & Hst & Hord).
  destruct (stacked_layer_overlays true no_seek no_seek [ex_layer] ex_new true ex_stack ex_layers_ok)
    as (s & E & _ & _ & Hd); [done|done|done|done|exact ex_new_live|done|done|done|done|].
  exists s. split; [exact E|]. rewrite Hd, Hup. exact Hst.
Defined.
