(* ===== verification/LsmtCompact.v ===== *)
(** * Compaction of layers into one sealed file

    Models [compact_to] of [lsmt/file/helper.rs] with the operations that end
    in it: [flatten], [commit], [commit_preserving_metadata], [merge_files_ro]
    and [export_upper_as_sealed] of [readonly.rs], [readwrite.rs] and
    [stack.rs].  The destination is any [CompactWriter] of
    [storage/util/src/compact_writer.rs]; [VirtualFileWriter] of
    [io/virtual_file.rs] is the one over a file.

    Data is copied in chunks that fill one buffer of the writer.  A writer that
    accepts writes in any order gets them in the order in which the concurrent
    copies complete: that order is the argument [sched].  When a copy fails the
    destination is left incomplete and is not described further.  The path with
    zero detection is switched off by a constant in the source. *)

From S2P Require Import Prelude LsmtSegment LsmtFormat LsmtIndex LsmtLookup LsmtIo LsmtHelper.
From S2P Require Import LsmtFile LsmtStack.

(** ** Writers *)

(** The trait [CompactWriter]; [cw_write w buf off len] writes the first [len]
    bytes of a buffer. *)
Class CompactWriter (W : Type) : Type := {
  cw_alloc_buffer : W → list Z;
  cw_buffer_size : W → Z;
  cw_requires_ordered_writes : W → bool;
  cw_write : W → list Z → Z → Z → result lsmt_error W;
  cw_write_all_at : W → list Z → Z → result lsmt_error W;
  cw_finalize : W → result lsmt_error W
}.

(** What a writer promises: [cw_holds w F] says that the writer accepts writes
    and the destination holds the bytes [F], [cw_done w F] that it has been
    finalized with them.  A writer that asks for ordered writes may refuse
    anything but an append. *)
Class CompactWriterSpec (W : Type) `{CompactWriter W} : Type := {
  cw_holds : W → list Z → Prop;
  cw_done : W → list Z → Prop;
  cw_fits : W → list Z → Z → Z → Prop :=
    λ w F off len, 0 ≤ off ∧ off + len < 2 ^ 61
      ∧ (cw_requires_ordered_writes w = true → off = zlen F);
  cw_alloc_len : ∀ w, 0 < cw_buffer_size w → cw_buffer_size w ≤ zlen (cw_alloc_buffer w);
  cw_write_ok : ∀ w F buf off len, cw_holds w F → cw_fits w F off len → 0 ≤ len ≤ zlen buf →
    0 < cw_buffer_size w → ∃ w',
    cw_write w buf off len = Ok w'
    ∧ cw_holds w' (file_write F off (ztake len buf))
    ∧ cw_buffer_size w' = cw_buffer_size w
    ∧ cw_requires_ordered_writes w' = cw_requires_ordered_writes w;
  cw_write_all_ok : ∀ w F data off, cw_holds w F → cw_fits w F off (zlen data) →
    0 < cw_buffer_size w → ∃ w',
    cw_write_all_at w data off = Ok w'
    ∧ cw_holds w' (file_write F off data)
    ∧ cw_buffer_size w' = cw_buffer_size w
    ∧ cw_requires_ordered_writes w' = cw_requires_ordered_writes w;
  cw_finalize_ok : ∀ w F, cw_holds w F → ∃ w', cw_finalize w = Ok w' ∧ cw_done w' F
}.

(** The default [write_all_at] of the trait: buffer by buffer. *)
Fixpoint write_buffers {W} (alloc : W → list Z) (write : W → list Z → Z → Z → result lsmt_error W)
  (buf_size : Z) (fuel : nat) (w : W) (data : list Z) (off : Z) : result lsmt_error W :=
  if is_nil data then Ok w
  else match fuel with
       | O => Err OutOfFuel
       | S fuel' =>
           let chunk := ztake buf_size data in
           match buf_write (alloc w) 0 chunk with
           | None => Err BufferPanic
           | Some buf =>
               let? w := write w buf off (zlen chunk) in
               write_buffers alloc write buf_size fuel' w (zdrop buf_size data) (off + zlen chunk)
           end
       end.

Definition default_write_all_at {W} (alloc : W → list Z)
  (write : W → list Z → Z → Z → result lsmt_error W) (buf_size : Z) (w : W) (data : list Z) (off : Z)
  : result lsmt_error W :=
  if buf_size <=? 0 then Err BufferPanic
  else write_buffers alloc write buf_size (length data) w data off.

(** [VirtualFileWriter] *)
Record VirtualFileWriter : Type := mkVFW { vw_file : list Z; vw_buf_size : Z }.

Definition vw_new (file : list Z) : VirtualFileWriter := mkVFW file (32 * 1024).

Definition vw_write (w : VirtualFileWriter) (buf : list Z) (off len : Z)
  : result lsmt_error VirtualFileWriter :=
  if zlen buf <? len then Err BufferPanic
  else Ok (mkVFW (file_write (vw_file w) off (ztake len buf)) (vw_buf_size w)).

Definition vw_write_all_at (w : VirtualFileWriter) (data : list Z) (off : Z)
  : result lsmt_error VirtualFileWriter :=
  Ok (mkVFW (file_write (vw_file w) off data) (vw_buf_size w)).

#[global] Instance VirtualFileWriter_writer : CompactWriter VirtualFileWriter := {|
  cw_alloc_buffer := λ w, zeros (vw_buf_size w);
  cw_buffer_size := vw_buf_size;
  cw_requires_ordered_writes := λ _, false;
  cw_write := vw_write;
  cw_write_all_at := vw_write_all_at;
  cw_finalize := λ w, Ok w
|}.

(** ** Packing mappings into chunks *)

Record CompactChunkEntry : Type := mkEntry {
  ce_tag : Z;
  ce_src_offset : Z;
  ce_len : Z;
  ce_logical_offset : Z
}.

Record CompactChunk : Type := mkChunk {
  cc_entries : list CompactChunkEntry;
  cc_dest_moffset : Z;
  cc_total_len : Z;
  cc_order : Z
}.

(** The variables of phase 1. *)
Record pack_state : Type := mkPack {
  pk_index : list SegmentMapping;
  pk_chunks : list CompactChunk;
  pk_current : option CompactChunk;
  pk_order : Z;
  pk_dest : Z
}.

(** [current_chunk.get_or_insert_with] *)
Definition pack_chunk (st : pack_state) : CompactChunk * Z :=
  match pk_current st with
  | Some c => (c, pk_order st)
  | None => (mkChunk [] (pk_dest st) 0 (pk_order st), pk_order st + 1)
  end.

Definition pack_entry (buf_size tg remaining src_off logical_off : Z) (st : pack_state)
  : Z * pack_state :=
  let '(chunk, order) := pack_chunk st in
  let space := buf_size - cc_total_len chunk in
  let take := Z.min (Z.min remaining space) (MAX_LENGTH * ALIGNMENT) in
  let entry := mkEntry tg (wrap64 src_off) take logical_off in
  let chunk := mkChunk (cc_entries chunk ++ [entry]) (cc_dest_moffset chunk)
                 (cc_total_len chunk + take) (cc_order chunk) in
  let dest := pk_dest st + take / ALIGNMENT in
  (take, if buf_size <=? cc_total_len chunk
         then mkPack (pk_index st) (pk_chunks st ++ [chunk]) None order dest
         else mkPack (pk_index st) (pk_chunks st) (Some chunk) order dest).

(** [while remaining > 0]; every round takes at least one sector. *)
Fixpoint pack_data (fuel : nat) (buf_size tg remaining src_off logical_off : Z) (st : pack_state)
  : result lsmt_error pack_state :=
  if remaining <=? 0 then Ok st
  else match fuel with
       | O => Err OutOfFuel
       | S fuel' =>
           let '(take, st) := pack_entry buf_size tg remaining src_off logical_off st in
           pack_data fuel' buf_size tg (remaining - take) (src_off + take)
             (logical_off + take / ALIGNMENT) st
       end.

Definition pack_mapping (buf_size : Z) (st : pack_state) (m : SegmentMapping)
  : result lsmt_error pack_state :=
  if zeroed m
  then Ok (mkPack (pk_index st ++ [set_moffset m NO_PHYSICAL_OFFSET]) (pk_chunks st)
             (pk_current st) (pk_order st) (pk_dest st))
  else pack_data (Z.to_nat (sm_length m)) buf_size (tag m) (sm_length m * ALIGNMENT)
         (moffset m * ALIGNMENT) (sm_offset m) st.

Fixpoint pack_mappings (buf_size : Z) (st : pack_state) (ms : list SegmentMapping)
  : result lsmt_error pack_state :=
  match ms with
  | [] => Ok st
  | m :: ms' => let? st := pack_mapping buf_size st m in pack_mappings buf_size st ms'
  end.

(** The finished chunks with the partial one at the end. *)
Definition pack_all (st : pack_state) : list CompactChunk :=
  pk_chunks st ++ match pk_current st with Some c => [c] | None => [] end.

(** ** Copying chunks *)

Fixpoint read_entries (lrs : list (list Z)) (dest off : Z) (buf : list Z)
  (es : list CompactChunkEntry) : result lsmt_error (list Z * list SegmentMapping) :=
  match es with
  | [] => Ok (buf, [])
  | e :: es' =>
      match lrs !! Z.to_nat (ce_tag e) with
      | None => Err InvalidLayerTag
      | Some layer =>
          let? _ := ensure (off + ce_len e <=? zlen buf) BufferPanic in
          let got := file_read layer (ce_src_offset e) (ce_len e) in
          let? _ := ensure (zlen got =? ce_len e) ShortRead in
          match buf_write buf off got with
          | None => Err BufferPanic
          | Some buf =>
              let m := sm_new (ce_logical_offset e) (wrap32 (ce_len e / ALIGNMENT))
                         (dest + off / ALIGNMENT) false (ce_tag e) in
              let? r := read_entries lrs dest (off + ce_len e) buf es' in
              Ok (r.1, m :: r.2)
          end
      end
  end.

Section Copy.
Context {W : Type} `{CompactWriter W}.

(** [compact_read_chunk] *)
Definition compact_read_chunk (lrs : list (list Z)) (w : W) (c : CompactChunk)
  : result lsmt_error (list Z * list SegmentMapping) :=
  read_entries lrs (cc_dest_moffset c) 0 (cw_alloc_buffer w) (cc_entries c).

(** [compact_copy_chunk], i.e. [compact_read_chunk] and [compact_write_chunk] *)
Definition compact_copy_chunk (lrs : list (list Z)) (w : W) (c : CompactChunk)
  : result lsmt_error (W * (Z * list SegmentMapping)) :=
  let? r := compact_read_chunk lrs w c in
  let? w := cw_write w r.1 (wrap64 (cc_dest_moffset c * ALIGNMENT)) (cc_total_len c) in
  Ok (w, (cc_order c, r.2)).

Fixpoint copy_chunks (lrs : list (list Z)) (w : W) (cs : list CompactChunk)
  : result lsmt_error (W * list (Z * list SegmentMapping)) :=
  match cs with
  | [] => Ok (w, [])
  | c :: cs' =>
      let? r := compact_copy_chunk lrs w c in
      let? rs := copy_chunks lrs r.1 cs' in
      Ok (rs.1, r.2 :: rs.2)
  end.

(** [results.sort_by_key(|(order, _)| *order)] *)
Definition order_le (a b : Z * list SegmentMapping) : Prop := a.1 ≤ b.1.
#[global] Instance order_le_dec : RelDecision order_le := λ a b, decide (a.1 ≤ b.1).

(** Phase 2: in order when the copies are sequential or the writer needs it,
    else in the order of completion. *)
Definition compact_copy (sched : list CompactChunk → list CompactChunk) (lrs : list (list Z))
  (w : W) (cs : list CompactChunk) (concurrency : Z)
  : result lsmt_error (W * list SegmentMapping) :=
  if (concurrency =? 1) || cw_requires_ordered_writes w
  then let? r := copy_chunks lrs w cs in Ok (r.1, mjoin (r.2.*2))
  else let? r := copy_chunks lrs w (sched cs) in
       Ok (r.1, mjoin ((merge_sort order_le r.2).*2)).
End Copy.

(** ** [compact_to] *)

(** [sort_unstable] by offset. *)
Definition offset_le (a b : SegmentMapping) : Prop := sm_offset a ≤ sm_offset b.
#[global] Instance offset_le_dec : RelDecision offset_le :=
  λ a b, decide (sm_offset a ≤ sm_offset b).

Section CompactTo.
Context `{UuidOps} {W : Type} `{CompactWriter W}.
Context (sched : list CompactChunk → list CompactChunk).

Record CommitArgs : Type := mkArgs {
  ca_writer : W;
  ca_user_tag : option (list Z);
  ca_uuid : option Uuid;
  ca_parent_uuid : option Uuid;
  ca_concurrency : Z
}.

(** [CommitArgs::from_writer] *)
Definition from_writer (w : W) : CommitArgs := mkArgs w None None None 1.

Definition compact_header (vsize : Z) (args : CommitArgs) : HeaderTrailer :=
  let h := set_virtual_size (set_ht_size ht_new) vsize in
  let h := set_sealed (set_data_file (set_header h)) in
  fill_identity h (default uuid_nil (ca_uuid args)) (ca_parent_uuid args) (ca_user_tag args).

(** Invalid mappings that fill the last 4 KiB block of the index. *)
Definition index_padding (count : Z) : Z :=
  let n_per_block := 4096 / MAPPING_SIZE in
  let remainder := count mod n_per_block in
  if 0 <? remainder then n_per_block - remainder else 0.

(** Phase 3: the index and the trailer. *)
Definition compact_finish (w : W) (h : HeaderTrailer) (ci : list SegmentMapping) (dest_moffset : Z)
  : result lsmt_error W :=
  let index_offset := wrap64 (dest_moffset * ALIGNMENT) in
  let padding_count := index_padding (zlen ci) in
  let bytes := append_invalid_index_padding (index_bytes ci) padding_count in
  let? w := cw_write_all_at w bytes index_offset in
  let trailer_offset := index_offset + zlen bytes in
  let pad_len := if is_multiple_of trailer_offset 4096 then 0 else 4096 - trailer_offset mod 4096 in
  let? w := (if pad_len =? 0 then Ok w else cw_write_all_at w (zeros pad_len) trailer_offset) in
  let t := set_index_size (set_index_offset (set_trailer h) index_offset) (zlen ci + padding_count) in
  let? w := cw_write_all_at w (header_block t) (trailer_offset + pad_len) in
  cw_finalize w.

Definition compact_to (lrs : list (list Z)) (ms : list SegmentMapping) (vsize : Z)
  (args : CommitArgs) : result lsmt_error W :=
  let h := compact_header vsize args in
  let concurrency := Z.max 1 (ca_concurrency args) in
  let? w := cw_write_all_at (ca_writer args) (header_block h) 0 in
  let buf_size := cw_buffer_size w in
  let? _ := ensure ((ALIGNMENT <=? buf_size) && is_multiple_of buf_size ALIGNMENT)
              WriterBufferMisaligned in
  let? st := pack_mappings buf_size (mkPack [] [] None 0 (HEADER_SIZE / ALIGNMENT)) ms in
  let? r := compact_copy sched lrs w (pack_all st) concurrency in
  match compress_raw_index (merge_sort offset_le (pk_index st ++ r.2)) with
  | None => Err BufferPanic
  | Some (_, ci) => compact_finish r.1 h ci (pk_dest st)
  end.

(** ** The operations that end in [compact_to] *)

Definition ro_mappings_of (f : LSMTReadOnlyFile) : list SegmentMapping :=
  (li_lookup (ro_index f) (whole_disk (ro_virtual_size f)) []).1.

(** [LSMTReadOnlyFile::flatten] *)
Definition ro_flatten (f : LSMTReadOnlyFile) (w : W) : result lsmt_error W :=
  compact_to (ro_layers f) (ro_mappings_of f) (ro_virtual_size f) (from_writer w).

(** [LSMTReadOnlyFile::commit] *)
Definition ro_commit (f : LSMTReadOnlyFile) (w : W) : result lsmt_error W :=
  let? _ := ensure (zlen (ro_layers f) <=? 1) StackedCommit in
  match ro_layers f with
  | [] => Err BufferPanic
  | layer :: _ =>
      match verify_ht layer true (zlen layer) with
      | Ok trailer =>
          if is_sealed trailer
          then compact_to (ro_layers f) (ro_mappings_of f) (ro_virtual_size f) (from_writer w)
          else Err NotSealed
      | Err _ => Err NotSealed
      end
  end.

(** [LSMTReadOnlyFile::commit_preserving_metadata] *)
Definition commit_preserving_metadata (f : LSMTReadOnlyFile) (args : CommitArgs)
  : result lsmt_error W :=
  let? _ := ensure (zlen (ro_layers f) =? 1) StackedCommit in
  match ro_layers f with
  | [] => Err BufferPanic
  | layer :: _ =>
      let? trailer := verify_ht layer true (zlen layer) in
      let? _ := ensure (is_sealed trailer) NotSealed in
      let args := mkArgs (ca_writer args) (parse_user_tag_field (user_tag trailer))
                    (parse_uuid_field (uuid trailer)) (parse_uuid_field (parent_uuid trailer))
                    (ca_concurrency args) in
      compact_to (ro_layers f) (ro_mappings_of f) (ro_virtual_size f) args
  end.

(** [merge_files_ro] *)
Definition merge_files_ro (src_files : list (list Z)) (args : CommitArgs) : result lsmt_error W :=
  let? _ := ensure (negb (is_nil src_files)) EmptyFileList in
  let? lower := open_files_ro src_files in
  compact_to (ro_layers lower) (ro_mappings_of lower) (ro_virtual_size lower) args.

(** [LSMTFile::flatten_with_args] *)
Definition flatten_with_args (f : LSMTFile) (args : CommitArgs) : result lsmt_error W :=
  compact_to (layers f) (li_lookup (index f) (whole_disk (virtual_size_of f)) []).1
    (virtual_size_of f) args.

(** [LSMTFile::commit_with_args] flushes the log first. *)
Definition commit_with_args (args : CommitArgs) : M W :=
  let! f := get in
  let! _ := ensure_m (zlen (layers f) <=? 1) StackedCommit in
  flush_group_commit ;;;
  let! f := get in
  lift (compact_to (layers f) (li_lookup (index f) (whole_disk (virtual_size_of f)) []).1
          (virtual_size_of f) args).

(** [LSMTFile::export_upper_as_sealed] copies the upper mappings only. *)
Definition export_upper_as_sealed (args : CommitArgs) : M W :=
  flush_group_commit ;;;
  let! f := get in
  let parent := if 2 <=? zlen (uuids f) then head (uuids f) else None in
  let args := mkArgs (ca_writer args) (ca_user_tag args) (ca_uuid args) parent (ca_concurrency args) in
  lift (compact_to (layers f) (upper (index f)) (virtual_size_of f) args).
End CompactTo.
Arguments CommitArgs {_} W.
