(* ===== verification/LsmtCommit.v ===== *)
(** * Compaction keeps the content of the disk

    The file [compact_to] writes is a sealed layer that says about every byte
    what the given mappings said over the source layers, whatever the writer,
    its buffer size and the order in which concurrent copies complete. *)

From S2P Require Import Prelude LsmtSegment LsmtFormat LsmtIndex LsmtLookup LsmtIo LsmtHelper.
From S2P Require Import LsmtFile LsmtRead LsmtLog LsmtWrite LsmtDisk LsmtOpen LsmtStack LsmtSeal.
From S2P Require Import LsmtCompact.

(** ** Entries *)

(** The entries [es] split [n] bytes that start at byte [src] of the layer
    [tg] and at sector [lo] of the disk. *)
Fixpoint splits (tg src lo n : Z) (es : list CompactChunkEntry) : Prop :=
  match es with
  | [] => n = 0
  | e :: es' =>
      e = mkEntry tg (wrap64 src) (ce_len e) lo
      ∧ 0 < ce_len e ≤ n ∧ ce_len e mod ALIGNMENT = 0 ∧ ce_len e ≤ MAX_LENGTH * ALIGNMENT
      ∧ splits tg (src + ce_len e) (lo + ce_len e / ALIGNMENT) (n - ce_len e) es'
  end.

(** The index entries of data stored from sector [d] on. *)
Fixpoint place_entries (d : Z) (es : list CompactChunkEntry) : list SegmentMapping :=
  match es with
  | [] => []
  | e :: es' =>
      sm_new (ce_logical_offset e) (ce_len e / ALIGNMENT) d false (ce_tag e)
        :: place_entries (d + ce_len e / ALIGNMENT) es'
  end.

Fixpoint ents_len (es : list CompactChunkEntry) : Z :=
  match es with [] => 0 | e :: es' => ce_len e + ents_len es' end.

Definition ent_data (lrs : list (list Z)) (e : CompactChunkEntry) : list Z :=
  match lrs !! Z.to_nat (ce_tag e) with
  | Some layer => slice (ce_src_offset e) (ce_len e) layer
  | None => []
  end.
Definition ents_data (lrs : list (list Z)) (es : list CompactChunkEntry) : list Z :=
  mjoin (ent_data lrs <$> es).

(** An entry that can be read in full. *)
Definition ent_ok (lrs : list (list Z)) (e : CompactChunkEntry) : Prop :=
  0 < ce_len e ≤ MAX_LENGTH * ALIGNMENT ∧ ce_len e mod ALIGNMENT = 0 ∧ 0 ≤ ce_src_offset e
  ∧ ∃ layer, lrs !! Z.to_nat (ce_tag e) = Some layer ∧ ce_src_offset e + ce_len e ≤ zlen layer.

Lemma ents_len_app es1 es2 : ents_len (es1 ++ es2) = ents_len es1 + ents_len es2.
Proof. induction es1 as [|e es1 IH]; simpl; lia. Qed.

Lemma ents_data_cons lrs e es : ents_data lrs (e :: es) = ent_data lrs e ++ ents_data lrs es.
Proof. done. Qed.

Lemma ents_data_app lrs es1 es2 : ents_data lrs (es1 ++ es2) = ents_data lrs es1 ++ ents_data lrs es2.
Proof. unfold ents_data. by rewrite fmap_app, join_app. Qed.

Lemma place_entries_app es1 : ∀ d es2, Forall (λ e, ce_len e mod ALIGNMENT = 0) es1 →
  place_entries d (es1 ++ es2)
  = place_entries d es1 ++ place_entries (d + ents_len es1 / ALIGNMENT) es2.
Proof.
  induction es1 as [|e es1 IH]; intros d es2 He; simpl; [by rewrite Z.add_0_r|].
  apply Forall_cons in He as [He Hes]. rewrite IH by done. do 3 f_equal.
  unfold ALIGNMENT in *. dlia.
Qed.

Lemma zlen_ent_data lrs e : ent_ok lrs e → zlen (ent_data lrs e) = ce_len e.
Proof. intros (Hl & _ & Ho & layer & E & Hz). unfold ent_data. rewrite E. apply zlen_slice; lia. Qed.

Lemma zlen_ents_data lrs es : Forall (ent_ok lrs) es → zlen (ents_data lrs es) = ents_len es.
Proof.
  induction 1 as [|e es He _ IH]; [done|].
  cbn [ents_len]. by rewrite ents_data_cons, zlen_app, IH, zlen_ent_data.
Qed.

Lemma ents_len_nonneg lrs es : Forall (ent_ok lrs) es → 0 ≤ ents_len es ∧ ents_len es mod ALIGNMENT = 0.
Proof.
  induction 1 as [|e es (Hl & Hm & _) _ IH]; simpl; [done|]. unfold ALIGNMENT in *. dlia.
Qed.

Lemma ents_aligned lrs es : Forall (ent_ok lrs) es → Forall (λ e, ce_len e mod ALIGNMENT = 0) es.
Proof. intros H. eapply Forall_impl; [exact H|]. by intros e (_ & ? & _). Qed.

(** Reading the entries of a chunk fills the buffer with their data. *)
Lemma read_entries_ok lrs d es : ∀ off buf, Forall (ent_ok lrs) es → 0 ≤ off → off mod ALIGNMENT = 0 →
  off + ents_len es ≤ zlen buf →
  read_entries lrs d off buf es
  = Ok (ztake off buf ++ ents_data lrs es ++ zdrop (off + ents_len es) buf,
        place_entries (d + off / ALIGNMENT) es).
Proof.
  induction es as [|e es IH]; intros off buf He Ho Ha Hb; cbn [read_entries].
  { cbn. rewrite Z.add_0_r. by rewrite ztake_zdrop. }
  apply Forall_cons in He as [He Hes]. pose proof (ents_len_nonneg _ _ Hes) as [Hn _].
  pose proof (zlen_ent_data _ _ He) as Hd. destruct He as (Hl & Hm & Hs & layer & E & Hz).
  cbn [ents_len place_entries] in *. rewrite E. unfold ent_data in Hd. rewrite E in Hd.
  rewrite (proj2 (Z.leb_le _ _)) by lia. cbn [ensure rbind].
  unfold file_read. rewrite Hd, Z.eqb_refl. cbn [ensure rbind]. unfold buf_write. rewrite Hd.
  rewrite (proj2 (Z.leb_le _ _)) by lia. rewrite (proj2 (Z.leb_le (off + ce_len e) _)) by lia.
  cbn [andb]. set (data := slice _ _ layer) in *. set (buf' := _ ++ data ++ _).
  assert (zlen buf' = zlen buf) as Hz'.
  { unfold buf'. rewrite !zlen_app, zlen_ztake, zlen_zdrop by lia. lia. }
  rewrite IH; [|done|lia|unfold ALIGNMENT in *; dlia|lia]. cbn [rbind fst snd].
  rewrite MAX_LENGTH_val in Hl. rewrite wrap32_small by (unfold ALIGNMENT in *; dlia).
  assert (d + (off + ce_len e) / ALIGNMENT = d + off / ALIGNMENT + ce_len e / ALIGNMENT) as ->
    by (unfold ALIGNMENT in *; dlia).
  f_equal. f_equal. rewrite ents_data_cons. unfold ent_data. rewrite E. fold data.
  rewrite <- !app_assoc.
  assert (ztake (off + ce_len e) buf' = ztake off buf ++ data) as ->.
  { unfold buf'. rewrite app_assoc. unfold ztake at 1. rewrite take_app_length'; [done|].
    rewrite length_app. unfold zlen in *. unfold ztake. rewrite length_take. lia. }
  rewrite <- app_assoc. do 3 f_equal. unfold buf'. rewrite app_assoc. unfold zdrop at 1.
  rewrite drop_app_ge; [|rewrite length_app; unfold zlen, ztake in *; rewrite length_take; lia].
  unfold zdrop. rewrite drop_drop. f_equal. rewrite length_app. unfold zlen, ztake in *.
  rewrite length_take. lia.
Qed.

(** ** Packing *)

Definition ent_sized (e : CompactChunkEntry) : Prop := 0 < ce_len e ∧ ce_len e mod ALIGNMENT = 0.

Definition all_entries (cs : list CompactChunk) : list CompactChunkEntry := mjoin (cc_entries <$> cs).

Record chunk_ok (buf_size : Z) (c : CompactChunk) : Prop := {
  ck_total : cc_total_len c = ents_len (cc_entries c);
  ck_range : 0 < cc_total_len c ≤ buf_size;
  ck_sized : Forall ent_sized (cc_entries c)
}.

(** Chunks stored one after the other from sector [d] on. *)
Fixpoint chain (d : Z) (cs : list CompactChunk) : Prop :=
  match cs with
  | [] => True
  | c :: cs' => cc_dest_moffset c = d ∧ chain (d + cc_total_len c / ALIGNMENT) cs'
  end.

(** The state of phase 1 after the entries [es]. *)
Record pack_inv (buf_size : Z) (st : pack_state) (es : list CompactChunkEntry) : Prop := {
  pi_chunks : Forall (chunk_ok buf_size) (pack_all st);
  pi_entries : all_entries (pack_all st) = es;
  pi_chain : chain (HEADER_SIZE / ALIGNMENT) (pack_all st);
  pi_dest : pk_dest st = HEADER_SIZE / ALIGNMENT + ents_len es / ALIGNMENT;
  pi_space : ∀ c, pk_current st = Some c → cc_total_len c < buf_size;
  pi_order : cc_order <$> pack_all st = seqZ 0 (pk_order st);
  pi_next : pk_order st = zlen (pack_all st)
}.

Lemma all_entries_app cs1 cs2 : all_entries (cs1 ++ cs2) = all_entries cs1 ++ all_entries cs2.
Proof. unfold all_entries. by rewrite fmap_app, join_app. Qed.

Lemma all_entries_one c : all_entries [c] = cc_entries c.
Proof. unfold all_entries. cbn. apply app_nil_r. Qed.

Lemma sized_len es : Forall ent_sized es → 0 ≤ ents_len es ∧ ents_len es mod ALIGNMENT = 0.
Proof.
  induction 1 as [|e es [Hl Hm] _ IH]; simpl; [done|]. unfold ALIGNMENT in *. dlia.
Qed.

Lemma chain_app cs1 : ∀ d cs2, Forall (λ c, ∃ n, chunk_ok n c) cs1 →
  chain d (cs1 ++ cs2) ↔ chain d cs1 ∧ chain (d + ents_len (all_entries cs1) / ALIGNMENT) cs2.
Proof.
  induction cs1 as [|c cs1 IH]; intros d cs2 Hc; simpl.
  - rewrite Z.add_0_r. naive_solver.
  - apply Forall_cons in Hc as [(n & Hc) Hcs]. rewrite IH by done.
    change (c :: cs1) with ([c] ++ cs1). rewrite all_entries_app, all_entries_one, ents_len_app.
    destruct (sized_len _ (ck_sized _ _ Hc)) as [_ Ha]. rewrite (ck_total _ _ Hc).
    replace (d + (ents_len (cc_entries c) + ents_len (all_entries cs1)) / ALIGNMENT)
      with (d + ents_len (cc_entries c) / ALIGNMENT + ents_len (all_entries cs1) / ALIGNMENT)
      by (unfold ALIGNMENT in *; dlia).
    naive_solver.
Qed.

(** The chunk an entry goes to, and the chunks before it. *)
Lemma pack_chunk_ok buf_size st es : 0 < buf_size → pack_inv buf_size st es →
  ∃ c order, pack_chunk st = (c, order)
    ∧ Forall (chunk_ok buf_size) (pk_chunks st)
    ∧ chain (HEADER_SIZE / ALIGNMENT) (pk_chunks st)
    ∧ all_entries (pk_chunks st) ++ cc_entries c = es
    ∧ cc_dest_moffset c = HEADER_SIZE / ALIGNMENT + ents_len (all_entries (pk_chunks st)) / ALIGNMENT
    ∧ cc_total_len c = ents_len (cc_entries c) ∧ 0 ≤ cc_total_len c < buf_size
    ∧ Forall ent_sized (cc_entries c)
    ∧ (cc_order <$> pk_chunks st) ++ [cc_order c] = seqZ 0 order
    ∧ order = zlen (pk_chunks st) + 1.
Proof.
  intros Hb [Hc He Hch Hd Hs Ho Hn]. unfold pack_chunk, pack_all in *.
  destruct (pk_current st) as [c|] eqn:Ec.
  - apply Forall_app in Hc as [Hc Hc1]. rewrite Forall_singleton in Hc1.
    apply chain_app in Hch as [Hch1 Hch2];
      [|eapply Forall_impl; [exact Hc|]; simpl; by eauto].
    exists c, (pk_order st). rewrite all_entries_app, all_entries_one in He.
    specialize (Hs c eq_refl). destruct Hc1 as [Ht Hr Hz]. rewrite fmap_app in Ho.
    rewrite zlen_app in Hn. destruct Hch2 as [Hd2 _]. split_and!; try done. lia.
  - rewrite app_nil_r in *. exists (mkChunk [] (pk_dest st) 0 (pk_order st)), (pk_order st + 1).
    simpl. rewrite app_nil_r. rewrite He. pose proof (zlen_nonneg (pk_chunks st)).
    split_and!; try done; try lia. by rewrite Ho, seqZ_snoc, Z.add_0_l by lia.
Qed.

Lemma pack_entry_ok buf_size tg remaining src lo st es : ALIGNMENT ≤ buf_size →
  buf_size mod ALIGNMENT = 0 → 0 < remaining → remaining mod ALIGNMENT = 0 →
  pack_inv buf_size st es →
  ∃ take st', pack_entry buf_size tg remaining src lo st = (take, st')
    ∧ 0 < take ≤ remaining ∧ take mod ALIGNMENT = 0 ∧ take ≤ MAX_LENGTH * ALIGNMENT
    ∧ pk_index st' = pk_index st
    ∧ pack_inv buf_size st' (es ++ [mkEntry tg (wrap64 src) take lo]).
Proof.
  intros Hb Hba Hr Hra Hinv. destruct (pack_chunk_ok buf_size st es) as
    (c & order & Ec & Hcs & Hch & He & Hd & Ht & Htr & Hsz & Ho & Hn); [unfold ALIGNMENT in *; lia|done|].
  unfold pack_entry. rewrite Ec. destruct (sized_len _ Hsz) as [_ Hta]. rewrite <- Ht in Hta.
  set (take := Z.min (Z.min remaining (buf_size - cc_total_len c)) (MAX_LENGTH * ALIGNMENT)).
  assert (0 < take ≤ remaining ∧ take ≤ buf_size - cc_total_len c ∧ take mod ALIGNMENT = 0
    ∧ take ≤ MAX_LENGTH * ALIGNMENT) as (Htk & Htb & Htm & Htx)
    by (unfold take; rewrite MAX_LENGTH_val; unfold ALIGNMENT in *; dlia).
  set (c' := mkChunk (cc_entries c ++ [mkEntry tg (wrap64 src) take lo]) (cc_dest_moffset c)
               (cc_total_len c + take) (cc_order c)).
  set (st' := if buf_size <=? cc_total_len c'
         then mkPack (pk_index st) (pk_chunks st ++ [c']) None order (pk_dest st + take / ALIGNMENT)
         else mkPack (pk_index st) (pk_chunks st) (Some c') order (pk_dest st + take / ALIGNMENT)).
  assert (pack_all st' = pk_chunks st ++ [c']) as Ea.
  { unfold st'. destruct (_ <=? _); [by unfold pack_all; simpl; rewrite app_nil_r|done]. }
  assert (pk_index st' = pk_index st ∧ pk_order st' = order
    ∧ pk_dest st' = pk_dest st + take / ALIGNMENT) as (Ei & Eo & Ed).
  { unfold st'. by destruct (_ <=? _). }
  assert (chunk_ok buf_size c') as Hc'.
  { unfold c'. constructor; simpl.
    - rewrite ents_len_app. simpl. lia.
    - lia.
    - apply Forall_app. split; [done|]. apply Forall_singleton. split; simpl; [lia|done]. }
  exists take, st'. split_and!; try done; try lia. constructor; rewrite ?Ea.
  - apply Forall_app. split; [done|]. by apply Forall_singleton.
  - rewrite all_entries_app, all_entries_one. unfold c'. simpl. by rewrite app_assoc, He.
  - apply chain_app; [eapply Forall_impl; [exact Hcs|]; simpl; by eauto|]. done.
  - rewrite Ed, (pi_dest _ _ _ Hinv), ents_len_app. simpl.
    assert (ents_len es mod ALIGNMENT = 0) as Hes.
    { rewrite <- He, ents_len_app, <- Ht. assert (Forall ent_sized (all_entries (pk_chunks st))) as Hx.
      { unfold all_entries. apply Forall_join, Forall_fmap. eapply Forall_impl; [exact Hcs|]. by intros ? []. }
      apply sized_len in Hx. unfold ALIGNMENT in *. dlia. }
    unfold ALIGNMENT in *. dlia.
  - intros c0. unfold st'. destruct (Z.leb_spec buf_size (cc_total_len c')); simpl; [done|].
    intros [= <-]. done.
  - rewrite fmap_app, Eo. exact Ho.
  - rewrite Eo, zlen_app. done.
Qed.

Lemma pack_data_ok buf_size tg : ALIGNMENT ≤ buf_size → buf_size mod ALIGNMENT = 0 →
  ∀ fuel remaining src lo st es, 0 ≤ remaining → remaining mod ALIGNMENT = 0 →
  remaining ≤ Z.of_nat fuel * ALIGNMENT → pack_inv buf_size st es →
  ∃ st' es', pack_data fuel buf_size tg remaining src lo st = Ok st'
    ∧ pk_index st' = pk_index st ∧ splits tg src lo remaining es' ∧ pack_inv buf_size st' (es ++ es').
Proof.
  intros Hb Hba. induction fuel as [|fuel IH]; intros remaining src lo st es Hr Hra Hf Hinv;
    cbn [pack_data]; destruct (Z.leb_spec remaining 0).
  1,3: exists st, []; rewrite app_nil_r; split_and!; try done; simpl; lia.
  { unfold ALIGNMENT in *. lia. }
  destruct (pack_entry_ok buf_size tg remaining src lo st es) as (take & st1 & E & Ht & Hta & Htx & Ei & H1);
    [done|done|lia|done|done|]. rewrite E.
  destruct (IH (remaining - take) (src + take) (lo + take / ALIGNMENT) st1
    (es ++ [mkEntry tg (wrap64 src) take lo])) as (st' & es' & E' & Ei' & Hsp & H2);
    [lia|unfold ALIGNMENT in *; dlia|unfold ALIGNMENT in *; dlia|done|].
  exists st', (mkEntry tg (wrap64 src) take lo :: es'). rewrite E', Ei'.
  rewrite <- app_assoc in H2. split_and!; try done.
Qed.

(** ** Where the sectors end up *)

Section Splits.
Context (lrs : list (list Z)) (tg : Z) (layer : list Z).
Context (Htg : 0 ≤ tg < 2 ^ 8) (Hlay : lrs !! Z.to_nat tg = Some layer).

Lemma splits_ok es : ∀ src lo n, splits tg src lo n es → 0 ≤ src → src + n ≤ zlen layer →
  src + n < 2 ^ 64 →
  Forall (ent_ok lrs) es ∧ ents_len es = n ∧ ents_data lrs es = slice src n layer.
Proof.
  induction es as [|e es IH]; intros src lo n Hsp Hs Hz Hw.
  - simpl in Hsp. subst n. done.
  - destruct Hsp as (Ee & Hl & Hm & Hx & Hsp). destruct (IH _ _ _ Hsp) as (He & El & Ed); [lia..|].
    rewrite wrap64_small in Ee by lia. cbn [ents_len]. rewrite ents_data_cons, El, Ed.
    assert (ce_tag e = tg ∧ ce_src_offset e = src) as [Et Es] by (rewrite Ee; done). split_and!.
    + constructor; [|done]. split_and!; [lia|lia|done|lia|]. rewrite Et, Es. eexists. split; [done|lia].
    + lia.
    + unfold ent_data. rewrite Et, Es, Hlay, slice_slice_app by lia. f_equal. lia.
Qed.

Definition moved_to (d lo x : Z) : option Loc := Some (mkLoc (Some (d + (x - lo))) false tg).

Lemma place_tiles es : ∀ src lo n d, splits tg src lo n es → 0 ≤ lo → 0 ≤ d → n mod ALIGNMENT = 0 →
  lo + n / ALIGNMENT < 2 ^ 50 → d + n / ALIGNMENT ≤ NO_PHYSICAL_OFFSET →
  tiles (moved_to d lo) lo (lo + n / ALIGNMENT) (place_entries d es)
  ∧ Forall (λ m, sm_length m ≤ MAX_LENGTH ∧ zeroed m || has_physical_range m = true) (place_entries d es).
Proof.
  induction es as [|e es IH]; intros src lo n d Hsp Hlo Hd Hna Hb Hd'.
  - simpl in Hsp. subst n. change (0 / ALIGNMENT) with 0. rewrite Z.add_0_r.
    split; [apply tiles_empty|constructor].
  - destruct Hsp as (Ee & Hl & Hm & Hx & Hsp). cbn [place_entries]. rewrite Ee. cbn [ce_logical_offset ce_len ce_tag].
    set (k := ce_len e) in *. rewrite MAX_LENGTH_val in *.
    destruct (IH _ _ _ (d + k / ALIGNMENT) Hsp) as [Ht Hf]; try (unfold ALIGNMENT in *; dlia).
    set (m := sm_new lo (k / ALIGNMENT) d false tg).
    assert (has_physical_range m = true) as Hp.
    { unfold has_physical_range, m, NO_PHYSICAL_OFFSET, ALIGNMENT in *. simpl. bcases; dlia. }
    assert (wf_mapping m) as Hwf.
    { constructor; unfold m, sm_offset, sm_length; simpl; unfold ALIGNMENT, NO_PHYSICAL_OFFSET in *; dlia. }
    split.
    + replace (lo + n / ALIGNMENT) with (lo + k / ALIGNMENT + (n - k) / ALIGNMENT)
        by (unfold ALIGNMENT in *; dlia).
      change (m :: ?l) with ([m] ++ l). apply (tiles_app _ lo (lo + k / ALIGNMENT));
        [unfold ALIGNMENT in *; dlia..| |].
      * eapply tiles_ext; [|apply (tiles_singleton m Hwf)]. intros x Hx'. unfold loc_at. rewrite Hp. done.
      * eapply tiles_ext; [|exact Ht]. intros x Hx'. unfold moved_to. do 3 f_equal. lia.
    + constructor; [|done]. rewrite Hp, orb_true_r. split; [|done]. unfold m, sm_length. simpl.
      unfold ALIGNMENT in *. dlia.
Qed.
End Splits.

(** A location and the place its sector was copied to; [DATA] is the copied
    data, stored from sector [d] on. *)
Record moved (lrs : list (list Z)) (d : Z) (DATA : list Z) (l l' : Loc) : Prop := {
  mv_tag : loc_tag l' = loc_tag l;
  mv_zeroed : loc_zeroed l' = loc_zeroed l;
  mv_zero : loc_zeroed l = true → loc_phys l' = None;
  mv_data : loc_zeroed l = false → ∃ ph ph' layer,
    loc_phys l = Some ph ∧ lrs !! Z.to_nat (loc_tag l) = Some layer ∧ loc_phys l' = Some ph'
    ∧ d ≤ ph' ∧ (ph' - d + 1) * ALIGNMENT ≤ zlen DATA
    ∧ ∀ i, 0 ≤ i < ALIGNMENT →
        byte_at DATA ((ph' - d) * ALIGNMENT + i) = byte_at layer (ph * ALIGNMENT + i)
}.

(** [L] indexes the compacted data of [ms]. *)
Record compacted (lrs : list (list Z)) (ms : list SegmentMapping) (d : Z) (DATA : list Z)
  (L : list SegmentMapping) : Prop := {
  cp_wf : wf_index L;
  cp_in : ∀ m', m' ∈ L → ∃ m, m ∈ ms ∧ sm_offset m ≤ sm_offset m'
    ∧ sm_offset m' + sm_length m' ≤ sm_offset m + sm_length m;
  cp_fits : Forall (λ m, sm_length m ≤ MAX_LENGTH ∧ zeroed m || has_physical_range m = true) L;
  cp_view : ∀ x l, view ms x = Some l → ∃ l', view L x = Some l' ∧ moved lrs d DATA l l'
}.

(** A mapping whose data lies inside its layer. *)
Definition readable (lrs : list (list Z)) (m : SegmentMapping) : Prop :=
  zeroed m = false → has_physical_range m = true
    ∧ ∃ layer, lrs !! Z.to_nat (tag m) = Some layer ∧ (moffset m + sm_length m) * ALIGNMENT ≤ zlen layer.

Lemma moved_later lrs d k D0 DATA l l' : zlen D0 = k * ALIGNMENT → moved lrs (d + k) DATA l l' →
  moved lrs d (D0 ++ DATA) l l'.
Proof.
  intros Hk [Ht Hz H0 Hd]. constructor; [done..|]. intros E.
  destruct (Hd E) as (ph & ph' & layer & E1 & E2 & E3 & Hph & Hz' & Hb). exists ph, ph', layer.
  pose proof (zlen_nonneg D0). split_and!; try done; [unfold ALIGNMENT in *; lia|rewrite zlen_app; lia|].
  intros i Hi. rewrite <- Hb by done. rewrite byte_at_app by (unfold ALIGNMENT in *; lia).
  unfold ALIGNMENT in *. bcases. f_equal. lia.
Qed.

Lemma moved_earlier lrs d D0 DATA l l' : moved lrs d D0 l l' → moved lrs d (D0 ++ DATA) l l'.
Proof.
  intros [Ht Hz H0 Hd]. constructor; [done..|]. intros E.
  destruct (Hd E) as (ph & ph' & layer & E1 & E2 & E3 & Hph & Hz' & Hb). exists ph, ph', layer.
  pose proof (zlen_nonneg DATA). split_and!; try done; [rewrite zlen_app; lia|].
  intros i Hi. rewrite <- Hb by done. rewrite byte_at_app by (unfold ALIGNMENT in *; lia).
  unfold ALIGNMENT in *. by bcases.
Qed.

(** The copies of a mapping followed by those of the rest. *)
Lemma compacted_app lrs m ms d k D0 DATA L0 L : wf_index (m :: ms) → zlen D0 = k * ALIGNMENT →
  compacted lrs [m] d D0 L0 → compacted lrs ms (d + k) DATA L →
  compacted lrs (m :: ms) d (D0 ++ DATA) (L0 ++ L).
Proof.
  intros Hwf Hk [Hw0 Hi0 Hf0 Hv0] [Hw1 Hi1 Hf1 Hv1]. apply wf_index_cons in Hwf as (Hm & Hb & Hms).
  rewrite Forall_forall in Hb. constructor.
  - apply wf_index_app. split_and!; [done..|]. intros a b Ha Hb'.
    destruct (Hi0 a Ha) as (? & ->%list_elem_of_singleton & ? & ?). destruct (Hi1 b Hb') as (m1 & Hm1 & ? & ?).
    specialize (Hb m1 Hm1). unfold before in *. lia.
  - intros a [Ha|Ha]%elem_of_app.
    + destruct (Hi0 a Ha) as (? & ->%list_elem_of_singleton & ? & ?). exists m. split; [by left|done].
    + destruct (Hi1 a Ha) as (m1 & Hm1 & ?). exists m1. split; [by right|done].
  - by apply Forall_app.
  - intros x l Hx. rewrite view_app. cbn [view] in Hx. destruct (covers m x) eqn:Ec.
    + destruct (Hv0 x l) as (l' & E & Hl); [by cbn [view]; rewrite Ec|]. rewrite E. exists l'.
      split; [done|]. by apply moved_earlier.
    + destruct (Hv1 x l Hx) as (l' & E & Hl). exists l'. split; [|by eapply moved_later].
      destruct (view L0 x) as [l0|] eqn:E0; [|done].
      apply view_Some in E0 as (a & Ha & Hc & _). destruct (Hi0 a Ha) as (? & ->%list_elem_of_singleton & ? & ?).
      apply covers_iff in Hc. assert (covers m x = true) by (apply covers_iff; lia). congruence.
Qed.

Lemma compacted_zero lrs m d : wf_mapping m → small m → zeroed m = true →
  compacted lrs [m] d [] [set_moffset m NO_PHYSICAL_OFFSET].
Proof.
  intros Hm Hs Hz. constructor.
  - apply wf_index_cons. split_and!; [by apply wf_drop_phys|constructor|apply wf_index_nil].
  - intros ? ->%list_elem_of_singleton. exists m. split; [by left|done].
  - apply Forall_singleton. simpl. rewrite Hz. split; [apply Hs|done].
  - intros x l. cbn [view]. change (covers (set_moffset m NO_PHYSICAL_OFFSET) x) with (covers m x).
    destruct (covers m x); [|done]. intros [= <-]. eexists. split; [done|].
    constructor; try done. intros E. unfold loc_at in E. simpl in E. congruence.
Qed.

Lemma compacted_data lrs m d es : wf_mapping m → small m → zeroed m = false → readable lrs m → 0 ≤ d →
  d + sm_length m ≤ NO_PHYSICAL_OFFSET →
  splits (tag m) (moffset m * ALIGNMENT) (sm_offset m) (sm_length m * ALIGNMENT) es →
  Forall (ent_ok lrs) es ∧ ents_len es = sm_length m * ALIGNMENT
  ∧ compacted lrs [m] d (ents_data lrs es) (place_entries d es).
Proof.
  intros Hm [Hs1 Hs2] Hz Hr Hd Hd' Hsp. destruct (Hr Hz) as (Hp & layer & El & Hl). wf_facts.
  assert (0 ≤ moffset m ∧ moffset m + sm_length m ≤ NO_PHYSICAL_OFFSET) as Hmo.
  { unfold has_physical_range in Hp. destruct (Z.eqb_spec (moffset m) NO_PHYSICAL_OFFSET); [done|lia]. }
  assert ((moffset m + sm_length m) * ALIGNMENT < 2 ^ 64) as Hw by (unfold NO_PHYSICAL_OFFSET, ALIGNMENT in *; lia).
  destruct (splits_ok lrs (tag m) layer El es _ _ _ Hsp) as (He & Hn & Hdat);
    [unfold ALIGNMENT; lia|lia|lia|].
  assert (sm_length m * ALIGNMENT / ALIGNMENT = sm_length m) as Ek by (by apply Z.div_mul).
  destruct (place_tiles (tag m) (wf_tag m Hm) es _ _ _ d Hsp) as [(Hw' & Hi & Hv) Hf]; rewrite ?Ek;
    [lia|lia|by apply Z.mod_mul|lia|lia|]. rewrite Ek in *.
  split_and!; [done|done|]. constructor; [done| |done|].
  - intros m' Hm'. exists m. split; [by left|]. by apply Hi.
  - intros x l. cbn [view]. destruct (covers m x) eqn:Ec; [|done]. intros [= <-]. apply covers_iff in Ec.
    eexists. split; [by apply Hv|]. constructor; try done.
    { intros E. unfold loc_at in E. simpl in E. congruence. }
    intros _. exists (moffset m + (x - sm_offset m)), (d + (x - sm_offset m)), layer.
    unfold loc_at. rewrite Hp. simpl. rewrite (zlen_ents_data _ _ He), Hn.
    split_and!; try done; [lia|unfold ALIGNMENT; lia|].
    intros i Hi'. rewrite Hdat, byte_at_slice by (unfold ALIGNMENT in *; lia). f_equal. lia.
Qed.

Lemma pack_mappings_ok lrs buf_size : ALIGNMENT ≤ buf_size → buf_size mod ALIGNMENT = 0 →
  ∀ ms a st es0, wf_index ms → Forall small ms → Forall (readable lrs) ms →
  (∀ m, m ∈ ms → a ≤ sm_offset m) → a ≤ 2 ^ 50 → pk_dest st + (2 ^ 50 - a) ≤ NO_PHYSICAL_OFFSET →
  0 ≤ pk_dest st → pack_inv buf_size st es0 → Forall (ent_ok lrs) es0 →
  ∃ st' es zs L, pack_mappings buf_size st ms = Ok st'
    ∧ pack_inv buf_size st' (es0 ++ es) ∧ pk_index st' = pk_index st ++ zs ∧ Forall (ent_ok lrs) es
    ∧ zs ++ place_entries (pk_dest st) es ≡ₚ L
    ∧ ents_len es ≤ (2 ^ 50 - a) * ALIGNMENT
    ∧ compacted lrs ms (pk_dest st) (ents_data lrs es) L.
Proof.
  intros Hb Hba. induction ms as [|m ms IH]; intros a st es0 Hwf Hsm Hrd Hlow Ha Hbd Hd Hinv He0.
  { exists st, [], [], []. rewrite !app_nil_r. split_and!; try done; [unfold ALIGNMENT; simpl; lia|].
    constructor; [apply wf_index_nil| |constructor|done]. intros m' Hm'. by apply not_elem_of_nil in Hm'. }
  pose proof Hwf as Hwf'. apply wf_index_cons in Hwf' as (Hm & Hbef & Hms). rewrite Forall_forall in Hbef.
  apply Forall_cons in Hsm as [Hs Hsm]. apply Forall_cons in Hrd as [Hr Hrd].
  pose proof (Hlow m ltac:(by left)) as Ha'. pose proof Hs as [Hs1 Hs2]. wf_facts.
  cbn [pack_mappings]. unfold pack_mapping. destruct (zeroed m) eqn:Ez.
  - set (st1 := mkPack _ _ _ _ _). cbn [rbind].
    destruct (IH a st1 es0) as (st' & es & zs & L & E & Hi & Ei & He & HP & Hn & Hc); try done.
    { intros m' Hm'. apply Hlow. by right. }
    { by destruct Hinv; constructor. }
    exists st', es, (set_moffset m NO_PHYSICAL_OFFSET :: zs), (set_moffset m NO_PHYSICAL_OFFSET :: L).
    rewrite E, Ei. change (pk_dest st1) with (pk_dest st) in *. simpl. rewrite <- app_assoc.
    split_and!; try done; [by rewrite HP|].
    apply (compacted_app lrs m ms (pk_dest st) 0 [] _ [set_moffset m NO_PHYSICAL_OFFSET]);
      [done|done|by apply compacted_zero|by rewrite Z.add_0_r].
  - destruct (pack_data_ok buf_size (tag m) Hb Hba (Z.to_nat (sm_length m)) (sm_length m * ALIGNMENT)
      (moffset m * ALIGNMENT) (sm_offset m) st es0) as (st1 & es1 & E1 & Ei1 & Hsp & Hinv1);
      [unfold ALIGNMENT; lia|by apply Z.mod_mul|unfold ALIGNMENT; lia|done|].
    rewrite E1. cbn [rbind].
    destruct (compacted_data lrs m (pk_dest st) es1) as (He1 & Hn1 & Hc1); try done; [lia|].
    assert (pk_dest st1 = pk_dest st + sm_length m) as Ed.
    { rewrite (pi_dest _ _ _ Hinv1), (pi_dest _ _ _ Hinv), ents_len_app, Hn1, Z.div_add by done. lia. }
    destruct (IH (sm_offset m + sm_length m) st1 (es0 ++ es1))
      as (st' & es & zs & L & E & Hi & Ei & He & HP & Hn & Hc); try done; try (rewrite Ed; lia); try lia.
    { by apply Forall_app. }
    exists st', (es1 ++ es), zs, (place_entries (pk_dest st) es1 ++ L).
    rewrite E, Ei, Ei1, app_assoc, ents_len_app, ents_data_app, place_entries_app by (by eapply ents_aligned).
    rewrite Hn1, Z.div_mul, <- Ed by done.
    split_and!; try done.
    + by apply Forall_app.
    + rewrite <- HP. rewrite !app_assoc. f_equiv. apply Permutation_app_comm.
    + unfold ALIGNMENT in *. lia.
    + eapply (compacted_app lrs m ms (pk_dest st) (sm_length m)); [done| |done|by rewrite <- Ed].
      by rewrite (zlen_ents_data _ _ He1).
Qed.

(** ** Copying *)

Lemma file_write_comm F o1 d1 o2 d2 : 0 ≤ o1 → 0 ≤ o2 → o1 + zlen d1 ≤ o2 ∨ o2 + zlen d2 ≤ o1 →
  file_write (file_write F o1 d1) o2 d2 = file_write (file_write F o2 d2) o1 d1.
Proof.
  intros H1 H2 Hdis. pose proof (zlen_nonneg d1). pose proof (zlen_nonneg d2). apply bytes_ext.
  - rewrite !zlen_file_write by done. destruct (is_nil d1), (is_nil d2); lia.
  - intros p Hp. rewrite !byte_at_file_write by lia. bcases; done.
Qed.

Definition chunk_data (lrs : list (list Z)) (c : CompactChunk) : list Z := ents_data lrs (cc_entries c).
Definition chunk_index (c : CompactChunk) : list SegmentMapping :=
  place_entries (cc_dest_moffset c) (cc_entries c).

(** Writing a chunk to the destination. *)
Definition put_chunk (lrs : list (list Z)) (F : list Z) (c : CompactChunk) : list Z :=
  file_write F (cc_dest_moffset c * ALIGNMENT) (chunk_data lrs c).

(** A chunk whose data can be read and whose place is inside a file. *)
Record copyable (lrs : list (list Z)) (buf_size : Z) (c : CompactChunk) : Prop := {
  cy_ok : chunk_ok buf_size c;
  cy_read : Forall (ent_ok lrs) (cc_entries c);
  cy_dest : 0 ≤ cc_dest_moffset c;
  cy_end : cc_dest_moffset c * ALIGNMENT + cc_total_len c < 2 ^ 61
}.

Lemma zlen_chunk_data lrs n c : copyable lrs n c → zlen (chunk_data lrs c) = cc_total_len c.
Proof.
  intros Hc. unfold chunk_data. rewrite (zlen_ents_data _ _ (cy_read _ _ _ Hc)).
  by rewrite (ck_total _ _ (cy_ok _ _ _ Hc)).
Qed.

Section Writer.
Context {W : Type} `{CompactWriterSpec W} (lrs : list (list Z)).

Lemma copy_chunk_ok w F c : cw_holds w F → copyable lrs (cw_buffer_size w) c →
  (cw_requires_ordered_writes w = true → cc_dest_moffset c * ALIGNMENT = zlen F) →
  ∃ w', compact_copy_chunk lrs w c = Ok (w', (cc_order c, chunk_index c))
    ∧ cw_holds w' (put_chunk lrs F c)
    ∧ cw_buffer_size w' = cw_buffer_size w
    ∧ cw_requires_ordered_writes w' = cw_requires_ordered_writes w.
Proof.
  intros HF Hc Hord. pose proof (zlen_chunk_data _ _ _ Hc) as Hlen. destruct Hc as [[Ht Hr Hz] He Hd Hend].
  pose proof (cw_alloc_len w ltac:(lia)) as Hal. unfold compact_copy_chunk, compact_read_chunk.
  rewrite read_entries_ok; [|done|lia|done|lia]. cbn [rbind fst snd].
  set (buf := ztake 0 _ ++ _). change (ents_data lrs (cc_entries c)) with (chunk_data lrs c) in buf.
  rewrite wrap64_small by (unfold ALIGNMENT in *; lia).
  destruct (cw_write_ok w F buf (cc_dest_moffset c * ALIGNMENT) (cc_total_len c) HF) as (w' & E & Hcont & Hb & Ho).
  { split_and!; [unfold ALIGNMENT; lia|lia|done]. }
  { unfold buf. rewrite !zlen_app, zlen_ztake, zlen_zdrop by lia. lia. }
  { lia. }
  exists w'. rewrite E. change (0 / ALIGNMENT) with 0. cbn [rbind]. rewrite Z.add_0_r.
  split_and!; try done. unfold put_chunk. replace (chunk_data lrs c) with (ztake (cc_total_len c) buf); [done|].
  unfold buf. change (ztake 0 (cw_alloc_buffer w)) with (@nil Z). cbn [app]. rewrite <- Hlen. unfold ztake, zlen.
  rewrite Nat2Z.id. apply take_app_length.
Qed.

Lemma copy_chunks_ok cs : ∀ w F d, cw_holds w F → Forall (copyable lrs (cw_buffer_size w)) cs →
  (cw_requires_ordered_writes w = true → chain d cs ∧ zlen F = d * ALIGNMENT ∧ 0 ≤ d) →
  ∃ w', copy_chunks lrs w cs = Ok (w', (λ c, (cc_order c, chunk_index c)) <$> cs)
    ∧ cw_holds w' (fold_left (put_chunk lrs) cs F)
    ∧ cw_buffer_size w' = cw_buffer_size w
    ∧ cw_requires_ordered_writes w' = cw_requires_ordered_writes w.
Proof.
  induction cs as [|c cs IH]; intros w F d HF Hcs Hord; cbn [copy_chunks]; [by exists w|].
  apply Forall_cons in Hcs as [Hc Hcs].
  destruct (copy_chunk_ok w F c HF Hc) as (w1 & E1 & Hc1 & Hb1 & Ho1).
  { intros Ho. destruct (Hord Ho) as ([<- _] & <- & _). done. }
  destruct (IH w1 _ (d + cc_total_len c / ALIGNMENT) Hc1) as (w2 & E2 & Hc2 & Hb2 & Ho2); [by rewrite Hb1| |].
  { rewrite Ho1. intros Ho. destruct (Hord Ho) as ([Ed Hch] & El & Hd). split; [done|].
    pose proof (zlen_chunk_data _ _ _ Hc) as Hlen. destruct Hc as [[Ht Hr Hz] He _ _].
    pose proof (sized_len _ Hz) as [_ Ha]. rewrite <- Ht in Ha. unfold put_chunk.
    rewrite Ed, <- El, file_write_end, zlen_app, Hlen. unfold ALIGNMENT in *. dlia. }
  exists w2. rewrite E1. cbn [rbind fst snd]. rewrite E2. cbn [rbind fst snd fold_left].
  by rewrite Hb2, Ho2.
Qed.

(** Chunks that lie one after the other are written to disjoint ranges. *)
Lemma chain_before n cs : ∀ d, Forall (copyable lrs n) cs → chain d cs →
  Forall (λ c, d ≤ cc_dest_moffset c) cs
  ∧ StronglySorted (λ a b, cc_dest_moffset a * ALIGNMENT + zlen (chunk_data lrs a)
                           ≤ cc_dest_moffset b * ALIGNMENT) cs.
Proof.
  induction cs as [|c cs IH]; intros d Hcs Hch; [by split; constructor|].
  apply Forall_cons in Hcs as [Hc Hcs]. destruct Hch as [Ed Hch].
  destruct (IH _ Hcs Hch) as [Hlo Hs]. rewrite (Forall_forall (λ c, _ ≤ _)) in Hlo.
  pose proof (zlen_chunk_data _ _ _ Hc) as Hlen. destruct (cy_ok _ _ _ Hc) as [Ht Hr Hz].
  pose proof (sized_len _ Hz) as [_ Ha]. rewrite <- Ht in Ha. split.
  - constructor; [lia|]. apply Forall_forall. intros b Hb. specialize (Hlo b Hb).
    unfold ALIGNMENT in *. dlia.
  - constructor; [done|]. apply Forall_forall. intros b Hb. specialize (Hlo b Hb).
    rewrite Hlen. unfold ALIGNMENT in *. dlia.
Qed.

Lemma put_chunks_perm n d cs cs' F : Forall (copyable lrs n) cs → chain d cs → cs' ≡ₚ cs →
  fold_left (put_chunk lrs) cs' F = fold_left (put_chunk lrs) cs F.
Proof.
  intros Hcs Hch Hp. destruct (chain_before n cs d Hcs Hch) as [_ Hs].
  symmetry. apply fold_left_perm; [|done]. intros i j a b G Hij Ha Hb.
  pose proof (list_elem_of_lookup_2 _ _ _ Ha) as Hina. pose proof (list_elem_of_lookup_2 _ _ _ Hb) as Hinb.
  rewrite Forall_forall in Hcs. pose proof (cy_dest _ _ _ (Hcs a Hina)). pose proof (cy_dest _ _ _ (Hcs b Hinb)).
  apply file_write_comm; [unfold ALIGNMENT; lia..|]. destruct (decide (i < j)%nat).
  - left. by apply (StronglySorted_lookup _ _ Hs i j).
  - right. apply (StronglySorted_lookup _ _ Hs j i); [lia|done|done].
Qed.

Lemma put_chunks_in_order n cs : ∀ d F, Forall (copyable lrs n) cs → chain d cs →
  zlen F = d * ALIGNMENT →
  fold_left (put_chunk lrs) cs F = F ++ ents_data lrs (all_entries cs).
Proof.
  induction cs as [|c cs IH]; intros d F Hcs Hch HF; cbn [fold_left]; [by rewrite app_nil_r|].
  apply Forall_cons in Hcs as [Hc Hcs]. destruct Hch as [Ed Hch].
  pose proof (zlen_chunk_data _ _ _ Hc) as Hlen. destruct (cy_ok _ _ _ Hc) as [Ht Hr Hz].
  pose proof (sized_len _ Hz) as [_ Ha]. rewrite <- Ht in Ha.
  unfold put_chunk at 2. rewrite Ed, <- HF, file_write_end.
  rewrite (IH (d + cc_total_len c / ALIGNMENT)); [|done|done|].
  - change (c :: cs) with ([c] ++ cs). by rewrite all_entries_app, all_entries_one, ents_data_app, <- app_assoc.
  - rewrite zlen_app, Hlen. unfold ALIGNMENT in *. dlia.
Qed.

Lemma chain_index n cs : ∀ d, Forall (chunk_ok n) cs → chain d cs →
  mjoin (chunk_index <$> cs) = place_entries d (all_entries cs).
Proof.
  induction cs as [|c cs IH]; intros d Hcs Hch; [done|]. apply Forall_cons in Hcs as [[Ht Hr Hz] Hcs].
  destruct Hch as [Ed Hch]. change (c :: cs) with ([c] ++ cs) at 2.
  rewrite all_entries_app, all_entries_one, place_entries_app.
  - cbn. unfold chunk_index at 1. rewrite Ed, <- Ht. f_equal. by apply IH.
  - eapply Forall_impl; [exact Hz|]. by intros e [_ ?].
Qed.
End Writer.

#[local] Instance order_le_trans : Transitive order_le.
Proof. intros a b c. unfold order_le. lia. Qed.
#[local] Instance order_le_total : Total order_le.
Proof. intros a b. unfold order_le. lia. Qed.

Lemma seqZ_sorted_map {A} (f : A → Z) (l : list A) a : f <$> l = seqZ a (zlen l) →
  ∀ i j x y, l !! i = Some x → l !! j = Some y → (i < j)%nat ↔ f x < f y.
Proof.
  intros E i j x y Hi Hj.
  assert ((f <$> l) !! i = Some (f x) ∧ (f <$> l) !! j = Some (f y)) as [Ei Ej]
    by (by rewrite !list_lookup_fmap, Hi, Hj).
  rewrite E in Ei, Ej. apply lookup_seqZ in Ei as [-> _], Ej as [-> _]. lia.
Qed.

(** The results of the copies, in whatever order they arrive, are put back
    into the order of the chunks. *)
Lemma results_in_order (cs cs' : list CompactChunk) : cc_order <$> cs = seqZ 0 (zlen cs) → cs' ≡ₚ cs →
  let res := λ c, (cc_order c, chunk_index c) in
  merge_sort order_le (res <$> cs') = res <$> cs.
Proof.
  intros Ho Hp res. pose proof (seqZ_sorted_map cc_order cs 0 Ho) as Hs. apply (merge_sort_perm order_le).
  - intros x y (c1 & -> & H1)%list_elem_of_fmap (c2 & -> & H2)%list_elem_of_fmap Hxy Hyx.
    apply list_elem_of_lookup in H1 as [i Hi], H2 as [j Hj]. unfold order_le in *. simpl in *.
    pose proof (Hs i j _ _ Hi Hj). pose proof (Hs j i _ _ Hj Hi). assert (i = j) as -> by lia. congruence.
  - apply StronglySorted_lookup_2. intros i j x y Hij. rewrite !list_lookup_fmap.
    intros (c1 & Hi & ->)%fmap_Some (c2 & Hj & ->)%fmap_Some.
    unfold order_le. simpl. pose proof (Hs i j _ _ Hi Hj). lia.
  - by rewrite Hp.
Qed.

Section CopyAll.
Context {W : Type} `{CompactWriterSpec W} (lrs : list (list Z)).
Context (sched : list CompactChunk → list CompactChunk) (Hsched : ∀ cs, sched cs ≡ₚ cs).

(** Whatever the concurrency and the order of completion, the destination gets
    the data of the chunks in their order, and the index describes it. *)
Lemma compact_copy_ok w F d cs concurrency : cw_holds w F → Forall (copyable lrs (cw_buffer_size w)) cs →
  chain d cs → 0 ≤ d → zlen F = d * ALIGNMENT → cc_order <$> cs = seqZ 0 (zlen cs) →
  ∃ w', compact_copy sched lrs w cs concurrency = Ok (w', place_entries d (all_entries cs))
    ∧ cw_holds w' (F ++ ents_data lrs (all_entries cs))
    ∧ cw_buffer_size w' = cw_buffer_size w
    ∧ cw_requires_ordered_writes w' = cw_requires_ordered_writes w.
Proof.
  intros HF Hcs Hch Hd Hz Ho. unfold compact_copy. set (res := λ c, (cc_order c, chunk_index c)).
  assert (mjoin ((res <$> cs).*2) = place_entries d (all_entries cs)) as Eidx.
  { rewrite <- list_fmap_compose. eapply chain_index; [|exact Hch].
    eapply Forall_impl; [exact Hcs|]. by intros c []. }
  destruct ((concurrency =? 1) || cw_requires_ordered_writes w) eqn:Eo.
  - destruct (copy_chunks_ok lrs cs w F d HF Hcs) as (w' & E & Hc & Hb & Hr); [by intros _|].
    fold res in E. rewrite E. cbn [rbind fst snd]. exists w'. rewrite Eidx.
    split_and!; try done. by erewrite <- put_chunks_in_order.
  - apply orb_false_iff in Eo as [_ Eo].
    destruct (copy_chunks_ok lrs (sched cs) w F d HF) as (w' & E & Hc & Hb & Hr); [by rewrite Hsched|by rewrite Eo|].
    fold res in E. rewrite E. cbn [rbind fst snd]. exists w'.
    unfold res at 1. rewrite (results_in_order cs (sched cs)); [|done|by apply Hsched]. fold res. rewrite Eidx.
    rewrite (put_chunks_perm lrs (cw_buffer_size w) d cs) in Hc; [|done|done|by apply Hsched].
    split_and!; try done. by erewrite <- put_chunks_in_order.
Qed.
End CopyAll.

(** ** The index of the compacted file *)

#[local] Instance offset_le_trans : Transitive offset_le.
Proof. intros a b c. unfold offset_le. lia. Qed.
#[local] Instance offset_le_total : Total offset_le.
Proof. intros a b. unfold offset_le. lia. Qed.

(** Sorting by offset recovers a well-formed index from its mappings. *)
Lemma sort_index l L : wf_index L → l ≡ₚ L → merge_sort offset_le l = L.
Proof.
  intros Hw Hp. apply (merge_sort_perm offset_le); [| |done].
  - intros x y Hx Hy. unfold offset_le. intros H1 H2. pose proof (elem_of_wf _ _ Hw Hx) as Hwx.
    pose proof (elem_of_wf _ _ Hw Hy) as Hwy. wf_facts. apply (wf_index_overlap L); [done..|lia|lia].
  - clear Hp. induction L as [|m L IH]; [constructor|]. apply wf_index_cons in Hw as (Hm & Hb & Hw).
    constructor; [by apply IH|]. eapply Forall_impl; [exact Hb|]. unfold before, offset_le. wf_facts. lia.
Qed.

Lemma compress_ref_length rest : ∀ cur, Forall wf_mapping (cur :: rest) →
  Forall (λ m, sm_length m ≤ MAX_LENGTH) (cur :: rest) →
  Forall (λ m, sm_length m ≤ MAX_LENGTH) (compress_ref cur rest).
Proof.
  induction rest as [|x rest IH]; intros cur Hw Hl; [done|]. simpl.
  apply Forall_cons in Hw as [Hc Hw]. apply Forall_cons in Hl as [Hcl Hl].
  pose proof Hw as Hw'. apply Forall_cons in Hw' as [Hx Hr]. pose proof Hl as Hl'. apply Forall_cons in Hl' as [Hxl Hrl].
  destruct (can_merge_with cur x) eqn:E.
  - destruct (sm_grow_spec cur x Hc Hx E) as (Hg & _ & Hgl & _).
    destruct (can_merge_fields cur x Hc Hx E) as (_ & _ & _ & _ & _ & Hm).
    apply IH; constructor; try done. lia.
  - constructor; [done|]. by apply IH.
Qed.

(** Mappings the disk format keeps and the loader accepts. *)
Definition loadable (m : SegmentMapping) : Prop :=
  disk_fits m ∧ 0 < sm_length m ∧ zeroed m || has_physical_range m = true.

Lemma compacted_loadable lrs ms d DATA L : Forall small ms → compacted lrs ms d DATA L →
  Forall loadable (compress_spec L).
Proof.
  intros Hsm [Hw Hi Hf Hv]. destruct (compress_spec_view L Hw) as [Hw' Hv'].
  rewrite Forall_forall in Hf, Hsm.
  assert (Forall (λ m, sm_length m ≤ MAX_LENGTH) (compress_spec L)) as Hl.
  { destruct L as [|m L]; [constructor|]. apply compress_ref_length; [apply Hw|].
    apply Forall_forall. intros a Ha. by apply Hf. }
  assert (∀ m x, m ∈ compress_spec L → covers m x = true →
    ∃ a, a ∈ L ∧ covers a x = true ∧ loc_at m x = loc_at a x) as Hsrc.
  { intros m x Hm Hc. pose proof (view_elem _ _ _ Hw' Hm Hc) as E. rewrite Hv' in E.
    apply view_Some in E as (a & Ha & Hca & E). by exists a. }
  rewrite Forall_forall in Hl. apply Forall_forall. intros m Hm. pose proof (elem_of_wf _ _ Hw' Hm) as Hwm.
  specialize (Hl m Hm). rewrite MAX_LENGTH_val in Hl. wf_facts.
  destruct (Hsrc m (sm_offset m + sm_length m - 1) Hm) as (a & Ha & Hca & _); [apply covers_iff; lia|].
  apply covers_iff in Hca. destruct (Hi a Ha) as (b & Hb & _ & Hb2). destruct (Hsm b Hb) as [_ Hb3].
  destruct (Hsrc m (sm_offset m) Hm) as (c & Hc & _ & Ec); [apply covers_iff; lia|].
  destruct (Hf c Hc) as [_ Hz]. unfold loc_at in Ec. injection Ec as E1 E2 E3.
  split_and!; [unfold NO_PHYSICAL_OFFSET in *; unfold disk_fits; lia|lia|]. rewrite E2.
  destruct (has_physical_range m), (has_physical_range c); done.
Qed.

(** Loading an index whose last block is filled with invalid mappings. *)
Lemma load_loadable ms : ∀ k rest, Forall loadable ms →
  load_mappings (length ms + k) (index_bytes ms ++ rest) true
  = rbind (load_mappings k rest true) (λ r, Ok (((λ m, set_tag m 0) <$> ms) ++ r)).
Proof.
  induction ms as [|m ms IH]; intros k rest Hms.
  { simpl. by destruct (load_mappings k rest true). }
  apply Forall_cons in Hms as [(Hfit & Hl & Hz) Hms]. cbn [length Nat.add load_mappings].
  pose proof (mapping_bytes_roundtrip _ Hfit) as Hrt. pose proof (disk_bytes_length (from_memory m)) as Hlen.
  change (index_bytes (m :: ms)) with (disk_bytes (from_memory m) ++ index_bytes ms). rewrite <- app_assoc.
  set (b := disk_bytes (from_memory m)) in *. unfold ztake, zdrop. unfold zlen in Hlen.
  rewrite take_app_length', drop_app_length' by lia. destruct (disk_from_bytes b) as [dm|]; [|done].
  change (Some (to_memory dm) = Some m) in Hrt. apply Some_inj in Hrt. rewrite Hrt.
  destruct (Z.eqb_spec (sm_length m) 0); [lia|]. unfold disk_fits in Hfit.
  destruct (Z.eqb_spec (sm_offset m) U64_MAX); [unfold U64_MAX in *; lia|]. cbn [orb].
  rewrite Hz. cbn [ensure rbind]. rewrite IH by done. by destruct (load_mappings k rest true).
Qed.

Lemma load_invalid k :
  load_mappings k (mjoin (replicate k (disk_bytes invalid_disk_mapping))) true = Ok [].
Proof.
  induction k as [|k IH]; [done|]. cbn [replicate load_mappings].
  change (mjoin (?b :: ?l)) with (b ++ mjoin l).
  pose proof (disk_bytes_length invalid_disk_mapping) as Hlen. unfold zlen in Hlen. unfold ztake, zdrop.
  rewrite take_app_length', drop_app_length' by lia. rewrite IH. by vm_compute.
Qed.

(** ** The compacted file is a sealed layer *)

Definition compact_index_bytes (ci : list SegmentMapping) : list Z :=
  append_invalid_index_padding (index_bytes ci) (index_padding (zlen ci)).

Definition compact_trailer (h : HeaderTrailer) (off count : Z) : HeaderTrailer :=
  set_index_size (set_index_offset (set_trailer h) off) count.

(** Header and data [C], then the index, the padding and the trailer. *)
Definition compact_file (C : list Z) (h : HeaderTrailer) (ci : list SegmentMapping) : list Z :=
  let body := C ++ compact_index_bytes ci in
  (body ++ seal_pad (zlen body))
    ++ header_block (compact_trailer h (zlen C) (zlen ci + index_padding (zlen ci))).

Lemma index_padding_range n : 0 ≤ n → 0 ≤ index_padding n < 256.
Proof.
  intros Hn. unfold index_padding. change (4096 / MAPPING_SIZE) with 256.
  pose proof (Z.mod_pos_bound n 256 ltac:(lia)). destruct (Z.ltb_spec 0 (n mod 256)); lia.
Qed.

Lemma zlen_compact_index_bytes ci :
  zlen (compact_index_bytes ci) = MAPPING_SIZE * (zlen ci + index_padding (zlen ci)).
Proof.
  unfold compact_index_bytes, append_invalid_index_padding. rewrite zlen_app, zlen_index_bytes.
  pose proof (index_padding_range (zlen ci) (zlen_nonneg ci)) as Hp. set (k := index_padding (zlen ci)) in *.
  assert (∀ n, zlen (mjoin (replicate n (disk_bytes invalid_disk_mapping))) = MAPPING_SIZE * Z.of_nat n) as Hr.
  { induction n as [|n IH]; [done|]. cbn [replicate]. change (mjoin (?b :: ?l)) with (b ++ mjoin l).
    rewrite zlen_app, IH, disk_bytes_length. lia. }
  rewrite Hr, Z2Nat.id by lia. lia.
Qed.

Lemma wf_compact_trailer h off count : wf_ht h → 0 ≤ off < 2 ^ 64 → 0 ≤ count < 2 ^ 64 →
  wf_ht (compact_trailer h off count).
Proof.
  intros Hh Ho Hn. unfold compact_trailer. apply (wf_flag_clear FLAG_SHIFT_HEADER) in Hh; [|done].
  change (set_trailer h) with (flag_clear FLAG_SHIFT_HEADER h). generalize dependent (flag_clear FLAG_SHIFT_HEADER h).
  intros h' []. by constructor.
Qed.

Lemma compact_flags `{!UuidOps, !UuidSpec} {W} vsize (args : CommitArgs W) : 0 ≤ vsize < 2 ^ 64 →
  let h := compact_header vsize args in
  wf_ht h ∧ virtual_size h = vsize ∧ verify_magic h && is_header h = true
  ∧ ∀ off n, 0 ≤ off < 2 ^ 64 → 0 ≤ n < 2 ^ 64 → let t := compact_trailer h off n in
    wf_ht t ∧ verify_magic t && is_trailer t && is_data_file t && is_sealed t = true.
Proof.
  intros Hv h.
  assert (wf_ht h) as Hh.
  { unfold h, compact_header. set (h0 := set_sealed _). assert (wf_ht h0) as Hh0.
    { apply wf_flag_set; [done|]. apply wf_flag_set; [done|]. apply wf_flag_set; [done|].
      apply wf_set_virtual_size; [done|]. destruct wf_ht_new. by constructor. }
    assert (∀ u, length (uuid_hyphenated u ++ [0]) = 37%nat) as Hu.
    { intros u. pose proof (us_len u) as Hu. unfold zlen in Hu. rewrite length_app. simpl. lia. }
    unfold fill_identity, set_uuid.
    repeat apply wf_set_identity; try done; try apply length_uuid_field; try apply length_user_tag;
      try apply Hu; destruct Hh0; done. }
  split_and!; [done|done|by vm_compute|]. intros off n Ho Hn t. split.
  - by apply wf_compact_trailer.
  - by vm_compute.
Qed.

Section Finish.
Context (C : list Z) (h : HeaderTrailer) (ci : list SegmentMapping) (vsize : Z).
Context (HC : HEADER_SIZE ≤ zlen C < 2 ^ 60) (Hn : zlen ci ≤ 2 ^ 50).
Context (Hh : header_of C h) (Hvs : virtual_size h = vsize).
Context (Ht : ∀ off n, 0 ≤ off < 2 ^ 64 → 0 ≤ n < 2 ^ 64 → let t := compact_trailer h off n in
    wf_ht t ∧ verify_magic t && is_trailer t && is_data_file t && is_sealed t = true).
Context (Hci : wf_index ci) (Hload : Forall loadable ci).

Let F := compact_file C h ci.
Let count := zlen ci + index_padding (zlen ci).

Lemma compact_count : 0 ≤ count < 2 ^ 51.
Proof.
  unfold count. pose proof (zlen_nonneg ci). pose proof (index_padding_range (zlen ci) ltac:(done)). lia.
Qed.

Lemma zlen_compact_file : zlen C + MAPPING_SIZE * count ≤ zlen F < 2 ^ 61.
Proof.
  pose proof compact_count as Hc. unfold F, compact_file. destruct (Ht (zlen C) count) as [Hwf _]; [unfold HEADER_SIZE in *; lia..|].
  rewrite !zlen_app, zlen_header_block, zlen_seal_pad, zlen_compact_index_bytes by done.
  fold count. unfold HEADER_SIZE, MAPPING_SIZE, is_multiple_of in *. destruct (_ =? _); dlia.
Qed.

Lemma compact_prefix : ∃ E, F = C ++ compact_index_bytes ci ++ E.
Proof. eexists. unfold F, compact_file. by rewrite <- !app_assoc. Qed.

Lemma compact_byte p : 0 ≤ p < zlen C → byte_at F p = byte_at C p.
Proof.
  intros Hp. destruct compact_prefix as [E ->]. rewrite byte_at_app by lia. by bcases.
Qed.

Lemma compact_loads : load_index_and_reset_tags F (zlen C) count = Ok ((λ m, set_tag m 0) <$> ci).
Proof.
  pose proof compact_count as Hc. pose proof zlen_compact_file as Hz. pose proof (zlen_nonneg ci).
  pose proof (index_padding_range (zlen ci) ltac:(done)) as Hp.
  unfold load_index_and_reset_tags, load_index. destruct (Z.eqb_spec count 0) as [E|E].
  { assert (zlen ci = 0) as ->%zlen_0 by (unfold count in *; lia). done. }
  rewrite (Z.mul_comm count). unfold MAPPING_SIZE, HEADER_SIZE in *.
  rewrite (proj2 (Z.leb_le (16 * count) U64_MAX)) by (unfold U64_MAX; lia). unfold checked_add64.
  rewrite (proj2 (Z.leb_le (zlen C + 16 * count) U64_MAX)) by (unfold U64_MAX; lia).
  rewrite (proj2 (Z.leb_le (zlen C + 16 * count) (zlen F))) by lia. cbn [ensure rbind].
  assert (file_read F (zlen C) (16 * count) = compact_index_bytes ci) as ->.
  { destruct compact_prefix as [R ->]. pose proof (zlen_compact_index_bytes ci) as El. fold count in El.
    unfold MAPPING_SIZE in El. rewrite <- El. apply slice_app_mid. }
  rewrite zlen_compact_index_bytes. fold count. rewrite (proj2 (Z.leb_le _ _)) by (unfold MAPPING_SIZE; lia).
  cbn [ensure rbind]. unfold compact_index_bytes, append_invalid_index_padding.
  replace (Z.to_nat count) with (length ci + Z.to_nat (index_padding (zlen ci)))%nat
    by (unfold count, zlen in *; lia).
  rewrite load_loadable, load_invalid by done. cbn [rbind]. by rewrite app_nil_r.
Qed.

Lemma compact_file_layer :
  (∀ x l, view ci x = Some l → loc_zeroed l = false → ∃ ph, loc_phys l = Some ph ∧ (ph + 1) * ALIGNMENT ≤ zlen C) →
  sealed_layer F vsize ((λ m, set_tag m 0) <$> ci).
Proof.
  intros Hdata. pose proof zlen_compact_file as Hz. pose proof compact_count as Hc.
  constructor.
  - exists h. apply verify_header. eapply header_of_ext; [exact Hh|unfold MAPPING_SIZE in *; lia|].
    intros p Hp. apply compact_byte. lia.
  - destruct (Ht (zlen C) count) as [Hwf Hf]; [unfold HEADER_SIZE in *; lia..|].
    exists (compact_trailer h (zlen C) count). split_and!; [by apply verify_trailer|done|]. apply compact_loads.
  - apply wf_index_fmap; [done| |done]. intros m _ Hm. by apply wf_set_tag.
  - intros x l. rewrite (view_fmap _ (retag 0)) by done. destruct (view ci x) as [l0|] eqn:E; [|done].
    intros [= <-] Hz0. destruct (Hdata x l0 E Hz0) as (ph & Eph & Hph). exists ph. split; [done|].
    unfold MAPPING_SIZE in *. lia.
Qed.
End Finish.

Lemma chain_bounds n cs : ∀ d, Forall (chunk_ok n) cs → chain d cs → 0 ≤ ents_len (all_entries cs) ∧
  Forall (λ c, d ≤ cc_dest_moffset c
    ∧ cc_dest_moffset c * ALIGNMENT + cc_total_len c ≤ d * ALIGNMENT + ents_len (all_entries cs)) cs.
Proof.
  induction cs as [|c cs IH]; intros d Hcs Hch; [by split; [|constructor]|].
  apply Forall_cons in Hcs as [[Ht Hr Hz] Hcs]. destruct Hch as [Ed Hch]. destruct (IH _ Hcs Hch) as [Hn Hf].
  change (c :: cs) with ([c] ++ cs) at 1 2. rewrite all_entries_app, all_entries_one, ents_len_app, <- Ht.
  pose proof (sized_len _ Hz) as [_ Ha]. rewrite <- Ht in Ha. split; [lia|]. constructor; [lia|].
  eapply Forall_impl; [exact Hf|]. simpl. intros c' Hc'. unfold ALIGNMENT in *. dlia.
Qed.

Section Main.
Context `{UuidSpec} {W : Type} `{CompactWriterSpec W}.
Context (sched : list CompactChunk → list CompactChunk) (Hsched : ∀ cs, sched cs ≡ₚ cs).

Lemma write_append w F data : cw_holds w F → zlen F + zlen data < 2 ^ 61 → 0 < cw_buffer_size w →
  ∃ w', cw_write_all_at w data (zlen F) = Ok w' ∧ cw_holds w' (F ++ data) ∧ cw_buffer_size w' = cw_buffer_size w.
Proof.
  intros HF Hz Hb. destruct (cw_write_all_ok w F data (zlen F) HF) as (w' & E & Hc & Hb' & _).
  { split_and!; [apply zlen_nonneg|lia|done]. }
  { done. }
  exists w'. by rewrite file_write_end in Hc.
Qed.

Lemma compact_finish_ok w C h ci d : cw_holds w C →
  zlen C = d * ALIGNMENT → zlen (compact_file C h ci) < 2 ^ 61 → 0 < cw_buffer_size w →
  ∃ w', compact_finish w h ci d = Ok w' ∧ cw_done w' (compact_file C h ci).
Proof.
  intros HC Hd Hz Hb. unfold compact_finish, compact_file in *. fold (compact_index_bytes ci).
  set (B := compact_index_bytes ci) in *. set (tb := header_block _) in *.
  rewrite !zlen_app in Hz. pose proof (zlen_nonneg C). pose proof (zlen_nonneg B). pose proof (zlen_nonneg tb).
  pose proof (zlen_nonneg (seal_pad (zlen C + zlen B))).
  rewrite <- Hd, wrap64_small by lia.
  destruct (write_append w C B HC) as (w1 & E1 & Hc1 & Hb1); [lia|done|].
  rewrite E1. cbn [rbind]. set (pad := if is_multiple_of (zlen C + zlen B) 4096 then 0 else _).
  assert (pad = zlen (seal_pad (zlen C + zlen B))) as Ep by (by rewrite zlen_seal_pad).
  assert (∃ w2, (if pad =? 0 then Ok w1 else cw_write_all_at w1 (zeros pad) (zlen C + zlen B)) = Ok w2
    ∧ cw_holds w2 ((C ++ B) ++ seal_pad (zlen (C ++ B))) ∧ cw_buffer_size w2 = cw_buffer_size w)
    as (w2 & E2 & Hc2 & Hb2).
  { rewrite zlen_app. destruct (Z.eqb_spec pad 0) as [E0|E0].
    - exists w1. rewrite Hb1. rewrite E0 in Ep. symmetry in Ep. apply zlen_0 in Ep. by rewrite Ep, app_nil_r.
    - destruct (write_append w1 _ (zeros pad) Hc1) as (w2 & E2 & Hc2 & Hb2).
      { rewrite zlen_app, zlen_zeros. lia. }
      { lia. }
      rewrite zlen_app in E2. exists w2. rewrite Hb2. split_and!; try done. }
  rewrite E2. cbn [rbind]. rewrite Ep.
  destruct (write_append w2 _ tb Hc2) as (w3 & E3 & Hc3 & Hb3).
  { rewrite !zlen_app. lia. }
  { lia. }
  rewrite !zlen_app in E3. fold (compact_trailer h (zlen C) (zlen ci + index_padding (zlen ci))).
  fold tb. rewrite E3. cbn [rbind]. destruct (cw_finalize_ok w3 _ Hc3) as (w4 & E4 & Hc4). by exists w4.
Qed.

(** Everything up to phase 3. *)
Lemma compact_copy_phase lrs ms w buf_size concurrency h : wf_index ms → Forall small ms →
  Forall (readable lrs) ms → cw_holds w (header_block h) → wf_ht h → cw_buffer_size w = buf_size →
  ALIGNMENT ≤ buf_size → buf_size mod ALIGNMENT = 0 →
  ∃ st w' idx L DATA, pack_mappings buf_size (mkPack [] [] None 0 (HEADER_SIZE / ALIGNMENT)) ms = Ok st
    ∧ compact_copy sched lrs w (pack_all st) concurrency = Ok (w', idx)
    ∧ pk_index st ++ idx ≡ₚ L ∧ cw_holds w' (header_block h ++ DATA) ∧ cw_buffer_size w' = buf_size
    ∧ compacted lrs ms (HEADER_SIZE / ALIGNMENT) DATA L
    ∧ zlen DATA ≤ 2 ^ 50 * ALIGNMENT ∧ pk_dest st * ALIGNMENT = zlen (header_block h ++ DATA).
Proof.
  intros Hwf Hsm Hrd Hw Hh Hb Hb1 Hb2.
  assert (∀ m, m ∈ ms → 0 ≤ sm_offset m) as Hlow.
  { intros m Hm. pose proof (elem_of_wf _ _ Hwf Hm). by wf_facts. }
  destruct (pack_mappings_ok lrs buf_size Hb1 Hb2 ms 0 (mkPack [] [] None 0 (HEADER_SIZE / ALIGNMENT)) [])
    as (st & es & zs & L & E & Hinv & Ei & He & HP & Hn & Hc); try done.
  simpl in Hinv, Ei, HP, Hc. pose proof (pi_entries _ _ _ Hinv) as Ees.
  destruct (chain_bounds _ _ _ (pi_chunks _ _ _ Hinv) (pi_chain _ _ _ Hinv)) as [Hn0 Hbd]. rewrite Ees in *.
  assert (Forall (copyable lrs buf_size) (pack_all st)) as Hcopy.
  { apply Forall_forall. intros c Hc'. pose proof (pi_chunks _ _ _ Hinv) as Hck.
    rewrite Forall_forall in Hck, Hbd. destruct (Hbd c Hc') as [Hd1 Hd2].
    change (HEADER_SIZE / ALIGNMENT) with 8 in *. constructor; [by apply Hck| |lia|unfold ALIGNMENT in *; lia].
    apply Forall_forall. intros e He'. rewrite Forall_forall in He. apply He. rewrite <- Ees.
    apply list_elem_of_join. exists (cc_entries c). split; [done|]. by apply list_elem_of_fmap_2. }
  destruct (compact_copy_ok lrs sched Hsched w _ (HEADER_SIZE / ALIGNMENT) (pack_all st) concurrency Hw)
    as (w' & E' & Hc' & Hb' & _); [by rewrite Hb|apply Hinv|done| |by rewrite (pi_order _ _ _ Hinv), (pi_next _ _ _ Hinv)|].
  { by rewrite zlen_header_block. }
  rewrite Ees in E', Hc'. exists st, w', (place_entries (HEADER_SIZE / ALIGNMENT) es), L, (ents_data lrs es).
  rewrite Hb', Hb, Ei. split_and!; try done.
  - rewrite (zlen_ents_data _ _ He). unfold ALIGNMENT in *. lia.
  - rewrite (pi_dest _ _ _ Hinv), zlen_app, (zlen_ents_data _ _ He), zlen_header_block by done. simpl.
    pose proof (ents_len_nonneg _ _ He) as [_ Ha]. unfold ALIGNMENT, HEADER_SIZE in *. dlia.
Qed.

Lemma compacted_none lrs ms d DATA L x : compacted lrs ms d DATA L → view ms x = None → view L x = None.
Proof.
  intros Hc Hx. destruct (view L x) as [l|] eqn:E; [|done].
  apply view_Some in E as (a & Ha & Hca & _). destruct (cp_in _ _ _ _ _ Hc a Ha) as (m & Hm & Hm1 & Hm2).
  apply covers_iff in Hca. rewrite view_None in Hx. specialize (Hx m Hm).
  assert (covers m x = true) by (apply covers_iff; lia). congruence.
Qed.

(** The bytes a compacted layer stores are those of the source layers. *)
Lemma compacted_byte lrs ms h DATA L ci F p : compacted lrs ms (HEADER_SIZE / ALIGNMENT) DATA L →
  (∀ x, view ci x = view L x) → wf_ht h →
  (∀ q, 0 ≤ q < zlen (header_block h ++ DATA) → byte_at F q = byte_at (header_block h ++ DATA) q) →
  0 ≤ p →
  layer_byte F ((λ m, set_tag m 0) <$> ci) p = (λ l, loc_byte lrs (Some l) p) <$> view ms (p / ALIGNMENT).
Proof.
  intros Hc Hci Hh HF Hp. unfold layer_byte. rewrite (view_fmap _ (retag 0)) by done. rewrite Hci.
  destruct (view ms (p / ALIGNMENT)) as [l|] eqn:E.
  2:{ by rewrite (compacted_none _ _ _ _ _ _ Hc E). }
  destruct (cp_view _ _ _ _ _ Hc _ _ E) as (l' & E' & [Htg Hz Hz0 Hd]). rewrite E'. simpl. f_equal.
  unfold up_byte, loc_byte, retag. simpl. rewrite Hz. destruct (loc_zeroed l) eqn:Ez; [done|].
  destruct (Hd eq_refl) as (ph & ph' & layer & E1 & E2 & E3 & Hph & Hlen & Hb). rewrite E1, E2, E3.
  pose proof (Z.mod_pos_bound p ALIGNMENT ltac:(done)) as Hm. rewrite <- Hb by done.
  change (HEADER_SIZE / ALIGNMENT) with 8 in *. pose proof (zlen_header_block h Hh) as Hhb.
  unfold HEADER_SIZE, ALIGNMENT in *. rewrite HF by (rewrite zlen_app; lia).
  rewrite byte_at_app, Hhb by lia. bcases. f_equal. lia.
Qed.

(** Stored sectors lie inside the copied data. *)
Lemma compacted_stored lrs ms d DATA L x l : compacted lrs ms d DATA L → view L x = Some l →
  loc_zeroed l = false → ∃ ph, loc_phys l = Some ph ∧ (ph - d + 1) * ALIGNMENT ≤ zlen DATA.
Proof.
  intros Hc Hx Hz. destruct (view ms x) as [l0|] eqn:E.
  2:{ by rewrite (compacted_none _ _ _ _ _ _ Hc E) in Hx. }
  destruct (cp_view _ _ _ _ _ Hc _ _ E) as (l' & E' & [Htg Hz' _ Hd]). rewrite Hx in E'. injection E' as <-.
  rewrite Hz' in Hz. destruct (Hd Hz) as (ph & ph' & layer & _ & _ & E3 & _ & Hlen & _). by exists ph'.
Qed.

(** The number of mappings is bounded by the sectors of the disk. *)
Lemma compacted_count lrs ms d DATA L ci : Forall small ms → compacted lrs ms d DATA L → wf_index ci →
  (∀ x, view ci x = view L x) → zlen ci ≤ 2 ^ 50.
Proof.
  intros Hsm Hc Hw Hv. rewrite Forall_forall in Hsm. replace (2 ^ 50) with (2 ^ 50 - 0) by lia.
  apply (zlen_tiles (view ci)); [lia|]. split_and!; [done| |done]. intros m Hm.
  pose proof (elem_of_wf _ _ Hw Hm) as Hwm. wf_facts. split; [lia|].
  assert (covers m (sm_offset m + sm_length m - 1) = true) as Hcov by (apply covers_iff; lia).
  pose proof (view_elem _ _ _ Hw Hm Hcov) as E. rewrite Hv in E.
  apply view_Some in E as (a & Ha & Hca & _). apply covers_iff in Hca.
  destruct (cp_in _ _ _ _ _ Hc a Ha) as (m0 & Hm0 & _ & Hm1). destruct (Hsm m0 Hm0). lia.
Qed.

Lemma compact_to_ok lrs ms vsize (args : CommitArgs W) : wf_index ms → Forall small ms →
  Forall (readable lrs) ms → 0 ≤ vsize < 2 ^ 64 → cw_holds (ca_writer args) [] →
  let buf_size := cw_buffer_size (ca_writer args) in
  ALIGNMENT ≤ buf_size → buf_size mod ALIGNMENT = 0 →
  ∃ w' F ci, compact_to sched lrs ms vsize args = Ok w' ∧ cw_done w' F ∧ 0 < zlen F < 2 ^ 61
    ∧ layer_ok (mkLayer F vsize ci)
    ∧ ∀ p, 0 ≤ p → layer_byte F ci p = (λ l, loc_byte lrs (Some l) p) <$> view ms (p / ALIGNMENT).
Proof.
  intros Hwf Hsm Hrd Hv Hw buf_size Hb1 Hb2.
  destruct (compact_flags vsize args Hv) as (Hh & Hvs & Hmag & Htr). set (h := compact_header vsize args) in *.
  destruct (write_append (ca_writer args) [] (header_block h) Hw) as (w1 & E1 & Hc1 & Hbs1).
  { by rewrite zlen_header_block. }
  { fold buf_size. unfold ALIGNMENT in *. lia. }
  change (zlen []) with 0 in E1. cbn [app] in Hc1. unfold compact_to. fold h. rewrite E1. cbn [rbind].
  rewrite Hbs1. fold buf_size. rewrite (proj2 (Z.leb_le _ _)) by done. unfold is_multiple_of.
  rewrite Hb2. cbn [Z.eqb andb ensure rbind].
  destruct (compact_copy_phase lrs ms w1 buf_size (Z.max 1 (ca_concurrency args)) h)
    as (st & w2 & idx & L & DATA & E2 & E3 & HP & Hc2 & Hbs2 & Hcomp & Hdl & Hdest); try done.
  rewrite E2. cbn [rbind]. rewrite E3. cbn [rbind fst snd].
  rewrite (sort_index _ L), compress_raw_index_ref by (apply Hcomp || done).
  pose proof (compress_spec_view L (cp_wf _ _ _ _ _ Hcomp)) as [Hciw Hciv].
  pose proof (compacted_loadable _ _ _ _ _ Hsm Hcomp) as Hcil. set (ci := compress_spec L) in *.
  set (C := header_block h ++ DATA) in *. pose proof (zlen_header_block h Hh) as Hhb. pose proof (zlen_nonneg DATA).
  assert (HEADER_SIZE ≤ zlen C < 2 ^ 60) as HC.
  { unfold C. rewrite zlen_app, Hhb. unfold ALIGNMENT, HEADER_SIZE in *. lia. }
  pose proof (compacted_count _ _ _ _ _ ci Hsm Hcomp Hciw Hciv) as Hn.
  assert (header_of C h) as HhC.
  { eapply header_of_ext; [by apply header_block_of|lia|]. intros p Hp. unfold C.
    rewrite byte_at_app by lia. rewrite Hhb. unfold HEADER_SIZE in *. by bcases. }
  pose proof (zlen_compact_file C h ci HC Hn Htr) as HF.
  destruct (compact_finish_ok w2 C h ci (pk_dest st) Hc2) as (w3 & E4 & Hc4); [done|lia| |].
  { rewrite Hbs2. unfold ALIGNMENT in *. lia. }
  exists w3, (compact_file C h ci), ((λ m, set_tag m 0) <$> ci). split_and!; [done|done| |lia| |].
  { pose proof (zlen_nonneg ci). pose proof (index_padding_range (zlen ci) ltac:(done)).
    unfold HEADER_SIZE, MAPPING_SIZE in *. lia. }
  - unfold layer_ok. cbn [ly_file ly_vsize ly_index]. apply compact_file_layer; try done.
    intros x l Hx Hz. rewrite Hciv in Hx. destruct (compacted_stored _ _ _ _ _ _ _ Hcomp Hx Hz) as (ph & Eph & Hph).
    exists ph. split; [done|]. unfold C. rewrite zlen_app, Hhb. change (HEADER_SIZE / ALIGNMENT) with 8 in *.
    unfold ALIGNMENT, HEADER_SIZE in *. lia.
  - intros p Hp. eapply compacted_byte; try done. intros q Hq. by apply compact_byte.
Qed.
End Main.
