(* ===== verification/LsmtExport.v ===== *)
(** * Commit, flatten, merge and export

    The operations that compact layers into one sealed file, with the content
    each of them keeps: [merge_files_ro] that of a stack of sealed layers,
    [flatten] and [commit] the disk of a writable layer over its lower layers,
    [export_upper_as_sealed] the upper layer alone.  Any [CompactWriter] serves
    as destination; the writer over a file satisfies its contract, and so does
    the default [write_all_at] of the trait. *)

From S2P Require Import Prelude LsmtSegment LsmtFormat LsmtIndex LsmtLookup LsmtIo LsmtHelper.
From S2P Require Import LsmtFile LsmtRead LsmtLog LsmtWrite LsmtDisk LsmtOpen LsmtStack LsmtSeal.
From S2P Require Import LsmtCompact LsmtCommit.

(** ** Writers *)

#[global] Program Instance VirtualFileWriter_spec : CompactWriterSpec VirtualFileWriter := {|
  cw_holds w F := vw_file w = F;
  cw_done w F := vw_file w = F
|}.
Next Obligation. intros w Hb. simpl in *. rewrite zlen_zeros. lia. Qed.
Next Obligation.
  intros w F buf off len <- _ Hl _. simpl. unfold vw_write. destruct (Z.ltb_spec (zlen buf) len); [lia|].
  by eexists.
Qed.
Next Obligation. intros w F data off <- _ _. by eexists. Qed.
Next Obligation. intros w F <-. by eexists. Qed.

Section DefaultWrite.
Context {W : Type} (alloc : W → list Z) (write : W → list Z → Z → Z → result lsmt_error W).
Context (contents : W → list Z) (ordered : W → bool) (n : Z) (Hn : 0 < n).
Context (Halloc : ∀ w, n ≤ zlen (alloc w)).
Context (Hwrite : ∀ w buf off len, 0 ≤ off → off + len < 2 ^ 64 → 0 ≤ len ≤ zlen buf →
  (ordered w = true → off = zlen (contents w)) →
  ∃ w', write w buf off len = Ok w' ∧ contents w' = file_write (contents w) off (ztake len buf)
    ∧ ordered w' = ordered w).

Lemma write_buffers_ok fuel : ∀ w data off, (length data ≤ fuel)%nat → 0 ≤ off →
  off + zlen data < 2 ^ 64 → (ordered w = true → off = zlen (contents w)) →
  ∃ w', write_buffers alloc write n fuel w data off = Ok w'
    ∧ contents w' = file_write (contents w) off data ∧ ordered w' = ordered w.
Proof.
  induction fuel as [|fuel IH]; intros w data off Hf Ho Hz Hord; destruct data as [|b data0] eqn:Ed;
    try (simpl in Hf; lia); [by exists w..|]. cbn [write_buffers is_nil]. rewrite <- Ed in *.
  set (chunk := ztake n data). pose proof (zlen_nonneg data).
  assert (0 < zlen chunk ≤ n ∧ zlen chunk ≤ zlen data) as Hc.
  { unfold chunk. rewrite zlen_ztake, Ed, zlen_cons. pose proof (zlen_nonneg data0). lia. }
  pose proof (Halloc w). destruct (buf_write_ok (alloc w) 0 chunk) as (buf & Eb & Hbl & Hbb); [lia|lia|].
  rewrite Eb. destruct (Hwrite w buf off (zlen chunk)) as (w1 & E1 & Hc1 & Ho1); [done|lia|lia|done|].
  assert (ztake (zlen chunk) buf = chunk) as Etk.
  { apply bytes_ext; [rewrite zlen_ztake; lia|]. intros p Hp. rewrite zlen_ztake in Hp.
    rewrite byte_at_ztake, Hbb by lia. bcases. f_equal. lia. }
  rewrite Etk in Hc1. rewrite E1. cbn [rbind].
  assert (chunk ++ zdrop n data = data) as Esp by apply ztake_zdrop.
  assert (zlen (zdrop n data) = zlen data - zlen chunk) as Hdl.
  { pose proof (f_equal zlen Esp) as E. rewrite zlen_app in E. lia. }
  destruct (IH w1 (zdrop n data) (off + zlen chunk)) as (w2 & E2 & Hc2 & Ho2).
  - unfold zlen in *. lia.
  - lia.
  - lia.
  - rewrite Ho1, Hc1. intros Eo. rewrite zlen_file_write by done. rewrite <- (Hord Eo).
    destruct chunk; [change (zlen []) with 0 in Hc; lia|]. cbn [is_nil]. lia.
  - exists w2. rewrite E2, Hc2, Hc1, Ho2, Ho1, file_write_app, Esp by done. done.
Qed.

(** Writing buffer by buffer has the effect of one write. *)
Lemma default_write_all_ok w data off : 0 ≤ off → off + zlen data < 2 ^ 64 →
  (ordered w = true → off = zlen (contents w)) →
  ∃ w', default_write_all_at alloc write n w data off = Ok w'
    ∧ contents w' = file_write (contents w) off data ∧ ordered w' = ordered w.
Proof.
  intros. unfold default_write_all_at. rewrite (proj2 (Z.leb_gt _ _)) by lia.
  by apply write_buffers_ok.
Qed.
End DefaultWrite.

(** ** Mappings of a lookup can be copied *)

(** Every sector of the view that holds data lies inside its layer. *)
Definition stored (lrs : list (list Z)) (V : Z → option Loc) : Prop :=
  ∀ x l, V x = Some l → loc_zeroed l = false → ∃ ph layer,
    loc_phys l = Some ph ∧ lrs !! Z.to_nat (loc_tag l) = Some layer ∧ (ph + 1) * ALIGNMENT ≤ zlen layer.

Lemma view_readable lrs ms : wf_index ms → stored lrs (view ms) → Forall (readable lrs) ms.
Proof.
  intros Hw Hs. apply Forall_forall. intros m Hm Hz. pose proof (elem_of_wf _ _ Hw Hm) as Hwm. wf_facts.
  set (x := sm_offset m + sm_length m - 1).
  assert (covers m x = true) as Hc by (apply covers_iff; unfold x; lia).
  destruct (Hs x _ (view_elem _ _ _ Hw Hm Hc)) as (ph & layer & Eph & El & Hsz); [done|].
  unfold loc_at in Eph, El. simpl in Eph, El. destruct (has_physical_range m); [|done]. injection Eph as <-.
  split; [done|]. exists layer. split; [done|]. unfold x in Hsz. unfold ALIGNMENT in *. lia.
Qed.

Lemma tiles_readable lrs V a b ms : stored lrs V → tiles V a b ms → Forall (readable lrs) ms.
Proof.
  intros Hs (Hw & Hi & Hv). apply view_readable; [done|]. intros x l E Hz. apply (Hs x); [|done].
  rewrite <- Hv; [done|]. apply view_Some in E as (m & Hm & Hc & _). apply covers_iff in Hc.
  specialize (Hi m Hm). lia.
Qed.

(** Lengths of a mapping read from disk have 14 bits. *)
Definition short (m : SegmentMapping) : Prop := sm_length m ≤ MAX_LENGTH.

Lemma short_within a b : within a b → short b → short a.
Proof. unfold within, short. lia. Qed.

Lemma to_memory_short d : short (to_memory d).
Proof.
  unfold short, to_memory, sm_length. simpl. unfold LENGTH_MASK. rewrite MAX_LENGTH_val, land_mask by lia.
  pose proof (Z.mod_pos_bound (Z.shiftr (data_low d) 50) (2 ^ 14) ltac:(lia)). rewrite wrap32_small by lia. lia.
Qed.

Lemma load_short n : ∀ raw b ms, load_mappings n raw b = Ok ms → Forall short ms.
Proof.
  induction n as [|n IH]; intros raw b ms E; cbn [load_mappings] in E; [by injection E as <-|].
  destruct (disk_from_bytes _) as [d|]; [|done]. destruct (_ || _); [by eapply IH|].
  destruct (ensure _ _); [|done]. cbn [rbind] in E.
  destruct (load_mappings n _ b) as [ms'|] eqn:E'; [|done]. cbn [rbind] in E. injection E as <-.
  constructor; [|by eapply IH]. pose proof (to_memory_short d). by destruct b.
Qed.

Lemma layer_short l : layer_ok l → Forall short (ly_index l).
Proof.
  intros Hl. destruct (sl_trailer _ _ _ Hl) as (t & _ & _ & E).
  unfold load_index_and_reset_tags, load_index in E. destruct (_ =? 0); [by injection E as <-|].
  destruct (ensure _ _); [|done]. cbn [rbind] in E. destruct (ensure _ _); [|done]. cbn [rbind] in E.
  destruct (ensure _ _); [|done]. cbn [rbind] in E. by eapply load_short.
Qed.

(** What holds of the pieces of a mapping survives the merge. *)
Section MergeBound.
Context (P : SegmentMapping → Prop) (HP : ∀ a b, within a b → P b → P a).

Lemma merge_layers_bound (ls : list (nat * list SegmentMapping)) : ∀ mi, wf_index mi → Forall P mi →
  Forall (λ l, Forall wf_mapping l.2 ∧ Forall P l.2) ls →
  wf_index (fold_left merge_layer ls mi) ∧ Forall P (fold_left merge_layer ls mi).
Proof.
  induction ls as [|[k l] ls IH]; intros mi Hw Hs Hls; [done|]. apply Forall_cons in Hls as [[Hlw Hls0] Hls].
  cbn [fold_left]. set (log := (λ m, set_tag m (wrap8 (Z.of_nat k))) <$> l).
  assert (merge_layer mi (k, l) = fold_left mi_insert log mi) as ->.
  { unfold merge_layer, log. simpl. clear. revert mi. induction l as [|m l IHl]; intros mi; [done|]. apply IHl. }
  assert (Forall (λ m, wf_mapping m ∧ P m) log) as Hlog.
  { apply Forall_fmap, Forall_forall. intros m Hm. rewrite Forall_forall in Hlw, Hls0. simpl.
    split; [apply wf_set_tag; [apply wrap8_range|by apply Hlw]|]. eapply HP; [|by apply (Hls0 m)]. by split. }
  apply IH; [|by apply insert_log_bound|done].
  apply insert_log_view; [done|]. eapply Forall_impl; [exact Hlog|]. by intros m [].
Qed.

Lemma ro_new_bound ms : Forall P ms → Forall P (ro_new ms).
Proof.
  intros Hms. apply Forall_fmap. eapply Forall_impl; [exact Hms|]. intros m Hm. eapply HP; [|exact Hm].
  simpl. by destruct (zeroed m).
Qed.

Lemma merged_bound ls : Forall layer_ok ls → Forall (λ l, Forall P (ly_index l)) ls →
  Forall P (merged_index ls).
Proof.
  intros Hls HPl. unfold merged_index, ro_merge. apply ro_new_bound.
  apply merge_layers_bound; [apply wf_index_nil|constructor|].
  apply Forall_rev, Forall_forall. intros [k l] Hl. unfold enumerate in Hl.
  apply elem_of_zip_r in Hl. apply list_elem_of_fmap in Hl as (ly & -> & Hly).
  rewrite list_elem_of_In, <- in_rev, <- list_elem_of_In in Hly. rewrite Forall_forall in Hls, HPl. simpl.
  split; [apply (ro_new_spec _ (sl_wf _ _ _ (Hls ly Hly)))|by apply ro_new_bound, HPl].
Qed.
End MergeBound.

Lemma merged_short ls : Forall layer_ok ls → Forall short (merged_index ls).
Proof.
  intros Hls. apply merged_bound; [exact short_within|done|]. eapply Forall_impl; [exact Hls|]. apply layer_short.
Qed.

(** Pieces of short mappings inside a disk of less than 2 TiB fit the format. *)
Lemma short_small n ms : n < 2 ^ 32 → (∀ m, m ∈ ms → sm_offset m + sm_length m ≤ n) →
  Forall short ms → Forall small ms.
Proof.
  intros Hn Hi Hs. rewrite Forall_forall in *. intros m Hm. split; [by apply Hs|].
  specialize (Hi m Hm). lia.
Qed.

Lemma disk_sectors_range v : 0 ≤ v → 0 ≤ disk_sectors v.
Proof.
  intros Hv. unfold disk_sectors. pose proof (div_ceil_bounds v ALIGNMENT ltac:(done)). unfold ALIGNMENT in *. lia.
Qed.

Lemma sector_in_disk v p : 0 ≤ p < v → 0 ≤ p / ALIGNMENT < disk_sectors v.
Proof.
  intros Hp. unfold disk_sectors. pose proof (div_ceil_bounds v ALIGNMENT ltac:(done)). unfold ALIGNMENT in *. dlia.
Qed.

Lemma whole_disk_query v : 0 ≤ v → disk_sectors v < 2 ^ 32 →
  whole_disk v = mkSeg 0 (disk_sectors v) ∧ wf_query (mkSeg 0 (disk_sectors v)).
Proof.
  intros Hv Hn. pose proof (disk_sectors_range v Hv). split.
  - unfold whole_disk. fold (disk_sectors v). by rewrite wrap32_small by lia.
  - constructor; simpl; lia.
Qed.

(** The sectors of the upper layer, and of the whole disk, lie in the files. *)
Lemma upper_stored `{UuidOps} f : live f → stored (layers f) (view (upper (index f))).
Proof.
  intros Hf x l E Hz. pose proof (lv_wf f Hf) as Hwf. pose proof (wf_upper f Hwf) as Hup.
  pose proof (live_type f Hf) as Hty. destruct (wf_rw_tag f Hwf) as [Etag _].
  destruct (uo_data _ _ _ _ Hup _ _ E Hz) as [ph Eph]. exists ph, (rw_data_file f).
  rewrite (uo_tag _ _ _ _ Hup _ _ E), layer_upper by done. split_and!; [done|done|].
  pose proof (uo_place _ _ _ _ Hup _ _ _ E Eph) as Hpl.
  destruct (file_type f); try done; simpl in Hpl; unfold ALIGNMENT in *; lia.
Qed.

Lemma disk_stored `{UuidOps} f : live f → stored (layers f) (combo_view (index f)).
Proof.
  intros Hf x l E Hz. unfold combo_view in E. destruct (view (upper (index f)) x) as [u|] eqn:Eu; simpl in E.
  - injection E as ->. by apply (upper_stored f Hf x).
  - destruct (lower (index f)) as [lo|] eqn:El; [|done].
    destruct (wf_lowers f (lv_wf f Hf) lo El) as [_ Hlo]. destruct (Hlo x l E) as [Ht Hd].
    destruct (Hd Hz) as (ph & layer & Eph & Ely & Hsz). exists ph, layer. rewrite layer_lower by done. done.
Qed.

Section Claims.
Context `{UuidSpec} {W : Type} `{CompactWriterSpec W}.
Context (sched : list CompactChunk → list CompactChunk).

(** A writer with nothing written yet and a usable buffer. *)
Definition fresh_writer (w : W) : Prop :=
  cw_holds w [] ∧ ALIGNMENT ≤ cw_buffer_size w ∧ cw_buffer_size w mod ALIGNMENT = 0.

(** Compaction copies what the mappings say into one sealed layer: the
    destination opens as a layer of the given size that stores exactly the
    sectors the mappings cover, with the bytes of the source layers, for every
    writer, buffer size, concurrency and completion order of the copies. *)
Theorem compaction_keeps_content lrs ms vsize (args : CommitArgs W) : (∀ cs, sched cs ≡ₚ cs) →
  wf_index ms → Forall small ms → Forall (readable lrs) ms → 0 ≤ vsize < 2 ^ 64 →
  fresh_writer (ca_writer args) →
  ∃ w F ci, compact_to sched lrs ms vsize args = Ok w
    ∧ cw_done w F ∧ layer_ok (mkLayer F vsize ci)
    ∧ ∀ p, 0 ≤ p → layer_byte F ci p
                   = (λ l, loc_byte lrs (Some l) p) <$> view ms (p / ALIGNMENT).
Proof.
  intros Hs Hw Hsm Hr Hv (Hc & Hb1 & Hb2).
  destruct (compact_to_ok sched Hs lrs ms vsize args) as (w & F & ci & E & Hd & _ & Hl & Hby); try done.
  by exists w, F, ci.
Qed.

(** C10: [merge_files_ro] turns a stack of sealed layers into one sealed layer
    of the size of the stack in which every byte is what the newest layer that
    stores it says, and nothing is stored where no layer stores anything. *)
Theorem merge_keeps_stack ls (args : CommitArgs W) : (∀ cs, sched cs ≡ₚ cs) →
  ls ≠ [] → zlen ls ≤ MAX_STACK_LAYERS → Forall layer_ok ls → disk_sectors (stack_size ls) < 2 ^ 32 →
  fresh_writer (ca_writer args) →
  ∃ w F ci, merge_files_ro sched (ly_file <$> ls) args = Ok w
    ∧ cw_done w F ∧ layer_ok (mkLayer F (stack_size ls) ci)
    ∧ ∀ p, 0 ≤ p < stack_size ls → layer_byte F ci p = stack_byte (rev ls) p.
Proof.
  intros Hs Hne Hlen Hls Hn (Hc & Hb1 & Hb2). destruct (open_files_ok ls Hne Hlen Hls) as (ids & E & _).
  unfold merge_files_ro. assert (is_nil (ly_file <$> ls) = false) as -> by (by destruct ls).
  cbn [negb ensure rbind]. rewrite E. cbn [rbind ro_layers ro_virtual_size].
  unfold ro_mappings_of. cbn [ro_index ro_virtual_size].
  pose proof (stack_size_nonneg ls) as H0'. destruct (whole_disk_query _ H0' Hn) as [-> Hq].
  destruct (merged_spec ls Hls Hlen) as [Hw _]. pose proof (merged_short ls Hls) as Hsh.
  destruct (ro_lookup_tiles (merged_index ls) _ [] Hw Hq) as (out & El & Htl).
  change (li_lookup (mkReadOnly (merged_index ls))) with (ro_lookup (merged_index ls)). rewrite El. cbn [app fst].
  cbn [seg_offset seg_length] in Htl. rewrite Z.add_0_l in Htl.
  assert (Forall small out) as Hsm.
  { eapply short_small; [exact Hn|by intros m Hm; apply Htl|]. apply Forall_forall. intros m Hm.
    assert (m ∈ [] ∨ ∃ b, b ∈ merged_index ls ∧ within m b) as [?%not_elem_of_nil|(b & Hb & Hin)];
      [eapply ro_lookup_within; [done|done|by rewrite El]|done|].
    rewrite Forall_forall in Hsh. by eapply short_within, Hsh. }
  destruct (compact_to_ok sched Hs (ly_file <$> rev ls) out (stack_size ls) args)
    as (w & F & ci & Ec & Hdn & _ & Hl & Hby); try done; [apply Htl| | |].
  - eapply tiles_readable; [|exact Htl]. intros x l Ex Hz.
    by apply (proj2 (merged_lower_ok ls Hls Hlen _ eq_refl) x l Ex).
  - unfold disk_sectors in Hn. pose proof (div_ceil_bounds (stack_size ls) ALIGNMENT ltac:(done)).
    unfold ALIGNMENT in *. lia.
  - exists w, F, ci. split_and!; [done|done|done|]. intros p Hp. rewrite Hby by lia.
    destruct Htl as (_ & _ & Hv). rewrite Hv by (apply sector_in_disk; lia).
    destruct (merged_byte ls Hls Hlen p) as [[E1 E2]|(l0 & E1 & _ & E2 & _)]; by rewrite E1, E2.
Qed.

(** C9: Flattening a writable layer over its lower layers yields one sealed
    layer of the same size whose bytes, with zeros where nothing is stored, are
    those of the disk. *)
Theorem flatten_keeps_disk f (args : CommitArgs W) : (∀ cs, sched cs ≡ₚ cs) → live f →
  disk_sectors (virtual_size_of f) < 2 ^ 32 →
  (∀ lo, lower (index f) = Some lo → Forall short lo) → fresh_writer (ca_writer args) →
  ∃ w F ci, flatten_with_args sched f args = Ok w
    ∧ cw_done w F ∧ layer_ok (mkLayer F (virtual_size_of f) ci)
    ∧ ∀ p, 0 ≤ p < virtual_size_of f → default 0 (layer_byte F ci p) = disk f p.
Proof.
  intros Hs Hf Hn Hlo (Hc & Hb1 & Hb2). pose proof (lv_wf f Hf) as Hwf. pose proof (wf_vsize f Hwf) as Hv.
  destruct (whole_disk_query _ (proj1 Hv) Hn) as [Eq Hq]. pose proof (wf_file_combo f Hwf) as Hcw.
  unfold flatten_with_args. rewrite Eq.
  destruct (combo_lookup_tiles (index f) _ [] Hcw Hq) as (out & El & Htl).
  change (li_lookup (index f)) with (combo_lookup (index f)). rewrite El. cbn [app fst].
  cbn [seg_offset seg_length] in Htl. rewrite Z.add_0_l in Htl.
  assert (Forall small out) as Hsm.
  { eapply short_small; [exact Hn|by intros m Hm; apply Htl|]. apply Forall_forall. intros m Hm.
    destruct (combo_lookup_within (index f) (mkSeg 0 (disk_sectors (virtual_size_of f))) m)
      as [(b & Hb & Hin)|(lo & b & Elo & Hb & Hin)]; [done|done|by rewrite El| |].
    - pose proof (lv_small f Hf) as Hup. rewrite Forall_forall in Hup. by eapply short_within, Hup.
    - specialize (Hlo lo Elo). rewrite Forall_forall in Hlo. by eapply short_within, Hlo. }
  destruct (compact_to_ok sched Hs (layers f) out (virtual_size_of f) args)
    as (w & F & ci & Ec & Hdn & _ & Hl & Hby); try done; [apply Htl|eapply tiles_readable; [by apply disk_stored|done]|lia|].
  exists w, F, ci. split_and!; [done|done|done|]. intros p Hp. rewrite Hby by lia.
  destruct Htl as (_ & _ & Htv). rewrite Htv by (apply sector_in_disk; lia).
  unfold disk, disk_byte. by destruct (combo_view (index f) (p / ALIGNMENT)).
Qed.

(** Exporting the upper layer leaves the writable layer as it was, apart
    from the flushed index log, and yields a sealed layer that stores exactly
    what the upper layer stores. *)
Theorem export_keeps_upper f (args : CommitArgs W) : (∀ cs, sched cs ≡ₚ cs) → live f →
  fresh_writer (ca_writer args) →
  ∃ f' w F ci, export_upper_as_sealed sched args f = (f', Ok w)
    ∧ group_commit_buf f' = [] ∧ index f' = index f ∧ rw_data_file f' = rw_data_file f
    ∧ sealed f' = sealed f
    ∧ cw_done w F ∧ layer_ok (mkLayer F (virtual_size_of f) ci)
    ∧ ∀ p, 0 ≤ p → layer_byte F ci p = upper_byte f p.
Proof.
  intros Hs Hf (Hc & Hb1 & Hb2). pose proof (lv_wf f Hf) as Hwf. unfold export_upper_as_sealed.
  destruct (flush_group_commit_ok f _ _ _ (lv_log f Hf) (lv_end f Hf)) as (a & E & _ & _).
  rewrite set_log_id in E. erewrite bind_ok by exact E. rewrite bind_get. set (g := set_log f a [] _).
  set (args' := mkArgs _ _ _ _ _). pose proof (wf_upper f Hwf) as Hup. pose proof (uo_wf _ _ _ _ Hup) as Hw.
  destruct (compact_to_ok sched Hs (layers f) (upper (index f)) (virtual_size_of f) args')
    as (w & F & ci & Ec & Hdn & _ & Hl & Hby); try done.
  - apply (lv_small f Hf).
  - apply view_readable; [done|]. by apply upper_stored.
  - pose proof (wf_vsize f Hwf). lia.
  - exists g, w, F, ci. split_and!; try done.
    + unfold lift. f_equal. exact Ec.
    + intros p Hp. rewrite Hby by done. unfold upper_byte, layer_byte.
      destruct (view (upper (index f)) (p / ALIGNMENT)) as [l|] eqn:El; [|done]. simpl. f_equal.
      unfold loc_byte, up_byte. rewrite (uo_tag _ _ _ _ Hup _ _ El), layer_upper by apply (wf_rw_tag f Hwf).
      done.
Qed.
End Claims.

(** ** Examples *)
#[local] Existing Instance one_uuid.
#[local] Existing Instance one_uuid_spec.

(** Concurrent copies that complete in reverse order. *)
Definition ex_args : CommitArgs VirtualFileWriter := mkArgs (mkVFW [] 1024) None None None 4.

Definition ex_sched : list CompactChunk → list CompactChunk := @rev CompactChunk.

Lemma ex_sched_perm cs : ex_sched cs ≡ₚ cs.
Proof. symmetry. apply Permutation_rev. Qed.

Lemma ex_args_fresh : fresh_writer (ca_writer ex_args).
Proof. by split_and!. Qed.

Definition ex_source : list Z := zeros 4096 ++ replicate 1024 7 ++ replicate 1024 9.
Definition ex_mappings : list SegmentMapping :=
  [sm_new 0 2 10 false 0; sm_new 2 1 NO_PHYSICAL_OFFSET true 0; sm_new 5 2 8 false 0].

Lemma ex_mappings_ok : wf_index ex_mappings ∧ Forall small ex_mappings
  ∧ Forall (readable [ex_source]) ex_mappings.
Proof.
  split_and!.
  - apply wf_index_b_true. by vm_compute.
  - repeat constructor; by vm_compute.
  - assert (∀ m, m ∈ ex_mappings → zeroed m = true ∨ (has_physical_range m && (tag m =? 0)
      && ((moffset m + sm_length m) * ALIGNMENT <=? zlen ex_source) = true)) as Hm.
    { intros m Hm. unfold ex_mappings in Hm. repeat (apply elem_of_cons in Hm as [->|Hm]; [by vm_compute; auto|]).
      by apply not_elem_of_nil in Hm. }
    apply Forall_forall. intros m [Hz|Hb]%Hm Hz'; [congruence|].
    apply andb_true_iff in Hb as [[Hp Ht%Z.eqb_eq]%andb_true_iff Hl%Z.leb_le].
    split; [done|]. exists ex_source. by rewrite Ht.
Qed.

Lemma compaction_keeps_content_witness :
  ∃ w F ci, compact_to ex_sched [ex_source] ex_mappings 8192 ex_args = Ok w
    ∧ cw_done w F ∧ layer_ok (mkLayer F 8192 ci)
    ∧ layer_byte F ci 10 = Some 9 ∧ layer_byte F ci 2000 = None.
Proof.
  destruct ex_mappings_ok as (Hw & Hs & Hr).
  destruct (compaction_keeps_content ex_sched [ex_source] ex_mappings 8192 ex_args)
    as (w & F & ci & E & Hd0 & Hl & Hb); [exact ex_sched_perm|done|done|done|lia|exact ex_args_fresh|].
  exists w, F, ci. split; [exact E|]. split; [exact Hd0|]. split; [exact Hl|]. split; rewrite Hb by lia; by vm_compute.
Defined.

Lemma ex_layer_facts : disk_sectors (stack_size [ex_layer]) < 2 ^ 32 ∧ 0 ≤ 600 < stack_size [ex_layer]
  ∧ stack_byte (rev [ex_layer]) 600 = Some 5.
Proof. by vm_compute. Qed.

Lemma merge_keeps_stack_witness :
  ∃ w F ci, merge_files_ro ex_sched (ly_file <$> [ex_layer]) ex_args = Ok w
    ∧ cw_done w F ∧ layer_byte F ci 600 = Some 5.
Proof.
  destruct ex_layer_facts as (Hn & Hp & Hb0).
  destruct (merge_keeps_stack ex_sched [ex_layer] ex_args) as (w & F & ci & E & Hd0 & Hl & Hb);
    [exact ex_sched_perm|discriminate|by vm_compute|exact ex_layers_ok|exact Hn|exact ex_args_fresh|].
  exists w, F, ci. split; [exact E|]. split; [exact Hd0|]. rewrite (Hb 600 Hp). exact Hb0.
Defined.

Lemma ex_written_disk : disk ex_written 600 = 5 ∧ upper_byte ex_written 600 = Some 5
  ∧ lower (index ex_written) = None.
Proof. by vm_compute. Qed.

Lemma flatten_keeps_disk_witness :
  ∃ w F ci, flatten_with_args ex_sched ex_written ex_args = Ok w
    ∧ cw_done w F ∧ default 0 (layer_byte F ci 600) = 5.
Proof.
  destruct ex_written_facts as (_ & Hv & _). destruct ex_written_disk as (Hd & _ & Hlo).
  destruct (flatten_keeps_disk ex_sched ex_written ex_args) as (w & F & ci & E & Hd0 & Hl & Hb);
    [exact ex_sched_perm|exact ex_written_live|by rewrite Hv|by rewrite Hlo|exact ex_args_fresh|].
  exists w, F, ci. split; [exact E|]. split; [exact Hd0|]. rewrite Hb, Hd; [reflexivity|]. rewrite Hv. lia.
Defined.

Lemma export_keeps_upper_witness :
  ∃ f w F ci, export_upper_as_sealed ex_sched ex_args ex_written = (f, Ok w)
    ∧ cw_done w F ∧ layer_byte F ci 600 = Some 5.
Proof.
  destruct ex_written_disk as (_ & Hd & _).
  destruct (export_keeps_upper ex_sched ex_written ex_args) as (f & w & F & ci & E & _ & _ & _ & _ & Hd0 & _ & Hb);
    [exact ex_sched_perm|exact ex_written_live|exact ex_args_fresh|].
  exists f, w, F, ci. split; [exact E|]. split; [exact Hd0|]. rewrite Hb by lia. exact Hd.
Defined.
