(* ===== verification/LsmtPremerged.v ===== *)
(** * The cache of pre-merged indexes

    Models the artifact format and the cache policy of
    [lsmt/file/helper.rs] and [open_files_ro_with_premerged_cache] of
    [lsmt/file/stack.rs].  The cache directory maps the hexadecimal digest in
    the file name to the bytes of the artifact and its modification time.
    SHA-256 is the argument [sha256].  The cached open reads the directory
    twice, before and after it takes the lock of its digest: the two reads see
    two states of the directory, between which other writers may have run. *)

From stdpp Require Import gmap.
From S2P Require Import Prelude LsmtSegment LsmtFormat LsmtIndex LsmtLookup LsmtIo LsmtHelper.
From S2P Require Import LsmtFile LsmtRead LsmtStack LsmtSeal LsmtCommit LsmtExport LsmtOpen LsmtWrite.

(** ** Artifacts *)

Inductive premerged_error : Type :=
| Truncated | MagicMismatch | HeaderLenMismatch | FormatVersionMismatch | MergeVersionMismatch
| LayerCountMismatch | KeyDigestMismatch | BodyOverflow | BodyLenMismatch | FileLenMismatch
| ChecksumMismatch | InvalidMapping | EmptyMapping | NoPhysicalOffset | TagOutOfRange | NotSorted.

Definition PREMERGED_INDEX_MAGIC : list Z := [80; 77; 73; 68; 88; 48; 48; 49].
Definition PREMERGED_INDEX_FORMAT_VERSION : Z := 1.
Definition PREMERGED_INDEX_MERGE_VERSION : Z := 1.
Definition PREMERGED_INDEX_HEADER_LEN : Z := 8 + 4 + 4 + 4 + 4 + 8 + 8 + 32 + 32.

(** [b"overlaybd-premerged-index-key-v1"] *)
Definition KEY_PREFIX : list Z :=
  [111; 118; 101; 114; 108; 97; 121; 98; 100; 45; 112; 114; 101; 109; 101; 114; 103; 101; 100; 45;
   105; 110; 100; 101; 120; 45; 107; 101; 121; 45; 118; 49].

Record PremergedIndexCacheKey : Type := mkKey {
  key_digest : list Z;
  key_digest_hex : list Z;
  key_layer_count : Z
}.

Record PremergedIndexArtifactHeader : Type := mkArtHeader {
  ah_format_version : Z;
  ah_merge_version : Z;
  ah_layer_count : Z;
  ah_mapping_count : Z;
  ah_body_len : Z;
  ah_key_digest : list Z;
  ah_body_checksum : list Z
}.

Definition append_u32 (dst : list Z) (v : Z) : list Z := dst ++ le_bytes 4 v.
Definition append_u64 (dst : list Z) (v : Z) : list Z := dst ++ le_bytes 8 v.

Definition copy_array (n : Z) (src : list Z) (offset : Z) : result premerged_error (list Z) :=
  let? _ := ensure (offset + n <=? zlen src) Truncated in Ok (slice offset n src).
Definition read_u32 (src : list Z) (offset : Z) : result premerged_error Z :=
  let? b := copy_array 4 src offset in Ok (le_val b).
Definition read_u64 (src : list Z) (offset : Z) : result premerged_error Z :=
  let? b := copy_array 8 src offset in Ok (le_val b).

(** The cache directory. *)
Record artifact : Type := mkArt { art_bytes : list Z; art_modified : Z }.
Abbreviation cache := (gmap (list Z) artifact).

Section Artifact.
Context `{UuidOps} (sha256 : list Z → list Z).

Definition layer_key (key : list Z) (layer : ReadOnlyLayerMetadata) : list Z :=
  let key := key ++ uuid_bytes (lm_uuid layer) in
  let key := append_u64 key (lm_file_size layer) in
  let key := append_u64 key (lm_virtual_size layer) in
  let key := append_u64 key (lm_index_offset layer) in
  let key := append_u64 key (lm_index_size layer) in
  key ++ [lm_header_version layer; lm_header_sub_version layer;
          lm_trailer_version layer; lm_trailer_sub_version layer].

(** [PremergedIndexCacheKey::from_metadata]; layers come bottom to top. *)
Definition from_metadata (metadata : list ReadOnlyLayerMetadata) : option PremergedIndexCacheKey :=
  if is_nil metadata || existsb (λ m, uuid_is_nil (lm_uuid m)) metadata then None
  else
    let key := append_u32 KEY_PREFIX PREMERGED_INDEX_FORMAT_VERSION in
    let key := append_u32 key PREMERGED_INDEX_MERGE_VERSION in
    let key := append_u32 key (wrap32 (zlen metadata)) in
    let key := fold_left layer_key (rev metadata) key in
    let digest := sha256 key in
    Some (mkKey digest (hex_lower digest) (zlen metadata)).

Definition build_premerged_artifact_header (key : PremergedIndexCacheKey)
  (mapping_count body_len : Z) (body_checksum : list Z) : list Z :=
  let header := PREMERGED_INDEX_MAGIC in
  let header := append_u32 header PREMERGED_INDEX_FORMAT_VERSION in
  let header := append_u32 header PREMERGED_INDEX_MERGE_VERSION in
  let header := append_u32 header PREMERGED_INDEX_HEADER_LEN in
  let header := append_u32 header (wrap32 (key_layer_count key)) in
  let header := append_u64 header mapping_count in
  let header := append_u64 header body_len in
  let header := header ++ key_digest key in
  header ++ body_checksum.

Definition parse_premerged_artifact_header (bytes : list Z)
  : result premerged_error PremergedIndexArtifactHeader :=
  let? _ := ensure (PREMERGED_INDEX_HEADER_LEN <=? zlen bytes) Truncated in
  let? _ := ensure (bool_decide (ztake 8 bytes = PREMERGED_INDEX_MAGIC)) MagicMismatch in
  let? format_version := read_u32 bytes 8 in
  let? merge_version := read_u32 bytes 12 in
  let? header_len := read_u32 bytes 16 in
  let? _ := ensure (header_len =? PREMERGED_INDEX_HEADER_LEN) HeaderLenMismatch in
  let? layer_count := read_u32 bytes 20 in
  let? mapping_count := read_u64 bytes 24 in
  let? body_len := read_u64 bytes 32 in
  let? digest := copy_array 32 bytes 40 in
  let? checksum := copy_array 32 bytes 72 in
  Ok (mkArtHeader format_version merge_version layer_count mapping_count body_len digest checksum).

Definition serialize_premerged_mappings (ms : list SegmentMapping) : list Z :=
  mjoin ((λ m, disk_bytes (from_memory m)) <$> ms).

(** [for chunk in body.chunks_exact(stride)] *)
Fixpoint deserialize_loop (count : nat) (body : list Z) (layer_count : Z) (previous_end : option Z)
  : result premerged_error (list SegmentMapping) :=
  match count with
  | O => Ok []
  | S count' =>
      match disk_from_bytes (ztake MAPPING_SIZE body) with
      | None => Err InvalidMapping
      | Some disk =>
          let m := to_memory disk in
          let? _ := ensure (0 <? sm_length m) EmptyMapping in
          let? _ := ensure (zeroed m || has_physical_range m) NoPhysicalOffset in
          let? _ := ensure (tag m <? layer_count) TagOutOfRange in
          let? _ := ensure (match previous_end with Some e => e <=? sm_offset m | None => true end)
                      NotSorted in
          let? ms := deserialize_loop count' (zdrop MAPPING_SIZE body) layer_count (Some (sm_end m)) in
          Ok (m :: ms)
      end
  end.

Definition deserialize_premerged_mappings (body : list Z) (mapping_count layer_count : Z)
  : result premerged_error (list SegmentMapping) :=
  let expected := mapping_count * MAPPING_SIZE in
  let? _ := ensure (expected <=? U64_MAX) BodyOverflow in
  let? _ := ensure (zlen body =? expected) BodyLenMismatch in
  deserialize_loop (Z.to_nat mapping_count) body layer_count None.

Definition decode_premerged_index_artifact (bytes : list Z) (key : PremergedIndexCacheKey)
  : result premerged_error (list SegmentMapping) :=
  let? header := parse_premerged_artifact_header bytes in
  let? _ := ensure (ah_format_version header =? PREMERGED_INDEX_FORMAT_VERSION) FormatVersionMismatch in
  let? _ := ensure (ah_merge_version header =? PREMERGED_INDEX_MERGE_VERSION) MergeVersionMismatch in
  let? _ := ensure (ah_layer_count header =? key_layer_count key) LayerCountMismatch in
  let? _ := ensure (bool_decide (ah_key_digest header = key_digest key)) KeyDigestMismatch in
  let body_len := ah_body_len header in
  let mapping_count := ah_mapping_count header in
  let? _ := ensure (mapping_count * MAPPING_SIZE <=? U64_MAX) BodyOverflow in
  let? _ := ensure (body_len =? mapping_count * MAPPING_SIZE) BodyLenMismatch in
  let? _ := ensure (zlen bytes =? PREMERGED_INDEX_HEADER_LEN + body_len) FileLenMismatch in
  let body := zdrop PREMERGED_INDEX_HEADER_LEN bytes in
  let? _ := ensure (bool_decide (sha256 body = ah_body_checksum header)) ChecksumMismatch in
  let? ms := deserialize_premerged_mappings body mapping_count (key_layer_count key) in
  Ok (ro_new ms).

(** The artifact [write_premerged_index_artifact] stores. *)
Definition premerged_artifact (key : PremergedIndexCacheKey) (ms : list SegmentMapping) : list Z :=
  let body := serialize_premerged_mappings ms in
  build_premerged_artifact_header key (zlen ms) (zlen body) (sha256 body) ++ body.

(** ** The cache directory *)

(** Atomic: a temporary file renamed over the artifact. *)
Definition write_premerged_index_artifact (D : cache) (key : PremergedIndexCacheKey)
  (ms : list SegmentMapping) (now : Z) : cache :=
  <[key_digest_hex key := mkArt (premerged_artifact key ms) now]> D.

Definition try_read_premerged_index_artifact (D : cache) (key : PremergedIndexCacheKey)
  : option (list SegmentMapping) :=
  match D !! key_digest_hex key with
  | None => None
  | Some a =>
      match decode_premerged_index_artifact (art_bytes a) key with
      | Ok ms => Some ms
      | Err _ => None
      end
  end.

Record PremergedIndexCachePolicy : Type := mkPolicy {
  pol_read : bool;
  pol_write : bool;
  pol_max_dir_bytes : Z
}.

(** [open_files_ro_with_premerged_cache]: the file opened and the artifact
    write it leaves behind.  [D1] and [D2] are the directory at the two reads. *)
Definition open_files_ro_with_premerged_cache (files : list (list Z)) (no_dir : bool)
  (policy : PremergedIndexCachePolicy) (D1 D2 : cache)
  : result lsmt_error (LSMTReadOnlyFile * option (PremergedIndexCacheKey * list SegmentMapping)) :=
  let plain := let? r := open_files_ro files in Ok (r, None) in
  let? _ := validate_open_files_ro_inputs files in
  if negb (pol_read policy) && negb (pol_write policy) then plain
  else if no_dir then plain
  else
    let? metadata := load_readonly_layers_metadata files in
    let build merged w := let? r := build_readonly_stack_from_merged files metadata merged in Ok (r, w) in
    match from_metadata metadata with
    | None =>
        let? merged := merge_readonly_indexes files metadata in
        build merged None
    | Some key =>
        match (if pol_read policy then try_read_premerged_index_artifact D1 key else None) with
        | Some merged => build merged None
        | None =>
            match (if pol_read policy then try_read_premerged_index_artifact D2 key else None) with
            | Some merged => build merged None
            | None =>
                let? merged := merge_readonly_indexes files metadata in
                build merged (if pol_write policy then Some (key, merged) else None)
            end
        end
    end.
End Artifact.

(** ** The artifact codec *)

(** Walking to a field of a concatenation. *)
Lemma copy_array_skip n (l1 l2 : list Z) off : zlen l1 ≤ off →
  copy_array n (l1 ++ l2) off = copy_array n l2 (off - zlen l1).
Proof.
  intros Ho. unfold copy_array. rewrite slice_app_skip by done. rewrite zlen_app.
  do 2 f_equal. destruct (Z.leb_spec (off + n) (zlen l1 + zlen l2)), (Z.leb_spec (off - zlen l1 + n) (zlen l2)); done || lia.
Qed.

Lemma copy_array_here n (l1 l2 : list Z) : zlen l1 = n → copy_array n (l1 ++ l2) 0 = Ok l1.
Proof.
  intros Hn. unfold copy_array. rewrite slice_app_here, zlen_app by done. pose proof (zlen_nonneg l2).
  by rewrite (proj2 (Z.leb_le _ _)) by lia.
Qed.

Ltac art_len := rewrite ?zlen_le_bytes; change (zlen PREMERGED_INDEX_MAGIC) with 8; lia.
Ltac art_field :=
  repeat (rewrite copy_array_skip by art_len);
  match goal with
  | |- context [copy_array ?n (?l ++ ?r) ?o] =>
      replace o with 0 by art_len; rewrite (copy_array_here n l r) by art_len
  end; cbn [rbind].

Section Codec.
Context `{UuidOps} (sha256 : list Z → list Z) (Hsha : ∀ b, zlen (sha256 b) = 32).

Definition key_ok (key : PremergedIndexCacheKey) : Prop :=
  zlen (key_digest key) = 32 ∧ 0 ≤ key_layer_count key < 2 ^ 8.

Lemma header_layout key n bl cs body :
  build_premerged_artifact_header key n bl cs ++ body
  = PREMERGED_INDEX_MAGIC ++ le_bytes 4 PREMERGED_INDEX_FORMAT_VERSION
    ++ le_bytes 4 PREMERGED_INDEX_MERGE_VERSION ++ le_bytes 4 PREMERGED_INDEX_HEADER_LEN
    ++ le_bytes 4 (wrap32 (key_layer_count key)) ++ le_bytes 8 n ++ le_bytes 8 bl
    ++ key_digest key ++ cs ++ body.
Proof. unfold build_premerged_artifact_header, append_u32, append_u64. by rewrite <- !app_assoc. Qed.

Lemma header_parses key n bl cs body : key_ok key → 0 ≤ n < 2 ^ 64 → 0 ≤ bl < 2 ^ 64 → zlen cs = 32 →
  parse_premerged_artifact_header (build_premerged_artifact_header key n bl cs ++ body)
  = Ok (mkArtHeader PREMERGED_INDEX_FORMAT_VERSION PREMERGED_INDEX_MERGE_VERSION (key_layer_count key)
          n bl (key_digest key) cs)
  ∧ zlen (build_premerged_artifact_header key n bl cs) = PREMERGED_INDEX_HEADER_LEN.
Proof.
  intros [Hd Hc] Hn Hbl Hcs.
  assert (zlen (build_premerged_artifact_header key n bl cs) = PREMERGED_INDEX_HEADER_LEN) as Hlen.
  { pose proof (header_layout key n bl cs []) as E. rewrite app_nil_r in E. rewrite E.
    rewrite !zlen_app, !zlen_le_bytes, Hd, Hcs. done. }
  split; [|done]. unfold parse_premerged_artifact_header.
  assert (zlen (build_premerged_artifact_header key n bl cs ++ body) = 104 + zlen body) as Hz.
  { by rewrite zlen_app, Hlen. }
  pose proof (zlen_nonneg body). rewrite Hz, (proj2 (Z.leb_le _ _)) by (unfold PREMERGED_INDEX_HEADER_LEN; lia).
  cbn [ensure rbind]. rewrite header_layout in *.
  rewrite bool_decide_true by done. cbn [ensure rbind]. unfold read_u32, read_u64.
  art_field. art_field. art_field. rewrite !(le_val_le_bytes 4) by done.
  rewrite Z.eqb_refl. cbn [ensure rbind]. art_field. art_field. art_field. art_field. art_field.
  rewrite wrap32_small by lia. rewrite !(le_val_le_bytes 8) by done.
  rewrite le_val_le_bytes; [done|]. change (2 ^ (8 * Z.of_nat 4)) with (2 ^ 32). lia.
Qed.

Lemma deserialize_ok lc ms : ∀ prev, wf_index ms → Forall (λ m, loadable m ∧ tag m < lc) ms →
  (∀ e m, prev = Some e → m ∈ ms → e ≤ sm_offset m) →
  deserialize_loop (length ms) (serialize_premerged_mappings ms) lc prev = Ok ms.
Proof.
  induction ms as [|m ms IH]; intros prev Hw Hl Hp; [done|].
  apply wf_index_cons in Hw as (Hm & Hb & Hw). apply Forall_cons in Hl as [[(Hfit & Hlen & Hz) Ht] Hl].
  cbn [length deserialize_loop].
  change (serialize_premerged_mappings (m :: ms))
    with (disk_bytes (from_memory m) ++ serialize_premerged_mappings ms).
  pose proof (mapping_bytes_roundtrip _ Hfit) as Hrt. pose proof (disk_bytes_length (from_memory m)) as Hdl.
  set (b := disk_bytes (from_memory m)) in *. unfold ztake, zdrop. unfold zlen in Hdl.
  rewrite take_app_length', drop_app_length' by lia. destruct (disk_from_bytes b) as [dm|]; [|done].
  change (Some (to_memory dm) = Some m) in Hrt. apply Some_inj in Hrt. rewrite Hrt.
  rewrite (proj2 (Z.ltb_lt _ _)) by lia. cbn [ensure rbind]. rewrite Hz. cbn [ensure rbind].
  rewrite (proj2 (Z.ltb_lt _ _)) by lia. cbn [ensure rbind].
  assert (match prev with Some e => e <=? sm_offset m | None => true end = true) as ->.
  { destruct prev as [e|]; [|done]. apply Z.leb_le. apply (Hp e m); [done|by left]. }
  cbn [ensure rbind]. rewrite IH; [done|done|done|]. intros e m' [= <-] Hm'. rewrite sm_end_wf by done.
  rewrite Forall_forall in Hb. by apply Hb.
Qed.

Lemma zlen_serialize ms : zlen (serialize_premerged_mappings ms) = zlen ms * MAPPING_SIZE.
Proof.
  unfold serialize_premerged_mappings. change (mjoin _) with (index_bytes ms). rewrite zlen_index_bytes. lia.
Qed.

(** What the cache stores is what it reads back. *)
Lemma artifact_decodes key ms : key_ok key → wf_index ms →
  Forall (λ m, loadable m ∧ tag m < key_layer_count key) ms → zlen ms * MAPPING_SIZE < 2 ^ 64 →
  decode_premerged_index_artifact sha256 (premerged_artifact sha256 key ms) key = Ok (ro_new ms).
Proof.
  intros Hk Hw Hl Hz. unfold decode_premerged_index_artifact, premerged_artifact.
  set (body := serialize_premerged_mappings ms). pose proof (zlen_nonneg ms).
  assert (zlen body = zlen ms * MAPPING_SIZE) as Hb by apply zlen_serialize. unfold MAPPING_SIZE in *.
  destruct (header_parses key (zlen ms) (zlen body) (sha256 body) body) as [E Hlen]; [done|lia|lia|done|].
  rewrite E. cbn [rbind ah_format_version ah_merge_version ah_layer_count ah_mapping_count ah_body_len
    ah_key_digest ah_body_checksum]. rewrite !Z.eqb_refl. cbn [ensure rbind].
  rewrite bool_decide_true by done. cbn [ensure rbind].
  rewrite (proj2 (Z.leb_le _ _)) by (unfold U64_MAX; lia). cbn [ensure rbind].
  rewrite Hb, Z.eqb_refl. cbn [ensure rbind]. rewrite zlen_app, <- Hb, Hlen, Z.eqb_refl. cbn [ensure rbind].
  assert (zdrop PREMERGED_INDEX_HEADER_LEN (build_premerged_artifact_header key (zlen ms) (zlen body) (sha256 body)
    ++ body) = body) as ->.
  { rewrite <- Hlen. unfold zdrop, zlen. by rewrite Nat2Z.id, drop_app_length. }
  rewrite bool_decide_true by done. cbn [ensure rbind]. unfold deserialize_premerged_mappings, MAPPING_SIZE.
  rewrite (proj2 (Z.leb_le _ _)) by (unfold U64_MAX; lia). cbn [ensure rbind].
  rewrite Hb, Z.eqb_refl. cbn [ensure rbind]. unfold zlen at 1. rewrite Nat2Z.id.
  unfold body. by rewrite deserialize_ok.
Qed.
End Codec.

(** Whatever bytes it is given, the decoder only lets through mappings that are
    sorted, disjoint, non-empty, backed and tagged with an existing layer. *)
Definition checked_from (prev : option Z) (lc : Z) (ms : list SegmentMapping) : Prop :=
  StronglySorted before ms
  ∧ Forall (λ m, 0 < sm_length m ≤ MAX_LENGTH ∧ 0 ≤ tag m < lc ∧ zeroed m || has_physical_range m = true
                 ∧ 0 ≤ sm_offset m ∧ default 0 prev ≤ sm_offset m) ms.

Lemma to_memory_fits d : disk_fits (to_memory d).
Proof.
  unfold disk_fits, to_memory, OFFSET_MASK, LENGTH_MASK, MOFFSET_MASK, sm_offset, sm_length. simpl.
  rewrite !land_mask by lia. pose proof (wrap8_range (Z.shiftr (data_high d) 56)).
  pose proof (Z.mod_pos_bound (Z.shiftr (data_low d) 50) (2 ^ 14) ltac:(lia)).
  rewrite wrap32_small by lia. split_and!; apply Z.mod_pos_bound || lia; lia.
Qed.

Lemma deserialize_checked lc n : ∀ body prev ms, deserialize_loop n body lc prev = Ok ms →
  (∀ e, prev = Some e → 0 ≤ e) → checked_from prev lc ms.
Proof.
  induction n as [|n IH]; intros body prev ms E Hp; cbn [deserialize_loop] in E.
  { injection E as <-. split; constructor. }
  destruct (disk_from_bytes _) as [d|]; [|done]. set (m := to_memory d) in *.
  pose proof (to_memory_fits d) as (Ho & Hl & _ & Ht). fold m in Ho, Hl, Ht.
  destruct (Z.ltb_spec 0 (sm_length m)); [|done]. cbn [ensure rbind] in E.
  destruct (zeroed m || has_physical_range m) eqn:Ez; [|done]. cbn [ensure rbind] in E.
  destruct (Z.ltb_spec (tag m) lc); [|done]. cbn [ensure rbind] in E.
  assert (default 0 prev ≤ sm_offset m) as Hprev.
  { destruct prev as [e|]; [|simpl; lia]. destruct (Z.leb_spec e (sm_offset m)); [done|done]. }
  destruct (match prev with Some e => e <=? sm_offset m | None => true end); [|done]. cbn [ensure rbind] in E.
  destruct (deserialize_loop n _ lc _) as [ms'|] eqn:E'; [|done]. cbn [rbind] in E. injection E as <-.
  assert (sm_end m = sm_offset m + sm_length m) as Ee.
  { unfold sm_end, seg_end. rewrite wrap64_small; [done|]. unfold sm_offset, sm_length in *. lia. }
  destruct (IH _ _ _ E') as [Hs Hf]; [intros e [= <-]; lia|]. rewrite Ee in Hf. simpl in Hf.
  split.
  - constructor; [done|]. eapply Forall_impl; [exact Hf|]. simpl. unfold before. intros m' Hm'. lia.
  - constructor; [rewrite MAX_LENGTH_val; split_and!; done || lia|]. eapply Forall_impl; [exact Hf|].
    simpl. intros m' (? & ? & ? & ? & ?). split_and!; done || lia.
Qed.

(** ** The cache does not change what is opened *)

Lemma merged_loadable `{UuidOps} ls : Forall layer_ok ls → zlen ls ≤ MAX_STACK_LAYERS →
  Forall (λ l, Forall small (ly_index l)) ls →
  wf_index (merged_index ls) ∧ Forall (λ m, loadable m ∧ tag m < zlen ls) (merged_index ls).
Proof.
  intros Hls Hlen Hsm. destruct (merged_lower_ok ls Hls Hlen _ eq_refl) as [Hw Hv]. split; [done|].
  pose proof (merged_bound small small_within ls Hls Hsm) as Hs.
  apply Forall_forall. intros m Hm. pose proof (elem_of_wf _ _ Hw Hm) as Hwm.
  pose proof (wf_phys m Hwm) as Hph. wf_facts.
  rewrite Forall_forall in Hs. destruct (Hs m Hm) as [Hl Ho]. rewrite MAX_LENGTH_val in Hl.
  assert (covers m (sm_offset m) = true) as Hc by (apply covers_iff; lia).
  destruct (Hv _ _ (view_elem _ _ _ Hw Hm Hc)) as [Ht Hd]. simpl in Ht. rewrite zlen_fmap, zlen_rev in Ht.
  assert (zeroed m || has_physical_range m = true) as Hb.
  { unfold loc_at in Hd. simpl in Hd. destruct (zeroed m); [done|]. destruct (Hd eq_refl) as (ph & _ & E & _).
    by destruct (has_physical_range m). }
  unfold loadable, disk_fits, NO_PHYSICAL_OFFSET in *. split_and!; done || lia.
Qed.

(** Blocks of one size can be told apart in their concatenation. *)
Lemma mjoin_inj {A} (n : nat) : (0 < n)%nat → ∀ l1 l2 : list (list A),
  Forall (λ b, length b = n) l1 → Forall (λ b, length b = n) l2 → mjoin l1 = mjoin l2 → l1 = l2.
Proof.
  intros Hn. induction l1 as [|b1 l1 IH]; intros [|b2 l2] H1 H2 E; [done|..].
  - apply Forall_cons in H2 as [Hb _]. destruct b2; [simpl in Hb; lia|done].
  - apply Forall_cons in H1 as [Hb _]. destruct b1; [simpl in Hb; lia|done].
  - apply Forall_cons in H1 as [Hb1 H1]. apply Forall_cons in H2 as [Hb2 H2]. simpl in E.
    apply app_inj_1 in E as [-> E]; [|congruence]. f_equal. by apply IH.
Qed.

Section Transparent.
Context `{UuidOps} (sha256 : list Z → list Z) (Hsha : ∀ b, zlen (sha256 b) = 32).
Context (Huuid : ∀ u, zlen (uuid_bytes u) = 16).

Definition layer_identity (m : ReadOnlyLayerMetadata) : list Z := layer_key [] m.

Lemma layer_key_app key m : layer_key key m = key ++ layer_identity m.
Proof. unfold layer_identity, layer_key, append_u64. by rewrite <- !app_assoc. Qed.

Lemma layer_identity_length m : length (layer_identity m) = 52%nat.
Proof.
  pose proof (Huuid (lm_uuid m)) as Hu. apply Nat2Z.inj. change (zlen (layer_identity m) = 52).
  unfold layer_identity, layer_key, append_u64. rewrite !zlen_app, !zlen_le_bytes, Hu. done.
Qed.

Definition key_head (n : Z) : list Z :=
  append_u32 (append_u32 (append_u32 KEY_PREFIX PREMERGED_INDEX_FORMAT_VERSION)
    PREMERGED_INDEX_MERGE_VERSION) (wrap32 n).
Definition key_bytes (mds : list ReadOnlyLayerMetadata) : list Z :=
  key_head (zlen mds) ++ mjoin (layer_identity <$> rev mds).

Lemma fold_layer_key mds : ∀ key, fold_left layer_key mds key = key ++ mjoin (layer_identity <$> mds).
Proof.
  induction mds as [|m mds IH]; intros key; simpl; [by rewrite app_nil_r|].
  by rewrite IH, layer_key_app, <- app_assoc.
Qed.

Lemma from_metadata_key mds key : from_metadata sha256 mds = Some key →
  key = mkKey (sha256 (key_bytes mds)) (hex_lower (sha256 (key_bytes mds))) (zlen mds).
Proof.
  unfold from_metadata. destruct (_ || _); [done|]. rewrite fold_layer_key. by intros [= <-].
Qed.

(** The bytes hashed determine the identity of every layer, in order. *)
Lemma key_bytes_inj mds1 mds2 : key_bytes mds1 = key_bytes mds2 →
  layer_identity <$> mds1 = layer_identity <$> mds2.
Proof.
  unfold key_bytes. intros E. apply app_inj_1 in E as [_ E]; [|by unfold key_head, append_u32; rewrite !length_app, !length_le_bytes].
  apply (mjoin_inj 52) in E; [|lia|..].
  - rewrite <- !rev_fmap in E. apply (f_equal (@rev _)) in E. by rewrite !rev_involutive in E.
  - apply Forall_fmap, Forall_forall. intros m _. apply layer_identity_length.
  - apply Forall_fmap, Forall_forall. intros m _. apply layer_identity_length.
Qed.

(** Reading an artifact back under any key: it is the merged index or nothing,
    and it is nothing when the digests differ. *)
Lemma artifact_decodes_other k1 k2 ms r : key_ok k1 → wf_index ms →
  Forall (λ m, loadable m ∧ tag m < key_layer_count k1) ms → zlen ms * MAPPING_SIZE < 2 ^ 64 →
  decode_premerged_index_artifact sha256 (premerged_artifact sha256 k1 ms) k2 = Ok r →
  key_digest k1 = key_digest k2 ∧ r = ro_new ms.
Proof.
  intros Hk Hw Hl Hz E. pose proof (artifact_decodes sha256 Hsha k1 ms Hk Hw Hl Hz) as E1.
  unfold decode_premerged_index_artifact, premerged_artifact in E, E1.
  set (body := serialize_premerged_mappings ms) in *. pose proof (zlen_nonneg ms).
  assert (zlen body = zlen ms * MAPPING_SIZE) as Hb by apply zlen_serialize. unfold MAPPING_SIZE in *.
  destruct (header_parses k1 (zlen ms) (zlen body) (sha256 body) body) as [Ep _]; [done|lia|lia|done|].
  rewrite Ep in E, E1. cbn [rbind ah_format_version ah_merge_version ah_layer_count ah_key_digest] in E.
  rewrite !Z.eqb_refl in E. cbn [ensure rbind] in E.
  destruct (Z.eqb_spec (key_layer_count k1) (key_layer_count k2)) as [Ec|]; [|done]. cbn [ensure rbind] in E.
  destruct (bool_decide (key_digest k1 = key_digest k2)) eqn:Ed; [|done].
  apply bool_decide_eq_true in Ed. split; [done|].
  cbn [rbind ah_format_version ah_merge_version ah_layer_count ah_key_digest] in E1.
  rewrite !Z.eqb_refl, Ec, Ed, bool_decide_true in E1 by done. cbn [ensure rbind] in E, E1.
  rewrite ?Ec, ?Ed in E. congruence.
Qed.

(** The stacks that are opened through the cache. *)
Record stack_ok (ls : list Layer) : Prop := {
  so_some : ls ≠ [];
  so_len : zlen ls ≤ MAX_STACK_LAYERS;
  so_layers : Forall layer_ok ls;
  so_small : Forall (λ l, Forall small (ly_index l)) ls;
  so_count : zlen (merged_index ls) * MAPPING_SIZE < 2 ^ 64
}.

Definition metadata_of (ls : list Layer) : list ReadOnlyLayerMetadata :=
  match load_readonly_layers_metadata (ly_file <$> ls) with Ok mds => mds | Err _ => [] end.
Definition identity_of (l : Layer) : list Z :=
  match load_readonly_layer_metadata (ly_file l) with Ok m => layer_identity m | Err _ => [] end.

Lemma metadata_identity ls : Forall layer_ok ls →
  load_readonly_layers_metadata (ly_file <$> ls) = Ok (metadata_of ls)
  ∧ length (metadata_of ls) = length ls
  ∧ layer_identity <$> metadata_of ls = identity_of <$> ls.
Proof.
  unfold metadata_of. intros Hls. destruct (load_layers_ok ls Hls) as (mds & E & El & _ & _). rewrite E.
  split; [done|split; [done|]]. clear El. revert mds E.
  induction ls as [|l ls IH]; intros mds E; [by injection E as <-|].
  apply Forall_cons in Hls as [Hl Hls]. destruct (load_metadata_ok l Hl) as (m & Em & _).
  rewrite fmap_cons in E. cbn [load_readonly_layers_metadata] in E. rewrite Em in E. cbn [rbind] in E.
  destruct (load_readonly_layers_metadata (ly_file <$> ls)) as [mds'|] eqn:E'; [|done]. cbn [rbind] in E.
  injection E as <-. rewrite !fmap_cons, (IH Hls mds' eq_refl). unfold identity_of at 2. by rewrite Em.
Qed.

(** ** Histories of the cache directory *)

(** [stacks]: the stacks opened so far.  Two things must hold of them: the
    digest tells their keys apart, and the identity of a layer determines its
    index, since layers never change once sealed. *)
Context (stacks : list Layer → Prop) (Hstacks : ∀ ls, stacks ls → stack_ok ls).
Context (Hdigest : ∀ ls1 ls2, stacks ls1 → stacks ls2 →
  sha256 (key_bytes (metadata_of ls1)) = sha256 (key_bytes (metadata_of ls2)) →
  key_bytes (metadata_of ls1) = key_bytes (metadata_of ls2)).
Context (Hidentity : ∀ ls1 ls2 l1 l2, stacks ls1 → stacks ls2 → l1 ∈ ls1 → l2 ∈ ls2 →
  identity_of l1 = identity_of l2 → ly_index l1 = ly_index l2).

(** What the bytes of a file show, without decoding it: the file is cut off or
    too long, a field of the header is not what the format fixes, the body is
    not the one the checksum was taken of, or the artifact belongs to another
    stack than the ones the path is for: its digest is not the one the path
    names, or it is for another number of layers. *)
Definition damaged (path bytes : list Z) : Prop :=
  zlen bytes < PREMERGED_INDEX_HEADER_LEN
  ∨ slice 0 8 bytes ≠ PREMERGED_INDEX_MAGIC
  ∨ le_val (slice 8 4 bytes) ≠ PREMERGED_INDEX_FORMAT_VERSION
  ∨ le_val (slice 12 4 bytes) ≠ PREMERGED_INDEX_MERGE_VERSION
  ∨ le_val (slice 16 4 bytes) ≠ PREMERGED_INDEX_HEADER_LEN
  ∨ le_val (slice 32 8 bytes) ≠ MAPPING_SIZE * le_val (slice 24 8 bytes)
  ∨ zlen bytes ≠ PREMERGED_INDEX_HEADER_LEN + le_val (slice 32 8 bytes)
  ∨ slice 72 32 bytes ≠ sha256 (zdrop PREMERGED_INDEX_HEADER_LEN bytes)
  ∨ hex_lower (slice 40 32 bytes) ≠ path
  ∨ (∀ ls, stacks ls → hex_lower (sha256 (key_bytes (metadata_of ls))) = path →
       le_val (slice 20 4 bytes) ≠ zlen ls).

(** The artifact of a stack that was opened, wherever it is found. *)
Definition authentic (bytes : list Z) : Prop := ∃ ls key, stacks ls
  ∧ from_metadata sha256 (metadata_of ls) = Some key
  ∧ bytes = premerged_artifact sha256 key (merged_index ls).

(** The directory starts out empty; an open leaves an artifact to be written
    at any later time; artifacts are removed by pruning; and any path can come
    to hold a damaged file or the artifact of any stack, which need not be one
    the path is for. *)
Inductive cache_reachable : cache → Prop :=
| cache_empty : cache_reachable ∅
| cache_written D D1 D2 ls no_dir policy r key ms now :
    cache_reachable D → cache_reachable D1 → cache_reachable D2 → stacks ls →
    open_files_ro_with_premerged_cache sha256 (ly_file <$> ls) no_dir policy D1 D2
    = Ok (r, Some (key, ms)) →
    cache_reachable (write_premerged_index_artifact sha256 D key ms now)
| cache_removed D path : cache_reachable D → cache_reachable (delete path D)
| cache_replaced D path a : cache_reachable D →
    damaged path (art_bytes a) ∨ authentic (art_bytes a) →
    cache_reachable (<[path := a]> D).

(** What a cached open may be told. *)
Definition cache_sound (D : cache) : Prop := ∀ ls key ms, stacks ls →
  from_metadata sha256 (metadata_of ls) = Some key →
  try_read_premerged_index_artifact sha256 D key = Some ms → ms = merged_index ls.

Lemma digest_merged ls1 ls2 : stacks ls1 → stacks ls2 →
  sha256 (key_bytes (metadata_of ls1)) = sha256 (key_bytes (metadata_of ls2)) →
  merged_index ls1 = merged_index ls2.
Proof.
  intros H1 H2 E. apply Hdigest, key_bytes_inj in E; [|done..].
  destruct (metadata_identity ls1) as (_ & _ & E1); [apply Hstacks, H1|].
  destruct (metadata_identity ls2) as (_ & _ & E2); [apply Hstacks, H2|]. rewrite E1, E2 in E.
  unfold merged_index. f_equal. rewrite <- !rev_fmap. f_equal.
  assert (∀ a b : list Layer, (∀ l1, l1 ∈ a → l1 ∈ ls1) → (∀ l2, l2 ∈ b → l2 ∈ ls2) → identity_of <$> a = identity_of <$> b →
    (λ l, ro_new (ly_index l)) <$> a = (λ l, ro_new (ly_index l)) <$> b) as Hgen; [|by apply Hgen].
  induction a as [|l1 a IH]; intros [|l2 b] Ha Hb Eab; try done. rewrite !fmap_cons in *.
  injection Eab as El Eab. rewrite (Hidentity ls1 ls2 l1 l2 H1 H2); [|apply Ha; by left|apply Hb; by left|done].
  f_equal. apply IH; [intros; apply Ha; by right|intros; apply Hb; by right|done].
Qed.

Lemma open_files_by_metadata ls : stack_ok ls → ∃ r,
  open_files_ro (ly_file <$> ls) = Ok r
  ∧ validate_open_files_ro_inputs (ly_file <$> ls) = Ok tt
  ∧ merge_readonly_indexes (ly_file <$> ls) (metadata_of ls) = Ok (merged_index ls)
  ∧ build_readonly_stack_from_merged (ly_file <$> ls) (metadata_of ls) (merged_index ls) = Ok r.
Proof.
  intros [Hne Hlen Hls _ _]. destruct (open_files_ok ls Hne Hlen Hls) as (ids & E & _).
  destruct (metadata_identity ls Hls) as (Em & El & _). destruct (load_layers_ok ls Hls) as (mds & Em' & _ & _ & Ei).
  rewrite Em in Em'. injection Em' as <-. eexists. split; [exact E|].
  assert (validate_open_files_ro_inputs (ly_file <$> ls) = Ok tt) as Hv.
  { unfold validate_open_files_ro_inputs. destruct ls; [done|]. cbn [is_nil fmap negb ensure rbind].
    by rewrite zlen_fmap, (proj2 (Z.leb_le _ _) Hlen). }
  assert (merge_readonly_indexes (ly_file <$> ls) (metadata_of ls) = Ok (merged_index ls)) as Hm.
  { unfold merge_readonly_indexes. rewrite zlen_fmap. unfold zlen. rewrite El, Z.eqb_refl. cbn [ensure rbind].
    rewrite Ei. cbn [rbind]. by rewrite rev_fmap. }
  split_and!; [done|done|]. unfold open_files_ro in E. rewrite Hv, Em in E. cbn [rbind] in E.
  rewrite Hm in E. exact E.
Qed.

(** One open through a sound cache. *)
Lemma cached_open_ok ls no_dir policy D1 D2 : stacks ls → cache_sound D1 → cache_sound D2 → ∃ r w,
  open_files_ro_with_premerged_cache sha256 (ly_file <$> ls) no_dir policy D1 D2 = Ok (r, w)
  ∧ open_files_ro (ly_file <$> ls) = Ok r
  ∧ ∀ key ms, w = Some (key, ms) → ms = merged_index ls
      ∧ from_metadata sha256 (metadata_of ls) = Some key.
Proof.
  intros Hs H1 H2. destruct (open_files_by_metadata ls (Hstacks ls Hs)) as (r & Er & Ev & Em & Eb).
  destruct (metadata_identity ls) as (El & _ & _); [apply Hstacks, Hs|].
  unfold open_files_ro_with_premerged_cache. rewrite Ev, Er. cbn [rbind].
  destruct (negb (pol_read policy) && _); [by exists r, None|]. destruct no_dir; [by exists r, None|].
  rewrite El. cbn [rbind]. destruct (from_metadata sha256 (metadata_of ls)) as [key|] eqn:Ek;
    [|rewrite Em; cbn [rbind]; rewrite Eb; cbn [rbind]; by exists r, None].
  assert (∀ D, cache_sound D → ∀ ms,
    (if pol_read policy then try_read_premerged_index_artifact sha256 D key else None) = Some ms →
    ms = merged_index ls) as Hread.
  { intros D HD ms E. destruct (pol_read policy); [|done]. by apply (HD ls key). }
  destruct (if pol_read policy then _ sha256 D1 key else None) as [ms|] eqn:E1.
  { rewrite (Hread D1 H1 ms E1), Eb. cbn [rbind]. by exists r, None. }
  destruct (if pol_read policy then _ sha256 D2 key else None) as [ms|] eqn:E2.
  { rewrite (Hread D2 H2 ms E2), Eb. cbn [rbind]. by exists r, None. }
  rewrite Em. cbn [rbind]. rewrite Eb. cbn [rbind]. eexists r, _. split_and!; [done|done|].
  intros key' ms'. destruct (pol_write policy); [|done]. by intros [= <- <-].
Qed.

(** The decoder lets no damaged file through. *)
Lemma decode_not_damaged bytes ls key ms : stacks ls → from_metadata sha256 (metadata_of ls) = Some key →
  decode_premerged_index_artifact sha256 bytes key = Ok ms → ¬ damaged (key_digest_hex key) bytes.
Proof.
  intros Hs ->%from_metadata_key. cbn [key_digest_hex].
  destruct (metadata_identity ls) as (_ & El & _); [apply Hstacks, Hs|].
  assert (zlen (metadata_of ls) = zlen ls) as Ez by (unfold zlen; lia).
  unfold decode_premerged_index_artifact, parse_premerged_artifact_header, read_u32, read_u64, copy_array.
  change PREMERGED_INDEX_HEADER_LEN with 104. destruct (Z.leb_spec 104 (zlen bytes)); [|done].
  cbn [ensure rbind]. destruct (bool_decide_reflect (ztake 8 bytes = PREMERGED_INDEX_MAGIC)) as [Hm|]; [|done].
  cbn [ensure rbind]. rewrite !(proj2 (Z.leb_le _ _)) by lia. cbn [ensure rbind].
  destruct (Z.eqb_spec (le_val (slice 16 4 bytes)) 104); [|done].
  cbn [ensure rbind ah_format_version ah_merge_version ah_layer_count ah_mapping_count ah_body_len
    ah_key_digest ah_body_checksum key_digest key_layer_count].
  destruct (Z.eqb_spec (le_val (slice 8 4 bytes)) PREMERGED_INDEX_FORMAT_VERSION); [|done].
  destruct (Z.eqb_spec (le_val (slice 12 4 bytes)) PREMERGED_INDEX_MERGE_VERSION); [|done].
  destruct (Z.eqb_spec (le_val (slice 20 4 bytes)) (zlen (metadata_of ls))) as [Hc|]; [|done].
  cbn [ensure rbind]. destruct (bool_decide_reflect (slice 40 32 bytes = sha256 (key_bytes (metadata_of ls)))) as [Hd|]; [|done].
  destruct (_ <=? U64_MAX); [|done]. cbn [ensure rbind].
  destruct (Z.eqb_spec (le_val (slice 32 8 bytes)) (le_val (slice 24 8 bytes) * MAPPING_SIZE)); [|done].
  cbn [ensure rbind]. destruct (Z.eqb_spec (zlen bytes) (104 + le_val (slice 32 8 bytes))); [|done].
  cbn [ensure rbind]. destruct (bool_decide_reflect (sha256 (zdrop 104 bytes) = slice 72 32 bytes)) as [Hk|]; [|done].
  intros _. unfold damaged. change PREMERGED_INDEX_HEADER_LEN with 104.
  intros [?|[?|[?|[?|[?|[?|[?|[?|[?|Hl]]]]]]]]]; try (done || lia || congruence).
  apply (Hl ls Hs eq_refl). congruence.
Qed.

Lemma stack_key_ok ls key : stacks ls → from_metadata sha256 (metadata_of ls) = Some key →
  key_ok key ∧ key_layer_count key = zlen ls.
Proof.
  intros Hs ->%from_metadata_key. destruct (Hstacks ls Hs) as [_ Hlen Hls _ _].
  destruct (metadata_identity ls Hls) as (_ & El & _). pose proof (zlen_nonneg ls).
  assert (zlen (metadata_of ls) = zlen ls) as Ez by (unfold zlen; lia).
  unfold key_ok, MAX_STACK_LAYERS in *. cbn [key_digest key_layer_count]. split_and!; done || lia.
Qed.

(** What is read of an artifact of an opened stack is right for the stack that
    asks. *)
Lemma authentic_read bytes ls key ms : authentic bytes → stacks ls →
  from_metadata sha256 (metadata_of ls) = Some key →
  decode_premerged_index_artifact sha256 bytes key = Ok ms → ms = merged_index ls.
Proof.
  intros (ls' & key' & Hs' & Ek' & ->) Hs Ek Ed. destruct (stack_key_ok ls' key' Hs' Ek') as [Hk Hn].
  destruct (Hstacks ls' Hs') as [_ Hlen Hls Hsm Hc]. destruct (merged_loadable ls' Hls Hlen Hsm) as [Hmw Hml].
  apply artifact_decodes_other in Ed as [Ed ->]; [|done|done|by rewrite Hn|done].
  rewrite (from_metadata_key _ _ Ek), (from_metadata_key _ _ Ek') in Ed. cbn [key_digest] in Ed.
  rewrite (digest_merged ls' ls Hs' Hs Ed). apply ro_new_idemp.
Qed.

(** Every file of the directory is damaged or the artifact of some stack. *)
Definition cache_ok (D : cache) : Prop :=
  map_Forall (λ path a, damaged path (art_bytes a) ∨ authentic (art_bytes a)) D.

Lemma cache_ok_sound D : cache_ok D → cache_sound D.
Proof.
  intros HD ls key ms Hs Ek. unfold try_read_premerged_index_artifact.
  destruct (D !! key_digest_hex key) as [a|] eqn:Ea; [|done].
  destruct (decode_premerged_index_artifact _ _ key) as [ms'|] eqn:Ed; [|done]. intros [= ->].
  destruct (HD _ _ Ea) as [Hd|Hg]; [by destruct (decode_not_damaged _ _ _ _ Hs Ek Ed)|].
  by apply (authentic_read _ _ _ _ Hg Hs Ek).
Qed.

Lemma reachable_ok D : cache_reachable D → cache_ok D.
Proof.
  induction 1 as [|D D1 D2 ls no_dir policy r key ms now _ IH _ IH1 _ IH2 Hs E|D path _ IH|D path a _ IH Ha].
  - apply map_Forall_empty.
  - destruct (cached_open_ok ls no_dir policy D1 D2 Hs) as (r' & w & E' & _ & Hw); [by apply cache_ok_sound..|].
    rewrite E in E'. injection E' as <- <-. destruct (Hw key ms eq_refl) as [-> Ek].
    apply map_Forall_insert_2; [|done]. right. by exists ls, key.
  - by apply map_Forall_delete.
  - by apply map_Forall_insert_2.
Qed.

(** The directory after one open and the write it leaves behind. *)
Definition cache_after (ls : list Layer) (policy : PremergedIndexCachePolicy) : cache :=
  match open_files_ro_with_premerged_cache sha256 (ly_file <$> ls) false policy ∅ ∅ with
  | Ok (_, Some (key, ms)) => write_premerged_index_artifact sha256 ∅ key ms 0
  | _ => ∅
  end.

Lemma cache_after_reachable ls policy : stacks ls → cache_reachable (cache_after ls policy).
Proof.
  intros Hs. unfold cache_after. destruct (open_files_ro_with_premerged_cache _ _ _ _ _ _) as [[r [[key ms]|]]|] eqn:E;
    try apply cache_empty. eapply cache_written; [apply cache_empty..|exact Hs|exact E].
Qed.

(** C32: the cache directory may have been through any writes and removals,
    and through any damage the bytes show (a cut file, a wrong header field, a
    body that is not the one of the checksum, a digest that is not the one of
    the path), and hold at any path the artifact of any stack.  Whatever the
    policy, opening a stack through the cache succeeds and gives the very file
    that opening it without a cache gives.  Supposed of the stacks in use:
    each can be opened and has an index the artifact format can hold, SHA-256
    tells their keys apart, and two layers with the same identity (UUID, sizes,
    index position and versions) have the same index. *)
Theorem premerged_cache_transparent ls no_dir policy D1 D2 : stacks ls →
  cache_reachable D1 → cache_reachable D2 → ∃ r w,
  open_files_ro_with_premerged_cache sha256 (ly_file <$> ls) no_dir policy D1 D2 = Ok (r, w)
  ∧ open_files_ro (ly_file <$> ls) = Ok r.
Proof.
  intros Hs H1%reachable_ok%cache_ok_sound H2%reachable_ok%cache_ok_sound.
  destruct (cached_open_ok ls no_dir policy D1 D2 Hs H1 H2) as (r & w & E & Er & _). by exists r, w.
Qed.
End Transparent.

(** *** A cache hit *)

#[local] Existing Instance one_uuid.

Definition ex_sha32 (bytes : list Z) : list Z := replicate 32 (zlen bytes mod 256).
Lemma ex_sha32_length b : zlen (ex_sha32 b) = 32.
Proof. done. Qed.
Lemma ex_uuid_length u : zlen (uuid_bytes u) = 16.
Proof. done. Qed.
Definition ex_stacks (ls : list Layer) : Prop := ls = [ex_layer].
Definition ex_policy : PremergedIndexCachePolicy := mkPolicy true true (64 * 1024 * 1024).

Lemma ex_small : forallb (λ m, (sm_length m <=? MAX_LENGTH) && (sm_offset m + sm_length m <? 2 ^ 50))
  (ly_index ex_layer) = true ∧ zlen (merged_index [ex_layer]) * MAPPING_SIZE < 2 ^ 64.
Proof. by vm_compute. Qed.

Lemma ex_stack_ok ls : ex_stacks ls → stack_ok ls.
Proof.
  intros ->. destruct ex_small as [Hs Hc]. split; [done|done|apply ex_layers_ok| |exact Hc].
  constructor; [|done]. apply Forall_forall. intros m Hm. rewrite forallb_forall in Hs.
  apply list_elem_of_In, Hs, andb_true_iff in Hm as [H1%Z.leb_le H2%Z.ltb_lt]. by split.
Qed.

Definition left_behind {A B} (r : result lsmt_error (A * option B)) : bool :=
  match r with Ok (_, Some _) => true | _ => false end.
Definition ex_hit_cache : cache := cache_after ex_sha32 [ex_layer] ex_policy.

(** The same directory after the artifact has been cut to its first bytes. *)
Definition ex_cut_cache : cache :=
  match from_metadata ex_sha32 (metadata_of [ex_layer]) with
  | Some key => <[key_digest_hex key := mkArt PREMERGED_INDEX_MAGIC 1]> ex_hit_cache
  | None => ∅
  end.

(** The first open of the example leaves an artifact to be written; the second
    finds it; a cut artifact is not used, and is found again once it has been
    rewritten. *)
Lemma ex_hit :
  let open := open_files_ro_with_premerged_cache ex_sha32 (ly_file <$> [ex_layer]) false ex_policy in
  left_behind (open ∅ ∅) = true ∧ left_behind (open ex_hit_cache ∅) = false
  ∧ left_behind (open ex_cut_cache ex_cut_cache) = true
  ∧ left_behind (open ex_cut_cache ex_hit_cache) = false.
Proof. by vm_compute. Qed.

Lemma one_stack {A} (l : A) ls1 ls2 : ls1 = [l] → ls2 = [l] → ls1 = ls2.
Proof. congruence. Qed.
Lemma one_layer {A} (l : A) ls1 ls2 l1 l2 : ls1 = [l] → ls2 = [l] → l1 ∈ ls1 → l2 ∈ ls2 → l1 = l2.
Proof. intros -> -> ->%list_elem_of_singleton ->%list_elem_of_singleton. done. Qed.

Lemma premerged_cache_transparent_witness : ∃ r w,
  open_files_ro_with_premerged_cache ex_sha32 (ly_file <$> [ex_layer]) false ex_policy ex_cut_cache ex_hit_cache = Ok (r, w)
  ∧ open_files_ro (ly_file <$> [ex_layer]) = Ok r ∧ w = None.
Proof.
  destruct (premerged_cache_transparent ex_sha32 ex_sha32_length ex_uuid_length ex_stacks ex_stack_ok)
    with (ls := [ex_layer]) (no_dir := false) (policy := ex_policy) (D1 := ex_cut_cache) (D2 := ex_hit_cache)
    as (r & w & E & Er).
  - intros ls1 ls2 E1 E2 _. by rewrite (one_stack _ _ _ E1 E2).
  - intros ls1 ls2 l1 l2 E1 E2 H1 H2 _. by rewrite (one_layer _ _ _ _ _ E1 E2 H1 H2).
  - reflexivity.
  - unfold ex_cut_cache. destruct (from_metadata _ _) as [key|]; [|apply cache_empty].
    apply cache_replaced; [apply cache_after_reachable; reflexivity|]. left. left. reflexivity.
  - apply cache_after_reachable. reflexivity.
  - exists r, w. split; [exact E|split; [exact Er|]]. destruct ex_hit as (_ & _ & _ & Hh). rewrite E in Hh. by destruct w.
Defined.

(** C40: whatever bytes an artifact holds, the mappings it is decoded to are
    sorted and disjoint, not empty, no longer than the format allows, and
    point into one of the layers of the stack that asked. *)
Theorem decoded_index_is_checked sha256 bytes key ms :
  decode_premerged_index_artifact sha256 bytes key = Ok ms →
  StronglySorted before ms
  ∧ Forall (λ m, 0 < sm_length m ≤ MAX_LENGTH ∧ 0 ≤ tag m < key_layer_count key
                 ∧ zeroed m || has_physical_range m = true) ms.
Proof.
  unfold decode_premerged_index_artifact. intros E.
  repeat match type of E with
  | rbind ?m _ = Ok _ => destruct m eqn:?; cbn [rbind] in E; [|done]
  end.
  match goal with H : deserialize_premerged_mappings _ _ _ = Ok ?l |- _ => rename H into Ed; rename l into ms0 end.
  injection E as <-. unfold deserialize_premerged_mappings in Ed.
  repeat match type of Ed with
  | rbind ?m _ = Ok _ => destruct m; cbn [rbind] in Ed; [|done]
  end.
  apply deserialize_checked in Ed as [Hs Hf]; [|done]. split.
  - clear Hf. induction Hs as [|m ms Hs IH Hb]; [constructor|]. cbn. constructor; [exact IH|].
    apply Forall_fmap. eapply Forall_impl; [exact Hb|]. intros m' Hm'. unfold before, compose in *.
    by destruct (zeroed m), (zeroed m').
  - apply Forall_fmap. eapply Forall_impl; [exact Hf|]. intros m (H1 & H2 & H3 & _). simpl.
    destruct (zeroed m) eqn:Ez; simpl; rewrite ?Ez; split_and!; simpl; done || apply H1 || apply H2.
Qed.

Lemma decoded_index_is_checked_witness : ∃ ms,
  decode_premerged_index_artifact ex_sha32
    (premerged_artifact ex_sha32 (mkKey (replicate 32 9) [] 2) [sm_new 0 4 8 false 1])
    (mkKey (replicate 32 9) [] 2) = Ok ms
  ∧ StronglySorted before ms.
Proof.
  exists [sm_new 0 4 8 false 1]. split; [by vm_compute|].
  eapply (decoded_index_is_checked ex_sha32 _ (mkKey (replicate 32 9) [] 2)). 
  instantiate (1 := premerged_artifact ex_sha32 (mkKey (replicate 32 9) [] 2) [sm_new 0 4 8 false 1]).
  by vm_compute.
Defined.
