(* ===== verification/LsmtPrune.v ===== *)
(** * Bounding the cache of pre-merged indexes

    Models the pruning of the cache directory in [lsmt/file/helper.rs]: the
    removal of the oldest artifacts, the account that elects the one caller that
    scans the directory, and the loop that scans it.  A directory listing is a
    list of entries, each with the outcome of its [stat]; [remove] gives the
    outcome of every removal.  The accounting is also a step relation over the
    writers that charge it and the scans they run. *)

From stdpp Require Import sorting relations.
From S2P Require Import Prelude LsmtHelper LsmtIo.

(** ** Pruning *)

(** [premerged_index_cache_limit_bytes] *)
Definition MIN_PREMERGED_INDEX_CACHE_BYTES : Z := 64 * 1024 * 1024.
Definition MAX_PREMERGED_INDEX_CACHE_BYTES : Z := 1024 * 1024 * 1024.
Definition premerged_index_cache_limit_bytes (cache_size_gb : Z) : Z :=
  if cache_size_gb =? 0 then MIN_PREMERGED_INDEX_CACHE_BYTES
  else
    let gib := 1024 * 1024 * 1024 in
    Z.max MIN_PREMERGED_INDEX_CACHE_BYTES
      (Z.min MAX_PREMERGED_INDEX_CACHE_BYTES (wrap64 (cache_size_gb * gib) / 16)).

Record PremergedArtifactEntry : Type := mkArtEntry { pe_path : list Z; pe_len : Z; pe_modified : Z }.

Definition modified_le (a b : PremergedArtifactEntry) : Prop := pe_modified a ≤ pe_modified b.
#[global] Instance modified_le_dec : RelDecision modified_le :=
  λ a b, decide (pe_modified a ≤ pe_modified b).

#[global] Instance modified_le_trans : Transitive modified_le.
Proof. unfold modified_le. intros a b c ? ?. lia. Qed.
#[global] Instance modified_le_total : Total modified_le.
Proof. unfold modified_le. intros a b. lia. Qed.

Definition saturating_add64 (a b : Z) : Z := Z.min U64_MAX (a + b).

(** What [read_dir] yields: the entries of the directory, or an error. *)
Inductive io_error : Type := IoNotFound | IoOther.





(** ** Electing the scan *)

Definition PREMERGED_INDEX_PRUNE_SCAN_FRACTION : Z := 8.

Record PremergedIndexScanAccount : Type := mkAccount {
  bytes_since_scan : Z;
  scan_in_progress : bool;
  initial_scan_done : bool
}.

Definition new_account : PremergedIndexScanAccount := mkAccount 0 false false.
Definition scan_threshold (max_dir_bytes : Z) : Z :=
  Z.max (max_dir_bytes / PREMERGED_INDEX_PRUNE_SCAN_FRACTION) 1.

Definition elect_scan (written max_dir_bytes : Z) (a : PremergedIndexScanAccount)
  : PremergedIndexScanAccount * bool :=
  let bytes := saturating_add64 (bytes_since_scan a) written in
  if scan_in_progress a then (mkAccount bytes true (initial_scan_done a), false)
  else if negb (initial_scan_done a) || (scan_threshold max_dir_bytes <=? bytes)
       then (mkAccount 0 true true, true)
       else (mkAccount bytes false (initial_scan_done a), false).

Definition scan_finished (max_dir_bytes : Z) (a : PremergedIndexScanAccount)
  : PremergedIndexScanAccount * bool :=
  if scan_threshold max_dir_bytes <=? bytes_since_scan a
  then (mkAccount 0 true (initial_scan_done a), true)
  else (mkAccount (bytes_since_scan a) false (initial_scan_done a), false).

Definition scan_aborted (a : PremergedIndexScanAccount) : PremergedIndexScanAccount :=
  mkAccount (bytes_since_scan a) false (initial_scan_done a).

(** What happens during one scan: the charges of other writers while it runs,
    and its outcome. *)
Record scan_round : Type := mkRound { sr_charges : list Z; sr_result : result io_error unit }.

(** The loop of [prune_premerged_index_cache]: round [k] sees [rounds k].
    [None]: still running when the fuel is used up. *)
Fixpoint prune_scan_loop (fuel : nat) (max_dir_bytes : Z) (rounds : nat → scan_round) (k : nat)
  (a : PremergedIndexScanAccount) : option PremergedIndexScanAccount :=
  match fuel with
  | O => None
  | S fuel' =>
      let a := fold_left (λ a w, (elect_scan w max_dir_bytes a).1) (sr_charges (rounds k)) a in
      match sr_result (rounds k) with
      | Ok _ =>
          let '(a, again) := scan_finished max_dir_bytes a in
          if again then prune_scan_loop fuel' max_dir_bytes rounds (S k) a else Some a
      | Err _ => Some (scan_aborted a)
      end
  end.

Definition prune_premerged_index_cache (fuel : nat) (written max_dir_bytes : Z)
  (rounds : nat → scan_round) (a : PremergedIndexScanAccount) : option PremergedIndexScanAccount :=
  let '(a, elected) := elect_scan written max_dir_bytes a in
  if negb elected then Some a else prune_scan_loop fuel max_dir_bytes rounds 0 a.

(** ** What pruning leaves *)













(** ** One scan at a time *)

(** The account of a directory, the scans running on it, the scans started and
    the bytes charged since the process started. *)
Record scan_world : Type := mkWorld {
  w_account : PremergedIndexScanAccount;
  w_running : Z;
  w_started : Z;
  w_charged : Z
}.

Definition b2z (b : bool) : Z := if b then 1 else 0.
Definition first_world : scan_world := mkWorld new_account 0 0 0.

(** A writer charges its artifact and starts a scan when elected; a running
    scan ends, and goes round again when told so; or it fails. *)
Inductive scan_step (max_dir_bytes : Z) : scan_world → scan_world → Prop :=
| step_charge a n st ch written a' elected : 0 ≤ written →
    elect_scan written max_dir_bytes a = (a', elected) →
    scan_step max_dir_bytes (mkWorld a n st ch)
      (mkWorld a' (n + b2z elected) (st + b2z elected) (ch + written))
| step_finish a n st ch a' again : 0 < n →
    scan_finished max_dir_bytes a = (a', again) →
    scan_step max_dir_bytes (mkWorld a n st ch) (mkWorld a' (n - 1 + b2z again) (st + b2z again) ch)
| step_abort a n st ch : 0 < n →
    scan_step max_dir_bytes (mkWorld a n st ch) (mkWorld (scan_aborted a) (n - 1) st ch).

Definition scan_inv (max : Z) (w : scan_world) : Prop :=
  let a := w_account w in
  w_running w = b2z (scan_in_progress a)
  ∧ 0 ≤ bytes_since_scan a
  ∧ (w_started w - b2z (initial_scan_done a)) * scan_threshold max + bytes_since_scan a ≤ w_charged w
  ∧ (initial_scan_done a = false → w_started w = 0 ∧ scan_in_progress a = false).

Lemma scan_threshold_pos max : 1 ≤ scan_threshold max.
Proof. unfold scan_threshold. lia. Qed.

Lemma scan_step_inv max w w' : scan_step max w w' → scan_inv max w → scan_inv max w'.
Proof.
  pose proof (scan_threshold_pos max) as Ht.
  intros [a n st ch written a' elected Hw E|a n st ch a' again Hn E|a n st ch Hn] (H1 & H2 & H3 & H4);
    unfold scan_inv in *; simpl in *.
  - unfold elect_scan, saturating_add64, U64_MAX in E. destruct a as [bytes prog init]; simpl in *.
    destruct prog; simpl in *.
    { injection E as <- <-. simpl. split_and!; done || lia. }
    destruct init; simpl in *.
    + destruct (Z.leb_spec (scan_threshold max) (Z.min (2 ^ 64 - 1) (bytes + written))) as [Hb|Hb];
        injection E as <- <-; simpl; split_and!; done || lia.
    + destruct H4 as [-> _]; [done|]. injection E as <- <-. simpl. split_and!; done || lia.
  - unfold scan_finished in E. destruct a as [bytes prog init]; simpl in *.
    destruct prog, init; simpl in *; try (destruct H4; done || lia); try lia.
    destruct (Z.leb_spec (scan_threshold max) bytes); injection E as <- <-; simpl; split_and!; done || lia.
  - destruct a as [bytes prog init]; simpl in *. destruct prog, init; simpl in *; try (destruct H4; done || lia);
      split_and!; done || lia.
Qed.

Lemma scan_reachable_inv max w : rtc (scan_step max) first_world w → scan_inv max w.
Proof.
  intros Hr. eapply (rtc_ind_r (scan_inv max) first_world); [..|exact Hr].
  - by unfold scan_inv; simpl; split_and!.
  - intros y z _ Hs. by apply scan_step_inv.
Qed.

(** however charges, scans and failures interleave, at most one scan runs
    on a directory, and it runs exactly while the account says so. *)
Theorem one_scan_at_a_time max w : rtc (scan_step max) first_world w →
  w_running w = (if scan_in_progress (w_account w) then 1 else 0).
Proof. intros Hr. by apply scan_reachable_inv in Hr as (H1 & _). Qed.

(** scanning is amortised: beyond the first scan, every scan has been
    paid for by a threshold of charged bytes. *)
Theorem scans_amortised max w : rtc (scan_step max) first_world w →
  (w_started w - 1) * scan_threshold max ≤ w_charged w.
Proof.
  intros Hr. apply scan_reachable_inv in Hr as (_ & H2 & H3 & H4). pose proof (scan_threshold_pos max).
  unfold b2z in H3. destruct (initial_scan_done (w_account w)); [lia|]. destruct H4 as [E _]; [done|].
  rewrite E in *. nia.
Qed.

Lemma ex_history : rtc (scan_step 64) first_world (mkWorld (mkAccount 0 true true) 1 2 14).
Proof.
  eapply rtc_l; [by apply (step_charge 64 new_account 0 0 0 5 (mkAccount 0 true true) true)|].
  eapply rtc_l; [by apply (step_charge 64 (mkAccount 0 true true) 1 1 5 9 (mkAccount 9 true true) false)|].
  eapply rtc_l; [by apply (step_finish 64 (mkAccount 9 true true) 1 1 14 (mkAccount 0 true true) true)|].
  apply rtc_refl.
Qed.

Lemma one_scan_at_a_time_witness : w_running (mkWorld (mkAccount 0 true true) 1 2 14) = 1.
Proof. rewrite (one_scan_at_a_time 64 _ ex_history). reflexivity. Defined.

Lemma scans_amortised_witness : (2 - 1) * scan_threshold 64 ≤ 14.
Proof. exact (scans_amortised 64 _ ex_history). Defined.

(** ** The scan loop returns *)

Definition charged (r : scan_round) : Z := foldr Z.add 0 (sr_charges r).

Lemma charges_add max ws : ∀ bytes init, Forall (λ w, 0 ≤ w) ws → 0 ≤ bytes → ∃ bytes',
  fold_left (λ a w, (elect_scan w max a).1) ws (mkAccount bytes true init) = mkAccount bytes' true init
  ∧ 0 ≤ bytes' ≤ bytes + foldr Z.add 0 ws.
Proof.
  induction ws as [|w ws IH]; intros bytes init Hws Hb; simpl; [exists bytes; split; [done|lia]|].
  apply Forall_cons in Hws as [Hw Hws]. unfold elect_scan at 1. simpl.
  destruct (IH (saturating_add64 bytes w) init Hws) as (b' & E & Hb');
    [unfold saturating_add64, U64_MAX; lia|]. exists b'. split; [exact E|]. unfold saturating_add64 in Hb'. lia.
Qed.

Lemma prune_scan_loop_returns max rounds n : ∀ k init, (∀ j, Forall (λ w, 0 ≤ w) (sr_charges (rounds j))) →
  charged (rounds (k + n)%nat) < scan_threshold max →
  ∃ a, prune_scan_loop (S n) max rounds k (mkAccount 0 true init) = Some a ∧ scan_in_progress a = false.
Proof.
  induction n as [|n IH]; intros k init Hc Hq; cbn [prune_scan_loop];
    destruct (charges_add max (sr_charges (rounds k)) 0 init (Hc k) ltac:(lia)) as (b & -> & Hb);
    (destruct (sr_result (rounds k)); [|by eexists]); unfold scan_finished; cbn [bytes_since_scan initial_scan_done].
  - rewrite Nat.add_0_r in Hq. unfold charged in Hq. rewrite (proj2 (Z.leb_gt _ _)) by lia. by eexists.
  - destruct (_ <=? b); [|by eexists]. apply IH; [done|]. by rewrite <- Nat.add_succ_comm in Hq.
Qed.

(** C39: the prune loop returns as soon as some round sees fewer charged bytes
    than the threshold, with the directory released unless somebody else is
    still scanning it. *)
Theorem prune_cache_returns max written rounds n a : (∀ j, Forall (λ w, 0 ≤ w) (sr_charges (rounds j))) →
  charged (rounds n) < scan_threshold max →
  ∃ a', prune_premerged_index_cache (S n) written max rounds a = Some a'
    ∧ (scan_in_progress a' = true → scan_in_progress a = true).
Proof.
  intros Hc Hq. unfold prune_premerged_index_cache, elect_scan.
  destruct (scan_in_progress a) eqn:Ep; [by eexists|].
  destruct (_ || _); [|eexists; split; [done|]; simpl; congruence]. cbn [negb].
  destruct (prune_scan_loop_returns max rounds n 0 true Hc Hq) as (a' & E & Hp). rewrite E. exists a'.
  split; [done|congruence].
Qed.

Lemma prune_cache_returns_witness : ∃ a',
  prune_premerged_index_cache 2 5 64 (λ k, mkRound (if (k =? 0)%nat then [9] else []) (Ok tt)) new_account = Some a'
  ∧ (scan_in_progress a' = true → false = true).
Proof.
  apply (prune_cache_returns 64 5 (λ k, mkRound (if (k =? 0)%nat then [9] else []) (Ok tt)) 1 new_account).
  - intros [|j]; by repeat constructor.
  - reflexivity.
Defined.

(** A failed scan has already cleared the growth that elected it: the next
    write does not elect a new one by itself. *)
Lemma aborted_scan_not_reelected :
  let '(a, elected) := elect_scan 5 64 new_account in
  elected = true ∧ (elect_scan 5 64 (scan_aborted a)).2 = false.
Proof. by vm_compute. Qed.
