(* ===== verification/LsmtCreate.v ===== *)
(** * Creating and validating the files of a writable layer

    Models [initialize_file_rw_paths] and [validate_rw_header_pair_paths] of
    [lsmt/file/helper.rs], which create and check the data and index file of a
    layer without opening it, and the two wrappers [create_file_rw] and
    [open_file_rw] of [lsmt/file/stack.rs].  A path that is given stands for the
    contents of its file. *)

From S2P Require Import Prelude LsmtSegment LsmtFormat LsmtIndex LsmtLookup LsmtIo LsmtHelper.
From S2P Require Import LsmtFile LsmtRead LsmtLog LsmtWrite LsmtDisk LsmtOpen.

Inductive pair_error : Type :=
| ShorterThanHeader | InvalidHeaderBytes | InvalidMagic | NotUnsealedHeader | VirtualSizeMismatch
| DataHasIndexType | BothFlags | LayoutMismatch | SparseHasIndex | SparseSizeMismatch
| RequiresIndex | IndexHasDataType | UuidMismatch | BadIndexOffset | HybridMismatch
| DataUnaligned | IndexMisaligned | SizeOverflow | NotSupported.

(** [read_header] of [validate_rw_header_pair_paths] *)
Definition read_header (file : list Z) (expected_virtual_size : Z)
  : result pair_error (HeaderTrailer * Z) :=
  let size := zlen file in
  let? _ := ensure (HEADER_SIZE <=? size) ShorterThanHeader in
  match ht_from_bytes (ztake HT_SIZE file) with
  | None => Err InvalidHeaderBytes
  | Some header =>
      let? _ := ensure (verify_magic header) InvalidMagic in
      let? _ := ensure (is_header header && negb (is_sealed header)) NotUnsealedHeader in
      let? _ := ensure (virtual_size header =? expected_virtual_size) VirtualSizeMismatch in
      Ok (header, size)
  end.

Definition actual_layout (header : HeaderTrailer) : result pair_error RwLayout :=
  match is_sparse_rw header, is_hybrid_rw header with
  | false, false => Ok LogStructured
  | true, false => Ok Sparse
  | false, true => Ok HybridLogStructured
  | true, true => Err BothFlags
  end.

Definition validate_rw_header_pair_paths (data : list Z) (index : option (list Z))
  (expected_virtual_size : Z) (expected_layout : RwLayout) : result pair_error unit :=
  let? d := read_header data expected_virtual_size in
  let '(data_header, data_size) := d in
  let? _ := ensure (is_data_file data_header) DataHasIndexType in
  let? layout := actual_layout data_header in
  let? _ := ensure (bool_decide (layout = expected_layout)) LayoutMismatch in
  match expected_layout with
  | Sparse =>
      let? _ := ensure (match index with None => true | Some _ => false end) SparseHasIndex in
      ensure (data_size =? HEADER_SIZE + expected_virtual_size) SparseSizeMismatch
  | LogStructured | HybridLogStructured =>
      match index with
      | None => Err RequiresIndex
      | Some index =>
          let? i := read_header index expected_virtual_size in
          let '(index_header, index_size) := i in
          let? _ := ensure (negb (is_data_file index_header)) IndexHasDataType in
          let? _ := ensure (bool_decide (uuid index_header = uuid data_header)) UuidMismatch in
          let? _ := ensure (index_offset index_header =? HEADER_SIZE) BadIndexOffset in
          let? _ := ensure (eqb (is_hybrid_rw index_header) (is_hybrid_rw data_header)) HybridMismatch in
          let? _ := ensure (is_multiple_of data_size ALIGNMENT) DataUnaligned in
          ensure ((HEADER_SIZE <=? index_size) && is_multiple_of (index_size - HEADER_SIZE) MAPPING_SIZE)
            IndexMisaligned
      end
  end.

Section Create.
Context `{UuidOps}.

(** The files left at the two paths; [u] is the fresh UUID. *)
Definition initialize_file_rw_paths (sparse_ok : bool) (index : option (list Z)) (vsize : Z)
  (layout : RwLayout) (u : Uuid) : result pair_error (list Z * option (list Z)) :=
  match ensure_supported sparse_ok layout with
  | Err _ => Err NotSupported
  | Ok layout =>
      let header := rw_header vsize layout u None None in
      let data := write_header_block [] header in
      match layout with
      | Sparse =>
          let? _ := ensure (vsize + HEADER_SIZE <=? U64_MAX) SizeOverflow in
          Ok (file_truncate data (vsize + HEADER_SIZE), index)
      | LogStructured | HybridLogStructured =>
          match index with
          | None => Err RequiresIndex
          | Some _ =>
              let index_header := set_unsealed_index_offset (set_index_file header) in
              Ok (data, Some (write_header_block [] index_header))
          end
      end
  end.

(** [create_file_rw]; [LayerInfo] is passed field by field. *)
Record LayerInfo : Type := mkLayerInfo {
  fdata : list Z;
  findex : option (list Z);
  info_uuid : Uuid;
  info_parent_uuid : option Uuid;
  info_user_tag : option (list Z);
  info_virtual_size : Z;
  rw_layout : RwLayout
}.

Definition create_file_rw (sparse_ok : bool) (args : LayerInfo) : result lsmt_error LSMTFile :=
  create_with_metadata sparse_ok (fdata args) (findex args) (info_virtual_size args) (rw_layout args)
    (info_uuid args) (info_parent_uuid args) (info_user_tag args).

Definition open_file_rw (sparse_ok : bool) (seek_data seek_hole : Z → option Z)
  (fdata : list Z) (findex : option (list Z)) : result lsmt_error LSMTFile :=
  lsmt_open sparse_ok seek_data seek_hole fdata findex None [].
End Create.

(** ** Initialised files *)

(** A file that starts with an unsealed header block passes [read_header]. *)
Lemma read_header_ok file h v : header_of file h → is_sealed h = false → virtual_size h = v →
  read_header file v = Ok (h, zlen file).
Proof.
  intros (Hz & Hh & Hd & Hm) Hs <-. unfold read_header. rewrite (proj2 (Z.leb_le _ _) Hz). cbn [ensure rbind].
  rewrite Hd, ht_roundtrip by done. apply andb_true_iff in Hm as [-> ->]. rewrite Hs, Z.eqb_refl. done.
Qed.

Section Initialized.
Context `{UuidSpec} (vsize : Z) (layout : RwLayout) (u : Uuid) (Hv : 0 ≤ vsize < 2 ^ 63).

Abbreviation h := (rw_header vsize layout u None None).
Abbreviation hi := (set_unsealed_index_offset (set_index_file h)).

Lemma initialized_headers : wf_ht h ∧ wf_ht hi ∧ header_of (header_block h) h ∧ header_of (header_block hi) hi.
Proof.
  assert (wf_ht h) as Hh by (apply wf_rw_header; lia).
  assert (wf_ht hi) as Hhi.
  { assert (wf_ht (set_index_file h)) as Hi by (by apply wf_flag_clear). destruct Hi. by constructor. }
  split_and!; [done|done|..]; (apply header_block_of; [done|by destruct layout]).
Qed.

Lemma write_new_header g : write_header_block [] g = header_block g.
Proof. apply (file_write_end [] (header_block g)). Qed.

Lemma sparse_header_of : header_of (file_truncate (header_block h) (vsize + HEADER_SIZE)) h.
Proof.
  destruct initialized_headers as (_ & _ & Ho & _). eapply header_of_ext; [exact Ho|..].
  - rewrite zlen_file_truncate; unfold HEADER_SIZE; lia.
  - intros p Hp. rewrite byte_at_file_truncate by (unfold HEADER_SIZE in *; lia).
    by rewrite (proj2 (Z.ltb_lt _ _)) by lia.
Qed.

Lemma sparse_pair_validates : layout = Sparse →
  validate_rw_header_pair_paths (file_truncate (header_block h) (vsize + HEADER_SIZE)) None vsize layout = Ok tt.
Proof.
  intros El. unfold validate_rw_header_pair_paths.
  rewrite (read_header_ok _ h) by (exact sparse_header_of || by destruct layout). cbn [rbind].
  assert (is_data_file h = true ∧ actual_layout h = Ok layout) as [-> ->] by (by rewrite El). cbn [ensure rbind].
  rewrite bool_decide_true by done. cbn [ensure rbind]. rewrite El. cbn [ensure rbind].
  rewrite zlen_file_truncate by (unfold HEADER_SIZE; lia). by rewrite Z.add_comm, Z.eqb_refl.
Qed.

Lemma log_pair_validates : layout ≠ Sparse →
  validate_rw_header_pair_paths (header_block h) (Some (header_block hi)) vsize layout = Ok tt.
Proof.
  intros Hl. destruct initialized_headers as (Hh & Hhi & Ho & Hoi). unfold validate_rw_header_pair_paths.
  rewrite (read_header_ok _ h) by (done || by destruct layout). cbn [rbind].
  assert (is_data_file h = true ∧ actual_layout h = Ok layout) as [-> ->] by (by destruct layout).
  cbn [ensure rbind]. rewrite bool_decide_true by done. cbn [ensure rbind].
  rewrite (read_header_ok _ hi) by (done || by destruct layout). cbn [rbind].
  assert (is_data_file hi = false ∧ uuid hi = uuid h ∧ index_offset hi = HEADER_SIZE
    ∧ eqb (is_hybrid_rw hi) (is_hybrid_rw h) = true) as (-> & -> & -> & ->) by (by destruct layout).
  rewrite bool_decide_true by done. rewrite !zlen_header_block by done. by destruct layout.
Qed.

Lemma created_files sparse_ok f : layout ≠ Sparse →
  create_with_metadata sparse_ok [] (Some []) vsize layout u None None = Ok f →
  rw_data_file f = header_block h ∧ rw_index_file f = Some (header_block hi) ∧ lower (index f) = None
  ∧ lower_layers f = [] ∧ group_commit_buf f = [].
Proof.
  intros Hl. unfold create_with_metadata, ensure_supported. rewrite bool_decide_false by done.
  cbn [negb orb ensure rbind]. rewrite !write_new_header.
  destruct layout; [|done|]; cbn [rbind]; destruct (initial_append_digest _ _ _); try done; by intros [= <-].
Qed.

(** initialising the files of a layer leaves a pair that validates, for
    every layout; a log-structured or hybrid pair is the one [create] would
    have made, and opens as an empty disk of the requested size. *)
Theorem initialized_layer_opens sparse_ok sd sh index :
  (if bool_decide (layout = Sparse) then sparse_ok = true ∧ index = None else index ≠ None) →
  ∃ data idx, initialize_file_rw_paths sparse_ok index vsize layout u = Ok (data, idx)
    ∧ validate_rw_header_pair_paths data idx vsize layout = Ok tt
    ∧ (layout ≠ Sparse →
       (∃ f, create_with_metadata sparse_ok [] (Some []) vsize layout u None None = Ok f
          ∧ rw_data_file f = data ∧ rw_index_file f = idx)
       ∧ ∃ f, open_file_rw sparse_ok sd sh data idx = Ok f ∧ live f ∧ virtual_size_of f = vsize
          ∧ ∀ p, disk f p = 0).
Proof.
  intros Hi. unfold initialize_file_rw_paths, ensure_supported.
  destruct (decide (layout = Sparse)) as [Es|Hs].
  - rewrite bool_decide_true in * by done. destruct Hi as [-> ->]. cbn [negb orb ensure rbind].
    rewrite write_new_header. pose proof (sparse_pair_validates Es) as Hval.
    exists (file_truncate (header_block h) (vsize + HEADER_SIZE)), None.
    split; [|split; [exact Hval|done]]. clear Hval. rewrite Es.
    by rewrite (proj2 (Z.leb_le _ _)) by (unfold U64_MAX, HEADER_SIZE; lia).
  - rewrite bool_decide_false in * by done. cbn [negb orb ensure rbind]. rewrite !write_new_header.
    exists (header_block h), (Some (header_block hi)).
    split; [destruct layout, index; done|]. split; [by apply log_pair_validates|]. intros _.
    destruct (create_ok sparse_ok vsize layout u None None Hs Hv) as (f & E & Hf & _ & Hvs & _ & Hd).
    destruct (created_files sparse_ok f Hs E) as (Ed & Ei & El & Ell & Eb). split; [by exists f|].
    destruct initialized_headers as (Hh & _).
    destruct (reopen_ok f sparse_ok sd sh Hf Eb) as (g & Eg & Hg & Hvg & Hdg).
    { rewrite Ed. unfold unsealed_data. by rewrite zlen_header_block. }
    exists g. rewrite Ed, Ei, El, Ell in Eg. split_and!; [exact Eg|done|congruence|].
    intros p. by rewrite Hdg.
Qed.
End Initialized.

#[local] Existing Instance one_uuid.
#[local] Existing Instance one_uuid_spec.

Lemma initialized_layer_opens_witness : ∃ data idx,
  initialize_file_rw_paths false (Some []) 8192 HybridLogStructured uuid_nil = Ok (data, idx)
  ∧ validate_rw_header_pair_paths data idx 8192 HybridLogStructured = Ok tt
  ∧ ∃ f, open_file_rw false no_seek no_seek data idx = Ok f ∧ virtual_size_of f = 8192 ∧ disk f 600 = 0.
Proof.
  destruct (initialized_layer_opens 8192 HybridLogStructured uuid_nil ltac:(lia) false no_seek no_seek (Some []))
    as (data & idx & E & Hval & Hopen); [done|]. exists data, idx. split; [exact E|split; [exact Hval|]].
  destruct Hopen as [_ (f & Ef & _ & Hvs & Hd)]; [done|]. exists f. split; [exact Ef|]. split; [exact Hvs|]. apply Hd.
Defined.
