(* ===== verification/ZFormat.v ===== *)
(** * The compressed file format

    The on-disk structures of [storage/overlaybd/src/compression/zfile.rs]:
    the compression options, the 512-byte header and trailer with their flags
    and digest, and the jump table that maps a block number to the offset of
    its encoding.

    A zfile is a header, an optional dictionary area, the encoded blocks, an
    index with the encoded length of every block and a trailer.  Lengths that
    the source reads at fixed positions of a buffer are kept as such. *)

From S2P Require Import Prelude.

Open Scope result_scope.

(** The error conditions of the module. *)
Inductive zfile_error : Type :=
| BufferTooSmall
| BadAlgorithm
| BadBlockSize
| CompressFailed
| DecompressFailed
| SizeOverflow
| CrcNoRoom
| NotWholeBlocks
| BadBatch
| ShortWrite
| BuilderClosed
| WriterFinalized
| WriterFailed
| WrongOffset
| BadHeader
| BadDigest
| BadTrailer
| BadIndex
| IndexChecksum
| EmptyIndex
| JumpTableRange
| JumpTableDelta
| EndOfFile
| EvictFailed
| IoFailed
| BadOffsets
| ChecksumMismatch
| WrongSize
| NoDataChecksum
| CodecPanic.

(** ** Numbers in a buffer *)
Definition HEADER_TRAILER_SPACE : Z := 512.
Definition HEADER_TRAILER_BODY_SIZE : Z := 96.
Definition MAX_READ_SIZE : Z := 65536.
Definition NOI_WELL_KNOWN_PRIME : Z := 100007.

(** [checked_add] with the error it raises *)
Definition checked_add_or {E} (e : E) (a b : Z) : result E Z :=
  match checked_add64 a b with Some c => Ok c | None => Err e end.

Definition checked_sub_or {E} (e : E) (a b : Z) : result E Z :=
  if b <=? a then Ok (a - b) else Err e.

Definition checked_mul_or {E} (e : E) (a b : Z) : result E Z :=
  if a * b <=? U64_MAX then Ok (a * b) else Err e.

Definition read_le (n : nat) (buf : list Z) (offset : Z) : result zfile_error Z :=
  let? e := checked_add_or SizeOverflow offset (Z.of_nat n) in
  let? _ := ensure (e <=? zlen buf) BufferTooSmall in
  Ok (le_val (slice offset (Z.of_nat n) buf)).

Definition read_u32_le : list Z → Z → result zfile_error Z := read_le 4.
Definition read_u64_le : list Z → Z → result zfile_error Z := read_le 8.
Definition write_u32_le (buf : list Z) (offset value : Z) : list Z := splice buf offset (le_bytes 4 value).
Definition write_u64_le (buf : list Z) (offset value : Z) : list Z := splice buf offset (le_bytes 8 value).

Definition mul_u64_to_usize (a b : Z) : result zfile_error Z := checked_mul_or SizeOverflow a b.

(** ** Compression options *)
Record CompressOptions : Type := {
  co_block_size : Z;
  co_algo : Z;
  co_level : Z;
  co_use_dict : Z;
  co_reserved : Z;
  co_dict_size : Z;
  co_verify : Z
}.

Definition LZ4 : Z := 1.
Definition ZSTD : Z := 2.

Definition default_options : CompressOptions := {|
  co_block_size := 4096; co_algo := LZ4; co_level := 0; co_use_dict := 0;
  co_reserved := 0; co_dict_size := 0; co_verify := 0
|}.

Definition CompressOptions_new (algo block_size verify : Z) : CompressOptions := {|
  co_block_size := block_size; co_algo := algo;
  co_level := co_level default_options; co_use_dict := co_use_dict default_options;
  co_reserved := co_reserved default_options; co_dict_size := co_dict_size default_options;
  co_verify := verify
|}.

Definition decode_options (buf : list Z) : result zfile_error CompressOptions :=
  let? _ := ensure (24 <=? zlen buf) BufferTooSmall in
  let? bs := read_u32_le buf 0 in
  let? re := read_u32_le buf 8 in
  let? ds := read_u32_le buf 12 in
  Ok {| co_block_size := bs; co_algo := byte_at buf 4; co_level := byte_at buf 5;
        co_use_dict := byte_at buf 6; co_reserved := re; co_dict_size := ds;
        co_verify := byte_at buf 16 |}.

(** [encode_into] writes the first 24 bytes of [buf]. *)
Definition encode_options (o : CompressOptions) (buf : list Z) : result zfile_error (list Z) :=
  let? _ := ensure (24 <=? zlen buf) BufferTooSmall in
  let buf := splice buf 0 (zeros 24) in
  let buf := write_u32_le buf 0 (co_block_size o) in
  let buf := splice buf 4 [co_algo o] in
  let buf := splice buf 5 [co_level o] in
  let buf := splice buf 6 [co_use_dict o] in
  let buf := write_u32_le buf 8 (co_reserved o) in
  let buf := write_u32_le buf 12 (co_dict_size o) in
  let buf := splice buf 16 [co_verify o] in
  Ok buf.

(** ** Header and trailer *)
Record ZHeader : Type := {
  zh_magic0 : Z;
  zh_magic1 : list Z;
  zh_size : Z;
  zh_digest : Z;
  zh_flags : Z;
  zh_index_offset : Z;
  zh_index_size : Z;
  zh_original_file_size : Z;
  zh_index_crc : Z;
  zh_reserved_0 : Z;
  zh_opt : CompressOptions
}.

(** ["ZFile\0\x01\0"] *)
Definition ZMAGIC0 : Z := le_val [90; 70; 105; 108; 101; 0; 1; 0].
Definition ZMAGIC1 : list Z :=
  [116; 117; 106; 105; 46; 121; 121; 102; 64; 65; 108; 105; 98; 97; 98; 97].

Definition FLAG_HEADER : Z := 0.
Definition FLAG_TYPE : Z := 1.
Definition FLAG_SEALED : Z := 2.
Definition FLAG_HEADER_OVERWRITE : Z := 3.
Definition FLAG_CALC_DIGEST : Z := 4.

Definition ZHeader_new : ZHeader := {|
  zh_magic0 := ZMAGIC0; zh_magic1 := ZMAGIC1; zh_size := HEADER_TRAILER_BODY_SIZE;
  zh_digest := 0; zh_flags := 0; zh_index_offset := 0; zh_index_size := 0;
  zh_original_file_size := 0; zh_index_crc := 0; zh_reserved_0 := 0; zh_opt := default_options
|}.

Definition with_flags (h : ZHeader) (f : Z) : ZHeader := {|
  zh_magic0 := zh_magic0 h; zh_magic1 := zh_magic1 h; zh_size := zh_size h;
  zh_digest := zh_digest h; zh_flags := f; zh_index_offset := zh_index_offset h;
  zh_index_size := zh_index_size h; zh_original_file_size := zh_original_file_size h;
  zh_index_crc := zh_index_crc h; zh_reserved_0 := zh_reserved_0 h; zh_opt := zh_opt h
|}.

Definition with_digest (h : ZHeader) (d : Z) : ZHeader := {|
  zh_magic0 := zh_magic0 h; zh_magic1 := zh_magic1 h; zh_size := zh_size h;
  zh_digest := d; zh_flags := zh_flags h; zh_index_offset := zh_index_offset h;
  zh_index_size := zh_index_size h; zh_original_file_size := zh_original_file_size h;
  zh_index_crc := zh_index_crc h; zh_reserved_0 := zh_reserved_0 h; zh_opt := zh_opt h
|}.

(** [set_compress_option] *)
Definition set_compress_option (h : ZHeader) (o : CompressOptions) : ZHeader := {|
  zh_magic0 := zh_magic0 h; zh_magic1 := zh_magic1 h; zh_size := zh_size h;
  zh_digest := zh_digest h; zh_flags := zh_flags h; zh_index_offset := zh_index_offset h;
  zh_index_size := zh_index_size h; zh_original_file_size := zh_original_file_size h;
  zh_index_crc := zh_index_crc h; zh_reserved_0 := zh_reserved_0 h; zh_opt := o
|}.

Definition decode_from_512 (buf : list Z) : result zfile_error ZHeader :=
  let? _ := ensure (HEADER_TRAILER_SPACE <=? zlen buf) BufferTooSmall in
  let? m0 := read_u64_le buf 0 in
  let? sz := read_u32_le buf 24 in
  let? dg := read_u32_le buf 28 in
  let? fl := read_u64_le buf 32 in
  let? io := read_u64_le buf 40 in
  let? isz := read_u64_le buf 48 in
  let? ofs := read_u64_le buf 56 in
  let? ic := read_u32_le buf 64 in
  let? r0 := read_u32_le buf 68 in
  let? o := decode_options (slice 72 24 buf) in
  Ok {| zh_magic0 := m0; zh_magic1 := slice 8 16 buf; zh_size := sz; zh_digest := dg;
        zh_flags := fl; zh_index_offset := io; zh_index_size := isz;
        zh_original_file_size := ofs; zh_index_crc := ic; zh_reserved_0 := r0; zh_opt := o |}.

Definition encode_512 (h : ZHeader) : result zfile_error (list Z) :=
  let buf := zeros HEADER_TRAILER_SPACE in
  let buf := write_u64_le buf 0 (zh_magic0 h) in
  let buf := splice buf 8 (zh_magic1 h) in
  let buf := write_u32_le buf 24 (zh_size h) in
  let buf := write_u32_le buf 28 (zh_digest h) in
  let buf := write_u64_le buf 32 (zh_flags h) in
  let buf := write_u64_le buf 40 (zh_index_offset h) in
  let buf := write_u64_le buf 48 (zh_index_size h) in
  let buf := write_u64_le buf 56 (zh_original_file_size h) in
  let buf := write_u32_le buf 64 (zh_index_crc h) in
  let buf := write_u32_le buf 68 (zh_reserved_0 h) in
  let? o := encode_options (zh_opt h) (slice 72 24 buf) in
  Ok (splice buf 72 o).

Definition verify_zmagic (h : ZHeader) : bool :=
  (zh_magic0 h =? ZMAGIC0) && bool_decide (zh_magic1 h = ZMAGIC1).

Definition get_flag_bit (h : ZHeader) (shift : Z) : bool :=
  negb (Z.land (zh_flags h) (Z.shiftl 1 shift) =? 0).
Definition set_flag_bit (shift : Z) (h : ZHeader) : ZHeader :=
  with_flags h (Z.lor (zh_flags h) (Z.shiftl 1 shift)).
Definition clr_flag_bit (shift : Z) (h : ZHeader) : ZHeader :=
  with_flags h (Z.land (zh_flags h) (not64 (Z.shiftl 1 shift))).

Definition zh_is_header (h : ZHeader) : bool := get_flag_bit h FLAG_HEADER.
Definition zh_is_trailer (h : ZHeader) : bool := negb (zh_is_header h).
Definition zh_is_header_overwrite (h : ZHeader) : bool := get_flag_bit h FLAG_HEADER_OVERWRITE.
Definition zh_is_data_file (h : ZHeader) : bool := get_flag_bit h FLAG_TYPE.
Definition zh_is_sealed (h : ZHeader) : bool := get_flag_bit h FLAG_SEALED.
Definition zh_is_digest_enabled (h : ZHeader) : bool := get_flag_bit h FLAG_CALC_DIGEST.

(** ** Checksums

    [crc32c_append] is the function of the [crc32c] crate: a 32-bit checksum of
    the data continued from a seed. *)
Class Crc32c : Type := crc32c_append : Z → list Z → Z.

Class Crc32cSpec `{Crc32c} : Prop :=
  crc32c_append_range : ∀ seed data, 0 ≤ crc32c_append seed data < 2 ^ 32.

Definition crc32c `{Crc32c} (data : list Z) : Z := not32 (crc32c_append (not32 0) data).

Definition crc32c_salt `{Crc32c} (data : list Z) : Z :=
  not32 (crc32c_append (not32 NOI_WELL_KNOWN_PRIME) data).

Definition zh_is_valid `{Crc32c} (h : ZHeader) (bytes : list Z) : bool :=
  if negb (zh_is_digest_enabled h) then true
  else crc32c (splice bytes 28 (zeros 4)) =? zh_digest h.

(** ** The jump table *)
Record JumpTable : Type := {
  group_size : Z;
  partial_offset : list Z;
  deltas : list Z
}.

Definition offset_at (t : JumpTable) (idx : Z) : result zfile_error Z :=
  let? _ := ensure (negb (group_size t =? 0)) JumpTableRange in
  let? _ := ensure (idx <? zlen (deltas t)) JumpTableRange in
  let part_idx := idx / group_size t in
  let inner_idx := idx mod group_size t in
  let? part_offset := match partial_offset t !! Z.to_nat part_idx with
                      | Some p => Ok p
                      | None => Err JumpTableRange
                      end in
  if inner_idx =? 0 then Ok part_offset
  else Ok (wrap64 (part_offset + byte_at (deltas t) idx)).

Fixpoint build_loop (ibuf : list Z) (i raw_offset min_block_size : Z) (t : JumpTable)
  : result zfile_error JumpTable :=
  match ibuf with
  | [] => Ok t
  | blk :: ibuf' =>
      let? _ := ensure (min_block_size <? blk) BadIndex in
      let? raw_offset := checked_add_or SizeOverflow raw_offset blk in
      if i mod group_size t =? 0 then
        build_loop ibuf' (i + 1) raw_offset min_block_size
          {| group_size := group_size t; partial_offset := partial_offset t ++ [raw_offset];
             deltas := deltas t ++ [0] |}
      else
        let prev := byte_at (deltas t) (i - 1) in
        let? next := checked_add_or SizeOverflow prev blk in
        let? _ := ensure (next <? 65535) JumpTableDelta in
        build_loop ibuf' (i + 1) raw_offset min_block_size
          {| group_size := group_size t; partial_offset := partial_offset t;
             deltas := deltas t ++ [next] |}
  end.

Definition JumpTable_build (ibuf : list Z) (offset_begin block_size : Z) (enable_crc : bool)
  : result zfile_error JumpTable :=
  let? _ := ensure (negb (block_size =? 0)) BadBlockSize in
  let group_size := 65536 / block_size in
  let? _ := ensure (negb (group_size =? 0)) BadBlockSize in
  build_loop ibuf 1 offset_begin (if enable_crc then 4 else 0)
    {| group_size := group_size; partial_offset := [offset_begin]; deltas := [0] |}.

(** ** The header codec *)

(** Fields in their machine ranges. *)
Record wf_options (o : CompressOptions) : Prop := {
  wf_co_block_size : 0 ≤ co_block_size o < 2 ^ 32;
  wf_co_reserved : 0 ≤ co_reserved o < 2 ^ 32;
  wf_co_dict_size : 0 ≤ co_dict_size o < 2 ^ 32
}.

Record wf_zheader (h : ZHeader) : Prop := {
  wf_zh_magic0 : 0 ≤ zh_magic0 h < 2 ^ 64;
  wf_zh_magic1 : zlen (zh_magic1 h) = 16;
  wf_zh_size : 0 ≤ zh_size h < 2 ^ 32;
  wf_zh_digest : 0 ≤ zh_digest h < 2 ^ 32;
  wf_zh_flags : 0 ≤ zh_flags h < 2 ^ 64;
  wf_zh_index_offset : 0 ≤ zh_index_offset h < 2 ^ 64;
  wf_zh_index_size : 0 ≤ zh_index_size h < 2 ^ 64;
  wf_zh_original_file_size : 0 ≤ zh_original_file_size h < 2 ^ 64;
  wf_zh_index_crc : 0 ≤ zh_index_crc h < 2 ^ 32;
  wf_zh_reserved_0 : 0 ≤ zh_reserved_0 h < 2 ^ 32;
  wf_zh_opt : wf_options (zh_opt h)
}.

(** The bytes one after the other. *)
Definition options_layout (o : CompressOptions) : list Z :=
  le_bytes 4 (co_block_size o) ++ [co_algo o; co_level o; co_use_dict o; 0]
  ++ le_bytes 4 (co_reserved o) ++ le_bytes 4 (co_dict_size o) ++ [co_verify o] ++ zeros 7.

Definition zheader_layout (h : ZHeader) : list Z :=
  (le_bytes 8 (zh_magic0 h) ++ zh_magic1 h ++ le_bytes 4 (zh_size h))
  ++ le_bytes 4 (zh_digest h)
  ++ (le_bytes 8 (zh_flags h) ++ le_bytes 8 (zh_index_offset h)
      ++ le_bytes 8 (zh_index_size h) ++ le_bytes 8 (zh_original_file_size h)
      ++ le_bytes 4 (zh_index_crc h) ++ le_bytes 4 (zh_reserved_0 h)
      ++ options_layout (zh_opt h) ++ zeros 416).

Lemma zlen_options_layout o : zlen (options_layout o) = 24.
Proof. unfold options_layout. by rewrite !zlen_app, !zlen_le_bytes. Qed.

Lemma zlen_header_layout h : zlen (zh_magic1 h) = 16 → zlen (zheader_layout h) = 512.
Proof.
  intros Hm. unfold zheader_layout.
  rewrite !zlen_app, !zlen_le_bytes, zlen_options_layout, zlen_zeros, Hm. lia.
Qed.

Lemma encode_options_layout o : encode_options o (zeros 24) = Ok (options_layout o).
Proof. done. Qed.

Lemma encode_512_layout h : zlen (zh_magic1 h) = 16 → encode_512 h = Ok (zheader_layout h).
Proof.
  intros Hm. unfold encode_512, HEADER_TRAILER_SPACE, write_u64_le, write_u32_le.
  change (zeros 512) with ([] ++ zeros 512).
  repeat (rewrite splice_zeros by (rewrite ?zlen_app, ?zlen_le_bytes, ?Hm, ?zlen_nil; lia)).
  rewrite !zlen_le_bytes, !Hm. cbn [Z.of_nat Pos.of_succ_nat Pos.succ Z.sub Z.opp Z.add Z.pos_sub].
  rewrite slice_app_skip by (rewrite ?zlen_app, ?zlen_le_bytes, ?Hm, ?zlen_nil; lia).
  rewrite !zlen_app, !zlen_le_bytes, Hm. change (slice _ _ (zeros _)) with (zeros 24).
  rewrite encode_options_layout. cbn [rbind]. f_equal.
  rewrite splice_zeros by (rewrite ?zlen_options_layout, ?zlen_app, ?zlen_le_bytes, ?Hm, ?zlen_nil; lia).
  rewrite zlen_options_layout. unfold zheader_layout. by rewrite <- !app_assoc.
Qed.

(** Read the field that starts at the requested position of a layout. *)
Ltac zfield_len := rewrite ?zlen_app, ?zlen_le_bytes, ?zlen_options_layout, ?zlen_zeros; lia.
Ltac zfield :=
  repeat (rewrite slice_app_skip by zfield_len);
  match goal with
  | |- context [slice ?o ?n (?l ++ _)] =>
      replace o with 0 by zfield_len; rewrite slice_app_here by zfield_len
  end.

Lemma read_le_layout n buf off v : 0 ≤ off → off + Z.of_nat n ≤ zlen buf → zlen buf ≤ U64_MAX →
  0 ≤ v < 2 ^ (8 * Z.of_nat n) → slice off (Z.of_nat n) buf = le_bytes n v → read_le n buf off = Ok v.
Proof.
  intros Ho Hl Hb Hv Hs. unfold read_le, checked_add_or, checked_add64, ensure.
  destruct (Z.leb_spec (off + Z.of_nat n) U64_MAX); [|lia]. cbn [rbind].
  destruct (Z.leb_spec (off + Z.of_nat n) (zlen buf)); [|lia]. cbn [rbind].
  by rewrite Hs, le_val_le_bytes.
Qed.

Lemma decode_options_layout o : wf_options o → decode_options (options_layout o) = Ok o.
Proof.
  intros [H1 H2 H3]. unfold decode_options. rewrite zlen_options_layout. cbn [ensure Z.leb Z.compare Pos.compare Pos.compare_cont rbind].
  unfold read_u32_le.
  rewrite (read_le_layout 4 _ 0 (co_block_size o)), (read_le_layout 4 _ 8 (co_reserved o)),
    (read_le_layout 4 _ 12 (co_dict_size o));
    try (rewrite zlen_options_layout; done); try done.
  by destruct o.
Qed.

Lemma header_roundtrip h : wf_zheader h → decode_from_512 (zheader_layout h) = Ok h.
Proof.
  intros Hwf. assert (zlen (zheader_layout h) = 512) as Hl by apply zlen_header_layout, Hwf.
  unfold decode_from_512, read_u64_le, read_u32_le. rewrite Hl.
  change (ensure _ _) with (@Ok zfile_error unit tt). cbn [rbind].
  assert (∀ n off v, 0 ≤ off → off + Z.of_nat n ≤ 512 → 0 ≤ v < 2 ^ (8 * Z.of_nat n) →
    slice off (Z.of_nat n) (zheader_layout h) = le_bytes n v → read_le n (zheader_layout h) off = Ok v)
    as Hr by (intros; apply read_le_layout; rewrite ?Hl; unfold U64_MAX; done || lia).
  destruct Hwf.
  assert (slice 72 24 (zheader_layout h) = options_layout (zh_opt h)) as Ho by (unfold zheader_layout; zfield; done).
  assert (slice 8 16 (zheader_layout h) = zh_magic1 h) as Hm by (unfold zheader_layout; rewrite <- !app_assoc; zfield; done).
  rewrite Ho, Hm, decode_options_layout by done.
  rewrite (Hr 8%nat 0 (zh_magic0 h)), (Hr 4%nat 24 (zh_size h)), (Hr 4%nat 28 (zh_digest h)),
    (Hr 8%nat 32 (zh_flags h)), (Hr 8%nat 40 (zh_index_offset h)), (Hr 8%nat 48 (zh_index_size h)),
    (Hr 8%nat 56 (zh_original_file_size h)), (Hr 4%nat 64 (zh_index_crc h)),
    (Hr 4%nat 68 (zh_reserved_0 h)); try done;
    try (unfold zheader_layout; rewrite <- !app_assoc; change (Z.of_nat 8) with 8; change (Z.of_nat 4) with 4; zfield; done).
  by destruct h.
Qed.

(** ** Digests *)

Lemma not32_range z : 0 ≤ z < 2 ^ 32 → 0 ≤ not32 z < 2 ^ 32.
Proof. unfold not32, U32_MAX. lia. Qed.

Lemma crc32c_range `{Crc32cSpec} data : 0 ≤ crc32c data < 2 ^ 32.
Proof. apply not32_range, crc32c_append_range. Qed.

Lemma crc32c_salt_range `{Crc32cSpec} data : 0 ≤ crc32c_salt data < 2 ^ 32.
Proof. apply not32_range, crc32c_append_range. Qed.

(** The digest field is the only one that [splice _ 28] touches. *)
Lemma put_digest h d : zlen (zh_magic1 h) = 16 →
  splice (zheader_layout h) 28 (le_bytes 4 d) = zheader_layout (with_digest h d).
Proof.
  intros Hm. apply splice_mid; [|by rewrite !zlen_le_bytes].
  rewrite !zlen_app, !zlen_le_bytes, Hm. done.
Qed.

Lemma put_digest_0 h : zlen (zh_magic1 h) = 16 →
  splice (zheader_layout h) 28 (zeros 4) = zheader_layout (with_digest h 0).
Proof. apply (put_digest h 0). Qed.

(** ** Jump table lemmas *)

Definition zsum (l : list Z) : Z := foldr Z.add 0 l.
Definition psum (l : list Z) (k : Z) : Z := zsum (ztake k l).

Lemma zsum_cons x l : zsum (x :: l) = x + zsum l.
Proof. done. Qed.

Lemma zsum_app l1 l2 : zsum (l1 ++ l2) = zsum l1 + zsum l2.
Proof. unfold zsum. induction l1 as [|x l1 IH]; simpl; [done|]. rewrite IH. lia. Qed.

Lemma zsum_bound M l : Forall (λ x, 0 ≤ x ≤ M) l → 0 ≤ zsum l ≤ M * zlen l.
Proof.
  induction 1 as [|x l Hx _ IH]; [unfold zlen; simpl; lia|]. rewrite zlen_cons. change (zsum (x :: l)) with (x + zsum l). nia.
Qed.

Lemma psum_succ l k : 0 ≤ k < zlen l → psum l (k + 1) = psum l k + byte_at l k.
Proof.
  intros Hk. unfold psum, ztake, byte_at, zlen in *.
  replace (Z.to_nat (k + 1)) with (S (Z.to_nat k)) by lia.
  destruct (lookup_lt_is_Some_2 l (Z.to_nat k)) as [x Hx]; [lia|].
  rewrite (take_S_r _ _ _ Hx), zsum_app, Hx. simpl. lia.
Qed.

Lemma psum_ztake l j k : 0 ≤ j ≤ k → psum l k = psum l j + zsum (ztake (k - j) (zdrop j l)).
Proof.
  intros Hjk. unfold psum, ztake, zdrop. rewrite <- zsum_app, take_take_drop. do 2 f_equal. lia.
Qed.

Lemma psum_all l : psum l (zlen l) = zsum l.
Proof. unfold psum. by rewrite ztake_all. Qed.

Lemma psum_le l j k : Forall (λ x, 0 ≤ x) l → 0 ≤ j ≤ k → psum l j ≤ psum l k.
Proof.
  intros Hl Hjk. rewrite (psum_ztake l j k Hjk). enough (0 ≤ zsum (ztake (k - j) (zdrop j l))) by lia.
  assert (Forall (λ x, 0 ≤ x) (ztake (k - j) (zdrop j l))) as Hf by by apply Forall_take, Forall_drop.
  clear -Hf. induction Hf; [done|]. change (zsum (x :: l0)) with (x + zsum l0). lia.
Qed.

(** A table that covers the first [n] entries of [ibuf]. *)
Record jt_covers (ibuf : list Z) (base g n : Z) (t : JumpTable) : Prop := {
  jc_group : group_size t = g;
  jc_deltas : zlen (deltas t) = n + 1;
  jc_parts : zlen (partial_offset t) = n / g + 1;
  jc_part : ∀ k, 0 ≤ k ≤ n / g →
    partial_offset t !! Z.to_nat k = Some (base + psum ibuf (k * g));
  jc_delta : ∀ k, 0 ≤ k ≤ n → byte_at (deltas t) k = psum ibuf k - psum ibuf (k / g * g)
}.

Lemma byte_at_snoc l x k : 0 ≤ k ≤ zlen l →
  byte_at (l ++ [x]) k = if k <? zlen l then byte_at l k else x.
Proof.
  intros Hk. rewrite byte_at_app by lia. destruct (Z.ltb_spec k (zlen l)); [done|].
  by replace (k - zlen l) with 0 by lia.
Qed.

Lemma lookup_snoc_z {A} (l : list A) x k : 0 ≤ k ≤ zlen l →
  (l ++ [x]) !! Z.to_nat k = if k <? zlen l then l !! Z.to_nat k else Some x.
Proof.
  intros Hk. unfold zlen in *. destruct (Z.ltb_spec k (Z.of_nat (length l))).
  - by rewrite lookup_app_l by lia.
  - rewrite lookup_app_r by lia. by replace (Z.to_nat k - length l)%nat with 0%nat by lia.
Qed.

Lemma div_succ_boundary n g : 0 < g → (n + 1) mod g = 0 → (n + 1) / g = n / g + 1 ∧ n + 1 = (n / g + 1) * g.
Proof.
  intros Hg Hm. pose proof (Z.div_mod (n + 1) g ltac:(lia)). pose proof (Z.div_mod n g ltac:(lia)).
  pose proof (Z.mod_pos_bound n g Hg). assert ((n + 1) / g = n / g + 1) by nia. nia.
Qed.

Lemma div_succ_inner n g : 0 < g → (n + 1) mod g ≠ 0 → (n + 1) / g = n / g.
Proof.
  intros Hg Hm. pose proof (Z.div_mod (n + 1) g ltac:(lia)). pose proof (Z.div_mod n g ltac:(lia)).
  pose proof (Z.mod_pos_bound n g Hg). pose proof (Z.mod_pos_bound (n + 1) g Hg). nia.
Qed.

(** Starting a new group. *)
Lemma jt_covers_boundary ibuf base g n t : 0 < g → 0 ≤ n < zlen ibuf → jt_covers ibuf base g n t →
  (n + 1) mod g = 0 →
  jt_covers ibuf base g (n + 1)
    {| group_size := g; partial_offset := partial_offset t ++ [base + psum ibuf (n + 1)];
       deltas := deltas t ++ [0] |}.
Proof.
  intros Hg Hn [H1 H2 H3 H4 H5] Hm. destruct (div_succ_boundary n g Hg Hm) as [Hd He].
  pose proof (Z.div_pos n g). constructor; simpl; [done|..].
  - rewrite zlen_app, H2. done.
  - rewrite zlen_app, H3, Hd. done.
  - intros k Hk. rewrite lookup_snoc_z, H3 by lia.
    destruct (Z.ltb_spec k (n / g + 1)); [apply H4; lia|]. by replace k with (n / g + 1) by lia; rewrite <- He.
  - intros k Hk. rewrite byte_at_snoc, H2 by lia. destruct (Z.ltb_spec k (n + 1)); [apply H5; lia|].
    replace k with (n + 1) by lia. rewrite Hd, <- He. lia.
Qed.

(** Continuing a group. *)
Lemma jt_covers_inner ibuf base g n t : 0 < g → 0 ≤ n < zlen ibuf → jt_covers ibuf base g n t →
  (n + 1) mod g ≠ 0 →
  jt_covers ibuf base g (n + 1)
    {| group_size := g; partial_offset := partial_offset t;
       deltas := deltas t ++ [byte_at (deltas t) n + byte_at ibuf n] |}.
Proof.
  intros Hg Hn [H1 H2 H3 H4 H5] Hm. pose proof (div_succ_inner n g Hg Hm) as Hd.
  constructor; simpl; rewrite ?Hd; [done|..|done|].
  - rewrite zlen_app, H2. done.
  - done.
  - intros k Hk. rewrite byte_at_snoc, H2 by lia. destruct (Z.ltb_spec k (n + 1)); [apply H5; lia|].
    replace k with (n + 1) by lia. rewrite Hd, H5, psum_succ by lia. lia.
Qed.

Lemma offset_at_covers ibuf base g n t i : 0 < g → jt_covers ibuf base g n t → 0 ≤ i ≤ n →
  0 ≤ base + psum ibuf i ≤ U64_MAX → offset_at t i = Ok (base + psum ibuf i).
Proof.
  intros Hg [H1 H2 H3 H4 H5] Hi Hr. unfold offset_at, ensure.
  pose proof (Z.div_le_mono i n g Hg ltac:(lia)). pose proof (Z.div_pos i g).
  pose proof (Z.div_mod i g ltac:(lia)) as Hm.
  rewrite H1, H2. destruct (Z.eqb_spec g 0), (Z.ltb_spec i (n + 1)); try lia. cbn [negb rbind].
  rewrite H4 by lia. cbn [rbind]. destruct (Z.eqb_spec (i mod g) 0) as [Hz|Hz].
  - do 3 f_equal. lia.
  - rewrite H5 by lia. f_equal. unfold U64_MAX in Hr.
    rewrite wrap64_small; lia.
Qed.

Lemma offset_at_past ibuf base g n t i : jt_covers ibuf base g n t → n < i →
  offset_at t i = Err JumpTableRange.
Proof.
  intros [H1 H2 H3 H4 H5] Hi. unfold offset_at, ensure. rewrite H2.
  destruct (Z.ltb_spec i (n + 1)); [lia|]. by destruct (negb _).
Qed.

Lemma zdrop_cons {A} n (l : list A) x r : 0 ≤ n → zdrop n l = x :: r →
  l !! Z.to_nat n = Some x ∧ zdrop (n + 1) l = r ∧ n < zlen l.
Proof.
  intros Hn Hd. unfold zdrop in *. assert (l !! Z.to_nat n = Some x) as Hx.
  { rewrite <- (Nat.add_0_r (Z.to_nat n)), <- lookup_drop, Hd. done. }
  split; [done|]. split.
  - replace (Z.to_nat (n + 1)) with (S (Z.to_nat n)) by lia.
    rewrite (drop_S _ _ _ Hx) in Hd. congruence.
  - apply lookup_lt_Some in Hx. unfold zlen. lia.
Qed.

Section Build.
Context (ibuf : list Z) (base g mn : Z).
Context (Hg : 0 < g).

(** A table that was built covers the whole index. *)
Lemma build_loop_covers rest : ∀ n t t', 0 ≤ n ≤ zlen ibuf → zdrop n ibuf = rest → jt_covers ibuf base g n t →
  base + psum ibuf n ≤ U64_MAX →
  build_loop rest (n + 1) (base + psum ibuf n) mn t = Ok t' →
  jt_covers ibuf base g (zlen ibuf) t' ∧ base + zsum ibuf ≤ U64_MAX ∧ Forall (λ x, mn < x) rest.
Proof.
  induction rest as [|x rest IH]; intros n t t' Hn Hd Hc Hu Hb; cbn [build_loop] in Hb.
  { assert (n = zlen ibuf) as -> by (apply (f_equal zlen) in Hd; rewrite zlen_zdrop in Hd by lia; unfold zlen in *; simpl in Hd; lia).
    injection Hb as <-. by rewrite <- psum_all. }
  destruct (zdrop_cons n ibuf x rest) as (Hx & Hd' & Hl); [lia|done|].
  assert (byte_at ibuf n = x) as Hbx by (unfold byte_at; by rewrite Hx).
  assert (base + psum ibuf n + x = base + psum ibuf (n + 1)) as Hs by (rewrite psum_succ by lia; lia).
  unfold checked_add_or, checked_add64, ensure in Hb.
  destruct (Z.ltb_spec mn x); [|done]. cbn [rbind] in Hb. rewrite Hs in Hb.
  destruct (Z.leb_spec (base + psum ibuf (n + 1)) U64_MAX); [|done]. cbn [rbind] in Hb.
  rewrite (jc_group _ _ _ _ _ Hc) in Hb. destruct (Z.eqb_spec ((n + 1) mod g) 0) as [Hm|Hm].
  - edestruct (IH (n + 1)) as (? & ? & ?); [lia|done| |done|exact Hb|by eauto].
    apply jt_covers_boundary; done || lia.
  - replace (n + 1 - 1) with n in Hb by lia. destruct (_ + x <=? U64_MAX); [|done]. cbn [rbind] in Hb.
    destruct (_ <? 65535); [|done]. cbn [rbind] in Hb. rewrite <- Hbx in Hb.
    edestruct (IH (n + 1)) as (? & ? & ?); [lia|done| |done|exact Hb|by eauto].
    apply jt_covers_inner; done || lia.
Qed.

(** Entries of bounded size never overflow a delta. *)
Lemma build_loop_ok M rest : ∀ n t, 0 ≤ n ≤ zlen ibuf → zdrop n ibuf = rest → jt_covers ibuf base g n t →
  0 ≤ mn → Forall (λ x, mn < x ≤ M) ibuf → (g - 1) * M < 65535 → 0 ≤ base → base + zsum ibuf ≤ U64_MAX →
  ∃ t', build_loop rest (n + 1) (base + psum ibuf n) mn t = Ok t'.
Proof.
  induction rest as [|x rest IH]; intros n t Hn Hd Hc Hmn Hf HM Hb Hu; cbn [build_loop]; [by eauto|].
  destruct (zdrop_cons n ibuf x rest) as (Hx & Hd' & Hl); [lia|done|].
  assert (byte_at ibuf n = x) as Hbx by (unfold byte_at; by rewrite Hx).
  assert (base + psum ibuf n + x = base + psum ibuf (n + 1)) as Hs by (rewrite psum_succ by lia; lia).
  assert (Forall (λ x, 0 ≤ x) ibuf) as Hp by (eapply Forall_impl; [exact Hf|]; simpl; intros; lia).
  assert (mn < x ≤ M) as Hxr by exact (Forall_lookup_1 _ _ _ _ Hf Hx).
  pose proof (psum_le ibuf (n + 1) (zlen ibuf) Hp ltac:(lia)) as Hle. rewrite psum_all in Hle.
  unfold checked_add_or, checked_add64, ensure. destruct (Z.ltb_spec mn x); [|lia]. cbn [rbind].
  rewrite Hs. destruct (Z.leb_spec (base + psum ibuf (n + 1)) U64_MAX); [|lia]. cbn [rbind].
  rewrite (jc_group _ _ _ _ _ Hc). destruct (Z.eqb_spec ((n + 1) mod g) 0) as [Hm|Hm].
  - apply (IH (n + 1)); try done; [lia|]. apply jt_covers_boundary; done || lia.
  - replace (n + 1 - 1) with n by lia.
    assert (byte_at (deltas t) n + x ≤ (g - 1) * M) as Hdx.
    { rewrite (jc_delta _ _ _ _ _ Hc) by lia. rewrite <- Hbx.
      pose proof (div_succ_inner n g Hg Hm) as Hdi. pose proof (Z.div_mod (n + 1) g ltac:(lia)).
      pose proof (Z.mod_pos_bound (n + 1) g Hg). pose proof (Z.div_pos n g).
      enough (psum ibuf (n + 1) - psum ibuf (n / g * g) ≤ (g - 1) * M) by (rewrite psum_succ in *; lia).
      rewrite (psum_ztake ibuf (n / g * g) (n + 1)) by nia.
      assert (Forall (λ x, 0 ≤ x ≤ M) (ztake (n + 1 - n / g * g) (zdrop (n / g * g) ibuf))) as Hft.
      { apply Forall_take, Forall_drop. eapply Forall_impl; [exact Hf|]. simpl. intros. lia. }
      pose proof (zsum_bound _ _ Hft) as Hz. rewrite zlen_ztake, zlen_zdrop in Hz by nia. nia. }
    destruct (Z.leb_spec (byte_at (deltas t) n + x) U64_MAX); [|unfold U64_MAX in *; lia]. cbn [rbind].
    destruct (Z.ltb_spec (byte_at (deltas t) n + x) 65535); [|lia]. cbn [rbind]. rewrite <- Hbx.
    apply (IH (n + 1)); try done; [lia|]. apply jt_covers_inner; done || lia.
Qed.
End Build.

Lemma jt_covers_start ibuf base g : 0 < g →
  jt_covers ibuf base g 0 {| group_size := g; partial_offset := [base]; deltas := [0] |}.
Proof.
  intros Hg. assert (0 / g = 0) as Hz by by apply Z.div_0_l; lia.
  constructor; simpl; rewrite ?Hz; try done.
  - intros k Hk. replace k with 0 by lia. simpl. by rewrite Z.add_0_r.
  - intros k Hk. replace k with 0 by lia. by rewrite Hz.
Qed.

Lemma JumpTable_build_offsets ibuf base bs (crc : bool) t : 0 ≤ base ≤ U64_MAX → 0 < bs →
  JumpTable_build ibuf base bs crc = Ok t →
  Forall (λ x, (if crc then 4 else 0) < x) ibuf ∧ base + zsum ibuf ≤ U64_MAX
  ∧ (∀ i, 0 ≤ i ≤ zlen ibuf → offset_at t i = Ok (base + psum ibuf i))
  ∧ (∀ i, zlen ibuf < i → offset_at t i = Err JumpTableRange).
Proof.
  intros Hb Hbs. unfold JumpTable_build, ensure. destruct (Z.eqb_spec bs 0); [lia|]. cbn [negb rbind].
  destruct (Z.eqb_spec (65536 / bs) 0); [done|]. cbn [negb rbind]. intros Hl.
  assert (0 < 65536 / bs) as Hg by (pose proof (Z.div_pos 65536 bs); lia).
  pose proof (zlen_nonneg ibuf).
  replace base with (base + psum ibuf 0) in Hl at 1 by apply Z.add_0_r.
  destruct (build_loop_covers ibuf base (65536 / bs) (if crc then 4 else 0) Hg ibuf 0
    {| group_size := 65536 / bs; partial_offset := [base]; deltas := [0] |} t) as (Hc & Hu & Hf);
    [lia|done|by apply jt_covers_start|change (psum ibuf 0) with 0; lia|exact Hl|].
  split_and!; [done|done| |].
  - intros i Hi. eapply offset_at_covers; [exact Hg|exact Hc|done|].
    assert (Forall (λ x, 0 ≤ x) ibuf) as Hp.
    { eapply Forall_impl; [exact Hf|]. simpl. intros x Hx. destruct crc; lia. }
    pose proof (psum_le ibuf 0 i Hp ltac:(lia)) as H0. change (psum ibuf 0) with 0 in H0.
    pose proof (psum_le ibuf i (zlen ibuf) Hp ltac:(lia)) as H1. rewrite psum_all in H1. lia.
  - intros i Hi. by eapply offset_at_past.
Qed.

Lemma JumpTable_build_ok ibuf base bs (crc : bool) M : 0 ≤ base → 0 < bs ≤ 65536 →
  Forall (λ x, (if crc then 4 else 0) < x ≤ M) ibuf → (65536 / bs - 1) * M < 65535 →
  base + zsum ibuf ≤ U64_MAX → ∃ t, JumpTable_build ibuf base bs crc = Ok t.
Proof.
  intros Hb Hbs Hf HM Hu. unfold JumpTable_build, ensure. destruct (Z.eqb_spec bs 0); [lia|]. cbn [negb rbind].
  assert (0 < 65536 / bs) as Hg by (apply Z.div_str_pos; lia).
  destruct (Z.eqb_spec (65536 / bs) 0); [lia|]. cbn [negb rbind].
  pose proof (zlen_nonneg ibuf).
  destruct (build_loop_ok ibuf base (65536 / bs) (if crc then 4 else 0) Hg M ibuf 0
    {| group_size := 65536 / bs; partial_offset := [base]; deltas := [0] |}) as [t Ht];
    try done; [by apply jt_covers_start|by destruct crc|].
  exists t. change (psum ibuf 0) with 0 in Ht. by rewrite Z.add_0_r in Ht.
Qed.
