(* ===== verification/ZBuild.v ===== *)
(** * Writing a compressed file

    [ZFileBuilder], its worker pool, [zfile_compress] and
    [ZFileCompactWriter] of [storage/overlaybd/src/compression/zfile.rs].

    The LZ4 and ZSTD libraries are third-party code: class [Codec] has their
    entry points and [CodecSpec] what their documentation promises.  The
    destination may take fewer bytes than offered in one [write_at]
    ([FileWriter]), and the workers of the pool may finish in any order
    ([Completion]). *)

From S2P Require Import Prelude LsmtIo ZFormat.

Open Scope result_scope.

(** ** Third-party codecs *)

(** Outputs are the bytes written to the destination; [None] is failure.  The
    last argument is the capacity of the destination. *)
Class Codec : Type := {
  LZ4_compressBound : Z → Z;
  LZ4_compress_default : list Z → Z → option (list Z);
  LZ4_decompress_safe : list Z → Z → option (list Z);
  zstd_compress_to_buffer : Z → list Z → Z → option (list Z);
  zstd_decompress_to_buffer : list Z → Z → option (list Z)
}.

(** [n as i32] *)
Definition as_i32 (n : Z) : Z := (n + 2 ^ 31) mod 2 ^ 32 - 2 ^ 31.

Definition I32_MAX : Z := 2 ^ 31 - 1.
Definition ZSTD_C_LEVEL : Z := 3.

Definition lz4_compress_bound `{Codec} (src_size : Z) : result zfile_error Z :=
  let? _ := ensure (src_size <=? I32_MAX) CodecPanic in
  let bound := LZ4_compressBound src_size in
  let? _ := ensure (0 <? bound) CodecPanic in
  Ok bound.

Definition zstd_compress_bound (src_size : Z) : Z :=
  src_size + Z.shiftr src_size 8
  + (if src_size <? Z.shiftl 128 10 then Z.shiftr (Z.shiftl 128 10 - src_size) 11 else 0).

(** ** Compressors *)

(** [Lz4Compressor] and [ZstdCompressor] *)
Inductive CompressorKind : Type := Lz4Compressor | ZstdCompressor.

Record Compressor : Type := {
  cp_kind : CompressorKind;
  cp_max_dst_size : Z;
  cp_src_block_size : Z
}.

Definition Lz4Compressor_new `{Codec} (opt : CompressOptions) : result zfile_error Compressor :=
  let? _ := ensure (co_algo opt =? LZ4) BadAlgorithm in
  let src_blk_size := co_block_size opt in
  let? _ := ensure (negb (src_blk_size =? 0)) BadBlockSize in
  let? _ := ensure (src_blk_size <=? I32_MAX) BadBlockSize in
  let? bound := lz4_compress_bound src_blk_size in
  Ok {| cp_kind := Lz4Compressor; cp_max_dst_size := bound; cp_src_block_size := src_blk_size |}.

Definition ZstdCompressor_new (opt : CompressOptions) : result zfile_error Compressor :=
  let? _ := ensure (co_algo opt =? ZSTD) BadAlgorithm in
  let src_blk_size := co_block_size opt in
  let? _ := ensure (negb (src_blk_size =? 0)) BadBlockSize in
  Ok {| cp_kind := ZstdCompressor; cp_max_dst_size := zstd_compress_bound src_blk_size;
        cp_src_block_size := src_blk_size |}.

Definition create_compressor `{Codec} (opt : CompressOptions) : result zfile_error Compressor :=
  if co_algo opt =? LZ4 then Lz4Compressor_new opt
  else if co_algo opt =? ZSTD then ZstdCompressor_new opt
  else Err BadAlgorithm.

(** [compress]: the bytes written at the start of a destination of [dst_len]
    bytes. *)
Definition compress `{Codec} (c : Compressor) (src : list Z) (dst_len : Z) : result zfile_error (list Z) :=
  let? _ := ensure (cp_max_dst_size c <=? dst_len) BufferTooSmall in
  match cp_kind c with
  | Lz4Compressor =>
      match LZ4_compress_default src (as_i32 dst_len) with
      | Some out => let? _ := ensure (0 <? zlen out) CompressFailed in Ok out
      | None => Err CompressFailed
      end
  | ZstdCompressor =>
      match zstd_compress_to_buffer ZSTD_C_LEVEL src dst_len with
      | Some out => let? _ := ensure (negb (zlen out =? 0)) CompressFailed in Ok out
      | None => Err CompressFailed
      end
  end.

Definition decompress `{Codec} (c : Compressor) (src : list Z) (dst_len : Z) : result zfile_error (list Z) :=
  match cp_kind c with
  | Lz4Compressor =>
      match LZ4_decompress_safe src (as_i32 dst_len) with
      | Some out => let? _ := ensure (0 <? zlen out) DecompressFailed in Ok out
      | None => Err DecompressFailed
      end
  | ZstdCompressor =>
      let? _ := ensure (cp_src_block_size c <=? dst_len) BufferTooSmall in
      match zstd_decompress_to_buffer src dst_len with
      | Some out =>
          let? _ := ensure (negb (zlen out =? 0)) DecompressFailed in
          let? _ := ensure (zlen out <=? cp_src_block_size c) DecompressFailed in
          Ok out
      | None => Err DecompressFailed
      end
  end.

(** [compress_data]: one block with its checksum. *)
Definition compress_data `{Codec, Crc32c} (c : Compressor) (src : list Z) (dst_len : Z) (gen_crc : bool)
  : result zfile_error (list Z) :=
  let? out := compress c src dst_len in
  let? _ := ensure (negb (zlen out =? 0)) CompressFailed in
  if gen_crc then
    let? e := checked_add_or SizeOverflow (zlen out) 4 in
    let? _ := ensure (e <=? dst_len) CrcNoRoom in
    Ok (out ++ le_bytes 4 (crc32c_salt out))
  else Ok out.

Definition max_compressed_block_size (c : Compressor) (gen_crc : bool) : result zfile_error Z :=
  checked_add_or SizeOverflow (cp_max_dst_size c) (if gen_crc then 4 else 0).

Record CompressedSegment : Type := {
  cs_bytes : list Z;
  cs_block_lengths : list Z
}.

Definition u32_or {E} (e : E) (n : Z) : result E Z := if n <=? U32_MAX then Ok n else Err e.

(** The loop over [source.chunks_exact(block_size)], [n] chunks. *)
Fixpoint compress_blocks `{Codec, Crc32c} (n : nat) (c : Compressor) (source : list Z)
    (block_size max_block : Z) (gen_crc : bool) (seg : CompressedSegment)
  : result zfile_error CompressedSegment :=
  match n with
  | O => Ok seg
  | S n' =>
      let? _ := checked_add_or SizeOverflow (zlen (cs_bytes seg)) max_block in
      let? out := compress_data c (ztake block_size source) max_block gen_crc in
      let? len := u32_or SizeOverflow (zlen out) in
      compress_blocks n' c (zdrop block_size source) block_size max_block gen_crc
        {| cs_bytes := cs_bytes seg ++ out; cs_block_lengths := cs_block_lengths seg ++ [len] |}
  end.

Definition compress_segment `{Codec, Crc32c} (c : Compressor) (source : list Z)
    (block_size max_block : Z) (gen_crc : bool) : result zfile_error CompressedSegment :=
  let? _ := ensure (negb (block_size =? 0)) BadBlockSize in
  let? _ := ensure (is_multiple_of (zlen source) block_size) NotWholeBlocks in
  let block_count := zlen source / block_size in
  let? _ := checked_mul_or SizeOverflow block_count max_block in
  compress_blocks (Z.to_nat block_count) c source block_size max_block gen_crc
    {| cs_bytes := []; cs_block_lengths := [] |}.

(** ** Writing to the destination *)

(** How many of the offered bytes one [write_at] takes. *)
Class FileWriter : Type := fw_count : list Z → Z → list Z → Z.

Class FileWriterSpec `{FileWriter} : Prop :=
  fw_progress : ∀ f off data, data ≠ [] → 0 < fw_count f off data ≤ zlen data.

(** Every round takes at least one byte, so the length of the data is fuel
    enough. *)
Fixpoint write_all_loop `{FileWriter} (fuel : nat) (buf : list Z) (offset : Z)
  : eff (list Z) zfile_error unit :=
  match buf, fuel with
  | [], _ => eret tt
  | _, O => eerr ShortWrite
  | _, S fuel' => λ f,
      let n := fw_count f offset buf in
      (let! _ := elift (ensure (negb (n =? 0)) ShortWrite) in
       let! _ := emodify (λ f, file_write f offset (ztake n buf)) in
       let! offset := elift (checked_add_or SizeOverflow offset n) in
       write_all_loop fuel' (zdrop n buf) offset) f
  end.

Definition write_all_at `{FileWriter} (buf : list Z) (offset : Z) : eff (list Z) zfile_error unit :=
  write_all_loop (length buf) buf offset.

(** [write_header_trailer] up to the write: the header with its digest and its
    512 bytes. *)
Definition stamp_header `{Crc32c} (is_header is_sealed is_data_file overwrite_header : bool) (ht : ZHeader)
  : result zfile_error (ZHeader * list Z) :=
  let ht := if is_header then set_flag_bit FLAG_HEADER ht else clr_flag_bit FLAG_HEADER ht in
  let ht := if is_sealed then set_flag_bit FLAG_SEALED ht else clr_flag_bit FLAG_SEALED ht in
  let ht := if is_data_file then set_flag_bit FLAG_TYPE ht else clr_flag_bit FLAG_TYPE ht in
  let ht := if overwrite_header then set_flag_bit FLAG_HEADER_OVERWRITE ht else ht in
  let ht := with_digest (set_flag_bit FLAG_CALC_DIGEST ht) 0 in
  let? encoded := encode_512 ht in
  let encoded := splice encoded 28 (zeros 4) in
  let ht := with_digest ht (crc32c encoded) in
  Ok (ht, write_u32_le encoded 28 (zh_digest ht)).

(** The header is updated in place, next to the file. *)
Definition write_header_trailer `{Crc32c, FileWriter}
    (is_header is_sealed is_data_file overwrite_header : bool) (offset : Z)
  : eff (list Z * ZHeader) zfile_error unit := λ '(f, ht),
  match stamp_header is_header is_sealed is_data_file overwrite_header ht with
  | Ok (ht', encoded) => let '(f', r) := write_all_at encoded offset f in ((f', ht'), r)
  | Err e => ((f, ht), Err e)
  end.

(** The fields that describe the index. *)
Definition with_index `{Crc32c} (h : ZHeader) (index_raw : list Z) (index_offset index_size raw : Z) : ZHeader := {|
  zh_magic0 := zh_magic0 h; zh_magic1 := zh_magic1 h; zh_size := zh_size h;
  zh_digest := zh_digest h; zh_flags := zh_flags h; zh_index_offset := index_offset;
  zh_index_size := index_size; zh_original_file_size := raw;
  zh_index_crc := crc32c index_raw; zh_reserved_0 := zh_reserved_0 h; zh_opt := zh_opt h
|}.

Definition jump_index_bytes (block_len : list Z) : list Z := concat (le_bytes 4 <$> block_len).

(** The end of a file: the index, the trailer and, on request, the header again. *)
Definition finish_file `{Crc32c, FileWriter} (overwrite_header : bool) (block_len : list Z)
    (index_offset raw_data_size : Z) : eff (list Z * ZHeader) zfile_error unit :=
  let index_raw := jump_index_bytes block_len in
  let! _ := (λ '(f, h), let '(f', r) := write_all_at index_raw index_offset f in ((f', h), r)) in
  let! _ := emodify (λ '(f, h), (f, with_index h index_raw index_offset (zlen block_len) raw_data_size)) in
  let! trailer_offset := elift (checked_add_or SizeOverflow index_offset (zlen index_raw)) in
  let! _ := write_header_trailer false true true false trailer_offset in
  if overwrite_header then write_header_trailer true false true true 0 else eret tt.

(** ** The builder *)
Record CompressArgs : Type := {
  ca_opt : CompressOptions;
  ca_overwrite_header : bool;
  ca_workers : Z
}.

Record ZFileBuilder : Type := {
  zb_args : CompressArgs;
  zb_compressor : Compressor;
  zb_local : bool;              (** the destination is a [LocalFile] *)
  zb_dest : list Z;
  zb_pool : option Z;           (** number of worker threads *)
  zb_block_len : list Z;
  zb_reserved : list Z;         (** [reserved_buf[..reserved_size]] *)
  zb_raw_data_size : Z;
  zb_moffset : Z;
  zb_ht : ZHeader;
  zb_finished : bool
}.

Definition zb_opt (b : ZFileBuilder) : CompressOptions := ca_opt (zb_args b).
Definition zb_gen_crc (b : ZFileBuilder) : bool := negb (co_verify (zb_opt b) =? 0).
Definition zb_bs (b : ZFileBuilder) : Z := co_block_size (zb_opt b).

Definition BUF_SIZE : Z := 512.
Definition MAX_WORKERS : Z := 256.
Definition ZFILE_PHYSICAL_WRITE_CHUNK_SIZE : Z := 4096.
Definition ZFILE_COMPACT_WRITER_BUFFER_SIZE : Z := 512 * 1024.

Definition zb_with (b : ZFileBuilder) (dest : list Z) (pool : option Z) (block_len reserved : list Z)
    (raw moffset : Z) (ht : ZHeader) (finished : bool) : ZFileBuilder := {|
  zb_args := zb_args b; zb_compressor := zb_compressor b; zb_local := zb_local b;
  zb_dest := dest; zb_pool := pool; zb_block_len := block_len; zb_reserved := reserved;
  zb_raw_data_size := raw; zb_moffset := moffset; zb_ht := ht; zb_finished := finished
|}.

Definition zb_set_pool (p : option Z) (b : ZFileBuilder) : ZFileBuilder :=
  zb_with b (zb_dest b) p (zb_block_len b) (zb_reserved b) (zb_raw_data_size b) (zb_moffset b) (zb_ht b) (zb_finished b).
Definition zb_set_reserved (r : list Z) (b : ZFileBuilder) : ZFileBuilder :=
  zb_with b (zb_dest b) (zb_pool b) (zb_block_len b) r (zb_raw_data_size b) (zb_moffset b) (zb_ht b) (zb_finished b).
Definition zb_set_raw (n : Z) (b : ZFileBuilder) : ZFileBuilder :=
  zb_with b (zb_dest b) (zb_pool b) (zb_block_len b) (zb_reserved b) n (zb_moffset b) (zb_ht b) (zb_finished b).
Definition zb_set_moffset (n : Z) (b : ZFileBuilder) : ZFileBuilder :=
  zb_with b (zb_dest b) (zb_pool b) (zb_block_len b) (zb_reserved b) (zb_raw_data_size b) n (zb_ht b) (zb_finished b).
Definition zb_push_lens (l : list Z) (b : ZFileBuilder) : ZFileBuilder :=
  zb_with b (zb_dest b) (zb_pool b) (zb_block_len b ++ l) (zb_reserved b) (zb_raw_data_size b) (zb_moffset b) (zb_ht b) (zb_finished b).
Definition zb_set_file (f : list Z) (h : ZHeader) (b : ZFileBuilder) : ZFileBuilder :=
  zb_with b f (zb_pool b) (zb_block_len b) (zb_reserved b) (zb_raw_data_size b) (zb_moffset b) h (zb_finished b).
Definition zb_set_finished (b : ZFileBuilder) : ZFileBuilder :=
  zb_with b (zb_dest b) (zb_pool b) (zb_block_len b) (zb_reserved b) (zb_raw_data_size b) (zb_moffset b) (zb_ht b) true.

(** Run an operation on the destination of the builder. *)
Definition on_dest {A} (m : eff (list Z) zfile_error A) : eff ZFileBuilder zfile_error A := λ b,
  let '(f, r) := m (zb_dest b) in (zb_set_file f (zb_ht b) b, r).
Definition on_header {A} (m : eff (list Z * ZHeader) zfile_error A) : eff ZFileBuilder zfile_error A := λ b,
  let '((f, h), r) := m (zb_dest b, zb_ht b) in (zb_set_file f h b, r).

(** The order in which the workers of one round finish; the first argument
    tells the rounds apart. *)
Class Completion : Type := completion_order : ∀ {A}, Z → list A → list A.

Class CompletionSpec `{Completion} : Prop :=
  completion_perm : ∀ A k (l : list A), completion_order k l ≡ₚ l.

(** [BTreeMap::insert] *)
Fixpoint btree_insert {V} (k : Z) (v : V) (m : list (Z * V)) : list (Z * V) :=
  match m with
  | [] => [(k, v)]
  | (k', v') :: m' =>
      if k <? k' then (k, v) :: m
      else if k =? k' then (k, v) :: m'
      else (k', v') :: btree_insert k v m'
  end.

Section Builder.
Context `{Codec, Crc32c, FileWriter, Completion}.

(** [ZFileBuilder::new] on the file [file]; the file is returned on failure
    too, since the header is written before the options are checked. *)
Definition ZFileBuilder_new (file : list Z) (local : bool) (args : CompressArgs)
  : list Z * result zfile_error ZFileBuilder :=
  let ht := set_compress_option ZHeader_new (ca_opt args) in
  match write_header_trailer true false true false 0 (file, ht) with
  | ((f, ht), Err e) => (f, Err e)
  | ((f, ht), Ok _) =>
      (f,
       let block_size := co_block_size (ca_opt args) in
       let gen_crc := negb (co_verify (ca_opt args) =? 0) in
       let? _ := ensure (negb (block_size =? 0)) BadBlockSize in
       let? _ := checked_add_or SizeOverflow block_size BUF_SIZE in
       let? compressor := create_compressor (ca_opt args) in
       let? pool := if 1 <? ca_workers args
                    then let? _ := max_compressed_block_size compressor gen_crc in
                         Ok (Some (Z.min (Z.max (ca_workers args) 1) MAX_WORKERS))
                    else Ok None in
       Ok {| zb_args := args; zb_compressor := compressor; zb_local := local; zb_dest := f;
             zb_pool := pool; zb_block_len := []; zb_reserved := []; zb_raw_data_size := 0;
             zb_moffset := HEADER_TRAILER_SPACE + co_dict_size (ca_opt args);
             zb_ht := ht; zb_finished := false |})
  end.

(** [write_buffer]: the last, partial block. *)
Definition write_buffer (src : list Z) : eff ZFileBuilder zfile_error unit := λ b,
  (let! out := elift (compress_data (zb_compressor b) src (zb_bs b + BUF_SIZE) (zb_gen_crc b)) in
   let! _ := on_dest (write_all_at out (zb_moffset b)) in
   let! len := elift (u32_or SizeOverflow (zlen out)) in
   let! _ := emodify (zb_push_lens [len]) in
   let! moffset := elift (checked_add_or SizeOverflow (zb_moffset b) (zlen out)) in
   emodify (zb_set_moffset moffset)) b.

(** The size of a batch from its block lengths. *)
Fixpoint encoded_size (lens : list Z) (acc : Z) : result zfile_error Z :=
  match lens with
  | [] => Ok acc
  | l :: lens' =>
      let? _ := ensure (negb (l =? 0)) BadBatch in
      let? acc := checked_add_or SizeOverflow acc l in
      encoded_size lens' acc
  end.

(** A large batch for a local file is one [pwrite]. *)
Definition commit_compressed_batch (batch : CompressedSegment) : eff ZFileBuilder zfile_error unit := λ b,
  (let! size := elift (encoded_size (cs_block_lengths batch) 0) in
   let! _ := elift (ensure (size =? zlen (cs_bytes batch)) BadBatch) in
   let! next_offset := elift (checked_add_or SizeOverflow (zb_moffset b) (zlen (cs_bytes batch))) in
   let! _ := if (ZFILE_PHYSICAL_WRITE_CHUNK_SIZE <? zlen (cs_bytes batch)) && zb_local b
             then on_dest (emodify (λ f, file_write f (zb_moffset b) (cs_bytes batch)))
             else on_dest (write_all_at (cs_bytes batch) (zb_moffset b)) in
   let! _ := emodify (zb_push_lens (cs_block_lengths batch)) in
   emodify (zb_set_moffset next_offset)) b.

Fixpoint commit_all (batches : list CompressedSegment) : eff ZFileBuilder zfile_error unit :=
  match batches with
  | [] => eret tt
  | batch :: batches' =>
      let! _ := commit_compressed_batch batch in
      commit_all batches'
  end.

Definition compress_and_commit (source : list Z) : eff ZFileBuilder zfile_error unit := λ b,
  (let! max_block := elift (max_compressed_block_size (zb_compressor b) (zb_gen_crc b)) in
   let! batch := elift (compress_segment (zb_compressor b) source (zb_bs b) max_block (zb_gen_crc b)) in
   commit_compressed_batch batch) b.

(** The work items of one round: [segment_blocks] blocks each, numbered in
    source order.  Their byte ranges lie inside [source]. *)
Definition work_items (source : list Z) (block_size block_count segment_blocks : Z) : list (Z * list Z) :=
  (λ k, let first := k * segment_blocks in
        let last := Z.min (first + segment_blocks) block_count in
        (k, slice (first * block_size) (last * block_size - first * block_size) source))
  <$> seqZ 0 (div_ceil block_count segment_blocks).

(** One worker: its own compressor, then the item. *)
Definition worker_result (opt : CompressOptions) (gen_crc : bool) (block_size max_block : Z)
    (item : Z * list Z) : Z * result zfile_error CompressedSegment :=
  (item.1,
   let? c := create_compressor opt in
   compress_segment c item.2 block_size max_block gen_crc).

(** Draining the results: the first error wins, segments are kept by number. *)
Definition collect_result (st : option zfile_error * list (Z * CompressedSegment))
    (r : Z * result zfile_error CompressedSegment) : option zfile_error * list (Z * CompressedSegment) :=
  match r.2 with
  | Ok segment => (st.1, btree_insert r.1 segment st.2)
  | Err e => (match st.1 with None => Some e | Some e0 => Some e0 end, st.2)
  end.

Definition write_full_blocks_owned (source : list Z) : eff ZFileBuilder zfile_error unit := λ b,
  let block_size := zb_bs b in
  (let! _ := elift (ensure (is_multiple_of (zlen source) block_size) NotWholeBlocks) in
   if is_nil source then eret tt
   else
     let block_count := zlen source / block_size in
     match zb_pool b with
     | Some worker_count =>
         if (ca_workers (zb_args b) <=? 1) || (block_count =? 1) then compress_and_commit source
         else
           let! max_block := elift (max_compressed_block_size (zb_compressor b) (zb_gen_crc b)) in
           let workers := Z.min worker_count block_count in
           let segment_blocks := div_ceil block_count workers in
           let results := worker_result (zb_opt b) (zb_gen_crc b) block_size max_block
                          <$> work_items source block_size block_count segment_blocks in
           let '(first_error, segments) :=
             fold_left collect_result (completion_order (zlen (zb_block_len b)) results) (None, []) in
           match first_error with
           | Some e => let! _ := emodify (zb_set_pool None) in eerr e
           | None => commit_all segments.*2
           end
     | None => compress_and_commit source
     end) b.

Definition write_full_blocks_borrowed (source : list Z) : eff ZFileBuilder zfile_error unit := λ b,
  let block_size := zb_bs b in
  (let! _ := elift (ensure (is_multiple_of (zlen source) block_size) NotWholeBlocks) in
   if is_nil source then eret tt
   else
     let block_count := zlen source / block_size in
     if (ca_workers (zb_args b) <=? 1) || (block_count =? 1) then compress_and_commit source
     else write_full_blocks_owned source) b.

Definition write_batch_size (block_size : Z) : result zfile_error Z :=
  let blocks := Z.max (ZFILE_COMPACT_WRITER_BUFFER_SIZE / block_size) 1 in
  checked_mul_or SizeOverflow blocks block_size.

(** The loop over the full blocks of [buf]; it returns what is left. *)
Fixpoint zb_write_loop (fuel : nat) (block_size batch_size : Z) (buf : list Z)
  : eff ZFileBuilder zfile_error (list Z) :=
  if zlen buf <? block_size then eret buf
  else match fuel with
       | O => eerr SizeOverflow
       | S fuel' =>
           let! full_bytes := elift (checked_mul_or SizeOverflow (zlen buf / block_size) block_size) in
           let batch_bytes := Z.min full_bytes batch_size in
           let! _ := write_full_blocks_borrowed (ztake batch_bytes buf) in
           zb_write_loop fuel' block_size batch_size (zdrop batch_bytes buf)
       end.

(** The end of [write]: the full blocks of what is left, then the remainder
    is kept for the next call. *)
Definition write_rest (block_size batch_size next_raw expected : Z) (buf : list Z)
  : eff ZFileBuilder zfile_error Z :=
  let! tail := zb_write_loop (length buf) block_size batch_size buf in
  let! _ := if is_nil tail then eret tt else emodify (zb_set_reserved tail) in
  let! _ := emodify (zb_set_raw next_raw) in
  eret expected.

Definition zb_write (buf : list Z) : eff ZFileBuilder zfile_error Z := λ b,
  let block_size := zb_bs b in
  (let! _ := elift (ensure (negb (zb_finished b)) BuilderClosed) in
   let! next_raw := elift (checked_add_or SizeOverflow (zb_raw_data_size b) (zlen buf)) in
   let! batch_size := elift (write_batch_size block_size) in
   if negb (is_nil (zb_reserved b)) then
     let needed := block_size - zlen (zb_reserved b) in
     if zlen buf <? needed then
       let! _ := emodify (zb_set_reserved (zb_reserved b ++ buf)) in
       let! _ := emodify (zb_set_raw next_raw) in
       eret (zlen buf)
     else
       let completed_block := zb_reserved b ++ ztake needed buf in
       let! _ := write_full_blocks_borrowed completed_block in
       let! _ := emodify (zb_set_reserved []) in
       write_rest block_size batch_size next_raw (zlen buf) (zdrop needed buf)
   else write_rest block_size batch_size next_raw (zlen buf) buf) b.

Definition zb_write_owned (buffer : list Z) (len : Z) : eff ZFileBuilder zfile_error Z := λ b,
  (let! _ := elift (ensure (len <=? zlen buffer) BufferTooSmall) in
   let! _ := elift (ensure (negb (zb_finished b)) BuilderClosed) in
   if negb (is_nil (zb_reserved b)) || negb (is_multiple_of len (zb_bs b)) then zb_write (ztake len buffer)
   else
     let! next_raw := elift (checked_add_or SizeOverflow (zb_raw_data_size b) len) in
     let! _ := write_full_blocks_owned (ztake len buffer) in
     let! _ := emodify (zb_set_raw next_raw) in
     eret len) b.

Definition zb_finish : eff ZFileBuilder zfile_error unit := λ b,
  if zb_finished b then (b, Ok tt)
  else
    (let! _ := if negb (is_nil (zb_reserved b))
               then let! _ := write_buffer (zb_reserved b) in emodify (zb_set_reserved [])
               else eret tt in
     λ b, (let! _ := on_header (finish_file (ca_overwrite_header (zb_args b)) (zb_block_len b)
                                  (zb_moffset b) (zb_raw_data_size b)) in
           emodify zb_set_finished) b) b.

(** [close] *)
Definition zb_close (b : ZFileBuilder) : list Z * result zfile_error (list Z) :=
  let '(b, r) := zb_finish b in (zb_dest b, let? _ := r in Ok (zb_dest b)).

(** ** The compact writer *)
Record ZFileCompactWriter : Type := {
  zw_builder : ZFileBuilder;
  zw_next_offset : Z;
  zw_finalized : bool;
  zw_failed : bool
}.

Definition zw_with (w : ZFileCompactWriter) (b : ZFileBuilder) (next : Z) (fin failed : bool) : ZFileCompactWriter :=
  {| zw_builder := b; zw_next_offset := next; zw_finalized := fin; zw_failed := failed |}.

Definition ZFileCompactWriter_new (file : list Z) (local : bool) (args : CompressArgs)
  : list Z * result zfile_error ZFileCompactWriter :=
  let '(f, r) := ZFileBuilder_new file local args in
  (f, let? b := r in
      Ok {| zw_builder := b; zw_next_offset := 0; zw_finalized := false; zw_failed := false |}).

(** The guards and the bookkeeping around a write of [len] bytes by the builder. *)
Definition zw_guarded (op : eff ZFileBuilder zfile_error Z) (offset len : Z)
  : eff ZFileCompactWriter zfile_error unit := λ w,
  (let! _ := elift (ensure (negb (zw_finalized w)) WriterFinalized) in
   let! _ := elift (ensure (negb (zw_failed w)) WriterFailed) in
   let! _ := elift (ensure (offset =? zw_next_offset w) WrongOffset) in
   let! next_offset := elift (checked_add_or SizeOverflow offset len) in
   λ w, match op (zw_builder w) with
        | (b, Err e) => (zw_with w b (zw_next_offset w) (zw_finalized w) true, Err e)
        | (b, Ok written) =>
            if negb (written =? len)
            then (zw_with w b (zw_next_offset w) (zw_finalized w) true, Err ShortWrite)
            else (zw_with w b next_offset (zw_finalized w) false, Ok tt)
        end) w.

Definition write_slice_at (data : list Z) (offset : Z) : eff ZFileCompactWriter zfile_error unit :=
  zw_guarded (zb_write data) offset (zlen data).

Definition zw_write (buf : list Z) (offset len : Z) : eff ZFileCompactWriter zfile_error unit :=
  zw_guarded (zb_write_owned buf len) offset len.

(** The loop over [data.chunks(ZFILE_COMPACT_WRITER_BUFFER_SIZE)]; every chunk
    has at least one byte. *)
Fixpoint write_chunks (fuel : nat) (data : list Z) (offset : Z) : eff ZFileCompactWriter zfile_error unit :=
  if is_nil data then eret tt
  else match fuel with
       | O => eerr SizeOverflow
       | S fuel' =>
           let chunk := ztake ZFILE_COMPACT_WRITER_BUFFER_SIZE data in
           let! _ := write_slice_at chunk offset in
           let! offset := elift (checked_add_or SizeOverflow offset (zlen chunk)) in
           write_chunks fuel' (zdrop ZFILE_COMPACT_WRITER_BUFFER_SIZE data) offset
       end.

Definition zw_write_all_at (data : list Z) (offset : Z) : eff ZFileCompactWriter zfile_error unit :=
  if is_nil data then write_slice_at data offset else write_chunks (length data) data offset.

Definition zw_finalize : eff ZFileCompactWriter zfile_error unit := λ w,
  if zw_finalized w then (w, Ok tt)
  else
    (let! _ := elift (ensure (negb (zw_failed w)) WriterFailed) in
     λ w, match zb_finish (zw_builder w) with
          | (b, Err e) => (zw_with w b (zw_next_offset w) (zw_finalized w) true, Err e)
          | (b, Ok _) => (zw_with w b (zw_next_offset w) true false, Ok tt)
          end) w.
End Builder.

(** ** Compressing a whole file *)
Section Compress.
Context `{Codec, Crc32c, FileWriter, FileReader}.

(** [Compressor::compress_batch]; the result holds the output of each chunk. *)
Fixpoint compress_batch_loop (n : nat) (c : Compressor) (src : list Z) (lens : list Z)
    (src_offset each_dst_capacity : Z) : result zfile_error (list (list Z)) :=
  match n with
  | O => Ok []
  | S n' =>
      let chunk_len := byte_at lens 0 in
      let? e := checked_add_or SizeOverflow src_offset chunk_len in
      let? _ := ensure (e <=? zlen src) BadBatch in
      let? out := compress c (slice src_offset chunk_len src) each_dst_capacity in
      let? outs := compress_batch_loop n' c src (zdrop 1 lens) e each_dst_capacity in
      Ok (out :: outs)
  end.

Definition compress_batch (c : Compressor) (src : list Z) (lens : list Z) (dst_len n : Z)
  : result zfile_error (list (list Z)) :=
  if n =? 0 then Ok []
  else
    let? _ := ensure (n <=? zlen lens) BadBatch in
    let each_dst_capacity := dst_len / n in
    let? _ := ensure (cp_max_dst_size c <=? each_dst_capacity) BufferTooSmall in
    compress_batch_loop (Z.to_nat n) c src lens 0 each_dst_capacity.

(** Both compressors keep the default [nbatch]. *)
Definition nbatch (c : Compressor) : Z := 1.

(** The inner read loop: until [to_read] bytes are there or the source ends. *)
Fixpoint read_raw (fuel : nat) (src : list Z) (src_offset to_read : Z) (raw : list Z) : list Z :=
  if to_read <=? zlen raw then raw
  else match fuel with
       | O => raw
       | S fuel' =>
           let chunk := fr_read src (src_offset + zlen raw) (to_read - zlen raw) in
           if is_nil chunk then raw
           else read_raw fuel' src src_offset to_read (raw ++ chunk)
       end.

(** [raw_chunk_len] *)
Fixpoint raw_chunk_lens (fuel : nat) (remain block_size : Z) : list Z :=
  if remain <=? 0 then []
  else match fuel with
       | O => []
       | S fuel' =>
           let chunk := Z.min remain block_size in
           chunk :: raw_chunk_lens fuel' (remain - chunk) block_size
       end.

(** One compressed chunk: the bytes, then the checksum.  The state is the
    destination with the block lengths and the write offset. *)
Definition write_raw_chunk (verify : bool) (out : list Z) : eff (list Z * (list Z * Z)) zfile_error unit :=
  λ '(f, (block_len, moffset)),
  (let! _ := (λ s, let '(f', r) := write_all_at out moffset s.1 in ((f', s.2), r)) in
   let! written :=
     (if verify then
        let! off := elift (checked_add_or SizeOverflow moffset (zlen out)) in
        let! _ := (λ s, let '(f', r) := write_all_at (le_bytes 4 (crc32c_salt out)) off s.1 in ((f', s.2), r)) in
        eret (zlen out + 4)
      else eret (zlen out)) in
   let! len := elift (u32_or SizeOverflow written) in
   let! _ := emodify (λ s, (s.1, (s.2.1 ++ [len], s.2.2))) in
   let! moffset := elift (checked_add_or SizeOverflow moffset written) in
   emodify (λ s, (s.1, (s.2.1, moffset)))) (f, (block_len, moffset)).

Fixpoint write_raw_chunks (verify : bool) (outs : list (list Z)) : eff (list Z * (list Z * Z)) zfile_error unit :=
  match outs with
  | [] => eret tt
  | out :: outs' => let! _ := write_raw_chunk verify out in write_raw_chunks verify outs'
  end.

(** The main loop: every round takes at least one byte of the source.  It
    returns the number of bytes read. *)
Fixpoint zcompress_loop (fuel : nat) (c : Compressor) (opt : CompressOptions) (src : list Z)
    (src_offset infile_size : Z) : eff (list Z * (list Z * Z)) zfile_error Z :=
  if zlen src <=? src_offset then eret infile_size
  else match fuel with
       | O => eret infile_size
       | S fuel' =>
           let block_size := co_block_size opt in
           let to_read := Z.min (zlen src - src_offset) (block_size * nbatch c) in
           let raw := read_raw (Z.to_nat to_read) src src_offset to_read [] in
           if is_nil raw then eret infile_size
           else
             let! src_offset := elift (checked_add_or SizeOverflow src_offset (zlen raw)) in
             let! infile_size := elift (checked_add_or SizeOverflow infile_size (zlen raw)) in
             let lens := raw_chunk_lens (length raw) (zlen raw) block_size in
             let n := zlen lens in
             let! outs := elift (compress_batch c raw lens (n * (block_size + BUF_SIZE)) n) in
             let! _ := write_raw_chunks (negb (co_verify opt =? 0)) outs in
             zcompress_loop fuel' c opt src src_offset infile_size
       end.

Definition zfile_compress (src : list Z) (args : CompressArgs) : eff (list Z) zfile_error unit := λ dst,
  match create_compressor (ca_opt args) with
  | Err e => (dst, Err e)
  | Ok c =>
      let opt := ca_opt args in
      match write_header_trailer true false true false 0 (dst, set_compress_option ZHeader_new opt) with
      | ((dst, _), Err e) => (dst, Err e)
      | ((dst, ht), Ok _) =>
          match (let? _ := ensure (negb (co_block_size opt =? 0)) BadBlockSize in
                 checked_add_or SizeOverflow (co_block_size opt) BUF_SIZE) with
          | Err e => (dst, Err e)
          | Ok _ =>
              match zcompress_loop (length src) c opt src 0 0
                      (dst, ([], HEADER_TRAILER_SPACE + co_dict_size opt)) with
              | ((dst, _), Err e) => (dst, Err e)
              | ((dst, (block_len, moffset)), Ok infile_size) =>
                  let '((dst, _), r) :=
                    finish_file (ca_overwrite_header args) block_len moffset infile_size (dst, ht) in
                  (dst, r)
              end
          end
      end
  end.
End Compress.
