(* ===== verification/ZImage.v ===== *)
(** * The bytes of a compressed file

    The reference image of a zfile, written down from the encoded blocks, and
    the proofs that [ZFileBuilder] and [zfile_compress] write it whatever the
    sizes of the writes, the number of workers, the order in which they finish
    and the short writes of the destination. *)

From S2P Require Import Prelude LsmtIo ZFormat ZBuild.

Open Scope result_scope.

(** ** What the codecs promise *)

Definition LZ4_MAX_INPUT_SIZE : Z := 0x7E000000.

(** From the documentation of the two libraries: the bound of the output, that
    a destination of that size is enough, that the output decompresses to the
    input, and that no output is longer than its destination. *)
Class CodecSpec `{Codec} : Prop := {
  lz4_bound : ∀ n, 0 ≤ n ≤ LZ4_MAX_INPUT_SIZE → LZ4_compressBound n = n + n / 255 + 16;
  lz4_ok : ∀ src cap, 0 < zlen src ≤ LZ4_MAX_INPUT_SIZE → LZ4_compressBound (zlen src) ≤ cap →
    ∃ out, LZ4_compress_default src cap = Some out ∧ 0 < zlen out ≤ LZ4_compressBound (zlen src)
      ∧ ∀ cap', zlen src ≤ cap' → LZ4_decompress_safe out cap' = Some src;
  lz4_fits : ∀ src cap out, LZ4_decompress_safe src cap = Some out → zlen out ≤ cap;
  zstd_ok : ∀ level src cap, 0 < zlen src → zstd_compress_bound (zlen src) ≤ cap →
    ∃ out, zstd_compress_to_buffer level src cap = Some out ∧ 0 < zlen out ≤ zstd_compress_bound (zlen src)
      ∧ ∀ cap', zlen src ≤ cap' → zstd_decompress_to_buffer out cap' = Some src;
  zstd_fits : ∀ src cap out, zstd_decompress_to_buffer src cap = Some out → zlen out ≤ cap
}.

(** The options the service uses: one of the two algorithms, a block size that
    the reader accepts. *)
Definition good_options (o : CompressOptions) : Prop :=
  (co_algo o = LZ4 ∨ co_algo o = ZSTD) ∧ 4096 ≤ co_block_size o ≤ MAX_READ_SIZE ∧ wf_options o.

Lemma zstd_bound_le n : 0 < n ≤ 65536 → n ≤ zstd_compress_bound n ≤ n + n / 256 + 64.
Proof.
  intros Hn. unfold zstd_compress_bound. change (Z.shiftl 128 10) with 131072.
  rewrite !Z.shiftr_div_pow2 by lia. change (2 ^ 8) with 256. change (2 ^ 11) with 2048. zcases; dlia.
Qed.

Lemma zstd_bound_mono n m : 0 < n ≤ m → m ≤ 65536 → zstd_compress_bound n ≤ zstd_compress_bound m.
Proof.
  intros Hn Hm. unfold zstd_compress_bound. change (Z.shiftl 128 10) with 131072.
  rewrite !Z.shiftr_div_pow2 by lia. change (2 ^ 8) with 256. change (2 ^ 11) with 2048. zcases; dlia.
Qed.

Lemma as_i32_small n : 0 ≤ n < 2 ^ 31 → as_i32 n = n.
Proof. intros Hn. unfold as_i32. rewrite Z.mod_small; lia. Qed.

Section Compressors.
Context `{CodecSpec, Crc32cSpec}.

(** [body] decompresses to [src] into any buffer of a block or more. *)
Definition encodes_body (c : Compressor) (src body : list Z) : Prop :=
  0 < zlen body ∧ ∀ dlen, cp_src_block_size c ≤ dlen < 2 ^ 31 → decompress c body dlen = Ok src.

Definition crc_trailer (gen_crc : bool) (body : list Z) : list Z :=
  if gen_crc then le_bytes 4 (crc32c_salt body) else [].

(** [out] is an encoded block for [src], with its checksum if there is one. *)
Definition encodes (c : Compressor) (gen_crc : bool) (src out : list Z) : Prop :=
  ∃ body, out = body ++ crc_trailer gen_crc body ∧ encodes_body c src body
    ∧ zlen out ≤ cp_max_dst_size c + (if gen_crc then 4 else 0).

(** A compressor for good options. *)
Record good_compressor (c : Compressor) (o : CompressOptions) : Prop := {
  gc_block : cp_src_block_size c = co_block_size o;
  gc_max : co_block_size o ≤ cp_max_dst_size c ≤ co_block_size o + co_block_size o / 255 + 64;
  gc_compress : ∀ src cap, 0 < zlen src ≤ co_block_size o → cp_max_dst_size c ≤ cap < 2 ^ 31 →
    ∃ body, compress c src cap = Ok body ∧ zlen body ≤ cp_max_dst_size c ∧ encodes_body c src body;
  gc_decompress : ∀ src cap out, 0 ≤ cap < 2 ^ 31 → decompress c src cap = Ok out → zlen out ≤ cap
}.

Lemma create_lz4 o : co_algo o = LZ4 → 0 < co_block_size o ≤ 65536 →
  create_compressor o = Ok {| cp_kind := Lz4Compressor;
    cp_max_dst_size := LZ4_compressBound (co_block_size o); cp_src_block_size := co_block_size o |}
  ∧ LZ4_compressBound (co_block_size o) = co_block_size o + co_block_size o / 255 + 16.
Proof.
  intros Ha Hb. assert (LZ4_compressBound (co_block_size o) = co_block_size o + co_block_size o / 255 + 16) as Hl.
  { apply lz4_bound. unfold LZ4_MAX_INPUT_SIZE. lia. }
  split; [|done]. unfold create_compressor, Lz4Compressor_new, lz4_compress_bound, ensure, I32_MAX.
  rewrite Ha, Hl. cbn [LZ4 Z.eqb Pos.eqb rbind]. bcases. all: cbn [rbind negb]; try done; dlia.
Qed.

Lemma create_zstd o : co_algo o = ZSTD → 0 < co_block_size o →
  create_compressor o = Ok {| cp_kind := ZstdCompressor;
    cp_max_dst_size := zstd_compress_bound (co_block_size o); cp_src_block_size := co_block_size o |}.
Proof.
  intros Ha Hb. unfold create_compressor, ZstdCompressor_new, ensure. rewrite Ha.
  cbn [ZSTD LZ4 Z.eqb Pos.eqb rbind]. by destruct (Z.eqb_spec (co_block_size o) 0); [lia|].
Qed.

Lemma good_lz4 o : 0 < co_block_size o ≤ 65536 →
  LZ4_compressBound (co_block_size o) = co_block_size o + co_block_size o / 255 + 16 →
  good_compressor {| cp_kind := Lz4Compressor;
    cp_max_dst_size := LZ4_compressBound (co_block_size o); cp_src_block_size := co_block_size o |} o.
Proof.
  intros Hb Hl. set (B := co_block_size o) in *. constructor; cbn [cp_src_block_size cp_max_dst_size]; [done|fold B; dlia|..].
  - fold B. intros src cap Hs Hc. unfold compress, ensure. cbn [cp_max_dst_size cp_kind].
    destruct (Z.leb_spec (LZ4_compressBound B) cap); [|lia]. cbn [rbind]. rewrite as_i32_small by dlia.
    assert (LZ4_compressBound (zlen src) = zlen src + zlen src / 255 + 16) as Hls.
    { apply lz4_bound. unfold LZ4_MAX_INPUT_SIZE. lia. }
    destruct (lz4_ok src cap) as (out & Ho & Hlen & Hdec); [unfold LZ4_MAX_INPUT_SIZE; lia|dlia|].
    rewrite Ho. destruct (Z.ltb_spec 0 (zlen out)); [|lia]. cbn [rbind]. exists out.
    split; [done|]. split; [dlia|]. split; [lia|]. cbn [cp_src_block_size]. intros dlen Hd.
    unfold decompress, ensure. cbn [cp_kind]. rewrite as_i32_small, Hdec by lia.
    destruct (Z.ltb_spec 0 (zlen src)); [done|lia].
  - intros src cap out Hcap. unfold decompress, ensure. cbn [cp_kind]. rewrite as_i32_small by lia.
    destruct (LZ4_decompress_safe src cap) as [o'|] eqn:E; [|done].
    destruct (0 <? zlen o'); [|done]. cbn [rbind]. intros [= <-]. by eapply lz4_fits.
Qed.

Lemma good_zstd o : 0 < co_block_size o ≤ 65536 →
  good_compressor {| cp_kind := ZstdCompressor;
    cp_max_dst_size := zstd_compress_bound (co_block_size o); cp_src_block_size := co_block_size o |} o.
Proof.
  intros Hb. set (B := co_block_size o) in *. pose proof (zstd_bound_le B Hb).
  constructor; cbn [cp_src_block_size cp_max_dst_size]; [done|fold B; dlia|..].
  - fold B. intros src cap Hs Hc. unfold compress, ensure. cbn [cp_max_dst_size cp_kind].
    destruct (Z.leb_spec (zstd_compress_bound B) cap); [|lia]. cbn [rbind].
    pose proof (zstd_bound_mono (zlen src) B ltac:(lia) ltac:(lia)).
    destruct (zstd_ok ZSTD_C_LEVEL src cap) as (out & Ho & Hlen & Hdec); [lia|lia|].
    rewrite Ho. destruct (Z.eqb_spec (zlen out) 0); [lia|]. cbn [rbind negb]. exists out.
    split; [done|]. split; [lia|]. split; [lia|]. cbn [cp_src_block_size]. intros dlen Hd.
    unfold decompress, ensure. cbn [cp_kind cp_src_block_size].
    destruct (Z.leb_spec B dlen); [|lia]. cbn [rbind]. rewrite Hdec by lia.
    destruct (Z.eqb_spec (zlen src) 0); [lia|]. cbn [rbind negb].
    destruct (Z.leb_spec (zlen src) B); [done|lia].
  - intros src cap out Hcap. unfold decompress, ensure. cbn [cp_kind cp_src_block_size].
    destruct (_ <=? cap); [|done]. cbn [rbind].
    destruct (zstd_decompress_to_buffer src cap) as [o'|] eqn:E; [|done].
    destruct (negb _); [|done]. cbn [rbind]. destruct (_ <=? _); [|done]. cbn [rbind].
    intros [= <-]. by eapply zstd_fits.
Qed.

Lemma create_compressor_good o : good_options o → ∃ c, create_compressor o = Ok c ∧ good_compressor c o.
Proof.
  intros ([Ha|Ha] & Hb & _); unfold MAX_READ_SIZE in Hb.
  - destruct (create_lz4 o Ha ltac:(lia)) as [-> Hl]. eexists. split; [done|]. apply good_lz4; [lia|done].
  - rewrite create_zstd by lia || done. eexists. split; [done|]. apply good_zstd. lia.
Qed.

Lemma zlen_crc_trailer g body : zlen (crc_trailer g body) = if g then 4 else 0.
Proof. by destruct g. Qed.

Lemma compress_data_body c (g : bool) src cap body : compress c src cap = Ok body → 0 < zlen body →
  zlen body + (if g then 4 else 0) ≤ cap < 2 ^ 31 →
  compress_data c src cap g = Ok (body ++ crc_trailer g body).
Proof.
  intros Hc Hpos Hcap. unfold compress_data. rewrite Hc. cbn [rbind]. unfold ensure.
  destruct (Z.eqb_spec (zlen body) 0); [lia|]. cbn [negb rbind].
  destruct g; [|by rewrite app_nil_r]. unfold checked_add_or, checked_add64, U64_MAX.
  destruct (Z.leb_spec (zlen body + 4) (2 ^ 64 - 1)); [|lia]. cbn [rbind].
  destruct (Z.leb_spec (zlen body + 4) cap); [done|lia].
Qed.

Lemma compress_data_ok c o (g : bool) src cap : good_compressor c o →
  0 < zlen src ≤ co_block_size o → cp_max_dst_size c + (if g then 4 else 0) ≤ cap < 2 ^ 31 →
  ∃ body, compress c src cap = Ok body ∧ compress_data c src cap g = Ok (body ++ crc_trailer g body)
    ∧ encodes c g src (body ++ crc_trailer g body).
Proof.
  intros [Hbs Hmx Hcp _] Hs Hcap. destruct (Hcp src cap) as (body & Hc & Hl & He); [done|destruct g; lia|].
  pose proof He as [Hpos _]. exists body. split; [done|]. split.
  - apply compress_data_body; [done|done|]. destruct g; lia.
  - exists body. rewrite zlen_app, zlen_crc_trailer. split_and!; [done|done|]. destruct g; lia.
Qed.
End Compressors.

(** ** Writing *)

(** Writing at or past the end of the file. *)
Lemma file_write_past f off data : zlen f ≤ off →
  file_write f off data = if is_nil data then f else f ++ zeros (off - zlen f) ++ data.
Proof.
  intros Ho. unfold file_write. destruct data as [|b data]; [done|]. cbn [is_nil].
  pose proof (zlen_nonneg f). pose proof (zlen_nonneg (b :: data)).
  rewrite ztake_all by (rewrite zlen_app, zlen_zeros; lia).
  assert (zdrop (off + zlen (b :: data)) f = []) as -> by (apply zlen_0; rewrite zlen_zdrop; lia).
  by rewrite app_nil_r, app_assoc.
Qed.

Section Write.
Context `{FileWriterSpec}.

Lemma write_all_loop_ok fuel : ∀ buf off f, (length buf ≤ fuel)%nat → 0 ≤ off → off + zlen buf ≤ U64_MAX →
  write_all_loop fuel buf off f = (file_write f off buf, Ok tt).
Proof.
  induction fuel as [|fuel IH]; intros [|x buf'] off f Hf Ho Hu; cbn [write_all_loop]; try done; [simpl in Hf; lia|].
  set (buf := x :: buf') in *. destruct (fw_progress f off buf) as [Hn1 Hn2]; [done|].
  set (n := fw_count f off buf) in *. unfold ebind, elift, emodify, ensure, checked_add_or, checked_add64.
  destruct (Z.eqb_spec n 0); [lia|]. cbn [negb].
  destruct (Z.leb_spec (off + n) U64_MAX); [|lia].
  assert (zlen (ztake n buf) = n) as Hl by (rewrite zlen_ztake; lia).
  rewrite IH.
  - f_equal. rewrite <- Hl at 2. rewrite file_write_app by done. by rewrite ztake_zdrop.
  - unfold zdrop. rewrite length_drop. simpl in Hf. simpl length. lia.
  - lia.
  - rewrite zlen_zdrop by lia. lia.
Qed.

Lemma write_all_at_ok buf off f : 0 ≤ off → off + zlen buf ≤ U64_MAX →
  write_all_at buf off f = (file_write f off buf, Ok tt).
Proof. intros. by apply write_all_loop_ok. Qed.
End Write.

(** ** Headers *)
Section Headers.
Context `{Crc32cSpec}.

(** The header that [stamp_header] computes. *)
Definition stamped (is_header is_sealed is_data_file overwrite_header : bool) (ht : ZHeader) : ZHeader :=
  let ht := if is_header then set_flag_bit FLAG_HEADER ht else clr_flag_bit FLAG_HEADER ht in
  let ht := if is_sealed then set_flag_bit FLAG_SEALED ht else clr_flag_bit FLAG_SEALED ht in
  let ht := if is_data_file then set_flag_bit FLAG_TYPE ht else clr_flag_bit FLAG_TYPE ht in
  let ht := if overwrite_header then set_flag_bit FLAG_HEADER_OVERWRITE ht else ht in
  let ht := set_flag_bit FLAG_CALC_DIGEST ht in
  with_digest ht (crc32c (zheader_layout (with_digest ht 0))).

Lemma stamped_magic1 i s d o ht : zh_magic1 (stamped i s d o ht) = zh_magic1 ht.
Proof. by destruct i, s, d, o. Qed.

Lemma stamp_header_ok i s d o ht : zlen (zh_magic1 ht) = 16 →
  stamp_header i s d o ht = Ok (stamped i s d o ht, zheader_layout (stamped i s d o ht)).
Proof.
  intros Hm. rewrite <- (stamped_magic1 i s d o) in Hm. unfold stamp_header, stamped in *.
  set (h := set_flag_bit FLAG_CALC_DIGEST _) in *.
  change (zh_magic1 (with_digest h _)) with (zh_magic1 h) in Hm.
  rewrite encode_512_layout by done. cbn [rbind]. rewrite put_digest_0 by done.
  unfold write_u32_le. rewrite put_digest by done. done.
Qed.

Lemma stamped_valid i s d o ht : zlen (zh_magic1 ht) = 16 →
  zh_is_valid (stamped i s d o ht) (zheader_layout (stamped i s d o ht)) = true.
Proof.
  intros Hm. unfold zh_is_valid. destruct (negb _); [done|].
  rewrite put_digest_0 by (by rewrite stamped_magic1). apply Z.eqb_refl.
Qed.

Lemma wf_stamped i s d o ht : wf_zheader (with_digest ht 0) → 0 ≤ zh_flags (stamped i s d o ht) < 2 ^ 64 →
  wf_zheader (stamped i s d o ht).
Proof.
  intros [] Hf. assert (0 ≤ zh_digest (stamped i s d o ht) < 2 ^ 32) as Hd by apply crc32c_range.
  destruct i, s, d, o; constructor; done.
Qed.

(** The headers of a file. *)
Definition first_header (opt : CompressOptions) : ZHeader :=
  stamped true false true false (set_compress_option ZHeader_new opt).

Definition closing_trailer (opt : CompressOptions) (lens : list Z) (index_offset raw : Z) : ZHeader :=
  stamped false true true false
    (with_index (first_header opt) (jump_index_bytes lens) index_offset (zlen lens) raw).

Definition final_header (opt : CompressOptions) (ow : bool) (lens : list Z) (index_offset raw : Z) : ZHeader :=
  if ow then stamped true false true true (closing_trailer opt lens index_offset raw) else first_header opt.

(** The whole file. *)
Definition data_start (opt : CompressOptions) : Z := HEADER_TRAILER_SPACE + co_dict_size opt.

Definition blocks_end (opt : CompressOptions) (encs : list (list Z)) : Z :=
  data_start opt + zsum (zlen <$> encs).

Definition zfile_image (opt : CompressOptions) (ow : bool) (encs : list (list Z)) (raw : Z) : list Z :=
  let lens := zlen <$> encs in
  zheader_layout (final_header opt ow lens (blocks_end opt encs) raw)
  ++ zeros (co_dict_size opt) ++ concat encs ++ jump_index_bytes lens
  ++ zheader_layout (closing_trailer opt lens (blocks_end opt encs) raw).

Lemma zlen_concat (ll : list (list Z)) : zlen (concat ll) = zsum (zlen <$> ll).
Proof. induction ll as [|l ll IH]; [done|]. rewrite fmap_cons, zsum_cons. cbn [concat]. by rewrite zlen_app, IH. Qed.

Lemma zlen_jump_index_bytes lens : zlen (jump_index_bytes lens) = 4 * zlen lens.
Proof.
  unfold jump_index_bytes. rewrite zlen_concat. induction lens as [|l lens IH]; [done|].
  rewrite !fmap_cons, zsum_cons, IH, zlen_cons, zlen_le_bytes. lia.
Qed.
End Headers.

(** ** Files under construction *)
Section Layout.
Context `{Crc32cSpec, FileWriterSpec}.

(** The file has the header and the encoded blocks; zeros that no write has
    reached yet may be missing at its end. *)
Definition file_holds (f : list Z) (opt : CompressOptions) (encs : list (list Z)) : Prop :=
  zlen f ≤ blocks_end opt encs
  ∧ f ++ zeros (blocks_end opt encs - zlen f)
    = zheader_layout (first_header opt) ++ zeros (co_dict_size opt) ++ concat encs.

Lemma blocks_end_app opt e1 e2 : blocks_end opt (e1 ++ e2) = blocks_end opt e1 + zlen (concat e2).
Proof. unfold blocks_end. rewrite fmap_app, zsum_app, zlen_concat. lia. Qed.

Lemma file_holds_append f opt encs es : file_holds f opt encs →
  file_holds (file_write f (blocks_end opt encs) (concat es)) opt (encs ++ es).
Proof.
  intros [Hl Hf]. pose proof (zlen_nonneg (concat es)). unfold file_holds.
  rewrite blocks_end_app, concat_app, file_write_past by done.
  destruct (concat es) as [|x r] eqn:E; cbn [is_nil].
  - rewrite app_nil_r, zlen_nil, Z.add_0_r. done.
  - rewrite <- E in *. rewrite !zlen_app, zlen_zeros. split; [lia|].
    replace (blocks_end opt encs + zlen (concat es) - (zlen f + (Z.max 0 (blocks_end opt encs - zlen f) + zlen (concat es))))
      with 0 by lia. change (zeros 0) with (@nil Z). rewrite app_nil_r, app_assoc, Hf.
    by rewrite <- !app_assoc.
Qed.

(** What a write at the end of the blocks makes of the file. *)
Lemma file_holds_write f opt encs data : file_holds f opt encs → data ≠ [] →
  file_write f (blocks_end opt encs) data
  = zheader_layout (first_header opt) ++ zeros (co_dict_size opt) ++ concat encs ++ data.
Proof.
  intros [Hl Hf] Hd. rewrite file_write_past by done. destruct data as [|x r]; [done|]. cbn [is_nil].
  rewrite app_assoc, Hf. by rewrite <- !app_assoc.
Qed.

Lemma blocks_end_start opt encs : 0 ≤ co_dict_size opt → HEADER_TRAILER_SPACE ≤ blocks_end opt encs.
Proof.
  intros Hd. unfold blocks_end, data_start. rewrite <- zlen_concat. pose proof (zlen_nonneg (concat encs)). lia.
Qed.

Lemma write_header_ok i s d o off f ht : zlen (zh_magic1 ht) = 16 → 0 ≤ off → off + 512 ≤ U64_MAX →
  write_header_trailer i s d o off (f, ht)
  = ((file_write f off (zheader_layout (stamped i s d o ht)), stamped i s d o ht), Ok tt).
Proof.
  intros Hm Ho Hu. unfold write_header_trailer. rewrite stamp_header_ok by done.
  rewrite write_all_at_ok; [done|done|]. rewrite zlen_header_layout by (by rewrite stamped_magic1). done.
Qed.

Lemma file_write_front f a b : zlen a = zlen b → a ≠ [] → file_write (a ++ f) 0 b = b ++ f.
Proof.
  intros Hl Ha. unfold file_write. destruct b as [|x b]; [apply zlen_0 in Hl; done|]. cbn [is_nil].
  change (ztake 0 _) with (@nil Z). cbn [app]. rewrite zdrop_app_skip by lia. rewrite Hl, zdrop_0 by lia. done.
Qed.

Lemma header_layout_nonempty h : zlen (zh_magic1 h) = 16 → zheader_layout h ≠ [].
Proof. intros Hm E. pose proof (zlen_header_layout h Hm) as Hl. rewrite E in Hl. done. Qed.

(** A new file with its first header. *)
Lemma file_holds_start opt : 0 ≤ co_dict_size opt →
  file_holds (file_write [] 0 (zheader_layout (first_header opt))) opt [].
Proof.
  intros Hd. rewrite (file_write_end [] (zheader_layout (first_header opt))). cbn [app].
  unfold file_holds, blocks_end, data_start, HEADER_TRAILER_SPACE. rewrite zlen_header_layout by done.
  cbn [fmap list_fmap concat]. change (zsum []) with 0. split; [lia|]. rewrite app_nil_r. do 2 f_equal. lia.
Qed.

Lemma finish_file_ok f opt encs ow raw : file_holds f opt encs → 0 ≤ co_dict_size opt →
  blocks_end opt encs + 4 * zlen encs + 512 ≤ U64_MAX →
  ∃ h', finish_file ow (zlen <$> encs) (blocks_end opt encs) raw (f, first_header opt)
        = ((zfile_image opt ow encs raw, h'), Ok tt).
Proof.
  intros Hf Hd Hu. pose proof (blocks_end_start opt encs Hd) as Hbe. unfold HEADER_TRAILER_SPACE in Hbe.
  pose proof (zlen_nonneg encs). set (lens := zlen <$> encs). set (off := blocks_end opt encs) in *.
  assert (zlen (jump_index_bytes lens) = 4 * zlen encs) as Hi by (rewrite zlen_jump_index_bytes; unfold lens; by rewrite zlen_fmap).
  unfold finish_file. unfold ebind at 1. rewrite write_all_at_ok by lia. unfold ebind at 1, emodify.
  unfold ebind at 1, elift, checked_add_or, checked_add64. rewrite Hi.
  destruct (Z.leb_spec (off + 4 * zlen encs) U64_MAX); [|lia].
  unfold ebind at 1. rewrite write_header_ok by done || lia.
  change (stamped false true true false (with_index _ _ _ _ _)) with (closing_trailer opt lens off raw).
  rewrite <- Hi, file_write_app by lia.
  assert (zlen (zh_magic1 (closing_trailer opt lens off raw)) = 16) as Hm by done.
  pose proof (file_holds_write f opt encs (jump_index_bytes lens ++ zheader_layout (closing_trailer opt lens off raw)) Hf)
    as Hw. fold off in Hw. rewrite Hw by (intros [_ E]%app_nil; by apply header_layout_nonempty in E).
  unfold zfile_image. fold lens off. destruct ow; [|by eexists].
  rewrite write_header_ok by done || lia.
  rewrite file_write_front; [by eexists| |by apply header_layout_nonempty].
  rewrite zlen_header_layout by done. symmetry. apply zlen_header_layout. reflexivity.
Qed.
End Layout.

(** ** Blocks of the source *)

(** The first [n] blocks of [l]. *)
Fixpoint chunks_n (n : nat) (B : Z) (l : list Z) : list (list Z) :=
  match n with
  | O => []
  | S n' => ztake B l :: chunks_n n' B (zdrop B l)
  end.

Lemma length_chunks_n n B : ∀ l, length (chunks_n n B l) = n.
Proof. induction n as [|n IH]; intros l; simpl; [done|]. by rewrite IH. Qed.

Lemma zdrop_zdrop {A} a b (l : list A) : 0 ≤ a → 0 ≤ b → zdrop a (zdrop b l) = zdrop (b + a) l.
Proof. intros. unfold zdrop. rewrite drop_drop. f_equal. lia. Qed.

Lemma chunks_n_app B n m : ∀ l, 0 ≤ B →
  chunks_n (n + m) B l = chunks_n n B l ++ chunks_n m B (zdrop (Z.of_nat n * B) l).
Proof.
  induction n as [|n IH]; intros l HB; simpl; [by rewrite zdrop_0 by lia|].
  rewrite IH, zdrop_zdrop by nia. do 4 f_equal. lia.
Qed.

(** Blocks lie in the prefix they cover. *)
Lemma chunks_n_prefix B n : ∀ l1 l2, 0 ≤ B → Z.of_nat n * B ≤ zlen l1 → chunks_n n B (l1 ++ l2) = chunks_n n B l1.
Proof.
  induction n as [|n IH]; intros l1 l2 HB Hl; [done|]. simpl. f_equal.
  - unfold ztake, zlen in *. rewrite take_app_le by lia. done.
  - rewrite <- (IH (zdrop B l1) l2) by (try rewrite zlen_zdrop; lia). f_equal.
    unfold zdrop, zlen in *. rewrite drop_app_le by lia. done.
Qed.

Lemma chunks_n_length B n : ∀ l x, 0 ≤ B → Z.of_nat n * B ≤ zlen l → x ∈ chunks_n n B l → zlen x = B.
Proof.
  induction n as [|n IH]; intros l x HB Hl; simpl; [by intros ?%not_elem_of_nil|].
  rewrite elem_of_cons. intros [->|Hx]; [rewrite zlen_ztake; lia|].
  eapply IH; [done| |done]. rewrite zlen_zdrop; lia.
Qed.

Lemma chunks_n_lookup B n : ∀ l i, 0 ≤ B → (i < n)%nat → chunks_n n B l !! i = Some (slice (Z.of_nat i * B) B l).
Proof.
  induction n as [|n IH]; intros l [|i] HB Hi; try lia; simpl.
  - unfold slice. by rewrite zdrop_0 by lia.
  - rewrite IH by lia. unfold slice. rewrite zdrop_zdrop by lia. do 3 f_equal. lia.
Qed.

(** An encoded block is at most twice as long as a block. *)
Abbreviation small_enc B := (λ e : list Z, 0 < zlen e ≤ 2 * B).

Section Segments.
Context `{CodecSpec, Crc32cSpec}.
Context (c : Compressor) (o : CompressOptions) (g : bool).
Context (Hgc : good_compressor c o) (Hbs : 4096 ≤ co_block_size o ≤ 65536).

(** Room for one encoded block. *)
Definition block_room : Z := cp_max_dst_size c + (if g then 4 else 0).

Definition encode_with (cap : Z) (src : list Z) : list Z :=
  match compress_data c src cap g with Ok out => out | Err _ => [] end.

(** Full blocks are compressed into slots of [block_room] bytes, the last one
    into the builder's scratch buffer. *)
Definition encode_full : list Z → list Z := encode_with block_room.
Definition encode_last : list Z → list Z := encode_with (co_block_size o + BUF_SIZE).

Lemma block_room_bound : co_block_size o ≤ block_room ≤ co_block_size o + BUF_SIZE
  ∧ block_room ≤ 2 * co_block_size o.
Proof. destruct Hgc as [_ Hm _ _]. unfold block_room, BUF_SIZE. destruct g; dlia. Qed.

Lemma encode_with_ok cap src : 0 < zlen src ≤ co_block_size o → block_room ≤ cap < 2 ^ 31 →
  compress_data c src cap g = Ok (encode_with cap src) ∧ encodes c g src (encode_with cap src).
Proof.
  intros Hs Hcap. destruct (compress_data_ok c o g src cap Hgc Hs Hcap) as (body & _ & Ho & He).
  unfold encode_with. by rewrite Ho.
Qed.

Lemma encode_full_ok src : zlen src = co_block_size o →
  compress_data c src block_room g = Ok (encode_full src) ∧ encodes c g src (encode_full src).
Proof. intros Hs. pose proof block_room_bound. apply encode_with_ok; lia. Qed.

Lemma encode_last_ok src : 0 < zlen src ≤ co_block_size o →
  compress_data c src (co_block_size o + BUF_SIZE) g = Ok (encode_last src) ∧ encodes c g src (encode_last src).
Proof. intros Hs. pose proof block_room_bound. apply encode_with_ok; unfold BUF_SIZE in *; lia. Qed.

Lemma encodes_length src out : encodes c g src out → (if g then 4 else 0) < zlen out ≤ block_room.
Proof.
  intros (body & -> & [Hb _] & Hl). unfold block_room. rewrite zlen_app, zlen_crc_trailer in *. destruct g; lia.
Qed.

Lemma encodes_small src out : encodes c g src out → 0 < zlen out ≤ 2 * co_block_size o.
Proof. intros He. pose proof (encodes_length _ _ He). pose proof block_room_bound. destruct g; lia. Qed.

Lemma compress_blocks_ok n : ∀ source seg, Z.of_nat n * co_block_size o ≤ zlen source →
  zlen (cs_bytes seg) + Z.of_nat n * (2 * co_block_size o) ≤ U64_MAX →
  let es := encode_full <$> chunks_n n (co_block_size o) source in
  compress_blocks n c source (co_block_size o) block_room g seg
  = Ok {| cs_bytes := cs_bytes seg ++ concat es; cs_block_lengths := cs_block_lengths seg ++ (zlen <$> es) |}.
Proof.
  induction n as [|n IH]; intros source [by_ ls] Hl Hu; cbn [compress_blocks cs_bytes cs_block_lengths] in *.
  { cbn. by rewrite !app_nil_r. }
  assert (zlen (ztake (co_block_size o) source) = co_block_size o) as Hz by (rewrite zlen_ztake; lia).
  destruct (encode_full_ok (ztake (co_block_size o) source)) as [-> He]; [lia|].
  pose proof (encodes_small _ _ He). pose proof block_room_bound.
  unfold checked_add_or, checked_add64, u32_or, U32_MAX. destruct (Z.leb_spec (zlen by_ + block_room) U64_MAX); [|lia].
  cbn [rbind]. destruct (Z.leb_spec (zlen (encode_full (ztake (co_block_size o) source))) (2 ^ 32 - 1)); [|lia].
  cbn [rbind]. rewrite IH; cbn [cs_bytes cs_block_lengths].
  - cbn [chunks_n]. rewrite !fmap_cons. cbn [concat]. by rewrite <- !app_assoc.
  - rewrite zlen_zdrop by lia. lia.
  - rewrite zlen_app. lia.
Qed.

Lemma compress_segment_ok source n : zlen source = Z.of_nat n * co_block_size o →
  Z.of_nat n * co_block_size o ≤ 2 ^ 62 →
  let es := encode_full <$> chunks_n n (co_block_size o) source in
  compress_segment c source (co_block_size o) block_room g
  = Ok {| cs_bytes := concat es; cs_block_lengths := zlen <$> es |}.
Proof.
  intros Hl Hn. unfold compress_segment, is_multiple_of, ensure, checked_mul_or. rewrite Hl.
  rewrite Z.mod_mul, Z.div_mul by lia. pose proof block_room_bound.
  destruct (Z.eqb_spec (co_block_size o) 0); [lia|]. cbn [negb rbind Z.eqb].
  destruct (Z.leb_spec (Z.of_nat n * block_room) U64_MAX); [|unfold U64_MAX in *; nia]. cbn [rbind].
  rewrite Nat2Z.id, compress_blocks_ok; cbn [cs_bytes cs_block_lengths]; [done|lia|]. unfold U64_MAX. rewrite zlen_nil. lia.
Qed.

Lemma max_block_ok : max_compressed_block_size c g = Ok block_room.
Proof.
  pose proof block_room_bound. unfold max_compressed_block_size, checked_add_or, checked_add64.
  fold block_room. destruct (Z.leb_spec block_room U64_MAX); [done|unfold U64_MAX in *; lia].
Qed.
End Segments.

(** ** The builder *)

Definition gen_crc_of (args : CompressArgs) : bool := negb (co_verify (ca_opt args) =? 0).

(** A builder that has committed the blocks [encs]. *)
Record zb_holds `{Crc32c} (args : CompressArgs) (c : Compressor) (encs : list (list Z)) (b : ZFileBuilder) : Prop := {
  zk_args : zb_args b = args;
  zk_compressor : zb_compressor b = c;
  zk_file : file_holds (zb_dest b) (ca_opt args) encs;
  zk_pool : ∀ k, zb_pool b = Some k → 1 ≤ k;
  zk_lens : zb_block_len b = zlen <$> encs;
  zk_moffset : zb_moffset b = blocks_end (ca_opt args) encs;
  zk_ht : zb_ht b = first_header (ca_opt args);
  zk_open : zb_finished b = false
}.

(** What the block operations leave alone. *)
Definition zb_kept (b b' : ZFileBuilder) : Prop :=
  zb_reserved b' = zb_reserved b ∧ zb_raw_data_size b' = zb_raw_data_size b.

#[export] Instance zb_kept_preorder : PreOrder zb_kept.
Proof. split; [done|]. intros b1 b2 b3 [H1 H2] [H3 H4]. split; congruence. Qed.

(** Encoded blocks small enough for every offset to stay in range. *)
Definition small_blocks (B : Z) (encs : list (list Z)) : Prop :=
  Forall (small_enc B) encs ∧ zlen encs * B ≤ 2 ^ 62.

Lemma small_blocks_sum B encs : small_blocks B encs → 0 ≤ zsum (zlen <$> encs) ≤ 2 ^ 63.
Proof.
  intros [Hf Hl]. destruct (zsum_bound (2 * B) (zlen <$> encs)) as [H1 H2].
  - apply Forall_fmap. eapply Forall_impl; [exact Hf|]. simpl. intros; lia.
  - rewrite zlen_fmap in H2. lia.
Qed.

Lemma small_blocks_end B opt encs : small_blocks B encs → 4096 ≤ B → 0 ≤ co_dict_size opt < 2 ^ 32 →
  0 ≤ blocks_end opt encs ∧ blocks_end opt encs + 4 * zlen encs + 512 ≤ U64_MAX.
Proof.
  intros Hs HB Hd. pose proof (small_blocks_sum _ _ Hs). destruct Hs as [_ Hl]. pose proof (zlen_nonneg encs).
  assert (zlen encs ≤ 2 ^ 50) by nia.
  unfold blocks_end, data_start, HEADER_TRAILER_SPACE, U64_MAX. lia.
Qed.

Lemma encoded_size_ok lens : ∀ acc, Forall (λ l, 0 < l) lens → acc + zsum lens ≤ U64_MAX →
  encoded_size lens acc = Ok (acc + zsum lens).
Proof.
  induction lens as [|l lens IH]; intros acc Hf Hu; cbn [encoded_size]; [by rewrite Z.add_0_r|].
  rewrite zsum_cons in *. apply Forall_cons in Hf as [Hl Hf].
  assert (0 ≤ zsum lens) by (clear -Hf; induction Hf; [done|]; rewrite zsum_cons; lia).
  unfold ensure, checked_add_or, checked_add64. destruct (Z.eqb_spec l 0); [lia|]. cbn [negb rbind].
  destruct (Z.leb_spec (acc + l) U64_MAX); [|lia]. cbn [rbind]. rewrite IH by (done || lia). f_equal. lia.
Qed.

(** ** Collecting the results of the workers *)

Section BTree.
Context {V : Type}.
Implicit Types m : list (Z * V).

Definition key_lt (p q : Z * V) : Prop := p.1 < q.1.

Lemma btree_insert_perm k v m : k ∉ m.*1 → btree_insert k v m ≡ₚ (k, v) :: m.
Proof.
  induction m as [|[k' v'] m IH]; intros Hk; cbn [btree_insert]; [done|].
  rewrite fmap_cons, not_elem_of_cons in Hk. destruct Hk as [Hne Hk]. cbn [fst] in Hne.
  destruct (k <? k'); [done|]. destruct (Z.eqb_spec k k'); [done|].
  rewrite (IH Hk). constructor.
Qed.

Lemma btree_insert_sorted k v m : StronglySorted key_lt m → StronglySorted key_lt (btree_insert k v m).
Proof.
  induction 1 as [|[k' v'] m Hm IH Hf]; cbn [btree_insert]; [by repeat constructor|].
  destruct (Z.ltb_spec k k').
  - constructor; [by constructor|]. constructor; [done|].
    eapply Forall_impl; [exact Hf|]. unfold key_lt. simpl. intros; lia.
  - destruct (Z.eqb_spec k k') as [->|].
    + by constructor.
    + constructor; [done|]. clear -Hf H n. induction m as [|[k2 v2] m IH]; cbn [btree_insert].
      { repeat constructor. unfold key_lt. simpl. lia. }
      apply Forall_cons in Hf as [Hf1 Hf2]. assert (key_lt (k', v') (k, v)) by (unfold key_lt; simpl; lia).
      destruct (k <? k2); [by repeat constructor|]. destruct (k =? k2); [by constructor|].
      constructor; [done|]. by apply IH.
Qed.

#[local] Instance key_lt_antisymm : AntiSymm (=) key_lt.
Proof. intros [k1 v1] [k2 v2]. unfold key_lt. simpl. lia. Qed.

Lemma fold_insert_sorted lp : ∀ m, NoDup (lp.*1 ++ m.*1) → StronglySorted key_lt m →
  let m' := fold_left (λ m p, btree_insert p.1 p.2 m) lp m in
  StronglySorted key_lt m' ∧ m' ≡ₚ lp ++ m.
Proof.
  induction lp as [|[k v] lp IH]; intros m Hn Hs; [done|]. cbn [fold_left fst snd].
  rewrite fmap_cons in Hn. cbn [app] in Hn. apply NoDup_cons in Hn as [Hk Hn]. rewrite elem_of_app in Hk.
  assert (btree_insert k v m ≡ₚ (k, v) :: m) as Hp by (apply btree_insert_perm; tauto).
  destruct (IH (btree_insert k v m)) as [H1 H2]; [|by apply btree_insert_sorted|].
  - rewrite Hp, fmap_cons, <- Permutation_middle. cbn [fst]. constructor; [by rewrite elem_of_app|done].
  - split; [done|]. rewrite H2, Hp. symmetry. apply Permutation_middle.
Qed.

(** Whatever the order of insertion, the map lists its values by key. *)
Lemma fold_insert_any_order ps lp : StronglySorted key_lt ps → lp ≡ₚ ps →
  fold_left (λ m p, btree_insert p.1 p.2 m) lp [] = ps.
Proof.
  intros Hs Hp. assert (NoDup ps.*1) as Hn.
  { clear -Hs. induction Hs as [|p ps Hs IH Hf]; [constructor|]. rewrite fmap_cons. constructor; [|done].
    intros (q & Hq & Hin)%list_elem_of_fmap. rewrite Forall_forall in Hf. specialize (Hf q Hin).
    unfold key_lt in Hf. lia. }
  destruct (fold_insert_sorted lp []) as [H1 H2]; [|constructor|].
  - rewrite app_nil_r. by rewrite Hp.
  - rewrite app_nil_r in H2. apply (StronglySorted_unique key_lt); [done|done|]. by transitivity lp.
Qed.
End BTree.

Lemma collect_any_order (ps : list (Z * CompressedSegment)) rs : StronglySorted key_lt ps →
  rs ≡ₚ ((λ p, (p.1, Ok p.2)) <$> ps) → fold_left collect_result rs (None, []) = (None, ps).
Proof.
  intros Hs Hp. destruct (Permutation_map_inv _ _ Hp) as (lp & -> & Hlp).
  rewrite <- (fold_insert_any_order ps lp Hs) by done. clear Hs Hp Hlp.
  generalize (@nil (Z * CompressedSegment)). induction lp as [|p lp IH]; intros m; [done|].
  cbn [map fold_left]. unfold collect_result at 2. cbn [fst snd]. apply IH.
Qed.

Section Builder.
Context `{CodecSpec, Crc32cSpec, FileWriterSpec, CompletionSpec}.
Context (args : CompressArgs) (c : Compressor).
Context (Hgood : good_options (ca_opt args)) (Hcc : create_compressor (ca_opt args) = Ok c)
  (Hgc : good_compressor c (ca_opt args)).

Abbreviation bs := (co_block_size (ca_opt args)).
Abbreviation g := (gen_crc_of args).

Lemma good_bs : 4096 ≤ bs ≤ 65536.
Proof. destruct Hgood as (_ & Hb & _). done. Qed.

Lemma commit_ok encs es b : zb_holds args c encs b → small_blocks bs (encs ++ es) →
  ∃ b', commit_compressed_batch {| cs_bytes := concat es; cs_block_lengths := zlen <$> es |} b = (b', Ok tt)
    ∧ zb_holds args c (encs ++ es) b' ∧ zb_kept b b'.
Proof.
  intros [K1 K2 K3 K4 K5 K6 K7 K8] Hs. destruct Hgood as (_ & _ & [_ _ Hd]).
  destruct (small_blocks_end bs (ca_opt args) _ Hs ltac:(apply good_bs) Hd) as [Hb Hu].
  pose proof (zlen_nonneg (encs ++ es)). pose proof (small_blocks_sum _ _ Hs) as Hsum. rewrite fmap_app, zsum_app, <- !zlen_concat in Hsum.
  pose proof (zlen_nonneg (concat encs)). pose proof (zlen_nonneg (concat es)).
  pose proof (blocks_end_start (ca_opt args) encs ltac:(lia)) as Hst. unfold HEADER_TRAILER_SPACE in Hst.
  rewrite blocks_end_app in Hu, Hb. destruct Hs as [Hf _]. apply Forall_app in Hf as [_ Hf].
  unfold commit_compressed_batch. cbn [cs_bytes cs_block_lengths]. unfold ebind, elift, ensure.
  rewrite encoded_size_ok; [|apply Forall_fmap; eapply Forall_impl; [exact Hf|]; simpl; intros; lia
    |rewrite <- zlen_concat; unfold U64_MAX; lia].
  rewrite Z.add_0_l, <- zlen_concat, Z.eqb_refl. unfold checked_add_or, checked_add64.
  rewrite K6. destruct (Z.leb_spec (blocks_end (ca_opt args) encs + zlen (concat es)) U64_MAX); [|lia].
  assert ((if (ZFILE_PHYSICAL_WRITE_CHUNK_SIZE <? zlen (concat es)) && zb_local b
           then on_dest (emodify (λ f, file_write f (blocks_end (ca_opt args) encs) (concat es)))
           else on_dest (write_all_at (concat es) (blocks_end (ca_opt args) encs))) b
          = (zb_set_file (file_write (zb_dest b) (blocks_end (ca_opt args) encs) (concat es)) (zb_ht b) b, Ok tt)) as ->.
  { destruct (_ && _); [done|]. unfold on_dest. rewrite write_all_at_ok; [done|lia|lia]. }
  eexists. split; [reflexivity|]. split; [|done].
  constructor; try done; cbn [zb_set_moffset zb_push_lens zb_set_file zb_with zb_dest zb_block_len zb_moffset].
  - by apply file_holds_append.
  - by rewrite K5, fmap_app.
  - by rewrite blocks_end_app.
Qed.

(** The blocks of a whole number of blocks. *)
Definition enc_blocks (n : nat) (l : list Z) : list (list Z) := encode_full c g <$> chunks_n n bs l.

Lemma enc_blocks_encodes n l e : Z.of_nat n * bs ≤ zlen l → e ∈ enc_blocks n l → ∃ src, encodes c g src e ∧ zlen src = bs.
Proof.
  intros Hl [src [-> Hs]]%list_elem_of_fmap. pose proof good_bs.
  assert (zlen src = bs) as Hz by (eapply chunks_n_length; [|exact Hl|done]; lia).
  exists src. split; [|done]. by apply (encode_full_ok c (ca_opt args)).
Qed.

Lemma enc_blocks_small n l : Z.of_nat n * bs ≤ zlen l → Forall (small_enc bs) (enc_blocks n l).
Proof.
  intros Hl. apply Forall_forall. intros e (src & He & _)%enc_blocks_encodes; [|done].
  by eapply (encodes_small c (ca_opt args)); [done|apply good_bs|].
Qed.

Lemma zlen_enc_blocks n l : zlen (enc_blocks n l) = Z.of_nat n.
Proof. unfold enc_blocks. rewrite zlen_fmap. unfold zlen. by rewrite length_chunks_n. Qed.

Lemma compress_and_commit_ok encs b source n : zb_holds args c encs b →
  zlen source = Z.of_nat n * bs → Forall (small_enc bs) encs → (zlen encs + Z.of_nat n) * bs ≤ 2 ^ 62 →
  ∃ b', compress_and_commit source b = (b', Ok tt)
    ∧ zb_holds args c (encs ++ enc_blocks n source) b' ∧ zb_kept b b'.
Proof.
  intros Hb Hl Hs Hn. pose proof (zlen_nonneg encs). pose proof good_bs as Hbs.
  unfold compress_and_commit, ebind, elift, zb_gen_crc, zb_bs, zb_opt.
  rewrite (zk_args _ _ _ _ Hb), (zk_compressor _ _ _ _ Hb). fold (gen_crc_of args).
  rewrite (max_block_ok c (ca_opt args) g Hgc Hbs), (compress_segment_ok c (ca_opt args) g Hgc Hbs source n) by lia.
  apply commit_ok; [done|]. split.
  - apply Forall_app. split; [done|]. apply enc_blocks_small. lia.
  - rewrite zlen_app. fold (enc_blocks n source). rewrite zlen_enc_blocks. lia.
Qed.

(** *** The worker pool *)

Lemma commit_all_ok ess : ∀ encs b, zb_holds args c encs b → small_blocks bs (encs ++ concat ess) →
  ∃ b', commit_all ((λ es, {| cs_bytes := concat es; cs_block_lengths := zlen <$> es |}) <$> ess) b = (b', Ok tt)
    ∧ zb_holds args c (encs ++ concat ess) b' ∧ zb_kept b b'.
Proof.
  induction ess as [|es ess IH]; intros encs b Hb Hs; cbn [concat] in *.
  { exists b. by rewrite app_nil_r. }
  rewrite fmap_cons. cbn [commit_all]. rewrite app_assoc in *.
  destruct (commit_ok encs es b Hb) as (b1 & E1 & Hb1 & Hk1).
  { destruct Hs as [Hf Hl]. apply Forall_app in Hf as [Hf _]. split; [done|].
    rewrite zlen_app in Hl. pose proof (zlen_nonneg (concat ess)). pose proof good_bs. nia. }
  destruct (IH _ _ Hb1 Hs) as (b2 & E2 & Hb2 & Hk2). exists b2.
  rewrite (ebind_ok _ _ _ _ _ E1). split_and!; [done|done|by transitivity b1].
Qed.

Definition item_blocks (count s k : Z) : Z := Z.min (k * s + s) count - k * s.

Lemma enc_blocks_slice n off src : 0 ≤ off → off + Z.of_nat n * bs ≤ zlen src →
  enc_blocks n (slice off (Z.of_nat n * bs) src) = enc_blocks n (zdrop off src).
Proof.
  intros Ho Hl. pose proof good_bs. unfold enc_blocks, slice. f_equal.
  rewrite <- (ztake_zdrop (Z.of_nat n * bs) (zdrop off src)) at 2. rewrite chunks_n_prefix; [done|lia|].
  rewrite zlen_ztake, zlen_zdrop; lia.
Qed.

Lemma enc_blocks_add n m src : enc_blocks (n + m) src = enc_blocks n src ++ enc_blocks m (zdrop (Z.of_nat n * bs) src).
Proof. unfold enc_blocks. pose proof good_bs. by rewrite chunks_n_app, fmap_app by lia. Qed.

Lemma items_cover src count s j : 0 < s → 0 ≤ count → zlen src = count * bs →
  Z.of_nat j ≤ div_ceil count s →
  concat ((λ k, enc_blocks (Z.to_nat (item_blocks count s k)) (slice (k * s * bs) (item_blocks count s k * bs) src))
          <$> seqZ 0 (Z.of_nat j))
  = enc_blocks (Z.to_nat (Z.min (Z.of_nat j * s) count)) src.
Proof.
  intros Hs Hc Hl. pose proof good_bs. pose proof (div_ceil_bounds count s Hs) as Hd.
  induction j as [|j IH]; intros Hj; [by replace (Z.to_nat _) with 0%nat by lia|].
  assert (Z.of_nat j * s < count) as Hjs by nia.
  rewrite seqZ_S, fmap_app, concat_app, IH by lia. cbn [fmap list_fmap concat]. rewrite app_nil_r, Z.add_0_l.
  set (n := Z.to_nat (item_blocks count s (Z.of_nat j))).
  assert (item_blocks count s (Z.of_nat j) = Z.of_nat n) as Hn by (unfold n, item_blocks; lia). rewrite Hn.
  rewrite enc_blocks_slice by (unfold item_blocks in Hn; nia).
  replace (Z.to_nat (Z.min (Z.of_nat (S j) * s) count)) with (Z.to_nat (Z.min (Z.of_nat j * s) count) + n)%nat
    by (unfold item_blocks in Hn; lia).
  rewrite enc_blocks_add. do 3 f_equal. f_equal. lia.
Qed.

Definition item_segment (source : list Z) (count s k : Z) : list (list Z) :=
  enc_blocks (Z.to_nat (item_blocks count s k)) (slice (k * s * bs) (item_blocks count s k * bs) source).

Definition segment_of (es : list (list Z)) : CompressedSegment :=
  {| cs_bytes := concat es; cs_block_lengths := zlen <$> es |}.

(** Every item is compressed to its own blocks. *)
Lemma worker_results_ok source count s : 0 < s → 0 ≤ count → count * bs ≤ 2 ^ 62 → zlen source = count * bs →
  (worker_result (ca_opt args) g bs (block_room c g) <$> work_items source bs count s)
  = (λ p, (p.1, Ok p.2)) <$> ((λ k, (k, segment_of (item_segment source count s k))) <$> seqZ 0 (div_ceil count s)).
Proof.
  intros Hs Hc Hc2 Hl. pose proof good_bs as Hbs. pose proof (div_ceil_bounds count s Hs) as Hd.
  unfold work_items. rewrite <- !list_fmap_compose. apply list_fmap_ext. intros i k Hk%lookup_seqZ.
  cbn [compose fst snd]. unfold worker_result. cbn [fst snd]. rewrite Hcc. cbn [rbind].
  assert (0 < item_blocks count s k) as Hpos by (unfold item_blocks; nia). f_equal.
  replace (Z.min (k * s + s) count * bs - k * s * bs) with (item_blocks count s k * bs) by (unfold item_blocks; lia).
  rewrite (compress_segment_ok c (ca_opt args) g Hgc Hbs _ (Z.to_nat (item_blocks count s k))).
  - done.
  - rewrite zlen_slice, Z2Nat.id; unfold item_blocks in *; nia.
  - unfold item_blocks in *; nia.
Qed.

Lemma items_sorted source count s :
  StronglySorted key_lt ((λ k, (k, segment_of (item_segment source count s k))) <$> seqZ 0 (div_ceil count s)).
Proof.
  apply StronglySorted_lookup_2. intros i j x y Hij.
  rewrite !list_lookup_fmap_Some. intros (k1 & -> & K1%lookup_seqZ) (k2 & -> & K2%lookup_seqZ).
  unfold key_lt. cbn [fst]. lia.
Qed.

Lemma items_all source count s : 0 < s → 0 ≤ count → zlen source = count * bs →
  concat (item_segment source count s <$> seqZ 0 (div_ceil count s)) = enc_blocks (Z.to_nat count) source.
Proof.
  intros Hs Hc Hl. pose proof (div_ceil_bounds count s Hs) as Hd.
  assert (0 ≤ div_ceil count s) as Hn by nia.
  pose proof (items_cover source count s (Z.to_nat (div_ceil count s)) Hs Hc Hl) as Hi.
  rewrite Z2Nat.id in Hi by done. rewrite Z.min_r in Hi by lia. apply Hi. lia.
Qed.

Lemma write_full_blocks_owned_ok encs b source n : zb_holds args c encs b →
  zlen source = Z.of_nat n * bs → Forall (small_enc bs) encs → (zlen encs + Z.of_nat n) * bs ≤ 2 ^ 62 →
  ∃ b', write_full_blocks_owned source b = (b', Ok tt)
    ∧ zb_holds args c (encs ++ enc_blocks n source) b' ∧ zb_kept b b'.
Proof.
  intros Hb Hl Hs Hn. pose proof good_bs as Hbs. pose proof (zlen_nonneg encs).
  pose proof (compress_and_commit_ok encs b source n Hb Hl Hs Hn) as Hcommit.
  unfold write_full_blocks_owned, zb_bs, zb_opt, zb_gen_crc. unfold zb_opt. rewrite (zk_args _ _ _ _ Hb).
  fold (gen_crc_of args). unfold ebind at 1, elift, is_multiple_of, ensure. rewrite Hl, Z.mod_mul by lia. cbn [Z.eqb].
  destruct (is_nil source) eqn:Enil.
  { destruct source; [|done]. exists b. rewrite zlen_nil in Hl. assert (n = 0%nat) as -> by nia.
    unfold enc_blocks. simpl. by rewrite app_nil_r. }
  destruct (zb_pool b) as [k|] eqn:Ep; [|exact Hcommit].
  destruct ((_ <=? 1) || _); [exact Hcommit|].
  rewrite Z.div_mul by lia. rewrite (zk_compressor _ _ _ _ Hb), (max_block_ok c (ca_opt args) g Hgc Hbs).
  assert (0 < Z.of_nat n) as Hpos.
  { destruct n; [|lia]. destruct source; [done|]. rewrite zlen_cons in Hl. pose proof (zlen_nonneg source). lia. }
  pose proof (zk_pool _ _ _ _ Hb k Ep) as Hk. unfold ebind at 1.
  set (s := div_ceil (Z.of_nat n) (Z.min k (Z.of_nat n))).
  assert (0 < s) as Hspos.
  { pose proof (div_ceil_bounds (Z.of_nat n) (Z.min k (Z.of_nat n)) ltac:(lia)). unfold s. nia. }
  rewrite (worker_results_ok source (Z.of_nat n) s) by (done || lia).
  rewrite (collect_any_order _ _ (items_sorted source (Z.of_nat n) s) (completion_perm _ _ _)).
  pose proof (items_all source (Z.of_nat n) s Hspos ltac:(lia) Hl) as Hall. rewrite Nat2Z.id in Hall.
  destruct (commit_all_ok (item_segment source (Z.of_nat n) s <$> seqZ 0 (div_ceil (Z.of_nat n) s)) encs b Hb)
    as (b' & E & Hb' & Hk').
  { rewrite Hall. split; [apply Forall_app; split; [done|apply enc_blocks_small; lia]|].
    rewrite zlen_app, zlen_enc_blocks. lia. }
  exists b'. rewrite Hall in Hb'. split; [|done]. rewrite <- E. f_equal. by rewrite <- !list_fmap_compose.
Qed.

Lemma write_full_blocks_borrowed_ok encs b source n : zb_holds args c encs b →
  zlen source = Z.of_nat n * bs → Forall (small_enc bs) encs → (zlen encs + Z.of_nat n) * bs ≤ 2 ^ 62 →
  ∃ b', write_full_blocks_borrowed source b = (b', Ok tt)
    ∧ zb_holds args c (encs ++ enc_blocks n source) b' ∧ zb_kept b b'.
Proof.
  intros Hb Hl Hs Hn. pose proof good_bs as Hbs.
  unfold write_full_blocks_borrowed, zb_bs, zb_opt. rewrite (zk_args _ _ _ _ Hb).
  unfold ebind, elift, is_multiple_of, ensure. rewrite Hl, Z.mod_mul by lia. cbn [Z.eqb].
  destruct (is_nil source) eqn:Enil.
  { destruct source; [|done]. exists b. rewrite zlen_nil in Hl. assert (n = 0%nat) as -> by nia.
    unfold enc_blocks. simpl. by rewrite app_nil_r. }
  destruct (_ || _); [by apply compress_and_commit_ok|by apply write_full_blocks_owned_ok].
Qed.

(** *** Writes of any size *)

(** The number of full blocks. *)
Definition full_blocks (l : list Z) : nat := Z.to_nat (zlen l / bs).

Lemma full_blocks_spec l : Z.of_nat (full_blocks l) * bs ≤ zlen l < (Z.of_nat (full_blocks l) + 1) * bs.
Proof.
  pose proof good_bs. pose proof (zlen_nonneg l). unfold full_blocks.
  rewrite Z2Nat.id by (apply Z.div_pos; lia). pose proof (Z.div_mod (zlen l) bs ltac:(lia)).
  pose proof (Z.mod_pos_bound (zlen l) bs ltac:(lia)). lia.
Qed.

Lemma full_blocks_unique l n r : zlen l = Z.of_nat n * bs + r → 0 ≤ r < bs → full_blocks l = n.
Proof. intros Hl Hr. pose proof good_bs. pose proof (full_blocks_spec l). nia. Qed.

Lemma enc_blocks_extend n m l1 l2 : Z.of_nat n * bs ≤ zlen l1 →
  enc_blocks (n + m) (l1 ++ l2) = enc_blocks n l1 ++ enc_blocks m (zdrop (Z.of_nat n * bs) l1 ++ l2).
Proof.
  intros Hl. pose proof good_bs. rewrite enc_blocks_add. f_equal.
  - unfold enc_blocks. by rewrite chunks_n_prefix by lia.
  - f_equal. unfold zdrop, zlen in *. by rewrite drop_app_le by lia.
Qed.

Lemma zb_write_loop_ok j fuel : ∀ encs b buf, 0 < j → (length buf ≤ fuel)%nat → zb_holds args c encs b →
  Forall (small_enc bs) encs → zlen encs * bs + zlen buf ≤ 2 ^ 62 →
  ∃ b', zb_write_loop fuel bs (j * bs) buf b = (b', Ok (zdrop (Z.of_nat (full_blocks buf) * bs) buf))
    ∧ zb_holds args c (encs ++ enc_blocks (full_blocks buf) buf) b' ∧ zb_kept b b'.
Proof.
  pose proof good_bs as Hbs. induction fuel as [|fuel IH]; intros encs b buf Hj Hf Hb Hs Hl;
    cbn [zb_write_loop]; destruct (Z.ltb_spec (zlen buf) bs) as [Hlt|Hge].
  - assert (full_blocks buf = 0%nat) as -> by (apply (full_blocks_unique _ 0 (zlen buf)); pose proof (zlen_nonneg buf); lia).
    exists b. rewrite zdrop_0 by lia. unfold enc_blocks. simpl. by rewrite app_nil_r.
  - destruct buf; simpl in Hf; [rewrite zlen_nil in Hge|]; lia.
  - assert (full_blocks buf = 0%nat) as -> by (apply (full_blocks_unique _ 0 (zlen buf)); pose proof (zlen_nonneg buf); lia).
    exists b. rewrite zdrop_0 by lia. unfold enc_blocks. simpl. by rewrite app_nil_r.
  - pose proof (full_blocks_spec buf) as Hfb. set (n := full_blocks buf) in *.
    assert (zlen buf / bs = Z.of_nat n) as Hdiv.
    { unfold n, full_blocks. rewrite Z2Nat.id; [done|]. apply Z.div_pos; lia. }
    unfold ebind at 1, elift, checked_mul_or. rewrite Hdiv.
    destruct (Z.leb_spec (Z.of_nat n * bs) U64_MAX); [|unfold U64_MAX in *; pose proof (zlen_nonneg encs); lia].
    set (k := Z.to_nat (Z.min (Z.of_nat n) j)).
    replace (Z.min (Z.of_nat n * bs) (j * bs)) with (Z.of_nat k * bs) by (unfold k; nia).
    assert (0 < Z.of_nat k ≤ Z.of_nat n) as Hk by (unfold k; nia). pose proof (zlen_nonneg encs).
    assert (zlen (ztake (Z.of_nat k * bs) buf) = Z.of_nat k * bs) as Hlen by (rewrite zlen_ztake; nia).
    destruct (write_full_blocks_borrowed_ok encs b _ k Hb Hlen Hs) as (b1 & E1 & Hb1 & Hk1); [nia|].
    rewrite (ebind_ok _ _ _ _ _ E1).
    assert (enc_blocks k (ztake (Z.of_nat k * bs) buf) = enc_blocks k buf) as Heq.
    { rewrite <- (ztake_zdrop (Z.of_nat k * bs) buf) at 2. unfold enc_blocks. rewrite chunks_n_prefix; [done|lia|lia]. }
    rewrite Heq in Hb1. set (tail := zdrop (Z.of_nat k * bs) buf).
    assert (zlen tail = zlen buf - Z.of_nat k * bs) as Htl by (unfold tail; rewrite zlen_zdrop; nia).
    assert (full_blocks tail = (n - k)%nat) as Hft.
    { apply (full_blocks_unique _ _ (zlen buf - Z.of_nat n * bs)); [rewrite Htl, Nat2Z.inj_sub|]; lia. }
    destruct (IH _ _ tail Hj ltac:(unfold zlen in *; lia) Hb1) as (b2 & E2 & Hb2 & Hk2).
    + apply Forall_app. split; [done|]. apply enc_blocks_small. nia.
    + rewrite zlen_app, zlen_enc_blocks. nia.
    + exists b2. rewrite E2, Hft. split_and!; [|  |by transitivity b1].
      * do 2 f_equal. unfold tail. rewrite zdrop_zdrop by nia. f_equal. nia.
      * rewrite Hft, <- app_assoc in Hb2. unfold tail in Hb2. rewrite <- enc_blocks_add in Hb2.
        by replace (k + (n - k))%nat with n in Hb2 by lia.
Qed.

Lemma write_batch_size_ok : ∃ j, 0 < j ∧ write_batch_size bs = Ok (j * bs).
Proof.
  pose proof good_bs. exists (Z.max (ZFILE_COMPACT_WRITER_BUFFER_SIZE / bs) 1). split; [lia|].
  unfold write_batch_size, checked_mul_or, ZFILE_COMPACT_WRITER_BUFFER_SIZE.
  pose proof (Z.mul_div_le (512 * 1024) bs ltac:(lia)).
  destruct (Z.leb_spec (Z.max (512 * 1024 / bs) 1 * bs) U64_MAX) as [|Hx]; [done|]. unfold U64_MAX in Hx. nia.
Qed.

(** A builder that was given [data] so far. *)
Record zb_given (data : list Z) (b : ZFileBuilder) : Prop := {
  zg_holds : zb_holds args c (enc_blocks (full_blocks data) data) b;
  zg_reserved : zb_reserved b = zdrop (Z.of_nat (full_blocks data) * bs) data;
  zg_raw : zb_raw_data_size b = zlen data;
  zg_small : zlen data < 2 ^ 61
}.

Lemma zb_holds_set_reserved encs r b : zb_holds args c encs b → zb_holds args c encs (zb_set_reserved r b).
Proof. by intros []; constructor. Qed.
Lemma zb_holds_set_raw encs n b : zb_holds args c encs b → zb_holds args c encs (zb_set_raw n b).
Proof. by intros []; constructor. Qed.

Lemma write_rest_ok j next expected encs b buf : 0 < j → zb_holds args c encs b → zb_reserved b = [] →
  Forall (small_enc bs) encs → zlen encs * bs + zlen buf ≤ 2 ^ 62 →
  ∃ b', write_rest bs (j * bs) next expected buf b = (b', Ok expected)
    ∧ zb_holds args c (encs ++ enc_blocks (full_blocks buf) buf) b'
    ∧ zb_reserved b' = zdrop (Z.of_nat (full_blocks buf) * bs) buf ∧ zb_raw_data_size b' = next.
Proof.
  intros Hj Hb Hr Hs Hl.
  destruct (zb_write_loop_ok j (length buf) encs b buf Hj ltac:(lia) Hb Hs Hl) as (b1 & E1 & Hb1 & [Hk1 _]).
  unfold write_rest. rewrite (ebind_ok _ _ _ _ _ E1). unfold ebind, emodify, eret.
  destruct (zdrop (Z.of_nat (full_blocks buf) * bs) buf) as [|x tail] eqn:E; cbn [is_nil];
    eexists; (split; [reflexivity|]); split.
  - by apply zb_holds_set_raw.
  - split; [|done]. cbn. congruence.
  - by apply zb_holds_set_raw, zb_holds_set_reserved.
  - done.
Qed.

(** Appending to the data: the reserved bytes come first. *)
Lemma zb_given_extend data buf m : let n := full_blocks data in
  full_blocks (zdrop (Z.of_nat n * bs) data ++ buf) = m →
  full_blocks (data ++ buf) = (n + m)%nat
  ∧ enc_blocks (full_blocks (data ++ buf)) (data ++ buf)
    = enc_blocks n data ++ enc_blocks m (zdrop (Z.of_nat n * bs) data ++ buf)
  ∧ zdrop (Z.of_nat (full_blocks (data ++ buf)) * bs) (data ++ buf)
    = zdrop (Z.of_nat m * bs) (zdrop (Z.of_nat n * bs) data ++ buf).
Proof.
  intros n <-. pose proof good_bs. pose proof (full_blocks_spec data) as Hn. fold n in Hn.
  set (r := zdrop (Z.of_nat n * bs) data ++ buf). pose proof (full_blocks_spec r) as Hm.
  assert (zlen r = zlen data - Z.of_nat n * bs + zlen buf) as Hr by (unfold r; rewrite zlen_app, zlen_zdrop; lia).
  assert (full_blocks (data ++ buf) = (n + full_blocks r)%nat) as Hf.
  { apply (full_blocks_unique _ _ (zlen r - Z.of_nat (full_blocks r) * bs)); [rewrite zlen_app|]; lia. }
  rewrite Hf. split_and!; [done|apply enc_blocks_extend; lia|].
  replace (Z.of_nat (n + full_blocks r) * bs) with (Z.of_nat n * bs + Z.of_nat (full_blocks r) * bs) by lia.
  rewrite <- zdrop_zdrop by lia. f_equal. unfold r, zdrop, zlen in *. by rewrite drop_app_le by lia.
Qed.

Lemma zb_write_ok data buf b : zb_given data b → zlen (data ++ buf) < 2 ^ 61 →
  ∃ b', zb_write buf b = (b', Ok (zlen buf)) ∧ zb_given (data ++ buf) b'.
Proof.
  intros [Hb Hr Hw Hd] Hl. pose proof good_bs as Hbs. pose proof (full_blocks_spec data) as Hn.
  destruct write_batch_size_ok as (j & Hj & Ebatch). rewrite zlen_app in Hl.
  pose proof (zlen_nonneg buf). pose proof (zlen_nonneg data).
  set (n := full_blocks data) in *. set (r := zdrop (Z.of_nat n * bs) data) in *.
  assert (zlen r = zlen data - Z.of_nat n * bs) as Hrl by (unfold r; rewrite zlen_zdrop; lia).
  assert (Forall (small_enc bs) (enc_blocks n data)) as Hs by (apply enc_blocks_small; lia).
  unfold zb_write, zb_bs, zb_opt. rewrite (zk_args _ _ _ _ Hb), (zk_open _ _ _ _ Hb), Hw, Ebatch, Hr.
  cbn [negb ensure]. unfold ebind at 1 2 3, elift, checked_add_or, checked_add64.
  destruct (Z.leb_spec (zlen data + zlen buf) U64_MAX); [|unfold U64_MAX in *; lia].
  destruct (is_nil r) eqn:Enil; cbn [negb].
  - assert (r = []) as Hnil by (destruct r; done). 
    destruct (write_rest_ok j (zlen data + zlen buf) (zlen buf) (enc_blocks n data) b buf Hj Hb)
      as (b' & E & Hb' & Hr' & Hw'); [congruence|done|rewrite zlen_enc_blocks; nia|].
    exists b'. split; [done|]. destruct (zb_given_extend data buf (full_blocks buf)) as (_ & He & Hz).
    { fold n r. by rewrite Hnil. }
    fold n r in He, Hz. rewrite Hnil in He, Hz. cbn [app] in He, Hz.
    constructor; rewrite ?He, ?Hz, ?zlen_app; done || lia.
  - destruct (Z.ltb_spec (zlen buf) (bs - zlen r)) as [Hlt|Hge].
    + eexists. split; [reflexivity|]. destruct (zb_given_extend data buf 0) as (_ & He & Hz).
      { fold n r. apply (full_blocks_unique _ 0 (zlen r + zlen buf)); [rewrite zlen_app|]; lia. }
      fold n r in He, Hz. change (enc_blocks 0 _) with (@nil (list Z)) in He.
      rewrite app_nil_r in He. rewrite (zdrop_0 (Z.of_nat 0 * bs)) in Hz by lia.
      constructor; rewrite ?He, ?Hz, ?zlen_app; [by apply zb_holds_set_raw, zb_holds_set_reserved|done|done|lia].
    + set (need := bs - zlen r) in *. set (blk := r ++ ztake need buf).
      assert (zlen blk = Z.of_nat 1 * bs) as Hbl by (unfold blk; rewrite zlen_app, zlen_ztake; lia).
      destruct (write_full_blocks_borrowed_ok _ b blk 1 Hb Hbl Hs) as (b1 & E1 & Hb1 & _); [rewrite zlen_enc_blocks; nia|].
      rewrite (ebind_ok _ _ _ _ _ E1). unfold ebind at 1, emodify.
      set (rest := zdrop need buf). assert (zlen rest = zlen buf - need) as Hrest by (unfold rest; rewrite zlen_zdrop; lia).
      assert (r ++ buf = blk ++ rest) as Happ by (unfold blk, rest; by rewrite <- app_assoc, ztake_zdrop).
      destruct (write_rest_ok j (zlen data + zlen buf) (zlen buf) (enc_blocks n data ++ enc_blocks 1 blk)
        (zb_set_reserved [] b1) rest Hj) as (b' & E & Hb' & Hr' & Hw');
        [by apply zb_holds_set_reserved|done|apply Forall_app; split; [done|apply enc_blocks_small; lia]
        |rewrite zlen_app, !zlen_enc_blocks; nia|].
      exists b'. split; [done|].
      assert (zdrop (Z.of_nat 1 * bs) blk = []) as Hend by (apply zlen_0; rewrite zlen_zdrop; lia).
      destruct (zb_given_extend data buf (1 + full_blocks rest)) as (_ & He & Hz).
      { fold n r. rewrite Happ. pose proof (full_blocks_spec rest).
        apply (full_blocks_unique _ _ (zlen rest - Z.of_nat (full_blocks rest) * bs)); [rewrite zlen_app|]; lia. }
      fold n r in He, Hz. rewrite Happ in He, Hz.
      rewrite enc_blocks_extend, Hend in He by lia. cbn [app] in He. rewrite app_assoc in He.
      constructor; rewrite ?He, ?zlen_app; [done| |done|lia]. rewrite Hr', Hz.
      rewrite zdrop_app_skip by lia. f_equal. lia.
Qed.

Lemma full_blocks_nil : full_blocks [] = 0%nat.
Proof. apply (full_blocks_unique _ 0 0); [done|]. pose proof good_bs. lia. Qed.

Lemma zb_write_owned_ok data buffer len b : zb_given data b → 0 ≤ len ≤ zlen buffer → zlen data + len < 2 ^ 61 →
  ∃ b', zb_write_owned buffer len b = (b', Ok len) ∧ zb_given (data ++ ztake len buffer) b'.
Proof.
  intros Hg Hlen Hl. pose proof Hg as [Hb Hr Hw Hd]. pose proof good_bs as Hbs.
  assert (zlen (ztake len buffer) = len) as Htl by (rewrite zlen_ztake; lia).
  pose proof (full_blocks_spec data) as Hn. pose proof (zlen_nonneg data).
  assert (∃ b', zb_write (ztake len buffer) b = (b', Ok len) ∧ zb_given (data ++ ztake len buffer) b') as Hplain.
  { pose proof (zb_write_ok data (ztake len buffer) b Hg) as Hx. rewrite zlen_app, Htl in Hx. by apply Hx. }
  unfold zb_write_owned, zb_bs, zb_opt. rewrite (zk_args _ _ _ _ Hb), (zk_open _ _ _ _ Hb), Hr.
  unfold ebind at 1 2, elift, ensure. destruct (Z.leb_spec len (zlen buffer)); [|lia]. cbn [negb].
  set (n := full_blocks data) in *. destruct (is_nil (zdrop (Z.of_nat n * bs) data)) eqn:Enil; cbn [negb orb].
  2: { exact Hplain. }
  unfold is_multiple_of. destruct (Z.eqb_spec (len mod bs) 0) as [Hm|Hm]; cbn [negb].
  2: { exact Hplain. }
  unfold ebind at 1, checked_add_or, checked_add64. rewrite Hw.
  destruct (Z.leb_spec (zlen data + len) U64_MAX); [|unfold U64_MAX in *; lia].
  set (m := Z.to_nat (len / bs)). pose proof (Z.div_mod len bs ltac:(lia)). pose proof (Z.div_pos len bs).
  assert (len = Z.of_nat m * bs) as Hlm by (unfold m; lia).
  destruct (write_full_blocks_owned_ok _ b (ztake len buffer) m Hb) as (b1 & E1 & Hb1 & Hk1 & Hk2);
    [lia|apply enc_blocks_small; lia|rewrite zlen_enc_blocks; nia|].
  rewrite (ebind_ok _ _ _ _ _ E1). eexists. split; [reflexivity|].
  assert (zdrop (Z.of_nat n * bs) data = []) as Hnil by (destruct (zdrop _ data); done).
  destruct (zb_given_extend data (ztake len buffer) m) as (_ & He & Hz).
  { fold n. rewrite Hnil. cbn [app]. apply (full_blocks_unique _ _ 0); lia. }
  fold n in He, Hz. rewrite Hnil in He, Hz. cbn [app] in He, Hz.
  constructor; rewrite ?He, ?Hz, ?zlen_app, ?Htl; [by apply zb_holds_set_raw| |done|lia].
  cbn. rewrite Hk1, Hr, Hnil. symmetry. apply zlen_0. rewrite zlen_zdrop; lia.
Qed.

Lemma ZFileBuilder_new_ok local : ∃ f b, ZFileBuilder_new [] local args = (f, Ok b) ∧ zb_given [] b.
Proof.
  pose proof good_bs as Hbs. destruct Hgood as (_ & _ & [_ _ Hd]). unfold ZFileBuilder_new.
  rewrite write_header_ok by (done || (unfold U64_MAX; lia)). rewrite Hcc.
  unfold ensure, checked_add_or, checked_add64, BUF_SIZE. destruct (Z.eqb_spec bs 0); [lia|]. cbn [negb rbind].
  destruct (Z.leb_spec (bs + 512) U64_MAX); [|unfold U64_MAX in *; lia]. cbn [rbind].
  fold (gen_crc_of args). rewrite (max_block_ok c (ca_opt args) g Hgc Hbs). cbn [rbind].
  set (h := stamped true false true false _). change h with (first_header (ca_opt args)).
  assert (file_holds (file_write [] 0 (zheader_layout (first_header (ca_opt args)))) (ca_opt args) []) as Hf
    by (apply file_holds_start; lia).
  assert (∀ pool, (∀ k, pool = Some k → 1 ≤ k) → zb_given []
    {| zb_args := args; zb_compressor := c; zb_local := local;
       zb_dest := file_write [] 0 (zheader_layout (first_header (ca_opt args)));
       zb_pool := pool; zb_block_len := []; zb_reserved := []; zb_raw_data_size := 0;
       zb_moffset := HEADER_TRAILER_SPACE + co_dict_size (ca_opt args);
       zb_ht := first_header (ca_opt args); zb_finished := false |}) as Hgiven.
  { intros pool Hp. constructor; rewrite ?full_blocks_nil; [|done|done|done]. constructor; try done. 
    cbn [zb_moffset]. unfold blocks_end, data_start. symmetry. apply Z.add_0_r. }
  destruct (Z.ltb_spec 1 (ca_workers args)); cbn [rbind]; eexists _, _; (split; [reflexivity|]); apply Hgiven.
  - intros k [= <-]. unfold MAX_WORKERS. lia.
  - done.
Qed.

(** The blocks of [data]: the full ones, then the remainder. *)
Definition plain_blocks (data : list Z) : list (list Z) :=
  let n := full_blocks data in
  let tail := zdrop (Z.of_nat n * bs) data in
  chunks_n n bs data ++ (if is_nil tail then [] else [tail]).

Lemma plain_blocks_nil : plain_blocks [] = [].
Proof. unfold plain_blocks. by rewrite full_blocks_nil. Qed.

Lemma plain_blocks_step l : l ≠ [] → plain_blocks l = ztake bs l :: plain_blocks (zdrop bs l).
Proof.
  intros Hl. pose proof good_bs. unfold plain_blocks. pose proof (full_blocks_spec l) as Hn.
  assert (0 < zlen l) by (destruct l; [done|]; rewrite zlen_cons; pose proof (zlen_nonneg l); lia).
  destruct (full_blocks l) as [|n] eqn:E.
  - rewrite (ztake_all bs l), (zdrop_0 (Z.of_nat 0 * bs) l) by lia.
    assert (zdrop bs l = []) as -> by (apply zlen_0; rewrite zlen_zdrop; lia).
    rewrite full_blocks_nil. by destruct l.
  - assert (full_blocks (zdrop bs l) = n) as ->.
    { apply (full_blocks_unique _ _ (zlen l - Z.of_nat (S n) * bs)); [rewrite zlen_zdrop|]; lia. }
    rewrite zdrop_zdrop by lia. replace (bs + Z.of_nat n * bs) with (Z.of_nat (S n) * bs) by lia. done.
Qed.

Lemma zlen_plain_blocks l : zlen (plain_blocks l) * bs < zlen l + bs.
Proof.
  pose proof good_bs. pose proof (full_blocks_spec l). unfold plain_blocks. rewrite zlen_app.
  assert (zlen (chunks_n (full_blocks l) bs l) = Z.of_nat (full_blocks l)) as -> by (unfold zlen; by rewrite length_chunks_n).
  assert (zlen (zdrop (Z.of_nat (full_blocks l) * bs) l) = zlen l - Z.of_nat (full_blocks l) * bs) as Hz
    by (rewrite zlen_zdrop; lia).
  destruct (zdrop (Z.of_nat (full_blocks l) * bs) l) as [|x r]; cbn [is_nil]; rewrite ?zlen_nil; [nia|].
  rewrite zlen_cons in Hz. pose proof (zlen_nonneg r). change (zlen [_]) with 1. nia.
Qed.

(** Their encodings as the builder computes them. *)
Definition builder_blocks (data : list Z) : list (list Z) :=
  let n := full_blocks data in
  let tail := zdrop (Z.of_nat n * bs) data in
  enc_blocks n data ++ (if is_nil tail then [] else [encode_last c (ca_opt args) g tail]).

(** Block [i] of the source. *)
Lemma plain_blocks_lookup l i p : plain_blocks l !! i = Some p →
  p = slice (Z.of_nat i * bs) bs l ∧ 0 < zlen p ≤ bs.
Proof.
  pose proof good_bs. pose proof (full_blocks_spec l) as Hn. unfold plain_blocks. rewrite lookup_app_Some.
  rewrite length_chunks_n. intros [Hp|[Hi Hp]].
  - pose proof (lookup_lt_Some _ _ _ Hp) as Hi. rewrite length_chunks_n in Hi.
    rewrite chunks_n_lookup in Hp by lia. injection Hp as <-. split; [done|]. rewrite zlen_slice by nia. lia.
  - assert (zlen (zdrop (Z.of_nat (full_blocks l) * bs) l) = zlen l - Z.of_nat (full_blocks l) * bs) as Hz
      by (rewrite zlen_zdrop; lia).
    destruct (is_nil (zdrop _ l)) eqn:E; [done|].
    apply list_lookup_singleton_Some in Hp as [Hi' <-].
    assert (i = full_blocks l) as -> by lia. unfold slice. rewrite ztake_all by lia. split; [done|].
    split; [|lia]. apply zlen_pos. by intros E'; rewrite E' in E.
Qed.

Lemma plain_blocks_cover l : zlen l ≤ zlen (plain_blocks l) * bs.
Proof.
  pose proof good_bs. pose proof (full_blocks_spec l). unfold plain_blocks. rewrite zlen_app.
  assert (zlen (chunks_n (full_blocks l) bs l) = Z.of_nat (full_blocks l)) as -> by (unfold zlen; by rewrite length_chunks_n).
  assert (zlen (zdrop (Z.of_nat (full_blocks l) * bs) l) = zlen l - Z.of_nat (full_blocks l) * bs) as Hz
    by (rewrite zlen_zdrop; lia).
  destruct (zdrop (Z.of_nat (full_blocks l) * bs) l) as [|x r]; cbn [is_nil]; [|change (zlen [_]) with 1; nia].
  unfold zlen in *. simpl in *. lia.
Qed.

Lemma builder_blocks_encode l : Forall2 (encodes c g) (plain_blocks l) (builder_blocks l).
Proof.
  pose proof good_bs as Hbs. pose proof (full_blocks_spec l). unfold plain_blocks, builder_blocks. apply Forall2_app.
  - unfold enc_blocks. apply Forall2_fmap_r, Forall_Forall2_diag, Forall_forall. intros src Hs.
    apply (encode_full_ok c (ca_opt args)); [done|done|]. eapply chunks_n_length; [lia| |exact Hs]. lia.
  - assert (zlen (zdrop (Z.of_nat (full_blocks l) * bs) l) = zlen l - Z.of_nat (full_blocks l) * bs) as Hz
      by (rewrite zlen_zdrop; lia).
    destruct (is_nil (zdrop _ l)) eqn:E; [done|]. repeat constructor.
    apply (encode_last_ok c (ca_opt args)); [done|done|]. split; [|lia]. apply zlen_pos. by intros E'; rewrite E' in E.
Qed.

Lemma builder_blocks_small l : zlen l < 2 ^ 61 → small_blocks bs (builder_blocks l).
Proof.
  intros Hl. pose proof (builder_blocks_encode l) as He. split.
  - apply Forall_forall. intros e Hin. apply list_elem_of_lookup in Hin as [i Hi].
    destruct (Forall2_lookup_r _ _ _ _ _ He Hi) as (p & _ & Hp).
    by eapply (encodes_small c (ca_opt args)); [done|apply good_bs|].
  - unfold zlen. rewrite <- (Forall2_length _ _ _ He). fold (zlen (plain_blocks l)).
    pose proof (zlen_plain_blocks l). pose proof good_bs. lia.
Qed.

Lemma write_buffer_ok encs b src : zb_holds args c encs b → 0 < zlen src ≤ bs →
  Forall (small_enc bs) encs → (zlen encs + 1) * bs ≤ 2 ^ 62 →
  ∃ b', write_buffer src b = (b', Ok tt)
    ∧ zb_holds args c (encs ++ [encode_last c (ca_opt args) g src]) b' ∧ zb_kept b b'.
Proof.
  intros [K1 K2 K3 K4 K5 K6 K7 K8] Hl Hs Hn. pose proof good_bs as Hbs. destruct Hgood as (_ & _ & [_ _ Hd]).
  destruct (encode_last_ok c (ca_opt args) g Hgc Hbs src Hl) as [Ho He].
  pose proof (encodes_small c (ca_opt args) g Hgc Hbs _ _ He) as Hsm.
  set (out := encode_last c (ca_opt args) g src) in *.
  destruct (small_blocks_end bs (ca_opt args) (encs ++ [out])) as [Hb Hu]; [|lia|done|].
  { split; [apply Forall_app; split; [done|by constructor]|]. rewrite zlen_app. unfold zlen in *; simpl; lia. }
  pose proof (zlen_nonneg (encs ++ [out])). rewrite blocks_end_app in Hu.
  cbn [concat] in Hu. rewrite app_nil_r in Hu.
  pose proof (blocks_end_start (ca_opt args) encs ltac:(lia)) as Hst. unfold HEADER_TRAILER_SPACE in Hst.
  unfold write_buffer, zb_bs, zb_opt, zb_gen_crc. unfold zb_opt. rewrite K1, K2, K6. fold (gen_crc_of args).
  rewrite Ho. unfold ebind, elift, on_dest. rewrite write_all_at_ok by lia.
  unfold u32_or, U32_MAX, checked_add_or, checked_add64. destruct (Z.leb_spec (zlen out) (2 ^ 32 - 1)); [|lia].
  cbn [emodify]. destruct (Z.leb_spec (blocks_end (ca_opt args) encs + zlen out) U64_MAX); [|lia].
  eexists. split; [reflexivity|]. split; [|done].
  constructor; try done; cbn [zb_set_moffset zb_push_lens zb_set_file zb_with zb_dest zb_block_len zb_moffset].
  - pose proof (file_holds_append (zb_dest b) (ca_opt args) encs [out] K3) as Hf. cbn [concat] in Hf.
    by rewrite app_nil_r in Hf.
  - by rewrite K5, fmap_app.
  - rewrite blocks_end_app. cbn [concat]. by rewrite app_nil_r.
Qed.

Lemma zb_finish_ok data b : zb_given data b →
  ∃ b', zb_finish b = (b', Ok tt) ∧ zb_finished b' = true
    ∧ zb_dest b' = zfile_image (ca_opt args) (ca_overwrite_header args) (builder_blocks data) (zlen data).
Proof.
  intros [Hb Hr Hw Hd]. pose proof good_bs as Hbs. pose proof (full_blocks_spec data) as Hn.
  pose proof (zlen_nonneg data). destruct Hgood as (_ & _ & [_ _ Hdict]).
  set (n := full_blocks data) in *. set (tail := zdrop (Z.of_nat n * bs) data) in *.
  assert (zlen tail = zlen data - Z.of_nat n * bs) as Htl by (unfold tail; rewrite zlen_zdrop; lia).
  assert (Forall (small_enc bs) (enc_blocks n data)) as Hs by (apply enc_blocks_small; lia).
  assert (∃ b1, (if negb (is_nil (zb_reserved b))
      then let! _ := write_buffer (zb_reserved b) in emodify (zb_set_reserved []) else eret tt) b = (b1, Ok tt)
    ∧ zb_holds args c (builder_blocks data) b1 ∧ zb_raw_data_size b1 = zlen data) as (b1 & E1 & Hb1 & Hw1).
  { unfold builder_blocks. fold n tail. rewrite Hr. destruct (is_nil tail) eqn:Enil; cbn [negb].
    - exists b. by rewrite app_nil_r.
    - assert (0 < zlen tail). { destruct tail; [done|]. rewrite zlen_cons. pose proof (zlen_nonneg tail). lia. }
      destruct (write_buffer_ok _ b tail Hb) as (b1 & E1 & Hb1 & Hk & Hk2); [lia|done|rewrite zlen_enc_blocks; nia|].
      rewrite (ebind_ok _ _ _ _ _ E1). eexists. split; [reflexivity|]. split; [by apply zb_holds_set_reserved|].
      cbn. congruence. }
  pose proof (builder_blocks_small data Hd) as Hsm.
  destruct (small_blocks_end bs (ca_opt args) _ Hsm ltac:(lia) Hdict) as [_ Hu].
  unfold zb_finish. rewrite (zk_open _ _ _ _ Hb), (ebind_ok _ _ _ _ _ E1).
  destruct (finish_file_ok (zb_dest b1) (ca_opt args) (builder_blocks data) (ca_overwrite_header args) (zlen data))
    as (h' & Ef); [apply Hb1|lia|done|].
  unfold ebind, on_header. rewrite (zk_args _ _ _ _ Hb1), (zk_lens _ _ _ _ Hb1), (zk_moffset _ _ _ _ Hb1),
    (zk_ht _ _ _ _ Hb1), Hw1, Ef. eexists. split; [reflexivity|]. done.
Qed.
End Builder.

(** ** Compressing a whole file *)
Section Whole.
Context `{CodecSpec, Crc32cSpec, FileWriterSpec, FileReaderSpec}.
Context (args : CompressArgs) (c : Compressor).
Context (Hgood : good_options (ca_opt args)) (Hcc : create_compressor (ca_opt args) = Ok c)
  (Hgc : good_compressor c (ca_opt args)).

Abbreviation bs := (co_block_size (ca_opt args)).
Abbreviation g := (gen_crc_of args).

Lemma read_raw_ok fuel : ∀ src off n raw, 0 ≤ off → off + n ≤ zlen src → zlen raw ≤ n →
  (Z.to_nat (n - zlen raw) ≤ fuel)%nat → raw = slice off (zlen raw) src →
  read_raw fuel src off n raw = slice off n src.
Proof.
  induction fuel as [|fuel IH]; intros src off n raw Ho Hn Hr Hf Hs; pose proof (zlen_nonneg raw);
    cbn [read_raw]; destruct (Z.leb_spec n (zlen raw)); try lia.
  - by replace n with (zlen raw) by lia.
  - by replace n with (zlen raw) by lia.
  - destruct (fr_prefix src (off + zlen raw) (n - zlen raw)) as (k & -> & Hk & Hk1 & Hk2); [lia..|].
    assert (zlen (slice (off + zlen raw) k src) = k) as Hl by (apply zlen_slice; lia).
    destruct (slice (off + zlen raw) k src) as [|x ch] eqn:E; cbn [is_nil].
    { rewrite zlen_nil in Hl. lia. }
    rewrite <- E in *. apply IH; [done|done|rewrite zlen_app; lia|rewrite zlen_app; lia|].
    rewrite Hs at 1. rewrite slice_slice_app, zlen_app, Hl by lia. done.
Qed.

(** One round of the loop writes the encoding of one block. *)
Lemma write_raw_chunk_ok f encs src : file_holds f (ca_opt args) encs → 0 < zlen src ≤ bs →
  Forall (small_enc bs) encs → (zlen encs + 1) * bs ≤ 2 ^ 62 →
  ∃ outs f', compress_batch c src [zlen src] (1 * (bs + BUF_SIZE)) 1 = Ok outs
    ∧ write_raw_chunks g outs (f, (zlen <$> encs, blocks_end (ca_opt args) encs))
      = ((f', (zlen <$> (encs ++ [encode_last c (ca_opt args) g src]),
               blocks_end (ca_opt args) (encs ++ [encode_last c (ca_opt args) g src]))), Ok tt)
    ∧ file_holds f' (ca_opt args) (encs ++ [encode_last c (ca_opt args) g src]).
Proof.
  intros Hf Hl Hs Hn. destruct Hgood as (_ & Hbs & [_ _ Hd]). unfold MAX_READ_SIZE in Hbs.
  pose proof (block_room_bound c (ca_opt args) g Hgc Hbs) as [Hr1 Hr2].
  destruct (compress_data_ok c (ca_opt args) g src (bs + BUF_SIZE) Hgc Hl) as (body & Hc & Ho & He).
  { unfold block_room, BUF_SIZE in *. lia. }
  assert (encode_last c (ca_opt args) g src = body ++ crc_trailer g body) as ->
    by (unfold encode_last, encode_with; by rewrite Ho).
  pose proof (encodes_small c (ca_opt args) g Hgc Hbs _ _ He) as Hsm.
  set (out := body ++ crc_trailer g body) in *.
  assert (zlen out = zlen body + (if g then 4 else 0)) as Hol by (unfold out; by rewrite zlen_app, zlen_crc_trailer).
  assert (zlen body ≤ zlen out) by (destruct g; lia).
  destruct (small_blocks_end bs (ca_opt args) (encs ++ [out])) as [Hb Hu]; [|lia|done|].
  { split; [apply Forall_app; split; [done|by constructor]|]. rewrite zlen_app. unfold zlen in *; simpl; lia. }
  pose proof (zlen_nonneg (encs ++ [out])). pose proof (zlen_nonneg body). rewrite blocks_end_app in *.
  cbn [concat] in *. rewrite app_nil_r in *.
  pose proof (blocks_end_start (ca_opt args) encs ltac:(lia)) as Hst. unfold HEADER_TRAILER_SPACE in Hst.
  set (off := blocks_end (ca_opt args) encs) in *.
  exists [body], (file_write f off out). split; [|split].
  - unfold compress_batch, ensure. rewrite Z.div_1_r. cbn [Z.eqb]. change (1 <=? zlen [zlen src]) with true. cbn [rbind].
    rewrite Z.mul_1_l. unfold BUF_SIZE, block_room in *. destruct (Z.leb_spec (cp_max_dst_size c) (bs + 512)); [|destruct g; lia].
    cbn [rbind]. change (Z.to_nat 1) with 1%nat. cbn [compress_batch_loop]. change (byte_at [zlen src] 0) with (zlen src).
    unfold checked_add_or, checked_add64. rewrite Z.add_0_l. destruct (Z.leb_spec (zlen src) U64_MAX); [|unfold U64_MAX in *; lia].
    cbn [rbind]. unfold ensure. rewrite Z.leb_refl. cbn [rbind].
    assert (slice 0 (zlen src) src = src) as -> by (unfold slice; rewrite zdrop_0 by lia; by apply ztake_all).
    by rewrite Hc.
  - cbn [write_raw_chunks]. unfold write_raw_chunk, ebind. cbn [fst snd]. rewrite write_all_at_ok by lia.
    unfold elift, checked_add_or, checked_add64, u32_or, U32_MAX, emodify, eret.
    unfold out, crc_trailer in *. destruct g.
    + destruct (Z.leb_spec (off + zlen body) U64_MAX); [|lia]. cbn [fst snd].
      rewrite write_all_at_ok, file_write_app by (rewrite ?zlen_le_bytes; lia).
      destruct (Z.leb_spec (zlen body + 4) (2 ^ 32 - 1)); [|lia]. cbn [fst snd].
      destruct (Z.leb_spec (off + (zlen body + 4)) U64_MAX); [|lia].
      rewrite fmap_app, Hol. cbn [fst snd fmap list_fmap]. by rewrite Hol.
    + rewrite app_nil_r in *. destruct (Z.leb_spec (zlen body) (2 ^ 32 - 1)); [|lia]. cbn [fst snd].
      destruct (Z.leb_spec (off + zlen body) U64_MAX); [|lia].
      by rewrite fmap_app.
  - pose proof (file_holds_append f (ca_opt args) encs [out] Hf) as Hfa. cbn [concat] in Hfa. by rewrite app_nil_r in Hfa.
Qed.

Lemma raw_chunk_lens_one fuel n : 0 < n ≤ bs → (0 < fuel)%nat → raw_chunk_lens fuel n bs = [n].
Proof.
  intros Hn Hf. destruct fuel as [|fuel]; [lia|]. cbn [raw_chunk_lens].
  destruct (Z.leb_spec n 0); [lia|]. rewrite Z.min_l by lia. rewrite Z.sub_diag. by destruct fuel.
Qed.

Definition compress_blocks_of (data : list Z) : list (list Z) :=
  encode_last c (ca_opt args) g <$> plain_blocks args data.

Lemma compress_loop_ok fuel : ∀ src off encs f, 0 ≤ off ≤ zlen src → (Z.to_nat (zlen src - off) ≤ fuel)%nat →
  file_holds f (ca_opt args) encs → Forall (small_enc bs) encs → (off < zlen src → zlen encs * bs = off) →
  zlen src < 2 ^ 61 →
  ∃ f', zcompress_loop fuel c (ca_opt args) src off off (f, (zlen <$> encs, blocks_end (ca_opt args) encs))
        = ((f', (zlen <$> (encs ++ compress_blocks_of (zdrop off src)),
                 blocks_end (ca_opt args) (encs ++ compress_blocks_of (zdrop off src)))), Ok (zlen src))
    ∧ file_holds f' (ca_opt args) (encs ++ compress_blocks_of (zdrop off src))
    ∧ Forall (small_enc bs) (encs ++ compress_blocks_of (zdrop off src)).
Proof.
  pose proof (good_bs args Hgood) as Hbs.
  induction fuel as [|fuel IH]; intros src off encs f Ho Hf Hh Hs Hn Hl; cbn [zcompress_loop];
    destruct (Z.leb_spec (zlen src) off) as [Hle|Hgt]; try lia.
  1, 2: assert (off = zlen src) as -> by lia; assert (zdrop (zlen src) src = []) as ->
      by (apply zlen_0; rewrite zlen_zdrop; lia); unfold compress_blocks_of;
      rewrite (plain_blocks_nil args Hgood); cbn [fmap list_fmap]; rewrite app_nil_r; by exists f.
  unfold nbatch. rewrite Z.mul_1_r. set (n := Z.min (zlen src - off) bs).
  assert (0 < n ≤ bs ∧ off + n ≤ zlen src) as [Hnb Hnl] by (unfold n; lia).
  rewrite (read_raw_ok _ src off n []) by (rewrite ?zlen_nil; done || lia).
  set (raw := slice off n src). assert (zlen raw = n) as Hraw by (apply zlen_slice; lia).
  assert (is_nil raw = false) as -> by (destruct raw; [rewrite zlen_nil in Hraw; lia|done]).
  unfold ebind at 1, elift, checked_add_or, checked_add64. rewrite Hraw.
  destruct (Z.leb_spec (off + n) U64_MAX); [|unfold U64_MAX in *; lia].
  unfold ebind at 1. rewrite raw_chunk_lens_one by (unfold zlen in Hraw; lia). rewrite <- Hraw.
  change (zlen [zlen raw]) with 1.
  destruct (write_raw_chunk_ok f encs raw Hh) as (outs & f1 & Ec & Ep & Hh1); [lia|done|lia|].
  rewrite Ec. unfold ebind at 1. change (negb (co_verify (ca_opt args) =? 0)) with g.
  rewrite (ebind_ok _ _ _ _ _ Ep). rewrite Hraw.
  assert (compress_blocks_of (zdrop off src)
          = encode_last c (ca_opt args) g raw :: compress_blocks_of (zdrop (off + n) src)) as Hstep.
  { unfold compress_blocks_of. rewrite (plain_blocks_step args Hgood).
    2: { intros E. apply (f_equal zlen) in E. rewrite zlen_zdrop in E by lia. unfold zlen in *. simpl in E. lia. }
    rewrite fmap_cons. f_equal.
    - f_equal. unfold raw, slice. destruct (decide (n = bs)) as [->|]; [done|].
      rewrite !ztake_all; [done|rewrite zlen_zdrop; lia..].
    - f_equal. f_equal. rewrite zdrop_zdrop by lia. destruct (decide (n = bs)) as [->|]; [done|].
      apply (eq_trans (y := [])); [|symmetry]; apply zlen_0; rewrite zlen_zdrop; lia. }
  destruct (IH src (off + n) (encs ++ [encode_last c (ca_opt args) g raw]) f1) as (f' & E' & Hh' & Hs');
    [lia|lia|done| | |done|].
  - apply Forall_app. split; [done|]. constructor; [|constructor].
    eapply (encodes_small c (ca_opt args)); [done|done|]. apply encode_last_ok; done || lia.
  - rewrite zlen_app. change (zlen [_]) with 1. unfold n in *. lia.
  - exists f'. rewrite <- app_assoc in *. cbn [app] in *. rewrite Hstep. done.
Qed.

(** [zfile_compress] writes the image of the source. *)
Lemma zfile_compress_image src : zlen src < 2 ^ 61 →
  zfile_compress src args []
  = (zfile_image (ca_opt args) (ca_overwrite_header args) (compress_blocks_of src) (zlen src), Ok tt).
Proof.
  intros Hl. pose proof (good_bs args Hgood) as Hbs. destruct Hgood as (_ & _ & [_ _ Hd]).
  unfold zfile_compress. rewrite Hcc, write_header_ok by (done || (unfold U64_MAX; lia)).
  unfold ensure, checked_add_or, checked_add64, BUF_SIZE. destruct (Z.eqb_spec bs 0); [lia|]. cbn [negb rbind].
  destruct (Z.leb_spec (bs + 512) U64_MAX); [|unfold U64_MAX in *; lia].
  change (stamped true false true false _) with (first_header (ca_opt args)).
  set (f0 := file_write [] 0 (zheader_layout (first_header (ca_opt args)))).
  assert (file_holds f0 (ca_opt args) []) as Hf0 by (apply file_holds_start; lia).
  pose proof (zlen_nonneg src).
  destruct (compress_loop_ok (length src) src 0 [] f0) as (f' & E & Hh & Hs);
    [lia|unfold zlen; lia|done|constructor|done|done|].
  change (zlen <$> []) with (@nil Z) in E.
  replace (blocks_end (ca_opt args) []) with (HEADER_TRAILER_SPACE + co_dict_size (ca_opt args)) in E
    by (symmetry; apply Z.add_0_r).
  rewrite E. cbn [app] in *. rewrite (zdrop_0 0 src) in * by lia.
  destruct (finish_file_ok f' (ca_opt args) (compress_blocks_of src) (ca_overwrite_header args) (zlen src))
    as (h' & Ef); [done|lia| |by rewrite Ef].
  apply (small_blocks_end bs); [|lia|done]. split; [done|]. unfold compress_blocks_of. rewrite zlen_fmap.
  pose proof (zlen_plain_blocks args Hgood src). lia.
Qed.
End Whole.
