(* ===== verification/ZRead.v ===== *)
(** * Reading a compressed file

    [load_jump_table], [zfile_open_ro], [ZFileRO] with its coalesced reads and
    per-block retries, [zfile_decompress], [zfile_validation_check] and
    [is_zfile] of [storage/overlaybd/src/compression/zfile.rs].

    The file below is any [VirtualFile] ([BackingFile]): its reads may be
    short, may fail and, when it is a cache, may return other bytes than the
    ones written; evicting a range makes it fetch the range again.  Counters
    and timings of a read are not modelled. *)

From S2P Require Import Prelude LsmtIo ZFormat ZBuild.

Open Scope result_scope.

(** ** The file below *)
Class BackingFile (W : Type) : Type := {
  bf_read : Z → Z → eff W zfile_error (list Z);       (** [read_at_into]: offset, length *)
  bf_evict_range : Z → Z → eff W zfile_error unit;
  bf_evict_all : eff W zfile_error unit;
  bf_size : eff W zfile_error Z
}.

Definition MAX_COALESCED_READ_SIZE : Z := 64 * 1024.
Definition JUMP_TABLE_READ_CHUNK_SIZE : Z := 2 ^ 20.

(** The index as numbers: [as_chunks::<4>]. *)
Fixpoint decode_index (n : nat) (raw : list Z) : list Z :=
  match n with
  | O => []
  | S n' => le_val (ztake 4 raw) :: decode_index n' (zdrop 4 raw)
  end.

Section Reader.
Context {W : Type} `{BackingFile W, Codec, Crc32c, Completion}.

(** [read_exact]: every round takes at least one byte. *)
Fixpoint zread_exact_loop (fuel : nat) (offset len : Z) (acc : list Z) : eff W zfile_error (list Z) :=
  if len <=? 0 then eret acc
  else match fuel with
       | O => eerr EndOfFile
       | S fuel' =>
           let! got := bf_read offset len in
           let n := zlen got in
           if n =? 0 then eerr EndOfFile
           else
             let! offset := elift (checked_add_or SizeOverflow offset n) in
             zread_exact_loop fuel' offset (len - n) (acc ++ got)
       end.

Definition read_exact_at (offset len : Z) : eff W zfile_error (list Z) :=
  zread_exact_loop (Z.to_nat len) offset len [].

(** The chunk reads run concurrently; [order] is the order they are served in.
    Each result goes to its own place of the output. *)
Fixpoint read_chunk_loop (order : list Z) (offset len : Z) (out : list Z) : eff W zfile_error (list Z) :=
  match order with
  | [] => eret out
  | k :: order' =>
      let chunk_offset := k * JUMP_TABLE_READ_CHUNK_SIZE in
      let chunk_len := Z.min JUMP_TABLE_READ_CHUNK_SIZE (len - chunk_offset) in
      let! buf := read_exact_at (wrap64 (offset + chunk_offset)) chunk_len in
      read_chunk_loop order' offset len (splice out chunk_offset buf)
  end.

Definition read_exact_chunks_at (offset len : Z) : eff W zfile_error (list Z) :=
  if len =? 0 then eret []
  else if len <=? JUMP_TABLE_READ_CHUNK_SIZE then read_exact_at offset len
  else
    let chunk_count := div_ceil len JUMP_TABLE_READ_CHUNK_SIZE in
    read_chunk_loop (completion_order 0 (seqZ 0 chunk_count)) offset len (zeros len).

(** ** Opening *)

(** Where the index is: the trailer, or the header when it was overwritten. *)
Definition select_header (header : ZHeader) (st_size : Z) : eff W zfile_error (ZHeader * Z) :=
  if negb (zh_is_header_overwrite header) then
    let! _ := elift (ensure (zh_is_data_file header) BadHeader) in
    let! _ := elift (ensure (HEADER_TRAILER_SPACE <=? st_size) BadTrailer) in
    let trailer_offset := st_size - HEADER_TRAILER_SPACE in
    let! buf := read_exact_at trailer_offset HEADER_TRAILER_SPACE in
    let! trailer := elift (decode_from_512 buf) in
    let! _ := elift (ensure (verify_zmagic trailer && zh_is_trailer trailer
                             && zh_is_data_file trailer && zh_is_sealed trailer) BadTrailer) in
    let! index_bytes := elift (mul_u64_to_usize (zh_index_size trailer) 4) in
    let! _ := elift (ensure (zh_index_offset trailer <=? trailer_offset) BadIndex) in
    let! _ := elift (ensure (index_bytes <=? trailer_offset - zh_index_offset trailer) BadIndex) in
    eret (trailer, index_bytes)
  else
    let! index_bytes := elift (mul_u64_to_usize (zh_index_size header) 4) in
    let! _ := elift (ensure (zh_index_offset header <=? st_size) BadIndex) in
    let! _ := elift (ensure (index_bytes <=? st_size - zh_index_offset header) BadIndex) in
    eret (header, index_bytes).

Definition load_jump_table : eff W zfile_error (ZHeader * JumpTable) :=
  let! buf := read_exact_at 0 HEADER_TRAILER_SPACE in
  let! header := elift (decode_from_512 buf) in
  let! _ := elift (ensure (verify_zmagic header && zh_is_header header) BadHeader) in
  let! _ := elift (ensure (zh_is_valid header buf) BadDigest) in
  let! st_size := bf_size in
  let! (selected, index_bytes) := select_header header st_size in
  let! index_raw := read_exact_chunks_at (zh_index_offset selected) index_bytes in
  let! _ := elift (if zh_is_digest_enabled selected
                   then ensure (crc32c index_raw =? zh_index_crc selected) IndexChecksum else Ok tt) in
  let nindex := zh_index_size selected in
  let! _ := elift (ensure (negb (nindex =? 0)) EmptyIndex) in
  let! _ := elift (ensure (zlen index_raw =? nindex * 4) BadIndex) in
  let ibuf := decode_index (Z.to_nat nindex) index_raw in
  let! table := elift (JumpTable_build ibuf (HEADER_TRAILER_SPACE + co_dict_size (zh_opt selected))
                         (co_block_size (zh_opt selected)) (negb (co_verify (zh_opt selected) =? 0))) in
  eret (selected, table).

(** The loop around [load_jump_table], [retry] more times after a failure. *)
Fixpoint load_with_retry (retry : nat) (verify : bool) : eff W zfile_error (ZHeader * JumpTable) := λ w,
  match load_jump_table w with
  | (w, Ok v) => (w, Ok v)
  | (w, Err e) =>
      match retry with
      | S retry' => if verify then (let! _ := bf_evict_all in load_with_retry retry' verify) w else (w, Err e)
      | O => (w, Err e)
      end
  end.

Inductive ValidMode : Type := Normal | CrcOnly.

Record ZFileRO : Type := {
  ro_ht : ZHeader;
  ro_table : JumpTable;
  ro_compressor : Compressor;
  ro_valid_mode : ValidMode;
  ro_data_verify : bool
}.

Definition zfile_open_ro (verify : bool) : eff W zfile_error ZFileRO :=
  let! (ht, table) := load_with_retry 2 verify in
  let! compressor := elift (create_compressor (zh_opt ht)) in
  eret {| ro_ht := ht; ro_table := table; ro_compressor := compressor; ro_valid_mode := Normal;
          ro_data_verify := negb (co_verify (zh_opt ht) =? 0) |}.

Definition original_size (z : ZFileRO) : Z := zh_original_file_size (ro_ht z).
Definition ro_options (z : ZFileRO) : CompressOptions := zh_opt (ro_ht z).

Definition set_crc_check_only (z : ZFileRO) : ZFileRO := {|
  ro_ht := ro_ht z; ro_table := ro_table z; ro_compressor := ro_compressor z;
  ro_valid_mode := CrcOnly; ro_data_verify := ro_data_verify z
|}.

Definition compressed_block_extent (z : ZFileRO) (logical_offset : Z) : result zfile_error (Z * Z) :=
  let block_size := co_block_size (ro_options z) in
  let? _ := ensure (negb (block_size =? 0)) BadBlockSize in
  let idx := logical_offset / block_size in
  let? bgn := offset_at (ro_table z) idx in
  let? e := offset_at (ro_table z) (idx + 1) in
  Ok (bgn, saturating_sub e bgn).

(** ** Reading blocks *)

(** The loop of [plan_coalesced_batch]; it moves one block at a time. *)
Fixpoint coalesce_loop (fuel : nat) (t : JumpTable) (batch_begin next end_idx : Z) : result zfile_error Z :=
  if end_idx <=? next then Ok next
  else match fuel with
       | O => Err BadOffsets
       | S fuel' =>
           let? candidate_end := offset_at t (next + 1) in
           let? span := checked_sub_or BadOffsets candidate_end batch_begin in
           if MAX_COALESCED_READ_SIZE <? span then Ok next
           else coalesce_loop fuel' t batch_begin (next + 1) end_idx
       end.

Definition plan_coalesced_batch (t : JumpTable) (begin_idx end_idx : Z) : result zfile_error Z :=
  let? batch_begin := offset_at t begin_idx in
  coalesce_loop (Z.to_nat (end_idx - begin_idx)) t batch_begin (begin_idx + 1) end_idx.

(** The caller's buffer and the scratch block for partial blocks. *)
Record ReadBufs : Type := {
  rb_buf : list Z;
  rb_raw : option (list Z)
}.

(** One attempt to decode [block] into the buffer at [written].  [true] is
    success, [false] an output of the wrong size, which is tried again. *)
Definition decode_once (z : ZFileRO) (block : list Z) (compressed_size cp_begin cp_len written : Z) (b : ReadBufs)
  : result zfile_error (bool * ReadBufs) :=
  let block_size := co_block_size (ro_options z) in
  let body := ztake compressed_size block in
  if (cp_begin =? 0) && (cp_len =? block_size) then
    let? out := decompress (ro_compressor z) body cp_len in
    Ok (zlen out =? cp_len, {| rb_buf := splice (rb_buf b) written out; rb_raw := rb_raw b |})
  else
    let raw := default (zeros block_size) (rb_raw b) in
    let? out := decompress (ro_compressor z) body (zlen raw) in
    let raw := splice raw 0 out in
    let end_pos := cp_begin + cp_len in
    if zlen out <? end_pos then Ok (false, {| rb_buf := rb_buf b; rb_raw := Some raw |})
    else Ok (true, {| rb_buf := splice (rb_buf b) written (slice cp_begin cp_len raw); rb_raw := Some raw |}).

Definition crc_matches (block : list Z) (compressed_size : Z) : bool :=
  crc32c_salt (ztake compressed_size block) =? le_val (slice compressed_size 4 block).

(** The loop over one block: a failed attempt evicts the block and reads it
    again on its own, at most [retry] times. *)
Fixpoint read_block (retry : nat) (z : ZFileRO) (block_begin encoded_len compressed_size cp_begin cp_len written : Z)
    (block : list Z) (b : ReadBufs) : eff W zfile_error ReadBufs :=
  let again (e : zfile_error) (b : ReadBufs) : eff W zfile_error ReadBufs :=
    match retry with
    | O => eerr e
    | S retry' =>
        let! _ := bf_evict_range block_begin encoded_len in
        let! block := read_exact_at block_begin encoded_len in
        read_block retry' z block_begin encoded_len compressed_size cp_begin cp_len written block b
    end in
  if ro_data_verify z && negb (crc_matches block compressed_size) then again ChecksumMismatch b
  else match ro_valid_mode z with
       | CrcOnly => eret b
       | Normal =>
           let! (ok, b) := elift (decode_once z block compressed_size cp_begin cp_len written b) in
           if (ok : bool) then eret b else again WrongSize b
       end.

(** The blocks [idx .. idx + n] of a batch whose bytes are [merged]. *)
Fixpoint read_batch_blocks (n : nat) (z : ZFileRO) (idx begin_idx end_idx offset endp batch_begin : Z)
    (merged : list Z) (written : Z) (b : ReadBufs) : eff W zfile_error (Z * ReadBufs) :=
  match n with
  | O => eret (written, b)
  | S n' =>
      let block_size := co_block_size (ro_options z) in
      let! block_begin := elift (offset_at (ro_table z) idx) in
      let! block_end := elift (offset_at (ro_table z) (idx + 1)) in
      let! encoded_len := elift (checked_sub_or BadOffsets block_end block_begin) in
      let! merged_begin := elift (checked_sub_or BadOffsets block_begin batch_begin) in
      let! compressed_size := elift (if ro_data_verify z then checked_sub_or BadOffsets encoded_len 4
                                     else Ok encoded_len) in
      let cp_begin := if idx =? begin_idx then offset mod block_size else 0 in
      let cp_len := if idx =? end_idx - 1 then endp mod block_size + 1 else block_size in
      let! cp_len := elift (checked_sub_or BadOffsets cp_len cp_begin) in
      let! b := read_block 3 z block_begin encoded_len compressed_size cp_begin cp_len written
                  (slice merged_begin encoded_len merged) b in
      read_batch_blocks n' z (idx + 1) begin_idx end_idx offset endp batch_begin merged (written + cp_len) b
  end.

(** The batches from [batch_idx] to [end_idx]; a batch has at least one block. *)
Fixpoint read_batches (fuel : nat) (z : ZFileRO) (batch_idx begin_idx end_idx offset endp written : Z) (b : ReadBufs)
  : eff W zfile_error (Z * ReadBufs) :=
  if end_idx <=? batch_idx then eret (written, b)
  else match fuel with
       | O => eerr BadOffsets
       | S fuel' =>
           let! batch_end_idx := elift (plan_coalesced_batch (ro_table z) batch_idx end_idx) in
           let! batch_begin := elift (offset_at (ro_table z) batch_idx) in
           let! batch_end := elift (offset_at (ro_table z) batch_end_idx) in
           let! batch_len := elift (checked_sub_or BadOffsets batch_end batch_begin) in
           let! merged := read_exact_at batch_begin batch_len in
           let! (written, b) := read_batch_blocks (Z.to_nat (batch_end_idx - batch_idx)) z batch_idx
                                   begin_idx end_idx offset endp batch_begin merged written b in
           read_batches fuel' z batch_end_idx begin_idx end_idx offset endp written b
       end.

(** [pread] into a buffer: the number of bytes and the buffer. *)
Definition pread (z : ZFileRO) (buf : list Z) (offset : Z) : eff W zfile_error (Z * list Z) :=
  let block_size := co_block_size (ro_options z) in
  let! _ := elift (ensure (block_size <=? MAX_READ_SIZE) BadBlockSize) in
  if original_size z <=? offset then eret (0, buf)
  else
    let clamped := Z.min (zlen buf) (original_size z - offset) in
    if clamped =? 0 then eret (0, buf)
    else
      let begin_idx := offset / block_size in
      let endp := offset + clamped - 1 in
      let end_idx := endp / block_size + 1 in
      let! (written, b) := read_batches (Z.to_nat (end_idx - begin_idx)) z begin_idx begin_idx end_idx offset endp 0
                              {| rb_buf := buf; rb_raw := None |} in
      eret (written, rb_buf b).

(** [read_at] of the [VirtualFile] that a reader is. *)
Definition zfile_read_at (z : ZFileRO) (offset len : Z) : eff W zfile_error (list Z) :=
  let! (n, buf) := pread z (zeros len) offset in
  eret (ztake n buf).

(** ** Whole files *)

(** The loop of [zfile_decompress]. *)
Fixpoint decompress_loop `{FileWriter} (fuel : nat) (z : ZFileRO) (offset : Z) (raw_buf dst : list Z) : eff W zfile_error (list Z) :=
  let raw_data_size := original_size z in
  if raw_data_size <=? offset then eret dst
  else match fuel with
       | O => eerr SizeOverflow
       | S fuel' =>
           let len := Z.min (co_block_size (ro_options z)) (raw_data_size - offset) in
           let! (readn, part) := pread z (ztake len raw_buf) offset in
           let! _ := elift (ensure (readn =? len) WrongSize) in
           let '(dst, r) := write_all_at (ztake readn part) offset dst in
           let! _ := elift r in
           decompress_loop fuel' z (offset + len) (splice raw_buf 0 part) dst
       end.

Definition zfile_decompress `{FileWriter} (dst : list Z) : eff W zfile_error (list Z) :=
  let! z := zfile_open_ro true in
  decompress_loop (Z.to_nat (original_size z)) z 0 (zeros (co_block_size (ro_options z))) dst.

Fixpoint validation_loop (fuel : nat) (z : ZFileRO) (offset : Z) (scratch : list Z) : eff W zfile_error unit :=
  let raw_data_size := original_size z in
  if raw_data_size <=? offset then eret tt
  else match fuel with
       | O => eerr SizeOverflow
       | S fuel' =>
           let len := Z.min (co_block_size (ro_options z)) (raw_data_size - offset) in
           let! (readn, part) := pread z (ztake len scratch) offset in
           let! _ := elift (ensure (readn =? len) ChecksumMismatch) in
           validation_loop fuel' z (offset + len) (splice scratch 0 part)
       end.

Definition zfile_validation_check : eff W zfile_error unit :=
  let! z := zfile_open_ro true in
  let! _ := elift (ensure (negb (co_verify (ro_options z) =? 0)) NoDataChecksum) in
  let z := set_crc_check_only z in
  validation_loop (Z.to_nat (original_size z)) z 0 (zeros (co_block_size (ro_options z))).

Definition is_zfile_header (buf : list Z) : result zfile_error bool :=
  let? ht := decode_from_512 buf in
  if negb (verify_zmagic ht) || negb (zh_is_header ht) then Ok false
  else
    let? _ := ensure (zh_is_valid ht buf) BadDigest in
    Ok true.

Definition is_zfile : eff W zfile_error Z :=
  let! buf := read_exact_at 0 HEADER_TRAILER_SPACE in
  let! b := elift (is_zfile_header buf) in
  eret (if (b : bool) then 1 else 0).
End Reader.
