(* ===== verification/ZPread.v ===== *)
(** * What a reader of a compressed file returns

    The proofs about [ZFileRO::pread].  One development serves two readings of
    the file below: with [Fail := False] the read has to succeed, with
    [Fail := True] it may return an error, and in both cases the bytes of a
    successful read are the original ones. *)

From S2P Require Import Prelude LsmtIo ZFormat ZBuild ZImage ZRead.

Open Scope result_scope.

(** ** Outcomes of stateful code *)

(** Every successful outcome satisfies [Q]; an error is possible only if [Fail]. *)
Definition outcome {S A} (Fail : Prop) (r : S * result zfile_error A) (Q : S → A → Prop) : Prop :=
  match r with
  | (s, Ok a) => Q s a
  | (_, Err _) => Fail
  end.

Section Outcome.
Context {S : Type} {Fail : Prop}.

Lemma outcome_bind {A B} (m : eff S zfile_error A) (k : A → eff S zfile_error B) s Q :
  outcome Fail (m s) (λ s' a, outcome Fail (k a s') Q) → outcome Fail (ebind m k s) Q.
Proof. unfold outcome, ebind. by destruct (m s) as [s' [a|e]]. Qed.

Lemma outcome_bind_ok {A B} (r : result zfile_error A) (k : A → eff S zfile_error B) s a Q :
  r = Ok a → outcome Fail (k a s) Q → outcome Fail (ebind (elift r) k s) Q.
Proof. by intros ->. Qed.

Lemma outcome_mono {A} (r : S * result zfile_error A) (P Q : S → A → Prop) :
  (∀ s a, P s a → Q s a) → outcome Fail r P → outcome Fail r Q.
Proof. unfold outcome. destruct r as [s [a|e]]; auto. Qed.
End Outcome.

Lemma outcome_False {S A} (r : S * result zfile_error A) (Q : S → A → Prop) :
  outcome False r Q → ∃ s a, r = (s, Ok a) ∧ Q s a.
Proof. destruct r as [s [a|e]]; simpl; [by eauto|done]. Qed.

(** ** The geometry of a request *)

Section Geometry.
Context (bs offset endp : Z).
Context (Hbs : 0 < bs) (Ho : 0 ≤ offset ≤ endp).

(** Bytes delivered before block [idx]. *)
Definition delivered (idx : Z) : Z := Z.max 0 (Z.min (idx * bs) (endp + 1) - offset).

Lemma delivered_begin : delivered (offset / bs) = 0.
Proof. unfold delivered. pose proof (Z.mul_div_le offset bs Hbs). lia. Qed.

Lemma delivered_end : delivered (endp / bs + 1) = endp + 1 - offset.
Proof. unfold delivered. pose proof (Z.mul_succ_div_gt endp bs Hbs). lia. Qed.

Lemma block_geometry idx : offset / bs ≤ idx < endp / bs + 1 →
  let cb := if idx =? offset / bs then offset mod bs else 0 in
  let cl := if idx =? endp / bs + 1 - 1 then endp mod bs + 1 else bs in
  0 ≤ cb < cl ∧ cl = Z.min bs (endp + 1 - idx * bs) ∧ idx * bs + cb = offset + delivered idx
  ∧ delivered (idx + 1) = delivered idx + (cl - cb).
Proof.
  intros Hi cb cl. unfold delivered, cb, cl. clear cb cl.
  pose proof (Z.div_mod offset bs ltac:(lia)). pose proof (Z.mod_pos_bound offset bs Hbs).
  pose proof (Z.div_mod endp bs ltac:(lia)). pose proof (Z.mod_pos_bound endp bs Hbs).
  set (p := offset / bs) in *. set (q := endp / bs) in *.
  destruct (Z.eqb_spec idx p) as [He|], (Z.eqb_spec idx (q + 1 - 1)) as [Hq|]; [nia..].
Qed.
End Geometry.

(** ** Overwriting a buffer piece by piece *)

Lemma splice_extend buf l1 l2 : zlen l1 + zlen l2 ≤ zlen buf →
  splice (splice buf 0 l1) (zlen l1) l2 = splice buf 0 (l1 ++ l2).
Proof.
  intros Hl. pose proof (zlen_nonneg l1). pose proof (zlen_nonneg l2).
  assert (zlen (splice buf 0 l1) = zlen buf) as H1 by (apply zlen_splice; lia).
  apply bytes_ext; [rewrite !zlen_splice; rewrite ?zlen_app; lia|].
  rewrite zlen_splice by lia. intros p Hp.
  rewrite !byte_at_splice, zlen_app by (rewrite ?zlen_app; lia). rewrite Z.sub_0_r, byte_at_app by lia.
  bcases; done.
Qed.

(** The prefix of a decoded block in the scratch buffer. *)
Lemma slice_put_prefix raw out cb cl : 0 ≤ cb → 0 ≤ cl → cb + cl ≤ zlen out → zlen out ≤ zlen raw →
  slice cb cl (splice raw 0 out) = slice cb cl out.
Proof.
  intros. apply bytes_ext; [rewrite !zlen_slice; rewrite ?zlen_splice; lia|].
  rewrite zlen_slice by (rewrite ?zlen_splice; lia). intros p Hp.
  rewrite !byte_at_slice, byte_at_splice by lia. bcases. f_equal. lia.
Qed.

Lemma slice_app_end {A} n (l1 l2 : list A) : zlen l2 = n → slice (zlen l1) n (l1 ++ l2) = l2.
Proof. intros <-. rewrite <- (app_nil_r l2) at 2. apply slice_app_mid. Qed.

(** ** Readers *)

Record reader_of `{Codec, Crc32c} (z : ZFileRO) (o : CompressOptions) (c : Compressor) (g : bool)
    (start : Z) (encs : list (list Z)) (data : list Z) : Prop := {
  rz_opt : ro_options z = o;
  rz_size : original_size z = zlen data;
  rz_compressor : ro_compressor z = c;
  rz_verify : ro_data_verify z = g;
  rz_start : 0 ≤ start;
  rz_offsets : ∀ i, 0 ≤ i ≤ zlen encs → offset_at (ro_table z) i = Ok (start + psum (zlen <$> encs) i);
  rz_encodes : ∀ i e, encs !! i = Some e →
    encodes c g (slice (Z.of_nat i * co_block_size o) (co_block_size o) data) e;
  rz_covers : zlen data ≤ zlen encs * co_block_size o
}.

Section Pread.
Context {W : Type} `{BackingFile W, CodecSpec, Crc32cSpec}.
Context (z : ZFileRO) (o : CompressOptions) (c : Compressor) (g : bool).
Context (start : Z) (encs : list (list Z)) (data : list Z).
Context (Hz : reader_of z o c g start encs data) (Hgc : good_compressor c o) (Hbs : 0 < co_block_size o ≤ 65536).

Abbreviation bs := (co_block_size o).

(** The extent of block [i] and its encoding. *)
Definition block_off (i : Z) : Z := start + psum (zlen <$> encs) i.
Definition block_enc (i : Z) : list Z := default [] (encs !! Z.to_nat i).
Definition block_len (i : Z) : Z := zlen (block_enc i).
Definition body_len (i : Z) : Z := block_len i - (if g then 4 else 0).

Lemma block_lookup i : 0 ≤ i < zlen encs → encs !! Z.to_nat i = Some (block_enc i).
Proof.
  intros Hi. unfold block_enc. destruct (lookup_lt_is_Some_2 encs (Z.to_nat i)) as [e He]; [unfold zlen in *; lia|].
  by rewrite He.
Qed.

Lemma block_off_succ i : 0 ≤ i < zlen encs → block_off (i + 1) = block_off i + block_len i.
Proof.
  intros Hi. unfold block_off, block_len. rewrite psum_succ by (rewrite zlen_fmap; lia).
  unfold byte_at. rewrite list_lookup_fmap, block_lookup by done. simpl. lia.
Qed.

Lemma block_encodes i : 0 ≤ i < zlen encs → encodes c g (slice (i * bs) bs data) (block_enc i).
Proof.
  intros Hi. pose proof (rz_encodes _ _ _ _ _ _ _ Hz (Z.to_nat i) _ (block_lookup i Hi)) as He.
  by rewrite Z2Nat.id in He by lia.
Qed.

Lemma block_off_le i j : 0 ≤ i ≤ j → j ≤ zlen encs → block_off i ≤ block_off j.
Proof.
  intros Hij Hj. unfold block_off. enough (psum (zlen <$> encs) i ≤ psum (zlen <$> encs) j) by lia.
  apply psum_le; [|lia]. apply Forall_fmap, Forall_forall. intros e _. apply zlen_nonneg.
Qed.

Lemma block_off_at i : 0 ≤ i ≤ zlen encs → offset_at (ro_table z) i = Ok (block_off i).
Proof. apply Hz. Qed.

(** A block as read: the genuine one, or one that the checksum rejects. *)
Definition block_seen (i : Z) (blk : list Z) : Prop :=
  blk = block_enc i ∨ g = true ∧ crc_matches blk (body_len i) = false.

Lemma genuine_crc i : 0 ≤ i < zlen encs → g = true → crc_matches (block_enc i) (body_len i) = true.
Proof.
  intros Hi Hg. destruct (block_encodes i Hi) as (body & He & _ & _). unfold crc_matches, body_len, block_len.
  rewrite He, zlen_app, zlen_crc_trailer, Hg. cbn [crc_trailer].
  replace (zlen body + 4 - 4) with (zlen body) by lia. rewrite ztake_app_here by done.
  rewrite slice_app_end by apply (zlen_le_bytes 4). rewrite le_val_le_bytes by apply crc32c_salt_range. apply Z.eqb_refl.
Qed.

Lemma genuine_not_rejected i : 0 ≤ i < zlen encs → g && negb (crc_matches (block_enc i) (body_len i)) = false.
Proof.
  intros Hi. apply andb_false_iff. destruct (decide (g = true)) as [Eg|Eg].
  - right. by rewrite (genuine_crc i Hi Eg).
  - left. by apply not_true_is_false.
Qed.

Lemma genuine_body i dlen : 0 ≤ i < zlen encs → bs ≤ dlen < 2 ^ 31 →
  decompress c (ztake (body_len i) (block_enc i)) dlen = Ok (slice (i * bs) bs data).
Proof.
  intros Hi Hd. destruct (block_encodes i Hi) as (body & He & [_ Hdec] & _). unfold body_len, block_len.
  rewrite He, zlen_app, zlen_crc_trailer. replace (zlen body + _ - _) with (zlen body) by (destruct g; lia).
  rewrite ztake_app_here by done. apply Hdec. by rewrite (gc_block _ _ Hgc).
Qed.

(** The scratch block, once there is one, has the size of a block. *)
Definition bufs_ok (n : Z) (b : ReadBufs) : Prop :=
  zlen (rb_buf b) = n ∧ ∀ r, rb_raw b = Some r → zlen r = bs.

(** Decoding the genuine block delivers its part of the data. *)
Lemma decode_once_ok i cb cl written n b : 0 ≤ i < zlen encs → 0 ≤ cb → 0 < cl → cb + cl ≤ bs →
  i * bs + cb + cl ≤ zlen data → 0 ≤ written → written + cl ≤ n → bufs_ok n b →
  ∃ b', decode_once z (block_enc i) (body_len i) cb cl written b = Ok (true, b')
    ∧ rb_buf b' = splice (rb_buf b) written (slice (i * bs + cb) cl data) ∧ bufs_ok n b'.
Proof.
  intros Hi Hcb Hcl Hsum Hdat Hw Hwn [Hb Hr]. unfold decode_once.
  rewrite (rz_opt _ _ _ _ _ _ _ Hz), (rz_compressor _ _ _ _ _ _ _ Hz).
  assert (zlen (slice (i * bs) bs data) = Z.min bs (zlen data - i * bs)) as Hsl.
  { unfold slice. rewrite zlen_ztake, zlen_zdrop by lia. lia. }
  assert (zlen (slice (i * bs + cb) cl data) = cl) as Hpart by (apply zlen_slice; lia).
  destruct ((cb =? 0) && (cl =? bs)) eqn:Efull.
  - apply andb_prop in Efull as [Hc0 Hcf]. apply Z.eqb_eq in Hc0, Hcf. subst cb. rewrite Hcf in *.
    rewrite genuine_body by lia. cbn [rbind]. rewrite Hsl. replace (Z.min bs (zlen data - i * bs)) with bs by lia.
    rewrite Z.eqb_refl. eexists. split; [reflexivity|]. rewrite Z.add_0_r. split; [done|].
    rewrite Z.add_0_r in Hpart. split; [|done]. cbn [rb_buf]. rewrite zlen_splice; lia.
  - set (raw := default (zeros bs) (rb_raw b)).
    assert (zlen raw = bs) as Hraw.
    { unfold raw. destruct (rb_raw b) as [r|]; [by apply Hr|]. cbn [default]. rewrite zlen_zeros. lia. }
    rewrite Hraw, genuine_body by lia. cbn [rbind]. rewrite Hsl.
    destruct (Z.ltb_spec (Z.min bs (zlen data - i * bs)) (cb + cl)); [lia|].
    eexists. split; [reflexivity|]. cbn [rb_buf rb_raw].
    rewrite slice_put_prefix, slice_slice by lia. split; [done|]. split; cbn [rb_buf rb_raw].
    + rewrite zlen_splice; lia.
    + intros r [= <-]. rewrite zlen_splice; lia.
Qed.

(** ** The file below, as the reader needs it *)

Context (Fail : Prop) (Inv : W → Prop).

(** Reads of whole blocks deliver genuine blocks or ones the checksum rejects. *)
Hypothesis Hread : ∀ w i j, Inv w → 0 ≤ i ≤ j → j ≤ zlen encs →
  outcome Fail (read_exact_at (block_off i) (block_off j - block_off i) w) (λ w' bytes,
    Inv w' ∧ ∀ k, i ≤ k < j → block_seen k (slice (block_off k - block_off i) (block_len k) bytes)).

(** After an eviction the block comes back genuine, unless failures are allowed. *)
Hypothesis Hevict : ∀ w i, Inv w → 0 ≤ i < zlen encs →
  outcome Fail (bf_evict_range (block_off i) (block_len i) w) (λ w1 _,
    outcome Fail (read_exact_at (block_off i) (block_len i) w1) (λ w2 blk,
      Inv w2 ∧ (blk = block_enc i ∨ Fail ∧ block_seen i blk))).

(** What a block leaves in the buffer. *)
Definition delivers (buf : list Z) (written : Z) (part : list Z) : list Z :=
  match ro_valid_mode z with Normal => splice buf written part | CrcOnly => buf end.

Lemma read_block_ok i cb cl written n retry : ∀ w blk b, Inv w → 0 ≤ i < zlen encs → 0 ≤ cb → 0 < cl → cb + cl ≤ bs →
  i * bs + cb + cl ≤ zlen data → 0 ≤ written → written + cl ≤ n → bufs_ok n b →
  (blk = block_enc i ∨ block_seen i blk ∧ (Fail ∨ (0 < retry)%nat)) →
  outcome Fail (read_block retry z (block_off i) (block_len i) (body_len i) cb cl written blk b w) (λ w' b',
    Inv w' ∧ rb_buf b' = delivers (rb_buf b) written (slice (i * bs + cb) cl data) ∧ bufs_ok n b').
Proof.
  induction retry as [|retry IH]; intros w blk b Hw Hi Hcb Hcl Hsum Hdat Hwr Hwn Hbok Hblk.
  all: assert (blk = block_enc i ∨ g = true ∧ crc_matches blk (body_len i) = false) as Hcase
    by (destruct Hblk as [->|[Hs _]]; [by left|exact Hs]).
  all: cbn [read_block]; rewrite (rz_verify _ _ _ _ _ _ _ Hz).
  all: destruct Hcase as [->|[Hg Hbad]];
    [assert (g && negb (crc_matches (block_enc i) (body_len i)) = false) as ->
       by (apply genuine_not_rejected; done)
    |rewrite Hg, Hbad; cbn [negb andb]].
  1, 3: unfold delivers; destruct (ro_valid_mode z); [|by split_and!; destruct Hbok];
    destruct (decode_once_ok i cb cl written n b) as (b' & E & Hb' & Hok); [done..|];
    eapply outcome_bind_ok; [exact E|]; done.
  - destruct Hblk as [->|[_ [Hf|Hr]]]; [|exact Hf|lia]. rewrite genuine_crc in Hbad by done. done.
  - apply outcome_bind. eapply outcome_mono; [|apply (Hevict w i Hw Hi)]. simpl. intros w1 _ Hw1.
    apply outcome_bind. eapply outcome_mono; [|exact Hw1]. simpl. intros w2 blk2 [Hw2 Hseen].
    eapply outcome_mono; [|apply (IH w2 blk2 b Hw2 Hi); try done].
    + intros w' b' (? & ? & ?). done.
    + destruct Hseen as [->|[Hf Hs]]; [by left|]. right. split; [exact Hs|by left].
Qed.

(** ** Batches *)

Lemma plan_loop_ok fuel : ∀ i next e, 0 ≤ i < next → next ≤ e ≤ zlen encs → (Z.to_nat (e - next) ≤ fuel)%nat →
  ∃ r, coalesce_loop fuel (ro_table z) (block_off i) next e = Ok r ∧ next ≤ r ≤ e.
Proof.
  induction fuel as [|fuel IH]; intros i next e Hi He Hf; cbn [coalesce_loop];
    destruct (Z.leb_spec e next); try (exists next; split; [done|lia]); [lia|].
  rewrite block_off_at by lia. cbn [rbind]. pose proof (block_off_le i (next + 1) ltac:(lia) ltac:(lia)).
  unfold checked_sub_or. destruct (Z.leb_spec (block_off i) (block_off (next + 1))); [|lia]. cbn [rbind].
  destruct (_ <? _); [exists next; split; [done|lia]|].
  destruct (IH i (next + 1) e) as (r & Hr & Hb); [lia..|]. exists r. split; [done|lia].
Qed.

Lemma plan_ok i e : 0 ≤ i < e → e ≤ zlen encs →
  ∃ r, plan_coalesced_batch (ro_table z) i e = Ok r ∧ i < r ≤ e.
Proof.
  intros Hi He. unfold plan_coalesced_batch. rewrite block_off_at by lia. cbn [rbind].
  destruct (plan_loop_ok (Z.to_nat (e - i)) i (i + 1) e) as (r & Hr & Hb); [lia..|]. exists r. split; [done|lia].
Qed.

Section Request.
Context (buf : list Z) (offset endp : Z).
Context (Ho : 0 ≤ offset ≤ endp) (He : endp < zlen data) (Hbuf : endp + 1 - offset ≤ zlen buf).

Abbreviation first := (offset / bs).
Abbreviation last := (endp / bs + 1).
Abbreviation done_before := (delivered bs offset endp).

Definition filled_upto (n : Z) : list Z := delivers buf 0 (slice offset n data).

Lemma last_in_range : last ≤ zlen encs.
Proof.
  pose proof (rz_covers _ _ _ _ _ _ _ Hz). pose proof (Z.mul_div_le endp bs ltac:(lia)). nia.
Qed.

Lemma first_nonneg : 0 ≤ first.
Proof. apply Z.div_pos; lia. Qed.

Lemma filled_extend n m : 0 ≤ n → 0 ≤ m → offset + n + m ≤ zlen data → n + m ≤ zlen buf →
  delivers (filled_upto n) n (slice (offset + n) m data) = filled_upto (n + m).
Proof.
  intros Hn Hm Hd Hb. unfold filled_upto, delivers. destruct (ro_valid_mode z); [|done].
  assert (zlen (slice offset n data) = n) as Hl by (apply zlen_slice; lia). rewrite <- Hl at 2.
  rewrite splice_extend by (rewrite !zlen_slice; lia). by rewrite slice_slice_app by lia.
Qed.

Lemma read_batch_blocks_ok i0 merged m : ∀ w idx b, Inv w → 0 ≤ i0 ≤ idx → first ≤ idx → idx + Z.of_nat m ≤ last →
  (∀ k, idx ≤ k < idx + Z.of_nat m → block_seen k (slice (block_off k - block_off i0) (block_len k) merged)) →
  bufs_ok (zlen buf) b → rb_buf b = filled_upto (done_before idx) →
  outcome Fail (read_batch_blocks m z idx first last offset endp (block_off i0) merged (done_before idx) b w)
    (λ w' '(written, b'), Inv w' ∧ written = done_before (idx + Z.of_nat m)
      ∧ rb_buf b' = filled_upto written ∧ bufs_ok (zlen buf) b').
Proof.
  pose proof last_in_range as Hlast. pose proof (proj1 Hbs) as Hpos.
  induction m as [|m IH]; intros w idx b Hw Hi0 Hf Hl Hm Hb Hfill; cbn [read_batch_blocks].
  { split_and!; [done| |done|done]. by rewrite Z.add_0_r. }
  rewrite (rz_opt _ _ _ _ _ _ _ Hz), (rz_verify _ _ _ _ _ _ _ Hz).
  eapply outcome_bind_ok; [apply block_off_at; lia|]. eapply outcome_bind_ok; [apply block_off_at; lia|].
  pose proof (block_off_succ idx ltac:(lia)) as Hsucc.
  pose proof (encodes_length c g _ _ (block_encodes idx ltac:(lia))) as Hel. fold (block_len idx) in Hel.
  pose proof (block_off_le i0 idx ltac:(lia) ltac:(lia)) as Hle.
  eapply (outcome_bind_ok _ _ _ (block_len idx)).
  { unfold checked_sub_or. destruct (Z.leb_spec (block_off idx) (block_off (idx + 1))); [f_equal; lia|destruct g; lia]. }
  eapply (outcome_bind_ok _ _ _ (block_off idx - block_off i0)).
  { unfold checked_sub_or. destruct (Z.leb_spec (block_off i0) (block_off idx)); [done|lia]. }
  eapply (outcome_bind_ok _ _ _ (body_len idx)).
  { unfold checked_sub_or, body_len. destruct g; [|f_equal; lia]. destruct (Z.leb_spec 4 (block_len idx)); [done|lia]. }
  destruct (block_geometry bs offset endp Hpos Ho idx) as (Hcb & Hcl & Hpos1 & Hnext); [lia|]. cbv zeta.
  set (cb := if idx =? first then _ else _) in *. set (cl := if idx =? last - 1 then _ else _) in *.
  eapply (outcome_bind_ok _ _ _ (cl - cb)).
  { unfold checked_sub_or. destruct (Z.leb_spec cb cl); [done|lia]. }
  assert (done_before (idx + 1) ≤ endp + 1 - offset) as Hdb by (unfold delivered; lia).
  assert (0 ≤ done_before idx) by (unfold delivered; lia).
  apply outcome_bind. eapply outcome_mono; [|apply (read_block_ok idx cb (cl - cb) (done_before idx) (zlen buf) 3 w
    (slice (block_off idx - block_off i0) (block_len idx) merged) b); try done; try lia].
  2: { right. split; [apply Hm; lia|right; lia]. }
  simpl. intros w' b' (Hw' & Hb' & Hok'). rewrite <- Hnext.
  replace (idx + Z.of_nat (S m)) with (idx + 1 + Z.of_nat m) by lia. apply IH; try done; try lia.
  - intros k Hk. apply Hm. lia.
  - rewrite Hb', Hfill, Hpos1, filled_extend by lia. by rewrite Hnext.
Qed.

Lemma read_batches_ok fuel : ∀ w idx b, Inv w → first ≤ idx ≤ last → (Z.to_nat (last - idx) ≤ fuel)%nat →
  bufs_ok (zlen buf) b → rb_buf b = filled_upto (done_before idx) →
  outcome Fail (read_batches fuel z idx first last offset endp (done_before idx) b w)
    (λ w' '(written, b'), Inv w' ∧ written = done_before last ∧ rb_buf b' = filled_upto written).
Proof.
  pose proof last_in_range as Hlast. pose proof first_nonneg as Hfirst.
  induction fuel as [|fuel IH]; intros w idx b Hw Hi Hf Hb Hfill; cbn [read_batches];
    destruct (Z.leb_spec last idx); try (replace idx with last in * by lia; done); [lia|].
  destruct (plan_ok idx last) as (r & Hr & Hrb); [lia..|].
  eapply outcome_bind_ok; [exact Hr|].
  eapply outcome_bind_ok; [apply block_off_at; lia|]. eapply outcome_bind_ok; [apply block_off_at; lia|].
  eapply (outcome_bind_ok _ _ _ (block_off r - block_off idx)).
  { unfold checked_sub_or. pose proof (block_off_le idx r ltac:(lia) ltac:(lia)).
    destruct (Z.leb_spec (block_off idx) (block_off r)); [done|lia]. }
  apply outcome_bind. eapply outcome_mono; [|apply (Hread w idx r Hw); lia]. simpl.
  intros w1 merged [Hw1 Hseen]. apply outcome_bind.
  eapply outcome_mono; [|apply (read_batch_blocks_ok idx merged (Z.to_nat (r - idx)) w1 idx b); try done; try lia].
  2: { intros k Hk. apply Hseen. lia. }
  intros w2 [written b2] (Hw2 & -> & Hb2 & Hok2).
  replace (idx + Z.of_nat (Z.to_nat (r - idx))) with r in * by lia. apply IH; done || lia.
Qed.
End Request.

(** [pread] delivers the bytes of the data that are there. *)
Lemma pread_ok w buf offset : Inv w → 0 ≤ offset →
  let n := Z.max 0 (Z.min (zlen buf) (zlen data - offset)) in
  outcome Fail (pread z buf offset w) (λ w' '(k, buf'), Inv w' ∧ k = n ∧ buf' = delivers buf 0 (slice offset n data)).
Proof.
  intros Hw Hoff n. pose proof (zlen_nonneg buf). unfold pread.
  rewrite (rz_opt _ _ _ _ _ _ _ Hz), (rz_size _ _ _ _ _ _ _ Hz).
  eapply (outcome_bind_ok _ _ _ tt).
  { unfold ensure, MAX_READ_SIZE. destruct (Z.leb_spec bs 65536); [done|lia]. }
  assert (∀ m, m ≤ 0 → buf = delivers buf 0 (slice offset m data)) as Hnone.
  { intros m Hm. unfold delivers. destruct (ro_valid_mode z); [|done].
    assert (slice offset m data = []) as -> by (unfold slice, ztake; by replace (Z.to_nat m) with 0%nat by lia).
    done. }
  destruct (Z.leb_spec (zlen data) offset); [split_and!; [done|lia|apply Hnone; lia]|].
  destruct (Z.eqb_spec (Z.min (zlen buf) (zlen data - offset)) 0); [split_and!; [done|lia|apply Hnone; lia]|].
  set (m := Z.min (zlen buf) (zlen data - offset)) in *. assert (n = m) as -> by (unfold n; lia).
  assert (0 < m ∧ m ≤ zlen buf ∧ offset + m ≤ zlen data) as (Hm1 & Hm2 & Hm3) by (unfold m in *; lia).
  apply outcome_bind. set (endp := offset + m - 1).
  assert (offset / bs ≤ endp / bs) as Hle by (apply Z.div_le_mono; unfold endp; lia).
  pose proof (read_batches_ok buf offset endp ltac:(unfold endp; lia) ltac:(unfold endp; lia) ltac:(unfold endp; lia)
    (Z.to_nat (endp / bs + 1 - offset / bs)) w (offset / bs) {| rb_buf := buf; rb_raw := None |} Hw
    ltac:(lia) ltac:(lia) ltac:(done)) as Hrb.
  rewrite delivered_begin in Hrb by lia.
  eapply outcome_mono; [|apply Hrb, Hnone; lia].
  intros w' [k b'] (Hw' & -> & Hb'). rewrite delivered_end in * by (unfold endp; lia).
  replace (endp + 1 - offset) with m in * by (unfold endp; lia). done.
Qed.
End Pread.
