(* ===== verification/ZOpen.v ===== *)
(** * Opening a compressed file

    Files behind a cache, and the proof that [load_jump_table] and
    [zfile_open_ro] accept the image of a zfile and set up a reader for its
    blocks. *)

From S2P Require Import Prelude LsmtIo ZFormat ZBuild ZImage ZRead ZPread.

Open Scope result_scope.

(** ** Files behind a cache *)

(** [cf_origin] are the bytes of the file, [cf_cached] what reads see. *)
Class CachedFile (W : Type) : Type := {
  cf_origin : W → list Z;
  cf_cached : W → list Z
}.

(** The documented behaviour of [VirtualFile]: a read returns what is there and
    makes progress, and an evicted range is fetched again. *)
Class CachedFileSpec (W : Type) `{BackingFile W, CachedFile W} : Prop := {
  cf_read : ∀ w off len, 0 ≤ off → 0 < len → ∃ w' k,
    bf_read off len w = (w', Ok (slice off k (cf_cached w)))
    ∧ cf_cached w' = cf_cached w ∧ cf_origin w' = cf_origin w
    ∧ 0 ≤ k ≤ len ∧ (0 < k → off + k ≤ zlen (cf_cached w)) ∧ (off < zlen (cf_cached w) → 0 < k);
  cf_evict : ∀ w off len, 0 ≤ off → 0 ≤ len → off + len ≤ zlen (cf_cached w) → ∃ w',
    bf_evict_range off len w = (w', Ok tt)
    ∧ cf_cached w' = splice (cf_cached w) off (slice off len (cf_origin w)) ∧ cf_origin w' = cf_origin w;
  cf_evict_all : ∀ w, ∃ w', bf_evict_all w = (w', Ok tt)
    ∧ cf_cached w' = cf_origin w ∧ cf_origin w' = cf_origin w;
  cf_size : ∀ w, ∃ w', bf_size w = (w', Ok (zlen (cf_cached w)))
    ∧ cf_cached w' = cf_cached w ∧ cf_origin w' = cf_origin w
}.

(** Reading changes neither. *)
Definition cf_same {W} `{CachedFile W} (w w' : W) : Prop :=
  cf_cached w' = cf_cached w ∧ cf_origin w' = cf_origin w.

#[export] Instance cf_same_preorder {W} `{CachedFile W} : PreOrder (@cf_same W _).
Proof. split; [done|]. intros w1 w2 w3 [? ?] [? ?]. split; congruence. Qed.

(** A file on its own: nothing between the reads and the bytes. *)
#[export] Instance plain_backing `{FileReader} : BackingFile (list Z) := {|
  bf_read off len f := (f, Ok (fr_read f off len));
  bf_evict_range _ _ f := (f, Ok tt);
  bf_evict_all f := (f, Ok tt);
  bf_size f := (f, Ok (zlen f))
|}.

#[export] Instance plain_cached : CachedFile (list Z) := {| cf_origin f := f; cf_cached f := f |}.

Lemma put_own_slice l off len : 0 ≤ off → 0 ≤ len → off + len ≤ zlen l → splice l off (slice off len l) = l.
Proof.
  intros. assert (zlen (slice off len l) = len) as Hl by (apply zlen_slice; lia).
  unfold splice. rewrite Hl. unfold slice. rewrite <- zdrop_zdrop by lia. by rewrite !ztake_zdrop.
Qed.

#[export] Instance plain_spec `{FileReaderSpec} : CachedFileSpec (list Z).
Proof.
  split; unfold cf_cached, cf_origin, bf_read, bf_evict_range, bf_evict_all, bf_size, plain_cached, plain_backing.
  - intros f off len Ho Hl. destruct (fr_prefix f off len Ho Hl) as (k & -> & Hk). by exists f, k.
  - intros f off len Ho Hl Hz. exists f. by rewrite put_own_slice.
  - intros f. by exists f.
  - intros f. by exists f.
Qed.

(** A cache over an origin; its bytes may have been damaged. *)
Record Cache : Type := { cache_origin : list Z; cache_bytes : list Z }.

#[export] Instance cache_backing : BackingFile Cache := {|
  bf_read off len w := (w, Ok (file_read (cache_bytes w) off len));
  bf_evict_range off len w :=
    ({| cache_origin := cache_origin w;
        cache_bytes := splice (cache_bytes w) off (slice off len (cache_origin w)) |}, Ok tt);
  bf_evict_all w := ({| cache_origin := cache_origin w; cache_bytes := cache_origin w |}, Ok tt);
  bf_size w := (w, Ok (zlen (cache_bytes w)))
|}.

#[export] Instance cache_cached : CachedFile Cache := {| cf_origin := cache_origin; cf_cached := cache_bytes |}.

#[export] Instance cache_spec : CachedFileSpec Cache.
Proof.
  split; unfold cf_cached, cf_origin, bf_read, bf_evict_range, bf_evict_all, bf_size, cache_cached, cache_backing.
  - intros w off len Ho Hl. destruct (DirectRead_spec (cache_bytes w) off len Ho Hl) as (k & E & Hk).
    exists w, k. unfold fr_read, DirectRead in E. by rewrite E.
  - intros w off len Ho Hl Hz. by eexists.
  - intros w. by eexists.
  - intros w. by exists w.
Qed.

Section Exact.
Context {W : Type} `{CachedFileSpec W, Codec, Crc32cSpec}.

Lemma zread_exact_loop_ok fuel : ∀ w off len acc, 0 ≤ off → (Z.to_nat len ≤ fuel)%nat →
  off + len ≤ zlen (cf_cached w) → zlen (cf_cached w) ≤ U64_MAX →
  ∃ w', zread_exact_loop fuel off len acc w = (w', Ok (acc ++ slice off len (cf_cached w))) ∧ cf_same w w'.
Proof.
  induction fuel as [|fuel IH]; intros w off len acc Ho Hf Hl Hu; cbn [zread_exact_loop];
    destruct (Z.leb_spec len 0); try lia.
  1, 2: exists w; unfold slice, ztake; replace (Z.to_nat len) with 0%nat by lia; simpl; by rewrite app_nil_r.
  destruct (cf_read w off len Ho) as (w1 & k & E & K1 & K2 & Hk & Hk1 & Hk2); [lia|].
  rewrite (ebind_ok _ _ _ _ _ E). rewrite zlen_slice by lia. destruct (Z.eqb_spec k 0); [lia|].
  unfold ebind, elift, checked_add_or, checked_add64. destruct (Z.leb_spec (off + k) U64_MAX); [|lia].
  destruct (IH w1 (off + k) (len - k) (acc ++ slice off k (cf_cached w))) as (w2 & E2 & [K3 K4]);
    [lia|lia|rewrite K1; lia|rewrite K1; lia|].
  exists w2. rewrite E2, K1, <- app_assoc, slice_slice_app by lia.
  replace (k + (len - k)) with len by lia. split; [done|]. split; congruence.
Qed.

Lemma read_exact_at_ok w off len : 0 ≤ off → off + len ≤ zlen (cf_cached w) → zlen (cf_cached w) ≤ U64_MAX →
  ∃ w', read_exact_at off len w = (w', Ok (slice off len (cf_cached w))) ∧ cf_same w w'.
Proof. intros. by apply zread_exact_loop_ok. Qed.

(** The chunks of a concurrent read, in any order. *)
Lemma read_chunks_ok (order : list Z) : ∀ w off len out, 0 ≤ off → off + len ≤ zlen (cf_cached w) →
  zlen (cf_cached w) ≤ U64_MAX → zlen out = len →
  Forall (λ k, 0 ≤ k ∧ k * JUMP_TABLE_READ_CHUNK_SIZE < len) order →
  ∃ w' out', read_chunk_loop order off len out w = (w', Ok out') ∧ cf_same w w' ∧ zlen out' = len
    ∧ ∀ p, 0 ≤ p < len → byte_at out' p
        = if bool_decide (p / JUMP_TABLE_READ_CHUNK_SIZE ∈ order) then byte_at (cf_cached w) (off + p)
          else byte_at out p.
Proof.
  set (C := JUMP_TABLE_READ_CHUNK_SIZE). assert (C = 1048576) as HC by done.
  induction order as [|k order IH]; intros w off len out Ho Hl Hu Hout Hf; cbn [read_chunk_loop].
  { exists w, out. split_and!; [done|done|done|]. intros p Hp. by rewrite bool_decide_eq_false_2 by apply not_elem_of_nil. }
  apply Forall_cons in Hf as [[Hk0 Hk] Hf]. fold C in Hk |- *.
  set (n := Z.min C (len - k * C)). assert (0 < n ∧ k * C + n ≤ len) as [Hn Hnl] by (unfold n; lia).
  rewrite wrap64_small by (unfold U64_MAX in Hu; lia).
  destruct (read_exact_at_ok w (off + k * C) n) as (w1 & E1 & K1 & K2); [lia|lia|done|].
  rewrite (ebind_ok _ _ _ _ _ E1). rewrite <- K1 in *.
  assert (zlen (slice (off + k * C) n (cf_cached w1)) = n) as Hs by (apply zlen_slice; lia).
  destruct (IH w1 off len (splice out (k * C) (slice (off + k * C) n (cf_cached w1)))) as (w2 & out2 & E2 & Hsame & Hlen & Hb);
    [done|done|done|rewrite zlen_splice; lia|done|].
  exists w2, out2. split_and!; [done|by transitivity w1|done|]. intros p Hp. rewrite Hb by done.
  rewrite byte_at_splice, Hs by lia.
  destruct (bool_decide_reflect (p / C ∈ order)) as [Hin|Hin];
    destruct (bool_decide_reflect (p / C ∈ k :: order)) as [Hin2|Hin2]; try done; [set_solver| |].
  - assert (p / C = k) as <- by set_solver. pose proof (Z.mul_div_le p C ltac:(lia)).
    pose proof (Z.mul_succ_div_gt p C ltac:(lia)). rewrite byte_at_slice by lia.
    bcases. f_equal. lia.
  - rewrite not_elem_of_cons in Hin2. destruct Hin2 as [Hne _].
    destruct (Z.leb_spec (k * C) p), (Z.ltb_spec p (k * C + n)); try done. destruct Hne.
    symmetry. apply (Z.div_unique p C k (p - k * C)); lia.
Qed.

Context `{CompletionSpec}.

Lemma read_exact_chunks_ok w off len : 0 ≤ off → 0 ≤ len → off + len ≤ zlen (cf_cached w) →
  zlen (cf_cached w) ≤ U64_MAX →
  ∃ w', read_exact_chunks_at off len w = (w', Ok (slice off len (cf_cached w))) ∧ cf_same w w'.
Proof.
  intros Ho Hz Hl Hu. unfold read_exact_chunks_at. destruct (Z.eqb_spec len 0) as [->|Hne]; [by exists w|].
  destruct (Z.leb_spec len JUMP_TABLE_READ_CHUNK_SIZE); [by apply read_exact_at_ok|].
  set (C := JUMP_TABLE_READ_CHUNK_SIZE) in *. assert (C = 1048576) as HC by done.
  set (n := div_ceil len C). pose proof (div_ceil_bounds len C ltac:(lia)) as Hd. fold n in Hd.
  assert (∀ k, k ∈ completion_order 0 (seqZ 0 n) ↔ 0 ≤ k < n) as Hin.
  { intros k. rewrite (completion_perm _ 0 (seqZ 0 n)), elem_of_seqZ. lia. }
  destruct (read_chunks_ok (completion_order 0 (seqZ 0 n)) w off len (zeros len)) as (w' & out & E & Hs & Hlen & Hb);
    [done|done|done|rewrite zlen_zeros; lia|apply Forall_forall; intros k Hk%Hin; fold C; nia|].
  exists w'. rewrite E. split; [|done]. do 2 f_equal. assert (zlen (slice off len (cf_cached w)) = len) as Hsl
    by (apply zlen_slice; lia). apply bytes_ext; [lia|].
  intros p Hp. rewrite Hb, bool_decide_eq_true_2, byte_at_slice by (lia || (apply Hin; fold C;
    pose proof (Z.mul_div_le p C ltac:(lia)); pose proof (Z.div_pos p C); nia)). done.
Qed.
End Exact.

(** ** The parts of an image *)
Section Image.
Context `{Crc32cSpec}.
Context (o : CompressOptions) (ow : bool) (encs : list (list Z)) (raw : Z).
Context (Ho : wf_options o) (HB : 4096 ≤ co_block_size o) (Hsm : small_blocks (co_block_size o) encs) (Hraw : 0 ≤ raw < 2 ^ 64).

Abbreviation lens := (zlen <$> encs).
Abbreviation iend := (blocks_end o encs).
Abbreviation image := (zfile_image o ow encs raw).
Abbreviation hdr := (final_header o ow lens iend raw).
Abbreviation trl := (closing_trailer o lens iend raw).

Lemma image_bounds : 0 ≤ iend ∧ iend + 4 * zlen encs + 512 ≤ U64_MAX.
Proof. apply (small_blocks_end (co_block_size o)); [done|done|apply Ho]. Qed.

Lemma wf_with_digest h : wf_zheader h → wf_zheader (with_digest h 0).
Proof. by intros []; constructor. Qed.

Lemma wf_first_header : wf_zheader (first_header o).
Proof. apply wf_stamped; [by constructor|done]. Qed.

Lemma wf_trailer : wf_zheader trl.
Proof.
  pose proof image_bounds as [Hb1 Hb2]. unfold U64_MAX in Hb2. pose proof (zlen_nonneg encs).
  destruct wf_first_header. apply wf_stamped; [|done].
  constructor; try done; cbn [with_digest with_index zh_index_offset zh_index_size zh_index_crc zh_original_file_size];
    rewrite ?zlen_fmap; [lia|lia|apply crc32c_range].
Qed.

Lemma wf_final_header : wf_zheader hdr.
Proof.
  unfold final_header. destruct ow; [|apply wf_first_header].
  apply wf_stamped; [apply wf_with_digest, wf_trailer|]. change (zh_flags _) with 27. lia.
Qed.

Lemma final_valid : zh_is_valid hdr (zheader_layout hdr) = true.
Proof. unfold final_header, first_header. destruct ow; by apply stamped_valid. Qed.

Lemma zlen_hdr : zlen (zheader_layout hdr) = 512.
Proof. apply zlen_header_layout, wf_final_header. Qed.
Lemma zlen_trl : zlen (zheader_layout trl) = 512.
Proof. by apply zlen_header_layout. Qed.

Lemma image_split : image = (zheader_layout hdr ++ zeros (co_dict_size o)) ++ concat encs
  ++ jump_index_bytes lens ++ zheader_layout trl.
Proof. unfold zfile_image. by rewrite <- app_assoc. Qed.

Lemma zlen_head : zlen (zheader_layout hdr ++ zeros (co_dict_size o)) = data_start o.
Proof. destruct Ho. rewrite zlen_app, zlen_hdr, zlen_zeros. unfold data_start, HEADER_TRAILER_SPACE. lia. Qed.

Lemma zlen_image : zlen image = iend + 4 * zlen encs + 512.
Proof.
  rewrite image_split, zlen_app, zlen_head, !zlen_app, zlen_concat, zlen_jump_index_bytes, zlen_trl, zlen_fmap.
  unfold blocks_end. lia.
Qed.

Lemma image_header : slice 0 512 image = zheader_layout hdr.
Proof. rewrite image_split, <- app_assoc. apply slice_app_here, zlen_hdr. Qed.

Lemma image_index : slice iend (4 * zlen encs) image = jump_index_bytes lens.
Proof.
  rewrite image_split, (app_assoc _ (concat encs)). 
  assert (zlen ((zheader_layout hdr ++ zeros (co_dict_size o)) ++ concat encs) = iend) as He
    by (by rewrite zlen_app, zlen_head, zlen_concat).
  assert (zlen (jump_index_bytes lens) = 4 * zlen encs) as Hx by (by rewrite zlen_jump_index_bytes, zlen_fmap).
  rewrite <- He, <- Hx at 1. apply slice_app_mid.
Qed.

Lemma image_trailer : slice (iend + 4 * zlen encs) 512 image = zheader_layout trl.
Proof.
  rewrite image_split, (app_assoc _ (concat encs)), (app_assoc _ (jump_index_bytes lens)).
  set (l := (_ ++ concat encs) ++ jump_index_bytes lens). assert (zlen l = iend + 4 * zlen encs) as <-.
  { unfold l. by rewrite (zlen_app _ (jump_index_bytes lens)), zlen_app, zlen_head, zlen_concat, zlen_jump_index_bytes, zlen_fmap. }
  apply slice_app_end, zlen_trl.
Qed.

(** The encodings lie where the jump table says. *)
Lemma image_blocks : slice (data_start o) (zsum lens) image = concat encs.
Proof. rewrite image_split, <- zlen_head, <- zlen_concat. apply slice_app_mid. Qed.

Lemma concat_block i : 0 ≤ i < zlen encs → slice (psum lens i) (block_len encs i) (concat encs) = block_enc encs i.
Proof.
  intros Hi. pose proof (block_lookup encs i Hi) as Hl.
  assert (concat encs = concat (take (Z.to_nat i) encs) ++ block_enc encs i ++ concat (drop (S (Z.to_nat i)) encs)) as ->.
  { rewrite <- (take_drop_middle encs _ _ Hl) at 1. by rewrite concat_app. }
  unfold block_len.
  assert (psum lens i = zlen (concat (take (Z.to_nat i) encs))) as ->
    by (unfold psum, ztake; by rewrite <- fmap_take, zlen_concat).
  apply slice_app_mid.
Qed.

Lemma image_block i : 0 ≤ i < zlen encs →
  slice (block_off (data_start o) encs i) (block_len encs i) image = block_enc encs i.
Proof.
  intros Hi. rewrite <- concat_block, <- image_blocks by done.
  assert (Forall (λ x, 0 ≤ x) lens) as Hp by (apply Forall_fmap, Forall_forall; intros e _; apply zlen_nonneg).
  pose proof (psum_le lens 0 i Hp ltac:(lia)) as H0'. change (psum lens 0) with 0 in H0'.
  pose proof (psum_le lens (i + 1) (zlen lens) Hp) as H1'. rewrite zlen_fmap in H1' at 1.
  rewrite psum_all, psum_succ in H1' by (rewrite ?zlen_fmap; lia).
  unfold byte_at in H1'. rewrite list_lookup_fmap, block_lookup in H1' by done. cbn in H1'.
  change (zlen (block_enc encs i)) with (block_len encs i) in H1'.
  rewrite slice_slice; [done|..]; [|lia|specialize (H1' ltac:(lia)); lia].
  destruct Ho. unfold data_start, HEADER_TRAILER_SPACE. lia.
Qed.
End Image.

(** ** Loading the jump table *)

Lemma decode_index_bytes lens : Forall (λ l, 0 ≤ l < 2 ^ 32) lens → decode_index (length lens) (jump_index_bytes lens) = lens.
Proof.
  induction 1 as [|l lens Hl Hf IH]; [done|]. cbn [length decode_index]. unfold jump_index_bytes in *.
  rewrite fmap_cons. cbn [concat]. rewrite ztake_app_here by apply (zlen_le_bytes 4).
  rewrite zdrop_app_skip by (rewrite zlen_le_bytes; lia). rewrite zlen_le_bytes, zdrop_0 by lia.
  by rewrite le_val_le_bytes, IH.
Qed.

(** Blocks of 4 KiB and more never overflow a delta of the table. *)
Lemma group_fits B room : 4096 ≤ B ≤ 65536 → 0 < room ≤ B + B / 255 + 68 → (65536 / B - 1) * room < 65535.
Proof.
  intros HB Hr. set (q := 65536 / B). assert (1 ≤ q ≤ 16) as Hq.
  { unfold q. split; [apply Z.div_le_lower_bound; lia|apply Z.div_le_upper_bound; lia]. }
  assert (q * B ≤ 65536) as Hm by (unfold q; rewrite Z.mul_comm; apply Z.mul_div_le; lia).
  assert (255 * (B / 255) ≤ B) by (apply Z.mul_div_le; lia).
  assert (q = 1 ∨ q = 2 ∨ q = 3 ∨ q = 4 ∨ q = 5 ∨ q = 6 ∨ q = 7 ∨ q = 8 ∨ q = 9 ∨ q = 10 ∨ q = 11 ∨ q = 12
          ∨ q = 13 ∨ q = 14 ∨ q = 15 ∨ q = 16) as Hc by lia.
  clearbody q. repeat (destruct Hc as [->|Hc]; [lia|]). rewrite Hc in *. lia.
Qed.

(** The header that describes the index. *)
Definition index_header `{Crc32c} (o : CompressOptions) (ow : bool) (encs : list (list Z)) (raw : Z) : ZHeader :=
  if ow then final_header o ow (zlen <$> encs) (blocks_end o encs) raw
  else closing_trailer o (zlen <$> encs) (blocks_end o encs) raw.

Section Load.
Context {W : Type} `{CachedFileSpec W, CodecSpec, Crc32cSpec, CompletionSpec}.
Context (o : CompressOptions) (ow : bool) (encs : list (list Z)) (raw : Z) (c : Compressor).
Context (Hgood : good_options o) (Hcc : create_compressor o = Ok c) (Hgc : good_compressor c o).

Abbreviation g := (negb (co_verify o =? 0)).
Abbreviation lens := (zlen <$> encs).

Context (Hlens : Forall (λ e, (if g then 4 else 0) < zlen e ≤ block_room c g) encs) (Hne : encs ≠ [])
  (Hcount : zlen encs * co_block_size o ≤ 2 ^ 62) (Hraw : 0 ≤ raw < 2 ^ 64).

Lemma room_bound : 0 < block_room c g ≤ co_block_size o + co_block_size o / 255 + 68
  ∧ block_room c g ≤ 2 * co_block_size o.
Proof.
  destruct Hgood as (_ & Hbs & _). unfold MAX_READ_SIZE in Hbs.
  pose proof (block_room_bound c o g Hgc ltac:(lia)). pose proof (gc_max _ _ Hgc). unfold block_room in *.
  destruct g; lia.
Qed.

Lemma lens_small : small_blocks (co_block_size o) encs.
Proof.
  pose proof room_bound. split; [|done]. eapply Forall_impl; [exact Hlens|]. simpl. intros e He. destruct g; lia.
Qed.

Lemma table_ok : ∃ t, JumpTable_build lens (HEADER_TRAILER_SPACE + co_dict_size o) (co_block_size o) g = Ok t
  ∧ ∀ i, 0 ≤ i ≤ zlen encs → offset_at t i = Ok (data_start o + psum lens i).
Proof.
  pose proof room_bound as [Hr _]. destruct Hgood as (_ & Hbs & [_ _ Hd]). unfold MAX_READ_SIZE in Hbs.
  pose proof (small_blocks_sum _ _ lens_small) as Hs.
  assert (0 ≤ HEADER_TRAILER_SPACE + co_dict_size o) as Hst by (unfold HEADER_TRAILER_SPACE; lia).
  destruct (JumpTable_build_ok lens (HEADER_TRAILER_SPACE + co_dict_size o) (co_block_size o) g (block_room c g))
    as [t Ht]; [done|lia| |apply group_fits; lia|unfold HEADER_TRAILER_SPACE, U64_MAX; lia|].
  - apply Forall_fmap. eapply Forall_impl; [exact Hlens|]. simpl. intros e He. done.
  - exists t. split; [done|]. intros i Hi.
    apply JumpTable_build_offsets in Ht as (_ & _ & Hoff & _); [|unfold HEADER_TRAILER_SPACE, U64_MAX in *; lia|lia].
    apply Hoff. by rewrite zlen_fmap.
Qed.

Abbreviation image := (zfile_image o ow encs raw).

Lemma zlen_encs_pos : 0 < zlen encs.
Proof. by apply zlen_pos. Qed.

(** The header that [load_jump_table] selects. *)
Lemma select_header_ok w : cf_cached w = image →
  ∃ w', select_header (final_header o ow lens (blocks_end o encs) raw) (zlen image) w
        = (w', Ok (index_header o ow encs raw, 4 * zlen encs)) ∧ cf_same w w'.
Proof.
  intros Hw. pose proof Hgood as (_ & [HB HBu] & Hwf). pose proof lens_small as Hsm.
  pose proof (image_bounds o encs Hwf HB Hsm) as [Hb1 Hb2]. pose proof zlen_encs_pos.
  pose proof (zlen_image o ow encs raw Hwf HB Hsm Hraw) as Hzi.
  assert (mul_u64_to_usize (zlen encs) 4 = Ok (4 * zlen encs)) as Hmul.
  { unfold mul_u64_to_usize, checked_mul_or. rewrite Z.mul_comm.
    destruct (Z.leb_spec (4 * zlen encs) U64_MAX); [done|lia]. }
  unfold select_header. destruct ow.
  - change (zh_is_header_overwrite _) with true. cbn [negb].
    change (zh_index_size _) with (zlen lens). rewrite zlen_fmap, Hmul.
    change (zh_index_offset _) with (blocks_end o encs). unfold ebind, elift, ensure. rewrite Hzi.
    destruct (Z.leb_spec (blocks_end o encs) (blocks_end o encs + 4 * zlen encs + 512)); [|lia].
    destruct (Z.leb_spec (4 * zlen encs) (blocks_end o encs + 4 * zlen encs + 512 - blocks_end o encs)); [|lia].
    by exists w.
  - change (zh_is_header_overwrite _) with false. change (zh_is_data_file (final_header o false lens (blocks_end o encs) raw)) with true. cbn [negb ensure].
    unfold ebind at 1, elift at 1. unfold ebind at 1, elift at 1, HEADER_TRAILER_SPACE, ensure at 1. rewrite Hzi.
    destruct (Z.leb_spec 512 (blocks_end o encs + 4 * zlen encs + 512)); [|lia].
    replace (blocks_end o encs + 4 * zlen encs + 512 - 512) with (blocks_end o encs + 4 * zlen encs) by lia.
    destruct (read_exact_at_ok w (blocks_end o encs + 4 * zlen encs) 512) as (w1 & E1 & Hs1);
      [lia|rewrite Hw, Hzi; lia|rewrite Hw, Hzi; lia|].
    rewrite (ebind_ok _ _ _ _ _ E1). rewrite Hw, (image_trailer o false encs raw Hwf HB Hsm Hraw).
    rewrite (header_roundtrip _ (wf_trailer o encs raw Hwf HB Hsm Hraw)).
    set (t := closing_trailer o lens (blocks_end o encs) raw).
    unfold ebind at 1, elift at 1. unfold ebind at 1, elift at 1.
    change (verify_zmagic t && zh_is_trailer t && zh_is_data_file t && zh_is_sealed t) with true. cbn [ensure].
    change (zh_index_size t) with (zlen lens). rewrite zlen_fmap, Hmul.
    change (zh_index_offset t) with (blocks_end o encs). unfold ebind, elift, ensure.
    destruct (Z.leb_spec (blocks_end o encs) (blocks_end o encs + 4 * zlen encs)); [|lia].
    destruct (Z.leb_spec (4 * zlen encs) (blocks_end o encs + 4 * zlen encs - blocks_end o encs)); [|lia].
    by exists w1.
Qed.

Lemma index_header_fields : let h := index_header o ow encs raw in
  zh_opt h = o ∧ zh_original_file_size h = raw ∧ zh_index_offset h = blocks_end o encs
  ∧ zh_index_size h = zlen lens ∧ zh_is_digest_enabled h = true ∧ zh_index_crc h = crc32c (jump_index_bytes lens).
Proof. unfold index_header, final_header. destruct ow; split_and!; reflexivity. Qed.

Lemma header_checks : let h := final_header o ow lens (blocks_end o encs) raw in
  verify_zmagic h && zh_is_header h = true.
Proof. unfold final_header. destruct ow; reflexivity. Qed.

Lemma load_jump_table_ok w : cf_cached w = image →
  ∃ w' t, load_jump_table w = (w', Ok (index_header o ow encs raw, t)) ∧ cf_same w w'
    ∧ ∀ i, 0 ≤ i ≤ zlen encs → offset_at t i = Ok (data_start o + psum lens i).
Proof.
  intros Hw. pose proof Hgood as (_ & [HB HBu] & Hwf). pose proof lens_small as Hsm. pose proof zlen_encs_pos as Hpos.
  pose proof (image_bounds o encs Hwf HB Hsm) as [Hb1 Hb2].
  pose proof (zlen_image o ow encs raw Hwf HB Hsm Hraw) as Hzi.
  destruct index_header_fields as (F1 & F2 & F3 & F4 & F5 & F6). destruct table_ok as (t & Ht & Hoff).
  unfold load_jump_table, HEADER_TRAILER_SPACE at 1.
  destruct (read_exact_at_ok w 0 512) as (w1 & E1 & Hs1); [lia|rewrite Hw, Hzi; lia|rewrite Hw, Hzi; lia|].
  rewrite (ebind_ok _ _ _ _ _ E1), Hw, (image_header o ow encs raw Hwf HB Hsm Hraw).
  set (h := final_header o ow lens (blocks_end o encs) raw).
  rewrite (ebind_ok _ _ _ w1 h) by (unfold elift; by rewrite (header_roundtrip h (wf_final_header o ow encs raw Hwf HB Hsm Hraw))).
  rewrite (ebind_ok _ _ _ w1 tt) by (unfold elift, h; by rewrite header_checks).
  rewrite (ebind_ok _ _ _ w1 tt) by (unfold elift, h; by rewrite (final_valid o ow encs raw)).
  destruct (cf_size w1) as (w2 & E2 & Hs2). change (cf_same w1 w2) in Hs2.
  assert (cf_cached w1 = image) as Hw1 by (by rewrite (proj1 Hs1)).
  rewrite (ebind_ok _ _ _ _ _ E2), Hw1.
  assert (cf_cached w2 = image) as Hw2 by (by rewrite (proj1 Hs2)).
  destruct (select_header_ok w2 Hw2) as (w3 & E3 & Hs3). rewrite (ebind_ok _ _ _ _ _ E3).
  assert (cf_cached w3 = image) as Hw3 by (by rewrite (proj1 Hs3)). cbv beta iota zeta.
  rewrite F1, F3, F4, F5, F6.
  destruct (read_exact_chunks_ok w3 (blocks_end o encs) (4 * zlen encs)) as (w4 & E4 & Hs4);
    [lia|lia|rewrite Hw3, Hzi; lia|rewrite Hw3, Hzi; lia|].
  rewrite (ebind_ok _ _ _ _ _ E4), Hw3, (image_index o ow encs raw Hwf HB Hsm Hraw).
  unfold ensure at 1. rewrite Z.eqb_refl. unfold ebind at 1, elift at 1.
  rewrite zlen_fmap, zlen_jump_index_bytes, zlen_fmap.
  rewrite (ebind_ok _ _ _ w4 tt) by (unfold elift, ensure; destruct (Z.eqb_spec (zlen encs) 0); [lia|done]).
  rewrite (ebind_ok _ _ _ w4 tt)
    by (unfold elift, ensure; destruct (Z.eqb_spec (4 * zlen encs) (zlen encs * 4)); [done|lia]).
  assert (decode_index (Z.to_nat (zlen encs)) (jump_index_bytes lens) = lens) as ->.
  { replace (Z.to_nat (zlen encs)) with (length lens) by (rewrite length_fmap; unfold zlen; lia).
    apply decode_index_bytes, Forall_fmap. eapply Forall_impl; [apply Hsm|]. simpl. intros e He. unfold MAX_READ_SIZE in *. lia. }
  rewrite (ebind_ok _ _ _ w4 t) by (unfold elift; by rewrite Ht).
  exists w4, t. split; [done|]. split; [|done].
  transitivity w1; [done|]. transitivity w2; [done|]. by transitivity w3.
Qed.

(** The reader that [zfile_open_ro] sets up. *)
Lemma zfile_open_ok w verify data : cf_cached w = image → raw = zlen data →
  (∀ i e, encs !! i = Some e → encodes c g (slice (Z.of_nat i * co_block_size o) (co_block_size o) data) e) →
  zlen data ≤ zlen encs * co_block_size o →
  ∃ w' z, zfile_open_ro verify w = (w', Ok z) ∧ cf_same w w' ∧ ro_valid_mode z = Normal
    ∧ reader_of z o c g (data_start o) encs data.
Proof.
  intros Hw Hr Henc Hcov. destruct (load_jump_table_ok w Hw) as (w1 & t & E1 & Hs1 & Hoff).
  destruct index_header_fields as (F1 & F2 & _).
  unfold zfile_open_ro.
  rewrite (ebind_ok _ _ _ w1 (index_header o ow encs raw, t)) by (cbn [load_with_retry]; by rewrite E1).
  cbv beta iota. rewrite F1, Hcc. eexists w1, _. split; [reflexivity|]. split; [done|]. split; [done|].
  destruct Hgood as (_ & _ & [_ _ Hd]).
  constructor; try done; [by unfold original_size; cbn; rewrite F2|].
  unfold data_start, HEADER_TRAILER_SPACE. lia.
Qed.
End Load.
