(* ===== verification/ZFile.v ===== *)
(** * Compressed files from end to end

    What [storage/overlaybd/src/compression/zfile.rs] promises as a whole: a
    file built by any sequence of writes reads back exactly, its bytes do not
    depend on how it was written, a damaged cache below a reader is repaired or
    reported but never believed, and compressing, decompressing and validating
    whole files agree. *)

From S2P Require Import Prelude LsmtIo ZFormat ZBuild ZImage ZRead ZPread ZOpen.

Open Scope result_scope.

(** ** Sequences of writes *)

Inductive builder_op : Type :=
| BWrite (buf : list Z)
| BWriteOwned (buffer : list Z) (len : Z).

Definition op_data (op : builder_op) : list Z :=
  match op with BWrite buf => buf | BWriteOwned buffer len => ztake len buffer end.

(** The length handed over with an owned buffer is within the buffer. *)
Definition op_valid (op : builder_op) : Prop :=
  match op with BWrite _ => True | BWriteOwned buffer len => 0 ≤ len ≤ zlen buffer end.

Section Build.
Context `{Codec, Crc32c, FileWriter, Completion}.

Definition apply_op (op : builder_op) : eff ZFileBuilder zfile_error Z :=
  match op with BWrite buf => zb_write buf | BWriteOwned buffer len => zb_write_owned buffer len end.

Fixpoint apply_ops (ops : list builder_op) : eff ZFileBuilder zfile_error unit :=
  match ops with
  | [] => eret tt
  | op :: ops' => let! _ := apply_op op in apply_ops ops'
  end.

(** A new file, the writes, and [close]. *)
Definition zfile_build (args : CompressArgs) (local : bool) (ops : list builder_op) : result zfile_error (list Z) :=
  let? b := (ZFileBuilder_new [] local args).2 in
  let '(b, r) := apply_ops ops b in
  let? _ := r in
  (zb_close b).2.
End Build.

Definition ops_data (ops : list builder_op) : list Z := concat (op_data <$> ops).

(** ** The image of the written data *)
Section Built.
Context `{CodecSpec, Crc32cSpec, FileWriterSpec, CompletionSpec}.

Lemma apply_ops_ok args c ops : good_options (ca_opt args) → create_compressor (ca_opt args) = Ok c →
  good_compressor c (ca_opt args) → Forall op_valid ops →
  ∀ data b, zb_given args c data b → zlen (data ++ ops_data ops) < 2 ^ 61 →
  ∃ b', apply_ops ops b = (b', Ok tt) ∧ zb_given args c (data ++ ops_data ops) b'.
Proof.
  intros Hgood Hcc Hgc Hv. induction Hv as [|op ops Hop Hv IH]; intros data b Hb Hl.
  { exists b. unfold ops_data. by rewrite app_nil_r. }
  change (ops_data (op :: ops)) with (op_data op ++ ops_data ops) in *. rewrite app_assoc in *.
  pose proof (zlen_nonneg (ops_data ops)) as Hn. rewrite zlen_app in Hl.
  assert (∃ b1 n, apply_op op b = (b1, Ok n) ∧ zb_given args c (data ++ op_data op) b1) as (b1 & n & E & Hb1).
  { destruct op as [buf|buffer len]; cbn [op_data apply_op op_valid] in *.
    - destruct (zb_write_ok args c Hgood Hcc Hgc data buf b Hb) as (b1 & E & Hb1); [lia|]. by eauto.
    - destruct (zb_write_owned_ok args c Hgood Hcc Hgc data buffer len b Hb Hop) as (b1 & E & Hb1); [|by eauto].
      rewrite zlen_app, zlen_ztake in Hl. lia. }
  cbn [apply_ops]. rewrite (ebind_ok _ _ _ _ _ E). apply IH; [done|]. rewrite zlen_app. lia.
Qed.

Lemma zfile_build_image args c local ops : good_options (ca_opt args) → create_compressor (ca_opt args) = Ok c →
  good_compressor c (ca_opt args) → Forall op_valid ops → zlen (ops_data ops) < 2 ^ 61 →
  zfile_build args local ops
  = Ok (zfile_image (ca_opt args) (ca_overwrite_header args) (builder_blocks args c (ops_data ops)) (zlen (ops_data ops))).
Proof.
  intros Hgood Hcc Hgc Hv Hl. unfold zfile_build.
  destruct (ZFileBuilder_new_ok args c Hgood Hcc Hgc local) as (f & b & E & Hb). rewrite E. cbn [snd rbind].
  destruct (apply_ops_ok args c ops Hgood Hcc Hgc Hv [] b Hb Hl) as (b1 & E1 & Hb1). rewrite E1. cbn [rbind].
  destruct (zb_finish_ok args c Hgood Hgc _ b1 Hb1) as (b2 & E2 & _ & Hd). unfold zb_close.
  rewrite E2. cbn [snd rbind]. by rewrite Hd.
Qed.
End Built.

(** ** Readers of an image *)
Section Readers.
Context {W : Type} `{CachedFileSpec W, CodecSpec, Crc32cSpec, CompletionSpec}.
Context (o : CompressOptions) (ow : bool) (encs : list (list Z)) (data : list Z) (c : Compressor).
Context (Hgood : good_options o) (Hcc : create_compressor o = Ok c) (Hgc : good_compressor c o).

Abbreviation g := (negb (co_verify o =? 0)).
Abbreviation bs := (co_block_size o).
Abbreviation image := (zfile_image o ow encs (zlen data)).

Context (Henc : ∀ i e, encs !! i = Some e → encodes c g (slice (Z.of_nat i * bs) bs data) e)
  (Hcov : zlen data ≤ zlen encs * bs) (Hcount : zlen encs * co_block_size o ≤ 2 ^ 62) (Hlen : 0 < zlen data < 2 ^ 61).

Lemma opts_bs : 0 < bs ≤ 65536.
Proof. destruct Hgood as (_ & Hb & _). unfold MAX_READ_SIZE in Hb. lia. Qed.

Lemma encs_lengths : Forall (λ e, (if g then 4 else 0) < zlen e ≤ block_room c g) encs.
Proof.
  apply Forall_forall. intros e [i Hi]%list_elem_of_lookup. by eapply encodes_length, Henc.
Qed.

Lemma encs_nonempty : encs ≠ [].
Proof. intros E. rewrite E in Hcov. unfold zlen in *. simpl in *. lia. Qed.

Lemma image_opens w verify : cf_cached w = image →
  ∃ w' z, zfile_open_ro verify w = (w', Ok z) ∧ cf_same w w' ∧ ro_valid_mode z = Normal
    ∧ reader_of z o c g (data_start o) encs data.
Proof.
  intros Hw.
  apply (zfile_open_ok o ow encs (zlen data) c Hgood Hcc Hgc encs_lengths encs_nonempty Hcount); [lia|done..].
Qed.

Lemma image_small : small_blocks bs encs.
Proof.
  apply (lens_small o encs c Hgood Hgc encs_lengths Hcount).
Qed.

Lemma image_length : zlen image = blocks_end o encs + 4 * zlen encs + 512 ∧ zlen image ≤ U64_MAX.
Proof.
  destruct Hgood as (_ & [HB HBu] & Hwf). pose proof (image_bounds o encs Hwf HB image_small).
  rewrite (zlen_image o ow encs (zlen data) Hwf HB image_small) by lia. lia.
Qed.

(** A cache whose blocks are genuine or rejected by their checksums. *)
Definition cache_detected (w : W) : Prop :=
  cf_origin w = image ∧ zlen (cf_cached w) = zlen image
  ∧ ∀ k, 0 ≤ k < zlen encs →
      block_seen g encs k (slice (block_off (data_start o) encs k) (block_len encs k) (cf_cached w)).

Abbreviation boff := (block_off (data_start o) encs).

Lemma block_range i : 0 ≤ i ≤ zlen encs → data_start o ≤ boff i ≤ blocks_end o encs.
Proof.
  intros Hi. pose proof (block_off_le (data_start o) encs 0 i ltac:(lia) ltac:(lia)) as Hb0.
  pose proof (block_off_le (data_start o) encs i (zlen encs) ltac:(lia) ltac:(lia)) as Hb1.
  assert (boff 0 = data_start o) as Hz by apply Z.add_0_r.
  assert (boff (zlen encs) = blocks_end o encs) as He.
  { unfold block_off, blocks_end. rewrite <- (zlen_fmap zlen encs), psum_all. done. }
  lia.
Qed.

Lemma data_start_pos : 0 < data_start o.
Proof. destruct Hgood as (_ & _ & [_ _ Hd]). unfold data_start, HEADER_TRAILER_SPACE. lia. Qed.

Lemma cached_read w i j : cache_detected w → 0 ≤ i ≤ j → j ≤ zlen encs →
  outcome False (read_exact_at (boff i) (boff j - boff i) w) (λ w' bytes,
    cache_detected w' ∧ ∀ k, i ≤ k < j → block_seen g encs k (slice (boff k - boff i) (block_len encs k) bytes)).
Proof.
  intros (Ho & Hz & Hk) Hij Hj. pose proof image_length as [Hl1 Hl2]. pose proof data_start_pos.
  pose proof (block_range i ltac:(lia)). pose proof (block_range j ltac:(lia)). pose proof (zlen_nonneg encs).
  destruct (read_exact_at_ok w (boff i) (boff j - boff i)) as (w' & E & Hc & Hor); [lia|lia|lia|].
  rewrite E. cbn [outcome]. split; [unfold cache_detected; by rewrite Hc, Hor|].
  intros k Hkr. pose proof (block_off_le (data_start o) encs i k ltac:(lia) ltac:(lia)).
  pose proof (block_off_le (data_start o) encs (k + 1) j ltac:(lia) ltac:(lia)).
  pose proof (block_off_succ (data_start o) encs k ltac:(lia)).
  rewrite slice_slice by lia. replace (boff i + (boff k - boff i)) with (boff k) by lia. apply Hk. lia.
Qed.

(** Putting a genuine block back keeps the other blocks. *)
Lemma slice_splice_other l off d o' n : 0 ≤ off → 0 ≤ o' → 0 ≤ n → off + zlen d ≤ zlen l → o' + n ≤ zlen l →
  o' + n ≤ off ∨ off + zlen d ≤ o' → slice o' n (splice l off d) = slice o' n l.
Proof.
  intros. pose proof (zlen_nonneg d).
  assert (zlen (splice l off d) = zlen l) as Hz by (apply zlen_splice; lia).
  apply bytes_ext; [rewrite !zlen_slice; lia|]. rewrite zlen_slice by lia. intros p Hp.
  rewrite !byte_at_slice, byte_at_splice by lia. bcases; done.
Qed.

Lemma slice_splice_same l off d : 0 ≤ off → off + zlen d ≤ zlen l → slice off (zlen d) (splice l off d) = d.
Proof.
  intros Ho Hl. unfold splice. pose proof (zlen_nonneg d). assert (zlen (ztake off l) = off) as Ht by (rewrite zlen_ztake; lia).
  rewrite <- Ht at 1. apply slice_app_mid.
Qed.

Lemma cached_evict w i : cache_detected w → 0 ≤ i < zlen encs →
  outcome False (bf_evict_range (boff i) (block_len encs i) w) (λ w1 _,
    outcome False (read_exact_at (boff i) (block_len encs i) w1) (λ w2 blk,
      cache_detected w2 ∧ (blk = block_enc encs i ∨ False ∧ block_seen g encs i blk))).
Proof.
  intros (Ho & Hz & Hk) Hi. pose proof image_length as [Hl1 Hl2]. pose proof data_start_pos.
  pose proof (block_range i ltac:(lia)). pose proof (block_range (i + 1) ltac:(lia)).
  pose proof (block_off_succ (data_start o) encs i Hi) as Hsucc. pose proof (zlen_nonneg (block_enc encs i)) as Hbn.
  fold (block_len encs i) in Hbn. destruct Hgood as (_ & [HB HBu] & Hwf).
  pose proof (image_block o ow encs (zlen data) Hwf HB image_small ltac:(lia) i Hi) as Hib. pose proof (zlen_nonneg encs).
  destruct (cf_evict w (boff i) (block_len encs i)) as (w1 & E1 & Hc1 & Ho1); [lia|lia|lia|].
  rewrite E1. cbn [outcome]. rewrite Ho, Hib in Hc1. fold (block_len encs i) in Hc1.
  assert (zlen (cf_cached w1) = zlen image) as Hz1 by (rewrite Hc1, zlen_splice; unfold block_len in *; lia).
  assert (slice (boff i) (block_len encs i) (cf_cached w1) = block_enc encs i) as Hs1.
  { rewrite Hc1. apply slice_splice_same; unfold block_len in *; lia. }
  destruct (read_exact_at_ok w1 (boff i) (block_len encs i)) as (w2 & E2 & Hc2 & Ho2); [lia|lia|lia|].
  rewrite E2. cbn [outcome]. split; [|by left]. split; [congruence|]. split; [by rewrite Hc2|].
  intros k Hkr. rewrite Hc2. destruct (decide (k = i)) as [->|Hne]; [left; done|].
  rewrite Hc1, slice_splice_other; [by apply Hk|..]; pose proof (block_range k ltac:(lia));
    pose proof (block_range (k + 1) ltac:(lia)); pose proof (block_off_succ (data_start o) encs k Hkr);
    pose proof (zlen_nonneg (block_enc encs k)); unfold block_len in *; try lia.
  destruct (decide (k < i)).
  - left. pose proof (block_off_le (data_start o) encs (k + 1) i ltac:(lia) ltac:(lia)). lia.
  - right. pose proof (block_off_le (data_start o) encs (i + 1) k ltac:(lia) ltac:(lia)). lia.
Qed.

(** Reads of a detected cache succeed with the data. *)
Lemma cached_pread z w buf offset : reader_of z o c g (data_start o) encs data → cache_detected w → 0 ≤ offset →
  let n := Z.max 0 (Z.min (zlen buf) (zlen data - offset)) in
  ∃ w', pread z buf offset w = (w', Ok (n, delivers z buf 0 (slice offset n data))) ∧ cache_detected w'.
Proof.
  intros Hz Hw Hoff n.
  pose proof (pread_ok z o c g (data_start o) encs data Hz Hgc opts_bs False cache_detected
    cached_read cached_evict w buf offset Hw Hoff) as Hp.
  apply outcome_False in Hp as (w' & [k buf'] & E & Hw' & -> & ->). by exists w'.
Qed.

Lemma clean_detected w : cf_cached w = image → cf_origin w = image → cache_detected w.
Proof.
  intros Hc Ho. split; [done|]. rewrite Hc. split; [done|]. intros k Hk. left.
  destruct Hgood as (_ & [HB HBu] & Hwf). apply (image_block o ow encs (zlen data) Hwf HB image_small); lia.
Qed.
End Readers.

(** ** Sequences of reads *)

(** The requests of a client, one after the other: a buffer and an offset each. *)
Fixpoint pread_all {W} `{BackingFile W, Codec, Crc32c} (z : ZFileRO) (reqs : list (list Z * Z))
  : eff W zfile_error (list (Z * list Z)) :=
  match reqs with
  | [] => eret []
  | (buf, offset) :: reqs' =>
      let! r := pread z buf offset in
      let! rs := pread_all z reqs' in
      eret (r :: rs)
  end.

(** What [pread] of the uncompressed data returns. *)
Definition read_spec (data : list Z) (req : list Z * Z) : Z * list Z :=
  let '(buf, offset) := req in
  let n := Z.max 0 (Z.min (zlen buf) (zlen data - offset)) in
  (n, splice buf 0 (slice offset n data)).

Definition valid_requests (reqs : list (list Z * Z)) : Prop := Forall (λ r, 0 ≤ r.2) reqs.

Section Claims.
Context {W : Type} `{CachedFileSpec W, CodecSpec, Crc32cSpec, CompletionSpec}.

Lemma cached_pread_all o ow encs data c z reqs : good_options o → good_compressor c o →
  (∀ i e, encs !! i = Some e →
     encodes c (negb (co_verify o =? 0)) (slice (Z.of_nat i * co_block_size o) (co_block_size o) data) e) →
  zlen data ≤ zlen encs * co_block_size o → zlen encs * co_block_size o ≤ 2 ^ 62 → 0 < zlen data < 2 ^ 61 →
  reader_of z o c (negb (co_verify o =? 0)) (data_start o) encs data → ro_valid_mode z = Normal →
  valid_requests reqs → ∀ w, cache_detected o ow encs data w →
  ∃ w', pread_all z reqs w = (w', Ok (read_spec data <$> reqs)) ∧ cache_detected o ow encs data w'.
Proof.
  intros Hopt Hgc Henc Hcov Hcount Hlen Hz Hm Hv. induction Hv as [|[buf off] reqs Hoff Hv IH]; intros w Hw.
  { by exists w. }
  destruct (cached_pread o ow encs data c Hopt Hgc Henc Hcov Hcount Hlen z w buf off Hz Hw Hoff) as (w1 & E1 & Hw1).
  destruct (IH w1 Hw1) as (w2 & E2 & Hw2). exists w2. split; [|done].
  cbn [pread_all]. rewrite (ebind_ok _ _ _ _ _ E1), (ebind_ok _ _ _ _ _ E2). unfold delivers. by rewrite Hm.
Qed.
End Claims.

(** The blocks of the builder are blocks of the data. *)
Lemma builder_blocks_of_data `{CodecSpec, Crc32cSpec} args c data : good_options (ca_opt args) →
  good_compressor c (ca_opt args) → zlen data < 2 ^ 61 →
  (∀ i e, builder_blocks args c data !! i = Some e →
     encodes c (gen_crc_of args) (slice (Z.of_nat i * co_block_size (ca_opt args)) (co_block_size (ca_opt args)) data) e)
  ∧ zlen data ≤ zlen (builder_blocks args c data) * co_block_size (ca_opt args)
  ∧ zlen (builder_blocks args c data) * co_block_size (ca_opt args) ≤ 2 ^ 62.
Proof.
  intros Hg Hgc Hl. pose proof (builder_blocks_encode args c Hg Hgc data) as He. split_and!.
  - intros i e Hi. destruct (Forall2_lookup_r _ _ _ _ _ He Hi) as (p & Hp & Hep).
    by apply plain_blocks_lookup in Hp as [-> _].
  - unfold zlen at 2. rewrite <- (Forall2_length _ _ _ He). by apply plain_blocks_cover.
  - by apply builder_blocks_small.
Qed.

(** Likewise for [zfile_compress]. *)
Lemma compress_blocks_of_data `{CodecSpec, Crc32cSpec} args c data : good_options (ca_opt args) →
  good_compressor c (ca_opt args) → zlen data < 2 ^ 61 →
  (∀ i e, compress_blocks_of args c data !! i = Some e →
     encodes c (gen_crc_of args) (slice (Z.of_nat i * co_block_size (ca_opt args)) (co_block_size (ca_opt args)) data) e)
  ∧ zlen data ≤ zlen (compress_blocks_of args c data) * co_block_size (ca_opt args)
  ∧ zlen (compress_blocks_of args c data) * co_block_size (ca_opt args) ≤ 2 ^ 62.
Proof.
  intros Hg Hgc Hl. unfold compress_blocks_of. rewrite zlen_fmap. split_and!.
  - intros i e (p & -> & Hp)%list_lookup_fmap_Some. apply plain_blocks_lookup in Hp as [Hp Hz]; [|done].
    rewrite Hp in *. by apply encode_last_ok; [|apply good_bs|].
  - by apply plain_blocks_cover.
  - pose proof (zlen_plain_blocks args Hg data). pose proof (good_bs args Hg). lia.
Qed.

(** The zfile of some data opens, and reads return the data. *)
Lemma built_reads {W : Type} `{CachedFileSpec W, CodecSpec, Crc32cSpec, CompletionSpec} args c data verify reqs (w : W) :
  good_options (ca_opt args) → create_compressor (ca_opt args) = Ok c → good_compressor c (ca_opt args) →
  0 < zlen data < 2 ^ 61 → valid_requests reqs →
  cf_cached w = zfile_image (ca_opt args) (ca_overwrite_header args) (builder_blocks args c data) (zlen data) →
  cf_origin w = cf_cached w →
  ∃ w1 z w2, zfile_open_ro verify w = (w1, Ok z) ∧ original_size z = zlen data
    ∧ pread_all z reqs w1 = (w2, Ok (read_spec data <$> reqs)).
Proof.
  intros Ho Hcc Hgc Hl Hr Hc Hor.
  destruct (builder_blocks_of_data args c data Ho Hgc ltac:(lia)) as (Henc & Hcov & Hcnt).
  destruct (image_opens _ _ _ _ c Ho Hcc Hgc Henc Hcov Hcnt Hl w verify Hc) as (w1 & z & E1 & [Hs1 Hs2] & Hm & Hz).
  destruct (cached_pread_all _ (ca_overwrite_header args) _ _ c z reqs Ho Hgc Henc Hcov Hcnt Hl Hz Hm Hr w1)
    as (w2 & E2 & _); [apply (clean_detected _ _ _ _ c); try done; congruence|].
  exists w1, z, w2. split_and!; [done|by apply Hz|done].
Qed.

(** C11: Round trip.  Whatever the sizes of the writes, the number of workers and
    the order they finish in, a finished zfile opens, with or without retries,
    and any sequence of reads returns exactly the bytes that were written. *)
Theorem zfile_roundtrip {W : Type} `{CachedFileSpec W, CodecSpec, Crc32cSpec, FileWriterSpec, CompletionSpec}
    args local ops verify reqs :
  good_options (ca_opt args) → Forall op_valid ops → 0 < zlen (ops_data ops) < 2 ^ 61 → valid_requests reqs →
  ∃ f, zfile_build args local ops = Ok f
    ∧ ∀ w : W, cf_cached w = f → cf_origin w = f →
        ∃ w1 z w2, zfile_open_ro verify w = (w1, Ok z) ∧ original_size z = zlen (ops_data ops)
          ∧ pread_all z reqs w1 = (w2, Ok (read_spec (ops_data ops) <$> reqs)).
Proof.
  intros Ho Hv Hl Hr. destruct (create_compressor_good _ Ho) as (c & Hcc & Hgc).
  eexists. split; [by apply zfile_build_image; try lia|]. intros w Hc Hor.
  apply (built_reads args c); try done. congruence.
Qed.

Lemma builder_blocks_args `{Codec, Crc32c} args1 args2 c data : ca_opt args1 = ca_opt args2 →
  builder_blocks args1 c data = builder_blocks args2 c data.
Proof.
  intros Ho. unfold builder_blocks, enc_blocks, full_blocks, gen_crc_of. by rewrite Ho.
Qed.

(** C31: The bytes of a zfile depend on the options and the data only: not on how
    the data was cut into writes, on the number of workers, on the order in
    which they finish, on short writes of the destination or on its kind. *)
Theorem zfile_bytes_independent `{CodecSpec, Crc32cSpec}
    (F1 F2 : FileWriter) (_ : @FileWriterSpec F1) (_ : @FileWriterSpec F2)
    (C1 C2 : Completion) (_ : @CompletionSpec C1) (_ : @CompletionSpec C2)
    args1 args2 local1 local2 ops1 ops2 :
  ca_opt args1 = ca_opt args2 → ca_overwrite_header args1 = ca_overwrite_header args2 →
  good_options (ca_opt args1) → Forall op_valid ops1 → Forall op_valid ops2 →
  ops_data ops1 = ops_data ops2 → zlen (ops_data ops1) < 2 ^ 61 →
  ∃ f, @zfile_build _ _ F1 C1 args1 local1 ops1 = Ok f ∧ @zfile_build _ _ F2 C2 args2 local2 ops2 = Ok f.
Proof.
  intros Ho Hw Hg Hv1 Hv2 Hd Hl. destruct (create_compressor_good _ Hg) as (c & Hcc & Hgc).
  eexists. split; [by apply zfile_build_image|].
  rewrite (zfile_build_image args2 c), Hd, Ho, Hw, (builder_blocks_args args1 args2) by congruence. done.
Qed.

(** ** Damage below a reader *)

(** An open reader of the zfile [f] that was built from [data]. *)
Record opened_zfile `{Codec, Crc32c} (args : CompressArgs) (f data : list Z) (c : Compressor) (z : ZFileRO) : Prop := {
  op_file : f = zfile_image (ca_opt args) (ca_overwrite_header args) (builder_blocks args c data) (zlen data);
  op_good : good_compressor c (ca_opt args);
  op_reader : reader_of z (ca_opt args) c (gen_crc_of args) (data_start (ca_opt args)) (builder_blocks args c data) data;
  op_mode : ro_valid_mode z = Normal
}.

(** The extent of every block, as the reader reports it. *)
Definition extent_of `{Codec} (z : ZFileRO) (off len : Z) : Prop :=
  ∃ p, 0 ≤ p < original_size z ∧ compressed_block_extent z p = Ok (off, len).

(** The bytes of an extent as they were written, or bytes that fail their
    checksum. *)
Definition intact_or_detected `{Crc32c} (f bytes : list Z) (off len : Z) : Prop :=
  bytes = slice off len f ∨ crc_matches bytes (len - 4) = false.

Section Damage.
Context `{CodecSpec, Crc32cSpec}.

Lemma built_opened {W : Type} `{CachedFileSpec W, FileWriterSpec, CompletionSpec} args local ops verify f (w w1 : W) z :
  good_options (ca_opt args) → Forall op_valid ops → 0 < zlen (ops_data ops) < 2 ^ 61 →
  zfile_build args local ops = Ok f → cf_cached w = f → zfile_open_ro verify w = (w1, Ok z) →
  ∃ c, opened_zfile args f (ops_data ops) c z.
Proof.
  intros Ho Hv Hl Hf Hc Hz. destruct (create_compressor_good _ Ho) as (c & Hcc & Hgc).
  rewrite (zfile_build_image args c) in Hf by (done || lia). injection Hf as <-.
  destruct (builder_blocks_of_data args c (ops_data ops) Ho Hgc ltac:(lia)) as (Henc & Hcov & Hcnt).
  destruct (image_opens _ _ _ _ c Ho Hcc Hgc Henc Hcov Hcnt Hl w verify Hc) as (w2 & z2 & E & _ & Hm & Hr).
  exists c. rewrite E in Hz. injection Hz as _ <-. by constructor.
Qed.

Context (args : CompressArgs) (f data : list Z) (c : Compressor) (z : ZFileRO).
Context (Ho : good_options (ca_opt args)) (Hl : 0 < zlen data < 2 ^ 61) (Hop : opened_zfile args f data c z).
Context (Hver : co_verify (ca_opt args) ≠ 0).

Abbreviation encs := (builder_blocks args c data).
Abbreviation bs := (co_block_size (ca_opt args)).

Lemma verify_on : gen_crc_of args = true.
Proof. unfold gen_crc_of. by destruct (Z.eqb_spec (co_verify (ca_opt args)) 0). Qed.

Lemma block_extent k : 0 ≤ k < zlen encs → k * bs < zlen data →
  extent_of z (block_off (data_start (ca_opt args)) encs k) (block_len encs k).
Proof.
  intros Hk Hkd. destruct Ho as (_ & Hb & _). destruct Hop as [_ Hgc Hr _].
  exists (k * bs). rewrite (rz_size _ _ _ _ _ _ _ Hr). split; [lia|].
  unfold compressed_block_extent. rewrite (rz_opt _ _ _ _ _ _ _ Hr). unfold ensure.
  destruct (Z.eqb_spec bs 0); [lia|]. cbn [negb rbind]. rewrite Z.div_mul by lia.
  rewrite !(rz_offsets _ _ _ _ _ _ _ Hr) by lia. cbn [rbind]. do 2 f_equal.
  pose proof (block_off_succ (data_start (ca_opt args)) encs k Hk) as Hs. unfold block_off in Hs.
  pose proof (zlen_nonneg (block_enc encs k)). unfold saturating_sub, block_len in *. lia.
Qed.

Lemma block_starts k : 0 ≤ k < zlen encs → k * bs < zlen data.
Proof.
  destruct Hop as [_ Hgc _ _]. intros Hk. pose proof Ho as Hg.
  pose proof (builder_blocks_encode args c Hg Hgc data) as He. pose proof (good_bs args Hg).
  destruct (lookup_lt_is_Some_2 encs (Z.to_nat k)) as [e Hel]; [unfold zlen in *; lia|].
  destruct (Forall2_lookup_r _ _ _ _ _ He Hel) as (p & Hp & _).
  apply plain_blocks_lookup in Hp as [-> Hz]; [|done]. unfold slice in Hz. rewrite zlen_ztake, zlen_zdrop in Hz by lia. lia.
Qed.

Lemma detected_seen k bytes : 0 ≤ k < zlen encs →
  intact_or_detected f bytes (block_off (data_start (ca_opt args)) encs k) (block_len encs k) →
  block_seen (gen_crc_of args) encs k bytes.
Proof.
  intros Hk. destruct Hop as [-> Hgc _ _]. pose proof Ho as Hg. pose proof Ho as (_ & [HB HBu] & Hwf). intros [->|Hd].
  - left. apply image_block; try done; [|lia]. apply builder_blocks_small; done || lia.
  - right. unfold body_len. by rewrite verify_on.
Qed.
End Damage.

(** C13: A damaged cache is repaired.  The blocks of a file with checksums may
    come back damaged from the cache below the reader, as long as their
    checksums notice it: every read still succeeds and returns the written
    bytes, because the damaged blocks are evicted and fetched again. *)
Theorem damaged_cache_is_repaired {W : Type}
    `{CachedFileSpec W, CodecSpec, Crc32cSpec, FileWriterSpec, CompletionSpec}
    args local ops verify reqs f (w0 w1 w : W) z :
  good_options (ca_opt args) → co_verify (ca_opt args) ≠ 0 → Forall op_valid ops →
  0 < zlen (ops_data ops) < 2 ^ 61 → valid_requests reqs →
  zfile_build args local ops = Ok f → cf_cached w0 = f → zfile_open_ro verify w0 = (w1, Ok z) →
  cf_origin w = f → zlen (cf_cached w) = zlen f →
  (∀ off len, extent_of z off len → intact_or_detected f (slice off len (cf_cached w)) off len) →
  ∃ w', pread_all z reqs w = (w', Ok (read_spec (ops_data ops) <$> reqs)).
Proof.
  intros Ho Hver Hv Hl Hr Hf Hw0 Hz Hor Hlen Hdet.
  destruct (built_opened args local ops verify f w0 w1 z Ho Hv Hl Hf Hw0 Hz) as (c & Hop).
  pose proof Hop as [Hf' Hgc Hrd Hm].
  destruct (builder_blocks_of_data args c (ops_data ops) Ho Hgc ltac:(lia)) as (Henc & Hcov & Hcnt).
  destruct (cached_pread_all _ (ca_overwrite_header args) _ _ c z reqs Ho Hgc Henc Hcov Hcnt Hl Hrd Hm Hr w)
    as (w2 & E2 & _); [|by exists w2].
  unfold cache_detected. rewrite <- Hf'. split_and!; [done|done|]. intros k Hk.
  apply (detected_seen args f (ops_data ops) c z Ho Hl Hop Hver k); [done|].
  apply Hdet. eapply block_extent; [done|done|done|]. by eapply block_starts.
Qed.

(** C14: Damage is never believed.  Below the reader anything may happen: reads
    and evictions may fail, and bytes may be damaged every time they are read.
    If checksums notice the damage, a read that succeeds returns the written
    bytes. *)
Theorem damage_is_never_returned {W W' : Type}
    `{CachedFileSpec W, BackingFile W', CodecSpec, Crc32cSpec, FileWriterSpec, CompletionSpec}
    args local ops verify f (w0 w1 : W) z (w w' : W') buf offset r :
  good_options (ca_opt args) → co_verify (ca_opt args) ≠ 0 → Forall op_valid ops →
  0 < zlen (ops_data ops) < 2 ^ 61 →
  zfile_build args local ops = Ok f → cf_cached w0 = f → zfile_open_ro verify w0 = (w1, Ok z) →
  (∀ (v v' : W') off len bytes, 0 ≤ off → 0 ≤ len → read_exact_at off len v = (v', Ok bytes) → zlen bytes = len
     ∧ ∀ o l, extent_of z o l → off ≤ o → o + l ≤ off + len → intact_or_detected f (slice (o - off) l bytes) o l) →
  0 ≤ offset → pread z buf offset w = (w', Ok r) → r = read_spec (ops_data ops) (buf, offset).
Proof.
  intros Ho Hver Hv Hl Hf Hw0 Hz Hbytes Hoff Hp.
  destruct (built_opened args local ops verify f w0 w1 z Ho Hv Hl Hf Hw0 Hz) as (c & Hop).
  pose proof Hop as [_ Hgc Hrd Hm]. pose proof (opts_bs _ Ho) as Hbs.
  set (encs := builder_blocks args c (ops_data ops)) in *. set (start := data_start (ca_opt args)) in *.
  assert (∀ k bytes, 0 ≤ k < zlen encs → intact_or_detected f bytes (block_off start encs k) (block_len encs k) →
    block_seen (gen_crc_of args) encs k bytes) as Hseen
    by (intros k bytes; exact (detected_seen args f (ops_data ops) c z Ho Hl Hop Hver k bytes)).
  assert (∀ k, 0 ≤ k < zlen encs → extent_of z (block_off start encs k) (block_len encs k)) as Hext.
  { intros k Hk. eapply block_extent; [done|done|done|]. by eapply block_starts. }
  assert (∀ k, 0 ≤ k < zlen encs → block_off start encs (k + 1) = block_off start encs k + block_len encs k) as Hsucc
    by exact (block_off_succ start encs).
  assert (∀ k, 0 ≤ k ≤ zlen encs → 0 ≤ block_off start encs k) as Hpos.
  { intros k Hk. pose proof (block_off_le start encs 0 k ltac:(lia) ltac:(lia)) as Hle.
    pose proof (rz_start _ _ _ _ _ _ _ Hrd). unfold block_off in *. change (psum _ 0) with 0 in Hle. lia. }
  pose proof (pread_ok z (ca_opt args) c (gen_crc_of args) start encs (ops_data ops) Hrd Hgc Hbs True (λ _ : W', True)) as Hpr.
  assert (outcome True (pread z buf offset w) (λ _ r, r = read_spec (ops_data ops) (buf, offset))) as Hout.
  { eapply outcome_mono; [|apply Hpr; [| |done|done]].
    - intros s [k b] (_ & -> & ->). unfold delivers. by rewrite Hm.
    - intros v i j _ Hij Hj. destruct (read_exact_at _ _ v) as [v' [bytes|e]] eqn:E; [|done]. split; [done|].
      intros k Hk. pose proof (block_off_le start encs i k ltac:(lia) ltac:(lia)).
      pose proof (block_off_le start encs i j ltac:(lia) ltac:(lia)).
      destruct (λ A B, Hbytes _ _ _ _ _ A B E) as [_ Hb]; [apply Hpos; lia|lia|]. apply Hseen; [lia|].
      pose proof (block_off_le start encs (k + 1) j ltac:(lia) ltac:(lia)). pose proof (Hsucc k ltac:(lia)).
      apply Hb; [apply Hext; lia|lia|lia].
    - intros v i _ Hi. destruct (bf_evict_range _ _ v) as [v1 [[]|e]]; [|done]. cbn [outcome].
      destruct (read_exact_at _ _ v1) as [v' [bytes|e]] eqn:E; [|done]. split; [done|]. right. split; [done|].
      destruct (λ A B, Hbytes _ _ _ _ _ A B E) as [Hlen Hb]; [apply Hpos; lia|apply zlen_nonneg|]. apply Hseen; [done|].
      specialize (Hb _ _ (Hext i Hi) ltac:(lia) ltac:(lia)). rewrite Z.sub_diag in Hb.
      unfold slice in Hb at 1. rewrite zdrop_0, ztake_all in Hb by lia. exact Hb. }
  by rewrite Hp in Hout.
Qed.

(** ** Whole files *)
Section Whole.
Context {W : Type} `{CachedFileSpec W, CodecSpec, Crc32cSpec, CompletionSpec}.
Context (o : CompressOptions) (ow : bool) (encs : list (list Z)) (data : list Z) (c : Compressor).
Context (Hopt : good_options o) (Hcc : create_compressor o = Ok c) (Hgc : good_compressor c o).

Abbreviation g := (negb (co_verify o =? 0)).
Abbreviation bs := (co_block_size o).

Context (Henc : ∀ i e, encs !! i = Some e → encodes c g (slice (Z.of_nat i * bs) bs data) e)
  (Hcov : zlen data ≤ zlen encs * bs) (Hcount : zlen encs * co_block_size o ≤ 2 ^ 62) (Hlen : 0 < zlen data < 2 ^ 61).

Abbreviation detected := (cache_detected o ow encs data).

Lemma ztake_splice_front raw d n : zlen d = n → n ≤ zlen raw → ztake n (splice raw 0 d) = d.
Proof. intros Hd Hn. unfold splice. change (ztake 0 raw) with (@nil Z). cbn [app]. by apply ztake_app_here. Qed.

Lemma decompress_loop_ok `{FileWriterSpec} z fuel : reader_of z o c g (data_start o) encs data → ro_valid_mode z = Normal →
  ∀ w offset raw, detected w → 0 ≤ offset ≤ zlen data → (Z.to_nat (zlen data - offset) ≤ fuel)%nat → zlen raw = bs →
  ∃ w', decompress_loop fuel z offset raw (ztake offset data) w = (w', Ok data).
Proof.
  intros Hz Hm. pose proof (opts_bs o Hopt) as Hbs. pose proof (zlen_nonneg data).
  induction fuel as [|fuel IH]; intros w offset raw Hw Hoff Hf Hraw; cbn [decompress_loop];
    rewrite (rz_size _ _ _ _ _ _ _ Hz), ?(rz_opt _ _ _ _ _ _ _ Hz);
    destruct (Z.leb_spec (zlen data) offset); try lia.
  1, 2: exists w; rewrite ztake_all by lia; done.
  set (n := Z.min bs (zlen data - offset)).
  assert (zlen (ztake n raw) = n) as Hn by (rewrite zlen_ztake; lia).
  destruct (cached_pread o ow encs data c Hopt Hgc Henc Hcov Hcount Hlen z w (ztake n raw) offset Hz Hw)
    as (w1 & E1 & Hw1); [lia|].
  rewrite Hn in E1. replace (Z.max 0 (Z.min n (zlen data - offset))) with n in E1 by (unfold n; lia).
  rewrite (ebind_ok _ _ _ _ _ E1). cbv beta iota. unfold delivers. rewrite Hm.
  assert (zlen (slice offset n data) = n) as Hs by (apply zlen_slice; lia).
  rewrite (ztake_splice_front _ _ n) by lia.
  unfold ebind, elift, ensure. rewrite Z.eqb_refl, write_all_at_ok by (unfold U64_MAX; lia).
  assert (file_write (ztake offset data) offset (slice offset n data) = ztake (offset + n) data) as ->.
  { assert (zlen (ztake offset data) = offset) as Ht by (rewrite zlen_ztake; lia). rewrite <- Ht at 2.
    rewrite file_write_end. change (ztake offset data) with (slice 0 offset data). rewrite slice_slice_app by lia.
    done. }
  apply IH; [done|lia|lia|]. rewrite zlen_splice; rewrite ?zlen_splice; lia.
Qed.

Lemma validation_loop_ok z fuel : reader_of z o c g (data_start o) encs data → ro_valid_mode z = CrcOnly →
  ∀ w offset raw, detected w → 0 ≤ offset ≤ zlen data → (Z.to_nat (zlen data - offset) ≤ fuel)%nat → zlen raw = bs →
  ∃ w', validation_loop fuel z offset raw w = (w', Ok tt).
Proof.
  intros Hz Hm. pose proof (opts_bs o Hopt) as Hbs. pose proof (zlen_nonneg data).
  induction fuel as [|fuel IH]; intros w offset raw Hw Hoff Hf Hraw; cbn [validation_loop];
    rewrite (rz_size _ _ _ _ _ _ _ Hz), ?(rz_opt _ _ _ _ _ _ _ Hz);
    destruct (Z.leb_spec (zlen data) offset); try lia.
  1, 2: by exists w.
  set (n := Z.min bs (zlen data - offset)).
  assert (zlen (ztake n raw) = n) as Hn by (rewrite zlen_ztake; lia).
  destruct (cached_pread o ow encs data c Hopt Hgc Henc Hcov Hcount Hlen z w (ztake n raw) offset Hz Hw)
    as (w1 & E1 & Hw1); [lia|].
  rewrite Hn in E1. replace (Z.max 0 (Z.min n (zlen data - offset))) with n in E1 by (unfold n; lia).
  rewrite (ebind_ok _ _ _ _ _ E1). cbv beta iota. unfold delivers. rewrite Hm.
  unfold ebind, elift, ensure. rewrite Z.eqb_refl.
  apply IH; [done|lia|lia|]. rewrite zlen_splice; lia.
Qed.

Lemma crc_only_reader z : reader_of z o c g (data_start o) encs data →
  reader_of (set_crc_check_only z) o c g (data_start o) encs data.
Proof. by intros []; constructor. Qed.
End Whole.

(** [zfile_compress] followed by [zfile_decompress] is the identity, and a
    compressed file with checksums passes [zfile_validation_check] and is
    recognised by [is_zfile]. *)
Theorem compress_decompress {W : Type}
    `{CachedFileSpec W, CodecSpec, Crc32cSpec, FileWriterSpec, FileReaderSpec, CompletionSpec} args src :
  good_options (ca_opt args) → 0 < zlen src < 2 ^ 61 →
  ∃ f, zfile_compress src args [] = (f, Ok tt)
    ∧ ∀ w : W, cf_cached w = f → cf_origin w = f →
        (∃ w', zfile_decompress [] w = (w', Ok src))
        ∧ (co_verify (ca_opt args) ≠ 0 → ∃ w', zfile_validation_check w = (w', Ok tt))
        ∧ (∃ w', is_zfile w = (w', Ok 1)).
Proof.
  intros Ho Hl. destruct (create_compressor_good _ Ho) as (c & Hcc & Hgc).
  destruct (compress_blocks_of_data args c src Ho Hgc ltac:(lia)) as (Henc & Hcov & Hcnt).
  eexists. split; [by apply zfile_compress_image; try lia|]. intros w Hc Hor.
  destruct (image_opens _ _ _ _ c Ho Hcc Hgc Henc Hcov Hcnt Hl w true Hc) as (w1 & z & E1 & [Hs1 Hs2] & Hm & Hz).
  assert (cache_detected (ca_opt args) (ca_overwrite_header args) (compress_blocks_of args c src) src w1) as Hd1
    by (apply (clean_detected _ _ _ _ c); try done; congruence).
  pose proof (good_bs args Ho) as Hbs. split_and!.
  - unfold zfile_decompress. rewrite (ebind_ok _ _ _ _ _ E1), (rz_size _ _ _ _ _ _ _ Hz), (rz_opt _ _ _ _ _ _ _ Hz).
    eapply (decompress_loop_ok _ (ca_overwrite_header args)) with (offset := 0); try done; try lia.
    rewrite zlen_zeros. lia.
  - intros Hver. unfold zfile_validation_check. rewrite (ebind_ok _ _ _ _ _ E1), (rz_opt _ _ _ _ _ _ _ Hz).
    rewrite (ebind_ok _ _ _ w1 tt) by (unfold elift, ensure; by rewrite (proj2 (Z.eqb_neq _ _) Hver)).
    apply crc_only_reader in Hz. rewrite (rz_size _ _ _ _ _ _ _ Hz), (rz_opt _ _ _ _ _ _ _ Hz).
    eapply (validation_loop_ok _ (ca_overwrite_header args)); try done; try lia.
    rewrite zlen_zeros. lia.
  - pose proof (image_small _ _ _ c Ho Hgc Henc Hcnt) as Hsm. pose proof Ho as (_ & [HB HBu] & Hwf).
    destruct (image_length _ (ca_overwrite_header args) _ _ c Ho Hgc Henc Hcnt Hl) as [Hzl Hzu].
    pose proof (image_bounds _ _ Hwf HB Hsm). pose proof (zlen_nonneg (compress_blocks_of args c src)).
    unfold is_zfile. destruct (read_exact_at_ok w 0 HEADER_TRAILER_SPACE) as (w2 & E2 & _);
      [lia|rewrite Hc, Hzl; unfold HEADER_TRAILER_SPACE; lia|by rewrite Hc|].
    rewrite (ebind_ok _ _ _ _ _ E2), Hc. unfold HEADER_TRAILER_SPACE. rewrite image_header by (done || lia).
    unfold is_zfile_header. rewrite header_roundtrip by (apply wf_final_header; done || lia). cbn [rbind].
    pose proof (header_checks (ca_opt args) (ca_overwrite_header args) (compress_blocks_of args c src) (zlen src)) as Hchk.
    apply andb_prop in Hchk as [-> ->]. cbn [negb orb]. rewrite final_valid. by exists w2.
Qed.

(** ** Concrete instances *)

(** Codecs that store the block as it is. *)
#[local] Instance stored_codec : Codec := {|
  LZ4_compressBound n := n + n / 255 + 16;
  LZ4_compress_default src cap := if zlen src <=? cap then Some src else None;
  LZ4_decompress_safe src cap := if zlen src <=? cap then Some src else None;
  zstd_compress_to_buffer _ src cap := if zlen src <=? cap then Some src else None;
  zstd_decompress_to_buffer src cap := if zlen src <=? cap then Some src else None
|}.

#[local] Instance stored_codec_spec : CodecSpec.
Proof.
  split; unfold LZ4_compressBound, LZ4_compress_default, LZ4_decompress_safe, zstd_compress_to_buffer,
    zstd_decompress_to_buffer, stored_codec.
  - done.
  - intros src cap Hs Hc. exists src. pose proof (Z.div_pos (zlen src) 255).
    destruct (Z.leb_spec (zlen src) cap); [|lia]. split_and!; [done|lia|lia|].
    intros cap' Hc'. destruct (Z.leb_spec (zlen src) cap'); [done|lia].
  - intros src cap out. destruct (Z.leb_spec (zlen src) cap); [intros [= <-]; lia|done].
  - intros level src cap Hs Hc. exists src.
    assert (zlen src ≤ zstd_compress_bound (zlen src)) as Hb.
    { unfold zstd_compress_bound. change (Z.shiftl 128 10) with 131072.
      rewrite !Z.shiftr_div_pow2 by lia. change (2 ^ 8) with 256. change (2 ^ 11) with 2048. bcases; dlia. }
    destruct (Z.leb_spec (zlen src) cap); [|lia]. split_and!; [done|lia|lia|].
    intros cap' Hc'. destruct (Z.leb_spec (zlen src) cap'); [done|lia].
  - intros src cap out. destruct (Z.leb_spec (zlen src) cap); [intros [= <-]; lia|done].
Qed.

(** CRC-32C bit by bit. *)
Fixpoint crc_bits (n : nat) (crc : Z) : Z :=
  match n with
  | O => crc
  | S n' => crc_bits n' (if Z.odd crc then Z.lxor (Z.shiftr crc 1) 0x82F63B78 else Z.shiftr crc 1)
  end.

#[local] Instance crc32c_table_free : Crc32c := λ seed data,
  wrap32 (not32 (fold_left (λ crc b, crc_bits 8 (Z.lxor crc b)) data (not32 seed))).

#[local] Instance crc32c_table_free_spec : Crc32cSpec.
Proof. intros seed data. apply wrap32_range. Qed.

(** The check value of CRC-32C. *)
Example crc32c_check : crc32c_append 0 [49; 50; 51; 52; 53; 54; 55; 56; 57] = 0xE3069283.
Proof. vm_compute. reflexivity. Qed.

(** A destination that takes at most 100 bytes at once, and one that takes
    everything. *)
Definition short_writer : FileWriter := λ _ _ data, Z.min 100 (zlen data).
Definition full_writer : FileWriter := λ _ _ data, zlen data.

Lemma short_writer_spec : @FileWriterSpec short_writer.
Proof. intros f off data Hd. pose proof (zlen_pos data Hd). unfold fw_count, short_writer. lia. Qed.
Lemma full_writer_spec : @FileWriterSpec full_writer.
Proof. intros f off data Hd. pose proof (zlen_pos data Hd). unfold fw_count, full_writer. lia. Qed.

(** Workers that finish in order, and in the opposite order. *)
Definition in_order : Completion := λ _ _ l, l.
Definition last_first : Completion := λ _ _ l, reverse l.

Lemma in_order_spec : @CompletionSpec in_order.
Proof. by intros A k l. Qed.
Lemma last_first_spec : @CompletionSpec last_first.
Proof. intros A k l. apply reverse_Permutation. Qed.

#[local] Existing Instances short_writer short_writer_spec last_first last_first_spec.

(** Two blocks of 4 KiB with checksums, the second one partial. *)
Definition demo_args : CompressArgs := {|
  ca_opt := CompressOptions_new LZ4 4096 1; ca_overwrite_header := false; ca_workers := 4
|}.

Lemma demo_options : good_options (ca_opt demo_args).
Proof. split; [by left|]. split; [done|]. by constructor. Qed.

Definition demo_ops : list builder_op := [BWrite [1; 2; 3]; BWriteOwned (zeros 4096) 4093; BWrite [7; 8; 9]].

Lemma demo_ops_valid : Forall op_valid demo_ops.
Proof. by repeat constructor. Qed.

Lemma demo_size : 0 < zlen (ops_data demo_ops) < 2 ^ 61.
Proof. split; vm_compute; reflexivity. Qed.

Definition demo_reqs : list (list Z * Z) := [([0; 0; 0; 0], 1); (zeros 10, 4097); ([0], 5000)].

Lemma demo_reqs_valid : valid_requests demo_reqs.
Proof. by repeat constructor. Qed.

(** The file, and the reader of it. *)
Definition demo_file : list Z := match zfile_build demo_args true demo_ops with Ok f => f | Err _ => [] end.
Definition demo_reader : ZFileRO :=
  match (zfile_open_ro true demo_file).2 with
  | Ok z => z
  | Err _ => {| ro_ht := ZHeader_new; ro_table := {| group_size := 0; partial_offset := []; deltas := [] |};
                ro_compressor := {| cp_kind := Lz4Compressor; cp_max_dst_size := 0; cp_src_block_size := 0 |};
                ro_valid_mode := Normal; ro_data_verify := false |}
  end.

Lemma demo_built : zfile_build demo_args true demo_ops = Ok demo_file.
Proof. vm_compute. reflexivity. Qed.
Lemma demo_opened : zfile_open_ro true demo_file = (demo_file, Ok demo_reader).
Proof. vm_compute. reflexivity. Qed.

Lemma zfile_roundtrip_witness :
  ∃ f, zfile_build demo_args true demo_ops = Ok f
    ∧ ∀ w : list Z, cf_cached w = f → cf_origin w = f →
        ∃ w1 z w2, zfile_open_ro true w = (w1, Ok z) ∧ original_size z = zlen (ops_data demo_ops)
          ∧ pread_all z demo_reqs w1 = (w2, Ok (read_spec (ops_data demo_ops) <$> demo_reqs)).
Proof.
  exact (zfile_roundtrip demo_args true demo_ops true demo_reqs demo_options demo_ops_valid demo_size demo_reqs_valid).
Defined.

(** The same data in one write, for one worker. *)
Definition plain_args : CompressArgs := {|
  ca_opt := CompressOptions_new LZ4 4096 1; ca_overwrite_header := false; ca_workers := 1
|}.
Definition plain_ops : list builder_op := [BWrite (ops_data demo_ops)].

Lemma plain_ops_valid : Forall op_valid plain_ops.
Proof. by repeat constructor. Qed.
Lemma plain_ops_data : ops_data demo_ops = ops_data plain_ops.
Proof. vm_compute. reflexivity. Qed.

Lemma zfile_bytes_independent_witness :
  ∃ f, @zfile_build _ _ short_writer last_first demo_args true demo_ops = Ok f
    ∧ @zfile_build _ _ full_writer in_order plain_args false plain_ops = Ok f.
Proof.
  exact (zfile_bytes_independent short_writer full_writer short_writer_spec full_writer_spec
    last_first in_order last_first_spec in_order_spec demo_args plain_args true false demo_ops plain_ops
    eq_refl eq_refl demo_options demo_ops_valid plain_ops_valid plain_ops_data (proj2 demo_size)).
Defined.

(** One byte of the first block is wrong in the cache. *)
Definition clean_cache : Cache := {| cache_origin := demo_file; cache_bytes := demo_file |}.
Definition damaged_bytes : list Z := splice demo_file 600 [99].
Definition damaged_cache : Cache := {| cache_origin := demo_file; cache_bytes := damaged_bytes |}.

Lemma clean_cache_opened : zfile_open_ro true clean_cache = (clean_cache, Ok demo_reader).
Proof. vm_compute. reflexivity. Qed.

Lemma demo_reader_facts : original_size demo_reader = 4099 ∧ co_block_size (ro_options demo_reader) = 4096
  ∧ offset_at (ro_table demo_reader) 0 = Ok 512 ∧ offset_at (ro_table demo_reader) 1 = Ok 4612
  ∧ offset_at (ro_table demo_reader) 2 = Ok 4619.
Proof. vm_compute. repeat split; reflexivity. Qed.

Lemma two_extents z off len :
  original_size z = 4099 ∧ co_block_size (ro_options z) = 4096 ∧ offset_at (ro_table z) 0 = Ok 512
  ∧ offset_at (ro_table z) 1 = Ok 4612 ∧ offset_at (ro_table z) 2 = Ok 4619 →
  extent_of z off len → off = 512 ∧ len = 4100 ∨ off = 4612 ∧ len = 7.
Proof.
  intros (Hs & Hb & H0 & H1 & H2) (p & Hp & E). rewrite Hs in Hp.
  unfold compressed_block_extent in E. rewrite Hb in E. cbn [negb Z.eqb ensure rbind] in E.
  destruct (decide (p < 4096)).
  - rewrite (Z.div_small p 4096), H0 in E by lia. change (0 + 1) with 1 in E. rewrite H1 in E.
    injection E as <- <-. left. split; reflexivity.
  - replace (p / 4096) with 1 in E by (apply (Z.div_unique p 4096 1 (p - 4096)); lia).
    rewrite H1 in E. change (1 + 1) with 2 in E. rewrite H2 in E.
    injection E as <- <-. right. split; reflexivity.
Qed.

Lemma demo_extents off len : extent_of demo_reader off len → off = 512 ∧ len = 4100 ∨ off = 4612 ∧ len = 7.
Proof. exact (two_extents demo_reader off len demo_reader_facts). Qed.

Lemma first_block_rejected : crc_matches (slice 512 4100 damaged_bytes) (4100 - 4) = false.
Proof. vm_compute. reflexivity. Qed.
Lemma second_block_intact : slice 4612 7 damaged_bytes = slice 4612 7 demo_file.
Proof. vm_compute. reflexivity. Qed.
Lemma damaged_length : zlen damaged_bytes = zlen demo_file.
Proof. vm_compute. reflexivity. Qed.

Lemma damage_detected off len : extent_of demo_reader off len →
  intact_or_detected demo_file (slice off len damaged_bytes) off len.
Proof.
  intros [[-> ->]|[-> ->]]%demo_extents.
  - right. exact first_block_rejected.
  - left. exact second_block_intact.
Qed.

(** The same facts about the cache itself. *)
Lemma clean_cached : cf_cached clean_cache = demo_file.
Proof. unfold cf_cached, cache_cached, clean_cache. cbn [cache_bytes]. reflexivity. Qed.
Lemma damaged_cached : cf_cached damaged_cache = damaged_bytes.
Proof. unfold cf_cached, cache_cached, damaged_cache. cbn [cache_bytes]. reflexivity. Qed.
Lemma damaged_origin : cf_origin damaged_cache = demo_file.
Proof. unfold cf_origin, cache_cached, damaged_cache. cbn [cache_origin]. reflexivity. Qed.
Lemma damaged_cache_length : zlen (cf_cached damaged_cache) = zlen demo_file.
Proof. rewrite damaged_cached. exact damaged_length. Qed.
Lemma damaged_cache_detected off len : extent_of demo_reader off len →
  intact_or_detected demo_file (slice off len (cf_cached damaged_cache)) off len.
Proof. rewrite damaged_cached. exact (damage_detected off len). Qed.

Lemma demo_verify : co_verify (ca_opt demo_args) ≠ 0.
Proof. done. Qed.

Lemma damaged_cache_is_repaired_witness :
  ∃ w', pread_all demo_reader demo_reqs damaged_cache = (w', Ok (read_spec (ops_data demo_ops) <$> demo_reqs)).
Proof.
  exact (damaged_cache_is_repaired demo_args true demo_ops true demo_reqs demo_file clean_cache clean_cache
    damaged_cache demo_reader demo_options demo_verify demo_ops_valid demo_size demo_reqs_valid demo_built clean_cached
    clean_cache_opened damaged_origin damaged_cache_length damaged_cache_detected).
Defined.

(** A file that always returns the damaged bytes and cannot be repaired. *)
Definition broken_backing : BackingFile unit := {|
  bf_read off len w := if off + len <=? zlen damaged_bytes then (w, Ok (slice off len damaged_bytes)) else (w, Err IoFailed);
  bf_evict_range _ _ w := (w, Ok tt);
  bf_evict_all w := (w, Ok tt);
  bf_size w := (w, Ok (zlen damaged_bytes))
|}.

Lemma broken_reads (v v' : unit) off len bytes : 0 ≤ off → 0 ≤ len →
  @read_exact_at unit broken_backing off len v = (v', Ok bytes) →
  bytes = slice off len damaged_bytes ∧ zlen bytes = len.
Proof.
  intros Ho Hl. unfold read_exact_at. destruct (Z.to_nat len) as [|n] eqn:En; cbn [zread_exact_loop].
  - assert (len = 0) as -> by lia. intros [= _ <-]. done.
  - destruct (Z.leb_spec len 0); [lia|]. unfold ebind at 1, bf_read, broken_backing at 1.
    destruct (Z.leb_spec (off + len) (zlen damaged_bytes)); [|done].
    rewrite zlen_slice by lia. destruct (Z.eqb_spec len 0); [lia|]. unfold ebind, elift, checked_add_or.
    destruct (checked_add64 off len); [|done]. rewrite Z.sub_diag.
    assert (∀ m (o : Z) acc, @zread_exact_loop unit broken_backing m o 0 acc v = (v, Ok acc)) as Hend by (intros [|]; done).
    rewrite Hend. cbn [app]. intros [= _ <-]. split; [done|]. apply zlen_slice; lia.
Qed.

Lemma broken_bytes (v v' : unit) off len bytes : 0 ≤ off → 0 ≤ len →
  @read_exact_at unit broken_backing off len v = (v', Ok bytes) → zlen bytes = len
  ∧ ∀ o l, extent_of demo_reader o l → off ≤ o → o + l ≤ off + len →
      intact_or_detected demo_file (slice (o - off) l bytes) o l.
Proof.
  intros Ho Hl E. apply broken_reads in E as [-> Hz]; [|done|done]. split; [done|]. intros o l He H1 H2.
  rewrite slice_slice by lia. replace (off + (o - off)) with o by lia. by apply damage_detected.
Qed.

(** The intact block is still readable. *)
Lemma broken_read : @pread unit broken_backing _ _ demo_reader [0; 0; 0; 0] 4097 tt = (tt, Ok (2, [8; 9; 0; 0])).
Proof. vm_compute. reflexivity. Qed.

Lemma damage_is_never_returned_witness : (2, [8; 9; 0; 0]) = read_spec (ops_data demo_ops) ([0; 0; 0; 0], 4097).
Proof.
  exact (@damage_is_never_returned Cache unit _ _ _ broken_backing _ _ _ _ _ _ _ _ demo_args true demo_ops true demo_file
    clean_cache clean_cache demo_reader tt tt [0; 0; 0; 0] 4097 (2, [8; 9; 0; 0]) demo_options demo_verify
    demo_ops_valid demo_size demo_built clean_cached clean_cache_opened broken_bytes ltac:(done) broken_read).
Defined.

Lemma compress_decompress_witness :
  ∃ f, zfile_compress [1; 2; 3; 4; 5] demo_args [] = (f, Ok tt)
    ∧ ∀ w : list Z, cf_cached w = f → cf_origin w = f →
        (∃ w', zfile_decompress [] w = (w', Ok [1; 2; 3; 4; 5]))
        ∧ (co_verify (ca_opt demo_args) ≠ 0 → ∃ w', zfile_validation_check w = (w', Ok tt))
        ∧ (∃ w', is_zfile w = (w', Ok 1)).
Proof. exact (compress_decompress (W := list Z) demo_args [1; 2; 3; 4; 5] demo_options ltac:(done)). Defined.

(** ** Limits of the format *)

(** A decoder that reports an error ends the read: the block is neither evicted
    nor read again. *)
Lemma decompress_error_is_final {W : Type} `{BackingFile W, Codec, Crc32c}
    retry z block_begin encoded_len compressed_size cp_begin cp_len written block b e (w : W) :
  ro_valid_mode z = Normal → ro_data_verify z = false ∨ crc_matches block compressed_size = true →
  decode_once z block compressed_size cp_begin cp_len written b = Err e →
  read_block retry z block_begin encoded_len compressed_size cp_begin cp_len written block b w = (w, Err e).
Proof.
  intros Hm Hc Hd. destruct retry; cbn [read_block];
    (replace (ro_data_verify z && negb (crc_matches block compressed_size)) with false
       by (destruct Hc as [-> | ->]; [done|by rewrite andb_false_r]));
    rewrite Hm; unfold ebind, elift; by rewrite Hd.
Qed.

(** A file without data is built, but does not open. *)
Lemma empty_zfile_rejected : ∃ f, zfile_build demo_args true [] = Ok f ∧ (zfile_open_ro false f).2 = Err EmptyIndex.
Proof.
  exists (match zfile_build demo_args true [] with Ok f => f | Err _ => [] end). split; vm_compute; reflexivity.
Qed.

(** The builder takes any block size up to 64 KiB, the jump table does not: 255
    blocks of 256 bytes that do not shrink, with their checksums, exceed the
    offsets a group can express. *)
Lemma tiny_blocks_rejected :
  JumpTable_build (replicate 255 260) HEADER_TRAILER_SPACE 256 true = Err JumpTableDelta
  ∧ is_ok (ZFileBuilder_new [] true {| ca_opt := CompressOptions_new LZ4 256 1; ca_overwrite_header := false;
                                       ca_workers := 1 |}).2 = true.
Proof. split; vm_compute; reflexivity. Qed.
