(* ===== verification/ZCompact.v ===== *)
(** * Compacting into a compressed file

    [ZFileCompactWriter] of [storage/overlaybd/src/compression/zfile.rs] as the
    destination of the compaction of [storage/overlaybd/src/lsmt]: the writer
    keeps the contract of [CompactWriter], so that everything proved of
    compaction, commit and merge holds of it, and the compressed file reads
    back as the sealed layer that was compacted into it. *)

From S2P Require Import Prelude LsmtSegment LsmtFormat LsmtIndex LsmtLookup LsmtIo LsmtHelper.
From S2P Require Import LsmtFile LsmtRead LsmtLog LsmtWrite LsmtDisk LsmtOpen LsmtStack LsmtSeal.
From S2P Require Import LsmtCompact LsmtCommit LsmtExport.
From S2P Require Import ZFormat ZBuild ZImage ZRead ZPread ZOpen ZFile.

Open Scope result_scope.

(** ** The writer as a [CompactWriter] *)
Section Writer.
Context `{Codec, Crc32c, FileWriter, Completion}.

(** The state after an operation that succeeded. *)
Definition writer_result (r : ZFileCompactWriter * result zfile_error unit) : result lsmt_error ZFileCompactWriter :=
  match r with (w, Ok _) => Ok w | (_, Err _) => Err WriterError end.

#[export] Instance ZFileCompactWriter_writer : CompactWriter ZFileCompactWriter := {|
  cw_alloc_buffer _ := zeros ZFILE_COMPACT_WRITER_BUFFER_SIZE;
  cw_buffer_size _ := ZFILE_COMPACT_WRITER_BUFFER_SIZE;
  cw_requires_ordered_writes _ := true;
  cw_write w buf off len := writer_result (zw_write buf off len w);
  cw_write_all_at w data off := writer_result (zw_write_all_at data off w);
  cw_finalize w := writer_result (zw_finalize w)
|}.
End Writer.

(** ** The contract *)
Section Contract.
Context `{CodecSpec, Crc32cSpec, FileWriterSpec, CompletionSpec}.

(** Options a compressor exists for. *)
Definition usable (args : CompressArgs) (c : Compressor) : Prop :=
  good_options (ca_opt args) ∧ create_compressor (ca_opt args) = Ok c ∧ good_compressor c (ca_opt args).

(** The writer was given [data], and takes more. *)
Record zw_holds (w : ZFileCompactWriter) (data : list Z) : Prop := {
  zwh_given : ∃ args c, usable args c ∧ zb_given args c data (zw_builder w);
  zwh_next : zw_next_offset w = zlen data;
  zwh_open : zw_finalized w = false;
  zwh_sound : zw_failed w = false
}.

(** The destination is the finished zfile of [data]. *)
Definition zw_done (w : ZFileCompactWriter) (data : list Z) : Prop :=
  zlen data < 2 ^ 61 ∧ ∃ args c, usable args c
  ∧ zb_dest (zw_builder w)
    = zfile_image (ca_opt args) (ca_overwrite_header args) (builder_blocks args c data) (zlen data).

(** The guards let an append pass. *)
Lemma zw_guarded_ok w data new op len : zw_holds w data → len = zlen new → zlen data + len < 2 ^ 61 →
  (∀ args c b, usable args c → zb_given args c data b →
     ∃ b', op b = (b', Ok len) ∧ zb_given args c (data ++ new) b') →
  ∃ w', zw_guarded op (zlen data) len w = (w', Ok tt) ∧ zw_holds w' (data ++ new).
Proof.
  intros [(args & c & Hu & Hb) Hn Ho Hf] -> Hz Hop. destruct (Hop args c _ Hu Hb) as (b' & E & Hb').
  pose proof (zlen_nonneg data). pose proof (zlen_nonneg new).
  unfold zw_guarded. rewrite Ho, Hf, Hn, Z.eqb_refl. unfold ebind, elift, ensure, checked_add_or, checked_add64.
  cbn [negb]. destruct (Z.leb_spec (zlen data + zlen new) U64_MAX); [|unfold U64_MAX in *; lia].
  rewrite E, Z.eqb_refl. cbn [negb]. eexists. split; [done|].
  constructor; [by eauto| |done|done]. cbn [zw_with zw_next_offset]. by rewrite zlen_app.
Qed.

Lemma write_slice_ok w data new : zw_holds w data → zlen data + zlen new < 2 ^ 61 →
  ∃ w', write_slice_at new (zlen data) w = (w', Ok tt) ∧ zw_holds w' (data ++ new).
Proof.
  intros Hw Hz. apply zw_guarded_ok; try done. intros args c b (Hg & Hcc & Hgc) Hb.
  apply (zb_write_ok args c Hg Hcc Hgc); [done|]. by rewrite zlen_app.
Qed.

Lemma zw_write_ok w data buf len : zw_holds w data → 0 ≤ len ≤ zlen buf → zlen data + len < 2 ^ 61 →
  ∃ w', zw_write buf (zlen data) len w = (w', Ok tt) ∧ zw_holds w' (data ++ ztake len buf).
Proof.
  intros Hw Hl Hz. apply zw_guarded_ok; [done|rewrite zlen_ztake; lia|done|]. intros args c b (Hg & Hcc & Hgc) Hb.
  by apply (zb_write_owned_ok args c Hg Hcc Hgc).
Qed.

Lemma first_chunk N (new : list Z) fuel : 0 < N → new ≠ [] → (length new ≤ S fuel)%nat →
  (length (zdrop N new) ≤ fuel)%nat ∧ 0 < zlen (ztake N new) ∧ zlen (ztake N new) ≤ zlen new
  ∧ zlen (ztake N new) + zlen (zdrop N new) = zlen new.
Proof.
  intros HN Hne Hf. pose proof (zlen_pos new Hne). assert (zlen (zdrop N new) < zlen new) by (rewrite zlen_zdrop; lia).
  split_and!; [unfold zlen in *; lia|rewrite zlen_ztake; lia|rewrite zlen_ztake; lia|]. by rewrite <- zlen_app, ztake_zdrop.
Qed.

Lemma write_chunks_step fuel new off : new ≠ [] →
  let chunk := ztake ZFILE_COMPACT_WRITER_BUFFER_SIZE new in
  write_chunks (S fuel) new off
  = (let! _ := write_slice_at chunk off in
     let! off' := elift (checked_add_or SizeOverflow off (zlen chunk)) in
     write_chunks fuel (zdrop ZFILE_COMPACT_WRITER_BUFFER_SIZE new) off').
Proof. intros Hne. by destruct new. Qed.

Lemma write_chunks_ok fuel : ∀ w data new, (length new ≤ fuel)%nat → zw_holds w data → zlen data + zlen new < 2 ^ 61 →
  ∃ w', write_chunks fuel new (zlen data) w = (w', Ok tt) ∧ zw_holds w' (data ++ new).
Proof.
  induction fuel as [|fuel IH]; intros w data new Hf Hw Hz; (destruct (decide (new = [])) as [->|Hne];
    [exists w; rewrite app_nil_r; by split|]); [by destruct new; [|simpl in Hf; lia]|].
  rewrite write_chunks_step by done. cbv zeta.
  destruct (first_chunk ZFILE_COMPACT_WRITER_BUFFER_SIZE new fuel ltac:(done) Hne Hf) as (Hf' & Hc & Hc1 & Hc2).
  pose proof (ztake_zdrop ZFILE_COMPACT_WRITER_BUFFER_SIZE new) as Esp. revert Hf' Hc Hc1 Hc2 Esp.
  generalize (ztake ZFILE_COMPACT_WRITER_BUFFER_SIZE new) as chunk, (zdrop ZFILE_COMPACT_WRITER_BUFFER_SIZE new) as rest.
  intros chunk rest Hf' Hc Hc1 Hc2 Esp. pose proof (zlen_nonneg data).
  destruct (write_slice_ok w data chunk Hw) as (w1 & E1 & Hw1); [lia|]. rewrite (ebind_ok _ _ _ _ _ E1).
  rewrite (ebind_ok _ _ _ w1 (zlen (data ++ chunk))).
  2:{ unfold elift, checked_add_or, checked_add64. rewrite zlen_app.
      destruct (Z.leb_spec (zlen data + zlen chunk) U64_MAX); [done|unfold U64_MAX in *; lia]. }
  destruct (IH w1 (data ++ chunk) rest) as (w2 & E2 & Hw2).
  - done.
  - done.
  - rewrite zlen_app. lia.
  - exists w2. split; [done|]. by rewrite <- app_assoc, Esp in Hw2.
Qed.

Lemma zw_write_all_ok w data new : zw_holds w data → zlen data + zlen new < 2 ^ 61 →
  ∃ w', zw_write_all_at new (zlen data) w = (w', Ok tt) ∧ zw_holds w' (data ++ new).
Proof.
  intros Hw Hz. unfold zw_write_all_at. destruct (is_nil new); [by apply write_slice_ok|by apply write_chunks_ok].
Qed.

Lemma zw_finalize_ok w data : zw_holds w data →
  ∃ w', zw_finalize w = (w', Ok tt) ∧ zw_done w' data ∧ zw_finalized w' = true.
Proof.
  intros [(args & c & (Hg & Hcc & Hgc) & Hb) Hn Ho Hf].
  destruct (zb_finish_ok args c Hg Hgc data _ Hb) as (b' & E & _ & Hd).
  unfold zw_finalize, ebind, elift, ensure. rewrite Ho, Hf. cbn [negb]. rewrite E. eexists. split; [done|].
  split; [|done]. split; [by apply Hb|]. by exists args, c.
Qed.

Lemma zw_new_ok args local : good_options (ca_opt args) →
  ∃ f w, ZFileCompactWriter_new [] local args = (f, Ok w) ∧ zw_holds w [].
Proof.
  intros Hg. destruct (create_compressor_good _ Hg) as (c & Hcc & Hgc).
  destruct (ZFileBuilder_new_ok args c Hg Hcc Hgc local) as (f & b & E & Hb).
  unfold ZFileCompactWriter_new. rewrite E. cbn [rbind]. eexists _, _. split; [done|].
  constructor; try done. by exists args, c.
Qed.

#[export] Program Instance ZFileCompactWriter_spec : CompactWriterSpec ZFileCompactWriter := {|
  cw_holds := zw_holds;
  cw_done := zw_done
|}.
Next Obligation. intros w _. simpl. rewrite zlen_zeros. unfold ZFILE_COMPACT_WRITER_BUFFER_SIZE. lia. Qed.
Next Obligation.
  intros w F buf off len Hw (Ho & Hz & Hord) Hl _. simpl in *. rewrite (Hord eq_refl) in *.
  destruct (zw_write_ok w F buf len Hw Hl) as (w' & E & Hw'); [lia|]. exists w'. rewrite E, file_write_end. done.
Qed.
Next Obligation.
  intros w F data off Hw (Ho & Hz & Hord) _. simpl in *. rewrite (Hord eq_refl) in *.
  destruct (zw_write_all_ok w F data Hw) as (w' & E & Hw'); [lia|]. exists w'. rewrite E, file_write_end. done.
Qed.
Next Obligation.
  intros w F Hw. simpl. destruct (zw_finalize_ok w F Hw) as (w' & E & Hd & _). exists w'. by rewrite E.
Qed.
End Contract.

(** ** Histories of a writer *)

(** The calls a client can make. *)
Inductive writer_call : Type :=
| CallWriteAll (data : list Z) (offset : Z)
| CallWrite (buf : list Z) (offset len : Z)
| CallFinalize.

Section Calls.
Context `{Codec, Crc32c, FileWriter, Completion}.

Definition zw_call (call : writer_call) : eff ZFileCompactWriter zfile_error unit :=
  match call with
  | CallWriteAll data offset => zw_write_all_at data offset
  | CallWrite buf offset len => zw_write buf offset len
  | CallFinalize => zw_finalize
  end.

(** Calls one after the other, whether or not the earlier ones succeeded. *)
Fixpoint zw_calls (calls : list writer_call) (w : ZFileCompactWriter) : ZFileCompactWriter * list bool :=
  match calls with
  | [] => (w, [])
  | call :: calls' =>
      let '(w1, r) := zw_call call w in
      let '(w2, rs) := zw_calls calls' w1 in
      (w2, is_ok r :: rs)
  end.
End Calls.

#[export] Instance writer_call_eq_dec : EqDecision writer_call.
Proof. solve_decision. Defined.

(** What a client sees: a file that grows at its end, until it is finalized or
    a call hands over more bytes than its buffer holds. *)
Inductive writer_state : Type :=
| Growing (data : list Z)
| Finalized (data : list Z)
| Broken.

Definition append_call (data : list Z) (offset len avail : Z) (new : list Z) : writer_state * bool :=
  if negb (offset =? zlen data) then (Growing data, false)
  else if avail <? len then (Broken, false)
  else (Growing (data ++ new), true).

Definition spec_call (s : writer_state) (call : writer_call) : writer_state * bool :=
  match s, call with
  | Growing data, CallWriteAll new offset => append_call data offset (zlen new) (zlen new) new
  | Growing data, CallWrite buf offset len => append_call data offset len (zlen buf) (ztake len buf)
  | Growing data, CallFinalize => (Finalized data, true)
  | Finalized _, CallFinalize => (s, true)
  | _, _ => (s, false)
  end.

Fixpoint spec_calls (s : writer_state) (calls : list writer_call) : writer_state * list bool :=
  match calls with
  | [] => (s, [])
  | call :: calls' =>
      let '(s1, r) := spec_call s call in
      let '(s2, rs) := spec_calls s1 calls' in
      (s2, r :: rs)
  end.

(** Lengths are unsigned. *)
Definition call_len (call : writer_call) : Z :=
  match call with CallWriteAll data _ => zlen data | CallWrite _ _ len => len | CallFinalize => 0 end.
Definition calls_len (calls : list writer_call) : Z := foldr (λ c n, call_len c + n) 0 calls.
Definition call_valid (call : writer_call) : Prop := 0 ≤ call_len call.

Lemma calls_len_nonneg calls : Forall call_valid calls → 0 ≤ calls_len calls.
Proof.
  induction 1 as [|c l Hc _ IH]; [done|]. unfold call_valid in Hc.
  change (calls_len (c :: l)) with (call_len c + calls_len l). lia.
Qed.

Section Refinement.
Context `{CodecSpec, Crc32cSpec, FileWriterSpec, CompletionSpec}.

Definition state_rel (s : writer_state) (w : ZFileCompactWriter) : Prop :=
  match s with
  | Growing data => zw_holds w data
  | Finalized data => zw_done w data ∧ zw_finalized w = true
  | Broken => zw_failed w = true ∧ zw_finalized w = false
  end.

Definition state_len (s : writer_state) : Z :=
  match s with Growing data => zlen data | _ => 0 end.

(** A call that fails a guard changes nothing. *)
Lemma zw_guarded_refused op offset len w :
  zw_finalized w || zw_failed w || negb (offset =? zw_next_offset w) = true →
  ∃ e, zw_guarded op offset len w = (w, Err e).
Proof.
  intros Hg. unfold zw_guarded, ebind, elift, ensure.
  destruct (zw_finalized w); [by eexists|]. destruct (zw_failed w); [by eexists|].
  destruct (offset =? zw_next_offset w); [done|]. by eexists.
Qed.

Lemma write_all_refused data offset w :
  zw_finalized w || zw_failed w || negb (offset =? zw_next_offset w) = true →
  ∃ e, zw_write_all_at data offset w = (w, Err e).
Proof.
  intros Hg. unfold zw_write_all_at. destruct (is_nil data) eqn:En; [by apply zw_guarded_refused|].
  destruct data as [|x l]; [done|]. cbn [length]. rewrite write_chunks_step by done. cbv zeta.
  destruct (zw_guarded_refused (zb_write (ztake ZFILE_COMPACT_WRITER_BUFFER_SIZE (x :: l))) offset
    (zlen (ztake ZFILE_COMPACT_WRITER_BUFFER_SIZE (x :: l))) w Hg) as [e E].
  exists e. unfold ebind at 1, write_slice_at. by rewrite E.
Qed.

(** A buffer that is too short breaks the writer. *)
Lemma zw_write_short w data buf len : zw_holds w data → zlen buf < len → zlen data + len < 2 ^ 61 →
  ∃ w' e, zw_write buf (zlen data) len w = (w', Err e) ∧ zw_failed w' = true ∧ zw_finalized w' = false.
Proof.
  intros [_ Hn Ho Hf] Hl Hz. pose proof (zlen_nonneg data). pose proof (zlen_nonneg buf). unfold zw_write, zw_guarded.
  rewrite Ho, Hf, Hn, Z.eqb_refl. unfold ebind, elift, ensure, checked_add_or, checked_add64. cbn [negb].
  destruct (Z.leb_spec (zlen data + len) U64_MAX); [|unfold U64_MAX in *; lia].
  unfold zb_write_owned, ebind, elift, ensure. destruct (Z.leb_spec len (zlen buf)); [lia|].
  eexists _, _. split; [done|]. by rewrite Ho.
Qed.

Lemma zw_finalize_again w : zw_finalized w = true → zw_finalize w = (w, Ok tt).
Proof. intros Hf. unfold zw_finalize. by rewrite Hf. Qed.

Lemma zw_finalize_broken w : zw_failed w = true → zw_finalized w = false → ∃ e, zw_finalize w = (w, Err e).
Proof. intros Hb Hf. unfold zw_finalize, ebind, elift, ensure. rewrite Hf, Hb. by eexists. Qed.

Lemma call_refused s call w : (∀ data, s ≠ Growing data) → call ≠ CallFinalize → state_rel s w →
  ∃ e, zw_call call w = (w, Err e).
Proof.
  intros Hs Hc Hr. assert (zw_finalized w || zw_failed w = true) as Hg.
  { destruct s as [d|d|]; [by destruct (Hs d)|by destruct Hr as [_ ->]|destruct Hr as [-> ->]; done]. }
  destruct call as [data offset|buf offset len|]; [| |done].
  - apply write_all_refused. by rewrite Hg.
  - apply zw_guarded_refused. by rewrite Hg.
Qed.

Definition call_refines (s : writer_state) (w : ZFileCompactWriter) (call : writer_call) : Prop :=
  ∃ w' r, zw_call call w = (w', r) ∧ is_ok r = (spec_call s call).2
    ∧ state_rel (spec_call s call).1 w' ∧ state_len (spec_call s call).1 ≤ state_len s + call_len call.

Lemma growing_call_ok data w call : zw_holds w data → call_valid call → zlen data + call_len call < 2 ^ 61 →
  call_refines (Growing data) w call.
Proof.
  intros Hw Hv Hz. unfold call_refines, call_valid in *.
  destruct call as [new offset|buf offset len|]; cbn [spec_call zw_call call_len state_len] in *; unfold append_call.
  - rewrite Z.ltb_irrefl. destruct (Z.eqb_spec offset (zlen data)) as [->|Hne]; cbn [negb fst snd state_rel state_len].
    + destruct (zw_write_all_ok w data new Hw Hz) as (w' & E & Hw'). exists w', (Ok tt). rewrite E, zlen_app. by split_and!.
    + destruct (write_all_refused new offset w) as [e E]; [|exists w, (Err e); rewrite E; split_and!; first [done|lia]].
      rewrite (zwh_next _ _ Hw), (proj2 (Z.eqb_neq _ _) Hne). apply orb_true_r.
  - destruct (Z.eqb_spec offset (zlen data)) as [->|Hne]; cbn [negb].
    + destruct (Z.ltb_spec (zlen buf) len); cbn [fst snd state_rel state_len].
      * destruct (zw_write_short w data buf len) as (w' & e & E & Hb); [done|lia|lia|].
        exists w', (Err e). pose proof (zlen_nonneg data). split_and!; first [done|lia|apply Hb].
      * destruct (zw_write_ok w data buf len Hw) as (w' & E & Hw'); [lia|lia|]. exists w', (Ok tt).
        rewrite E, zlen_app, zlen_ztake. split_and!; first [done|lia].
    + cbn [fst snd state_rel state_len].
      destruct (zw_guarded_refused (zb_write_owned buf len) offset len w) as [e E];
        [|exists w, (Err e); unfold zw_write; rewrite E; split_and!; first [done|lia]].
      rewrite (zwh_next _ _ Hw), (proj2 (Z.eqb_neq _ _) Hne). apply orb_true_r.
  - destruct (zw_finalize_ok w data Hw) as (w' & E & Hd). exists w', (Ok tt). pose proof (zlen_nonneg data).
    cbn [fst snd state_rel state_len]. rewrite E. split_and!; first [done|lia|apply Hd].
Qed.

Lemma call_ok s w call : state_rel s w → call_valid call → state_len s + call_len call < 2 ^ 61 →
  call_refines s w call.
Proof.
  intros Hr Hv Hz. destruct (decide (call = CallFinalize)) as [->|Hc].
  - destruct s as [data|data|]; [by apply growing_call_ok|..].
    + exists w, (Ok tt). cbn [zw_call]. by rewrite zw_finalize_again by apply Hr.
    + destruct (zw_finalize_broken w) as [e E]; [apply Hr..|]. by exists w, (Err e).
  - destruct s as [data|data|]; [by apply growing_call_ok|..].
    + destruct (call_refused (Finalized data) call w) as [e E]; [done..|]. exists w, (Err e). by destruct call.
    + destruct (call_refused Broken call w) as [e E]; [done..|]. exists w, (Err e). by destruct call.
Qed.

Lemma calls_ok calls : Forall call_valid calls → ∀ s w, state_rel s w → state_len s + calls_len calls < 2 ^ 61 →
  ∃ w', zw_calls calls w = (w', (spec_calls s calls).2) ∧ state_rel (spec_calls s calls).1 w'.
Proof.
  induction 1 as [|call calls Hc Hv IH]; intros s w Hr Hl; cbn [zw_calls spec_calls]; [by exists w|].
  change (calls_len (call :: calls)) with (call_len call + calls_len calls) in Hl.
  pose proof (calls_len_nonneg calls Hv) as Hn.
  destruct (call_ok s w call Hr Hc) as (w1 & r & E & Ho & Hr1 & Hl1); [lia|]. rewrite E, Ho.
  destruct (spec_call s call) as [s1 b]. cbn [fst snd] in *.
  destruct (IH s1 w1 Hr1) as (w2 & E2 & Hr2); [lia|]. rewrite E2. exists w2. by destruct (spec_calls s1 calls).
Qed.

(** C15: The compact writer implements an append-only file.  Whatever calls a
    client makes, in whatever order and with whatever offsets, the results are
    those of a file that only takes writes at its end: a misplaced write is
    refused without effect, a call that promises more bytes than its buffer
    has breaks the writer for good, and a finalized destination is exactly the
    zfile of the accepted bytes. *)
Theorem writer_refines_append_only args local calls : good_options (ca_opt args) →
  Forall call_valid calls → calls_len calls < 2 ^ 61 →
  ∃ f w0 w, ZFileCompactWriter_new [] local args = (f, Ok w0)
    ∧ zw_calls calls w0 = (w, (spec_calls (Growing []) calls).2)
    ∧ state_rel (spec_calls (Growing []) calls).1 w.
Proof.
  intros Hg Hv Hl. destruct (zw_new_ok args local Hg) as (f & w0 & E0 & Hw0).
  destruct (calls_ok calls Hv (Growing []) w0 Hw0) as (w & E & Hr); [exact Hl|]. by exists f, w0, w.
Qed.
End Refinement.

(** ** Compaction *)

(** C12: Compaction composes with compression.  Compacting mappings into a new
    zfile writer succeeds; the resulting file opens as a zfile, and every read
    of it returns the bytes of a sealed layer of the given size that stores
    exactly the sectors the mappings cover, with the bytes of the source
    layers. *)
Theorem compaction_into_zfile `{CodecSpec, Crc32cSpec, FileWriterSpec, CompletionSpec, UuidSpec} {V : Type}
    `{CachedFileSpec V} sched lrs ms vsize zargs local user_tag uuid parent concurrency verify reqs :
  (∀ cs, sched cs ≡ₚ cs) → wf_index ms → Forall small ms → Forall (readable lrs) ms → 0 ≤ vsize < 2 ^ 64 →
  good_options (ca_opt zargs) → valid_requests reqs →
  ∃ f w0 w F ci, ZFileCompactWriter_new [] local zargs = (f, Ok w0)
    ∧ compact_to sched lrs ms vsize (mkArgs w0 user_tag uuid parent concurrency) = Ok w
    ∧ layer_ok (mkLayer F vsize ci)
    ∧ (∀ p, 0 ≤ p → layer_byte F ci p = (λ l, loc_byte lrs (Some l) p) <$> view ms (p / ALIGNMENT))
    ∧ ∀ v : V, cf_cached v = zb_dest (zw_builder w) → cf_origin v = cf_cached v →
        ∃ v1 z v2, zfile_open_ro verify v = (v1, Ok z) ∧ original_size z = zlen F
          ∧ pread_all z reqs v1 = (v2, Ok (read_spec F <$> reqs)).
Proof.
  intros Hs Hwf Hsm Hrd Hv Hg Hrq. destruct (zw_new_ok zargs local Hg) as (f & w0 & E0 & Hw0).
  destruct (compact_to_ok sched Hs lrs ms vsize (mkArgs w0 user_tag uuid parent concurrency))
    as (w & F & ci & E & (_ & args & c & (Hg' & Hcc & Hgc) & Hd) & HF & Hl & Hby); try done.
  exists f, w0, w, F, ci. split_and!; try done. intros v Hc Ho. apply (built_reads args c); try done. congruence.
Qed.

(** ** Examples *)
#[local] Existing Instances one_uuid one_uuid_spec stored_codec stored_codec_spec crc32c_table_free
  crc32c_table_free_spec short_writer short_writer_spec last_first last_first_spec.

(** A write, a misplaced one, part of an owned buffer, the end of the file
    twice, and a write that comes too late. *)
Definition demo_calls : list writer_call :=
  [CallWriteAll [1; 2; 3] 0; CallWriteAll [4] 7; CallWrite [5; 6; 7] 3 2; CallFinalize; CallFinalize; CallWriteAll [8] 5].

Lemma demo_calls_valid : Forall call_valid demo_calls.
Proof. by repeat constructor. Qed.

Lemma demo_calls_result : spec_calls (Growing []) demo_calls
  = (Finalized [1; 2; 3; 5; 6], [true; false; true; true; true; false]).
Proof. reflexivity. Qed.

Lemma writer_refines_append_only_witness :
  ∃ f w0 w, ZFileCompactWriter_new [] true demo_args = (f, Ok w0)
    ∧ zw_calls demo_calls w0 = (w, [true; false; true; true; true; false]) ∧ zw_done w [1; 2; 3; 5; 6].
Proof.
  destruct (writer_refines_append_only demo_args true demo_calls demo_options demo_calls_valid ltac:(done))
    as (f & w0 & w & E0 & E & Hr).
  rewrite demo_calls_result in E, Hr. exists f, w0, w. split; [exact E0|]. split; [exact E|]. exact (proj1 Hr).
Defined.

Lemma compaction_into_zfile_witness :
  ∃ f w0 w F ci, ZFileCompactWriter_new [] true demo_args = (f, Ok w0)
    ∧ compact_to ex_sched [ex_source] ex_mappings 8192 (mkArgs w0 None None None 4) = Ok w
    ∧ layer_ok (mkLayer F 8192 ci)
    ∧ layer_byte F ci 10 = Some 9
    ∧ ∀ v : Cache, cf_cached v = zb_dest (zw_builder w) → cf_origin v = cf_cached v →
        ∃ v1 z v2, zfile_open_ro true v = (v1, Ok z) ∧ original_size z = zlen F
          ∧ pread_all z demo_reqs v1 = (v2, Ok (read_spec F <$> demo_reqs)).
Proof.
  destruct ex_mappings_ok as (Hw & Hs & Hr).
  destruct (compaction_into_zfile ex_sched [ex_source] ex_mappings 8192 demo_args true None None None 4 true demo_reqs)
    as (f & w0 & w & F & ci & E0 & E & Hl & Hb & Hz);
    [exact ex_sched_perm|exact Hw|exact Hs|exact Hr|lia|exact demo_options|exact demo_reqs_valid|].
  exists f, w0, w, F, ci. split; [exact E0|]. split; [exact E|]. split; [exact Hl|]. split; [|exact Hz].
  rewrite Hb by lia. vm_compute. reflexivity.
Defined.
