(* ===== verification/Text.v ===== *)
(** * Strings

    The string operations of Rust's standard library that the components use.
    A [str] is its list of UTF-8 bytes, as in Rust: lengths and positions count
    bytes, and slicing is defined at character boundaries only. *)

From stdpp Require Export strings.
From S2P Require Import Prelude.

#[global] Open Scope Z_scope.

Abbreviation str := (list Z).

(** String literals. *)
Fixpoint lit (s : String.string) : str :=
  match s with
  | String.EmptyString => []
  | String.String c s' => Z.of_N (Ascii.N_of_ascii c) :: lit s'
  end.

(** ** Characters *)

Definition ascii_lower (b : Z) : Z := if (65 <=? b) && (b <=? 90) then b + 32 else b.
Definition is_digit (b : Z) : bool := (48 <=? b) && (b <=? 57).
Definition is_lower (b : Z) : bool := (97 <=? b) && (b <=? 122).
Definition is_continuation (b : Z) : bool := (128 <=? b) && (b <=? 191).

(** ** Whole strings *)

Definition to_ascii_lowercase (s : str) : str := ascii_lower <$> s.
Definition eq_ignore_ascii_case (a b : str) : bool :=
  bool_decide (to_ascii_lowercase a = to_ascii_lowercase b).

Definition starts_with (p s : str) : bool := bool_decide (ztake (zlen p) s = p).
Definition strip_prefix (p s : str) : option str :=
  if starts_with p s then Some (zdrop (zlen p) s) else None.
Definition ends_with_char (c : Z) (s : str) : bool :=
  match last s with Some b => b =? c | None => false end.

Fixpoint trim_start_matches (c : Z) (s : str) : str :=
  match s with
  | b :: s' => if b =? c then trim_start_matches c s' else s
  | [] => []
  end.
Definition trim_end_matches (c : Z) (s : str) : str := rev (trim_start_matches c (rev s)).

(** [split(c)]: the parts between the occurrences of [c]. *)
Fixpoint split_on (c : Z) (s : str) : list str :=
  match s with
  | [] => [[]]
  | b :: s' =>
      if b =? c then [] :: split_on c s'
      else match split_on c s' with p :: ps => (b :: p) :: ps | [] => [[b]] end
  end.

(** [rsplit_once(c)] *)
Fixpoint rsplit_once (c : Z) (s : str) : option (str * str) :=
  match s with
  | [] => None
  | b :: s' =>
      match rsplit_once c s' with
      | Some (l, r) => Some (b :: l, r)
      | None => if b =? c then Some ([], s') else None
      end
  end.

(** [is_char_boundary], [get(..n)] and [get(n..)] *)
Definition is_char_boundary (s : str) (n : Z) : bool :=
  if n =? 0 then true
  else match s !! Z.to_nat n with
       | Some b => negb (is_continuation b)
       | None => n =? zlen s
       end.
Definition get_to (s : str) (n : Z) : option str :=
  if is_char_boundary s n then Some (ztake n s) else None.
Definition get_from (s : str) (n : Z) : option str :=
  if is_char_boundary s n then Some (zdrop n s) else None.

(** Decimal text of an unsigned integer; [fuel] bounds the number of digits. *)
Fixpoint dec_loop (fuel : nat) (n : Z) (acc : str) : str :=
  match fuel with
  | O => acc
  | S fuel' =>
      let acc := (48 + n mod 10) :: acc in
      if n <? 10 then acc else dec_loop fuel' (n / 10) acc
  end.
Definition dec (n : Z) : str := dec_loop 20 n [].

Fixpoint join (sep : str) (parts : list str) : str :=
  match parts with
  | [] => []
  | [p] => p
  | p :: ps => p ++ sep ++ join sep ps
  end.

(** ** UTF-8 validation *)

Definition in_range (lo hi b : Z) : bool := (lo <=? b) && (b <=? hi).

(** The length of the valid character at the start of the bytes, or the length
    of the invalid sequence that is replaced. *)
Definition utf8_step (bs : list Z) : bool * nat :=
  let cont := in_range 128 191 in
  match bs with
  | [] => (true, 0%nat)
  | b :: rest =>
      let next1 := default 0 (rest !! 0%nat) in
      let next2 := default 0 (rest !! 1%nat) in
      let next3 := default 0 (rest !! 2%nat) in
      if b <? 128 then (true, 1%nat)
      else if in_range 194 223 b then
        if cont next1 then (true, 2%nat) else (false, 1%nat)
      else if in_range 224 239 b then
        let lo := if b =? 224 then 160 else 128 in
        let hi := if b =? 237 then 159 else 191 in
        if negb (in_range lo hi next1) then (false, 1%nat)
        else if cont next2 then (true, 3%nat) else (false, 2%nat)
      else if in_range 240 244 b then
        let lo := if b =? 240 then 144 else 128 in
        let hi := if b =? 244 then 143 else 191 in
        if negb (in_range lo hi next1) then (false, 1%nat)
        else if negb (cont next2) then (false, 2%nat)
        else if cont next3 then (true, 4%nat) else (false, 3%nat)
      else (false, 1%nat)
  end.

Fixpoint valid_loop (fuel : nat) (bs : list Z) : bool :=
  match fuel, bs with
  | S fuel', _ :: _ => let '(valid, n) := utf8_step bs in valid && valid_loop fuel' (drop n bs)
  | _, _ => true
  end.
(** [String::from_utf8(..).is_ok()]; every round consumes a byte. *)
Definition valid_utf8 (bs : list Z) : bool := valid_loop (length bs) bs.

(** [split_once] and [rsplit_once] with the two-byte pattern [cc]. *)
Fixpoint split_once2 (c : Z) (s : str) : option (str * str) :=
  match s with
  | x :: ((y :: s'') as s') =>
      if (x =? c) && (y =? c) then Some ([], s'')
      else match split_once2 c s' with Some (a, b) => Some (x :: a, b) | None => None end
  | _ => None
  end.
Fixpoint rsplit_once2 (c : Z) (s : str) : option (str * str) :=
  match s with
  | [] => None
  | x :: s' =>
      match rsplit_once2 c s' with
      | Some (a, b) => Some (x :: a, b)
      | None => match s' with y :: s'' => if (x =? c) && (y =? c) then Some ([], s'') else None | [] => None end
      end
  end.

(** [str::cmp]: bytes, then length. *)
Fixpoint str_cmp (a b : str) : comparison :=
  match a, b with
  | [], [] => Eq
  | [], _ :: _ => Lt
  | _ :: _, [] => Gt
  | x :: a', y :: b' => match x ?= y with Eq => str_cmp a' b' | c => c end
  end.

(** The part of well-formedness that slicing relies on: no character starts
    with a continuation byte, in particular not after an ASCII character. *)
Fixpoint utf8_from (ascii_before : bool) (s : str) : Prop :=
  match s with
  | [] => True
  | b :: s' => (ascii_before = true → is_continuation b = false) ∧ utf8_from (b <? 128) s'
  end.
Definition utf8 (s : str) : Prop := utf8_from true s.

(** ** Lemmas *)

Lemma zlen_lower s : zlen (to_ascii_lowercase s) = zlen s.
Proof. apply zlen_fmap. Qed.

Lemma lower_app s t : to_ascii_lowercase (s ++ t) = to_ascii_lowercase s ++ to_ascii_lowercase t.
Proof. apply fmap_app. Qed.

(** Lower-casing does not create or hide a character that is not a letter. *)
Lemma ascii_lower_other b c : is_lower c = false → ascii_lower b = c → b = c.
Proof. unfold ascii_lower, is_lower. intros Hc E. destruct ((65 <=? b) && (b <=? 90)) eqn:Eb; lia. Qed.

Lemma strip_prefix_Some p s t : strip_prefix p s = Some t ↔ s = p ++ t.
Proof.
  unfold strip_prefix, starts_with, ztake, zdrop, zlen. rewrite Nat2Z.id. case_bool_decide as Hp.
  - split; [intros [= <-]; by rewrite <- Hp at 1; rewrite take_drop|].
    intros ->. by rewrite drop_app_length.
  - split; [done|]. intros ->. by rewrite take_app_length in Hp.
Qed.

Lemma trim_start_suffix c s : ∃ t, s = t ++ trim_start_matches c s.
Proof.
  induction s as [|b s [t IH]]; [by exists []|]. simpl. destruct (b =? c); [|by exists []].
  exists (b :: t). simpl. by rewrite <- IH.
Qed.

Lemma trim_end_prefix c s : ∃ t, s = trim_end_matches c s ++ t.
Proof.
  destruct (trim_start_suffix c (rev s)) as [t E]. exists (rev t). unfold trim_end_matches.
  by rewrite <- rev_app_distr, <- E, rev_involutive.
Qed.

Lemma utf8_from_prefix s : ∀ a t, utf8_from a (s ++ t) → utf8_from a s.
Proof. induction s as [|b s IH]; intros a t; simpl; [done|]. intros [Hb Hs]. split; [done|by eapply IH]. Qed.

(** No continuation byte follows an ASCII character. *)
Lemma utf8_after_ascii s : ∀ a d b t, utf8_from a (s ++ d :: b :: t) → d < 128 → is_continuation b = false.
Proof.
  induction s as [|e s IH]; intros a d b t; simpl.
  - intros (_ & Hb & _) Hd. apply Hb. lia.
  - intros [_ Hs]. by eapply IH.
Qed.

Lemma ends_with_char_iff c s : ends_with_char c s = true ↔ ∃ t, s = t ++ [c].
Proof.
  unfold ends_with_char. destruct s as [|b s] using rev_ind.
  - split; [done|]. intros [t E]. by destruct t.
  - rewrite last_snoc, Z.eqb_eq. split; [intros ->; by eexists|].
    intros [t E]. by apply app_inj_2 in E as [_ [= ->]].
Qed.

Lemma eq_ignore_ascii_case_iff a b :
  eq_ignore_ascii_case a b = true ↔ to_ascii_lowercase a = to_ascii_lowercase b.
Proof. apply bool_decide_eq_true. Qed.

Lemma valid_loop_ascii fuel s : Forall (λ b, 0 ≤ b < 128) s → valid_loop fuel s = true.
Proof.
  revert s. induction fuel as [|fuel IH]; intros [|b s] Hs; simpl; [done..|].
  apply Forall_cons in Hs as [Hb Hs]. rewrite (proj2 (Z.ltb_lt _ _)) by lia. simpl. by apply IH.
Qed.

Lemma valid_utf8_ascii s : Forall (λ b, 0 ≤ b < 128) s → valid_utf8 s = true.
Proof. apply valid_loop_ascii. Qed.

Lemma split_once2_first c s t : Forall (λ b, b ≠ c) s → split_once2 c (s ++ c :: c :: t) = Some (s, t).
Proof.
  induction 1 as [|b s Hb Hs IH]; simpl; [by rewrite Z.eqb_refl|].
  destruct (s ++ c :: c :: t) as [|y r] eqn:E; [by destruct s|]. rewrite (proj2 (Z.eqb_neq b c)) by done. simpl.
  simpl in IH. by rewrite IH.
Qed.

Lemma rsplit_once2_none c s : Forall (λ b, b ≠ c) s → rsplit_once2 c s = None.
Proof.
  induction 1 as [|b s Hb Hs IH]; simpl; [done|]. rewrite IH, (proj2 (Z.eqb_neq b c)) by done. by destruct s.
Qed.

Lemma rsplit_once2_last c s t : Forall (λ b, b ≠ c) t → rsplit_once2 c (s ++ c :: c :: t) = Some (s, t).
Proof.
  intros Ht. induction s as [|b s IH]; [|cbn [app rsplit_once2]; by rewrite IH].
  simpl. rewrite rsplit_once2_none by done. rewrite Z.eqb_refl. simpl.
  destruct t as [|y t]; [done|]. apply Forall_cons in Ht as [Hy _]. by rewrite (proj2 (Z.eqb_neq y c)).
Qed.
