(* ===== verification/NetPolicy.v ===== *)
(** * Sandbox network policies

    Models [src/sandbox/network/policy.rs] (the policy types, the decisions on
    addresses and domains, the normalisation of entries), the DNS name checks of
    [src/cfg/network.rs] and the policy construction of
    [src/api/impls/sandbox.rs].  IPv4 addresses are 32-bit numbers.  Networks
    and the parsing of addresses come from the [ipnetwork] crate and the
    standard library's address parsers: the class [NetOps]. *)

From S2P Require Import Prelude Text.

Open Scope result_scope.

(** ** Addresses and networks *)

Class NetOps : Type := {
  Ipv4Network : Type;
  Ipv6Network : Type;
  v4_eq_dec :: EqDecision Ipv4Network;
  v6_eq_dec :: EqDecision Ipv6Network;
  v4_contains : Ipv4Network → Z → bool;
  v4_all : Ipv4Network;
  v4_to_string : Ipv4Network → str;
  parse_v4_network : str → option Ipv4Network;
  v4_single : Z → Ipv4Network;
  v6_single : Z → Ipv6Network;
  parse_ip : str → option (Z + Z);
  parse_network : str → option (Ipv4Network + Ipv6Network)
}.

(** Documented behaviour: [0.0.0.0/0] contains every address, and the text of a
    network parses back. *)
Class NetSpec `{NetOps} : Prop := {
  ns_all : ∀ ip, v4_contains v4_all ip = true;
  ns_parse : ∀ n, parse_v4_network (v4_to_string n) = Some n
}.

Inductive IpNetwork `{NetOps} : Type :=
| V4 (n : Ipv4Network)
| V6 (n : Ipv6Network).

#[global] Instance IpNetwork_eq_dec `{NetOps} : EqDecision IpNetwork.
Proof. solve_decision. Defined.

Section Policy.
Context `{NetOps}.

Definition ALL_INTERNET_TRAFFIC_CIDR : IpNetwork := V4 v4_all.

Inductive BaseSandboxNetworkPolicy : Type := BaseDefault | BaseAllow | BaseDeny.

Record SandboxNetworkEgressPolicy : Type := mkEgress {
  allowed_cidrs : list IpNetwork;
  allowed_domains : list str;
  denied_cidrs : list IpNetwork
}.

Record SandboxNetworkPolicy : Type := mkPolicyNet {
  allow_public_traffic : bool;
  base_policy : BaseSandboxNetworkPolicy;
  egress : SandboxNetworkEgressPolicy
}.

Definition default_egress : SandboxNetworkEgressPolicy := mkEgress [] [] [].
Definition default_policy : SandboxNetworkPolicy := mkPolicyNet true BaseDefault default_egress.

Definition is_deny (b : BaseSandboxNetworkPolicy) : bool :=
  match b with BaseDeny => true | _ => false end.

Definition has_explicit_rules (e : SandboxNetworkEgressPolicy) : bool :=
  negb (is_nil (allowed_cidrs e)) || negb (is_nil (allowed_domains e)) || negb (is_nil (denied_cidrs e)).
Definition has_domain_allow_rules (p : SandboxNetworkPolicy) : bool :=
  negb (is_nil (allowed_domains (egress p))).
Definition has_explicit_egress_rules (p : SandboxNetworkPolicy) : bool := has_explicit_rules (egress p).
Definition has_runtime_egress_rules (p : SandboxNetworkPolicy) : bool :=
  is_deny (base_policy p) || has_explicit_egress_rules p.
Definition runtime_policy (p : SandboxNetworkPolicy) : option SandboxNetworkPolicy :=
  if has_runtime_egress_rules p then Some p else None.
Definition requires_egress_proxy (p : SandboxNetworkPolicy) : bool := has_domain_allow_rules p.

Definition DOMAIN_INSPECTION_TCP_PORTS : list Z := [80; 443].
Definition egress_proxy_tcp_ports (p : SandboxNetworkPolicy) : list Z :=
  if has_domain_allow_rules p then DOMAIN_INSPECTION_TCP_PORTS else [].

(** ** Decisions *)

(** The node's denied networks: [always_denied_cidrs] of the configuration and
    the internal pools of the address plan, both as text. *)
Record platform : Type := mkPlatform {
  always_denied_cidrs : list str;
  internal_egress_denied_cidrs : list str
}.
Context (node : platform).

Definition is_absolutely_denied (ip : Z) : bool :=
  existsb (λ cidr, v4_contains cidr ip)
    (omap parse_v4_network (always_denied_cidrs node ++ internal_egress_denied_cidrs node)).

Definition v4_matches (ip : Z) (cidr : IpNetwork) : bool :=
  match cidr with V4 network => v4_contains network ip | V6 _ => false end.

Definition is_ip_allowed (p : SandboxNetworkPolicy) (ip : Z) : bool :=
  if is_absolutely_denied ip then false
  else if existsb (v4_matches ip) (allowed_cidrs (egress p)) then true
  else if existsb (v4_matches ip) (denied_cidrs (egress p)) then false
  else if has_domain_allow_rules p then false
  else negb (is_deny (base_policy p)).

Definition DOT : Z := 46.

Definition domain_matches (hostname pattern : str) : bool :=
  let hostname := trim_end_matches DOT hostname in
  let pattern := trim_end_matches DOT pattern in
  bool_decide (pattern = lit "*")
  || eq_ignore_ascii_case pattern hostname
  || match strip_prefix (lit "*.") pattern with
     | None => false
     | Some suffix =>
         if zlen hostname <? zlen suffix then false
         else
           let suffix_start := zlen hostname - zlen suffix in
           match get_to hostname suffix_start, get_from hostname suffix_start with
           | Some prefix, Some host_suffix =>
               negb (is_nil prefix) && ends_with_char DOT prefix
               && eq_ignore_ascii_case host_suffix suffix
           | _, _ => false
           end
     end.

Definition is_domain_allowed (p : SandboxNetworkPolicy) (hostname : str) (resolved_ip : option Z) : bool :=
  if is_nil hostname || negb (existsb (domain_matches hostname) (allowed_domains (egress p))) then false
  else match resolved_ip with None => true | Some ip => negb (is_absolutely_denied ip) end.

(** ** Building a policy *)

Inductive policy_error : Type :=
| InvalidCidr | InvalidDomain | DenyNotCidr | Ipv6NotSupported | MissingDenyAll.

Definition is_valid_dns_label (label : str) : bool :=
  let ok b := is_lower b || is_digit b in
  match label with
  | [] => false
  | b :: rest =>
      (zlen label <=? 63) && ok b && match last label with Some e => ok e | None => false end
      && forallb (λ b, ok b || (b =? 45)) (ztake (zlen label - 2) rest)
  end.

Definition is_valid_dns_name (domain : str) : bool :=
  negb (is_nil domain) && (zlen domain <=? 253) && forallb is_valid_dns_label (split_on DOT domain).

Definition normalize_dns_name (domain : str) : option str :=
  let domain := to_ascii_lowercase domain in
  if is_valid_dns_name domain then Some domain else None.

Definition normalize_domain_pattern (pattern : str) : result policy_error str :=
  let '(wildcard, domain) :=
    match strip_prefix (lit "*.") pattern with Some d => (true, d) | None => (false, pattern) end in
  match normalize_dns_name domain with
  | None => Err InvalidDomain
  | Some domain => Ok (if (wildcard : bool) then lit "*." ++ domain else domain)
  end.

Definition try_normalize_ip_or_cidr (s : str) : result policy_error (option IpNetwork) :=
  match parse_ip s with
  | Some (inl ip) => Ok (Some (V4 (v4_single ip)))
  | Some (inr ip) => Ok (Some (V6 (v6_single ip)))
  | None =>
      match parse_network s with
      | Some (inl n) => Ok (Some (V4 n))
      | Some (inr n) => Ok (Some (V6 n))
      | None => if existsb (Z.eqb 47) s then Err InvalidCidr else Ok None
      end
  end.

(** [if seen.insert(x) { list.push(x) }]: the set holds what the list holds. *)
Definition push_new {A} `{EqDecision A} (l : list A) (x : A) : list A :=
  if decide (x ∈ l) then l else l ++ [x].

Fixpoint add_allowed (entries : list str) (p : SandboxNetworkEgressPolicy)
  : result policy_error SandboxNetworkEgressPolicy :=
  match entries with
  | [] => Ok p
  | entry :: rest =>
      let? cidr := try_normalize_ip_or_cidr entry in
      match cidr with
      | Some cidr =>
          add_allowed rest (mkEgress (push_new (allowed_cidrs p) cidr) (allowed_domains p) (denied_cidrs p))
      | None =>
          let? domain := normalize_domain_pattern entry in
          add_allowed rest (mkEgress (allowed_cidrs p) (push_new (allowed_domains p) domain) (denied_cidrs p))
      end
  end.

Fixpoint add_denied (entries : list str) (p : SandboxNetworkEgressPolicy)
  : result policy_error SandboxNetworkEgressPolicy :=
  match entries with
  | [] => Ok p
  | entry :: rest =>
      let? cidr := try_normalize_ip_or_cidr entry in
      match cidr with
      | Some cidr =>
          add_denied rest (mkEgress (allowed_cidrs p) (allowed_domains p) (push_new (denied_cidrs p) cidr))
      | None => Err DenyNotCidr
      end
  end.

(** [SandboxNetworkEgressPolicy::new] *)
Definition egress_new (allow_out deny_out : option (list str)) : result policy_error SandboxNetworkEgressPolicy :=
  let? p := add_allowed (default [] allow_out) default_egress in
  add_denied (default [] deny_out) p.

(** The API: [network_policy_from_create] and [network_policy_from_update] *)
Definition base_policy_from_allow_internet_access (value : option bool) : BaseSandboxNetworkPolicy :=
  match value with Some true => BaseAllow | Some false => BaseDeny | None => BaseDefault end.

Definition validate_ipv4_cidrs (p : SandboxNetworkPolicy) : result policy_error unit :=
  ensure (negb (existsb (λ c, match c with V6 _ => true | V4 _ => false end)
                  (allowed_cidrs (egress p) ++ denied_cidrs (egress p)))) Ipv6NotSupported.

Definition validate_domain_allowlist (p : SandboxNetworkPolicy) : result policy_error unit :=
  ensure (negb (has_domain_allow_rules p
                && negb (existsb (λ c, bool_decide (c = ALL_INTERNET_TRAFFIC_CIDR)) (denied_cidrs (egress p)))))
    MissingDenyAll.

Definition network_policy_from_create (allow_internet_access : option bool) (allow_out deny_out : option (list str))
  (public_traffic : option bool) : result policy_error SandboxNetworkPolicy :=
  let base := base_policy_from_allow_internet_access allow_internet_access in
  let? egress := egress_new allow_out deny_out in
  let p := mkPolicyNet (default true public_traffic) base egress in
  let? _ := validate_ipv4_cidrs p in
  let? _ := validate_domain_allowlist p in
  Ok p.

Definition network_policy_from_update (allow_internet_access : option bool) (allow_out deny_out : option (list str))
  : result policy_error SandboxNetworkPolicy :=
  let? egress := egress_new allow_out deny_out in
  let p := mkPolicyNet true (base_policy_from_allow_internet_access allow_internet_access) egress in
  let? _ := validate_ipv4_cidrs p in
  let? _ := validate_domain_allowlist p in
  Ok p.
End Policy.

(** ** Domain patterns *)

(** A host name and a pattern as they are compared: without trailing dots, and
    without regard to case. *)
Definition domain_key (s : str) : str := to_ascii_lowercase (trim_end_matches DOT s).

(** A wildcard suffix, split off a host name at the right place. *)
Lemma wildcard_split h suffix : utf8 h → 
  (if zlen h <? zlen suffix then false
   else
     let n := zlen h - zlen suffix in
     match get_to h n, get_from h n with
     | Some prefix, Some host_suffix =>
         negb (is_nil prefix) && ends_with_char DOT prefix && eq_ignore_ascii_case host_suffix suffix
     | _, _ => false
     end) = true
  ↔ ∃ label, to_ascii_lowercase h = label ++ DOT :: to_ascii_lowercase suffix.
Proof.
  intros Hu. cbv zeta. unfold get_to, get_from. set (n := zlen h - zlen suffix). split.
  - destruct (Z.ltb_spec (zlen h) (zlen suffix)); [done|]. destruct (is_char_boundary h n); [|done].
    intros [[_ Hd]%andb_true_iff He]%andb_true_iff. apply ends_with_char_iff in Hd as [label El].
    apply eq_ignore_ascii_case_iff in He. exists (to_ascii_lowercase label).
    rewrite <- (ztake_zdrop n h), El, !lower_app, He, <- app_assoc. done.
  - intros [label E]. pose proof (f_equal zlen E) as El. rewrite zlen_lower, zlen_app in El.
    change (DOT :: to_ascii_lowercase suffix) with ([DOT] ++ to_ascii_lowercase suffix) in El.
    rewrite zlen_app, zlen_lower in El. change (zlen [DOT]) with 1 in El. pose proof (zlen_nonneg label).
    rewrite (proj2 (Z.ltb_ge _ _)) by lia. 
    apply fmap_app_inv in E as (l1 & l2 & -> & E2 & Eh). symmetry in E2.
    apply fmap_cons_inv in E2 as (d & hs & Ed & Ehs & ->). symmetry in Ed.
    apply ascii_lower_other in Ed as ->; [|done].
    assert (zlen hs = zlen suffix) as Hlen by (rewrite <- (zlen_lower hs), <- (zlen_lower suffix); by f_equal).
    rewrite Eh in Hu. assert (h = (l1 ++ [DOT]) ++ hs) as Eh' by by rewrite <- app_assoc.
    assert (n = zlen (l1 ++ [DOT])) as Hn by (unfold n; rewrite Eh', zlen_app; lia).
    assert (is_char_boundary h n = true) as ->.
    { unfold is_char_boundary. destruct (Z.eqb_spec n 0); [done|].
      rewrite Eh', Hn. unfold zlen at 1. rewrite Nat2Z.id, lookup_app_r, Nat.sub_diag by lia.
      destruct hs as [|b hs]; [by rewrite app_nil_r, Z.eqb_refl|]. simpl.
      by rewrite (utf8_after_ascii l1 true DOT b hs Hu). }
    rewrite Eh', Hn. unfold ztake, zdrop, zlen. rewrite Nat2Z.id, take_app_length, drop_app_length.
    apply andb_true_iff. split; [apply andb_true_iff; split; [by destruct l1|]|].
    + apply ends_with_char_iff. by eexists.
    + apply eq_ignore_ascii_case_iff. by rewrite Ehs.
Qed.

(** a host name matches a pattern exactly when, ignoring case and trailing
    dots, the pattern is a lone star, is the name itself, or is a wildcard
    whose suffix the name continues to the left of a dot. *)
Theorem domain_matches_iff hostname pattern : utf8 hostname →
  domain_matches hostname pattern = true ↔
  trim_end_matches DOT pattern = lit "*"
  ∨ domain_key pattern = domain_key hostname
  ∨ ∃ suffix label, domain_key pattern = lit "*." ++ suffix ∧ domain_key hostname = label ++ DOT :: suffix.
Proof.
  intros Hu. unfold domain_matches, domain_key. destruct (trim_end_prefix DOT hostname) as [t Et].
  set (h := trim_end_matches DOT hostname) in *. set (p := trim_end_matches DOT pattern).
  assert (utf8 h) as Hh by (unfold utf8 in *; rewrite Et in Hu; by eapply utf8_from_prefix).
  rewrite !orb_true_iff, bool_decide_eq_true, eq_ignore_ascii_case_iff. rewrite Logic.or_assoc.
  apply or_iff_compat_l, or_iff_compat_l.
  destruct (strip_prefix (lit "*.") p) as [suffix|] eqn:Es.
  - apply strip_prefix_Some in Es as ->. rewrite (wildcard_split h suffix Hh), lower_app. split.
    + intros [label E]. by exists (to_ascii_lowercase suffix), label.
    + intros (sfx & label & E1 & E2). apply app_inj_1 in E1 as [_ E1]; [|done]. exists label. by rewrite E1.
  - split; [done|]. intros (suffix & label & E1 & E2).
    assert (p = lit "*." ++ drop 2 p) as Ep; [|apply strip_prefix_Some in Ep; congruence].
    destruct p as [|a [|b p]]; try done. cbn in E1. injection E1 as Ea Eb _.
    apply ascii_lower_other in Ea as ->; [|done]. by apply ascii_lower_other in Eb as ->.
Qed.

(** ** Policies the API accepts *)

Section Validated.
Context `{NetOps}.

Definition validated (p : SandboxNetworkPolicy) : Prop :=
  (∀ c, c ∈ allowed_cidrs (egress p) ++ denied_cidrs (egress p) → ∃ n, c = V4 n)
  ∧ (has_domain_allow_rules p = true → V4 v4_all ∈ denied_cidrs (egress p)).

Lemma checks_validated p : validate_ipv4_cidrs p = Ok tt → validate_domain_allowlist p = Ok tt → validated p.
Proof.
  unfold validate_ipv4_cidrs, validate_domain_allowlist, ensure. intros H6 Hd. split.
  - intros [n|n] Hc; [by exists n|]. destruct (existsb _ _) eqn:E in H6; [done|].
    assert (existsb (λ c, match c with V6 _ => true | V4 _ => false end)
      (allowed_cidrs (egress p) ++ denied_cidrs (egress p)) = true) as Ht; [|congruence].
    apply existsb_exists. exists (V6 n). by rewrite <- list_elem_of_In.
  - intros Hr. rewrite Hr in Hd. destruct (existsb _ _) eqn:E in Hd; [|done].
    apply existsb_exists in E as (c & Hc & Ec%bool_decide_eq_true). rewrite Ec in Hc. by apply list_elem_of_In.
Qed.

Lemma create_validated ia ao dn pt p : network_policy_from_create ia ao dn pt = Ok p → validated p.
Proof.
  unfold network_policy_from_create. destruct (egress_new ao dn) as [e|]; [|done]. cbn [rbind].
  destruct (validate_ipv4_cidrs _) as [[]|] eqn:E1; [|done]. cbn [rbind].
  destruct (validate_domain_allowlist _) as [[]|] eqn:E2; [|done]. intros [= <-]. by apply checks_validated.
Qed.

Lemma update_validated ia ao dn p : network_policy_from_update ia ao dn = Ok p → validated p.
Proof.
  unfold network_policy_from_update. destruct (egress_new ao dn) as [e|]; [|done]. cbn [rbind].
  destruct (validate_ipv4_cidrs _) as [[]|] eqn:E1; [|done]. cbn [rbind].
  destruct (validate_domain_allowlist _) as [[]|] eqn:E2; [|done]. intros [= <-]. by apply checks_validated.
Qed.

Lemma default_validated : validated default_policy.
Proof. split; [intros c Hc; by apply elem_of_nil in Hc|done]. Qed.
End Validated.

(** ** An example network library: prefixes of the binary address. *)

Record ex_net : Type := mkExNet { en_addr : Z; en_prefix : Z }.
#[global] Instance ex_net_eq_dec : EqDecision ex_net.
Proof. solve_decision. Defined.

Definition ex_nets : NetOps := {|
  Ipv4Network := ex_net;
  Ipv6Network := unit;
  v4_contains := λ n ip, (en_prefix n =? 0)
    || (Z.shiftr ip (32 - en_prefix n) =? Z.shiftr (en_addr n) (32 - en_prefix n));
  v4_all := mkExNet 0 0;
  v4_to_string := λ n, [en_addr n; en_prefix n];
  parse_v4_network := λ s, match s with [a; p] => Some (mkExNet a p) | _ => None end;
  v4_single := λ ip, mkExNet ip 32;
  v6_single := λ _, tt;
  parse_ip := λ s, match s with [a] => Some (inl a) | _ => None end;
  parse_network := λ s, match s with [a; p] => Some (inl (mkExNet a p)) | _ => None end
|}.

Lemma ex_nets_spec : @NetSpec ex_nets.
Proof. by split; [|intros []]. Qed.

Lemma domain_matches_iff_witness :
  domain_matches (lit "API.Example.COM.") (lit "*.example.com") = true.
Proof.
  apply domain_matches_iff; [by vm_compute|]. right. right.
  exists (lit "example.com"), (lit "api"). by vm_compute.
Defined.
