(* ===== verification/NetFilter.v ===== *)
(** * The packet filter of a sandbox namespace

    Models the rules [src/sandbox/network/policy.rs] and [slot.rs] install and
    the script [iptables_util.rs] renders them to.  A rule is kept as its parts;
    [rule_text] is the text the code formats.

    [apply_command] and [traverse] state the documented behaviour of
    [iptables-restore], with [restores] its commit of one table after the other,
    and of the kernel's packet filter on the commands and
    rules the code uses: they are the meaning of the rules, not code of the
    repository. *)

From stdpp Require Import gmap.
From S2P Require Import Prelude Text NetPolicy.

Open Scope result_scope.

(** ** Rules *)

Inductive target : Type :=
| ACCEPT | REJECT | DROP
| REDIRECT (port : Z)
| SNAT (to : str)
| DNAT (to : str)
| JUMP (chain : string).

Record rule : Type := mkRule {
  r_in : option string;
  r_out : option string;
  r_src : option (bool * str);
  r_established : option string;
  r_dst : option str;
  r_proto : option string;
  r_dport : option Z;
  r_target : target
}.

Definition opt_text {A} (f : A → str) (o : option A) : list str :=
  match o with Some a => [f a] | None => [] end.

Definition target_text (t : target) : str :=
  match t with
  | ACCEPT => lit "ACCEPT"
  | REJECT => lit "REJECT"
  | DROP => lit "DROP"
  | REDIRECT port => lit "REDIRECT --to-ports " ++ dec port
  | SNAT to => lit "SNAT --to " ++ to
  | DNAT to => lit "DNAT --to " ++ to
  | JUMP chain => lit chain
  end.

Definition rule_text (r : rule) : str :=
  join (lit " ")
    (opt_text (λ i, lit "-i " ++ lit i) (r_in r)
     ++ opt_text (λ o, lit "-o " ++ lit o) (r_out r)
     ++ opt_text (λ '(neg, s), (if (neg : bool) then lit "! -s " else lit "-s ") ++ s) (r_src r)
     ++ opt_text lit (r_established r)
     ++ opt_text (λ d, lit "-d " ++ d) (r_dst r)
     ++ opt_text (λ p, lit "-p " ++ lit p) (r_proto r)
     ++ opt_text (λ p, lit "--dport " ++ dec p) (r_dport r)
     ++ [lit "-j " ++ target_text (r_target r)]).

Inductive IptablesRestoreCommand : Type :=
| NewChain (table chain : string)
| FlushChain (table chain : string)
| Insert (table chain : string) (position : Z) (r : rule)
| Append (table chain : string) (r : rule)
| Delete (table chain : string) (r : rule).

Definition cmd_table (c : IptablesRestoreCommand) : string :=
  match c with
  | NewChain t _ | FlushChain t _ | Insert t _ _ _ | Append t _ _ | Delete t _ _ => t
  end.

Definition NEWLINE : str := [10].

Definition command_text (c : IptablesRestoreCommand) : str :=
  match c with
  | NewChain _ chain => lit "-N " ++ lit chain
  | FlushChain _ chain => lit "-F " ++ lit chain
  | Insert _ chain position r => lit "-I " ++ lit chain ++ lit " " ++ dec position ++ lit " " ++ rule_text r
  | Append _ chain r => lit "-A " ++ lit chain ++ lit " " ++ rule_text r
  | Delete _ chain r => lit "-D " ++ lit chain ++ lit " " ++ rule_text r
  end ++ NEWLINE.

(** [build_restore_script] *)
Fixpoint script_loop (commands : list IptablesRestoreCommand) (current_table : option string) (script : str)
  : str :=
  match commands with
  | [] => match current_table with Some _ => script ++ lit "COMMIT" ++ NEWLINE | None => script end
  | command :: rest =>
      let table := cmd_table command in
      let script :=
        if bool_decide (current_table = Some table) then script
        else (match current_table with Some _ => script ++ lit "COMMIT" ++ NEWLINE | None => script end)
             ++ lit "*" ++ lit table ++ NEWLINE in
      script_loop rest (Some table) (script ++ command_text command)
  end.
Definition build_restore_script (commands : list IptablesRestoreCommand) : str := script_loop commands None [].

(** ** The rules of a namespace *)

Definition EGRESS_CHAIN : string := "AGENTENV-EGRESS".
Definition USER_EGRESS_CHAIN : string := "AGENTENV-USER-EGRESS".
Definition EGRESS_PROXY_CHAIN : string := "AGENTENV-EGRESS-PROXY".

(** [-i tap0 -o vpeer ... -j target] *)
Definition out_rule (established : option string) (dst : option str) (proto : option string) (dport : option Z)
  (t : target) : rule :=
  mkRule (Some "tap0") (Some "vpeer") None established dst proto dport t.

Definition append_egress_command (r : rule) : IptablesRestoreCommand := Append "filter" EGRESS_CHAIN r.
Definition append_user_egress_command (r : rule) : IptablesRestoreCommand := Append "filter" USER_EGRESS_CHAIN r.

Definition established_rule : rule :=
  out_rule (Some "-m conntrack --ctstate ESTABLISHED,RELATED") None None None ACCEPT.
Definition dns_rule (guest_dns_ip : str) (protocol : string) : rule :=
  out_rule None (Some (guest_dns_ip ++ lit "/32")) (Some protocol) (Some 53) ACCEPT.
Definition reject_rule (cidr : str) : rule := out_rule None (Some cidr) None None REJECT.
Definition accept_rule (cidr : str) : rule := out_rule None (Some cidr) None None ACCEPT.

Definition build_static_egress_commands (guest_dns_ip : str) (internal_egress_denied_cidrs : list str)
  (node_always_denied_cidrs : list str) : list IptablesRestoreCommand :=
  [append_egress_command established_rule]
  ++ ((λ protocol, append_egress_command (dns_rule guest_dns_ip protocol)) <$> ["udp"%string; "tcp"%string])
  ++ ((λ cidr, append_egress_command (reject_rule cidr))
        <$> internal_egress_denied_cidrs ++ node_always_denied_cidrs)
  ++ [append_egress_command (out_rule None None None None (JUMP USER_EGRESS_CHAIN))].

Section Commands.
Context `{NetOps}.

(** The text of the IPv4 entries of a list of networks. *)
Definition v4_texts (cidrs : list IpNetwork) : list str :=
  omap (λ c, match c with V4 n => Some (v4_to_string n) | V6 _ => None end) cidrs.

Definition build_user_egress_commands (p : SandboxNetworkPolicy) (replace : bool) : list IptablesRestoreCommand :=
  (if replace then [FlushChain "filter" USER_EGRESS_CHAIN] else [])
  ++ ((λ c, append_user_egress_command (accept_rule c)) <$> v4_texts (allowed_cidrs (egress p)))
  ++ ((λ c, append_user_egress_command (reject_rule c)) <$> v4_texts (denied_cidrs (egress p)))
  ++ (if is_deny (base_policy p) then [append_user_egress_command (reject_rule (v4_to_string v4_all))] else []).

Definition redirect_rule (egress_proxy_port port : Z) : rule :=
  mkRule (Some "tap0") None None None None (Some "tcp") (Some port) (REDIRECT egress_proxy_port).

Definition build_egress_proxy_commands (p : SandboxNetworkPolicy) (egress_proxy_port : Z)
  : list IptablesRestoreCommand :=
  FlushChain "nat" EGRESS_PROXY_CHAIN
  :: ((λ port, Append "nat" EGRESS_PROXY_CHAIN (redirect_rule egress_proxy_port port))
        <$> egress_proxy_tcp_ports p).

(** The batch of [set_namespace_egress_policy]. *)
Definition namespace_egress_policy_commands (policy : option SandboxNetworkPolicy) (egress_proxy_port : Z)
  : list IptablesRestoreCommand :=
  let policy := default default_policy policy in
  build_user_egress_commands policy true ++ build_egress_proxy_commands policy egress_proxy_port.
End Commands.

(** The batch of [initialize_namespace_egress_chain]. *)
Definition namespace_egress_chain_commands (guest_dns_ip : str) (internal_egress_denied_cidrs : list str)
  (always_denied : list str) : list IptablesRestoreCommand :=
  [NewChain "filter" EGRESS_CHAIN; NewChain "filter" USER_EGRESS_CHAIN;
   Insert "filter" "FORWARD" 1 (out_rule None None None None (JUMP EGRESS_CHAIN));
   FlushChain "filter" EGRESS_CHAIN]
  ++ build_static_egress_commands guest_dns_ip internal_egress_denied_cidrs always_denied
  ++ [NewChain "nat" EGRESS_PROXY_CHAIN;
      Insert "nat" "PREROUTING" 1 (mkRule (Some "tap0") None None None None None None (JUMP EGRESS_PROXY_CHAIN));
      FlushChain "nat" EGRESS_PROXY_CHAIN].

(** The batch of [configure_namespace_iptables_rules]. *)
Definition configure_namespace_commands (host_interaction_ip veth_vm_ip vm_ip : str) : list IptablesRestoreCommand :=
  [Append "filter" "FORWARD" (out_rule None None None None ACCEPT);
   Append "filter" "FORWARD"
     (mkRule (Some "vpeer") (Some "tap0") None (Some "-m state --state RELATED,ESTABLISHED") None None None ACCEPT);
   Append "nat" "POSTROUTING"
     (mkRule None (Some "vpeer") (Some (false, vm_ip)) None None None None (SNAT host_interaction_ip));
   Append "nat" "POSTROUTING"
     (mkRule None (Some "vpeer") (Some (false, veth_vm_ip)) None None None None (SNAT host_interaction_ip));
   Append "nat" "PREROUTING"
     (mkRule (Some "vpeer") None None None (Some host_interaction_ip) None None (DNAT vm_ip));
   Append "raw" "PREROUTING" (mkRule (Some "tap0") None (Some (true, vm_ip)) None None None None DROP)].

(** ** What the rules mean *)

Abbreviation ruleset := (gmap (string * string) (list rule)).

#[global] Instance target_eq_dec : EqDecision target.
Proof. solve_decision. Defined.
#[global] Instance rule_eq_dec : EqDecision rule.
Proof. solve_decision. Defined.

(** Deletes the first rule that is [r]. *)
Fixpoint delete_rule (r : rule) (l : list rule) : option (list rule) :=
  match l with
  | [] => None
  | r' :: l' => if decide (r = r') then Some l' else cons r' <$> delete_rule r l'
  end.

(** [None]: the command is refused. *)
Definition apply_command (c : IptablesRestoreCommand) (rs : ruleset)
  : option (ruleset) :=
  match c with
  | NewChain t ch => match rs !! (t, ch) with None => Some (<[(t, ch) := []]> rs) | Some _ => None end
  | FlushChain t ch => match rs !! (t, ch) with Some _ => Some (<[(t, ch) := []]> rs) | None => None end
  | Insert t ch pos r =>
      match rs !! (t, ch) with
      | Some l => if (1 <=? pos) && (pos <=? zlen l + 1)
                  then Some (<[(t, ch) := ztake (pos - 1) l ++ r :: zdrop (pos - 1) l]> rs) else None
      | None => None
      end
  | Append t ch r => match rs !! (t, ch) with Some l => Some (<[(t, ch) := l ++ [r]]> rs) | None => None end
  | Delete t ch r =>
      match rs !! (t, ch) with
      | Some l => (λ l', <[(t, ch) := l']> rs) <$> delete_rule r l
      | None => None
      end
  end.

Fixpoint apply_commands (cs : list IptablesRestoreCommand) (rs : ruleset)
  : option (ruleset) :=
  match cs with
  | [] => Some rs
  | c :: cs' => match apply_command c rs with Some rs' => apply_commands cs' rs' | None => None end
  end.

(** The batch by table, as [build_restore_script] writes it. *)
Fixpoint table_groups (cs : list IptablesRestoreCommand) : list (list IptablesRestoreCommand) :=
  match cs with
  | [] => []
  | c :: rest =>
      match table_groups rest with
      | (c' :: g) :: gs => if bool_decide (cmd_table c = cmd_table c') then (c :: c' :: g) :: gs else [c] :: (c' :: g) :: gs
      | gs => [c] :: gs
      end
  end.

(** [iptables-restore] commits one table after the other, each at once: a run
    has committed the first tables of the batch, and all of them when it
    succeeds. *)
Definition restores (cs : list IptablesRestoreCommand) (rs rs' : ruleset) (ok : bool) : Prop :=
  ∃ committed rest, table_groups cs = committed ++ rest ∧ apply_commands (mjoin committed) rs = Some rs'
    ∧ (ok = true → rest = []).

(** A packet, as far as the rules look at it. *)
Record flow : Type := mkFlow {
  f_in : string;
  f_out : string;
  f_src : Z;
  f_established : bool;
  f_dst : Z;
  f_proto : string;
  f_dport : Z
}.

Section Semantics.
Context `{NetOps}.

Definition net_matches (cidr : str) (ip : Z) : bool :=
  match parse_v4_network cidr with Some n => v4_contains n ip | None => false end.

Definition opt_matches {A} (f : A → bool) (o : option A) : bool :=
  match o with Some a => f a | None => true end.

Definition rule_matches (r : rule) (f : flow) : bool :=
  opt_matches (λ i, bool_decide (i = f_in f)) (r_in r)
  && opt_matches (λ o, bool_decide (o = f_out f)) (r_out r)
  && opt_matches (λ '(neg, s), xorb neg (net_matches s (f_src f))) (r_src r)
  && opt_matches (λ _, f_established f) (r_established r)
  && opt_matches (λ d, net_matches d (f_dst f)) (r_dst r)
  && opt_matches (λ p, bool_decide (p = f_proto f)) (r_proto r)
  && opt_matches (λ p, p =? f_dport f) (r_dport r).

Inductive verdict : Type := Accepted | Rejected | Dropped | Redirected (port : Z) | Rewritten | Returned.

Definition target_verdict (t : target) : verdict :=
  match t with
  | ACCEPT => Accepted
  | REJECT => Rejected
  | DROP => Dropped
  | REDIRECT port => Redirected port
  | SNAT _ | DNAT _ => Rewritten
  | JUMP _ => Returned
  end.

(** A packet walks the rules of a chain until one of them decides; a chain it
    is sent to may hand it back. *)
Inductive traverse (rs : ruleset) (table : string) (f : flow) : list rule → verdict → Prop :=
| tr_end : traverse rs table f [] Returned
| tr_skip r l v : rule_matches r f = false → traverse rs table f l v → traverse rs table f (r :: l) v
| tr_stop r l : rule_matches r f = true → (∀ c, r_target r ≠ JUMP c) →
    traverse rs table f (r :: l) (target_verdict (r_target r))
| tr_jump r l c l' v : rule_matches r f = true → r_target r = JUMP c → rs !! (table, c) = Some l' →
    traverse rs table f l' v → v ≠ Returned → traverse rs table f (r :: l) v
| tr_back r l c l' v : rule_matches r f = true → r_target r = JUMP c → rs !! (table, c) = Some l' →
    traverse rs table f l' Returned → traverse rs table f l v → traverse rs table f (r :: l) v.

(** What the filter does with a packet that the namespace forwards. *)
Definition forwarded (rs : ruleset) (f : flow) (v : verdict) : Prop :=
  ∃ l, rs !! ("filter"%string, "FORWARD"%string) = Some l ∧ traverse rs "filter" f l v.
End Semantics.

(** The script of a batch, as the code renders it. *)
Lemma build_restore_script_example :
  build_restore_script
    [NewChain "filter" EGRESS_CHAIN; Insert "filter" "FORWARD" 1 (out_rule None None None None (JUMP EGRESS_CHAIN));
     FlushChain "nat" EGRESS_PROXY_CHAIN; Append "nat" EGRESS_PROXY_CHAIN (redirect_rule 15000 443)]
  = lit "*filter" ++ NEWLINE ++ lit "-N AGENTENV-EGRESS" ++ NEWLINE
    ++ lit "-I FORWARD 1 -i tap0 -o vpeer -j AGENTENV-EGRESS" ++ NEWLINE ++ lit "COMMIT" ++ NEWLINE
    ++ lit "*nat" ++ NEWLINE ++ lit "-F AGENTENV-EGRESS-PROXY" ++ NEWLINE
    ++ lit "-A AGENTENV-EGRESS-PROXY -i tap0 -p tcp --dport 443 -j REDIRECT --to-ports 15000" ++ NEWLINE
    ++ lit "COMMIT" ++ NEWLINE.
Proof. by vm_compute. Qed.

(** ** Batches *)

Lemma apply_commands_app cs1 cs2 rs :
  apply_commands (cs1 ++ cs2) rs = match apply_commands cs1 rs with Some rs' => apply_commands cs2 rs' | None => None end.
Proof.
  revert rs. induction cs1 as [|c cs1 IH]; intros rs; [done|]. simpl. destruct (apply_command c rs); [apply IH|done].
Qed.

Lemma apply_appends t ch rules : ∀ rs l, rs !! (t, ch) = Some l →
  apply_commands (Append t ch <$> rules) rs = Some (<[(t, ch) := l ++ rules]> rs).
Proof.
  induction rules as [|r rules IH]; intros rs l E; cbn [fmap list_fmap apply_commands].
  - by rewrite app_nil_r, insert_id.
  - cbn [apply_command]. rewrite E. rewrite (IH _ (l ++ [r])) by by rewrite lookup_insert_eq.
    by rewrite insert_insert_eq, <- app_assoc.
Qed.

Lemma table_groups_join cs : mjoin (table_groups cs) = cs.
Proof.
  induction cs as [|c cs IH]; [done|]. cbn [table_groups]. destruct (table_groups cs) as [|[|c' g] gs]; cbn in *; [by rewrite <- IH..|].
  case_bool_decide; cbn; by f_equal.
Qed.

Lemma table_groups_one t cs : cs ≠ [] → Forall (λ c, cmd_table c = t) cs → table_groups cs = [cs].
Proof.
  induction cs as [|c cs IH]; [done|]. intros _ [Hc Hcs]%Forall_cons. cbn [table_groups]. destruct cs as [|c' cs]; [done|].
  rewrite IH by done. apply Forall_cons in Hcs as [Hc' _]. by rewrite bool_decide_eq_true_2 by congruence.
Qed.

(** Two tables, one after the other. *)
Lemma table_groups_two t1 t2 cs1 cs2 : t1 ≠ t2 → cs1 ≠ [] → cs2 ≠ [] → Forall (λ c, cmd_table c = t1) cs1 →
  Forall (λ c, cmd_table c = t2) cs2 → table_groups (cs1 ++ cs2) = [cs1; cs2].
Proof.
  intros Hne H1 H2 Ht1 Ht2. pose proof (table_groups_one t2 cs2 H2 Ht2) as E2.
  induction cs1 as [|c cs1 IH]; [done|]. apply Forall_cons in Ht1 as [Hc Ht1]. cbn [app table_groups].
  destruct cs1 as [|c' cs1]; cbn [app] in *.
  - destruct cs2 as [|c' cs2]; [done|]. rewrite E2. apply Forall_cons in Ht2 as [Hc' _]. by rewrite bool_decide_eq_false_2 by congruence.
  - rewrite IH by done. apply Forall_cons in Ht1 as [Hc' _]. by rewrite bool_decide_eq_true_2 by congruence.
Qed.

Section Policy.
Context `{NetOps}.

Definition user_rules (p : SandboxNetworkPolicy) : list rule :=
  (accept_rule <$> v4_texts (allowed_cidrs (egress p))) ++ (reject_rule <$> v4_texts (denied_cidrs (egress p)))
  ++ (if is_deny (base_policy p) then [reject_rule (v4_to_string v4_all)] else []).
Definition proxy_rules (p : SandboxNetworkPolicy) (port : Z) : list rule :=
  redirect_rule port <$> egress_proxy_tcp_ports p.

Lemma user_commands p : build_user_egress_commands p true
  = FlushChain "filter" USER_EGRESS_CHAIN :: (Append "filter" USER_EGRESS_CHAIN <$> user_rules p).
Proof.
  unfold build_user_egress_commands, user_rules. rewrite !fmap_app, <- !list_fmap_compose.
  by destruct (is_deny (base_policy p)).
Qed.

Lemma proxy_commands p port : build_egress_proxy_commands p port
  = FlushChain "nat" EGRESS_PROXY_CHAIN :: (Append "nat" EGRESS_PROXY_CHAIN <$> proxy_rules p port).
Proof. unfold build_egress_proxy_commands, proxy_rules. by rewrite <- list_fmap_compose. Qed.

(** Replacing one of the two chains. *)
Lemma apply_replace t ch rules rs l : rs !! (t, ch) = Some l →
  apply_commands (FlushChain t ch :: (Append t ch <$> rules)) rs = Some (<[(t, ch) := rules]> rs).
Proof.
  intros E. cbn [apply_commands apply_command]. rewrite E, (apply_appends _ _ _ _ []) by by rewrite lookup_insert_eq.
  by rewrite insert_insert_eq.
Qed.

Lemma replace_tables t ch rules : Forall (λ c, cmd_table c = t) (FlushChain t ch :: (Append t ch <$> rules)).
Proof. constructor; [done|]. apply Forall_fmap. by apply Forall_true. Qed.

(** What a run of [iptables-restore] on a change of policy leaves: the chains
    as they were, the user chain replaced, or both. *)
Lemma policy_restores policy port rs user proxy rs' ok :
  rs !! ("filter"%string, USER_EGRESS_CHAIN) = Some user → rs !! ("nat"%string, EGRESS_PROXY_CHAIN) = Some proxy →
  restores (namespace_egress_policy_commands policy port) rs rs' ok →
  let p := default default_policy policy in
  let rs1 := <[("filter"%string, USER_EGRESS_CHAIN) := user_rules p]> rs in
  let rs2 := <[("nat"%string, EGRESS_PROXY_CHAIN) := proxy_rules p port]> rs1 in
  rs' = rs2 ∨ (ok = false ∧ (rs' = rs ∨ rs' = rs1)).
Proof.
  intros Eu Ep (committed & rest & Hg & Ha & Hok) p rs1 rs2. unfold namespace_egress_policy_commands in Hg.
  rewrite user_commands, proxy_commands in Hg. fold p in Hg.
  rewrite (table_groups_two "filter" "nat") in Hg; [|done..|apply replace_tables|apply replace_tables].
  assert (rs1 !! ("nat"%string, EGRESS_PROXY_CHAIN) = Some proxy) as Ep1 by (unfold rs1; by rewrite lookup_insert_ne).
  destruct committed as [|g1 [|g2 [|g3 gs]]]; cbn [app] in Hg.
  - right. injection Ha as <-. split; [|by left]. destruct ok; [|done]. specialize (Hok eq_refl). by subst.
  - injection Hg as <- <-. cbn [mjoin list_join] in Ha. rewrite app_nil_r, (apply_replace _ _ _ _ _ Eu) in Ha. injection Ha as <-.
    right. split; [|by right]. destruct ok; [by specialize (Hok eq_refl)|done].
  - injection Hg as <- <- <-. cbn [mjoin list_join] in Ha. rewrite app_nil_r, apply_commands_app, (apply_replace _ _ _ _ _ Eu) in Ha.
    fold rs1 in Ha. rewrite (apply_replace _ _ _ _ _ Ep1) in Ha. injection Ha as <-. by left.
  - injection Hg as _ _ Hg. discriminate.
Qed.
End Policy.

(** ** A namespace that has been set up *)

Definition static_rules (guest_dns_ip : str) (node : platform) : list rule :=
  established_rule :: dns_rule guest_dns_ip "udp" :: dns_rule guest_dns_ip "tcp"
  :: (reject_rule <$> internal_egress_denied_cidrs node ++ always_denied_cidrs node)
  ++ [out_rule None None None None (JUMP USER_EGRESS_CHAIN)].

Definition forward_rules : list rule :=
  [out_rule None None None None (JUMP EGRESS_CHAIN); out_rule None None None None ACCEPT;
   mkRule (Some "vpeer"%string) (Some "tap0"%string) None (Some "-m state --state RELATED,ESTABLISHED"%string)
     None None None ACCEPT].

(** The chains of a namespace whose user chain holds [user] and whose proxy
    chain holds [proxy]. *)
Record namespace_ok (guest_dns_ip : str) (node : platform) (rs : ruleset) (user proxy : list rule) : Prop := {
  nk_forward : rs !! ("filter"%string, "FORWARD"%string) = Some forward_rules;
  nk_egress : rs !! ("filter"%string, EGRESS_CHAIN) = Some (static_rules guest_dns_ip node);
  nk_user : rs !! ("filter"%string, USER_EGRESS_CHAIN) = Some user;
  nk_nat : ∃ rest, rs !! ("nat"%string, "PREROUTING"%string)
    = Some (mkRule (Some "tap0"%string) None None None None None None (JUMP EGRESS_PROXY_CHAIN) :: rest)
      ∧ Forall (λ r, r_in r = Some "vpeer"%string) rest;
  nk_proxy : rs !! ("nat"%string, EGRESS_PROXY_CHAIN) = Some proxy
}.

(** A fresh network namespace: the built-in chains, empty. *)
Definition fresh_ruleset : ruleset :=
  list_to_map ((λ c, (c, [])) <$>
    [("filter"%string, "INPUT"%string); ("filter"%string, "FORWARD"%string); ("filter"%string, "OUTPUT"%string);
     ("nat"%string, "PREROUTING"%string); ("nat"%string, "POSTROUTING"%string); ("nat"%string, "OUTPUT"%string);
     ("raw"%string, "PREROUTING"%string); ("raw"%string, "OUTPUT"%string)]).

Lemma static_commands dns internal always :
  build_static_egress_commands dns internal always
  = Append "filter" EGRESS_CHAIN <$> static_rules dns (mkPlatform always internal).
Proof.
  unfold build_static_egress_commands, static_rules.
  by rewrite !fmap_cons, !fmap_app, <- !list_fmap_compose, <- !app_assoc.
Qed.

Lemma fresh_chains :
  fresh_ruleset !! ("filter"%string, "FORWARD"%string) = Some []
  ∧ fresh_ruleset !! ("nat"%string, "PREROUTING"%string) = Some []
  ∧ fresh_ruleset !! ("nat"%string, "POSTROUTING"%string) = Some []
  ∧ fresh_ruleset !! ("raw"%string, "PREROUTING"%string) = Some []
  ∧ fresh_ruleset !! ("filter"%string, EGRESS_CHAIN) = None
  ∧ fresh_ruleset !! ("filter"%string, USER_EGRESS_CHAIN) = None
  ∧ fresh_ruleset !! ("nat"%string, EGRESS_PROXY_CHAIN) = None.
Proof. split_and!; vm_compute; reflexivity. Qed.

(** Looking a chain up among updates of other chains. *)
Ltac look_up :=
  repeat first [rewrite lookup_insert_eq | rewrite lookup_insert_ne by discriminate].

Ltac in_range := try match goal with |- context [(1 <=? 1) && ?b] => change ((1 <=? 1) && b) with true end.

(** The two batches that set a namespace up, with the static rules abstracted. *)
Lemma set_up_chains hip veth vm st : ∃ rs1 rs2 rs,
  apply_commands (configure_namespace_commands hip veth vm) fresh_ruleset = Some rs1
  ∧ apply_commands [NewChain "filter" EGRESS_CHAIN; NewChain "filter" USER_EGRESS_CHAIN;
      Insert "filter" "FORWARD" 1 (out_rule None None None None (JUMP EGRESS_CHAIN));
      FlushChain "filter" EGRESS_CHAIN] rs1 = Some rs2
  ∧ rs2 !! ("filter"%string, EGRESS_CHAIN) = Some []
  ∧ apply_commands [NewChain "nat" EGRESS_PROXY_CHAIN;
      Insert "nat" "PREROUTING" 1 (mkRule (Some "tap0"%string) None None None None None None (JUMP EGRESS_PROXY_CHAIN));
      FlushChain "nat" EGRESS_PROXY_CHAIN] (<[("filter"%string, EGRESS_CHAIN) := st]> rs2) = Some rs
  ∧ rs !! ("filter"%string, "FORWARD"%string) = Some forward_rules
  ∧ rs !! ("filter"%string, EGRESS_CHAIN) = Some st
  ∧ rs !! ("filter"%string, USER_EGRESS_CHAIN) = Some []
  ∧ rs !! ("nat"%string, "PREROUTING"%string)
    = Some [mkRule (Some "tap0"%string) None None None None None None (JUMP EGRESS_PROXY_CHAIN);
            mkRule (Some "vpeer"%string) None None None (Some hip) None None (DNAT vm)]
  ∧ rs !! ("nat"%string, EGRESS_PROXY_CHAIN) = Some [].
Proof.
  destruct fresh_chains as (F1 & F2 & F3 & F4 & F5 & F6 & F7). generalize fresh_ruleset, F1, F2, F3, F4, F5, F6, F7.
  clear. intros rs0 F1 F2 F3 F4 F5 F6 F7. eexists. eexists. eexists.
  split. { unfold configure_namespace_commands. cbn [apply_commands apply_command].
    repeat (look_up; rewrite ?F1, ?F2, ?F3, ?F4; cbn iota beta). reflexivity. }
  split. { cbn [apply_commands apply_command].
    repeat (look_up; rewrite ?F1, ?F2, ?F3, ?F4, ?F5, ?F6; in_range; cbn iota beta). reflexivity. }
  split. { by look_up. }
  split. { cbn [apply_commands apply_command].
    repeat (look_up; rewrite ?F1, ?F2, ?F3, ?F4, ?F7; in_range; cbn iota beta). reflexivity. }
  split_and!; look_up; reflexivity.
Qed.

Lemma namespace_set_up dns node hip veth vm : ∃ rs1 rs,
  apply_commands (configure_namespace_commands hip veth vm) fresh_ruleset = Some rs1
  ∧ apply_commands (namespace_egress_chain_commands dns (internal_egress_denied_cidrs node)
                      (always_denied_cidrs node)) rs1 = Some rs
  ∧ namespace_ok dns node rs [] [].
Proof.
  destruct node as [always internal].
  destruct (set_up_chains hip veth vm (static_rules dns (mkPlatform always internal)))
    as (rs1 & rs2 & rs & E1 & E2 & E3 & E4 & Hf & He & Hu & Hn & Hp).
  exists rs1, rs. split; [done|]. split.
  - unfold namespace_egress_chain_commands. rewrite apply_commands_app, E2, static_commands, apply_commands_app.
    by rewrite (apply_appends _ _ _ _ [] E3).
  - constructor; [done|done|done| |done]. eexists. split; [exact Hn|]. by repeat constructor.
Qed.

(** ** Walking the chains *)

Section Walk.
Context `{NetSpec}.

Lemma traverse_det rs table f l v1 v2 : traverse rs table f l v1 → traverse rs table f l v2 → v1 = v2.
Proof.
  intros Ha. revert v2.
  induction Ha as [|r l v Hm _ IH|r l Hm Hn|r l c l' v Hm Ht El _ IH Hv|r l c l' v Hm Ht El _ IH1 _ IH2];
    intros v2 Hb; inversion Hb as [|? ? ? Hm2 Hl2|? ? Hm2 Hn2|? ? ? ? ? Hm2 Ht2 El2 Hl2 Hv2|? ? ? ? ? Hm2 Ht2 El2 Hl2 Hr2];
    subst; try congruence; eauto; try (by edestruct Hn); try (by edestruct Hn2);
    rewrite Ht in Ht2; injection Ht2 as ->; rewrite El in El2; injection El2 as ->; eauto.
  - by destruct Hv; apply IH.
  - by destruct Hv2; symmetry; apply IH1.
Qed.

(** A block of rules with one target that does not jump. *)
Lemma traverse_block rs table f t rules rest v : (∀ c, t ≠ JUMP c) → Forall (λ r, r_target r = t) rules →
  (if existsb (λ r, rule_matches r f) rules then v = target_verdict t else traverse rs table f rest v) →
  traverse rs table f (rules ++ rest) v.
Proof.
  intros Ht. induction 1 as [|r rules Er _ IH]; simpl; [done|].
  destruct (rule_matches r f) eqn:Em; simpl; [intros ->|intros Hv].
  - rewrite <- Er. apply tr_stop; [done|]. intros c. rewrite Er. apply Ht.
  - apply tr_skip; [done|]. by apply IH.
Qed.

(** ** What a policy lets through *)

(** A packet of a connection that the guest opens. *)
Definition outbound (f : flow) : Prop :=
  f_in f = "tap0"%string ∧ f_out f = "vpeer"%string ∧ f_established f = false.
Definition dns_flow (guest_dns_ip : str) (f : flow) : bool :=
  rule_matches (dns_rule guest_dns_ip "udp") f || rule_matches (dns_rule guest_dns_ip "tcp") f.

Lemma out_rule_matches f dst t : outbound f →
  rule_matches (out_rule None dst None None t) f = opt_matches (λ d, net_matches d (f_dst f)) dst.
Proof.
  intros (Ei & Eo & _). unfold rule_matches, out_rule. simpl. rewrite Ei, Eo, !bool_decide_true by done.
  by rewrite !andb_true_r.
Qed.

Lemma existsb_rules f t g cidrs : (∀ c, g c = out_rule None (Some c) None None t) → outbound f →
  existsb (λ r, rule_matches r f) (g <$> cidrs) = existsb (λ c, net_matches c (f_dst f)) cidrs.
Proof.
  intros Hg Hf. induction cidrs as [|c cidrs IH]; [done|]. rewrite fmap_cons. simpl existsb.
  by rewrite IH, Hg, out_rule_matches.
Qed.

Lemma v4_texts_match cidrs ip : existsb (λ c, net_matches c ip) (v4_texts cidrs) = existsb (v4_matches ip) cidrs.
Proof.
  induction cidrs as [|[n|n] cidrs IH]; [done|..|exact IH]. cbn. unfold net_matches at 1. rewrite ns_parse.
  by f_equal.
Qed.

Lemma absolutely_denied_match node ip :
  existsb (λ c, net_matches c ip) (internal_egress_denied_cidrs node ++ always_denied_cidrs node)
  = is_absolutely_denied node ip.
Proof.
  unfold is_absolutely_denied. rewrite omap_app, !existsb_app, orb_comm. unfold net_matches.
  assert (∀ l, existsb (λ c, match parse_v4_network c with Some n => v4_contains n ip | None => false end) l
    = existsb (λ cidr, v4_contains cidr ip) (omap parse_v4_network l)) as E.
  { induction l as [|c l IH]; [done|]. cbn. destruct (parse_v4_network c); cbn; by rewrite IH. }
  by rewrite !E.
Qed.

(** The user chain decides what the policy decides, or hands the packet back. *)
Definition user_verdict (p : SandboxNetworkPolicy) (ip : Z) : verdict :=
  if existsb (v4_matches ip) (allowed_cidrs (egress p)) then Accepted
  else if existsb (v4_matches ip) (denied_cidrs (egress p)) || is_deny (base_policy p) then Rejected
  else Returned.

Lemma traverse_user rs f p : outbound f → traverse rs "filter" f (user_rules p) (user_verdict p (f_dst f)).
Proof.
  intros Hf. unfold user_rules, user_verdict.
  apply (traverse_block _ _ _ ACCEPT); [done|apply Forall_fmap; by apply Forall_true|].
  rewrite (existsb_rules f ACCEPT accept_rule), v4_texts_match by done. destruct (existsb _ (allowed_cidrs _)); [done|].
  apply (traverse_block _ _ _ REJECT); [done|apply Forall_fmap; by apply Forall_true|].
  rewrite (existsb_rules f REJECT reject_rule), v4_texts_match by done. destruct (existsb _ (denied_cidrs _)); [done|].
  destruct (is_deny (base_policy p)); [|apply tr_end].
  apply (tr_stop _ _ _ (reject_rule _)); [|done]. unfold reject_rule. rewrite out_rule_matches by done. simpl.
  unfold net_matches. by rewrite ns_parse, ns_all.
Qed.

Lemma traverse_static rs f dns node p : outbound f → dns_flow dns f = false →
  rs !! ("filter"%string, USER_EGRESS_CHAIN) = Some (user_rules p) →
  traverse rs "filter" f (static_rules dns node)
    (if is_absolutely_denied node (f_dst f) then Rejected else user_verdict p (f_dst f)).
Proof.
  intros Hf Hd Hu. unfold static_rules. apply orb_false_iff in Hd as [Hd1 Hd2]. pose proof Hf as (_ & _ & Ee).
  apply tr_skip; [unfold rule_matches; simpl; rewrite Ee, andb_false_r; done|].
  apply tr_skip; [done|]. apply tr_skip; [done|].
  apply (traverse_block _ _ _ REJECT); [done|apply Forall_fmap; by apply Forall_true|].
  rewrite (existsb_rules f REJECT reject_rule), absolutely_denied_match by done. destruct (is_absolutely_denied node (f_dst f)); [done|].
  pose proof (traverse_user rs f p Hf) as Ht. destruct (user_verdict p (f_dst f)) eqn:Ev;
    try (eapply tr_jump; [by rewrite out_rule_matches|done|done|exact Ht|done]).
  eapply tr_back; [by rewrite out_rule_matches|done|done|exact Ht|apply tr_end].
Qed.

(** Packets to the resolver of the guest are let out before any other rule. *)
Lemma traverse_dns rs f dns node : outbound f → dns_flow dns f = true →
  traverse rs "filter" f (static_rules dns node) Accepted.
Proof.
  intros (_ & _ & Ee) Hd. unfold static_rules. apply tr_skip; [unfold rule_matches; simpl; by rewrite Ee, andb_false_r|].
  unfold dns_flow in Hd. destruct (rule_matches (dns_rule dns "udp") f) eqn:E1.
  - by apply (tr_stop _ _ _ (dns_rule dns "udp")).
  - apply tr_skip; [done|]. by apply (tr_stop _ _ _ (dns_rule dns "tcp")).
Qed.

(** A namespace holding the rules of a validated policy forwards the packet of
    a new connection exactly when it goes to the resolver of the guest or the
    policy allows its destination. *)
Lemma firewall_enforces dns node rs p proxy f v : namespace_ok dns node rs (user_rules p) proxy → validated p →
  outbound f →
  forwarded rs f v ↔ v = if dns_flow dns f || is_ip_allowed node p (f_dst f) then Accepted else Rejected.
Proof.
  intros [Hfw He Hu _ _] [_ Hdom] Hf.
  assert (traverse rs "filter" f forward_rules
    (if dns_flow dns f || is_ip_allowed node p (f_dst f) then Accepted else Rejected)) as Ht.
  { destruct (dns_flow dns f) eqn:Hd; cbn [orb].
    { eapply tr_jump; [by rewrite out_rule_matches|done|done|by apply traverse_dns|done]. }
    pose proof (traverse_static rs f dns node p Hf Hd Hu) as Hs. unfold is_ip_allowed.
    destruct (is_absolutely_denied node (f_dst f)).
    { eapply tr_jump; [by rewrite out_rule_matches|done|done|exact Hs|done]. }
    unfold user_verdict in Hs. destruct (existsb _ (allowed_cidrs _)).
    { eapply tr_jump; [by rewrite out_rule_matches|done|done|exact Hs|done]. }
    destruct (existsb _ (denied_cidrs _)) eqn:Edn; simpl in Hs.
    { eapply tr_jump; [by rewrite out_rule_matches|done|done|exact Hs|done]. }
    destruct (has_domain_allow_rules p).
    { assert (existsb (v4_matches (f_dst f)) (denied_cidrs (egress p)) = true) as Hx; [|congruence].
      apply existsb_exists. exists (V4 v4_all). split; [by apply list_elem_of_In, Hdom|apply ns_all]. }
    destruct (is_deny (base_policy p)); simpl.
    { eapply tr_jump; [by rewrite out_rule_matches|done|done|exact Hs|done]. }
    eapply tr_back; [by rewrite out_rule_matches|done|done|exact Hs|].
    apply (tr_stop _ _ _ (out_rule None None None None ACCEPT)); [by rewrite out_rule_matches|done]. }
  split.
  - intros (l & El & Hv). rewrite Hfw in El. injection El as <-. by eapply traverse_det.
  - intros ->. by exists forward_rules.
Qed.
End Walk.
