(* ===== verification/NetSni.v ===== *)
(** * Which host a proxied connection asks for

    Models the inspection of [src/sandbox/network/egress_proxy.rs]: the [Host]
    header of an HTTP request, and the server name of a TLS ClientHello that may
    be spread over several records.  The HTTP and TLS grammars are those of the
    [httparse] and [tls_parser] crates: the class [Grammars]. *)

From S2P Require Import Prelude Text.

Open Scope result_scope.

(** ** Text received from the guest *)

Definition REPLACEMENT : str := [239; 191; 189].

Fixpoint lossy_loop (fuel : nat) (bs : list Z) : str :=
  match fuel, bs with
  | S fuel', _ :: _ =>
      let '(valid, n) := utf8_step bs in
      (if (valid : bool) then take n bs else REPLACEMENT) ++ lossy_loop fuel' (drop n bs)
  | _, _ => []
  end.
(** [String::from_utf8_lossy] *)
Definition from_utf8_lossy (bs : list Z) : str := lossy_loop (length bs) bs.

(** The characters [char::is_whitespace] accepts, as UTF-8. *)
Definition WHITESPACE : list str :=
  [[9]; [10]; [11]; [12]; [13]; [32]; [194; 133]; [194; 160]; [225; 154; 128]; [226; 128; 128]; [226; 128; 129];
   [226; 128; 130]; [226; 128; 131]; [226; 128; 132]; [226; 128; 133]; [226; 128; 134]; [226; 128; 135];
   [226; 128; 136]; [226; 128; 137]; [226; 128; 138]; [226; 128; 168]; [226; 128; 169]; [226; 128; 175];
   [226; 129; 159]; [227; 128; 128]].

Fixpoint trim_loop (fuel : nat) (chars : list str) (s : str) : str :=
  match fuel with
  | O => s
  | S fuel' =>
      match omap (λ c, strip_prefix c s) chars with
      | s' :: _ => trim_loop fuel' chars s'
      | [] => s
      end
  end.
Definition trim (s : str) : str :=
  let s := trim_loop (length s) WHITESPACE s in
  rev (trim_loop (length s) ((λ c, rev c) <$> WHITESPACE) (rev s)).

(** [parse::<u16>().is_ok()]: digits after an optional plus sign. *)
Definition parses_u16 (s : str) : bool :=
  let digits := match s with 43 :: rest => rest | _ => s end in
  negb (is_nil digits) && forallb is_digit digits
  && (fold_left (λ v d, v * 10 + (d - 48)) digits 0 <=? 65535).

Definition normalize_host (value : list Z) : str :=
  let host := trim_end_matches 46 (trim (from_utf8_lossy value)) in
  if starts_with [91] host then []
  else
    match rsplit_once 58 host with
    | Some (h, port) =>
        if negb (existsb (Z.eqb 93) h) && parses_u16 port then to_ascii_lowercase h else to_ascii_lowercase host
    | None => to_ascii_lowercase host
    end.

(** ** Grammars *)

Inductive parsed (A : Type) : Type := Complete (a : A) | Partial | Malformed.
Arguments Complete {A} _.
Arguments Partial {A}.
Arguments Malformed {A}.

Record TlsRecord : Type := mkRecord { rec_handshake : bool; rec_data : list Z; rec_remaining : list Z }.

Inductive Extension : Type := SNI (names : list (bool * list Z)) | OtherExtension.

Class Grammars : Type := {
  parse_http_request : list Z → parsed (list (str * list Z));
  parse_tls_raw_record : list Z → parsed TlsRecord;
  (** [None]: not a ClientHello; otherwise its extensions, if it has any *)
  parse_client_hello : list Z → parsed (option (option (list Z)));
  parse_client_hello_extensions : list Z → parsed (list Extension)
}.

Section Inspect.
Context `{Grammars}.

(** [Err] is an error that closes the connection; [Ok None] asks for more bytes. *)
Definition parse_http_host (preface : list Z) : result unit (option str) :=
  match parse_http_request preface with
  | Malformed => Err tt
  | Partial => Ok None
  | Complete headers =>
      match filter (λ h, eq_ignore_ascii_case h.1 (lit "host") = true) headers with
      | [] => Ok None
      | [(_, value)] =>
          if negb (existsb (λ b, (b <? 32) || (b =? 127) || (b =? 32)) value)
          then Ok (Some (normalize_host value)) else Ok (Some [])
      | _ => Ok (Some [])
      end
  end.

(** The first host name of the first server-name extension that has one. *)
Fixpoint sni_of_extensions (extensions : list Extension) : str :=
  match extensions with
  | [] => []
  | SNI ((true, name) :: _) :: _ => to_ascii_lowercase (from_utf8_lossy name)
  | _ :: rest => sni_of_extensions rest
  end.

Definition sni_of_client_hello (message : list Z) : result unit (option str) :=
  match parse_client_hello message with
  | Complete None => Ok (Some [])
  | Complete (Some None) => Ok (Some [])
  | Complete (Some (Some extensions)) =>
      match parse_client_hello_extensions extensions with
      | Complete extensions => Ok (Some (sni_of_extensions extensions))
      | _ => Err tt
      end
  | _ => Err tt
  end.

(** The loop over the handshake messages buffered so far: a result, or the
    offset of the first message that is not complete yet. *)
Inductive scan : Type := Found (r : result unit (option str)) | Pending (handshake_offset : Z).

Definition be24 (a b c : Z) : Z := a * 2 ^ 16 + b * 2 ^ 8 + c.

Fixpoint scan_messages (fuel : nat) (handshake : list Z) (handshake_offset : Z) : scan :=
  match fuel with
  | O => Pending handshake_offset
  | S fuel' =>
      match zdrop handshake_offset handshake with
      | ty :: a :: b :: c :: _ =>
          let message_size := 4 + be24 a b c in
          if zlen handshake - handshake_offset <? message_size then Pending handshake_offset
          else
            let message := slice handshake_offset message_size handshake in
            let handshake_offset := handshake_offset + message_size in
            if negb (ty =? 1) then scan_messages fuel' handshake handshake_offset
            else Found (sni_of_client_hello (zdrop 4 message))
      | _ => Pending handshake_offset
      end
  end.

Fixpoint sni_loop (fuel : nat) (records handshake : list Z) (handshake_offset : Z) : result unit (option str) :=
  match fuel with
  | O => Ok None
  | S fuel' =>
      match parse_tls_raw_record records with
      | Partial => Ok None
      | Malformed => Err tt
      | Complete record =>
          let records := rec_remaining record in
          let continue handshake handshake_offset :=
            if is_nil records then Ok None else sni_loop fuel' records handshake handshake_offset in
          if rec_handshake record then
            let handshake := handshake ++ rec_data record in
            match scan_messages (S (length handshake)) handshake handshake_offset with
            | Found r => r
            | Pending handshake_offset => continue handshake handshake_offset
            end
          else continue handshake handshake_offset
      end
  end.

Definition parse_tls_sni (preface : list Z) : result unit (option str) :=
  match preface with
  | 22 :: _ => sni_loop (S (length preface)) preface [] 0
  | _ => Ok None
  end.

Definition parse_protocol_host (preface : list Z) (original_port : Z) : result unit (option str) :=
  if (original_port =? 443) || bool_decide (head preface = Some 22) then parse_tls_sni preface
  else parse_http_host preface.
End Inspect.

(** ** Record boundaries do not matter *)

Section Records.
Context `{Grammars}.

(** Documented form of a TLS record: type, version, length, payload. *)
Definition encode_record (data : list Z) : list Z :=
  [22; 3; 1; zlen data / 2 ^ 8; zlen data mod 2 ^ 8] ++ data.
Definition MAX_FRAGMENT : Z := 2 ^ 14.

(** [tls_parser] reads back a whole record of a size TLS allows. *)
Context (Hrecord : ∀ data rest, 0 < zlen data ≤ MAX_FRAGMENT →
  parse_tls_raw_record (encode_record data ++ rest) = Complete (mkRecord true data rest)).

(** The messages of a complete handshake stream. *)
Definition sni_of_stream (handshake : list Z) : result unit (option str) :=
  match scan_messages (S (length handshake)) handshake 0 with Found r => r | Pending _ => Ok None end.

Definition bytes_ok (l : list Z) : Prop := Forall (λ b, 0 ≤ b) l.

Lemma be24_nonneg a b c : 0 ≤ a → 0 ≤ b → 0 ≤ c → 0 ≤ be24 a b c.
Proof. unfold be24. lia. Qed.

Lemma zdrop_past {A} (l : list A) n : zlen l ≤ n → zdrop n l = [].
Proof. unfold zdrop, zlen. intros. apply drop_ge. lia. Qed.

Lemma zdrop_app {A} (l m : list A) n : n ≤ zlen l → zdrop n (l ++ m) = zdrop n l ++ m.
Proof. unfold zdrop, zlen. intros. apply drop_app_le. lia. Qed.

(** Enough fuel is as good as any other. *)
Lemma scan_fuel f1 : ∀ f2 hs off, bytes_ok hs → 0 ≤ off →
  zlen hs - off < Z.of_nat f1 → zlen hs - off < Z.of_nat f2 →
  scan_messages f1 hs off = scan_messages f2 hs off.
Proof.
  induction f1 as [|f1 IH]; intros [|f2] hs off Hb Ho H1 H2; [done|..].
  - simpl. by rewrite zdrop_past by lia.
  - simpl. by rewrite zdrop_past by lia.
  - cbn [scan_messages]. destruct (zdrop off hs) as [|ty [|a [|b [|c rest]]]] eqn:E; try done.
    destruct (_ <? _); [done|]. destruct (negb _); [|done].
    assert (0 ≤ be24 a b c).
    { assert (bytes_ok (zdrop off hs)) as Hd by (by apply Forall_drop). rewrite E in Hd.
      repeat (apply Forall_cons in Hd as [? Hd]). by apply be24_nonneg. }
    apply IH; [done|lia..].
Qed.

(** Bytes that arrive later do not change what the bytes so far decide, and the
    scan goes on from where it stopped. *)
Lemma scan_messages_app more : ∀ fuel hs off, bytes_ok (hs ++ more) → 0 ≤ off → zlen hs - off < Z.of_nat fuel →
  match scan_messages fuel hs off with
  | Found r => ∀ f2, zlen (hs ++ more) - off < Z.of_nat f2 → scan_messages f2 (hs ++ more) off = Found r
  | Pending off' => off ≤ off' ∧ ∀ f2 f3, zlen (hs ++ more) - off < Z.of_nat f2 →
      zlen (hs ++ more) - off' < Z.of_nat f3 →
      scan_messages f2 (hs ++ more) off = scan_messages f3 (hs ++ more) off'
  end.
Proof.
  induction fuel as [|fuel IH]; intros hs off Hb Ho Hf; cbn [scan_messages].
  { split; [lia|]. intros. by apply scan_fuel. }
  destruct (zdrop off hs) as [|ty [|a [|b [|c rest]]]] eqn:E; try (split; [lia|]; intros; by apply scan_fuel).
  assert (off ≤ zlen hs) as Hoff.
  { destruct (Z.le_gt_cases off (zlen hs)); [done|]. by rewrite zdrop_past in E by lia. }
  assert (0 ≤ be24 a b c) as Hn.
  { assert (bytes_ok (zdrop off hs)) as Hd by (apply Forall_app in Hb as [Hb _]; by apply Forall_drop).
    rewrite E in Hd. repeat (apply Forall_cons in Hd as [? Hd]). by apply be24_nonneg. }
  set (size := 4 + be24 a b c). destruct (Z.ltb_spec (zlen hs - off) size) as [Hlt|Hge];
    [split; [lia|]; intros; by apply scan_fuel|].
  pose proof (zlen_nonneg more) as Hmore.
  assert (∀ f2, scan_messages (S f2) (hs ++ more) off
    = if negb (ty =? 1) then scan_messages f2 (hs ++ more) (off + size)
      else Found (sni_of_client_hello (zdrop 4 (slice off size hs)))) as Estep.
  { intros f2. cbn [scan_messages]. rewrite zdrop_app, E by done. cbn [app]. fold size.
    rewrite (proj2 (Z.ltb_ge _ _)) by (rewrite zlen_app; lia).
    assert (slice off size (hs ++ more) = slice off size hs) as ->; [|done].
    unfold slice. rewrite zdrop_app by done. unfold ztake. rewrite take_app_le; [done|].
    unfold zdrop, zlen in *. rewrite length_drop. lia. }
  destruct (negb (ty =? 1)) eqn:Ety.
  - specialize (IH hs (off + size) Hb ltac:(lia) ltac:(lia)).
    destruct (scan_messages fuel hs (off + size)) as [r|off'].
    + intros [|f2] Hf2; [rewrite zlen_app in Hf2; lia|]. rewrite Estep. apply IH. lia.
    + destruct IH as [Hle IH]. split; [lia|]. intros [|f2] f3 Hf2 Hf3; [rewrite zlen_app in Hf2; lia|].
      rewrite Estep. apply IH; lia.
  - intros [|f2] Hf2; [rewrite zlen_app in Hf2; lia|]. by rewrite Estep.
Qed.

Definition fragment_ok (data : list Z) : Prop := 0 < zlen data ≤ MAX_FRAGMENT ∧ bytes_ok data.
Definition records_of (frags : list (list Z)) : list Z := mjoin (encode_record <$> frags).

(** Scanning from [off] is scanning from the start, whatever follows. *)
Definition resumes (hs : list Z) (off : Z) : Prop :=
  0 ≤ off ∧ ∀ more f2 f3, bytes_ok (hs ++ more) → zlen (hs ++ more) < Z.of_nat f2 →
    zlen (hs ++ more) - off < Z.of_nat f3 → scan_messages f2 (hs ++ more) 0 = scan_messages f3 (hs ++ more) off.

Lemma bytes_ok_join frags : Forall fragment_ok frags → bytes_ok (mjoin frags).
Proof. induction 1 as [|d frags [_ Hd] _ IH]; [constructor|]. by apply Forall_app. Qed.

Lemma sni_loop_records frags : ∀ fuel hs off, frags ≠ [] → (length frags ≤ fuel)%nat →
  Forall fragment_ok frags → bytes_ok hs → resumes hs off →
  sni_loop fuel (records_of frags) hs off = sni_of_stream (hs ++ mjoin frags).
Proof.
  induction frags as [|d frags IH]; intros fuel hs off Hne Hf Hfr Hb [Ho Hres]; [done|].
  destruct fuel as [|fuel]; [simpl in Hf; lia|]. apply Forall_cons in Hfr as [[Hd Hdb] Hfr].
  pose proof (bytes_ok_join frags Hfr) as Hrest. cbn [sni_loop].
  change (records_of (d :: frags)) with (encode_record d ++ records_of frags). rewrite Hrecord by done.
  cbn [rec_remaining rec_handshake rec_data]. change (mjoin (d :: frags)) with (d ++ mjoin frags). rewrite app_assoc.
  assert (bytes_ok (hs ++ d)) as Hbd by (by apply Forall_app).
  pose proof (scan_messages_app (mjoin frags) (S (length (hs ++ d))) (hs ++ d) off) as Hscan.
  destruct (scan_messages _ (hs ++ d) off) as [r|off'] eqn:Es.
  - unfold sni_of_stream. rewrite <- app_assoc in *. rewrite (Hres (d ++ mjoin frags) _ (S (length (hs ++ d ++ mjoin frags)))).
    + rewrite Hscan; [done|by rewrite app_assoc; apply Forall_app|done|unfold zlen; lia|unfold zlen; lia].
    + by rewrite app_assoc; apply Forall_app.
    + unfold zlen; lia.
    + unfold zlen; lia.
  - destruct Hscan as [Hle Hscan]; [by apply Forall_app|done|unfold zlen; lia|].
    assert (resumes (hs ++ d) off') as Hres'.
    { split; [lia|]. intros more f2 f3 Hbm Hf2 Hf3. rewrite <- app_assoc in *.
      rewrite (Hres (d ++ more) f2 f2) by (done || lia).
      pose proof (scan_messages_app more (S (length (hs ++ d))) (hs ++ d) off) as Hs2. rewrite Es in Hs2.
      rewrite <- app_assoc in Hs2. apply Hs2; [done|done|unfold zlen; lia|lia|lia]. }
    destruct frags as [|d' frags].
    + cbn. unfold sni_of_stream. rewrite app_nil_r in *. specialize (Hres d). 
      rewrite (Hres _ (S (length (hs ++ d)))); [by rewrite Es|done|unfold zlen; lia|unfold zlen; lia].
    + assert (is_nil (records_of (d' :: frags)) = false) as -> by done.
      apply IH; [done|simpl in *; lia|done|done|done].
Qed.

(** the server name found does not depend on how the handshake was cut
    into records: it is the one of the handshake bytes as a whole. *)
Theorem sni_ignores_record_boundaries frags : Forall fragment_ok frags →
  parse_tls_sni (records_of frags) = sni_of_stream (mjoin frags).
Proof.
  intros Hf. destruct frags as [|d frags]; [done|].
  assert (∃ rest, records_of (d :: frags) = 22 :: rest) as [rest E] by (by eexists). unfold parse_tls_sni.
  rewrite E, <- E. apply (sni_loop_records (d :: frags)); [done| |done|constructor|].
  - assert (∀ l, (length l ≤ length (records_of l))%nat) as Hl; [|specialize (Hl (d :: frags)); lia].
    induction l as [|x l IH]; [done|]. change (records_of (x :: l)) with (encode_record x ++ records_of l).
    rewrite length_app. unfold encode_record. simpl. lia.
  - split; [lia|]. intros more f2 f3 Hb H2 H3. apply scan_fuel; [done|lia..].
Qed.
End Records.

(** ** An example grammar: records and ClientHellos without extensions but a name *)

Definition ex_grammars : Grammars := {|
  parse_http_request := λ _, Partial;
  parse_tls_raw_record := λ bs,
    match bs with
    | _ :: _ :: _ :: hi :: lo :: rest =>
        let n := hi * 2 ^ 8 + lo in
        if zlen rest <? n then Partial else Complete (mkRecord true (ztake n rest) (zdrop n rest))
    | _ => Partial
    end;
  parse_client_hello := λ bs, Complete (Some (Some bs));
  parse_client_hello_extensions := λ bs, Complete [SNI [(true, bs)]]
|}.

Lemma ex_grammars_record data rest : 0 < zlen data ≤ MAX_FRAGMENT →
  @parse_tls_raw_record ex_grammars (encode_record data ++ rest) = Complete (mkRecord true data rest).
Proof.
  intros Hd. unfold encode_record, parse_tls_raw_record, ex_grammars. cbn [app].
  pose proof (Z.div_mod (zlen data) (2 ^ 8) ltac:(lia)) as E.
  replace (zlen data / 2 ^ 8 * 2 ^ 8 + zlen data mod 2 ^ 8) with (zlen data) by lia.
  rewrite zlen_app. pose proof (zlen_nonneg rest). rewrite (proj2 (Z.ltb_ge _ _)) by lia.
  unfold ztake, zdrop, zlen. by rewrite Nat2Z.id, take_app_length, drop_app_length.
Qed.

Lemma sni_ignores_record_boundaries_witness :
  @parse_tls_sni ex_grammars (records_of [[2; 0; 0]; [1; 9; 1; 0]; [0; 3; 65; 46; 66]])
  = Ok (Some (lit "a.b")).
Proof.
  rewrite (@sni_ignores_record_boundaries ex_grammars ex_grammars_record);
    [|repeat constructor; try (cbn; unfold MAX_FRAGMENT; lia); done].
  by vm_compute.
Defined.
