(* ===== verification/NetSlot.v ===== *)
(** * Network slots and the egress proxy

    Models [Slot::set_egress_policy] of [src/sandbox/network/slot.rs], the
    policy table of [EgressProxy] and the decision it takes on a connection
    ([egress_proxy.rs]).  A slot outlives its tenants: the warm pool hands the
    same namespace to the next sandbox.  Threads, sockets and the running relays
    are not part of the state.  [restore] stands for one run of
    [iptables-restore]: the rules it leaves and whether it succeeded.  It commits
    one table after the other, so a run that fails can leave the first of the two
    tables of a policy replaced. *)

From stdpp Require Import gmap.
From S2P Require Import Prelude Text NetPolicy NetFilter NetSni.

Open Scope result_scope.

Definition EGRESS_PROXY_PORT : Z := 15000.
Definition MAX_PREFACE_BYTES : Z := 64 * 1024.

Section Slot.
Context `{NetOps}.

(** ** The proxy's policies, by host interaction address *)

Record EgressProxy : Type := mkProxy {
  active : gmap Z SandboxNetworkPolicy;
  pending : gmap Z SandboxNetworkPolicy;
  listeners : gset Z
}.

Definition has_active (x : EgressProxy) (host : Z) : bool :=
  match active x !! host with Some _ => true | None => false end.
Definition active_policy (x : EgressProxy) (host : Z) : option SandboxNetworkPolicy := active x !! host.

(** [started]: whether the listener thread came up. *)
Definition ensure_listener (started : bool) (x : EgressProxy) (host : Z) : option EgressProxy :=
  if decide (host ∈ listeners x) then Some x
  else if started then Some (mkProxy (active x) (pending x) ({[host]} ∪ listeners x)) else None.
Definition prepare (x : EgressProxy) (host : Z) (p : SandboxNetworkPolicy) : EgressProxy :=
  mkProxy (active x) (<[host := p]> (pending x)) (listeners x).
Definition activate (x : EgressProxy) (host : Z) : EgressProxy :=
  match pending x !! host with
  | Some p => mkProxy (<[host := p]> (active x)) (delete host (pending x)) (listeners x)
  | None => x
  end.
Definition discard_pending (x : EgressProxy) (host : Z) : EgressProxy :=
  mkProxy (active x) (delete host (pending x)) (listeners x).
Definition stop_listener (x : EgressProxy) (host : Z) : EgressProxy :=
  mkProxy (active x) (pending x) (listeners x ∖ {[host]}).
Definition deactivate (x : EgressProxy) (host : Z) : EgressProxy :=
  stop_listener (mkProxy (delete host (active x)) (delete host (pending x)) (listeners x)) host.
(** Its connections are closed as well. *)
Definition teardown (x : EgressProxy) (host : Z) : EgressProxy := deactivate x host.

(** ** A slot *)

Inductive slot_error : Type := ListenerFailed | RestoreFailed.

(** The slot, the proxy of the process and the rules of the slot's namespace. *)
Record slot_state : Type := mkSlot {
  host_interaction_ip : Z;
  user_egress_rules_present : bool;
  sl_proxy : EgressProxy;
  sl_rules : ruleset
}.

Definition with_proxy (s : slot_state) (x : EgressProxy) : slot_state :=
  mkSlot (host_interaction_ip s) (user_egress_rules_present s) x (sl_rules s).

Definition set_egress_policy (started : bool)
  (restore : list IptablesRestoreCommand → ruleset → ruleset * bool)
  (policy : option SandboxNetworkPolicy) (s : slot_state) : slot_state * result slot_error unit :=
  let host := host_interaction_ip s in
  let wants_rules := some_and has_runtime_egress_rules policy in
  if negb wants_rules && negb (user_egress_rules_present s) then (s, Ok tt)
  else
    let requires := some_and requires_egress_proxy policy in
    let had_active := has_active (sl_proxy s) host in
    let staged :=
      if requires then
        match ensure_listener started (sl_proxy s) host with
        | None => None
        | Some x =>
            let x := prepare x host (default default_policy policy) in
            Some (if negb had_active then activate x host else x)
        end
      else Some (sl_proxy s) in
    match staged with
    | None => (s, Err ListenerFailed)
    | Some x =>
        let '(rules, ok) := restore (namespace_egress_policy_commands policy EGRESS_PROXY_PORT) (sl_rules s) in
        if (ok : bool) then
          let x := if requires && had_active then activate x host
                   else if negb requires then deactivate x host else x in
          (mkSlot host wants_rules x rules, Ok tt)
        else
          let x := if requires then (if had_active then discard_pending x host else teardown x host) else x in
          (mkSlot host (user_egress_rules_present s) x rules, Err RestoreFailed)
    end.

(** ** One connection through the proxy *)

Inductive UpstreamDecision : Type := Forward (upstreams : list (Z * Z)) | Deny | Unavailable.

Context `{Grammars} (node : platform).

(** The resolver answers with IPv4 socket addresses, or not at all; other
    address families are dropped by the filter below. *)
Definition resolve_trusted_upstream (p : SandboxNetworkPolicy) (resolve : str → Z → option (list (Z * Z)))
  (hostname : str) (port : Z) : option (list (Z * Z)) :=
  match resolve hostname port with
  | None => None
  | Some addresses =>
      let addresses := filter (λ a, is_domain_allowed node p hostname (Some a.1) = true) addresses in
      if is_nil addresses then None else Some addresses
  end.

Definition select_upstream (p : SandboxNetworkPolicy) (resolve : str → Z → option (list (Z * Z)))
  (hostname : str) (original : Z * Z) : UpstreamDecision :=
  if is_ip_allowed node p original.1 then Forward [original]
  else if has_domain_allow_rules p then
    if is_nil hostname then Deny
    else if negb (is_domain_allowed node p hostname None) then Deny
    else match resolve_trusted_upstream p resolve hostname original.2 with
         | Some upstreams => Forward upstreams
         | None => Unavailable
         end
  else Deny.

(** Reading the preface: [reads] are the chunks the guest sends before it stops
    or the deadline passes. *)
Fixpoint read_hostname (reads : list (list Z)) (preface : list Z) (port : Z) : option str :=
  match parse_protocol_host preface port with
  | Ok (Some host) => Some host
  | Ok None =>
      if MAX_PREFACE_BYTES <=? zlen preface then None
      else match reads with
           | [] | [] :: _ => None
           | chunk :: rest => read_hostname rest (preface ++ chunk) port
           end
  | Err _ => None
  end.

(** [handle_connection] up to the relay: the address it connects to, if any.
    [connects a] says whether dialling [a] succeeds. *)
Definition handle_connection (x : EgressProxy) (host : Z) (original : Z * Z) (reads : list (list Z))
  (resolve : str → Z → option (list (Z * Z))) (connects : Z * Z → bool) : option (Z * Z) :=
  match active_policy x host with
  | None => None
  | Some p =>
      let upstreams :=
        if is_ip_allowed node p original.1 then Some [original]
        else
          match read_hostname reads [] original.2 with
          | None => None
          | Some hostname =>
              match select_upstream p resolve hostname original with
              | Forward upstreams => Some upstreams
              | Deny | Unavailable => None
              end
          end in
      match upstreams with
      | Some upstreams => head (filter (λ a, connects a = true) upstreams)
      | None => None
      end
  end.
End Slot.

(** ** The policy in force *)

Section Force.
Context `{NetSpec} `{Grammars} (guest_dns_ip : str) (node : platform).

(** [q] is the policy of the last change that succeeded, and [tried] are those
    of the changes since whose batch failed.  Each of the two chains holds the
    rules of one of these; the flag is that of [q], and the proxy knows [q]
    exactly when it mediates. *)
Record in_force (s : slot_state) (q : SandboxNetworkPolicy) (tried : list SandboxNetworkPolicy) : Prop := {
  if_chains : ∃ p1 p2, p1 ∈ q :: tried ∧ p2 ∈ q :: tried
    ∧ namespace_ok guest_dns_ip node (sl_rules s) (user_rules p1) (proxy_rules p2 EGRESS_PROXY_PORT);
  if_valid : Forall validated (q :: tried);
  if_flag : user_egress_rules_present s = has_runtime_egress_rules q;
  if_active : active (sl_proxy s) !! host_interaction_ip s = if requires_egress_proxy q then Some q else None;
  if_pending : pending (sl_proxy s) !! host_interaction_ip s = None;
  if_listener : requires_egress_proxy q = true → host_interaction_ip s ∈ listeners (sl_proxy s)
}.

(** A run of [iptables-restore] commits the tables of the batch one by one. *)
Definition restore_spec (restore : list IptablesRestoreCommand → ruleset → ruleset * bool) : Prop :=
  ∀ cs rs, restores cs rs (restore cs rs).1 (restore cs rs).2.

(** The policies of failed batches after a change: a batch that succeeds
    replaces both chains; a change that needs no batch touches none. *)
Definition next_tried (s : slot_state) (p : SandboxNetworkPolicy) (r : result slot_error unit)
  (tried : list SandboxNetworkPolicy) : list SandboxNetworkPolicy :=
  match r with
  | Ok _ => if has_runtime_egress_rules p || user_egress_rules_present s then [] else tried
  | Err RestoreFailed => p :: tried
  | Err ListenerFailed => tried
  end.

Lemma no_rules q : has_runtime_egress_rules q = false →
  user_rules q = [] ∧ proxy_rules q EGRESS_PROXY_PORT = [] ∧ requires_egress_proxy q = false.
Proof.
  destruct q as [pub base [ac ad dc]]. unfold has_runtime_egress_rules, has_explicit_egress_rules, has_explicit_rules,
    user_rules, proxy_rules, requires_egress_proxy, egress_proxy_tcp_ports, has_domain_allow_rules. simpl.
  by destruct (is_deny base), ac, ad, dc.
Qed.

Lemma proxy_needs_rules q : requires_egress_proxy q = true → has_runtime_egress_rules q = true.
Proof.
  intros E. destruct (has_runtime_egress_rules q) eqn:Er; [done|]. apply no_rules in Er as (_ & _ & ?). congruence.
Qed.

(** The proxy's table after each of the ways a policy change can end. *)
Ltac proxy_maps := unfold prepare, activate, discard_pending, teardown, deactivate, stop_listener; simpl;
  rewrite ?lookup_insert_eq; simpl; rewrite ?lookup_insert_eq, ?lookup_delete_eq; try done.

Lemma ensure_listener_spec started x host x' : ensure_listener started x host = Some x' →
  active x' = active x ∧ pending x' = pending x ∧ host ∈ listeners x'.
Proof.
  unfold ensure_listener. destruct (decide (host ∈ listeners x)); [by intros [= <-]|].
  destruct started; [|done]. intros [= <-]. simpl. split_and!; [done|done|set_solver].
Qed.

(** The rules a run leaves. *)
Lemma batch_force s q tried policy rs' ok : restores (namespace_egress_policy_commands policy EGRESS_PROXY_PORT) (sl_rules s) rs' ok →
  (∃ p1 p2, p1 ∈ q :: tried ∧ p2 ∈ q :: tried
    ∧ namespace_ok guest_dns_ip node (sl_rules s) (user_rules p1) (proxy_rules p2 EGRESS_PROXY_PORT)) →
  let p := default default_policy policy in
  ∃ p1 p2, p1 ∈ (if ok then [p] else q :: p :: tried) ∧ p2 ∈ (if ok then [p] else q :: p :: tried)
    ∧ namespace_ok guest_dns_ip node rs' (user_rules p1) (proxy_rules p2 EGRESS_PROXY_PORT).
Proof.
  intros Hr (p1 & p2 & Hi1 & Hi2 & [Hf He Hu (rest & Hn & Hrest) Hp]) p.
  assert (∀ x, x ∈ q :: tried → x ∈ q :: p :: tried) as Hsub by set_solver.
  destruct (policy_restores _ _ _ _ _ _ _ Hu Hp Hr) as [->|[-> [->| ->]]]; fold p.
  - exists p, p. split_and!; [destruct ok; set_solver..|]. constructor; [| | |exists rest; split; [|done]|];
      repeat first [by rewrite lookup_insert_eq | rewrite lookup_insert_ne by discriminate]; done.
  - exists p1, p2. split_and!; [by apply Hsub..|]. constructor; [done..|by exists rest|done].
  - exists p, p2. split_and!; [set_solver|by apply Hsub|]. constructor; [| | |exists rest; split; [|done]|];
      repeat first [by rewrite lookup_insert_eq | rewrite lookup_insert_ne by discriminate]; done.
Qed.

Lemma set_policy_force started restore policy s s' r q tried : restore_spec restore → in_force s q tried →
  let p := default default_policy policy in
  validated p → set_egress_policy started restore policy s = (s', r) →
  in_force s' (if is_ok r then p else q) (next_tried s p r tried)
  ∧ host_interaction_ip s' = host_interaction_ip s.
Proof.
  intros Hr [Hc Hv Hfl Ha Hp Hl] p Hv' E. unfold set_egress_policy in E. fold p in E.
  assert (some_and has_runtime_egress_rules policy = has_runtime_egress_rules p) as Ew by by destruct policy.
  assert (some_and requires_egress_proxy policy = requires_egress_proxy p) as Eq by by destruct policy.
  assert (has_active (sl_proxy s) (host_interaction_ip s) = requires_egress_proxy q) as Eh.
  { unfold has_active. rewrite Ha. by destruct (requires_egress_proxy q). }
  rewrite Ew, Eq, Eh in E. pose proof Hv as [Hvq Hvt]%Forall_cons.
  destruct (negb (has_runtime_egress_rules p) && negb (user_egress_rules_present s)) eqn:Eskip.
  { injection E as <- <-. apply andb_true_iff in Eskip as [K1%negb_true_iff K2%negb_true_iff]. split; [|done].
    unfold next_tried. rewrite K1, K2. cbn [orb is_ok]. rewrite Hfl in K2.
    destruct (no_rules p K1) as (E1 & E2 & E3), (no_rules q K2) as (E4 & E5 & E6).
    constructor; [|by apply List.Forall_cons|congruence|by rewrite Ha, E3, E6|done|congruence].
    destruct Hc as (p1 & p2 & [->|Hi1]%elem_of_cons & [->|Hi2]%elem_of_cons & Hc); rewrite ?E4, ?E5 in Hc.
    - exists p, p. rewrite E1, E2. split_and!; [set_solver..|done].
    - exists p, p2. rewrite E1. split_and!; [set_solver..|done].
    - exists p1, p. rewrite E2. split_and!; [set_solver..|done].
    - exists p1, p2. split_and!; [set_solver..|done]. }
  assert (has_runtime_egress_rules p || user_egress_rules_present s = true) as Ebatch.
  { by destruct (has_runtime_egress_rules p), (user_egress_rules_present s). }
  pose proof (batch_force s q tried policy _ _ (Hr (namespace_egress_policy_commands policy EGRESS_PROXY_PORT) (sl_rules s)) Hc) as Hc'.
  fold p in Hc'. unfold next_tried.
  destruct (requires_egress_proxy p) eqn:Erp.
  - destruct (ensure_listener started (sl_proxy s) (host_interaction_ip s)) as [x|] eqn:El; cbn iota beta in E;
      [|by injection E as <- <-].
    destruct (ensure_listener_spec _ _ _ _ El) as (Ea & Ep & Hin).
    destruct (requires_egress_proxy q) eqn:Erq; cbn [negb] in E; destruct (restore _ _) as [rs2 [|]];
      cbn [andb negb] in E; injection E as <- <-; (split; [|done]); cbn [is_ok]; rewrite ?Ebatch; cbn [fst snd] in Hc';
      (constructor; cbn [sl_rules user_egress_rules_present sl_proxy host_interaction_ip];
       [exact Hc'|by eauto using List.Forall_cons, List.Forall_nil|try congruence|proxy_maps..]).
    all: rewrite ?Ea, ?Ha, ?Erp, ?Erq; done || congruence.
  - destruct (restore _ _) as [rs2 [|]]; cbn [andb negb] in E; injection E as <- <-; (split; [|done]); cbn [is_ok];
      rewrite ?Ebatch; cbn [fst snd] in Hc';
      (constructor; cbn [sl_rules user_egress_rules_present sl_proxy host_interaction_ip];
       [exact Hc'|by eauto using List.Forall_cons, List.Forall_nil|try congruence|proxy_maps..]).
    all: rewrite ?Ha, ?Hp, ?Erp; done || congruence.
Qed.

(** ** Histories of a slot *)

(** A slot whose namespace has just been set up. *)
Definition fresh_slot (s : slot_state) : Prop :=
  namespace_ok guest_dns_ip node (sl_rules s) [] [] ∧ user_egress_rules_present s = false
  ∧ active (sl_proxy s) !! host_interaction_ip s = None ∧ pending (sl_proxy s) !! host_interaction_ip s = None.

(** The same policies and listener for this slot, whatever the others do. *)
Definition same_for (host : Z) (x x' : EgressProxy) : Prop :=
  active x' !! host = active x !! host ∧ pending x' !! host = pending x !! host
  ∧ (host ∈ listeners x' ↔ host ∈ listeners x).

(** Tenants come and go and change their policy; a change may fail; the other
    slots of the process use the same proxy.  The indices are the policy of the
    last change that succeeded and those of the batches that failed since the
    chains were last replaced. *)
Inductive slot_history (s0 : slot_state) : slot_state → SandboxNetworkPolicy → list SandboxNetworkPolicy → Prop :=
| sh_start : slot_history s0 s0 default_policy []
| sh_set s q tried started restore policy s' r : slot_history s0 s q tried → restore_spec restore →
    validated (default default_policy policy) → set_egress_policy started restore policy s = (s', r) →
    slot_history s0 s' (if is_ok r then default default_policy policy else q)
      (next_tried s (default default_policy policy) r tried)
| sh_others s q tried x : slot_history s0 s q tried → same_for (host_interaction_ip s) (sl_proxy s) x →
    slot_history s0 (with_proxy s x) q tried.

Lemma history_in_force s0 s q tried : fresh_slot s0 → slot_history s0 s q tried → in_force s q tried.
Proof.
  intros (Hc & Hfl & Ha & Hp).
  induction 1 as [|s q tried started restore policy s' r _ IH Hr Hv E|s q tried x _ IH (E1 & E2 & E3)].
  - constructor; [|by eauto using List.Forall_cons, List.Forall_nil, default_validated|done|done|done|done].
    exists default_policy, default_policy. split_and!; [set_solver..|done].
  - by eapply set_policy_force.
  - destruct IH as [I1 I2 I3 I4 I5 I6]. constructor; cbn; [done..|congruence|congruence|].
    intros Hq. by apply E3, I6.
Qed.

(** What the address translation of the namespace does with a packet. *)
Definition prerouted (rs : ruleset) (f : flow) (v : verdict) : Prop :=
  ∃ l, rs !! ("nat"%string, "PREROUTING"%string) = Some l ∧ traverse rs "nat" f l v.

Definition mediated (q : SandboxNetworkPolicy) (f : flow) : bool :=
  bool_decide (f_proto f = "tcp"%string) && existsb (λ p, p =? f_dport f) (egress_proxy_tcp_ports q).

Lemma traverse_nothing rs table f rest : f_in f = "tap0"%string → Forall (λ r, r_in r = Some "vpeer"%string) rest →
  traverse rs table f rest Returned.
Proof.
  intros Ef. induction 1 as [|r rest Er _ IH]; [apply tr_end|]. apply tr_skip; [|done].
  unfold rule_matches. by rewrite Er, Ef.
Qed.

Lemma redirects rs dns user q f v : namespace_ok dns node rs user (proxy_rules q EGRESS_PROXY_PORT) →
  f_in f = "tap0"%string →
  prerouted rs f v ↔ v = if mediated q f then Redirected EGRESS_PROXY_PORT else Returned.
Proof.
  intros [_ _ _ (rest & Hn & Hrest) Hx] Hf.
  assert (traverse rs "nat" f (proxy_rules q EGRESS_PROXY_PORT)
    (if mediated q f then Redirected EGRESS_PROXY_PORT else Returned)) as Hp.
  { rewrite <- (app_nil_r (proxy_rules q EGRESS_PROXY_PORT)).
    apply (traverse_block _ _ _ (REDIRECT EGRESS_PROXY_PORT)); [done|apply Forall_fmap; by apply Forall_true|].
    assert (existsb (λ r, rule_matches r f) (proxy_rules q EGRESS_PROXY_PORT) = mediated q f) as ->.
    { unfold proxy_rules, mediated. induction (egress_proxy_tcp_ports q) as [|p ps IH]; [by rewrite andb_false_r|].
      rewrite fmap_cons. simpl existsb. rewrite IH. unfold rule_matches, redirect_rule. simpl.
      rewrite Hf, bool_decide_true by done. rewrite (bool_decide_ext _ (f_proto f = "tcp"%string)) by (split; congruence).
      by destruct (bool_decide _), (p =? f_dport f). }
    destruct (mediated q f); [done|apply tr_end]. }
  assert (∀ r, r_in r = Some "tap0"%string → r = mkRule (Some "tap0"%string) None None None None None None (JUMP EGRESS_PROXY_CHAIN) →
    rule_matches r f = true) as Hm by (intros r _ ->; unfold rule_matches; simpl; by rewrite Hf).
  assert (traverse rs "nat" f (mkRule (Some "tap0"%string) None None None None None None (JUMP EGRESS_PROXY_CHAIN) :: rest)
    (if mediated q f then Redirected EGRESS_PROXY_PORT else Returned)) as Ht.
  { destruct (mediated q f).
    - eapply tr_jump; [by apply Hm|done|done|exact Hp|done].
    - eapply tr_back; [by apply Hm|done|done|exact Hp|by apply traverse_nothing]. }
  split.
  - intros (l & El & Hv). rewrite Hn in El. injection El as <-. by eapply traverse_det.
  - intros ->. by eexists.
Qed.

(** C19: however often a slot changed hands and policy, its namespace lets a
    new connection out exactly when it goes to the guest's resolver (port 53 of
    its address) or to a destination that the policy in the user chain allows;
    connections to be inspected go to the proxy exactly when the policy in the
    redirect chain asks for it; and the proxy holds the policy of the last
    change that succeeded.  Both chains hold that same policy when no batch has
    failed since they were last replaced, which every successful change with
    rules does; otherwise each holds it or the policy of one of the failed
    batches, since [iptables-restore] commits table by table. *)
Theorem slot_enforces_latest_policy s0 s q tried f : fresh_slot s0 → slot_history s0 s q tried → outbound f →
  (∃ p1 p2, p1 ∈ q :: tried ∧ p2 ∈ q :: tried
     ∧ (∀ v, forwarded (sl_rules s) f v ↔
          v = if dns_flow guest_dns_ip f || is_ip_allowed node p1 (f_dst f) then Accepted else Rejected)
     ∧ ∀ v, prerouted (sl_rules s) f v ↔ v = if mediated p2 f then Redirected EGRESS_PROXY_PORT else Returned)
  ∧ active_policy (sl_proxy s) (host_interaction_ip s) = if requires_egress_proxy q then Some q else None.
Proof.
  intros Hf Hh Ho. destruct (history_in_force s0 s q tried Hf Hh) as [(p1 & p2 & Hi1 & Hi2 & Hc) Hv _ Ha _ _]. split; [|done].
  exists p1, p2. split_and!; [done|done|..].
  - intros v. rewrite Forall_forall in Hv. eapply firewall_enforces; [exact Hc|by apply Hv|done].
  - intros v. eapply redirects; [exact Hc|apply Ho].
Qed.
End Force.

Section Connections.
Context `{NetOps} `{Grammars} (node : platform).

Lemma ip_allowed_not_denied p ip : is_ip_allowed node p ip = true → is_absolutely_denied node ip = false.
Proof. unfold is_ip_allowed. by destruct (is_absolutely_denied node ip). Qed.

Lemma domain_allowed_iff p hostname ip : is_domain_allowed node p hostname (Some ip) = true ↔
  hostname ≠ [] ∧ (∃ pattern, pattern ∈ allowed_domains (egress p) ∧ domain_matches hostname pattern = true)
  ∧ is_absolutely_denied node ip = false.
Proof.
  unfold is_domain_allowed. rewrite <- negb_true_iff.
  assert ((∃ pattern, pattern ∈ allowed_domains (egress p) ∧ domain_matches hostname pattern = true)
    ↔ existsb (domain_matches hostname) (allowed_domains (egress p)) = true) as ->.
  { rewrite existsb_exists. by setoid_rewrite list_elem_of_In. }
  destruct hostname as [|b h]; simpl; [naive_solver|].
  destruct (existsb _ _); simpl; naive_solver.
Qed.

(** C20: the proxy dials out only where the policy in force lets it: to the
    original destination when its address is allowed, or to an address the
    trusted resolver gave for a host name that matches an allowed pattern; and
    never to an address the platform denies. *)
Theorem proxied_connections_authorized x host original reads resolve connects a :
  handle_connection node x host original reads resolve connects = Some a →
  ∃ p, active_policy x host = Some p ∧ is_absolutely_denied node a.1 = false
    ∧ ((a = original ∧ is_ip_allowed node p a.1 = true)
       ∨ ∃ hostname pattern addresses, pattern ∈ allowed_domains (egress p)
           ∧ domain_matches hostname pattern = true
           ∧ read_hostname reads [] original.2 = Some hostname
           ∧ resolve hostname original.2 = Some addresses ∧ a ∈ addresses).
Proof.
  unfold handle_connection. destruct (active_policy x host) as [p|]; [|done]. intros E. exists p. split; [done|].
  destruct (is_ip_allowed node p original.1) eqn:Ei.
  { assert (a = original) as ->.
    { destruct (decide (connects original = true)).
      - rewrite filter_cons_True in E by done. by injection E.
      - by rewrite filter_cons_False in E by done. }
    split; [by eapply ip_allowed_not_denied|by left]. }
  destruct (read_hostname reads [] original.2) as [hostname|] eqn:Eh; [|done].
  unfold select_upstream in E. rewrite Ei in E. destruct (has_domain_allow_rules p); [|done].
  destruct (is_nil hostname); [done|]. destruct (negb _); [done|].
  unfold resolve_trusted_upstream in E. destruct (resolve hostname original.2) as [addresses|] eqn:Er; [|done].
  destruct (is_nil _); [done|]. apply head_Some_elem_of in E. apply list_elem_of_filter in E as [_ E].
  apply list_elem_of_filter in E as [Ed Ha]. apply domain_allowed_iff in Ed as (_ & (pattern & Hin & Hm) & Hd).
  split; [done|]. right. by exists hostname, pattern, addresses.
Qed.
End Connections.

(** ** Examples *)

#[local] Existing Instance ex_nets.
#[local] Existing Instance ex_nets_spec.
#[local] Existing Instance ex_grammars.

Definition ex_node : platform := mkPlatform [[10 * 2 ^ 24; 8]] [[10 * 2 ^ 24 + 11 * 2 ^ 16; 16]].
Definition ex_restore (cs : list IptablesRestoreCommand) (rs : ruleset) : ruleset * bool :=
  match apply_commands cs rs with Some rs' => (rs', true) | None => (rs, false) end.

Lemma ex_restore_spec : restore_spec ex_restore.
Proof.
  intros cs rs. unfold ex_restore. destruct (apply_commands cs rs) as [rs'|] eqn:E; cbn.
  - exists (table_groups cs), []. rewrite app_nil_r, table_groups_join. done.
  - by exists [], (table_groups cs).
Qed.

Definition ex_namespace : ruleset :=
  default ∅ (apply_commands (configure_namespace_commands [1] [2] [3]) fresh_ruleset
    ≫= apply_commands (namespace_egress_chain_commands [8] (internal_egress_denied_cidrs ex_node)
                         (always_denied_cidrs ex_node))).
Definition ex_slot : slot_state := mkSlot 7 false (mkProxy ∅ ∅ ∅) ex_namespace.

Lemma ex_namespace_ok : namespace_ok [8] ex_node ex_namespace [] [].
Proof.
  destruct (namespace_set_up [8] ex_node [1] [2] [3]) as (rs1 & rs & E1 & E2 & Hok).
  unfold ex_namespace. rewrite E1. cbn [mbind option_bind]. rewrite E2. exact Hok.
Qed.

Lemma ex_slot_fresh : fresh_slot [8] ex_node ex_slot.
Proof. split; [exact ex_namespace_ok|]. split; [reflexivity|]. split; reflexivity. Qed.

(** Deny everything but one network and one domain. *)
Definition ex_net_policy : SandboxNetworkPolicy :=
  mkPolicyNet true BaseDeny (mkEgress [V4 (mkExNet (8 * 2 ^ 24) 8)] [lit "*.example.com"] [V4 (mkExNet 0 0)]).

Lemma ex_net_policy_validated : validated ex_net_policy.
Proof. split; [intros c Hc; cbn in Hc; set_solver|intros _; by left]. Qed.

Definition ex_set : slot_state * result slot_error unit := set_egress_policy true ex_restore (Some ex_net_policy) ex_slot.

Lemma ex_set_ok : is_ok ex_set.2 = true.
Proof. by vm_compute. Qed.

Definition ex_flow (dst port : Z) : flow := mkFlow "tap0" "vpeer" 5 false dst "tcp" port.

Lemma ex_set_tried : next_tried ex_slot ex_net_policy ex_set.2 [] = [].
Proof. by vm_compute. Qed.

Lemma slot_enforces_latest_policy_witness :
  forwarded (sl_rules ex_set.1) (ex_flow (8 * 2 ^ 24 + 1) 22) Accepted
  ∧ forwarded (sl_rules ex_set.1) (ex_flow (9 * 2 ^ 24) 22) Rejected
  ∧ prerouted (sl_rules ex_set.1) (ex_flow (9 * 2 ^ 24) 443) (Redirected 15000).
Proof.
  assert (slot_history ex_slot ex_set.1 (if is_ok ex_set.2 then ex_net_policy else default_policy)
    (next_tried ex_slot ex_net_policy ex_set.2 [])) as Hh.
  { eapply (sh_set ex_slot ex_slot default_policy [] true ex_restore (Some ex_net_policy) ex_set.1 ex_set.2);
      [apply sh_start|exact ex_restore_spec|exact ex_net_policy_validated|]. exact (surjective_pairing ex_set). }
  rewrite ex_set_ok, ex_set_tried in Hh.
  assert (∀ dst port, outbound (ex_flow dst port)) as Ho by done.
  pose proof (λ dst port, slot_enforces_latest_policy [8] ex_node ex_slot _ _ _ (ex_flow dst port) ex_slot_fresh Hh (Ho dst port)) as Hall.
  split; [|split].
  - destruct (Hall (8 * 2 ^ 24 + 1) 22) as [(p1 & p2 & ->%list_elem_of_singleton & _ & Hf & _) _]. by apply Hf.
  - destruct (Hall (9 * 2 ^ 24) 22) as [(p1 & p2 & ->%list_elem_of_singleton & _ & Hf & _) _]. by apply Hf.
  - destruct (Hall (9 * 2 ^ 24) 443) as [(p1 & p2 & _ & ->%list_elem_of_singleton & _ & Hp) _]. by apply Hp.
Defined.

Definition ex_proxy : EgressProxy := mkProxy {[7 := ex_net_policy]} ∅ {[7]}.

Lemma proxied_connections_authorized_witness : ∃ p, active_policy ex_proxy 7 = Some p
  ∧ is_absolutely_denied ex_node 99 = false.
Proof.
  assert (handle_connection ex_node ex_proxy 7 (9 * 2 ^ 24, 443)
    [records_of [[1; 0; 0; 13] ++ lit "a.example.com"]] (λ _ _, Some [(10 * 2 ^ 24, 443); (99, 443)]) (λ _, true)
    = Some (99, 443)) as E by by vm_compute.
  destruct (proxied_connections_authorized _ _ _ _ _ _ _ _ E) as (p & Ep & Hd & _).
  exists p. exact (conj Ep Hd).
Defined.

(** The batch spans two tables, and [iptables-restore] commits table by table:
    when the second table fails, the user chain already holds the new rules
    while the slot believes there are none, and the next tenant keeps them. *)
Definition filter_only (cs : list IptablesRestoreCommand) (rs : ruleset) : ruleset * bool :=
  (default rs (apply_commands (filter (λ c, cmd_table c = "filter"%string) cs) rs), false).

Lemma partial_restore_goes_unnoticed :
  let s1 := (set_egress_policy true filter_only (Some ex_net_policy) ex_slot).1 in
  let '(s2, r2) := set_egress_policy true ex_restore None s1 in
  is_ok r2 = true
  ∧ bool_decide (sl_rules s2 !! ("filter"%string, USER_EGRESS_CHAIN) = Some (user_rules ex_net_policy)) = true.
Proof. vm_compute. split; reflexivity. Qed.
