(* ===== verification/WarmPool.v ===== *)
(** * The warm pool

    Models [crates/warm-pool/src/lib.rs]: the idle queue, the watermarks, the
    refill target that grows under pressure, the maintenance signal and the
    shutdown flag.  Every operation takes the pool's lock once; the condition
    variable and the worker thread appear as the [pending] and [stop] flags, and
    as the two halves of the worker's loop: [worker_wait], which consumes a
    signal, and [worker_burst], the rounds up to the next wait. *)

From S2P Require Import Prelude.

Inductive PoolMaintenanceAction : Type := Fill (n : Z) | Drain (n : Z) | Idle.

Record PoolConfig : Type := mkPoolConfig {
  low_watermark : Z;
  high_watermark : Z;
  maintenance_enabled : bool;
  startup_prewarm : bool
}.

Definition validate (c : PoolConfig) : PoolConfig :=
  if high_watermark c <? low_watermark c
  then mkPoolConfig (high_watermark c) (high_watermark c) (maintenance_enabled c) (startup_prewarm c)
  else c.

Record WarmPool (T : Type) : Type := mkPool {
  idle : list T;
  config : PoolConfig;
  fill_target : Z;
  signal_pending : bool;
  signal_stop : bool;
  maintenance_started : bool;
  shutting_down : bool
}.
Arguments mkPool {T} _ _ _ _ _ _ _.
Arguments idle {T} _.
Arguments config {T} _.
Arguments fill_target {T} _.
Arguments signal_pending {T} _.
Arguments signal_stop {T} _.
Arguments maintenance_started {T} _.
Arguments shutting_down {T} _.

Definition saturating_mul64 (a b : Z) : Z := Z.min U64_MAX (a * b).

Section Pool.
Context {T : Type}.
Implicit Types p : WarmPool T.

Definition pool_new (c : PoolConfig) : WarmPool T :=
  let c := validate c in
  mkPool [] c (Z.min (low_watermark c) (high_watermark c)) false false false false.

Definition with_idle p (l : list T) : WarmPool T :=
  mkPool l (config p) (fill_target p) (signal_pending p) (signal_stop p) (maintenance_started p) (shutting_down p).
Definition with_target p (n : Z) : WarmPool T :=
  mkPool (idle p) (config p) n (signal_pending p) (signal_stop p) (maintenance_started p) (shutting_down p).
Definition with_signal p (pending stop : bool) : WarmPool T :=
  mkPool (idle p) (config p) (fill_target p) pending stop (maintenance_started p) (shutting_down p).

Definition pool_len p : Z := zlen (idle p).
Definition current_fill_target p : Z := Z.min (fill_target p) (high_watermark (config p)).

Definition compute_maintenance_action p (len : Z) : PoolMaintenanceAction :=
  let target := current_fill_target p in
  let to_fill := saturating_sub target len in
  if (len <? target) && (0 <? to_fill) then Fill to_fill
  else
    let to_drain := len - high_watermark (config p) in
    if (high_watermark (config p) <? len) && (0 <? to_drain) then Drain to_drain else Idle.

Definition grow_fill_target_after_pressure p (len : Z) : WarmPool T :=
  if (low_watermark (config p) <=? len) || (high_watermark (config p) =? 0) then p
  else
    let low := Z.min (low_watermark (config p)) (high_watermark (config p)) in
    with_target p
      (Z.min (saturating_mul64 (Z.max (Z.max (fill_target p) low) 1) 2) (high_watermark (config p))).

Definition request_maintenance p : WarmPool T :=
  if negb (maintenance_enabled (config p)) || shutting_down p then p
  else if signal_stop p then p
  else with_signal p true false.

Definition record_acquisition_pressure p (len : Z) : WarmPool T :=
  let p := grow_fill_target_after_pressure p len in
  match compute_maintenance_action p len with Fill _ => request_maintenance p | _ => p end.

(** What [try_acquire] does once it has seen that the pool is not shutting
    down; the pressure it records touches the refill target and the signal. *)
Definition pop_front p : WarmPool T * option T :=
  match idle p with
  | [] => (record_acquisition_pressure p 0, None)
  | r :: l => (record_acquisition_pressure (with_idle p l) (zlen l), Some r)
  end.

Definition try_acquire p : WarmPool T * option T :=
  if shutting_down p then (p, None) else pop_front p.

(** [position] and [remove] *)
Fixpoint take_first (f : T → bool) (l : list T) : option (T * list T) :=
  match l with
  | [] => None
  | r :: l' => if f r then Some (r, l')
               else match take_first f l' with Some (x, rest) => Some (x, r :: rest) | None => None end
  end.

Definition try_acquire_where p (predicate : T → bool) : WarmPool T * option T :=
  if shutting_down p then (p, None)
  else
    match take_first predicate (idle p) with
    | Some (r, l) => (record_acquisition_pressure (with_idle p l) (zlen l), Some r)
    | None => (record_acquisition_pressure p (pool_len p), None)
    end.

(** [Some r]: the resource is handed back. *)
Definition try_push_bounded p (r : T) : WarmPool T * option T :=
  if negb (shutting_down p) && (pool_len p <? high_watermark (config p))
  then (with_idle p (idle p ++ [r]), None) else (p, Some r).

Definition try_drain_one p : WarmPool T * option T :=
  match last (idle p) with
  | Some r => (with_idle p (removelast (idle p)), Some r)
  | None => (p, None)
  end.

Definition release p (r : T) : WarmPool T * option T :=
  if negb (shutting_down p) && (maintenance_enabled (config p) || (pool_len p <? high_watermark (config p)))
  then
    let next_pool_len := pool_len p + 1 in
    let p := with_idle p (idle p ++ [r]) in
    ((if (next_pool_len <? low_watermark (config p)) || (high_watermark (config p) <? next_pool_len)
      then request_maintenance p else p), None)
  else (p, Some r).

Definition stop_maintenance_worker p : WarmPool T :=
  if maintenance_started p then with_signal p true true else p.

(** [drain_all] in its three parts: the flag, the end of the worker, and the
    resources. *)
Definition close_pool p : WarmPool T :=
  mkPool (idle p) (config p) (fill_target p) (signal_pending p) (signal_stop p) (maintenance_started p) true.
Definition take_all p : WarmPool T * list T := (with_idle p [], idle p).
Definition drain_all p : WarmPool T * list T := take_all (stop_maintenance_worker (close_pool p)).

(** [spawned]: whether the worker thread could be started. *)
Definition start_maintenance_worker (spawned : bool) p : WarmPool T :=
  if negb (maintenance_enabled (config p)) || maintenance_started p then p
  else if spawned then
    request_maintenance
      (mkPool (idle p) (config p) (fill_target p) (signal_pending p) (signal_stop p) true (shutting_down p))
  else p.

(** The wait at the top of the worker's loop.  [None]: it goes on waiting;
    [Some None]: the worker ends. *)
Definition worker_wait p : option (option (WarmPool T)) :=
  if signal_stop p then Some None
  else if signal_pending p then Some (Some (with_signal p false false))
  else None.

(** The worker runs its callback on a state that the pool is a part of. *)
Context {State : Type} (pool_of : State → WarmPool T) (run_cycle : State → State).

(** One round of the worker: the cycle it runs, and whether it has immediate
    work.  [None] for the second: the worker ends. *)
Definition worker_round (s : State) : State * option bool :=
  if shutting_down (pool_of s) then (s, None)
  else
    let s := run_cycle s in
    let p := pool_of s in
    if shutting_down p then (s, None)
    else (s, Some (match compute_maintenance_action p (pool_len p) with Idle => false | _ => true end)).

(** The worker between two waits: it goes round until the pool needs nothing.
    [None]: still going round when the fuel is used up. *)
Fixpoint worker_burst (fuel : nat) (s : State) : option State :=
  match fuel with
  | O => None
  | S fuel' =>
      match worker_round s with
      | (s, None) | (s, Some false) => Some s
      | (s, Some true) => worker_burst fuel' s
      end
  end.
End Pool.

(** ** Resources are neither lost nor duplicated *)

Section Conservation.
Context {T : Type}.
Implicit Types p : WarmPool T.

(** What pressure and signals leave alone. *)
Definition same_queue p p' : Prop := idle p' = idle p ∧ config p' = config p ∧ shutting_down p' = shutting_down p.

Lemma request_maintenance_queue p : same_queue p (request_maintenance p).
Proof. unfold request_maintenance. destruct (_ || _); [done|]. by destruct (signal_stop p). Qed.

Lemma pressure_queue p len : same_queue p (record_acquisition_pressure p len).
Proof.
  unfold record_acquisition_pressure. set (p1 := grow_fill_target_after_pressure p len).
  assert (same_queue p p1) as H1 by (unfold p1, grow_fill_target_after_pressure; by destruct (_ || _)).
  destruct (compute_maintenance_action p1 len); [|done..].
  destruct (request_maintenance_queue p1) as (E1 & E2 & E3), H1 as (E4 & E5 & E6). split_and!; congruence.
Qed.

Lemma pop_front_keeps p p' r : pop_front p = (p', r) →
  idle p = option_list r ++ idle p' ∧ config p' = config p ∧ shutting_down p' = shutting_down p.
Proof.
  unfold pop_front. destruct (idle p) as [|x l] eqn:Ei; intros [= <- <-];
    match goal with |- context [record_acquisition_pressure ?q ?n] => destruct (pressure_queue q n) as (E1 & E2 & E3) end;
    rewrite E1, E2, E3; simpl; rewrite ?Ei; done.
Qed.

Lemma try_acquire_keeps p p' r : try_acquire p = (p', r) →
  idle p = option_list r ++ idle p' ∧ config p' = config p ∧ shutting_down p' = shutting_down p.
Proof.
  unfold try_acquire. destruct (shutting_down p) eqn:Es; [by intros [= <- <-]|]. rewrite <- Es. apply pop_front_keeps.
Qed.

Lemma take_first_perm (f : T → bool) l x rest : take_first f l = Some (x, rest) → l ≡ₚ x :: rest ∧ f x = true.
Proof.
  revert x rest. induction l as [|y l IH]; intros x rest; simpl; [done|]. destruct (f y) eqn:Ef; [by intros [= <- <-]|].
  destruct (take_first f l) as [[z r]|] eqn:E; [|done]. intros [= <- <-]. destruct (IH _ _ eq_refl) as [-> Hz].
  split; [constructor|done].
Qed.

Lemma try_acquire_where_keeps p f p' r : try_acquire_where p f = (p', r) →
  idle p ≡ₚ option_list r ++ idle p' ∧ (∀ x, r = Some x → f x = true).
Proof.
  unfold try_acquire_where. destruct (shutting_down p); [by intros [= <- <-]|].
  destruct (take_first f (idle p)) as [[x l]|] eqn:E; intros [= <- <-].
  - destruct (pressure_queue (with_idle p l) (zlen l)) as (-> & _). apply take_first_perm in E as [E Hf].
    split; [done|]. by intros y [= <-].
  - destruct (pressure_queue p (pool_len p)) as (-> & _). done.
Qed.

Lemma try_push_bounded_keeps p x p' r : try_push_bounded p x = (p', r) →
  idle p ++ [x] = idle p' ++ option_list r ∧ config p' = config p ∧ shutting_down p' = shutting_down p.
Proof. unfold try_push_bounded. destruct (_ && _); intros [= <- <-]; simpl; by rewrite ?app_nil_r. Qed.

Lemma try_drain_one_keeps p p' r : try_drain_one p = (p', r) →
  idle p = idle p' ++ option_list r ∧ config p' = config p ∧ shutting_down p' = shutting_down p.
Proof.
  unfold try_drain_one. destruct (idle p) as [|y l _] eqn:Ei using rev_ind.
  - intros [= <- <-]. rewrite Ei. done.
  - rewrite last_snoc. intros [= <- <-]. simpl. by rewrite removelast_last.
Qed.

Lemma release_keeps p x p' r : release p x = (p', r) →
  idle p ++ [x] = idle p' ++ option_list r ∧ config p' = config p ∧ shutting_down p' = shutting_down p.
Proof.
  unfold release. destruct (_ && _); [|by intros [= <- <-]]. intros [= <- <-].
  set (q := with_idle p (idle p ++ [x])). destruct (request_maintenance_queue q) as (E1 & E2 & E3).
  destruct (_ || _); simpl; rewrite ?E1, ?E2, ?E3, app_nil_r; done.
Qed.

Lemma drain_all_keeps p p' l : drain_all p = (p', l) → l = idle p ∧ idle p' = [] ∧ shutting_down p' = true.
Proof. unfold drain_all, take_all, stop_maintenance_worker, close_pool. simpl. destruct (maintenance_started p); by intros [= <- <-]. Qed.

(** ** The watermarks *)

Record pool_ok p : Prop := {
  po_low : 0 ≤ low_watermark (config p) ≤ high_watermark (config p);
  po_high : high_watermark (config p) ≤ U64_MAX;
  po_target : low_watermark (config p) ≤ fill_target p ≤ high_watermark (config p)
}.

Lemma pool_new_ok c : 0 ≤ low_watermark c ≤ U64_MAX → 0 ≤ high_watermark c ≤ U64_MAX → pool_ok (pool_new c).
Proof.
  intros Hl Hh. unfold pool_new, validate. destruct (Z.ltb_spec (high_watermark c) (low_watermark c));
    constructor; simpl; lia.
Qed.

Lemma pool_ok_same p p' : pool_ok p → config p' = config p → fill_target p' = fill_target p → pool_ok p'.
Proof. intros [H1 H2 H3] Ec Et. constructor; rewrite Ec, ?Et; done. Qed.

(** Pressure only ever raises the refill target, and never above the high
    watermark. *)
Lemma pressure_ratchets p len : pool_ok p →
  pool_ok (record_acquisition_pressure p len) ∧ fill_target p ≤ fill_target (record_acquisition_pressure p len).
Proof.
  intros Hp. set (p1 := grow_fill_target_after_pressure p len).
  assert (pool_ok p1 ∧ fill_target p ≤ fill_target p1) as [H1 Hle].
  { unfold p1, grow_fill_target_after_pressure. destruct (_ || _); [done|]. destruct Hp as [H1 H2 H3].
    split; [constructor; simpl; [done|done|]|simpl]; unfold saturating_mul64; lia. }
  unfold record_acquisition_pressure. fold p1. destruct (compute_maintenance_action p1 len); [|done..].
  assert (config (request_maintenance p1) = config p1 ∧ fill_target (request_maintenance p1) = fill_target p1) as [Ec Et].
  { unfold request_maintenance. destruct (_ || _); [done|]. by destruct (signal_stop p1). }
  split; [by eapply pool_ok_same|by rewrite Et].
Qed.
End Conservation.
