(* ===== verification/NetManager.v ===== *)
(** * Network slots: addresses and allocation

    Models the address plan ([src/sandbox/network/address_plan.rs] and the
    validation in [src/cfg/network.rs]) and the slot allocation of
    [src/sandbox/network/manager.rs] over the warm pool.  A slot is its index.
    The bitmap's search for a free bit comes from the [index_set] crate, and the
    arithmetic of networks from [ipnetwork]: arguments with their documented
    behaviour.

    The operations of the manager run in several threads, so they are programs:
    sequences of actions on the shared state, each of which is one access to an
    atomic, one section under a lock, or one call to the kernel.  [run] executes
    a program alone; [NetThreads] interleaves them. *)

From stdpp Require Import gmap.
From S2P Require Import Prelude WarmPool.

Open Scope result_scope.

(** ** The address plan *)

Class RangeOps : Type := {
  Net : Type;
  net_base : Net → Z;
  net_size : Net → Z;
  net_prefix : Net → Z;
  net_overlaps : Net → Net → bool;
  net_has : Net → Z → bool;
  net_parse : list Z → option Net
}.

(** Documented behaviour: the addresses of a network are the consecutive ones
    from its base; networks that do not overlap share none. *)
Class RangeSpec `{RangeOps} : Prop := {
  rs_has : ∀ n off, 0 ≤ off < net_size n → net_has n (net_base n + off) = true;
  rs_disjoint : ∀ a b ip, net_overlaps a b = false → net_has a ip = true → net_has b ip = false
}.

Definition NETWORK_MAX_SLOTS : Z := 32768.
Definition MAX_SLOTS : Z := NETWORK_MAX_SLOTS.

Inductive network_error : Type :=
| InvalidHostCidr | InvalidVethCidr | InvalidVmLink | NotSlash30 | HostTooSmall | VethTooSmall | Overlap
| OutsideNetwork | VethOffsetOverflow | SlotOutOfRange | SlotNotAllocated
| ShuttingDown | HostIptablesError | CreateFailed | NoAvailableSlots | CleanupFailed.

Section Plan.
Context `{RangeOps} (FIXED_NETWORK_VM_LINK_CIDR : list Z).

Record NetworkAddressPlan : Type := mkPlan {
  host_interaction_cidr : Net;
  veth_cidr : Net;
  vm_link_cidr : Net
}.

Definition parse_or (e : network_error) (s : list Z) : result network_error Net :=
  match net_parse s with Some n => Ok n | None => Err e end.

(** [NetworkConfig::resolved_internal] and [NetworkAddressPlan::from_config] *)
Definition resolved_internal (host_cidr veth : list Z) : result network_error NetworkAddressPlan :=
  let? host_interaction_cidr := parse_or InvalidHostCidr host_cidr in
  let? veth_cidr := parse_or InvalidVethCidr veth in
  let? vm_link_cidr := parse_or InvalidVmLink FIXED_NETWORK_VM_LINK_CIDR in
  let? _ := ensure (net_prefix vm_link_cidr =? 30) NotSlash30 in
  let max_slots := NETWORK_MAX_SLOTS in
  let? _ := ensure (max_slots <=? net_size host_interaction_cidr) HostTooSmall in
  let? _ := ensure (max_slots * 2 <=? net_size veth_cidr) VethTooSmall in
  let? _ := ensure (negb (net_overlaps host_interaction_cidr veth_cidr)) Overlap in
  let? _ := ensure (negb (net_overlaps host_interaction_cidr vm_link_cidr)) Overlap in
  let? _ := ensure (negb (net_overlaps veth_cidr vm_link_cidr)) Overlap in
  Ok (mkPlan host_interaction_cidr veth_cidr vm_link_cidr).

Definition network_ip_at (n : Net) (offset : Z) : result network_error Z :=
  let? _ := ensure (negb (net_size n <=? offset)) OutsideNetwork in
  Ok (net_base n + offset).

Definition slot_ips (plan : NetworkAddressPlan) (idx : Z) : result network_error (Z * Z * Z) :=
  let? host_interaction_ip := network_ip_at (host_interaction_cidr plan) idx in
  let? _ := ensure (idx * 2 <=? U32_MAX) VethOffsetOverflow in
  let veth_offset := idx * 2 in
  let? veth_host_ip := network_ip_at (veth_cidr plan) veth_offset in
  let? veth_vm_ip := network_ip_at (veth_cidr plan) (veth_offset + 1) in
  Ok (host_interaction_ip, veth_host_ip, veth_vm_ip).

(** [Slot::new]: the three addresses of the slot. *)
Definition slot_new (plan : NetworkAddressPlan) (idx : Z) : result network_error (Z * Z * Z) :=
  let? _ := ensure (negb ((idx =? 0) || (MAX_SLOTS <=? idx))) SlotOutOfRange in
  slot_ips plan idx.
End Plan.

(** ** The shared state *)

(** [host_iptables_installed] is the static [HOST_IPTABLES_INSTALLED], and
    [host_veths] the interfaces [veth-<idx>] of the host. *)
Record NetworkManager : Type := mkManager {
  allocated : gset Z;
  pool : WarmPool Z;
  nm_shutting_down : bool;
  host_iptables_installed : bool;
  host_veths : gset Z
}.

Definition with_allocated (m : NetworkManager) (a : gset Z) : NetworkManager :=
  mkManager a (pool m) (nm_shutting_down m) (host_iptables_installed m) (host_veths m).
Definition with_pool (m : NetworkManager) (p : WarmPool Z) : NetworkManager :=
  mkManager (allocated m) p (nm_shutting_down m) (host_iptables_installed m) (host_veths m).
Definition with_veths (m : NetworkManager) (v : gset Z) : NetworkManager :=
  mkManager (allocated m) (pool m) (nm_shutting_down m) (host_iptables_installed m) v.
Definition with_installed (m : NetworkManager) (b : bool) : NetworkManager :=
  mkManager (allocated m) (pool m) (nm_shutting_down m) b (host_veths m).
Definition with_shutting_down (m : NetworkManager) : NetworkManager :=
  mkManager (allocated m) (pool m) true (host_iptables_installed m) (host_veths m).

(** The bits set at the start: slot 0 and the slots of existing interfaces. *)
Definition reserved (existing : list Z) : gset Z :=
  {[0]} ∪ list_to_set (filter (λ i, 0 ≤ i < MAX_SLOTS) existing).

(** [with_config] *)
Definition manager_new (c : PoolConfig) (existing : list Z) (installed : bool) : NetworkManager :=
  mkManager (reserved existing) (pool_new c) false installed (list_to_set existing).

(** ** Actions *)

(** [CleanupSlot] is [Slot::cleanup] on a slot that is armed, which it leaves
    disarmed when it succeeds; [DropSlot] is [Drop] on a slot that is armed. *)
Inductive action : Type → Type :=
| LoadShuttingDown : action bool
| StoreShuttingDown : action unit
| LoadHostIptables : action bool
| InstallHostIptables : action bool
| RemoveHostIptables : action unit
| SetNextFreeBit : action (option Z)
| RemoveBit (idx : Z) : action bool
| CreateNetwork (idx : Z) : action bool
| CleanupSlot (idx : Z) : action bool
| DropSlot (idx : Z) : action unit
| PoolIsShuttingDown : action bool
| PoolPopFront : action (option Z)
| PoolLen : action Z
| PoolComputeAction (len : Z) : action PoolMaintenanceAction
| PoolRequestMaintenance : action unit
| PoolTryPushBounded (idx : Z) : action bool
| PoolRelease (idx : Z) : action bool
| PoolTryDrainOne : action (option Z)
| PoolClose : action unit
| PoolStopWorker : action unit
| PoolTakeAll : action (list Z).

(** What the machine answers.  A set-up or a tear-down that fails leaves the
    interface there, or not. *)
Record environment : Type := mkEnv {
  next_free_bit : gset Z → option Z;
  create_network : Z → bool;
  create_leaves_veth : Z → bool;
  cleanup : Z → bool;
  cleanup_leaves_veth : Z → bool;
  install_host_iptables : bool
}.

Definition remove_veth (env : environment) (m : NetworkManager) (idx : Z) : NetworkManager :=
  if negb (cleanup env idx) && cleanup_leaves_veth env idx then m else with_veths m (host_veths m ∖ {[idx]}).

(** The pool hands a resource that it does not take back to the caller: the
    answer says whether it was taken. *)
Definition taken (x : WarmPool Z * option Z) : WarmPool Z * bool :=
  (x.1, match x.2 with None => true | Some _ => false end).

Definition on_pool {A} (m : NetworkManager) (x : WarmPool Z * A) : NetworkManager * A := (with_pool m x.1, x.2).

Definition perform (env : environment) {B} (a : action B) (m : NetworkManager) : NetworkManager * B :=
  match a with
  | LoadShuttingDown => (m, nm_shutting_down m)
  | StoreShuttingDown => (with_shutting_down m, tt)
  | LoadHostIptables => (m, host_iptables_installed m)
  | InstallHostIptables =>
      if install_host_iptables env then (with_installed m true, true) else (m, false)
  | RemoveHostIptables => (with_installed m false, tt)
  | SetNextFreeBit =>
      match next_free_bit env (allocated m) with
      | Some idx => (with_allocated m ({[idx]} ∪ allocated m), Some idx)
      | None => (m, None)
      end
  | RemoveBit idx => (with_allocated m (allocated m ∖ {[idx]}), bool_decide (idx ∈ allocated m))
  | CreateNetwork idx =>
      (if create_network env idx || create_leaves_veth env idx then with_veths m ({[idx]} ∪ host_veths m) else m,
       create_network env idx)
  | CleanupSlot idx => (remove_veth env m idx, cleanup env idx)
  | DropSlot idx => (remove_veth env m idx, tt)
  | PoolIsShuttingDown => (m, shutting_down (pool m))
  | PoolPopFront => on_pool m (pop_front (pool m))
  | PoolLen => (m, pool_len (pool m))
  | PoolComputeAction len => (m, compute_maintenance_action (pool m) len)
  | PoolRequestMaintenance => (with_pool m (request_maintenance (pool m)), tt)
  | PoolTryPushBounded idx => on_pool m (taken (try_push_bounded (pool m) idx))
  | PoolRelease idx => on_pool m (taken (release (pool m) idx))
  | PoolTryDrainOne => on_pool m (try_drain_one (pool m))
  | PoolClose => (with_pool m (close_pool (pool m)), tt)
  | PoolStopWorker => (with_pool m (stop_maintenance_worker (pool m)), tt)
  | PoolTakeAll => on_pool m (take_all (pool m))
  end.

(** ** Programs *)

Inductive prog (A : Type) : Type :=
| Ret (a : A)
| Act {B : Type} (a : action B) (k : B → prog A).
Arguments Ret {A} a.
Arguments Act {A B} a k.

Definition act {B} (a : action B) : prog B := Act a Ret.

Fixpoint pbind {A B} (p : prog A) (k : A → prog B) : prog B :=
  match p with
  | Ret a => k a
  | Act a k' => Act a (λ b, pbind (k' b) k)
  end.

Declare Scope prog_scope.
Notation "'do' x '<-' p ';' k" := (pbind p (λ x, k)) (at level 10, x pattern, p at level 100, k at level 200) : prog_scope.
Open Scope prog_scope.

(** A program that runs alone. *)
Fixpoint run (env : environment) {A} (p : prog A) (m : NetworkManager) : NetworkManager * A :=
  match p with
  | Ret a => (m, a)
  | Act a k => let '(m, b) := perform env a m in run env (k b) m
  end.

Lemma run_bind env {A B} (p : prog A) (k : A → prog B) m :
  run env (pbind p k) m = let '(m', a) := run env p m in run env (k a) m'.
Proof.
  revert m. induction p as [a|C a k' IH]; intros m; [done|]. cbn. destruct (perform env a m) as [m' b]. apply IH.
Qed.

(** ** The operations *)

Definition release_slot_bit (idx : Z) : prog (result network_error unit) :=
  if (idx =? 0) || (MAX_SLOTS <=? idx) then Ret (Err SlotOutOfRange)
  else do was_set <- act (RemoveBit idx); Ret (if was_set : bool then Ok tt else Err SlotNotAllocated).

(** The slot is dropped on return: one whose cleanup has failed is armed. *)
Definition cleanup_slot_and_release_bit (idx : Z) : prog (result network_error unit) :=
  do cleanup_result <- act (CleanupSlot idx);
  do bitset_result <- release_slot_bit idx;
  do _ <- (if cleanup_result : bool then Ret tt else act (DropSlot idx));
  Ret (match bitset_result with
       | Ok _ => if cleanup_result : bool then Ok tt else Err CleanupFailed
       | Err e => Err e
       end).

Definition allocate_fresh_slot : prog (result network_error Z) :=
  do stopping <- act LoadShuttingDown;
  if stopping : bool then Ret (Err ShuttingDown)
  else
    do installed <- act LoadHostIptables;
    do ready <- (if installed : bool then Ret true else act InstallHostIptables);
    if negb ready then Ret (Err HostIptablesError)
    else
      do free <- act SetNextFreeBit;
      match free with
      | None => Ret (Err NoAvailableSlots)
      | Some idx =>
          do created <- act (CreateNetwork idx);
          if negb created then
            do _ <- act (RemoveBit idx);
            do _ <- act (DropSlot idx);
            Ret (Err CreateFailed)
          else
            do stopping <- act LoadShuttingDown;
            if stopping : bool then
              do r <- cleanup_slot_and_release_bit idx;
              Ret (match r with Ok _ => Err ShuttingDown | Err e => Err e end)
            else Ret (Ok idx)
      end.

Definition pool_try_acquire : prog (option Z) :=
  do closed <- act PoolIsShuttingDown;
  if closed : bool then Ret None else act PoolPopFront.

Definition allocate_any (low_watermark : Z) : prog (result network_error Z) :=
  do stopping <- act LoadShuttingDown;
  if stopping : bool then Ret (Err ShuttingDown)
  else
    do slot <- pool_try_acquire;
    match slot with
    | Some idx =>
        do stopping <- act LoadShuttingDown;
        if stopping : bool then
          do _ <- cleanup_slot_and_release_bit idx;
          Ret (Err ShuttingDown)
        else
          do len <- act PoolLen;
          do _ <- (if len <? low_watermark then act PoolRequestMaintenance else Ret tt);
          Ret (Ok idx)
    | None => allocate_fresh_slot
    end.

Definition pool_try_push_bounded (idx : Z) : prog bool :=
  do closed <- act PoolIsShuttingDown;
  if closed : bool then Ret false else act (PoolTryPushBounded idx).

Definition pool_release (idx : Z) : prog bool :=
  do closed <- act PoolIsShuttingDown;
  if closed : bool then Ret false else act (PoolRelease idx).

Definition pool_drain_all : prog (list Z) :=
  do _ <- act PoolClose;
  do _ <- act PoolStopWorker;
  act PoolTakeAll.

Definition nm_release (idx : Z) : prog (result network_error unit) :=
  do stopping <- act LoadShuttingDown;
  if stopping : bool then cleanup_slot_and_release_bit idx
  else
    do pooled <- pool_release idx;
    if pooled : bool then Ret (Ok tt) else cleanup_slot_and_release_bit idx.

(** The loops of [run_pool_maintenance_cycle]. *)
Fixpoint fill_loop (n : nat) : prog (result network_error unit) :=
  match n with
  | O => Ret (Ok tt)
  | S n' =>
      do stopping <- act LoadShuttingDown;
      if stopping : bool then Ret (Ok tt)
      else
        do slot <- allocate_fresh_slot;
        match slot with
        | Err _ => Ret (Ok tt)
        | Ok idx =>
            do pushed <- pool_try_push_bounded idx;
            if pushed : bool then fill_loop n'
            else
              do r <- cleanup_slot_and_release_bit idx;
              match r with Ok _ => fill_loop n' | Err e => Ret (Err e) end
        end
  end.

Fixpoint drain_loop (n : nat) : prog (result network_error unit) :=
  match n with
  | O => Ret (Ok tt)
  | S n' =>
      do slot <- act PoolTryDrainOne;
      match slot with
      | None => Ret (Ok tt)
      | Some idx =>
          do r <- cleanup_slot_and_release_bit idx;
          match r with Ok _ => drain_loop n' | Err e => Ret (Err e) end
      end
  end.

Definition run_pool_maintenance_cycle : prog (result network_error unit) :=
  do len <- act PoolLen;
  do todo <- act (PoolComputeAction len);
  match todo with
  | Fill to_fill => fill_loop (Z.to_nat to_fill)
  | Drain to_drain => drain_loop (Z.to_nat to_drain)
  | Idle => Ret (Ok tt)
  end.

(** Whether every cleanup succeeded. *)
Fixpoint cleanup_all (slots : list Z) : prog bool :=
  match slots with
  | [] => Ret true
  | idx :: rest =>
      do r <- cleanup_slot_and_release_bit idx;
      do ok <- cleanup_all rest;
      Ret (is_ok r && ok)
  end.

(** [shutdown_inner]; the egress proxy goes down with it. *)
Definition shutdown_inner : prog (result network_error unit) :=
  do _ <- act StoreShuttingDown;
  do drained <- pool_drain_all;
  do ok <- cleanup_all drained;
  do _ <- act RemoveHostIptables;
  Ret (if ok : bool then Ok tt else Err CleanupFailed).

(** ** Addresses *)

Section Addresses.
Context `{RangeSpec} (link : list Z).

Lemma resolved_plan host veth plan : resolved_internal link host veth = Ok plan →
  MAX_SLOTS ≤ net_size (host_interaction_cidr plan) ∧ MAX_SLOTS * 2 ≤ net_size (veth_cidr plan)
  ∧ net_overlaps (host_interaction_cidr plan) (veth_cidr plan) = false.
Proof.
  unfold resolved_internal, parse_or, ensure, MAX_SLOTS.
  destruct (net_parse host) as [nh|]; [|done]. destruct (net_parse veth) as [nv|]; [|done].
  destruct (net_parse link) as [nl|]; [|done]. cbn [rbind]. destruct (net_prefix nl =? 30); [|done]. cbn [rbind].
  destruct (Z.leb_spec NETWORK_MAX_SLOTS (net_size nh)); [|done]. cbn [rbind].
  destruct (Z.leb_spec (NETWORK_MAX_SLOTS * 2) (net_size nv)); [|done]. cbn [rbind].
  destruct (net_overlaps nh nv) eqn:K; [done|]. cbn [rbind negb].
  destruct (net_overlaps nh nl); [done|]. destruct (net_overlaps nv nl); [done|]. by intros [= <-].
Qed.

Lemma slot_new_addresses host veth plan idx : resolved_internal link host veth = Ok plan → 0 < idx < MAX_SLOTS →
  slot_new plan idx = Ok (net_base (host_interaction_cidr plan) + idx, net_base (veth_cidr plan) + idx * 2,
                          net_base (veth_cidr plan) + (idx * 2 + 1)).
Proof.
  intros (K1 & K2 & _)%resolved_plan Hi. unfold slot_new, slot_ips, network_ip_at.
  rewrite (proj2 (Z.eqb_neq idx 0)), (proj2 (Z.leb_gt MAX_SLOTS idx)) by lia. cbn -[Z.mul Z.leb].
  assert (MAX_SLOTS = 32768) as EM by done.
  rewrite (proj2 (Z.leb_gt _ idx)) by lia. cbn -[Z.mul Z.leb].
  rewrite (proj2 (Z.leb_le (idx * 2) U32_MAX)) by (unfold U32_MAX; lia). cbn -[Z.mul Z.leb].
  rewrite (proj2 (Z.leb_gt _ (idx * 2))) by lia. cbn -[Z.mul Z.leb].
  rewrite (proj2 (Z.leb_gt _ (idx * 2 + 1))) by lia. done.
Qed.

(** No address of the first network is one of the second. *)
Lemma ranges_apart host veth plan i j : resolved_internal link host veth = Ok plan →
  0 ≤ i < MAX_SLOTS → 0 ≤ j < MAX_SLOTS * 2 →
  net_base (host_interaction_cidr plan) + i ≠ net_base (veth_cidr plan) + j.
Proof.
  intros (K1 & K2 & K3)%resolved_plan Hi Hj E.
  pose proof (rs_has (host_interaction_cidr plan) i ltac:(lia)) as Ha.
  pose proof (rs_has (veth_cidr plan) j ltac:(lia)) as Hb. rewrite <- E in Hb.
  by rewrite (rs_disjoint _ _ _ K3 Ha) in Hb.
Qed.

Lemma addresses_distinct host veth plan a b : resolved_internal link host veth = Ok plan →
  0 < a < MAX_SLOTS → 0 < b < MAX_SLOTS → a ≠ b →
  ∃ x1 x2 x3 y1 y2 y3, slot_new plan a = Ok (x1, x2, x3) ∧ slot_new plan b = Ok (y1, y2, y3)
    ∧ NoDup [x1; x2; x3; y1; y2; y3].
Proof.
  intros Ep Ha Hb Hab. do 6 eexists. split; [by eapply slot_new_addresses|]. split; [by eapply slot_new_addresses|].
  assert (∀ i j, 0 ≤ i < MAX_SLOTS → 0 ≤ j < MAX_SLOTS * 2 →
    net_base (host_interaction_cidr plan) + i ≠ net_base (veth_cidr plan) + j) as Hr
    by (intros; by eapply ranges_apart).
  pose proof (Hr a (a * 2) ltac:(lia) ltac:(lia)). pose proof (Hr a (a * 2 + 1) ltac:(lia) ltac:(lia)).
  pose proof (Hr a (b * 2) ltac:(lia) ltac:(lia)). pose proof (Hr a (b * 2 + 1) ltac:(lia) ltac:(lia)).
  pose proof (Hr b (a * 2) ltac:(lia) ltac:(lia)). pose proof (Hr b (a * 2 + 1) ltac:(lia) ltac:(lia)).
  pose proof (Hr b (b * 2) ltac:(lia) ltac:(lia)). pose proof (Hr b (b * 2 + 1) ltac:(lia) ltac:(lia)).
  repeat constructor; rewrite ?elem_of_cons, ?elem_of_nil; lia.
Qed.
End Addresses.


(** ** The watermarks are reached *)

(** The state in which the worker has nothing to do. *)
Definition settled (p : WarmPool Z) : Prop :=
  current_fill_target p ≤ pool_len p ≤ high_watermark (config p).

Lemma settled_idle p : settled p → compute_maintenance_action p (pool_len p) = Idle.
Proof.
  intros [H1 H2]. unfold compute_maintenance_action.
  rewrite (proj2 (Z.ltb_ge _ _)), (proj2 (Z.ltb_ge (high_watermark _) _)) by lia. done.
Qed.

Lemma settled_len p (l : list Z) : current_fill_target p ≤ zlen l ≤ high_watermark (config p) → settled (with_idle p l).
Proof. done. Qed.

(** The slots of the pool are different, valid, and have their bits. *)
Definition pool_slots_ok (m : NetworkManager) : Prop :=
  NoDup (idle (pool m)) ∧ ∀ i, i ∈ idle (pool m) → i ∈ allocated m ∧ 0 < i < MAX_SLOTS.

(** The documented behaviour of the bitmap's search: the bit it sets was clear,
    and it finds one when there is one. *)
Definition search_sound (env : environment) : Prop :=
  ∀ s i, next_free_bit env s = Some i → (i ∉ s) ∧ 0 ≤ i < MAX_SLOTS.
Definition search_complete (env : environment) : Prop :=
  ∀ s i, 0 ≤ i < MAX_SLOTS → i ∉ s → next_free_bit env s ≠ None.

(** Namespaces come up and are torn down. *)
Definition machine_works (env : environment) : Prop :=
  (∀ i, create_network env i = true) ∧ (∀ i, cleanup env i = true) ∧ install_host_iptables env = true.

Section Convergence.
Context (env : environment) (Hfind : search_complete env) (Hworks : machine_works env).

Lemma free_slot (s : gset Z) : Z.of_nat (size s) < MAX_SLOTS → is_Some (next_free_bit env s).
Proof.
  intros Hs. destruct (decide (Exists (λ i, i ∉ s) (seqZ 0 MAX_SLOTS))) as [He|He].
  - apply Exists_exists in He as (i & Hi%elem_of_seqZ & Hn).
    destruct (next_free_bit env s) eqn:E; [by eexists|]. by destruct (Hfind s i ltac:(lia) Hn).
  - exfalso. assert (list_to_set (seqZ 0 MAX_SLOTS) ⊆ s) as Hsub%subseteq_size.
    { intros i Hi%elem_of_list_to_set. destruct (decide (i ∈ s)); [done|]. destruct He. apply Exists_exists. eauto. }
    rewrite size_list_to_set, length_seqZ in Hsub by apply NoDup_seqZ. lia.
Qed.

Lemma allocate_fresh_succeeds m : nm_shutting_down m = false → Z.of_nat (size (allocated m)) < MAX_SLOTS →
  ∃ idx, run env allocate_fresh_slot m =
    (mkManager ({[idx]} ∪ allocated m) (pool m) false true ({[idx]} ∪ host_veths m), Ok idx).
Proof.
  intros Es Hs. destruct (free_slot _ Hs) as [idx Ei]. exists idx. destruct Hworks as (Hc & _ & Hi).
  destruct m as [al p sd inst v]. cbn in Es, Ei |- *. rewrite Es. cbn.
  destruct inst; cbn; rewrite ?Hi; cbn; rewrite Ei; cbn; by rewrite Hc.
Qed.

Lemma fill_loop_fills n : ∀ m, nm_shutting_down m = false → shutting_down (pool m) = false →
  Z.of_nat (size (allocated m)) + Z.of_nat n ≤ MAX_SLOTS →
  pool_len (pool m) + Z.of_nat n ≤ high_watermark (config (pool m)) →
  ∃ m' l, run env (fill_loop n) m = (m', Ok tt) ∧ nm_shutting_down m' = false
    ∧ pool m' = with_idle (pool m) (idle (pool m) ++ l) ∧ length l = n.
Proof.
  induction n as [|n IH]; intros m Es Ep Ha Hl.
  - exists m, []. rewrite app_nil_r. split_and!; [done|done| |done]. by destruct (pool m).
  - destruct (allocate_fresh_succeeds m Es ltac:(lia)) as [idx Ef].
    cbn [fill_loop pbind act run perform]. rewrite Es, run_bind, Ef.
    cbn [pool_try_push_bounded pbind act run perform pool]. rewrite Ep.
    cbn [pbind act run perform]. unfold on_pool, taken, try_push_bounded. cbn [pool].
    rewrite Ep, (proj2 (Z.ltb_lt _ _)) by lia. cbn [negb andb fst snd].
    destruct (IH (mkManager ({[idx]} ∪ allocated m) (with_idle (pool m) (idle (pool m) ++ [idx])) false true
      ({[idx]} ∪ host_veths m))) as (m' & l & E & E1 & E2 & E3); cbn; [done|done| | |].
    + assert (size ({[idx]} ∪ allocated m) ≤ 1 + size (allocated m))%nat; [|lia].
      rewrite size_union_alt, size_singleton. pose proof (subseteq_size (allocated m ∖ {[idx]}) (allocated m) ltac:(set_solver)). lia.
    + unfold pool_len, zlen in *. cbn. rewrite length_app. cbn. lia.
    + exists m', (idx :: l). split_and!; [done|done| |cbn; lia]. rewrite E2. cbn. by rewrite <- app_assoc.
Qed.

Lemma cleanup_succeeds m idx : idx ∈ allocated m → 0 < idx < MAX_SLOTS →
  run env (cleanup_slot_and_release_bit idx) m =
    (mkManager (allocated m ∖ {[idx]}) (pool m) (nm_shutting_down m) (host_iptables_installed m) (host_veths m ∖ {[idx]}), Ok tt).
Proof.
  intros Ha Hr. destruct Hworks as (_ & Hc & _). unfold cleanup_slot_and_release_bit, release_slot_bit.
  rewrite (proj2 (Z.eqb_neq idx 0)), (proj2 (Z.leb_gt MAX_SLOTS idx)) by lia. cbn. unfold remove_veth.
  rewrite Hc. cbn. by rewrite bool_decide_eq_true_2.
Qed.

Lemma drain_loop_drains l : ∀ m k, pool_slots_ok m → idle (pool m) = k ++ l →
  ∃ m', run env (drain_loop (length l)) m = (m', Ok tt) ∧ nm_shutting_down m' = nm_shutting_down m
    ∧ pool m' = with_idle (pool m) k.
Proof.
  induction l as [|x l IH] using rev_ind; intros m k [Hnd Hok] Hi.
  - exists m. rewrite app_nil_r in Hi. split_and!; [done|done|]. rewrite <- Hi. by destruct (pool m).
  - rewrite length_app, Nat.add_comm. cbn [Nat.add length drain_loop pbind act run perform].
    assert (try_drain_one (pool m) = (with_idle (pool m) (k ++ l), Some x)) as E.
    { unfold try_drain_one. rewrite Hi, app_assoc, last_snoc, removelast_last. done. }
    unfold on_pool. rewrite E. cbn [fst snd]. rewrite run_bind.
    assert (x ∈ idle (pool m)) as Hx by (rewrite Hi; set_solver).
    rewrite cleanup_succeeds by (by apply Hok). cbn [with_pool allocated pool].
    rewrite Hi, app_assoc in Hnd. apply NoDup_app in Hnd as (Hnd & Hdis & _).
    match goal with |- context [run env (drain_loop _) ?m1] => destruct (IH m1 k) as (m' & E1 & E2 & E3); [|done|by exists m'] end.
    split; cbn; [done|]. intros i Hin. destruct (Hok i) as [Ha Hr]; [rewrite Hi, app_assoc; set_solver|]. split; [|done].
    apply elem_of_difference. split; [done|]. intros ->%elem_of_singleton. apply (Hdis x Hin). set_solver.
Qed.

Lemma cycle_settles m : pool_slots_ok m → pool_ok (pool m) →
  nm_shutting_down m = false → shutting_down (pool m) = false →
  Z.of_nat (size (allocated m)) + high_watermark (config (pool m)) ≤ MAX_SLOTS →
  ∃ m' l, run env run_pool_maintenance_cycle m = (m', Ok tt)
    ∧ nm_shutting_down m' = false ∧ pool m' = with_idle (pool m) l ∧ settled (pool m').
Proof.
  intros Hw [Hlow Hhi Htgt] Es Ep Hs. cbn [run_pool_maintenance_cycle pbind act run perform].
  unfold compute_maintenance_action.
  assert (current_fill_target (pool m) = fill_target (pool m)) as Et by (unfold current_fill_target; lia).
  rewrite Et. set (p := pool m) in *.
  assert (0 ≤ pool_len p) as Hn by (unfold pool_len, zlen; lia).
  destruct (Z.ltb_spec (pool_len p) (fill_target p)) as [Hf|Hf].
  - unfold saturating_sub. rewrite (proj2 (Z.ltb_lt 0 _)) by lia. cbn [andb].
    destruct (fill_loop_fills (Z.to_nat (Z.max 0 (fill_target p - pool_len p))) m) as (m' & l & E & E1 & E2 & E3);
      [done|done|fold p; lia|fold p; lia|].
    exists m', (idle p ++ l). split_and!; [done|done|done|]. rewrite E2. apply settled_len.
    fold p. rewrite Et. unfold pool_len, zlen in *. rewrite length_app. lia.
  - destruct (Z.ltb_spec (high_watermark (config p)) (pool_len p)) as [Hd|Hd]; cbn [andb].
    + rewrite (proj2 (Z.ltb_lt 0 _)) by lia.
      set (k := Z.to_nat (high_watermark (config p))).
      destruct (drain_loop_drains (drop k (idle p)) m (take k (idle p)) Hw) as (m' & E & E1 & E2);
        [by rewrite take_drop|].
      rewrite length_drop in E. unfold pool_len, zlen in *.
      replace (Z.to_nat (Z.of_nat (length (idle p)) - high_watermark (config p))) with (length (idle p) - k)%nat by lia.
      exists m', (take k (idle p)). split_and!; [done|congruence|done|]. rewrite E2. apply settled_len.
      fold p. rewrite Et. unfold zlen. rewrite length_take. lia.
    + exists m, (idle p). split_and!; [done|done|unfold p; by destruct (pool m)|].
      unfold settled. fold p. lia.
Qed.
End Convergence.

(** An allocation from a pool with a warm slot needs nothing of the machine. *)
Lemma allocate_warm env low m x l : nm_shutting_down m = false → shutting_down (pool m) = false → idle (pool m) = x :: l →
  ∃ m', run env (allocate_any low) m = (m', Ok x).
Proof.
  intros Es Ep Ei. unfold allocate_any, pool_try_acquire. cbn. rewrite Es. cbn. rewrite Ep. cbn.
  unfold pop_front. rewrite Ei. cbn. rewrite Es. cbn. destruct (_ <? _); cbn; by eexists.
Qed.

(** C36: when the maintenance worker is woken while no other thread runs,
    namespaces can be created and torn down and the bitmap has room, one round
    of its loop brings the pool between its refill target and its high
    watermark, and the worker then finds no signal and goes back to sleep.  If
    the low watermark is at least one, the next allocation in the state that is
    reached gets a warm slot, whatever the machine answers. *)
Theorem maintenance_settles_the_pool env m p :
  search_complete env → machine_works env → pool_slots_ok m → pool_ok (pool m) →
  nm_shutting_down m = false → shutting_down (pool m) = false →
  Z.of_nat (size (allocated m)) + high_watermark (config (pool m)) ≤ MAX_SLOTS →
  worker_wait (pool m) = Some (Some p) →
  ∃ m', worker_burst pool (λ m, (run env run_pool_maintenance_cycle m).1) 1 (with_pool m p) = Some m'
    ∧ settled (pool m') ∧ worker_wait (pool m') = None
    ∧ (1 ≤ low_watermark (config (pool m)) → ∀ env',
         ∃ m'' idx, run env' (allocate_any (low_watermark (config (pool m')))) m' = (m'', Ok idx)).
Proof.
  intros Hfind Hworks Hw Hp Es Ep Hs Hwake.
  assert (p = with_signal (pool m) false false) as ->.
  { unfold worker_wait in Hwake. destruct (signal_stop _); [done|]. destruct (signal_pending _); by simplify_eq. }
  destruct (cycle_settles env Hfind Hworks (with_pool m (with_signal (pool m) false false)))
    as (m' & l & E & E1 & E2 & E3); [done|by eapply pool_ok_same|done|done|done|].
  exists m'. assert (shutting_down (pool m') = false) as Ep' by (by rewrite E2).
  split_and!; [|done|by rewrite E2|].
  - cbn [worker_burst]. unfold worker_round.
    change (shutting_down (pool (with_pool m (with_signal (pool m) false false)))) with (shutting_down (pool m)).
    rewrite Ep, E. cbn [fst]. by rewrite Ep', settled_idle.
  - intros Hl env'. destruct (idle (pool m')) as [|x k] eqn:Ek.
    + exfalso. destruct E3 as [E3 _]. destruct Hp as [Hp1 Hp2 Hp3].
      unfold pool_len, zlen, current_fill_target in E3. rewrite Ek, E2 in E3. cbn in E3. lia.
    + destruct (allocate_warm env' (low_watermark (config (pool m'))) m' x k E1 Ep' Ek) as [m'' Em]. by exists m'', x.
Qed.

(** ** Examples *)

(** A network as its base, its size and its prefix length. *)
#[local] Instance ex_ranges : RangeOps := {|
  Net := Z * Z * Z;
  net_base := λ n, n.1.1;
  net_size := λ n, n.1.2;
  net_prefix := λ n, n.2;
  net_overlaps := λ a b, (a.1.1 <? b.1.1 + b.1.2) && (b.1.1 <? a.1.1 + a.1.2);
  net_has := λ n ip, (n.1.1 <=? ip) && (ip <? n.1.1 + n.1.2);
  net_parse := λ s, match s with [a; b; c] => Some (a, b, c) | _ => None end
|}.

#[local] Instance ex_ranges_spec : RangeSpec.
Proof.
  constructor; simpl; intros.
  - apply andb_true_iff. lia.
  - apply andb_false_iff in H. apply andb_true_iff in H0. apply andb_false_iff. lia.
Qed.

(** The first clear bit of the [n] from [i]. *)
Fixpoint ex_find (n : nat) (i : Z) (s : gset Z) : option Z :=
  match n with
  | O => None
  | S n' => if bool_decide (i ∈ s) then ex_find n' (i + 1) s else Some i
  end.
Definition ex_search : gset Z → option Z := ex_find (Z.to_nat MAX_SLOTS) 0.

(** A machine on which namespaces come up, or do not although their interface
    does. *)
Definition ex_machine (works : bool) : environment :=
  mkEnv ex_search (λ _, works) (λ _, true) (λ _, true) (λ _, false) true.

Lemma ex_find_free n i s k : ex_find n i s = Some k → (k ∉ s) ∧ i ≤ k < i + Z.of_nat n.
Proof.
  revert i. induction n as [|n IH]; intros i; simpl; [done|]. case_bool_decide; [|intros [= <-]; split; [done|lia]].
  intros [? ?]%IH. split; [done|lia].
Qed.

Lemma ex_find_finds n i s k : i ≤ k < i + Z.of_nat n → k ∉ s → ex_find n i s ≠ None.
Proof.
  revert i. induction n as [|n IH]; intros i Hk Hn; simpl; [lia|]. case_bool_decide as Hi; [|done].
  apply IH; [|done]. destruct (decide (i = k)); [by subst|lia].
Qed.

Lemma max_slots_nat : 0 + Z.of_nat (Z.to_nat MAX_SLOTS) = MAX_SLOTS.
Proof. by rewrite Z2Nat.id. Qed.

Lemma ex_search_sound works : search_sound (ex_machine works).
Proof. intros s k. rewrite <- max_slots_nat. apply ex_find_free. Qed.

Lemma ex_search_complete works : search_complete (ex_machine works).
Proof. intros s k. rewrite <- max_slots_nat. apply ex_find_finds. Qed.

Definition ex_pool_config : PoolConfig := mkPoolConfig 2 4 true true.
Definition ex_manager : NetworkManager := manager_new ex_pool_config [3] true.

(** The manager once the worker has been started, which wakes it. *)
Definition ex_started : NetworkManager := with_pool ex_manager (start_maintenance_worker true (pool ex_manager)).

Lemma ex_pool_ok : pool_ok (pool ex_started).
Proof. constructor; vm_compute; repeat split; discriminate. Qed.

Lemma ex_room : Z.of_nat (size (allocated ex_started)) + high_watermark (config (pool ex_started)) ≤ MAX_SLOTS.
Proof. vm_compute. discriminate. Qed.

Lemma ex_works : machine_works (ex_machine true).
Proof. by split_and!. Qed.

Lemma ex_started_slots : pool_slots_ok ex_started.
Proof. split; [constructor|]. intros i Hi. by apply not_elem_of_nil in Hi. Qed.

Lemma maintenance_settles_the_pool_witness :
  ∃ m', worker_burst pool (λ m, (run (ex_machine true) run_pool_maintenance_cycle m).1) 1
          (with_pool ex_started (with_signal (pool ex_started) false false)) = Some m'
    ∧ settled (pool m') ∧ worker_wait (pool m') = None
    ∧ (1 ≤ low_watermark (config (pool ex_started)) → ∀ env',
         ∃ m'' idx, run env' (allocate_any (low_watermark (config (pool m')))) m' = (m'', Ok idx)).
Proof.
  exact (maintenance_settles_the_pool (ex_machine true) ex_started _ (ex_search_complete true) ex_works ex_started_slots ex_pool_ok
    eq_refl eq_refl ex_room eq_refl).
Defined.

(** The pool then holds two slots, and the next sandbox gets the first. *)
Example ex_warm :
  let m := (run (ex_machine true) run_pool_maintenance_cycle ex_started).1 in
  idle (pool m) = [1; 2] ∧ (run (ex_machine true) (allocate_any 2) m).2 = Ok 1.
Proof. vm_compute. split; reflexivity. Qed.
