(* ===== verification/NetThreads.v ===== *)
(** * The threads of the network manager

    Allocations, releases, the maintenance worker and shutdown run in threads
    of their own over the state of [NetManager].  A step is one action of one
    thread, a call, or the return of a call; every interleaving is a run, and
    every action that asks the machine can fail.

    Which slots a thread owns is what Rust's ownership of [Slot] values says:
    [owned_after] moves them with the actions.  A slot whose bit has been cleared
    is not owned any more, although its [Slot] value can still be dropped: the
    drop is an action of its own, and other threads run before it. *)

From stdpp Require Import gmap relations.
From S2P Require Import Prelude WarmPool NetManager.

Open Scope prog_scope.

(** ** Calls *)

(** [OpCleanup] is [cleanup_allocated_slot]. *)
Inductive nm_op : Type := OpAllocate | OpRelease (idx : Z) | OpCleanup (idx : Z) | OpMaintain | OpShutdown.

(** What a call returns: the slot it hands out, if any. *)
Abbreviation outcome := (result network_error (option Z)).

Definition done (p : prog (result network_error unit)) : prog outcome :=
  do r <- p; Ret (match r with Ok _ => Ok None | Err e => Err e end).

Definition start (low_watermark : Z) (op : nm_op) : prog outcome :=
  match op with
  | OpAllocate => do r <- allocate_any low_watermark; Ret (match r with Ok idx => Ok (Some idx) | Err e => Err e end)
  | OpRelease idx => done (nm_release idx)
  | OpCleanup idx => done (cleanup_slot_and_release_bit idx)
  | OpMaintain => done run_pool_maintenance_cycle
  | OpShutdown => done shutdown_inner
  end.

Definition handed (r : outcome) : list Z := match r with Ok (Some idx) => [idx] | _ => [] end.

(** ** What a thread owns and knows *)

(** The slots of a thread, each with whether its network is set up. *)
Abbreviation slots := (list (Z * bool)).

Definition mark (idx : Z) (b : bool) (o : slots) : slots := (λ x, if x.1 =? idx then (x.1, b) else x) <$> o.
Definition without (idx : Z) (o : slots) : slots := filter (λ x, x.1 ≠ idx) o.
Definition set_up (l : list Z) : slots := (λ i, (i, true)) <$> l.

#[local] Arguments mark : simpl never.
#[local] Arguments without : simpl never.
#[local] Arguments cleanup_slot_and_release_bit : simpl never.
#[local] Arguments allocate_fresh_slot : simpl never.

Definition owned_after {B} (a : action B) : B → slots → slots :=
  match a with
  | PoolPopFront | PoolTryDrainOne => λ r o, set_up (option_list r) ++ o
  | PoolTakeAll => λ l o, set_up l ++ o
  | SetNextFreeBit => λ r o, ((λ i, (i, false)) <$> option_list r) ++ o
  | CreateNetwork idx => λ b o, if b then mark idx true o else o
  | CleanupSlot idx => λ b o, if b then mark idx false o else o
  | PoolTryPushBounded idx | PoolRelease idx => λ b o, if b then without idx o else o
  | RemoveBit idx => λ _ o, without idx o
  | _ => λ _ o, o
  end.

(** What a thread has seen: that a set-up or a tear-down failed, that the pool
    is closed, that it has been emptied after that. *)
Record know : Type := mkKnow { saw_fault : bool; saw_closed : bool; saw_drained : bool }.

Definition know_nothing : know := mkKnow false false false.

Definition learn {B} (a : action B) : B → know → know :=
  match a with
  | CreateNetwork _ | CleanupSlot _ => λ b k, mkKnow (saw_fault k || negb b) (saw_closed k) (saw_drained k)
  | PoolClose => λ _ k, mkKnow (saw_fault k) true (saw_drained k)
  | PoolTakeAll => λ _ k, mkKnow (saw_fault k) (saw_closed k) true
  | _ => λ _ k, k
  end.

(** ** Worlds *)

Inductive nm_thread : Type :=
| Active (op : nm_op) (code : prog outcome) (owned : slots) (seen : know)
| Ended (op : nm_op) (r : outcome).

(** [w_running] are the slots that sandboxes own.  [w_fault] and [w_drained]
    record what some thread has seen. *)
Record nm_world : Type := mkWorld {
  w_manager : NetworkManager;
  w_threads : list nm_thread;
  w_running : list Z;
  w_fault : bool;
  w_drained : bool
}.

Definition world_new (c : PoolConfig) (existing : list Z) (installed : bool) : nm_world :=
  mkWorld (manager_new c existing installed) [] [] false false.

Inductive nm_step : nm_world → nm_world → Prop :=
| nm_call op m ts run f d : op = OpAllocate ∨ op = OpMaintain ∨ op = OpShutdown →
    nm_step (mkWorld m ts run f d)
      (mkWorld m (ts ++ [Active op (start (low_watermark (config (pool m))) op) [] know_nothing]) run f d)
| nm_give_back op idx m ts run run' f d : op = OpRelease idx ∨ op = OpCleanup idx → run ≡ₚ idx :: run' →
    nm_step (mkWorld m ts run f d)
      (mkWorld m (ts ++ [Active op (start (low_watermark (config (pool m))) op) [(idx, true)] know_nothing]) run' f d)
| nm_act t op B (a : action B) k o seen env m ts run f d m' b : search_sound env →
    ts !! t = Some (Active op (Act a k) o seen) → perform env a m = (m', b) →
    nm_step (mkWorld m ts run f d)
      (mkWorld m' (<[t := Active op (k b) (owned_after a b o) (learn a b seen)]> ts) run
         (f || saw_fault (learn a b seen)) (d || saw_drained (learn a b seen)))
| nm_return t op r o seen m ts run f d : ts !! t = Some (Active op (Ret r) o seen) →
    nm_step (mkWorld m ts run f d) (mkWorld m (<[t := Ended op r]> ts) (handed r ++ run) f d)
| nm_signal p m ts run f d : same_queue (pool m) p →
    nm_step (mkWorld m ts run f d) (mkWorld (with_pool m p) ts run f d).

Definition owned (t : nm_thread) : slots := match t with Active _ _ o _ => o | Ended _ _ => [] end.
Definition owned_by (ts : list nm_thread) : slots := ts ≫= owned.

(** The slots in the pool, with sandboxes and with threads. *)
Definition all_slots (w : nm_world) : list Z :=
  idle (pool (w_manager w)) ++ w_running w ++ (owned_by (w_threads w)).*1.

(** ** Programs keep to their slots *)

(** What a thread must own or know to do an action. *)
Definition may {B} (a : action B) (o : slots) (k : know) : Prop :=
  match a with
  | CreateNetwork idx => (idx, false) ∈ o
  | CleanupSlot idx | RemoveBit idx => idx ∈ o.*1
  | PoolTryPushBounded idx | PoolRelease idx => (idx, true) ∈ o
  | DropSlot _ => saw_fault k = true
  | PoolTakeAll => saw_closed k = true
  | _ => True
  end.

Definition valid (idx : Z) : Prop := 0 < idx < MAX_SLOTS.

(** The slots an action gives are valid. *)
Definition answers {B} (a : action B) : B → Prop :=
  match a with
  | PoolPopFront | PoolTryDrainOne | SetNextFreeBit => λ r, ∀ idx, r = Some idx → valid idx
  | PoolTakeAll => λ l, NoDup l ∧ Forall valid l
  | _ => λ _, True
  end.

Fixpoint follows {A} (p : prog A) (o : slots) (k : know) (Q : A → slots → know → Prop) : Prop :=
  match p with
  | Ret a => Q a o k
  | Act a c => may a o k ∧ ∀ b, answers a b → follows (c b) (owned_after a b o) (learn a b k) Q
  end.

(** After shutdown has set its flag the program hands out no slot. *)
Fixpoint rejects {A} (p : prog A) (Q : A → Prop) : Prop :=
  match p with
  | Ret a => Q a
  | Act a c =>
      match a in action B return (B → Prop) → Prop with
      | LoadShuttingDown => λ c, c true
      | _ => λ c, ∀ b, c b
      end (λ b, rejects (c b) Q)
  end.

(** A thread without a slot will see the flag. *)
Fixpoint careful (p : prog outcome) (o : slots) : Prop :=
  (o = [] → rejects p (λ r, handed r = []))
  ∧ match p with Ret _ => True | Act a c => ∀ b, careful (c b) (owned_after a b o) end.

Lemma follows_bind {A B} (p : prog A) (c : A → prog B) o k Q :
  follows p o k (λ a o k, follows (c a) o k Q) → follows (pbind p c) o k Q.
Proof. revert o k. induction p as [a|C a c' IH]; intros o k; [done|]. intros [Hm Hc]. split; [done|]. intros b Hb. by apply IH, Hc. Qed.

Lemma follows_weaken {A} (p : prog A) o k (Q Q' : A → slots → know → Prop) :
  (∀ a o k, Q a o k → Q' a o k) → follows p o k Q → follows p o k Q'.
Proof. intros HQ. revert o k. induction p as [a|C a c IH]; intros o k; [apply HQ|]. intros [Hm Hc]. split; [done|]. intros b Hb. by apply IH, Hc. Qed.

Lemma rejects_always {A} (p : prog A) (Q : A → Prop) : (∀ a, Q a) → rejects p Q.
Proof. intros HQ. induction p as [a|C a c IH]; [apply HQ|]. destruct a; cbn; intros; apply IH. Qed.

Lemma rejects_bind {A B} (p : prog A) (c : A → prog B) Q : rejects p (λ a, rejects (c a) Q) → rejects (pbind p c) Q.
Proof. induction p as [a|C a c' IH]; [done|]. destruct a; cbn; intros H; try (intros b; apply IH, H); by apply IH. Qed.

(** A program none of whose results hands out a slot. *)
Lemma careful_done p o : careful (done p) o.
Proof.
  revert o. unfold done. induction p as [r|B a c IH]; intros o; cbn; [by destruct r|]. split; [|intros b; apply IH].
  intros _. assert (∀ b, rejects (pbind (c b) (λ r, Ret (match r with Ok _ => Ok None | Err e => Err e end))) (λ r, handed r = [])) as H.
  { intros b. apply rejects_bind, rejects_always. by intros [?|?]. }
  destruct a; cbn; intros; apply H.
Qed.

(** ** The operations keep to their slots *)

Lemma without_mark idx b o : without idx (mark idx b o) = without idx o.
Proof.
  unfold without, mark. induction o as [|[i x] o IH]; [done|]. rewrite fmap_cons, !filter_cons. cbn.
  destruct (Z.eqb_spec i idx) as [->|Hne]; cbn; rewrite IH; [by destruct (decide (idx ≠ idx))|done].
Qed.

Lemma mark_fst idx b o : (mark idx b o).*1 = o.*1.
Proof. unfold mark. rewrite <- list_fmap_compose. apply list_fmap_ext. intros j [i x] _. cbn. by destruct (i =? idx). Qed.

Lemma without_self idx b : without idx [(idx, b)] = [].
Proof. unfold without. by rewrite filter_cons_False by (cbn; congruence). Qed.

(** What a thread knows of the pool is what it knew. *)
Definition kept (k k' : know) : Prop := saw_closed k' = saw_closed k ∧ saw_drained k' = saw_drained k.

Lemma cleanup_follows idx o k (Q : result network_error unit → slots → know → Prop) : valid idx → idx ∈ o.*1 →
  (∀ r k', kept k k' → Q r (without idx o) k') → follows (cleanup_slot_and_release_bit idx) o k Q.
Proof.
  intros Hv Hin HQ. unfold cleanup_slot_and_release_bit, release_slot_bit. unfold valid in Hv.
  rewrite (proj2 (Z.eqb_neq idx 0)), (proj2 (Z.leb_gt MAX_SLOTS idx)) by lia. cbn. split; [done|]. intros b _.
  split; [by destruct b; rewrite ?mark_fst|]. intros c _.
  destruct b; cbn.
  - rewrite without_mark. by apply HQ.
  - split; [by rewrite orb_true_r|]. intros _ _. by apply HQ.
Qed.

(** The slots of a result. *)
Definition given (r : result network_error Z) : list Z := match r with Ok idx => [idx] | Err _ => [] end.

Lemma mark_self idx b c : mark idx b [(idx, c)] = [(idx, b)].
Proof. unfold mark. cbn. by rewrite Z.eqb_refl. Qed.

Lemma fresh_follows k (Q : result network_error Z → slots → know → Prop) :
  (∀ r k', kept k k' → Forall valid (given r) → Q r (set_up (given r)) k') → follows allocate_fresh_slot [] k Q.
Proof.
  intros HQ. unfold allocate_fresh_slot. cbn [pbind act follows may]. split; [done|]. intros [] _; [by apply HQ|].
  cbn [pbind act follows may]. split; [done|]. intros i _.
  assert (follows (do free <- act SetNextFreeBit;
      match free with
      | None => Ret (Err NoAvailableSlots)
      | Some idx =>
          do created <- act (CreateNetwork idx);
          if negb created then
            do _ <- act (RemoveBit idx);
            do _ <- act (DropSlot idx);
            Ret (Err CreateFailed)
          else
            do stopping <- act LoadShuttingDown;
            if stopping : bool then
              do r <- cleanup_slot_and_release_bit idx;
              Ret (match r with Ok _ => Err ShuttingDown | Err e => Err e end)
            else Ret (Ok idx)
      end) [] k Q) as Hrest.
  { cbn. split; [done|]. intros [idx|] Hv; [|by apply HQ]. specialize (Hv idx eq_refl). cbn.
    split; [by left|]. intros [] _; cbn [negb pbind act follows may owned_after learn].
    - split; [done|]. intros [] _.
      + apply follows_bind, cleanup_follows; [done|by rewrite mark_fst; left|]. intros r k' Hk.
        rewrite without_mark, without_self. cbn. by destruct r; apply HQ.
      + rewrite mark_self. apply (HQ (Ok idx)); [done|by apply Forall_singleton].
    - split; [by left|]. intros _ _. rewrite without_self. split; [cbn; by rewrite orb_true_r|]. intros _ _. by apply HQ. }
  destruct i; cbn [pbind act follows may owned_after learn].
  - exact Hrest.
  - split; [done|]. intros [] _; [exact Hrest|by apply HQ].
Qed.

Lemma allocate_any_follows low k (Q : result network_error Z → slots → know → Prop) :
  (∀ r k', kept k k' → Forall valid (given r) → Q r (set_up (given r)) k') → follows (allocate_any low) [] k Q.
Proof.
  intros HQ. unfold allocate_any, pool_try_acquire. cbn [pbind act follows may]. split; [done|].
  intros [] _; cbn [pbind act follows may]; [by apply HQ|]. split; [done|].
  intros [] _; cbn [pbind act follows may owned_after learn]; [by apply fresh_follows|]. split; [done|].
  intros [idx|] Hv; cbn; [|by apply fresh_follows]. specialize (Hv idx eq_refl). split; [done|]. intros [] _.
  - apply follows_bind, cleanup_follows; [done|by left|]. intros r k' Hk. rewrite without_self. by apply HQ.
  - cbn. split; [done|]. intros len _. assert (∀ u : unit, Q (Ok idx) (set_up [idx]) k) as H.
    { intros _. apply (HQ (Ok idx)); [done|by apply Forall_singleton]. }
    destruct (_ <? _); cbn; [split; [done|]; intros u _|]; by apply (H tt).
Qed.

Lemma release_follows idx k (Q : result network_error unit → slots → know → Prop) : valid idx →
  (∀ r k', kept k k' → Q r [] k') → follows (nm_release idx) [(idx, true)] k Q.
Proof.
  intros Hv HQ. assert (follows (cleanup_slot_and_release_bit idx) [(idx, true)] k Q) as Hc.
  { apply cleanup_follows; [done|by left|]. rewrite without_self. intros. by apply HQ. }
  unfold nm_release, pool_release. cbn [pbind act follows may]. split; [done|]. intros [] _; [exact Hc|].
  cbn [pbind act follows may owned_after learn]. split; [done|]. intros [] _; [exact Hc|].
  cbn [pbind act follows may owned_after learn]. split; [by left|].
  intros [] _; cbn [pbind act follows may owned_after learn]; [|exact Hc]. rewrite without_self. by apply HQ.
Qed.

Lemma kept_trans k1 k2 k3 : kept k1 k2 → kept k2 k3 → kept k1 k3.
Proof. unfold kept. intuition congruence. Qed.

Lemma fill_follows n : ∀ k (Q : result network_error unit → slots → know → Prop),
  (∀ r k', kept k k' → Q r [] k') → follows (fill_loop n) [] k Q.
Proof.
  induction n as [|n IH]; intros k Q HQ; [by apply HQ|]. cbn [fill_loop pbind act follows may]. split; [done|].
  intros [] _; [by apply HQ|]. apply follows_bind, fresh_follows. intros [idx|e] k1 Hk1 Hv; [|by apply HQ].
  apply (Forall_singleton valid) in Hv. change (set_up (given (Ok idx))) with [(idx, true)].
  assert (∀ k2, kept k1 k2 → follows (fill_loop n) [] k2 Q) as Hloop.
  { intros k2 Hk2. apply IH. intros r k' Hk'. apply HQ. eauto using kept_trans. }
  assert (follows (do r <- cleanup_slot_and_release_bit idx; match r with Ok _ => fill_loop n | Err e => Ret (Err e) end)
    [(idx, true)] k1 Q) as Hc.
  { apply follows_bind, cleanup_follows; [done|by left|]. rewrite without_self. intros [?|e] k2 Hk2; [by apply Hloop|].
    apply HQ. eauto using kept_trans. }
  unfold pool_try_push_bounded. cbn [pbind act follows may]. split; [done|]. intros [] _; [exact Hc|].
  cbn [pbind act follows may owned_after learn]. split; [by left|].
  intros [] _; cbn [pbind act follows may owned_after learn]; [|exact Hc]. rewrite without_self. by apply Hloop.
Qed.

Lemma drain_follows n : ∀ k (Q : result network_error unit → slots → know → Prop),
  (∀ r k', kept k k' → Q r [] k') → follows (drain_loop n) [] k Q.
Proof.
  induction n as [|n IH]; intros k Q HQ; [by apply HQ|]. cbn. split; [done|]. intros [idx|] Hv; cbn; [|by apply HQ].
  apply follows_bind, cleanup_follows; [by apply Hv|by left|]. rewrite without_self.
  intros [?|e] k2 Hk2; [|by apply HQ]. apply IH. intros r k' Hk'. apply HQ. eauto using kept_trans.
Qed.

Lemma without_app idx o1 o2 : without idx (o1 ++ o2) = without idx o1 ++ without idx o2.
Proof. apply filter_app. Qed.

Lemma without_not idx o : idx ∉ o.*1 → without idx o = o.
Proof.
  induction o as [|[i b] o IH]; [done|]. intros [Hne Hn]%not_elem_of_cons. unfold without in *.
  rewrite filter_cons_True by (cbn in *; congruence). by rewrite IH.
Qed.

Lemma set_up_fst l : (set_up l).*1 = l.
Proof. unfold set_up. rewrite <- list_fmap_compose. apply list_fmap_id. Qed.

Lemma cleanup_all_follows l : ∀ k (Q : bool → slots → know → Prop), NoDup l → Forall valid l →
  (∀ r k', kept k k' → Q r [] k') → follows (cleanup_all l) (set_up l) k Q.
Proof.
  induction l as [|idx l IH]; intros k Q Hnd Hv HQ; [by apply HQ|]. apply NoDup_cons in Hnd as [Hn Hnd].
  apply Forall_cons in Hv as [Hv Hvl]. cbn [cleanup_all].
  apply follows_bind, cleanup_follows; [done|by left|]. intros r k1 Hk1.
  change (set_up (idx :: l)) with ([(idx, true)] ++ set_up l). rewrite without_app, without_self, without_not by (by rewrite set_up_fst).
  apply follows_bind, IH; [done|done|]. intros ok k2 Hk2. apply HQ. eauto using kept_trans.
Qed.

Lemma shutdown_follows k (Q : result network_error unit → slots → know → Prop) :
  (∀ r k', saw_drained k' = true → Q r [] k') → follows shutdown_inner [] k Q.
Proof.
  intros HQ. unfold shutdown_inner, pool_drain_all. cbn. do 3 (split; [done|]; intros _ _). split; [done|].
  intros l [Hnd Hv]. rewrite app_nil_r. apply follows_bind, cleanup_all_follows; [done|done|].
  intros ok k' [_ Hk]. cbn. split; [done|]. intros _ _. apply HQ. by rewrite Hk.
Qed.

(** How a call ends: it owns what it hands out, and shutdown has emptied the
    pool. *)
Definition ends (op : nm_op) (r : outcome) (o : slots) (k : know) : Prop :=
  o = set_up (handed r) ∧ (op = OpShutdown → saw_drained k = true).

Definition start_slots (op : nm_op) : slots :=
  match op with OpRelease idx | OpCleanup idx => [(idx, true)] | _ => [] end.

Lemma start_follows low op : Forall valid (start_slots op).*1 →
  follows (start low op) (start_slots op) know_nothing (ends op).
Proof.
  intros Hv. destruct op as [|idx|idx| |]; cbn [start start_slots] in *; unfold done; apply follows_bind.
  - apply allocate_any_follows. by intros [idx|e] k' _ _.
  - apply (Forall_singleton valid) in Hv. apply release_follows; [done|]. by intros [?|e] k' _.
  - apply (Forall_singleton valid) in Hv. apply cleanup_follows; [done|by left|]. rewrite without_self. by intros [?|e] k' _.
  - unfold run_pool_maintenance_cycle. cbn. split; [done|]. intros len _. split; [done|].
    intros [n|n|] _; cbn; [apply fill_follows|apply drain_follows|done]; by intros [?|e] k' _.
  - apply shutdown_follows. by intros [?|e] k' Hk.
Qed.

Ltac any_answer :=
  repeat (cbn; try done;
    match goal with
    | |- ∀ _ : bool, _ => intros []
    | |- ∀ _ : option _, _ => intros [?|]
    | |- ∀ _, _ => intros ?
    | |- context [if ?c then _ else _] => destruct c
    end).

Ltac no_slot := intros Ho; first [by unfold mark in Ho | by any_answer].

Lemma allocate_careful low : careful (start low OpAllocate) [].
Proof.
  cbn [start]. unfold allocate_any, pool_try_acquire, allocate_fresh_slot, cleanup_slot_and_release_bit, release_slot_bit.
  repeat (cbn [careful pbind act owned_after negb];
    match goal with
    | |- _ ∧ _ => split
    | |- True => done
    | |- _ = [] → _ => no_slot
    | |- ∀ _ : bool, _ => intros []
    | |- ∀ _ : option _, _ => intros [?|]
    | |- ∀ _, _ => intros ?
    | |- context [if ?c then _ else _] => destruct c
    end).
Qed.

Lemma start_careful low op : careful (start low op) (start_slots op).
Proof. destruct op; [apply allocate_careful|apply careful_done..]. Qed.

(** ** What an action does to the shared state *)

Lemma without_perm i o : NoDup o.*1 → i ∈ o.*1 → o.*1 ≡ₚ i :: (without i o).*1.
Proof.
  induction o as [|[j b] o IH]; cbn; [by intros _ ?%not_elem_of_nil|]. intros [Hj Hnd]%NoDup_cons.
  change ((j, b) :: o) with ([(j, b)] ++ o). rewrite without_app. destruct (decide (j = i)) as [->|Hne].
  - intros _. by rewrite without_self, (without_not i o).
  - intros [->|Hi]%elem_of_cons; [done|]. rewrite (without_not i [(j, b)]) by (cbn; set_solver). cbn.
    rewrite IH by done. apply Permutation_swap.
Qed.

Lemma unset_fst (l : list Z) : ((λ i, (i, false)) <$> l).*1 = l.
Proof. rewrite <- list_fmap_compose. apply list_fmap_id. Qed.

(** A slot is offered to the pool, which takes it or not. *)
Lemma taken_moves (p q : WarmPool Z) x i o : idle p ++ [i] = idle q ++ option_list x → NoDup o.*1 → i ∈ o.*1 →
  let o' := if (taken (q, x)).2 then without i o else o in idle q ++ o'.*1 ≡ₚ idle p ++ o.*1.
Proof.
  intros E Hnd Hi. destruct x as [j|]; cbn in *.
  - by apply app_inj_tail in E as [-> _].
  - rewrite app_nil_r in E. rewrite (without_perm i o Hnd Hi), <- E. solve_Permutation.
Qed.

Lemma got_moves (p q : WarmPool Z) x (o : slots) : idle p ≡ₚ option_list x ++ idle q →
  idle q ++ (set_up (option_list x) ++ o).*1 ≡ₚ idle p ++ o.*1.
Proof. intros ->. rewrite fmap_app, set_up_fst. solve_Permutation. Qed.

Lemma elem_of_mark i c idx b o : (i, c) ∈ mark idx b o → (i = idx ∧ c = b) ∨ (i ≠ idx ∧ (i, c) ∈ o).
Proof.
  unfold mark. intros ([j d] & E & Hj)%list_elem_of_fmap. cbn in E. destruct (Z.eqb_spec j idx) as [->|Hne]; simplify_eq; auto.
Qed.

Lemma elem_of_without x idx o : x ∈ without idx o → x ∈ o.
Proof. unfold without. by intros [_ ?]%list_elem_of_filter. Qed.

Lemma elem_of_set_up i l : (i, true) ∈ set_up l → i ∈ l.
Proof. unfold set_up. intros (j & [= ->] & Hj)%list_elem_of_fmap. done. Qed.

Lemma elem_of_unset i (l : list Z) : (i, true) ∉ (λ i, (i, false)) <$> l.
Proof. by intros (j & [=] & _)%list_elem_of_fmap. Qed.

Section Perform.
Context (env : environment) {B : Type} (a : action B) (m m' : NetworkManager) (b : B) (o : slots) (k : know).
Context (Hsound : search_sound env) (Hmay : may a o k) (Hp : perform env a m = (m', b)).
Context (Hnd : NoDup (idle (pool m) ++ o.*1)).

(** Slots move between the pool and the thread, one is taken from the bitmap,
    or one is given up. *)
Lemma perform_slots :
  let o' := owned_after a b o in
  (idle (pool m') ++ o'.*1 ≡ₚ idle (pool m) ++ o.*1 ∧ allocated m' = allocated m)
  ∨ (∃ i, next_free_bit env (allocated m) = Some i ∧ idle (pool m') ++ o'.*1 ≡ₚ i :: idle (pool m) ++ o.*1
       ∧ allocated m' = {[i]} ∪ allocated m)
  ∨ (∃ i, idle (pool m) ++ o.*1 ≡ₚ i :: idle (pool m') ++ o'.*1 ∧ allocated m' = allocated m ∖ {[i]}).
Proof.
  apply NoDup_app in Hnd as (_ & _ & Ho).
  assert (∀ i, i ∈ o.*1 → idle (pool m) ++ o.*1 ≡ₚ i :: idle (pool m) ++ (without i o).*1) as Hwo.
  { intros i Hi. rewrite (without_perm i o Ho Hi) at 1. solve_Permutation. }
  destruct a; cbn in Hp, Hmay |- *.
  all: try (by injection Hp as <- <-; left).
  - left. by destruct (install_host_iptables env); injection Hp as <- <-.
  - destruct (next_free_bit env (allocated m)) as [i|] eqn:E; injection Hp as <- <-; [|by left]. right. left.
    exists i. split_and!; [done| |done]. cbn. solve_Permutation.
  - right. right. injection Hp as <- <-. exists idx. split; [by apply Hwo|done].
  - left. injection Hp as <- <-. destruct (create_network env idx), (create_leaves_veth env idx); cbn; by rewrite ?mark_fst.
  - left. injection Hp as <- <-. unfold remove_veth. destruct (cleanup env idx), (cleanup_leaves_veth env idx); cbn; by rewrite ?mark_fst.
  - left. injection Hp as <- <-. unfold remove_veth. by destruct (cleanup env idx), (cleanup_leaves_veth env idx).
  - left. destruct (pop_front (pool m)) as [p x] eqn:E. injection Hp as <- <-. split; [|done].
    apply pop_front_keeps in E as [E _]. apply got_moves. by rewrite E.
  - left. injection Hp as <- <-. cbn. by rewrite (proj1 (request_maintenance_queue (pool m))).
  - left. destruct (try_push_bounded (pool m) idx) as [p x] eqn:E. injection Hp as <- <-. split; [|done].
    apply try_push_bounded_keeps in E as [E _]. apply taken_moves; [done|done|]. by apply (list_elem_of_fmap_2 fst _ (idx, true)).
  - left. destruct (release (pool m) idx) as [p x] eqn:E. injection Hp as <- <-. split; [|done].
    apply release_keeps in E as [E _]. apply taken_moves; [done|done|]. by apply (list_elem_of_fmap_2 fst _ (idx, true)).
  - left. destruct (try_drain_one (pool m)) as [p x] eqn:E. injection Hp as <- <-. split; [|done].
    apply try_drain_one_keeps in E as [E _]. apply got_moves. rewrite E. apply Permutation_app_comm.
  - left. injection Hp as <- <-. unfold stop_maintenance_worker. by destruct (maintenance_started (pool m)).
  - left. injection Hp as <- <-. split; [|done]. cbn. by rewrite fmap_app, set_up_fst.
Qed.

(** The flags stay set, and a closed pool does not fill. *)
Lemma perform_flags :
  (nm_shutting_down m = true → nm_shutting_down m' = true)
  ∧ (shutting_down (pool m) = true → shutting_down (pool m') = true)
  ∧ (shutting_down (pool m) = true → idle (pool m) = [] → idle (pool m') = [])
  ∧ ((saw_closed k = true → shutting_down (pool m) = true) → saw_closed (learn a b k) = true → shutting_down (pool m') = true)
  ∧ (saw_drained (learn a b k) = true → saw_drained k = true
       ∨ (saw_closed k = true ∧ idle (pool m') = [] ∧ shutting_down (pool m') = shutting_down (pool m))).
Proof.
  destruct a; cbn in Hp, Hmay |- *.
  all: try (by injection Hp as <- <-; cbn; split_and!; auto).
  - destruct (install_host_iptables env); injection Hp as <- <-; cbn; split_and!; auto.
  - destruct (next_free_bit env (allocated m)); injection Hp as <- <-; cbn; split_and!; auto.
  - injection Hp as <- <-. destruct (create_network env idx), (create_leaves_veth env idx); cbn; split_and!; auto.
  - injection Hp as <- <-. unfold remove_veth. destruct (cleanup env idx), (cleanup_leaves_veth env idx); cbn; split_and!; auto.
  - injection Hp as <- <-. unfold remove_veth. destruct (cleanup env idx), (cleanup_leaves_veth env idx); cbn; split_and!; auto.
  - destruct (pop_front (pool m)) as [p x] eqn:E. injection Hp as <- <-. cbn. apply pop_front_keeps in E as (E & _ & ->).
    split_and!; auto. intros _ Hi. rewrite Hi in E. by destruct x, (idle p).
  - injection Hp as <- <-. cbn. destruct (request_maintenance_queue (pool m)) as (-> & _ & ->). split_and!; auto.
  - injection Hp as <- <-. cbn. unfold try_push_bounded. destruct (shutting_down (pool m)) eqn:E; cbn; [rewrite ?E; split_and!; auto|].
    destruct (_ <? _); cbn; rewrite ?E; split_and!; auto; done.
  - injection Hp as <- <-. cbn. destruct (release (pool m) idx) as [p x] eqn:E. cbn. pose proof E as (_ & _ & Ef)%release_keeps.
    rewrite Ef. split_and!; auto. intros Hs. unfold release in E. rewrite Hs in E. by injection E as <- <-.
  - destruct (try_drain_one (pool m)) as [p x] eqn:E. injection Hp as <- <-. cbn. apply try_drain_one_keeps in E as (E & _ & ->).
    split_and!; auto. intros _ Hi. rewrite Hi in E. by destruct x, (idle p).
  - injection Hp as <- <-. unfold stop_maintenance_worker. destruct (maintenance_started (pool m)); cbn; split_and!; auto.
Qed.

Lemma perform_answers : 0 ∈ allocated m → (∀ i, i ∈ idle (pool m) → valid i) → answers a b.
Proof.
  intros H0 Hv. apply NoDup_app in Hnd as (Hi & _ & _). destruct a; cbn in Hp |- *; try done.
  - intros i ->. destruct (next_free_bit env (allocated m)) as [j|] eqn:E; [|done]. injection Hp as _ ->.
    apply Hsound in E as [Hn Hr]. unfold valid. assert (i ≠ 0) by (by intros ->). lia.
  - intros i ->. destruct (pop_front (pool m)) as [p x] eqn:E. injection Hp as _ ->.
    apply pop_front_keeps in E as [E _]. apply Hv. rewrite E. by left.
  - intros i ->. destruct (try_drain_one (pool m)) as [p x] eqn:E. injection Hp as _ ->.
    apply try_drain_one_keeps in E as [E _]. apply Hv. rewrite E. set_solver.
  - injection Hp as _ <-. split; [done|]. by apply Forall_forall.
Qed.

(** As long as nothing has failed, interfaces go only with the slots of the
    thread, and come with them. *)
Lemma perform_veths : saw_fault (learn a b k) = false →
  (∀ i, i ∈ idle (pool m) ∨ (i, true) ∈ o → i ∈ host_veths m) →
  (∀ i, i ∉ o.*1 → i ∈ host_veths m → i ∈ host_veths m')
  ∧ (∀ i, i ∈ idle (pool m') ∨ (i, true) ∈ owned_after a b o → i ∈ host_veths m').
Proof.
  intros Hf Hv. apply NoDup_app in Hnd as (_ & Hdis & _).
  destruct a; cbn in Hp, Hmay, Hf |- *.
  all: try (by injection Hp as <- <-; cbn; split; auto).
  - destruct (install_host_iptables env); injection Hp as <- <-; cbn; split; auto.
  - destruct (next_free_bit env (allocated m)); injection Hp as <- <-; cbn; split; auto.
    intros i [Hi|[[=]|Hi]%elem_of_cons]; auto.
  - injection Hp as <- <-. cbn. split; [done|]. intros i [Hi|Hi%elem_of_without]; auto.
  - injection Hp as <- <-. destruct (create_network env idx); [|by rewrite orb_true_r in Hf]. cbn. split; [set_solver|].
    intros i [Hi|[[-> _]|[_ Hi]]%elem_of_mark]; apply elem_of_union; [right|left|right]; auto. by apply elem_of_singleton.
  - injection Hp as <- <-. unfold remove_veth. destruct (cleanup env idx); [|by rewrite orb_true_r in Hf]. cbn. split.
    + intros i Hi Hiv. apply elem_of_difference. split; [done|]. by intros ->%elem_of_singleton.
    + intros i [Hi|[[_ [=]]|[Hne Hi]]%elem_of_mark]; apply elem_of_difference; (split; [by auto|]); intros ->%elem_of_singleton; [|done].
      by apply (Hdis idx).
  - by rewrite Hmay in Hf.
  - destruct (pop_front (pool m)) as [p x] eqn:E. injection Hp as <- <-. cbn. apply pop_front_keeps in E as [E _]. split; [done|].
    intros i [Hi|[Hi%elem_of_set_up|Hi]%elem_of_app]; apply Hv; [left..|by right]; rewrite E; set_solver.
  - injection Hp as <- <-. cbn. rewrite (proj1 (request_maintenance_queue (pool m))). split; auto.
  - injection Hp as <- <-. cbn. split; [done|]. unfold try_push_bounded.
    intros i. destruct (_ && _); cbn; [|auto]. intros [[Hi|Hi%list_elem_of_singleton]%elem_of_app|Hi%elem_of_without]; subst; auto.
  - injection Hp as <- <-. cbn. split; [done|]. destruct (release (pool m) idx) as [p x] eqn:E. apply release_keeps in E as [E _].
    intros i Hi. assert (i ∈ idle (pool m) ++ [idx] ∨ (i, true) ∈ o) as [[?|?%list_elem_of_singleton]%elem_of_app|?]; subst; auto.
    rewrite E. destruct Hi as [Hi|Hi]; [left; set_solver|right]. destruct x; cbn in Hi; [done|by eapply elem_of_without].
  - destruct (try_drain_one (pool m)) as [p x] eqn:E. injection Hp as <- <-. cbn. apply try_drain_one_keeps in E as [E _]. split; [done|].
    intros i [Hi|[Hi%elem_of_set_up|Hi]%elem_of_app]; apply Hv; [left..|by right]; rewrite E; set_solver.
  - injection Hp as <- <-. unfold stop_maintenance_worker. destruct (maintenance_started (pool m)); cbn; split; auto.
  - injection Hp as <- <-. cbn. split; [done|]. intros i [Hi%not_elem_of_nil|[Hi%elem_of_set_up|Hi]%elem_of_app]; auto. done.
Qed.
End Perform.

(** ** The invariant *)

(** Every slot is in one place, and the bitmap has the bits of the slots and
    the reserved ones. *)
Record partition (res : gset Z) (m : NetworkManager) (l : list Z) : Prop := {
  pt_nodup : NoDup l;
  pt_bits : ∀ i, i ∈ allocated m ↔ i ∈ res ∨ i ∈ l;
  pt_valid : ∀ i, i ∈ l → (i ∉ res) ∧ valid i
}.

Lemma partition_same res m m' l l' : partition res m l → l' ≡ₚ l → allocated m' = allocated m → partition res m' l'.
Proof.
  intros [H1 H2 H3] Hl Ha. constructor.
  - by rewrite Hl.
  - intros i. by rewrite Ha, H2, Hl.
  - intros i. rewrite Hl. apply H3.
Qed.

Lemma partition_step env res m m' l l' : search_sound env → 0 ∈ res → partition res m l →
  (l' ≡ₚ l ∧ allocated m' = allocated m)
  ∨ (∃ i, next_free_bit env (allocated m) = Some i ∧ l' ≡ₚ i :: l ∧ allocated m' = {[i]} ∪ allocated m)
  ∨ (∃ i, l ≡ₚ i :: l' ∧ allocated m' = allocated m ∖ {[i]}) →
  partition res m' l'.
Proof.
  intros Hs H0 Hp [[Hl Ha]|[(i & Hn & Hl & Ha)|(i & Hl & Ha)]]; [by eapply partition_same|..]; destruct Hp as [H1 H2 H3].
  - apply Hs in Hn as [Hn Hr]. rewrite H2 in Hn.
    assert (i ≠ 0) by (intros ->; auto). constructor.
    + rewrite Hl. apply NoDup_cons. auto.
    + intros j. rewrite Ha, Hl, elem_of_cons, elem_of_union, elem_of_singleton, H2. tauto.
    + intros j. rewrite Hl. intros [->|Hj]%elem_of_cons; [|by apply H3]. split; [auto|unfold valid; lia].
  - rewrite Hl in H1. apply NoDup_cons in H1 as [Hi Hnd]. constructor; [done|..].
    + intros j. rewrite Ha, elem_of_difference, elem_of_singleton, H2, Hl, elem_of_cons.
      assert (j = i → (j ∉ res) ∧ j ∉ l') as Hj by (intros ->; split; [apply H3; rewrite Hl; by left|done]).
      destruct (decide (j = i)); tauto.
    + intros j Hj. apply H3. rewrite Hl. by right.
Qed.

(** What is known of a thread that runs. *)
Definition thread_ok (w : nm_world) (t : nm_thread) : Prop :=
  match t with
  | Active op p o k => follows p o k (ends op) ∧ careful p o ∧ (saw_fault k = true → w_fault w = true)
      ∧ (saw_closed k = true → shutting_down (pool (w_manager w)) = true) ∧ (saw_drained k = true → w_drained w = true)
  | Ended op r => op = OpShutdown → w_drained w = true
  end.

Record world_inv (res : gset Z) (w : nm_world) : Prop := {
  wi_slots : partition res (w_manager w) (all_slots w);
  wi_zero : 0 ∈ res;
  wi_veths : w_fault w = false → ∀ i, i ∈ idle (pool (w_manager w)) ∨ i ∈ w_running w ∨ (i, true) ∈ owned_by (w_threads w) →
    i ∈ host_veths (w_manager w);
  wi_threads : ∀ n t, w_threads w !! n = Some t → thread_ok w t;
  wi_drained : w_drained w = true → shutting_down (pool (w_manager w)) = true ∧ idle (pool (w_manager w)) = []
}.

Lemma owned_replace ts n t : ts !! n = Some t →
  ∃ rest, owned_by ts ≡ₚ owned t ++ rest ∧ ∀ t', owned_by (<[n := t']> ts) ≡ₚ owned t' ++ rest.
Proof.
  intros Hn. exists (owned_by (take n ts) ++ owned_by (drop (S n) ts)). unfold owned_by. split.
  - rewrite <- (take_drop_middle ts n t Hn) at 1. rewrite bind_app, bind_cons. solve_Permutation.
  - intros t'. rewrite insert_take_drop by by eapply lookup_lt_Some. rewrite bind_app, bind_cons. solve_Permutation.
Qed.

Lemma owned_snoc ts t : owned_by (ts ++ [t]) ≡ₚ owned t ++ owned_by ts.
Proof. unfold owned_by. rewrite bind_app, bind_cons. cbn. rewrite app_nil_r. apply Permutation_app_comm. Qed.

(** A thread comes with the slots of its call. *)
Lemma spawn_inv res low op m ts run run' f d : world_inv res (mkWorld m ts run f d) →
  run ≡ₚ (start_slots op).*1 ++ run' →
  world_inv res (mkWorld m (ts ++ [Active op (start low op) (start_slots op) know_nothing]) run' f d).
Proof.
  intros [H1 H2 H3 H4 H5] Hrun. cbn in *.
  assert (∀ i, i ∈ (start_slots op).*1 → i ∈ run) as Hin by (intros i Hi; rewrite Hrun; set_solver).
  constructor; cbn; [| done | | |done].
  - eapply partition_same; [exact H1| |done]. unfold all_slots. cbn. rewrite owned_snoc, Hrun, fmap_app. cbn. solve_Permutation.
  - intros Hf i Hi. apply H3; [done|]. destruct Hi as [Hi|[Hi|Hi]]; [by left|right; left; rewrite Hrun; set_solver|].
    rewrite owned_snoc in Hi. apply elem_of_app in Hi as [Hi|Hi]; [right; left|by right; right].
    apply Hin. by apply (list_elem_of_fmap_2 fst _ (i, true)).
  - intros n t [Hn|[Hn Ht]]%lookup_app_Some; [by apply (H4 n t)|]. apply list_lookup_singleton_Some in Ht as [_ <-]. cbn.
    split_and!; try done; [|apply start_careful]. apply start_follows. apply Forall_forall. intros i Hi%Hin.
    apply (pt_valid _ _ _ H1). unfold all_slots. cbn. set_solver.
Qed.

Lemma act_inv res n op B (a : action B) c o k env m ts run f d m' b :
  world_inv res (mkWorld m ts run f d) → search_sound env →
  ts !! n = Some (Active op (Act a c) o k) → perform env a m = (m', b) →
  world_inv res (mkWorld m' (<[n := Active op (c b) (owned_after a b o) (learn a b k)]> ts) run
    (f || saw_fault (learn a b k)) (d || saw_drained (learn a b k))).
Proof.
  intros [H1 H2 H3 H4 H5] Hs Hn Hp. cbn in *. set (o' := owned_after a b o). set (k' := learn a b k).
  destruct (H4 _ _ Hn) as ([Hmay Hfol] & [_ Hcar] & Hkf & Hkc & Hkd). cbn in *.
  destruct (owned_replace ts n _ Hn) as (rest & Hold & Hnew). specialize (Hnew (Active op (c b) o' k')). cbn [owned] in *.
  assert (all_slots (mkWorld m ts run f d) ≡ₚ (idle (pool m) ++ o.*1) ++ run ++ rest.*1) as Hall.
  { unfold all_slots. cbn. rewrite Hold, fmap_app. solve_Permutation. }
  pose proof (pt_nodup _ _ _ H1) as Hnd. rewrite Hall in Hnd. apply NoDup_app in Hnd as (Hnd & Hdis & _).
  destruct (perform_flags env a m m' b o k Hmay Hp) as (_ & Hfl & Hemp & Hcl & Hdr).
  assert (∀ i, i ∈ idle (pool m) → valid i) as Hval.
  { intros i Hi. apply (pt_valid _ _ _ H1). unfold all_slots. cbn. set_solver. }
  pose proof (perform_answers env a m m' b o k Hs Hmay Hp Hnd (proj2 (pt_bits _ _ _ H1 0) (or_introl H2)) Hval) as Hans.
  constructor; cbn; [|done|..].
  - apply (partition_step env res m m' ((idle (pool m) ++ o.*1) ++ run ++ rest.*1)); [done|done|by eapply partition_same|].
    assert (all_slots (mkWorld m' (<[n := Active op (c b) o' k']> ts) run (f || saw_fault k') (d || saw_drained k'))
      ≡ₚ (idle (pool m') ++ o'.*1) ++ run ++ rest.*1) as Hall'.
    { unfold all_slots. cbn. rewrite Hnew, fmap_app. solve_Permutation. }
    destruct (perform_slots env a m m' b o k Hmay Hp Hnd) as [[E Ea]|[(i & Ei & E & Ea)|(i & E & Ea)]]; fold o' in E;
      [left; by rewrite Hall', E|right; left|right; right]; exists i; by rewrite Hall', E.
  - intros [Hf Hf']%orb_false_iff i Hi. specialize (H3 Hf).
    destruct (perform_veths env a m m' b o k Hs Hmay Hp Hnd Hf') as [Hother Hmine].
    { intros j [Hj|Hj]; apply H3; [by left|right; right]. rewrite Hold. set_solver. }
    assert (∀ j, j ∈ run ∨ (j, true) ∈ rest → j ∈ host_veths m') as Hrest.
    { intros j Hj. assert (j ∈ run ++ rest.*1) as Hj'.
      { destruct Hj as [Hj|Hj]; [set_solver|]. apply elem_of_app. right. by apply (list_elem_of_fmap_2 fst _ (j, true)). }
      apply Hother; [intros Hx; apply (Hdis j); [apply elem_of_app; by right|done]|].
      apply H3. rewrite Hold. destruct Hj; [by right; left|right; right; set_solver]. }
    destruct Hi as [Hi|[Hi|Hi]]; [by apply Hmine; left|by apply Hrest; left|].
    rewrite Hnew in Hi. apply elem_of_app in Hi as [Hi|Hi]; [by apply Hmine; right|by apply Hrest; right].
  - assert (∀ t, thread_ok (mkWorld m ts run f d) t →
      thread_ok (mkWorld m' (<[n := Active op (c b) o' k']> ts) run (f || saw_fault k') (d || saw_drained k')) t) as Hmono.
    { intros [op1 p1 o1 k1|op1 r1]; cbn.
      - intros (E1 & E2 & E3 & E4 & E5). split_and!; [done|done|intros E; by rewrite E3|auto|intros E; by rewrite E5].
      - intros E Eo. by rewrite E. }
    intros j t Hj. destruct (decide (j = n)) as [->|Hne].
    + rewrite list_lookup_insert_eq in Hj by (by eapply lookup_lt_Some). injection Hj as <-. cbn.
      split_and!; [by apply Hfol|done|intros ->; apply orb_true_r|by apply Hcl|intros ->; apply orb_true_r].
    + rewrite list_lookup_insert_ne in Hj by done. by apply Hmono, (H4 j).
  - destruct d; cbn; [intros _; destruct (H5 eq_refl); auto|]. intros Hd. destruct (Hdr Hd) as [Hd'|(Hc & Hi & Hsd)].
    + by specialize (Hkd Hd').
    + split; [rewrite Hsd; auto|done].
Qed.

Lemma return_inv res n op r o k m ts run f d : world_inv res (mkWorld m ts run f d) →
  ts !! n = Some (Active op (Ret r) o k) → world_inv res (mkWorld m (<[n := Ended op r]> ts) (handed r ++ run) f d).
Proof.
  intros [H1 H2 H3 H4 H5] Hn. cbn in *. destruct (H4 _ _ Hn) as ((-> & Hend) & _ & _ & _ & Hkd). cbn [w_drained w_threads] in *.
  destruct (owned_replace ts n _ Hn) as (rest & Hold & Hnew). specialize (Hnew (Ended op r)). cbn [owned] in *.
  constructor; cbn; [|done|..|done].
  - eapply partition_same; [exact H1| |done]. unfold all_slots. cbn. rewrite Hnew, Hold, !fmap_app, set_up_fst. cbn. solve_Permutation.
  - intros Hf i Hi. apply (H3 Hf). rewrite Hold. rewrite Hnew in Hi. destruct Hi as [Hi|[Hi|Hi]]; [by left|..].
    + apply elem_of_app in Hi as [Hi|Hi]; [right; right|by right; left]. apply elem_of_app. left. unfold set_up.
      by apply (list_elem_of_fmap_2 (λ i, (i, true))).
    + right. right. apply elem_of_app. by right.
  - intros j t Hj. destruct (decide (j = n)) as [->|Hne].
    + rewrite list_lookup_insert_eq in Hj by (by eapply lookup_lt_Some). injection Hj as <-. cbn. auto.
    + rewrite list_lookup_insert_ne in Hj by done. by apply (H4 j).
Qed.

Lemma step_inv res w w' : nm_step w w' → world_inv res w → world_inv res w'.
Proof.
  intros [op m ts run f d Hop|op idx m ts run run' f d Hop Hrun|n op B a c o k env m ts run f d m' b Hs Hn Hp
    |n op r o k m ts run f d Hn|p m ts run f d (Eq1 & Eq2 & Eq3)] Hi.
  - replace [] with (start_slots op) by (by destruct Hop as [->|[->| ->]]). eapply spawn_inv; [done|].
    by destruct Hop as [->|[->| ->]].
  - replace [(idx, true)] with (start_slots op) by (by destruct Hop as [->| ->]). eapply spawn_inv; [done|].
    rewrite Hrun. by destruct Hop as [->| ->].
  - by eapply act_inv.
  - by eapply return_inv.
  - destruct Hi as [H1 H2 H3 H4 H5]. cbn in *. constructor; cbn; rewrite ?Eq1, ?Eq3; try done.
    + eapply partition_same; [exact H1| |done]. unfold all_slots. cbn. by rewrite Eq1.
    + intros n t Hn. specialize (H4 n t Hn). destruct t; cbn in *; [|done]. by rewrite Eq3.
Qed.

Lemma steps_inv res w w' : rtc nm_step w w' → world_inv res w → world_inv res w'.
Proof. induction 1 as [|? ? ? Hs _ IH]; [done|]. intros Hw. by eapply IH, step_inv. Qed.

Lemma world_new_inv c existing installed : world_inv (reserved existing) (world_new c existing installed).
Proof.
  assert (all_slots (world_new c existing installed) = []) as E by done.
  constructor; rewrite ?E; cbn; try done.
  - constructor; [constructor|cbn; set_solver|intros i Hi; by apply not_elem_of_nil in Hi].
  - unfold reserved. set_solver.
  - intros _ i [Hi|[Hi|Hi]]; by apply not_elem_of_nil in Hi.
Qed.

(** ** After shutdown *)

Lemma start_rejects low op : rejects (start low op) (λ r, handed r = []).
Proof.
  assert (∀ p, careful p [] → rejects p (λ r, handed r = [])) as H by (intros [r|B a k] [Hr _]; by apply Hr).
  destruct op; apply H; [apply allocate_careful|apply careful_done..].
Qed.

Lemma rejects_step {B} (a : action B) c env m m' b (Q : outcome → Prop) : nm_shutting_down m = true → perform env a m = (m', b) →
  rejects (Act a c) Q → rejects (c b) Q.
Proof. intros Hs Hp. destruct a; cbn in *; auto. injection Hp as _ <-. by rewrite Hs. Qed.

(** The thread with the number [n], which may not have started yet, hands out
    no slot. *)
Definition refused (n : nat) (w : nm_world) : Prop :=
  nm_shutting_down (w_manager w) = true
  ∧ match w_threads w !! n with
    | None => True
    | Some (Active _ p _ _) => rejects p (λ r, handed r = [])
    | Some (Ended _ r) => handed r = []
    end.

Lemma refused_snoc n m ts op low o k run f d : refused n (mkWorld m ts run f d) →
  match (ts ++ [Active op (start low op) o k]) !! n with
  | None => True
  | Some (Active _ p _ _) => rejects p (λ r, handed r = [])
  | Some (Ended _ r) => handed r = []
  end.
Proof.
  intros [_ Hn]. cbn in Hn. destruct (ts !! n) as [t|] eqn:E; [by rewrite (lookup_app_l_Some _ _ _ _ E)|].
  apply lookup_ge_None in E. rewrite lookup_app_r by done. destruct (n - length ts)%nat as [|j]; [apply start_rejects|done].
Qed.

Lemma refused_step n w w' : nm_step w w' → refused n w → refused n w'.
Proof.
  intros [op m ts run f d Hop|op idx m ts run run' f d Hop Hrun|j op B a c o k env m ts run f d m' b Hs Hj Hp
    |j op r o k m ts run f d Hj|p m ts run f d _] Hr.
  - split; [apply Hr|]. by eapply refused_snoc.
  - split; [apply Hr|]. by eapply refused_snoc.
  - destruct Hr as [Hfl Hn]. cbn in *. split; cbn.
    + clear -Hfl Hp. destruct a; cbn in Hp; unfold on_pool, remove_veth in Hp; repeat case_match; by simplify_eq.
    + destruct (decide (n = j)) as [->|Hne]; [|by rewrite list_lookup_insert_ne].
      rewrite list_lookup_insert_eq by (by eapply lookup_lt_Some). rewrite Hj in Hn. by eapply rejects_step.
  - destruct Hr as [Hfl Hn]. cbn in *. split; [done|]. cbn.
    destruct (decide (n = j)) as [->|Hne]; [|by rewrite list_lookup_insert_ne].
    rewrite list_lookup_insert_eq by (by eapply lookup_lt_Some). by rewrite Hj in Hn.
  - exact Hr.
Qed.

Lemma refused_steps n w w' : rtc nm_step w w' → refused n w → refused n w'.
Proof. induction 1 as [|? ? ? Hs _ IH]; [done|]. intros Hw. by eapply IH, refused_step. Qed.

(** ** The claims *)

(** C21: whatever order the actions of the manager's threads come in, and
    whichever of them fail, two slots that sandboxes own at the same time have
    valid indices and six different addresses: no two sandboxes share a host
    address or an end of a virtual link.  As long as no set-up and no tear-down
    of a namespace has failed, the interface of every such slot is there. *)
Theorem running_slots_have_distinct_addresses `{RangeSpec} link host veth plan c existing installed w :
  resolved_internal link host veth = Ok plan → rtc nm_step (world_new c existing installed) w →
  (∀ i j a b, w_running w !! i = Some a → w_running w !! j = Some b → i ≠ j →
     ∃ x1 x2 x3 y1 y2 y3, slot_new plan a = Ok (x1, x2, x3) ∧ slot_new plan b = Ok (y1, y2, y3)
       ∧ NoDup [x1; x2; x3; y1; y2; y3])
  ∧ (w_fault w = false → ∀ a, a ∈ w_running w → a ∈ host_veths (w_manager w)).
Proof.
  intros Ep Hs. destruct (steps_inv _ _ _ Hs (world_new_inv c existing installed)) as [[H1 H2 H3] _ H4 _ _].
  split; [|intros Hf a Ha; apply H4; auto].
  assert (∀ a, a ∈ w_running w → valid a) as Hv by (intros a Ha; apply H3; unfold all_slots; set_solver).
  unfold all_slots in H1. apply NoDup_app in H1 as (_ & _ & H1). apply NoDup_app in H1 as (H1 & _ & _).
  intros i j a b Ha Hb Hij. eapply addresses_distinct; [exact Ep|..].
  - by eapply Hv, list_elem_of_lookup_2.
  - by eapply Hv, list_elem_of_lookup_2.
  - intros ->. apply Hij. by eapply NoDup_lookup.
Qed.

(** C22: in every interleaving the bitmap holds exactly the reserved bits and
    those of the slots that are in the pool, with a sandbox or with a running
    call, each of which is in one place.  Once a call of [shutdown] has
    returned, the pool is empty and stays so; when no call is running any more,
    only the slots of sandboxes are still allocated.  And once shutdown has set
    its flag, a call that has not yet taken a slot, or has not even started,
    hands none out: the tests of the flag after a slot has been taken see it. *)
Theorem slots_accounted_and_shut_down c existing installed w : rtc nm_step (world_new c existing installed) w →
  NoDup (all_slots w)
  ∧ (∀ i, i ∈ allocated (w_manager w) ↔ i ∈ reserved existing ∨ i ∈ all_slots w)
  ∧ (∀ n r, w_threads w !! n = Some (Ended OpShutdown r) → idle (pool (w_manager w)) = []
       ∧ ((∀ j t, w_threads w !! j = Some t → ∃ op r, t = Ended op r) →
          ∀ i, i ∈ allocated (w_manager w) ↔ i ∈ reserved existing ∨ i ∈ w_running w))
  ∧ (nm_shutting_down (w_manager w) = true → ∀ n w' op idx,
       w_threads w !! n = None ∨ (∃ op p k, w_threads w !! n = Some (Active op p [] k)) →
       rtc nm_step w w' → w_threads w' !! n ≠ Some (Ended op (Ok (Some idx)))).
Proof.
  intros Hs. destruct (steps_inv _ _ _ Hs (world_new_inv c existing installed)) as [[H1 H2 H3] _ _ H4 H5].
  split_and!; [done|done|..].
  - intros n r Hn. destruct (H5 (H4 _ _ Hn eq_refl)) as [_ Hi]. split; [done|]. intros Hall i.
    rewrite H2. unfold all_slots. rewrite Hi. cbn.
    assert (owned_by (w_threads w) = []) as ->; [|by rewrite app_nil_r].
    assert (∀ t, t ∈ w_threads w → owned t = []) as Ho.
    { intros t (j & Hj)%list_elem_of_lookup_1. by destruct (Hall j t Hj) as (op & r' & ->). }
    unfold owned_by. clear -Ho. induction (w_threads w) as [|t ts IH]; [done|]. rewrite bind_cons, Ho, IH by set_solver. done.
  - intros Hfl n w' op idx Hn Hw' E. assert (refused n w') as [_ Hr].
    { eapply refused_steps; [exact Hw'|]. split; [done|]. destruct Hn as [->|(op1 & p & k & Hn)]; [done|]. rewrite Hn.
      destruct (H4 _ _ Hn) as (_ & Hc & _). destruct p; by apply Hc. }
    by rewrite E in Hr.
Qed.

(** ** Runs *)

(** The next step of a thread, on a machine that answers with [env]. *)
Definition advance (env : environment) (n : nat) (w : nm_world) : option nm_world :=
  match w_threads w !! n with
  | Some (Active op (Act a k) o seen) =>
      let '(m', b) := perform env a (w_manager w) in
      Some (mkWorld m' (<[n := Active op (k b) (owned_after a b o) (learn a b seen)]> (w_threads w)) (w_running w)
              (w_fault w || saw_fault (learn a b seen)) (w_drained w || saw_drained (learn a b seen)))
  | Some (Active op (Ret r) o seen) =>
      Some (mkWorld (w_manager w) (<[n := Ended op r]> (w_threads w)) (handed r ++ w_running w) (w_fault w) (w_drained w))
  | _ => None
  end.

(** A call, or the next step of a thread on a machine that works or not. *)
Inductive choice : Type := Call (op : nm_op) | Next (works : bool) (n : nat).

Definition choose (w : nm_world) (x : choice) : option nm_world :=
  match x with
  | Call op =>
      match op with
      | OpRelease _ | OpCleanup _ => None
      | _ => Some (mkWorld (w_manager w)
               (w_threads w ++ [Active op (start (low_watermark (config (pool (w_manager w)))) op) [] know_nothing])
               (w_running w) (w_fault w) (w_drained w))
      end
  | Next works n => advance (ex_machine works) n w
  end.

Fixpoint choose_all (w : nm_world) (l : list choice) : option nm_world :=
  match l with [] => Some w | x :: l' => match choose w x with Some w' => choose_all w' l' | None => None end end.

Lemma choose_step w x w' : choose w x = Some w' → nm_step w w'.
Proof.
  destruct w as [m ts run f d]. destruct x as [op|works n]; cbn.
  - intros E. destruct op; try done; injection E as <-; apply nm_call; auto.
  - unfold advance. cbn. destruct (ts !! n) as [[op [r|B a k] o seen|op r]|] eqn:En; try done.
    + intros [= <-]. by eapply nm_return.
    + destruct (perform (ex_machine works) a m) as [m' b] eqn:Ep. intros [= <-]. eapply nm_act; [exact (ex_search_sound works)|done..].
Qed.

Lemma choose_all_steps l : ∀ w w', choose_all w l = Some w' → rtc nm_step w w'.
Proof.
  induction l as [|x l IH]; intros w w'; cbn; [by intros [= ->]|].
  destruct (choose w x) as [w1|] eqn:E; [|done]. intros Hw'. eapply rtc_l; [by eapply choose_step|by apply IH].
Qed.

Definition empty_manager : nm_world := world_new ex_pool_config [] true.

Definition holds_after (l : list choice) (f : nm_world → bool) : bool :=
  match choose_all empty_manager l with Some w => f w | None => false end.

Lemma holds_after_reached l f : holds_after l f = true → ∃ w, rtc nm_step empty_manager w ∧ f w = true.
Proof.
  unfold holds_after. destruct (choose_all empty_manager l) as [w|] eqn:E; [|done].
  intros Hf. exists w. split; [by eapply choose_all_steps|done].
Qed.

(** An allocation whose namespace does not come up gives the bit back; another
    one takes the slot and hands it out; then the first one drops its [Slot],
    which removes the interface of the second. *)
Definition drop_schedule : list choice :=
  [Call OpAllocate; Call OpAllocate] ++ replicate 8 (Next false 0) ++ replicate 9 (Next true 1) ++ [Next true 0].

Lemma drop_schedule_check : holds_after drop_schedule (λ w,
  bool_decide (w_running w = [1]) && bool_decide (1 ∉ host_veths (w_manager w))) = true.
Proof. vm_compute. reflexivity. Qed.

Lemma drop_takes_interface_of_running_slot : ∃ w, rtc nm_step empty_manager w
  ∧ 1 ∈ w_running w ∧ 1 ∉ host_veths (w_manager w).
Proof.
  destruct (holds_after_reached _ _ drop_schedule_check) as (w & Hw & [Hr Hv]%andb_true_iff).
  apply bool_decide_eq_true in Hr, Hv. exists w. split_and!; [done| |done]. rewrite Hr. by left.
Qed.

(** Two sandboxes start at the same time. *)
Definition two_schedule : list choice :=
  [Call OpAllocate; Call OpAllocate] ++ mjoin (replicate 9 [Next true 0; Next true 1]).

Lemma two_schedule_check : holds_after two_schedule (λ w, bool_decide (w_running w = [2; 1]) && negb (w_fault w)) = true.
Proof. vm_compute. reflexivity. Qed.

Definition ex_link : list Z := [0; 4; 30].
Definition ex_host : list Z := [100; 32768; 17].
Definition ex_veth : list Z := [100000; 65536; 16].

#[local] Existing Instances ex_ranges ex_ranges_spec.

Definition ex_plan : NetworkAddressPlan := mkPlan (100, 32768, 17) (100000, 65536, 16) (0, 4, 30).

Lemma running_slots_have_distinct_addresses_witness : ∃ w, rtc nm_step empty_manager w ∧ w_running w = [2; 1]
  ∧ 2 ∈ host_veths (w_manager w)
  ∧ ∃ x1 x2 x3 y1 y2 y3, slot_new ex_plan 2 = Ok (x1, x2, x3) ∧ slot_new ex_plan 1 = Ok (y1, y2, y3)
    ∧ NoDup [x1; x2; x3; y1; y2; y3].
Proof.
  destruct (holds_after_reached _ _ two_schedule_check) as (w & Hw & [Hr Hf]%andb_true_iff).
  apply bool_decide_eq_true in Hr. apply negb_true_iff in Hf.
  destruct (running_slots_have_distinct_addresses ex_link ex_host ex_veth ex_plan ex_pool_config [] true w eq_refl Hw) as [Ha Hv].
  exists w. split; [done|]. split; [done|]. split; [apply (Hv Hf); rewrite Hr; by left|].
  apply (Ha 0%nat 1%nat); [by rewrite Hr|by rewrite Hr|done].
Defined.

(** A sandbox starts, and the daemon shuts down while a second one starts. *)
Definition shutdown_schedule : list choice :=
  [Call OpAllocate] ++ replicate 9 (Next true 0) ++ [Call OpAllocate; Call OpShutdown] ++ replicate 5 (Next true 1)
  ++ [Next true 2] ++ replicate 6 (Next true 1) ++ replicate 5 (Next true 2).

Definition all_ended (w : nm_world) : bool :=
  forallb (λ t, match t with Ended _ _ => true | _ => false end) (w_threads w).

Lemma shutdown_schedule_check : holds_after shutdown_schedule (λ w, bool_decide (w_running w = [1]) && all_ended w
  && match w_threads w !! 2%nat with Some (Ended OpShutdown _) => true | _ => false end) = true.
Proof. vm_compute. reflexivity. Qed.

Lemma slots_accounted_and_shut_down_witness : ∃ w, rtc nm_step empty_manager w ∧ w_running w = [1]
  ∧ (∀ i, i ∈ allocated (w_manager w) ↔ i ∈ reserved [] ∨ i = 1).
Proof.
  destruct (holds_after_reached _ _ shutdown_schedule_check) as (w & Hw & [[Hr He]%andb_true_iff Hs]%andb_true_iff).
  apply bool_decide_eq_true in Hr. exists w. split; [done|]. split; [done|].
  destruct (slots_accounted_and_shut_down ex_pool_config [] true w Hw) as (_ & _ & Hdown & _).
  destruct (w_threads w !! 2%nat) as [[|op r]|] eqn:E; [done| |done]. destruct op; try done.
  destruct (Hdown 2%nat r E) as [_ Hall]. intros i. rewrite Hall, Hr, list_elem_of_singleton; [done|].
  intros j t Ht%list_elem_of_lookup_2%list_elem_of_In. pose proof (proj1 (forallb_forall _ _) He t Ht) as Hx.
  destruct t as [|op r']; [done|by exists op, r'].
Defined.
