(* ===== verification/IdAllocator.v ===== *)
(** * The id allocator

    Models [storage/util/src/id_allocator.rs]: a counter, a queue of the ids
    below it that are free, and the set of the same ids for lookups.  Each
    method holds the mutex from start to end, so a concurrent run is a sequence
    of methods.  The counter is a [u32] that wraps.  The specification is the
    set of the occupied ids. *)

From stdpp Require Import gmap.
From S2P Require Import Prelude.

Open Scope result_scope.

Record ReloadableIDAllocatorInner : Type := mkInner {
  next_id : Z;
  free_ids_lookup : gset Z;
  free_ids : list Z
}.

Definition insert_known_free_id (a : ReloadableIDAllocatorInner) (id : Z) : ReloadableIDAllocatorInner :=
  if decide (id ∈ free_ids_lookup a) then a
  else mkInner (next_id a) ({[id]} ∪ free_ids_lookup a) (free_ids a ++ [id]).

Definition insert_free_id (a : ReloadableIDAllocatorInner) (id : Z) : ReloadableIDAllocatorInner :=
  if next_id a <=? id then a else insert_known_free_id a id.

Definition pop_free_id (a : ReloadableIDAllocatorInner) : ReloadableIDAllocatorInner * option Z :=
  match free_ids a with
  | id :: rest => (mkInner (next_id a) (free_ids_lookup a ∖ {[id]}) rest, Some id)
  | [] => (a, None)
  end.

(** [position] and [VecDeque::remove] *)
Fixpoint remove_first (id : Z) (l : list Z) : list Z :=
  match l with
  | [] => []
  | x :: l' => if x =? id then l' else x :: remove_first id l'
  end.

Definition remove_free_id (a : ReloadableIDAllocatorInner) (id : Z) : ReloadableIDAllocatorInner * bool :=
  if decide (id ∈ free_ids_lookup a)
  then (mkInner (next_id a) (free_ids_lookup a ∖ {[id]}) (remove_first id (free_ids a)), true)
  else (a, false).

Definition allocator_new (initial_idx : Z) : ReloadableIDAllocatorInner := mkInner initial_idx ∅ [].

(** [for val in from..]: [n] ids from [from]. *)
Fixpoint insert_range (a : ReloadableIDAllocatorInner) (from : Z) (n : nat) : ReloadableIDAllocatorInner :=
  match n with
  | O => a
  | S n' => insert_range (insert_known_free_id a from) (from + 1) n'
  end.

Inductive panic : Type := BigId.

Definition occupy_idx (a : ReloadableIDAllocatorInner) (id : Z) : result panic ReloadableIDAllocatorInner :=
  let? _ := ensure (id <=? 100000) BigId in
  let '(a, found) := remove_free_id a id in
  if found then Ok a
  else
    let a := insert_range a (next_id a) (Z.to_nat (id - next_id a)) in
    Ok (if next_id a <=? id then mkInner (id + 1) (free_ids_lookup a) (free_ids a) else a).

Definition allocate (a : ReloadableIDAllocatorInner) : ReloadableIDAllocatorInner * Z :=
  match pop_free_id a with
  | (a, Some val) => (a, val)
  | (a, None) => (mkInner (wrap32 (next_id a + 1)) (free_ids_lookup a) (free_ids a), next_id a)
  end.

Definition recycle (a : ReloadableIDAllocatorInner) (id : Z) : ReloadableIDAllocatorInner := insert_free_id a id.

Definition is_free (a : ReloadableIDAllocatorInner) (id : Z) : bool :=
  if decide (id ∈ free_ids_lookup a) then true else next_id a <=? id.

Definition is_occupied (a : ReloadableIDAllocatorInner) (id : Z) : bool := negb (is_free a id).

(** ** Runs *)

Inductive id_op : Type := OpAllocate | OpRecycle (id : Z) | OpOccupy (id : Z).

(** A sequence of calls; the ids handed out, in order. *)
Fixpoint run_ops (a : ReloadableIDAllocatorInner) (ops : list id_op) : result panic (ReloadableIDAllocatorInner * list Z) :=
  match ops with
  | [] => Ok (a, [])
  | OpAllocate :: ops' =>
      let '(a, id) := allocate a in
      let? r := run_ops a ops' in
      Ok (r.1, id :: r.2)
  | OpRecycle id :: ops' => run_ops (recycle a id) ops'
  | OpOccupy id :: ops' => let? a := occupy_idx a id in run_ops a ops'
  end.

(** The specification: an allocation returns any id that is not occupied. *)
Inductive set_run : gset Z → list id_op → list Z → gset Z → Prop :=
| sr_nil s : set_run s [] [] s
| sr_allocate s id ops ids s' : id ∉ s → set_run ({[id]} ∪ s) ops ids s' → set_run s (OpAllocate :: ops) (id :: ids) s'
| sr_recycle s id ops ids s' : set_run (s ∖ {[id]}) ops ids s' → set_run s (OpRecycle id :: ops) ids s'
| sr_occupy s id ops ids s' : set_run ({[id]} ∪ s) ops ids s' → set_run s (OpOccupy id :: ops) ids s'.

(** ** The representation *)

Record inner_ok (a : ReloadableIDAllocatorInner) : Prop := {
  io_nodup : NoDup (free_ids a);
  io_lookup : ∀ id, id ∈ free_ids a ↔ id ∈ free_ids_lookup a;
  io_range : ∀ id, id ∈ free_ids a → 0 ≤ id < next_id a
}.

(** [s] is the set of occupied ids. *)
Definition represents (a : ReloadableIDAllocatorInner) (s : gset Z) : Prop :=
  ∀ id, id ∈ s ↔ (0 ≤ id < next_id a ∧ id ∉ free_ids_lookup a).

Lemma is_occupied_iff a s id : represents a s → 0 ≤ id → is_occupied a id = bool_decide (id ∈ s).
Proof.
  intros Hr Hid. unfold is_occupied, is_free. destruct (decide (id ∈ free_ids_lookup a)) as [Hi|Hi].
  - rewrite bool_decide_eq_false_2; [done|]. rewrite (Hr id). naive_solver.
  - destruct (Z.leb_spec (next_id a) id).
    + rewrite bool_decide_eq_false_2; [done|]. rewrite (Hr id). lia.
    + rewrite bool_decide_eq_true_2; [done|]. rewrite (Hr id). split; [lia|done].
Qed.

Lemma insert_known_ok a id : inner_ok a → 0 ≤ id < next_id a → inner_ok (insert_known_free_id a id).
Proof.
  intros [H1 H2 H3] Hid. unfold insert_known_free_id. destruct (decide _) as [Hi|Hi]; [done|].
  constructor; simpl.
  - apply NoDup_app. split_and!; [done| |apply NoDup_singleton]. intros x Hx Hx'%list_elem_of_singleton. subst. apply Hi, H2, Hx.
  - intros x. rewrite elem_of_app, elem_of_union, H2, list_elem_of_singleton, elem_of_singleton. tauto.
  - intros x [Hx|Hx%list_elem_of_singleton]%elem_of_app; [by apply H3|by subst].
Qed.

Lemma insert_known_frees a id x : x ∈ free_ids_lookup (insert_known_free_id a id) ↔ x = id ∨ x ∈ free_ids_lookup a.
Proof. unfold insert_known_free_id. destruct (decide _); simpl; set_solver. Qed.

Lemma insert_known_next a id : next_id (insert_known_free_id a id) = next_id a.
Proof. unfold insert_known_free_id. by destruct (decide _). Qed.

Definition raise (a : ReloadableIDAllocatorInner) (n : Z) : ReloadableIDAllocatorInner :=
  mkInner n (free_ids_lookup a) (free_ids a).

(** The loop of [occupy_idx] runs before the counter is raised; raising it
    first gives the same state. *)
Lemma insert_range_raise k a from n : raise (insert_range a from k) n = insert_range (raise a n) from k.
Proof.
  revert a from. induction k as [|k IH]; intros a from; simpl; [done|]. rewrite IH. f_equal.
  unfold insert_known_free_id. simpl. by destruct (decide _).
Qed.

Lemma insert_range_next k a from : next_id (insert_range a from k) = next_id a.
Proof. revert a from. induction k as [|k IH]; intros a from; [done|]. simpl. by rewrite IH, insert_known_next. Qed.

Lemma insert_range_ok k a from : inner_ok a → 0 ≤ from → from + Z.of_nat k ≤ next_id a →
  inner_ok (insert_range a from k)
  ∧ ∀ x, x ∈ free_ids_lookup (insert_range a from k) ↔ from ≤ x < from + Z.of_nat k ∨ x ∈ free_ids_lookup a.
Proof.
  revert a from. induction k as [|k IH]; intros a from Ha Hf Hn; simpl.
  - split; [done|]. intros x. split; [by right|]. intros [|]; [lia|done].
  - destruct (IH (insert_known_free_id a from) (from + 1)) as (K1 & K3);
      [apply insert_known_ok; [done|lia]|lia|rewrite insert_known_next; lia|].
    split; [done|].
    intros x. rewrite K3, insert_known_frees. split; [|intros [|]; [|tauto]].
    + intros [|[|]]; [left; lia|left; lia|by right].
    + destruct (decide (x = from)); [tauto|left; lia].
Qed.

Lemma remove_first_elem id l x : NoDup l → x ∈ remove_first id l ↔ x ∈ l ∧ x ≠ id.
Proof.
  induction 1 as [|y l Hy Hl IH]; simpl; [set_solver|].
  destruct (Z.eqb_spec y id) as [->|Hn].
  - rewrite elem_of_cons. split; [|tauto]. intros Hx. split; [by right|]. by intros ->.
  - rewrite !elem_of_cons, IH. split; [|tauto]. intros [->|[]]; [by split; [left|]|tauto].
Qed.

Lemma remove_first_nodup id l : NoDup l → NoDup (remove_first id l).
Proof.
  induction 1 as [|y l Hy Hl IH]; simpl; [constructor|]. destruct (y =? id); [done|]. constructor; [|done].
  rewrite remove_first_elem by done. tauto.
Qed.

(** ** Each method against the set *)

Lemma recycle_refines a s id : inner_ok a → represents a s → 0 ≤ id →
  inner_ok (recycle a id) ∧ represents (recycle a id) (s ∖ {[id]}) ∧ next_id (recycle a id) = next_id a.
Proof.
  intros Ha Hr Hid. unfold recycle, insert_free_id. destruct (Z.leb_spec (next_id a) id).
  - split_and!; [done| |done]. intros x. rewrite <- (Hr x), elem_of_difference, elem_of_singleton. split; [tauto|].
    intros Hx. split; [done|]. intros ->. apply Hr in Hx. lia.
  - split_and!; [apply insert_known_ok; [done|lia]| |apply insert_known_next].
    intros x. rewrite insert_known_next, insert_known_frees, elem_of_difference, elem_of_singleton, (Hr x). tauto.
Qed.

Lemma allocate_refines a s : inner_ok a → represents a s → 0 ≤ next_id a < U32_MAX →
  let '(a', id) := allocate a in
  (id ∉ s) ∧ inner_ok a' ∧ represents a' ({[id]} ∪ s) ∧ next_id a ≤ next_id a' ≤ next_id a + 1.
Proof.
  intros [H1 H2 H3] Hr Hn. unfold allocate, pop_free_id. destruct (free_ids a) as [|id rest] eqn:Ef.
  - assert (wrap32 (next_id a + 1) = next_id a + 1) as -> by (unfold wrap32; apply Z.mod_small; unfold U32_MAX in *; lia).
    split_and!; [rewrite (Hr (next_id a)); lia| | |simpl; lia|simpl; lia].
    + constructor; simpl; rewrite ?Ef; [constructor|done|]. intros x Hx. by apply not_elem_of_nil in Hx.
    + intros x. simpl. assert (x ∉ free_ids_lookup a) by (rewrite <- H2; apply not_elem_of_nil).
      rewrite elem_of_union, elem_of_singleton, (Hr x). split; [intros [->|[]]; (split; [lia|done])|].
      intros []. destruct (decide (x = next_id a)); [by left|right]. split; [lia|done].
  - apply NoDup_cons in H1 as [Hid H1]. assert (id ∈ free_ids_lookup a) as Hl by (apply H2; left).
    assert (0 ≤ id < next_id a) as Hran by (apply H3; left).
    split_and!; [rewrite (Hr id); tauto| | |simpl; lia|simpl; lia].
    + constructor; simpl; [done| |intros x Hx; apply H3; by right].
      intros x. rewrite elem_of_difference, elem_of_singleton, <- H2, elem_of_cons. split; [|tauto].
      intros Hx. split; [by right|]. by intros ->.
    + intros x. simpl. rewrite elem_of_union, elem_of_singleton, elem_of_difference, elem_of_singleton, (Hr x).
      destruct (decide (x = id)) as [->|]; tauto.
Qed.

Lemma occupy_refines a s id a' : inner_ok a → represents a s → 0 ≤ id → 0 ≤ next_id a → occupy_idx a id = Ok a' →
  inner_ok a' ∧ represents a' ({[id]} ∪ s) ∧ next_id a ≤ next_id a' ≤ Z.max (next_id a) 100001.
Proof.
  intros Ha Hr Hid Hn. unfold occupy_idx, ensure. destruct (Z.leb_spec id 100000); [|done]. cbn [rbind].
  unfold remove_free_id. destruct (decide (id ∈ free_ids_lookup a)) as [Hl|Hl]; intros [= <-].
  - destruct Ha as [H1 H2 H3]. assert (0 ≤ id < next_id a) by (by apply H3, H2).
    split_and!; [constructor; simpl| |simpl; lia|simpl; lia].
    + by apply remove_first_nodup.
    + intros x. rewrite remove_first_elem, H2 by done. set_solver.
    + intros x [Hx _]%remove_first_elem; [|done]. by apply H3.
    + intros x. simpl. rewrite elem_of_union, elem_of_singleton, elem_of_difference, elem_of_singleton, (Hr x).
      destruct (decide (x = id)) as [->|]; tauto.
  - destruct (Z.leb_spec (next_id a) id) as [Hi|Hi].
    + set (k := Z.to_nat (id - next_id a)). fold (raise (insert_range a (next_id a) k) (id + 1)).
      assert (inner_ok (raise a (id + 1))) as Hra.
      { destruct Ha as [H1 H2 H3]. constructor; [done|done|]. intros x Hx%H3. simpl. lia. }
      destruct (insert_range_ok k (raise a (id + 1)) (next_id a) Hra Hn) as (K1 & K3); [simpl; lia|].
      rewrite insert_range_next, (proj2 (Z.leb_le _ _)), insert_range_raise by lia. pose proof (insert_range_next k (raise a (id + 1)) (next_id a)) as K2. rewrite K2. split_and!; [done| |simpl; lia|simpl; lia].
      intros x. rewrite K2, K3. simpl. rewrite elem_of_union, elem_of_singleton, (Hr x).
      destruct (decide (x = id)) as [->|]; [split; [|by left]; intros _; split; [lia|]|].
      * intros [|]; [lia|done].
      * split; [intros [|[]]; [done|split; [lia|]]; intros [|]; [lia|done]|].
        intros [? Hx]. right. split; [|tauto]. assert (¬ (next_id a ≤ x < next_id a + Z.of_nat k)) by tauto. lia.
    + replace (Z.to_nat (id - next_id a)) with 0%nat by lia. simpl. rewrite (proj2 (Z.leb_gt _ _)) by lia.
      split_and!; [done| |lia|lia]. assert (id ∈ s) by (apply Hr; split; [lia|done]).
      intros x. rewrite <- (Hr x). set_solver.
Qed.

Definition id_op_ok (o : id_op) : Prop := match o with OpAllocate => True | OpRecycle id | OpOccupy id => 0 ≤ id end.

Lemma run_ops_refines ops : ∀ a s a' ids, Forall id_op_ok ops → inner_ok a → represents a s → 0 ≤ next_id a →
  Z.max (next_id a) 100001 + zlen ops ≤ U32_MAX → run_ops a ops = Ok (a', ids) →
  ∃ s', set_run s ops ids s' ∧ inner_ok a' ∧ represents a' s'.
Proof.
  unfold zlen. induction ops as [|o ops IH]; intros a s a' ids Hops Ha Hr Hn Hb.
  - intros [= <- <-]. exists s. split; [constructor|done].
  - apply Forall_cons in Hops as [Ho Hops]. cbn [length] in Hb. destruct o as [|id|id]; cbn [run_ops].
    + pose proof (allocate_refines a s Ha Hr ltac:(lia)) as K. destruct (allocate a) as [a1 id].
      destruct K as (K1 & K2 & K3 & K4). destruct (run_ops a1 ops) as [[a2 ids2]|] eqn:E; [|done]. intros [= <- <-].
      edestruct (IH a1) as (s' & S1 & S2); [done|done|exact K3|lia|lia|exact E|]. exists s'. split; [by constructor|done].
    + destruct (recycle_refines a s id Ha Hr Ho) as (K1 & K2 & K3). intros E.
      edestruct (IH (recycle a id)) as (s' & S1 & S2); [done|done|exact K2|lia|lia|exact E|].
      exists s'. split; [by constructor|done].
    + destruct (occupy_idx a id) as [a1|] eqn:Eo; [|done]. cbn [rbind]. intros E.
      destruct (occupy_refines a s id a1 Ha Hr Ho Hn Eo) as (K1 & K2 & K3).
      edestruct (IH a1) as (s' & S1 & S2); [done|done|exact K2|lia|lia|exact E|].
      exists s'. split; [by constructor|done].
Qed.

Lemma new_represents initial_idx : 0 ≤ initial_idx →
  represents (allocator_new initial_idx) (list_to_set (seqZ 0 initial_idx)).
Proof. intros Hi id. rewrite elem_of_list_to_set, elem_of_seqZ. simpl. set_solver by lia. Qed.

Lemma new_ok initial_idx : inner_ok (allocator_new initial_idx).
Proof. constructor; simpl; [constructor|set_solver|set_solver]. Qed.

(** the allocator is the set of occupied ids.  Over any sequence of
    allocations, recyclings (of any id, also repeated) and reloads that does
    not use up the [u32] range, every id handed out was free at that moment,
    and [is_occupied] answers exactly whether an id is in the set. *)
Theorem allocator_refines_occupied_set initial_idx ops a ids :
  0 ≤ initial_idx → Forall id_op_ok ops → Z.max initial_idx 100001 + zlen ops ≤ U32_MAX →
  run_ops (allocator_new initial_idx) ops = Ok (a, ids) →
  ∃ s, set_run (list_to_set (seqZ 0 initial_idx)) ops ids s
    ∧ ∀ id, 0 ≤ id → is_occupied a id = bool_decide (id ∈ s).
Proof.
  intros Hi Hops Hb E.
  destruct (run_ops_refines ops _ _ _ _ Hops (new_ok initial_idx) (new_represents _ Hi) Hi Hb E) as (s & S1 & _ & S2).
  exists s. split; [done|]. intros id. by apply is_occupied_iff.
Qed.

(** A reload of two ids, then allocations around a repeated recycling. *)
Definition ex_ops : list id_op :=
  [OpOccupy 3; OpOccupy 1; OpAllocate; OpAllocate; OpRecycle 3; OpRecycle 3; OpAllocate; OpAllocate].

Definition run_result (i : Z) (ops : list id_op) : ReloadableIDAllocatorInner * list Z :=
  match run_ops (allocator_new i) ops with Ok r => r | Err _ => (allocator_new i, []) end.

Lemma run_result_ok i ops : is_ok (run_ops (allocator_new i) ops) = true →
  run_ops (allocator_new i) ops = Ok ((run_result i ops).1, (run_result i ops).2).
Proof. unfold run_result. by destruct (run_ops _ ops) as [[]|]. Qed.

Lemma ex_ops_ids : (run_result 1 ex_ops).2 = [2; 4; 3; 5].
Proof. vm_compute. reflexivity. Qed.

Lemma ex_ops_ok : Forall id_op_ok ex_ops.
Proof. repeat constructor; simpl; lia. Qed.

Lemma allocator_refines_occupied_set_witness :
  ∃ s, set_run (list_to_set (seqZ 0 1)) ex_ops (run_result 1 ex_ops).2 s
    ∧ ∀ id, 0 ≤ id → is_occupied (run_result 1 ex_ops).1 id = bool_decide (id ∈ s).
Proof.
  apply (allocator_refines_occupied_set 1 ex_ops); [lia|exact ex_ops_ok|vm_compute; discriminate|].
  apply run_result_ok. vm_compute. reflexivity.
Defined.

(** Occupying an id that is already occupied changes nothing and does not
    panic. *)
Lemma occupy_twice_is_silent : is_ok (run_ops (allocator_new 1) [OpOccupy 3; OpOccupy 3]) = true.
Proof. reflexivity. Qed.
