(* ===== verification/Pagination.v ===== *)
(** * Cursors and pages

    Models [src/api/impls/pagination.rs].  A [SystemTime] is its number of
    nanoseconds from the epoch, a UUID its 128-bit value.  Base64, the RFC 3339
    form of a time ([chrono]) and the text of a UUID are the class [TokenOps]
    with the documented behaviour [TokenSpec]. *)

From stdpp Require Import sorting.
From S2P Require Import Prelude Text.

Open Scope result_scope.

Class TokenOps : Type := {
  b64_encode : list Z → str;
  b64_decode : str → option (list Z);
  to_rfc3339 : Z → str;
  parse_from_rfc3339 : str → option Z;
  uuid_fmt : Z → str;
  uuid_parse : str → option Z
}.

(** From the epoch to the end of the year 9999, the years RFC 3339 can write. *)
Definition time_ok (t : Z) : Prop := 0 ≤ t < 253402300800 * 1000000000.
Definition uuid_ok (u : Z) : Prop := 0 ≤ u < 2 ^ 128.
Definition UUID_MAX : Z := 2 ^ 128 - 1.

(** ASCII without underscores. *)
Definition plain (s : str) : Prop := Forall (λ b, 0 ≤ b < 128) s ∧ Forall (λ b, b ≠ 95) s.

Class TokenSpec `{TokenOps} : Prop := {
  b64_round : ∀ bs, b64_decode (b64_encode bs) = Some bs;
  rfc3339_round : ∀ t, time_ok t → parse_from_rfc3339 (to_rfc3339 t) = Some t;
  rfc3339_plain : ∀ t, plain (to_rfc3339 t);
  uuid_round : ∀ u, uuid_ok u → uuid_parse (uuid_fmt u) = Some u;
  uuid_plain : ∀ u, plain (uuid_fmt u);
  uuid_order : ∀ u v, uuid_ok u → uuid_ok v → str_cmp (uuid_fmt u) (uuid_fmt v) = (u ?= v)
}.

(** ** Cursors *)

Record PaginationCursor : Type := mkCursor { time : Z; value : Z; descending : bool }.

Definition new_descending (time value : Z) : PaginationCursor := mkCursor time value true.
Definition new_ascending (time value : Z) : PaginationCursor := mkCursor time value false.

Inductive PaginationError : Type :=
| DecodeCursor | InvalidCursorFormat | InvalidCursorUtf8 | InvalidCursorTimestamp | InvalidCursorValue.

(** [compare]: by time, then by value in the other direction. *)
Definition compare (descending : bool) (a_time a_value b_time b_value : Z) : comparison :=
  let time_order := if descending then b_time ?= a_time else a_time ?= b_time in
  match time_order with
  | Eq => if descending then a_value ?= b_value else b_value ?= a_value
  | c => c
  end.
Definition compare_desc (a_time a_value b_time b_value : Z) : comparison := compare true a_time a_value b_time b_value.

Section Tokens.
Context `{TokenOps}.

Definition ok_or {A} (e : PaginationError) (o : option A) : result PaginationError A :=
  match o with Some x => Ok x | None => Err e end.

Definition encode (c : PaginationCursor) : str :=
  let raw := to_rfc3339 (time c) ++ lit "__" ++ uuid_fmt (value c) in
  b64_encode (if negb (descending c) then raw ++ lit "__asc" else raw).

Definition parse (token : str) : result PaginationError PaginationCursor :=
  let? decoded := ok_or DecodeCursor (b64_decode token) in
  let? _ := ensure (valid_utf8 decoded) InvalidCursorUtf8 in
  let? parts := ok_or InvalidCursorFormat (split_once2 95 decoded) in
  let '(timestamp, encoded_value) := parts in
  let? vd :=
    match rsplit_once2 95 encoded_value with
    | Some (value, direction) => if bool_decide (direction = lit "asc") then Ok (value, false) else Err InvalidCursorFormat
    | None => Ok (encoded_value, true)
    end in
  let '(value, descending) := vd in
  let? cursor_time := ok_or InvalidCursorTimestamp (parse_from_rfc3339 timestamp) in
  let? value := ok_or InvalidCursorValue (uuid_parse value) in
  Ok (mkCursor cursor_time value descending).
End Tokens.

(** ** Pages *)

Section Pages.
Context {Item : Type}.

Record Paginated : Type := mkPage { items : list Item; next_token : option str }.

(** [sort_by] is stable: an element goes before the equal ones after it. *)
Fixpoint insert_sorted (sort : Item → Item → comparison) (x : Item) (l : list Item) : list Item :=
  match l with
  | [] => [x]
  | y :: l' => match sort x y with Gt => y :: insert_sorted sort x l' | _ => x :: l end
  end.
Definition sort_by (sort : Item → Item → comparison) (l : list Item) : list Item := foldr (insert_sorted sort) [] l.

Definition is_greater (c : comparison) : bool := match c with Gt => true | _ => false end.

Context `{TokenOps}.
Context (compare_cursor : Item → PaginationCursor → comparison) (to_cursor : Item → PaginationCursor).

Definition paginate_sorted (self : PaginationCursor) (l : list Item) (limit : option Z) : Paginated :=
  if match limit with Some 0 => true | _ => false end then mkPage [] None
  else
    let l := List.filter (λ item, is_greater (compare_cursor item self)) l in
    match limit with
    | Some limit =>
        if limit <? zlen l
        then mkPage (ztake limit l) ((λ item, encode (to_cursor item)) <$> l !! Z.to_nat (limit - 1))
        else mkPage l None
    | None => mkPage l None
    end.

Definition paginate (sort : Item → Item → comparison) (self : PaginationCursor) (l : list Item) (limit : option Z) :
    Paginated :=
  if match limit with Some 0 => true | _ => false end then mkPage [] None
  else paginate_sorted self (sort_by sort l) limit.
End Pages.
Arguments Paginated : clear implicits.

(** ** Tokens round trip *)

Section Roundtrip.
Context `{TokenSpec}.

Lemma ascii_bar (rest : str) : Forall (λ b, 0 ≤ b < 128) rest → Forall (λ b, 0 ≤ b < 128) (95 :: 95 :: rest).
Proof. intros. constructor; [lia|]. constructor; [lia|done]. Qed.

Lemma parse_encode c : time_ok (time c) → uuid_ok (value c) → parse (encode c) = Ok c.
Proof.
  intros Ht Hu. destruct (rfc3339_plain (time c)) as [T1 T2], (uuid_plain (value c)) as [V1 V2].
  unfold parse, encode, ok_or, ensure. rewrite b64_round. cbn [rbind]. destruct c as [t v d]. simpl in *. destruct d; simpl.
  - rewrite valid_utf8_ascii by (apply Forall_app; split; [done|by apply ascii_bar]).
    cbn [rbind]. rewrite split_once2_first by done. cbn [rbind].
    rewrite rsplit_once2_none by done. cbn [rbind]. rewrite rfc3339_round by done. cbn [rbind]. by rewrite uuid_round.
  - rewrite <- app_assoc. simpl.
    rewrite valid_utf8_ascii.
    2:{ apply Forall_app. split; [done|]. apply ascii_bar, Forall_app. split; [done|]. by repeat constructor. }
    cbn [rbind]. rewrite split_once2_first by done. cbn [rbind].
    rewrite rsplit_once2_last by (repeat constructor; lia). cbn [rbind]. rewrite bool_decide_eq_true_2 by done. cbn [rbind]. rewrite rfc3339_round by done. cbn [rbind]. by rewrite uuid_round.
Qed.
End Roundtrip.

(** ** The order *)

Lemma compare_eq d t v t' v' : compare d t v t' v' = Eq ↔ t = t' ∧ v = v'.
Proof.
  unfold compare. destruct d.
  - destruct (Z.compare_spec t' t); rewrite ?Z.compare_eq_iff; split; try done; lia.
  - destruct (Z.compare_spec t t'); rewrite ?Z.compare_eq_iff; split; try done; lia.
Qed.

Lemma compare_flip d t v t' v' : compare d t' v' t v = CompOpp (compare d t v t' v').
Proof.
  unfold compare. destruct d.
  - rewrite (Z.compare_antisym t' t). destruct (t' ?= t); simpl; [|done..]. by rewrite (Z.compare_antisym v v').
  - rewrite (Z.compare_antisym t t'). destruct (t ?= t'); simpl; [|done..]. by rewrite (Z.compare_antisym v' v).
Qed.

(** Lexicographic: before in time, or at the same time and before in value. *)
Lemma compare_lt d t v t' v' : compare d t v t' v' = Lt ↔
  (if d then t' < t ∨ t' = t ∧ v < v' else t < t' ∨ t = t' ∧ v' < v).
Proof.
  unfold compare. destruct d.
  - destruct (Z.compare_spec t' t); rewrite ?Z.compare_lt_iff; split; try done; lia.
  - destruct (Z.compare_spec t t'); rewrite ?Z.compare_lt_iff; split; try done; lia.
Qed.

Lemma compare_trans d t1 v1 t2 v2 t3 v3 :
  compare d t1 v1 t2 v2 = Lt → compare d t2 v2 t3 v3 = Lt → compare d t1 v1 t3 v3 = Lt.
Proof. rewrite !compare_lt. destruct d; lia. Qed.

(** ** Sorting *)

Lemma filter_sorted {A} (R : A → A → Prop) (f : A → bool) l : StronglySorted R l → StronglySorted R (List.filter f l).
Proof.
  induction 1 as [|a l Hl IH Ha]; simpl; [constructor|]. destruct (f a); [|done].
  constructor; [done|]. apply Forall_forall. intros b [Hb _]%list_elem_of_In%filter_In.
  rewrite Forall_forall in Ha. by apply Ha, list_elem_of_In.
Qed.

Lemma sort_by_ext {A} (f g : A → A → comparison) l :
  (∀ x y, x ∈ l → y ∈ l → f x y = g x y) → sort_by f l = sort_by g l.
Proof.
  assert (∀ x k, (∀ y, y ∈ k → f x y = g x y) → insert_sorted f x k = insert_sorted g x k) as Hi.
  { intros x k. induction k as [|y k IH]; simpl; intros Hk; [done|]. rewrite Hk by left.
    destruct (g x y); [done..|]. rewrite IH; [done|]. intros z Hz. apply Hk. by right. }
  assert (∀ h (k : list A) y, y ∈ sort_by h k → y ∈ k) as Hin.
  { intros h k y. induction k as [|x k IH]; simpl; [done|].
    assert (∀ m, y ∈ insert_sorted h x m → y = x ∨ y ∈ m) as Hm.
    { induction m as [|z m IHm]; simpl; [set_solver|]. destruct (h x z); set_solver. }
    intros [->|Hy]%Hm; [left|right; by apply IH]. }
  induction l as [|x l IH]; simpl; intros Hl; [done|].
  rewrite IH by (intros; apply Hl; by right). apply Hi. intros y Hy. apply Hl; [left|right; by eapply Hin].
Qed.

Section Sorting.
Context {Item : Type} (sort : Item → Item → comparison).

Lemma insert_sorted_perm x l : insert_sorted sort x l ≡ₚ x :: l.
Proof. induction l as [|y l IH]; simpl; [done|]. destruct (sort x y); [done..|]. rewrite IH. constructor. Qed.

Lemma sort_by_perm l : sort_by sort l ≡ₚ l.
Proof. induction l as [|x l IH]; simpl; [done|]. by rewrite insert_sorted_perm, IH. Qed.

Context (Hflip : ∀ x y, sort y x = CompOpp (sort x y)).
Context (Htrans : ∀ x y z, sort x y = Lt → sort y z = Lt → sort x z = Lt).

Lemma insert_sorted_strict x l : StronglySorted (λ a b, sort a b = Lt) l → Forall (λ y, sort x y ≠ Eq) l →
  StronglySorted (λ a b, sort a b = Lt) (insert_sorted sort x l).
Proof.
  induction 1 as [|y l Hl IH Hy]; intros Hx; simpl; [by repeat constructor|].
  apply Forall_cons in Hx as [Hxy Hx]. destruct (sort x y) eqn:E; [done| |].
  - constructor; [by constructor|]. constructor; [done|]. eapply Forall_impl; [exact Hy|]. eauto.
  - constructor; [by apply IH|]. rewrite insert_sorted_perm. constructor; [by rewrite Hflip, E|done].
Qed.

(** Elements that differ pairwise come out strictly sorted. *)
Lemma sort_by_strict l : ForallOrdPairs (λ x y, sort x y ≠ Eq) l → StronglySorted (λ a b, sort a b = Lt) (sort_by sort l).
Proof.
  induction 1 as [|x l Hx Hl IH]; simpl; [constructor|]. apply insert_sorted_strict; [done|]. by rewrite sort_by_perm.
Qed.
End Sorting.

(** ** Walking through the pages *)

(** A client that follows the tokens until there is none.  [None]: it is still
    at it when the fuel is used up, or got an error. *)
Fixpoint list_all {E Item} (fetch : option str → result E (Paginated Item)) (fuel : nat) (token : option str) :
    option (list Item) :=
  match fuel with
  | O => None
  | S fuel' =>
      match fetch token with
      | Err _ => None
      | Ok page =>
          match next_token page with
          | None => Some (items page)
          | Some t => (λ rest, items page ++ rest) <$> list_all fetch fuel' (Some t)
          end
      end
  end.

Section Walk.
Context `{TokenSpec} {E Item : Type} (d : bool) (created_at ident : Item → Z).

Definition item_cmp (a b : Item) : comparison := compare d (created_at a) (ident a) (created_at b) (ident b).
Definition cursor_cmp (a : Item) (c : PaginationCursor) : comparison :=
  compare d (created_at a) (ident a) (time c) (value c).
Definition item_cursor (a : Item) : PaginationCursor := mkCursor (created_at a) (ident a) d.
(** The items after a cursor. *)
Definition items_after (c : PaginationCursor) (l : list Item) : list Item :=
  List.filter (λ a, is_greater (cursor_cmp a c)) l.

Lemma is_greater_lt a b : is_greater (item_cmp a b) = true ↔ item_cmp b a = Lt.
Proof. unfold item_cmp. rewrite compare_flip. by destruct (compare d _ _ _ _). Qed.

Lemma item_cmp_flip x y : item_cmp y x = CompOpp (item_cmp x y).
Proof. apply compare_flip. Qed.
Lemma item_cmp_trans x y z : item_cmp x y = Lt → item_cmp y z = Lt → item_cmp x z = Lt.
Proof. apply compare_trans. Qed.

Lemma after_all c l : Forall (λ a, cursor_cmp a c = Gt) l → items_after c l = l.
Proof. unfold items_after. induction 1 as [|a l Ha Hl IH]; simpl; [done|]. by rewrite Ha, IH. Qed.
Lemma after_none c l : Forall (λ a, cursor_cmp a c ≠ Gt) l → items_after c l = [].
Proof. unfold items_after. induction 1 as [|a l Ha Hl IH]; simpl; [done|]. rewrite IH. by destruct (cursor_cmp a c). Qed.
Lemma after_app c l k : items_after c (l ++ k) = items_after c l ++ items_after c k.
Proof. apply List.filter_app. Qed.

(** What comes after an item that comes after the cursor. *)
Lemma after_after c x l : cursor_cmp x c = Gt → items_after (item_cursor x) (items_after c l) = items_after (item_cursor x) l.
Proof.
  intros Hx. unfold items_after. induction l as [|a l IH]; [done|]. simpl.
  destruct (is_greater (cursor_cmp a c)) eqn:Ec; simpl; rewrite IH; [done|].
  destruct (is_greater (cursor_cmp a (item_cursor x))) eqn:Ex; [|done]. exfalso.
  apply is_greater_lt in Ex. assert (cursor_cmp a c = Gt) as K; [|by rewrite K in Ec].
  unfold cursor_cmp in *. rewrite compare_flip in Hx |- *. unfold item_cmp in Ex.
  destruct (compare d (time c) (value c) (created_at x) (ident x)) eqn:E1; try done.
  by rewrite (compare_trans _ _ _ _ _ _ _ E1 Ex).
Qed.

Lemma page_split A x B : StronglySorted (λ a b, item_cmp a b = Lt) (A ++ x :: B) →
  items_after (item_cursor x) (A ++ x :: B) = B.
Proof.
  intros Hs. rewrite after_app. apply StronglySorted_app in Hs as (Hab & _ & Hb).
  apply StronglySorted_inv in Hb as [_ Hb].
  rewrite after_none.
  - change (x :: B) with ([x] ++ B). rewrite after_app, after_none, after_all; [done| |].
    + eapply Forall_impl; [exact Hb|]. intros b Hxb. change (item_cmp b x = Gt). by rewrite item_cmp_flip, Hxb.
    + repeat constructor. unfold cursor_cmp. simpl. by rewrite (proj2 (compare_eq _ _ _ _ _)).
  - apply Forall_forall. intros a Ha. change (item_cmp a x ≠ Gt). rewrite (Hab a x); [done|done|left].
Qed.

Lemma after_sorted c l : StronglySorted (λ a b, item_cmp a b = Lt) l → StronglySorted (λ a b, item_cmp a b = Lt) (items_after c l).
Proof. apply filter_sorted. Qed.

Context (fetch : option str → result E (Paginated Item)) (L : list Item) (limit : option Z).
Context (Hlimit : ∀ n, limit = Some n → 0 < n) (HL : StronglySorted (λ a b, item_cmp a b = Lt) L).

Definition page (c : PaginationCursor) : Paginated Item := paginate_sorted cursor_cmp item_cursor c L limit.

(** A page is what is left, or its first part with a token at whose cursor the
    rest starts. *)
Lemma page_cases c :
  (page c = mkPage (items_after c L) None)
  ∨ ∃ x A B, items_after c L = (A ++ [x]) ++ B ∧ page c = mkPage (A ++ [x]) (Some (encode (item_cursor x)))
      ∧ items_after (item_cursor x) L = B ∧ x ∈ L.
Proof.
  unfold page, paginate_sorted. fold (items_after c L). destruct limit as [n|]; [|by left]. specialize (Hlimit n eq_refl).
  assert (match n with 0 => true | _ => false end = false) as -> by (destruct n; [lia|done|done]).
  destruct (Z.ltb_spec n (zlen (items_after c L))) as [Hn|]; [right|by left].
  destruct (lookup_lt_is_Some_2 (items_after c L) (Z.to_nat (n - 1))) as [x Hx]; [unfold zlen in Hn; lia|].
  pose proof (take_drop_middle _ _ _ Hx) as Hsp.
  set (A := take (Z.to_nat (n - 1)) (items_after c L)) in *. set (B := drop (S (Z.to_nat (n - 1))) (items_after c L)) in *.
  exists x, A, B. assert (items_after c L = (A ++ [x]) ++ B) as Ea by (rewrite <- app_assoc; done).
  assert (x ∈ items_after c L) as Hin by (by eapply list_elem_of_lookup_2).
  apply list_elem_of_In, filter_In in Hin as [Hin Hg]. split_and!; [done| | |by apply list_elem_of_In].
  - rewrite Hx. simpl. f_equal. unfold ztake. replace (Z.to_nat n) with (S (Z.to_nat (n - 1))) by lia.
    by apply take_S_r.
  - rewrite <- (after_after c) by (by destruct (cursor_cmp x c)).
    rewrite <- Hsp. apply page_split. rewrite Hsp. by apply after_sorted.
Qed.

(** Following the tokens gives the items after the first cursor, each once and
    in order; a page more than there are items is enough. *)
Lemma walk_pages fuel c token :
  (∀ x, x ∈ L → fetch (Some (encode (item_cursor x))) = Ok (page (item_cursor x))) →
  fetch token = Ok (page c) → (length (items_after c L) < fuel)%nat → list_all fetch fuel token = Some (items_after c L).
Proof.
  intros Hf. revert c token. induction fuel as [|fuel IH]; intros c token Ht Hlen; [lia|]. simpl. rewrite Ht.
  destruct (page_cases c) as [->|(x & A & B & Ea & -> & Eb & Hx)]; [done|]. simpl.
  rewrite (IH (item_cursor x)); [simpl; by rewrite Ea, Eb|by apply Hf|].
  rewrite Eb. rewrite Ea, !length_app in Hlen. simpl in Hlen. lia.
Qed.
End Walk.
