(* ===== verification/SandboxStore.v ===== *)
(** * The sandbox metadata store

    Models [src/orchestrator/store/]: the metadata of a sandbox and its
    timeouts, and the in-memory store with its index by deadline and one watch
    channel per record.  An operation changes the store under the write lock and
    sends its notification after it: [pending] notifications are part of an
    operation's result.  The iteration order of the hash map is that of
    [map_to_list]: the results say nothing about it.  Times and durations are
    nanoseconds. *)

From stdpp Require Import gmap sorting.
From S2P Require Import Prelude Text Pagination.

Open Scope result_scope.

Inductive SandboxState : Type :=
| Creating | Resuming | Running | Snapshotting | Forking | Pausing | Paused | Killing.

#[global] Instance SandboxState_eq_dec : EqDecision SandboxState.
Proof. solve_decision. Defined.

Inductive SandboxTimeoutAction : Type := TimeoutPause | TimeoutDelete.
Inductive NewTimeout : Type := UseExisting | SetTimeout (d : Z) | EnsureMinimum (d : Z) | NoTimeout.

(** ** Metadata *)

(** [rest]: the fields that the store only copies (resources, network policy,
    start-up command, versions, volumes). *)
Record SandboxMetadata : Type := mkMetadata {
  id : Z;
  template_builder : bool;
  snapshot_id : str;
  snapshot_alias : option str;
  state : SandboxState;
  created_at : Z;
  timeout : option Z;
  timeout_action : SandboxTimeoutAction;
  expires_at : option Z;
  user_metadata : option (gmap str str);
  rest : list Z
}.

Definition with_state (m : SandboxMetadata) (s : SandboxState) : SandboxMetadata :=
  mkMetadata (id m) (template_builder m) (snapshot_id m) (snapshot_alias m) s (created_at m) (timeout m)
    (timeout_action m) (expires_at m) (user_metadata m) (rest m).
Definition with_timeout (m : SandboxMetadata) (t e : option Z) : SandboxMetadata :=
  mkMetadata (id m) (template_builder m) (snapshot_id m) (snapshot_alias m) (state m) (created_at m) t
    (timeout_action m) e (user_metadata m) (rest m).

(** [SystemTime::checked_add]: the seconds are an [i64]. *)
Definition checked_add (from ttl : Z) : option Z :=
  if from + ttl <? 2 ^ 63 * 1000000000 then Some (from + ttl) else None.

Definition set_timeout (m : SandboxMetadata) (timeout : option Z) (from : Z) : SandboxMetadata :=
  with_timeout m timeout (timeout ≫= λ ttl, checked_add from ttl).

Definition update_timeout (m : SandboxMetadata) (new_timeout : NewTimeout) (from : Z) : SandboxMetadata :=
  let t :=
    match new_timeout with
    | UseExisting => timeout m
    | SetTimeout t => Some t
    | EnsureMinimum minimum =>
        match timeout m with Some existing => Some (Z.max existing minimum) | None => Some minimum end
    | NoTimeout => None
    end in
  set_timeout m t from.

Definition is_expired (m : SandboxMetadata) (now : Z) : bool :=
  match expires_at m with Some deadline => deadline <=? now | None => false end.

(** ** The store *)

Inductive StoreError : Type :=
| SandboxNotFound (sandbox_id : Z)
| SandboxAlreadyExists (sandbox_id : Z)
| StateConflict (sandbox_id : Z) (expected : list SandboxState) (actual : SandboxState).

(** [state_tx] is the number of the record's channel. *)
Record SandboxRecord : Type := mkRecord { metadata : SandboxMetadata; state_tx : nat }.

(** [channels] are the values the watch channels hold, [None] after removal. *)
Record Store : Type := mkStore {
  records : gmap Z SandboxRecord;
  by_expiry : gset (Z * Z);
  channels : list (option SandboxState)
}.

Definition store_new : Store := mkStore ∅ ∅ [].

(** A notification that has still to be sent. *)
Abbreviation notification := (nat * option SandboxState)%type.

Definition notify_state (s : Store) (n : notification) : Store :=
  mkStore (records s) (by_expiry s) (<[n.1 := n.2]> (channels s)).

Definition index_expiry (b : gset (Z * Z)) (sandbox_id : Z) (e : option Z) : gset (Z * Z) :=
  match e with Some e => {[(e, sandbox_id)]} ∪ b | None => b end.
Definition deindex_expiry (b : gset (Z * Z)) (sandbox_id : Z) (e : option Z) : gset (Z * Z) :=
  match e with Some e => b ∖ {[(e, sandbox_id)]} | None => b end.

Definition add (s : Store) (m : SandboxMetadata) : result StoreError Store :=
  match records s !! id m with
  | Some _ => Err (SandboxAlreadyExists (id m))
  | None =>
      let tx := length (channels s) in
      Ok (mkStore (<[id m := mkRecord m tx]> (records s)) (index_expiry (by_expiry s) (id m) (expires_at m))
            (channels s ++ [Some (state m)]))
  end.

Definition update (s : Store) (m : SandboxMetadata) : result StoreError (Store * option notification) :=
  match records s !! id m with
  | None => Err (SandboxNotFound (id m))
  | Some r =>
      let b := deindex_expiry (by_expiry s) (id m) (expires_at (metadata r)) in
      Ok (mkStore (<[id m := mkRecord m (state_tx r)]> (records s)) (index_expiry b (id m) (expires_at m)) (channels s),
          Some (state_tx r, Some (state m)))
  end.

Definition update_state_if_state (s : Store) (sandbox_id : Z) (new_state : SandboxState) (expected : list SandboxState) :
    result StoreError (Store * option notification * SandboxState) :=
  match records s !! sandbox_id with
  | None => Err (SandboxNotFound sandbox_id)
  | Some r =>
      let previous := state (metadata r) in
      if bool_decide (previous ∈ expected)
      then Ok (mkStore (<[sandbox_id := mkRecord (with_state (metadata r) new_state) (state_tx r)]> (records s))
                 (by_expiry s) (channels s), Some (state_tx r, Some new_state), previous)
      else Err (StateConflict sandbox_id expected previous)
  end.

Definition update_if_state (s : Store) (sandbox_id : Z) (expected : list SandboxState)
    (f : SandboxMetadata → SandboxMetadata) :
    result StoreError (Store * option notification * (SandboxMetadata * SandboxMetadata)) :=
  match records s !! sandbox_id with
  | None => Err (SandboxNotFound sandbox_id)
  | Some r =>
      let previous := metadata r in
      if bool_decide (state previous ∈ expected)
      then
        let current := f previous in
        let b :=
          if bool_decide (expires_at previous = expires_at current) then by_expiry s
          else index_expiry (deindex_expiry (by_expiry s) sandbox_id (expires_at previous)) sandbox_id (expires_at current) in
        let n := if bool_decide (state previous = state current) then None else Some (state_tx r, Some (state current)) in
        Ok (mkStore (<[sandbox_id := mkRecord current (state_tx r)]> (records s)) b (channels s), n, (previous, current))
      else Err (StateConflict sandbox_id expected (state previous))
  end.

Definition store_get (s : Store) (sandbox_id : Z) : option SandboxMetadata := metadata <$> records s !! sandbox_id.

Definition remove (s : Store) (sandbox_id : Z) : Store * option notification * option SandboxMetadata :=
  match records s !! sandbox_id with
  | None => (s, None, None)
  | Some r =>
      (mkStore (delete sandbox_id (records s)) (deindex_expiry (by_expiry s) (id (metadata r)) (expires_at (metadata r)))
         (channels s), Some (state_tx r, None), Some (metadata r))
  end.

Definition list_ids (s : Store) : list Z := (map_to_list (records s)).*1.
Definition list_records (s : Store) : list SandboxMetadata := metadata <$> (map_to_list (records s)).*2.

(** ** Queries *)

Record SandboxListFilter : Type := mkFilter {
  f_states : option (list SandboxState);
  f_excluded_states : option (list SandboxState);
  f_user_metadata : option (gmap str str);
  f_started_after : option Z;
  f_template : option str
}.

Definition user_metadata_matches (m : SandboxMetadata) (required_pairs : option (gmap str str)) : bool :=
  none_or (λ required,
    some_and (λ actual,
      forallb (λ kv, bool_decide ((actual : gmap str str) !! kv.1 = Some kv.2)) (map_to_list (required : gmap str str)))
      (user_metadata m)) required_pairs.

Definition filter_matches (f : SandboxListFilter) (m : SandboxMetadata) : bool :=
  let state_matches := none_or (λ states, bool_decide (state m ∈ states)) (f_states f) in
  let excluded_state_matches := some_and (λ states, bool_decide (state m ∈ states)) (f_excluded_states f) in
  let started_after_matches := none_or (λ started_after, started_after <=? created_at m) (f_started_after f) in
  let template_matches :=
    none_or (λ template,
      bool_decide (snapshot_id m = template)
      || some_and (λ alias, bool_decide (alias = template)) (snapshot_alias m)) (f_template f) in
  state_matches && negb excluded_state_matches && user_metadata_matches m (f_user_metadata f)
  && started_after_matches && template_matches.

Definition list_filtered (s : Store) (f : SandboxListFilter) : list SandboxMetadata :=
  List.filter (filter_matches f) (list_records s).

(** [Orchestrator::list_sandboxes_filtered] *)
Definition list_sandboxes_filtered (s : Store) (f : SandboxListFilter) : list SandboxMetadata :=
  List.filter (λ m, negb (template_builder m)) (list_filtered s f).

(** The order of the pairs in the [BTreeSet]. *)
Definition pair_cmp (a b : Z * Z) : comparison := match a.1 ?= b.1 with Eq => a.2 ?= b.2 | c => c end.

Definition list_expired (s : Store) (now : Z) : list SandboxMetadata :=
  let range := List.filter (λ p, negb (is_greater (pair_cmp p (now, UUID_MAX)))) (sort_by pair_cmp (elements (by_expiry s))) in
  omap (λ p, metadata <$> records s !! p.2) range.

(** Where a task in [wait_while_in_states] is: before it subscribes, waiting on
    its channel, before the final read. *)
Inductive wait_task : Type :=
| Subscribing
| WaitingFor (rx : nat)
| Reading
| Returned (result : option SandboxMetadata).

(** One access of the task to the store: a waiting task goes on waiting while
    its channel holds one of the states. *)
Definition wait_step (s : Store) (sandbox_id : Z) (transitional : list SandboxState) (w : wait_task) : wait_task :=
  match w with
  | Subscribing =>
      match records s !! sandbox_id with
      | Some r => WaitingFor (state_tx r)
      | None => Returned None
      end
  | WaitingFor rx =>
      match channels s !! rx with
      | Some (Some st) => if bool_decide (st ∈ transitional) then WaitingFor rx else Reading
      | _ => Returned None
      end
  | Reading => Returned (store_get s sandbox_id)
  | Returned r => Returned r
  end.

(** The whole call on a store that does not change: [None] it waits on,
    [Some None] the sandbox is gone, [Some (Some m)] it returns [m]. *)
Definition wait_while_in_states (s : Store) (sandbox_id : Z) (transitional : list SandboxState) :
    option (option SandboxMetadata) :=
  let step := wait_step s sandbox_id transitional in
  match step (step (step Subscribing)) with Returned r => Some r | _ => None end.

(** ** Operations in sequence *)

Inductive store_op : Type :=
| OpAdd (m : SandboxMetadata)
| OpUpdate (m : SandboxMetadata)
| OpUpdateState (sandbox_id : Z) (new_state : SandboxState) (expected : list SandboxState)
| OpUpdateIf (sandbox_id : Z) (expected : list SandboxState) (f : SandboxMetadata → SandboxMetadata)
| OpRemove (sandbox_id : Z).

(** The part of an operation under the lock, and the notification that
    follows.  A failed operation leaves the store alone. *)
Definition apply_op (s : Store) (o : store_op) : Store * option notification :=
  match o with
  | OpAdd m => match add s m with Ok s' => (s', None) | Err _ => (s, None) end
  | OpUpdate m => match update s m with Ok r => r | Err _ => (s, None) end
  | OpUpdateState k st expected => match update_state_if_state s k st expected with Ok r => r.1 | Err _ => (s, None) end
  | OpUpdateIf k expected f => match update_if_state s k expected f with Ok r => r.1 | Err _ => (s, None) end
  | OpRemove k => (remove s k).1
  end.

Definition run_op (s : Store) (o : store_op) : Store :=
  match apply_op s o with
  | (s, Some n) => notify_state s n
  | (s, None) => s
  end.

(** Ids are UUIDs, and an update does not change the id. *)
Definition op_ok (o : store_op) : Prop :=
  match o with
  | OpAdd m => uuid_ok (id m)
  | OpUpdateIf _ _ f => ∀ m, id (f m) = id m
  | _ => True
  end.

(** ** The invariant *)

Record store_ok (s : Store) : Prop := {
  so_id : ∀ k r, records s !! k = Some r → id (metadata r) = k ∧ uuid_ok k;
  so_expiry : ∀ e k, (e, k) ∈ by_expiry s ↔ ∃ r, records s !! k = Some r ∧ expires_at (metadata r) = Some e;
  so_chan : ∀ k r, records s !! k = Some r → channels s !! state_tx r = Some (Some (state (metadata r)));
  so_own : ∀ k k' r r', records s !! k = Some r → records s !! k' = Some r' → state_tx r = state_tx r' → k = k'
}.

Lemma store_new_ok : store_ok store_new.
Proof.
  constructor; simpl; try (intros *; rewrite lookup_empty; done).
  intros e k. split; [set_solver|]. intros (r & Hr & _). by rewrite lookup_empty in Hr.
Qed.

(** Re-indexing a record under its new deadline. *)
Lemma reindex s k r m' e x : store_ok s → records s !! k = Some r →
  (e, x) ∈ index_expiry (deindex_expiry (by_expiry s) k (expires_at (metadata r))) k (expires_at m')
  ↔ ∃ r', <[k := mkRecord m' (state_tx r)]> (records s) !! x = Some r' ∧ expires_at (metadata r') = Some e.
Proof.
  intros Hs Hr.
  assert ((e, x) ∈ deindex_expiry (by_expiry s) k (expires_at (metadata r)) ↔ x ≠ k ∧ (e, x) ∈ by_expiry s) as Hd.
  { unfold deindex_expiry. destruct (expires_at (metadata r)) as [e0|] eqn:Ee.
    - rewrite elem_of_difference, elem_of_singleton. split; [|intros [Hne Hin]; split; [done|congruence]].
      intros [Hin Hne]. split; [|done]. intros ->. apply (so_expiry _ Hs) in Hin as (r1 & E1 & E2). congruence.
    - split; [|tauto]. intros Hin. split; [|done]. intros ->. apply (so_expiry _ Hs) in Hin as (r1 & E1 & E2). congruence. }
  destruct (decide (x = k)) as [->|Hx].
  - rewrite lookup_insert_eq. unfold index_expiry. destruct (expires_at m') as [e1|] eqn:Em.
    + rewrite elem_of_union, elem_of_singleton, Hd. split.
      * intros [[= ->]|[]]; [|done]. eexists. split; [done|]. done.
      * intros (r' & [= <-] & E). simpl in E. left. congruence.
    + rewrite Hd. split; [tauto|]. intros (r' & [= <-] & E). simpl in E. congruence.
  - rewrite lookup_insert_ne by done. rewrite <- (so_expiry _ Hs).
    unfold index_expiry. destruct (expires_at m'); rewrite ?elem_of_union, ?elem_of_singleton, Hd; [|tauto].
    split; [|tauto]. intros [[= _ ?]|[]]; done.
Qed.

(** A record gets new metadata with the same id, and its channel the new
    state. *)
Lemma replace_ok s k r m' b : store_ok s → records s !! k = Some r → id m' = k →
  b = index_expiry (deindex_expiry (by_expiry s) k (expires_at (metadata r))) k (expires_at m') →
  store_ok (mkStore (<[k := mkRecord m' (state_tx r)]> (records s)) b (<[state_tx r := Some (state m')]> (channels s))).
Proof.
  intros Hs Hr Hid ->. pose proof (so_chan _ Hs _ _ Hr) as Hc. constructor; simpl.
  - intros x r' [[<- <-]|[Hx Hx']]%lookup_insert_Some; [split; [done|by eapply so_id]|by eapply so_id].
  - intros e x. by apply reindex.
  - intros x r' [[<- <-]|[Hx Hx']]%lookup_insert_Some.
    + apply list_lookup_insert_eq. by eapply lookup_lt_Some.
    + rewrite list_lookup_insert_ne; [by eapply so_chan|]. intros E. apply Hx. by eapply so_own.
  - intros x x' r1 r2. rewrite !lookup_insert_Some. intros [[<- <-]|[? ?]] [[<- <-]|[? ?]] E; simpl in E;
      [done|by eapply so_own..].
Qed.

Lemma add_ok s m s' : store_ok s → uuid_ok (id m) → add s m = Ok s' → store_ok s'.
Proof.
  intros Hs Ho. unfold add. destruct (records s !! id m) as [r|] eqn:Er; [done|]. intros [= <-]. constructor; simpl.
  - intros x r' [[<- <-]|[Hx Hx']]%lookup_insert_Some; [done|by eapply so_id].
  - intros e x. destruct (decide (x = id m)) as [->|Hx].
    + rewrite lookup_insert_eq. assert ((e, id m) ∉ by_expiry s) as Hn.
      { intros (r & E1 & _)%(so_expiry _ Hs). congruence. }
      unfold index_expiry. destruct (expires_at m) as [e1|] eqn:Em; rewrite ?elem_of_union, ?elem_of_singleton.
      * split; [intros [[= ->]|]; [|done]; by eexists|]. intros (r & [= <-] & E). simpl in E. left. congruence.
      * split; [done|]. intros (r & [= <-] & E). simpl in E. congruence.
    + rewrite lookup_insert_ne, <- (so_expiry _ Hs) by done.
      unfold index_expiry. destruct (expires_at m); rewrite ?elem_of_union, ?elem_of_singleton; [|done].
      split; [intros [[= _ ?]|]; done|tauto].
  - intros x r' [[<- <-]|[Hx Hx']]%lookup_insert_Some; simpl; [by rewrite list_lookup_middle|].
    pose proof (so_chan _ Hs _ _ Hx') as Hc. rewrite lookup_app_l; [done|]. by eapply lookup_lt_Some.
  - intros x x' r1 r2. rewrite !lookup_insert_Some. intros [[<- <-]|[? H1]] [[<- <-]|[? H2]] E; simpl in E; [done| | |by eapply so_own].
    + apply (so_chan _ Hs), lookup_lt_Some in H2. lia.
    + apply (so_chan _ Hs), lookup_lt_Some in H1. lia.
Qed.

(** When the deadline stays, so may the index. *)
Lemma reindex_same s k r m' : store_ok s → records s !! k = Some r → expires_at (metadata r) = expires_at m' →
  by_expiry s = index_expiry (deindex_expiry (by_expiry s) k (expires_at (metadata r))) k (expires_at m').
Proof.
  intros Hs Er Ee. apply set_eq. intros [e x]. rewrite (reindex s k r m' e x), (so_expiry _ Hs) by done.
  destruct (decide (x = k)) as [->|]; [rewrite lookup_insert_eq, Er|by rewrite lookup_insert_ne].
  split; intros (r' & [= <-] & E); eexists; (split; [done|]); simpl in *; congruence.
Qed.

Lemma remove_ok s k r : store_ok s → records s !! k = Some r →
  store_ok (mkStore (delete k (records s)) (deindex_expiry (by_expiry s) k (expires_at (metadata r)))
              (<[state_tx r := None]> (channels s))).
Proof.
  intros Hs Er. constructor; simpl.
  - intros x r' [Hx Hx']%lookup_delete_Some. by eapply so_id.
  - intros e x. pose proof (reindex s k r (with_timeout (metadata r) None None) e x Hs Er) as Hre. simpl in Hre.
    rewrite Hre. destruct (decide (x = k)) as [->|]; [|by rewrite lookup_insert_ne, lookup_delete_ne].
    rewrite lookup_insert_eq, lookup_delete_eq. split; [by intros (? & [= <-] & ?)|by intros (? & ? & _)].
  - intros x r' [Hx Hx']%lookup_delete_Some. rewrite list_lookup_insert_ne; [by eapply so_chan|].
    intros E. apply Hx. by eapply so_own.
  - intros x x' r1 r2 [? H1]%lookup_delete_Some [? H2]%lookup_delete_Some. by eapply so_own.
Qed.

Lemma run_op_ok s o : store_ok s → op_ok o → store_ok (run_op s o).
Proof.
  intros Hs Ho. unfold run_op. destruct o as [m|m|k st expected|k expected f|k]; simpl.
  - destruct (add s m) eqn:E; [|done]. by eapply add_ok.
  - unfold update. destruct (records s !! id m) as [r|] eqn:Er; [|done]. by apply (replace_ok s).
  - unfold update_state_if_state. destruct (records s !! k) as [r|] eqn:Er; [|done].
    destruct (bool_decide _); [|done].
    apply (replace_ok s k r (with_state (metadata r) st)); [done|done|by eapply so_id|by apply (reindex_same s k r)].
  - unfold update_if_state. destruct (records s !! k) as [r|] eqn:Er; [|done].
    destruct (bool_decide (_ ∈ _)); [|done]. simpl.
    assert (id (f (metadata r)) = k) as Hid by (rewrite Ho; by eapply so_id).
    set (b := if bool_decide (expires_at _ = _) then _ else _).
    assert (store_ok (mkStore (<[k := mkRecord (f (metadata r)) (state_tx r)]> (records s)) b
      (<[state_tx r := Some (state (f (metadata r)))]> (channels s)))) as Hok.
    { apply replace_ok; [done|done|done|]. unfold b. case_bool_decide as Ee; [|done]. by apply (reindex_same s k r). }
    case_bool_decide as Es; [|done]. rewrite <- Es in Hok. by rewrite list_insert_id in Hok by (by eapply so_chan).
  - unfold remove. destruct (records s !! k) as [r|] eqn:Er; [|done]. simpl. destruct (so_id _ Hs _ _ Er) as [-> _].
    by apply (remove_ok s).
Qed.

Lemma run_ops_ok ops s : Forall op_ok ops → store_ok s → store_ok (foldl run_op s ops).
Proof. revert s. induction ops as [|o ops IH]; intros s Ho Hs; [done|]. apply Forall_cons in Ho as [? ?]. simpl. by apply IH, run_op_ok. Qed.

(** ** The queries *)

Lemma pair_cmp_lt a b : pair_cmp a b = Lt ↔ a.1 < b.1 ∨ a.1 = b.1 ∧ a.2 < b.2.
Proof. unfold pair_cmp. destruct (Z.compare_spec a.1 b.1); rewrite ?Z.compare_lt_iff; split; try done; lia. Qed.
Lemma pair_cmp_eq a b : pair_cmp a b = Eq ↔ a = b.
Proof.
  destruct a as [a1 a2], b as [b1 b2]. unfold pair_cmp. simpl.
  destruct (Z.compare_spec a1 b1); rewrite ?Z.compare_eq_iff; (split; [|intros [= -> ->]]); try done; try lia.
  by intros ->; subst.
Qed.
Lemma pair_cmp_flip a b : pair_cmp b a = CompOpp (pair_cmp a b).
Proof. unfold pair_cmp. rewrite (Z.compare_antisym a.1 b.1). destruct (a.1 ?= b.1); [apply Z.compare_antisym|reflexivity..]. Qed.
Lemma pair_cmp_trans a b c : pair_cmp a b = Lt → pair_cmp b c = Lt → pair_cmp a c = Lt.
Proof. rewrite !pair_cmp_lt. lia. Qed.

Lemma nodup_pairs l : NoDup l → ForallOrdPairs (λ x y, pair_cmp x y ≠ Eq) l.
Proof.
  induction 1 as [|x l Hx Hl IH]; constructor; [|done]. apply Forall_forall. intros y Hy. rewrite pair_cmp_eq. by intros ->.
Qed.

(** [omap] of a sorted list. *)
Lemma omap_sorted {A B} (R : A → A → Prop) (S : B → B → Prop) (f : A → option B) l :
  (∀ a b x y, a ∈ l → b ∈ l → R a b → f a = Some x → f b = Some y → S x y) →
  StronglySorted R l → StronglySorted S (omap f l).
Proof.
  intros HRS Hl. induction Hl as [|a l Hl IH Ha]; simpl; [constructor|].
  assert (StronglySorted S (omap f l)) by (apply IH; intros a' b' x y Ha' Hb'; apply (HRS a' b'); by right).
  destruct (f a) as [x|] eqn:Ef; [|done].
  constructor; [done|]. apply Forall_forall. intros y (b & Hb & Eb)%list_elem_of_omap.
  rewrite Forall_forall in Ha. eapply HRS; [left|by right|by apply Ha|done|done].
Qed.

Lemma sorted_nodup {A} (R : A → A → Prop) l : (∀ a, ¬ R a a) → StronglySorted R l → NoDup l.
Proof.
  intros HR. induction 1 as [|a l Hl IH Ha]; constructor; [|done]. intros Hin. rewrite Forall_forall in Ha.
  by apply (HR a), Ha.
Qed.

(** Before in the order of deadlines. *)
Definition sooner (a b : SandboxMetadata) : Prop :=
  ∃ e e', expires_at a = Some e ∧ expires_at b = Some e' ∧ pair_cmp (e, id a) (e', id b) = Lt.

Lemma sooner_irrefl a : ¬ sooner a a.
Proof. intros (e & e' & E & E' & Hlt). simplify_eq. rewrite pair_cmp_lt in Hlt. simpl in Hlt. lia. Qed.

Lemma list_records_elem s m : store_ok s → m ∈ list_records s ↔ store_get s (id m) = Some m.
Proof.
  intros Hs. unfold list_records, store_get. rewrite list_elem_of_fmap. split.
  - intros (r & -> & ([k r'] & -> & Hk%elem_of_map_to_list)%list_elem_of_fmap). simpl.
    simpl in *. destruct (so_id _ Hs _ _ Hk) as [-> _]. by rewrite Hk.
  - intros (r & Hr & ->)%fmap_Some. exists r. split; [done|]. apply list_elem_of_fmap. exists (id (metadata r), r).
    split; [done|]. by apply elem_of_map_to_list.
Qed.

Lemma list_records_nodup s : store_ok s → NoDup (id <$> list_records s).
Proof.
  intros Hs. unfold list_records. rewrite <- !list_fmap_compose.
  rewrite (list_fmap_ext _ fst (map_to_list (records s))); [apply NoDup_fst_map_to_list|].
  intros i [k r] Hk. simpl. apply list_elem_of_lookup_2, elem_of_map_to_list in Hk. by apply (so_id _ Hs _ _ Hk).
Qed.

(** The index entries up to [now]. *)
Definition due (s : Store) (now : Z) : list (Z * Z) :=
  List.filter (λ p, negb (is_greater (pair_cmp p (now, UUID_MAX)))) (sort_by pair_cmp (elements (by_expiry s))).

Lemma due_sorted s now : StronglySorted (λ a b, pair_cmp a b = Lt) (due s now).
Proof.
  apply filter_sorted, sort_by_strict; [apply pair_cmp_flip|apply pair_cmp_trans|apply nodup_pairs, NoDup_elements].
Qed.

Lemma due_elem s now e k : store_ok s →
  (e, k) ∈ due s now ↔ ∃ r, records s !! k = Some r ∧ expires_at (metadata r) = Some e ∧ e ≤ now.
Proof.
  intros Hs. unfold due. rewrite list_elem_of_In, filter_In, <- list_elem_of_In, sort_by_perm, elem_of_elements, (so_expiry _ Hs).
  split.
  - intros [(r & Hr & He) Hd]. exists r. split_and!; [done|done|]. destruct (pair_cmp (e, k) (now, UUID_MAX)) eqn:Ec; [| |done].
    + apply pair_cmp_eq in Ec. simplify_eq. lia.
    + apply pair_cmp_lt in Ec. simpl in Ec. lia.
  - intros (r & Hr & He & Hle). split; [by eexists|]. destruct (so_id _ Hs _ _ Hr) as [_ Hk]. unfold uuid_ok, UUID_MAX in *.
    rewrite pair_cmp_flip. destruct (pair_cmp (now, 2 ^ 128 - 1) (e, k)) eqn:Ec; [done| |done].
    apply pair_cmp_lt in Ec. simpl in Ec. lia.
Qed.

Lemma list_expired_sorted s now : store_ok s → StronglySorted sooner (list_expired s now).
Proof.
  intros Hs. apply (omap_sorted (λ a b, pair_cmp a b = Lt)); [|apply due_sorted].
  intros [e k] [e' k'] x y (r & Hr & He & _)%(due_elem _ _ _ _ Hs) (r' & Hr' & He' & _)%(due_elem _ _ _ _ Hs) Hlt.
  simpl. rewrite Hr, Hr'. intros [= <-] [= <-]. exists e, e'. destruct (so_id _ Hs _ _ Hr) as [-> _], (so_id _ Hs _ _ Hr') as [-> _].
  done.
Qed.

Lemma list_expired_elem s now m : store_ok s → m ∈ list_expired s now ↔ store_get s (id m) = Some m ∧ is_expired m now = true.
Proof.
  intros Hs. unfold list_expired. fold (due s now). rewrite list_elem_of_omap. unfold store_get, is_expired. split.
  - intros ([e k] & (r & Hr & He & Hle)%(due_elem _ _ _ _ Hs) & Hm). simpl in Hm. rewrite Hr in Hm. injection Hm as <-.
    destruct (so_id _ Hs _ _ Hr) as [-> _]. rewrite Hr, He. split; [done|]. by apply Z.leb_le.
  - intros [(r & Hr & ->)%fmap_Some He]. destruct (expires_at (metadata r)) as [e|] eqn:Ee; [|done].
    apply Z.leb_le in He. exists (e, id (metadata r)). split; [|simpl; by rewrite Hr].
    apply (due_elem _ _ _ _ Hs). by exists r.
Qed.

(** ** Channels *)

(** The channel [rx] is that of the sandbox, or is closed for good. *)
Definition follows_channel (s : Store) (sandbox_id : Z) (rx : nat) : Prop :=
  state_tx <$> records s !! sandbox_id = Some rx ∨ channels s !! rx = Some None.

Lemma set_channel s k r x rx v : store_ok s → records s !! k = Some r → k ≠ x → follows_channel s x rx →
  <[state_tx r := v]> (channels s) !! rx = channels s !! rx.
Proof.
  intros Hs Hr Hne [(r' & Hr' & ->)%fmap_Some|Hc].
  - rewrite list_lookup_insert_ne; [done|]. intros E. apply Hne. by eapply so_own.
  - rewrite list_lookup_insert_ne; [done|]. intros <-. by rewrite (so_chan _ Hs _ _ Hr) in Hc.
Qed.

(** A record that is replaced keeps its channel; another one leaves it alone. *)
Lemma replaced_channel s k r m b c x rx : store_ok s → records s !! k = Some r → follows_channel s x rx →
  c = channels s ∨ c = <[state_tx r := Some (state m)]> (channels s) →
  follows_channel (mkStore (<[k := mkRecord m (state_tx r)]> (records s)) b c) x rx.
Proof.
  intros Hs Hr Hf Hc. unfold follows_channel. cbn. destruct (decide (k = x)) as [->|Hne].
  - rewrite lookup_insert_eq. cbn. destruct Hf as [Hf|Hf]; [left; by rewrite Hr in Hf|right].
    destruct Hc as [-> | ->]; [done|]. rewrite list_lookup_insert_ne; [done|]. intros <-. by rewrite (so_chan _ Hs _ _ Hr) in Hf.
  - rewrite lookup_insert_ne by done. destruct Hc as [-> | ->]; [done|]. by rewrite (set_channel s k r x rx).
Qed.

Lemma run_op_channel s o x rx : store_ok s → follows_channel s x rx → follows_channel (run_op s o) x rx.
Proof.
  intros Hs Hf. unfold run_op. destruct o as [m|m|k st expected|k expected f|k]; simpl.
  - unfold add. destruct (records s !! id m) as [r|] eqn:Er; [done|]. unfold follows_channel in *. cbn.
    destruct Hf as [Hf|Hf]; [left; rewrite lookup_insert_ne; [done|]; intros <-; by rewrite Er in Hf|].
    right. by apply lookup_app_l_Some.
  - unfold update. destruct (records s !! id m) as [r|] eqn:Er; [|done]. eapply replaced_channel; eauto.
  - unfold update_state_if_state. destruct (records s !! k) as [r|] eqn:Er; [|done]. destruct (bool_decide _); [|done].
    eapply replaced_channel; eauto.
  - unfold update_if_state. destruct (records s !! k) as [r|] eqn:Er; [|done]. destruct (bool_decide (_ ∈ _)); [|done]. simpl.
    destruct (bool_decide (state _ = _)); eapply replaced_channel; eauto.
  - unfold remove. destruct (records s !! k) as [r|] eqn:Er; [|done]. unfold follows_channel. cbn. destruct (decide (k = x)) as [->|Hne].
    + right. destruct Hf as [Hf|Hf].
      * rewrite Er in Hf. injection Hf as <-. apply list_lookup_insert_eq. eapply lookup_lt_Some. by eapply so_chan.
      * rewrite list_lookup_insert_ne; [done|]. intros <-. by rewrite (so_chan _ Hs _ _ Er) in Hf.
    + rewrite lookup_delete_ne by done. by rewrite (set_channel s k r x rx).
Qed.

Lemma run_ops_channel ops x rx : Forall op_ok ops → ∀ s, store_ok s → follows_channel s x rx → follows_channel (foldl run_op s ops) x rx.
Proof. induction 1 as [|o ops Ho _ IH]; intros s Hs Hf; [done|]. simpl. apply IH; [by apply run_op_ok|by apply run_op_channel]. Qed.

(** C37: after any sequence of additions, updates, conditional updates and
    removals, each of which sends its notification before the next one starts,
    the expiry query returns exactly the sandboxes whose deadline has passed,
    each once and in the order of their deadlines; a task that waits for a
    sandbox to leave some states waits exactly while the sandbox is in one of
    them; and so does a task that has subscribed before a further sequence of
    operations, which returns nothing when the sandbox it subscribed to is gone,
    also when another one with its id has been added. *)
Theorem store_queries_exact ops more now sandbox_id transitional : Forall op_ok (ops ++ more) →
  let s := foldl run_op store_new ops in
  let s' := foldl run_op s more in
  StronglySorted sooner (list_expired s now)
  ∧ list_expired s now ≡ₚ List.filter (λ m, is_expired m now) (list_records s)
  ∧ wait_while_in_states s sandbox_id transitional =
      match store_get s sandbox_id with
      | Some m => if bool_decide (state m ∈ transitional) then None else Some (Some m)
      | None => Some None
      end
  ∧ ∀ rx, wait_step s sandbox_id transitional Subscribing = WaitingFor rx →
      wait_step s' sandbox_id transitional (WaitingFor rx) =
        match records s' !! sandbox_id with
        | Some r =>
            if bool_decide (state_tx r = rx)
            then if bool_decide (state (metadata r) ∈ transitional) then WaitingFor rx else Reading
            else Returned None
        | None => Returned None
        end.
Proof.
  intros [Ho Hm]%Forall_app s s'. assert (store_ok s) as Hs by (apply run_ops_ok; [done|apply store_new_ok]). split_and!.
  - by apply list_expired_sorted.
  - apply NoDup_Permutation.
    + eapply sorted_nodup; [apply sooner_irrefl|by apply list_expired_sorted].
    + apply NoDup_ListNoDup, List.NoDup_filter, NoDup_ListNoDup, (NoDup_fmap_1 id). by apply list_records_nodup.
    + intros m. rewrite (list_expired_elem s now m Hs), (list_elem_of_In (List.filter _ _) m), filter_In, <- list_elem_of_In.
      by rewrite list_records_elem.
  - unfold wait_while_in_states. cbn [wait_step]. unfold store_get. destruct (records s !! sandbox_id) as [r|] eqn:Er; [|done].
    cbn [wait_step]. rewrite (so_chan _ Hs _ _ Er). cbn. case_bool_decide as Hb; cbn.
    + rewrite (so_chan _ Hs _ _ Er). by rewrite bool_decide_true.
    + unfold store_get. by rewrite Er.
  - intros rx E. cbn [wait_step] in *. assert (store_ok s') as Hs' by (by apply run_ops_ok).
    assert (follows_channel s sandbox_id rx) as Hf by (destruct (records s !! sandbox_id) eqn:Er; [left; rewrite Er; by injection E as <-|done]).
    apply (run_ops_channel more) in Hf; [|done|done]. fold s' in Hf. destruct Hf as [(r & Hr & ->)%fmap_Some|Hc].
    + rewrite Hr, (so_chan _ Hs' _ _ Hr). by rewrite (bool_decide_true (state_tx r = state_tx r)).
    + rewrite Hc. destruct (records s' !! sandbox_id) as [r|] eqn:Er; [|done]. rewrite bool_decide_false; [done|].
      intros <-. by rewrite (so_chan _ Hs' _ _ Er) in Hc.
Qed.

Definition ex_metadata (i : Z) (deadline : option Z) : SandboxMetadata :=
  mkMetadata i false [] None Running 100 None TimeoutPause deadline None [].

(** Two sandboxes; one is paused, the other gets a later deadline. *)
Definition ex_store_ops : list store_op :=
  [OpAdd (ex_metadata 1 (Some 300)); OpAdd (ex_metadata 2 (Some 200)); OpUpdateState 1 Pausing [Running];
   OpUpdateIf 2 [Running] (λ m, update_timeout m (SetTimeout 500) 100); OpRemove 3].

(** The first sandbox goes, and another one gets its id. *)
Definition ex_more_ops : list store_op := [OpRemove 1; OpAdd (ex_metadata 1 None); OpUpdateState 1 Pausing [Running]].

Lemma store_queries_exact_witness :
  let s := foldl run_op store_new ex_store_ops in
  StronglySorted sooner (list_expired s 400)
  ∧ list_expired s 400 ≡ₚ List.filter (λ m, is_expired m 400) (list_records s)
  ∧ wait_while_in_states s 1 [Pausing] =
      match store_get s 1 with
      | Some m => if bool_decide (state m ∈ [Pausing]) then None else Some (Some m)
      | None => Some None
      end
  ∧ wait_step (foldl run_op s ex_more_ops) 1 [Pausing] (WaitingFor 0) = Returned None.
Proof.
  destruct (store_queries_exact ex_store_ops ex_more_ops 400 1 [Pausing]) as (H1 & H2 & H3 & H4).
  - repeat constructor; simpl; unfold uuid_ok; (lia || done).
  - split; [exact H1|]. split; [exact H2|]. split; [exact H3|]. rewrite (H4 0%nat); vm_compute; reflexivity.
Defined.

(** The proviso is needed.  The lock is released before the notification is
    sent: when a sandbox moves on from [Pausing] to [Paused] and the two
    notifications arrive in the other order, a task waits for it to leave
    [Pausing] although it has left. *)
Definition ex_race : Store :=
  let s := run_op store_new (OpAdd (ex_metadata 1 None)) in
  let '(s, n1) := apply_op s (OpUpdateState 1 Pausing [Running]) in
  let '(s, n2) := apply_op s (OpUpdateState 1 Paused [Pausing]) in
  match n1, n2 with Some n1, Some n2 => notify_state (notify_state s n2) n1 | _, _ => s end.

Lemma late_notification_blocks_waiter :
  bool_decide (state <$> store_get ex_race 1 = Some Paused) = true ∧ bool_decide (is_Some (wait_while_in_states ex_race 1 [Pausing])) = false.
Proof. split; vm_compute; reflexivity. Qed.
