(* ===== verification/ListApi.v ===== *)
(** * Listing sandboxes and snapshots

    Models the list endpoints of the API over the components they read:
    [v2_sandboxes_get] of [src/api/impls/sandbox.rs] over the metadata store,
    [snapshots_get] of [src/api/impls/snapshots.rs] over the snapshot catalog
    ([src/snapshot/catalog.rs]: filter, listing and order).  The URL decoding of
    the metadata parameter ([form_urlencoded]) is an argument. *)

From stdpp Require Import gmap sorting.
From S2P Require Import Prelude Text Pagination SandboxStore.

Open Scope result_scope.

Inductive api_error : Type :=
| DifferentSortOrder                       (** 400 *)
| InvalidNextToken (e : PaginationError)   (** 400 *)
| CatalogError.                            (** 500 *)

(** ** Sandboxes *)

Section Sandboxes.
Context `{TokenOps} (form_urlencoded : str → list (str * str)).

Definition parse_metadata_filter (raw : option str) : option (gmap str str) :=
  raw ≫= λ raw,
    let m := list_to_map (rev (List.filter (λ kv, negb (is_nil kv.1) && negb (is_nil kv.2)) (form_urlencoded raw))) in
    if bool_decide (m = (∅ : gmap str str)) then None else Some m.

Record V2SandboxesGetQueryParams : Type := mkQuery {
  q_state : list SandboxState;
  q_order_asc : bool;
  q_metadata : option str;
  q_started_after : option Z;
  q_template : option str;
  q_limit : option Z;
  q_next_token : option str
}.

Definition query_filter (q : V2SandboxesGetQueryParams) : SandboxListFilter :=
  let states := match q_state q with [st] => Some [st] | _ => None end in
  mkFilter states None (parse_metadata_filter (q_metadata q)) (q_started_after q) (q_template q).

Definition include_running (q : V2SandboxesGetQueryParams) : bool :=
  none_or (λ states, bool_decide (Running ∈ states)) (f_states (query_filter q)).

(** The body, the next token and the number of running sandboxes. *)
Definition v2_sandboxes_get (s : Store) (now : Z) (q : V2SandboxesGetQueryParams) :
    result api_error (Paginated SandboxMetadata * option Z) :=
  let descending := negb (q_order_asc q) in
  let? cursor :=
    match q_next_token q with
    | Some token =>
        match parse token with
        | Ok cursor => if Bool.eqb (Pagination.descending cursor) descending then Ok cursor else Err DifferentSortOrder
        | Err e => Err (InvalidNextToken e)
        end
    | None => Ok (if descending then new_descending now UUID_MAX else new_ascending 0 UUID_MAX)
    end in
  let l := list_sandboxes_filtered s (query_filter q) in
  let x_total_running :=
    if include_running q
    then Some (Z.min (zlen (List.filter (λ m, bool_decide (state m = Running)) l)) (2 ^ 31 - 1)) else None in
  let page :=
    paginate
      (λ m c, compare descending (created_at m) (id m) (time c) (value c))
      (λ m, mkCursor (created_at m) (id m) descending)
      (λ a b, compare descending (created_at a) (id a) (created_at b) (id b))
      cursor l (q_limit q) in
  Ok (page, x_total_running).
End Sandboxes.

(** ** Snapshots *)

Inductive SnapshotSourceKind : Type := KindTemplate | KindSandbox.
Inductive TemplateBuildStatus : Type := Waiting | Building | Ready | BuildError.

#[global] Instance kind_eq_dec : EqDecision SnapshotSourceKind.
Proof. solve_decision. Defined.
#[global] Instance status_eq_dec : EqDecision TemplateBuildStatus.
Proof. solve_decision. Defined.

Inductive SnapshotSource : Type := SourceTemplate (status : TemplateBuildStatus) | SourceSandbox (source_sandbox_id : str).

(** The fields the listing reads. *)
Record SnapshotRecord : Type := mkSnapshot {
  sn_id : Z;
  sn_alias : option str;
  sn_source : SnapshotSource;
  created_at_unix_ms : Z;
  deleting : bool
}.

Record SnapshotListFilter : Type := mkSnapshotFilter {
  alias_prefix : option str;
  snapshot_ids : option (list Z);
  snapshot_id_or_alias : option str;
  source_sandbox_id : option str;
  sources : option (list SnapshotSourceKind);
  template_statuses : option (list TemplateBuildStatus)
}.

Definition templates : SnapshotListFilter := mkSnapshotFilter None None None None (Some [KindTemplate]) None.

(** [rsplit_once('/')] and [split_once(':')] on a qualified name. *)
Definition unqualify (value : str) : str :=
  let unqualified := match rsplit_once 47 value with Some (_, name) => name | None => value end in
  match split_on 58 unqualified with name :: _ => name | [] => unqualified end.

Definition sandbox_snapshots (source_sandbox_id snapshot_id_or_alias : option str) : SnapshotListFilter :=
  mkSnapshotFilter None None (unqualify <$> snapshot_id_or_alias) source_sandbox_id (Some [KindSandbox]) None.

Section Snapshots.
Context `{TokenOps}.

Definition matches_filter (r : SnapshotRecord) (f : SnapshotListFilter) : bool :=
  none_or (λ prefix, some_and (starts_with prefix) (sn_alias r)) (alias_prefix f)
  && none_or (λ ids, existsb (λ i, i =? sn_id r) ids) (snapshot_ids f)
  && none_or (λ id_or_alias,
       negb (negb (bool_decide (uuid_fmt (sn_id r) = id_or_alias))
             && none_or (λ alias, negb (bool_decide (alias = id_or_alias))) (sn_alias r))) (snapshot_id_or_alias f)
  && none_or (λ sid, match sn_source r with SourceSandbox s => bool_decide (s = sid) | _ => false end) (source_sandbox_id f)
  && none_or (λ kinds,
       bool_decide (match sn_source r with SourceTemplate _ => KindTemplate | SourceSandbox _ => KindSandbox end ∈ kinds))
       (sources f)
  && none_or (λ statuses,
       match sn_source r with SourceTemplate status => bool_decide (status ∈ statuses) | _ => false end) (template_statuses f).

(** [SnapshotCatalog::list]: [None] is a document that does not decode. *)
Fixpoint collect_records (f : SnapshotListFilter) (documents : list (option SnapshotRecord)) :
    result api_error (list SnapshotRecord) :=
  match documents with
  | [] => Ok []
  | None :: _ => Err CatalogError
  | Some r :: documents' =>
      let? rs := collect_records f documents' in
      Ok (if negb (deleting r) && matches_filter r f then r :: rs else rs)
  end.

Definition catalog_cmp (left right : SnapshotRecord) : comparison :=
  match created_at_unix_ms right ?= created_at_unix_ms left with
  | Eq => str_cmp (uuid_fmt (sn_id left)) (uuid_fmt (sn_id right))
  | c => c
  end.

Definition catalog_list (f : SnapshotListFilter) (documents : list (option SnapshotRecord)) :
    result api_error (list SnapshotRecord) :=
  let? records := collect_records f documents in
  Ok (sort_by catalog_cmp records).

Definition system_time_from_unix_ms (unix_ms : Z) : Z :=
  if 0 <=? unix_ms then unix_ms * 1000000 else - (Z.abs unix_ms * 1000000).

Definition snapshots_get (documents : list (option SnapshotRecord)) (now : Z) (sandbox_id name : option str)
    (limit : option Z) (next_token : option str) : result api_error (Paginated SnapshotRecord) :=
  let? cursor :=
    match next_token with
    | Some token =>
        match parse token with
        | Ok cursor => if descending cursor then Ok cursor else Err DifferentSortOrder
        | Err e => Err (InvalidNextToken e)
        end
    | None => Ok (new_descending now UUID_MAX)
    end in
  let? summaries := catalog_list (sandbox_snapshots sandbox_id name) documents in
  Ok (paginate_sorted
        (λ r c, compare_desc (system_time_from_unix_ms (created_at_unix_ms r)) (sn_id r) (time c) (value c))
        (λ r, new_descending (system_time_from_unix_ms (created_at_unix_ms r)) (sn_id r))
        cursor summaries limit).
End Snapshots.

(** ** Walking through a listing *)

Section Complete.
Context `{TokenSpec}.

Lemma nodup_ids_differ {Item} d (created ident : Item → Z) l : NoDup (ident <$> l) →
  ForallOrdPairs (λ x y, item_cmp d created ident x y ≠ Eq) l.
Proof.
  induction l as [|x l IH]; simpl; [constructor|]. intros [Hx Hl]%NoDup_cons. constructor; [|by apply IH].
  apply Forall_forall. intros y Hy. unfold item_cmp. rewrite compare_eq. intros [_ E]. apply Hx. rewrite E.
  by apply list_elem_of_fmap_2.
Qed.

Lemma nodup_filter_ids {A B} (f : A → B) (g : A → bool) l : NoDup (f <$> l) → NoDup (f <$> List.filter g l).
Proof.
  induction l as [|x l IH]; simpl; [done|]. intros [Hx Hl]%NoDup_cons. destruct (g x); [|by apply IH].
  simpl. constructor; [|by apply IH]. intros (y & E & [Hy _]%list_elem_of_In%filter_In)%list_elem_of_fmap.
  apply Hx. rewrite E. by apply list_elem_of_fmap_2, list_elem_of_In.
Qed.

Lemma nonzero_limit limit : limit ≠ Some 0 → (∀ n, limit = Some n → 0 ≤ n) →
  match limit with Some 0 => true | _ => false end = false ∧ ∀ n, limit = Some n → 0 < n.
Proof.
  intros Hz Hn. destruct limit as [n|]; [|done]. specialize (Hn n eq_refl). destruct n; [done| |lia].
  split; [done|]. intros m [= <-]. lia.
Qed.

Definition with_token (q : V2SandboxesGetQueryParams) (t : option str) : V2SandboxesGetQueryParams :=
  mkQuery (q_state q) (q_order_asc q) (q_metadata q) (q_started_after q) (q_template q) (q_limit q) t.

(** A client of the endpoint: it keeps the body and the token. *)
Definition fetch_sandboxes form_urlencoded s now q (t : option str) : result api_error (Paginated SandboxMetadata) :=
  let? r := v2_sandboxes_get form_urlencoded s now (with_token q t) in Ok r.1.

(** A sandbox that a listing can be asked for: an ordinary id and a creation
    time in the past. *)
Definition listable (now : Z) (m : SandboxMetadata) : Prop :=
  uuid_ok (id m) ∧ id m ≠ UUID_MAX ∧ time_ok (created_at m) ∧ created_at m < now.

Lemma first_cursor_before_all now d m : listable now m →
  cursor_cmp d created_at id m (if d then new_descending now UUID_MAX else new_ascending 0 UUID_MAX) = Gt.
Proof.
  intros (Hu & Hm & Ht & Hn). unfold cursor_cmp. rewrite compare_flip. unfold uuid_ok, UUID_MAX, time_ok in *.
  destruct d; simpl; rewrite (proj2 (compare_lt _ _ _ _ _)); simpl; try done; lia.
Qed.

(** What a fetch answers once its cursor is known. *)
Lemma fetch_sandboxes_page form_urlencoded s now q t c :
  let d := negb (q_order_asc q) in
  let L := sort_by (item_cmp d created_at id) (list_sandboxes_filtered s (query_filter form_urlencoded q)) in
  match q_limit q with Some 0 => true | _ => false end = false →
  match t with
  | Some token => parse token = Ok c ∧ descending c = d
  | None => c = if d then new_descending now UUID_MAX else new_ascending 0 UUID_MAX
  end →
  fetch_sandboxes form_urlencoded s now q t = Ok (page d created_at id L (q_limit q) c).
Proof.
  intros d L E0 Hc. unfold fetch_sandboxes, v2_sandboxes_get. cbn [q_next_token with_token q_order_asc q_limit].
  fold d. destruct t as [token|].
  - destruct Hc as [-> ->]. rewrite Bool.eqb_reflx. cbn [rbind fst]. unfold paginate. by rewrite E0.
  - subst c. cbn [rbind fst]. unfold paginate. by rewrite E0.
Qed.

(** C23: a client that pages through the sandboxes by following the tokens gets
    every sandbox that matches its query exactly once, in the order it asked
    for, whatever the page size, and is done after at most one page more than
    there are sandboxes.  The store is any that its operations produce, with
    creation times before that of the query and ids below the largest one. *)
Theorem sandbox_listing_complete form_urlencoded ops now q : Forall op_ok ops →
  let s := foldl run_op store_new ops in
  let matching := list_sandboxes_filtered s (query_filter form_urlencoded q) in
  Forall (listable now) matching → q_limit q ≠ Some 0 → (∀ n, q_limit q = Some n → 0 ≤ n) →
  ∃ l, list_all (fetch_sandboxes form_urlencoded s now q) (S (length matching)) None = Some l
    ∧ l ≡ₚ matching
    ∧ StronglySorted (λ a b, compare (negb (q_order_asc q)) (created_at a) (id a) (created_at b) (id b) = Lt) l.
Proof.
  intros Ho s matching Hl Hz Hn. destruct (nonzero_limit _ Hz Hn) as [E0 Hlim].
  set (d := negb (q_order_asc q)).
  assert (store_ok s) as Hs by (apply run_ops_ok; [done|apply store_new_ok]).
  assert (NoDup (id <$> matching)) as Hnd.
  { do 2 apply nodup_filter_ids. apply list_records_nodup, Hs. }
  set (L := sort_by (item_cmp d created_at id) matching).
  assert (StronglySorted (λ a b, item_cmp d created_at id a b = Lt) L) as HL.
  { apply sort_by_strict; [apply item_cmp_flip|apply item_cmp_trans|by apply nodup_ids_differ]. }
  assert (L ≡ₚ matching) as HP by apply sort_by_perm.
  set (c0 := if d then new_descending now UUID_MAX else new_ascending 0 UUID_MAX).
  assert (items_after d created_at id c0 L = L) as Ha.
  { apply after_all. rewrite HP. eapply Forall_impl; [exact Hl|]. intros m. apply first_cursor_before_all. }
  exists L. split_and!; [|done|done].
  trans (Some (items_after d created_at id c0 L)); [|by rewrite Ha]. apply (walk_pages d created_at id _ L (q_limit q) Hlim HL).
  - intros x Hx. rewrite HP in Hx. rewrite Forall_forall in Hl. destruct (Hl x Hx) as (Hu & _ & Ht & _).
    apply fetch_sandboxes_page; [done|]. split; [|done]. by apply parse_encode.
  - by apply fetch_sandboxes_page.
  - rewrite Ha, HP. lia.
Qed.
(** *** Snapshots *)

Definition created_time (r : SnapshotRecord) : Z := system_time_from_unix_ms (created_at_unix_ms r).
Definition visible (f : SnapshotListFilter) (r : SnapshotRecord) : bool := negb (deleting r) && matches_filter r f.

Lemma collect_records_ok f rs : collect_records f (Some <$> rs) = Ok (List.filter (visible f) rs).
Proof. induction rs as [|r rs IH]; [done|]. rewrite fmap_cons. cbn [collect_records]. by rewrite IH. Qed.

Lemma system_time_ms ms : system_time_from_unix_ms ms = ms * 1000000.
Proof. unfold system_time_from_unix_ms. destruct (Z.leb_spec 0 ms); lia. Qed.

(** The order of the catalog, by the text of the ids, is that of the cursors. *)
Lemma catalog_cmp_item a b : uuid_ok (sn_id a) → uuid_ok (sn_id b) →
  catalog_cmp a b = item_cmp true created_time sn_id a b.
Proof.
  intros Ha Hb. unfold catalog_cmp, item_cmp, compare, created_time. rewrite uuid_order, !system_time_ms by done.
  rewrite <- (Zmult_compare_compat_r (created_at_unix_ms b) (created_at_unix_ms a) 1000000 eq_refl).
  by destruct (created_at_unix_ms b ?= created_at_unix_ms a).
Qed.

(** the same for snapshots: paging through them gives every snapshot that
    is not being deleted and matches the sandbox and the name, exactly once,
    newest first. *)
Theorem snapshot_listing_complete records now sandbox_id name limit :
  let matching := List.filter (visible (sandbox_snapshots sandbox_id name)) records in
  Forall (λ r, uuid_ok (sn_id r) ∧ time_ok (created_time r) ∧ created_time r < now) matching →
  NoDup (sn_id <$> records) → limit ≠ Some 0 → (∀ n, limit = Some n → 0 ≤ n) →
  ∃ l, list_all (snapshots_get (Some <$> records) now sandbox_id name limit) (S (length matching)) None = Some l
    ∧ l ≡ₚ matching
    ∧ StronglySorted (λ a b, compare_desc (created_time a) (sn_id a) (created_time b) (sn_id b) = Lt) l.
Proof.
  intros matching Hl Hnd Hz Hn. destruct (nonzero_limit _ Hz Hn) as [_ Hlim]. rewrite Forall_forall in Hl.
  set (L := sort_by (item_cmp true created_time sn_id) matching).
  assert (StronglySorted (λ a b, item_cmp true created_time sn_id a b = Lt) L) as HL.
  { apply sort_by_strict; [apply item_cmp_flip|apply item_cmp_trans|]. by apply nodup_ids_differ, nodup_filter_ids. }
  assert (L ≡ₚ matching) as HP by apply sort_by_perm.
  set (c0 := new_descending now UUID_MAX).
  assert (items_after true created_time sn_id c0 L = L) as Ha.
  { apply after_all, Forall_forall. intros m Hm. rewrite HP in Hm. destruct (Hl m Hm) as (_ & _ & Hlt).
    unfold cursor_cmp. rewrite compare_flip, (proj2 (compare_lt _ _ _ _ _)); simpl; [done|lia]. }
  assert (catalog_list (sandbox_snapshots sandbox_id name) (Some <$> records) = Ok L) as EL.
  { unfold catalog_list. rewrite collect_records_ok. cbn [rbind]. f_equal. apply sort_by_ext.
    intros x y Hx%Hl Hy%Hl. apply catalog_cmp_item; tauto. }
  exists L. split_and!; [|done|done].
  trans (Some (items_after true created_time sn_id c0 L)); [|by rewrite Ha].
  apply (walk_pages true created_time sn_id _ L limit Hlim HL).
  - intros x Hx. rewrite HP in Hx. destruct (Hl x Hx) as (Hu & Ht & _).
    unfold snapshots_get. rewrite parse_encode by done. cbn [rbind descending item_cursor]. by rewrite EL.
  - unfold snapshots_get. cbn [rbind]. by rewrite EL.
  - rewrite Ha, HP. lia.
Qed.
End Complete.

(** ** Witnesses *)

(** Fixed-width hexadecimal for times and ids, and no transport encoding. *)
Definition hexdigit (d : Z) : Z := if d <? 10 then 48 + d else 87 + d.
Definition unhexdigit (b : Z) : Z := if b <? 58 then b - 48 else b - 87.
Fixpoint hex (n : nat) (u : Z) : str :=
  match n with
  | O => []
  | S n' => hexdigit ((u / 16 ^ Z.of_nat n') mod 16) :: hex n' u
  end.
Definition unhex (s : str) : Z := fold_left (λ v b, v * 16 + unhexdigit b) s 0.

Lemma hex_split n u : u mod 16 ^ Z.of_nat (S n) = (u / 16 ^ Z.of_nat n) mod 16 * 16 ^ Z.of_nat n + u mod 16 ^ Z.of_nat n.
Proof.
  rewrite Nat2Z.inj_succ, Z.pow_succ_r by lia. rewrite (Z.mul_comm 16).
  rewrite Z.rem_mul_r by lia. lia.
Qed.

Lemma unhexdigit_hexdigit d : 0 ≤ d < 16 → unhexdigit (hexdigit d) = d.
Proof. intros Hd. unfold hexdigit, unhexdigit. destruct (Z.ltb_spec d 10); [rewrite (proj2 (Z.ltb_lt _ _))|rewrite (proj2 (Z.ltb_ge _ _))]; lia. Qed.

Lemma unhex_hex n u v : fold_left (λ v b, v * 16 + unhexdigit b) (hex n u) v = v * 16 ^ Z.of_nat n + u mod 16 ^ Z.of_nat n.
Proof.
  revert v. induction n as [|n IH]; intros v; simpl hex; cbn [fold_left]; [rewrite Z.mod_1_r; lia|].
  rewrite IH, hex_split, unhexdigit_hexdigit by (apply Z.mod_pos_bound; lia).
  rewrite Nat2Z.inj_succ, Z.pow_succ_r by lia. lia.
Qed.

Lemma hex_plain n u : plain (hex n u).
Proof.
  assert (∀ d, 0 ≤ d < 16 → 0 ≤ hexdigit d < 128 ∧ hexdigit d ≠ 95) as Hd
    by (intros d Hd; unfold hexdigit; destruct (Z.ltb_spec d 10); lia).
  induction n as [|n [IH1 IH2]]; [by repeat constructor|].
  pose proof (Z.mod_pos_bound (u / 16 ^ Z.of_nat n) 16 eq_refl) as Hm. split; simpl; (constructor; [by apply Hd|done]).
Qed.

Lemma hex_order n u v : str_cmp (hex n u) (hex n v) = (u mod 16 ^ Z.of_nat n ?= v mod 16 ^ Z.of_nat n).
Proof.
  induction n as [|n IH]; [by rewrite !Z.mod_1_r|]. simpl hex. cbn [str_cmp]. rewrite IH, !hex_split.
  pose proof (Z.mod_pos_bound (u / 16 ^ Z.of_nat n) 16 eq_refl). pose proof (Z.mod_pos_bound (v / 16 ^ Z.of_nat n) 16 eq_refl).
  pose proof (Z.mod_pos_bound u (16 ^ Z.of_nat n) ltac:(lia)). pose proof (Z.mod_pos_bound v (16 ^ Z.of_nat n) ltac:(lia)).
  set (a := (u / 16 ^ Z.of_nat n) mod 16) in *. set (b := (v / 16 ^ Z.of_nat n) mod 16) in *.
  assert ((hexdigit a ?= hexdigit b) = (a ?= b)) as ->.
  { unfold hexdigit. destruct (Z.ltb_spec a 10), (Z.ltb_spec b 10), (Z.compare_spec a b); apply Z.compare_lt_iff || apply Z.compare_gt_iff || apply Z.compare_eq_iff; lia. }
  set (P := 16 ^ Z.of_nat n) in *. symmetry. destruct (Z.compare_spec a b) as [->| |].
  - destruct (Z.compare_spec (u mod P) (v mod P)); [apply Z.compare_eq_iff|apply Z.compare_lt_iff|apply Z.compare_gt_iff]; lia.
  - apply Z.compare_lt_iff. nia.
  - apply Z.compare_gt_iff. nia.
Qed.

#[local] Instance ex_tokens : TokenOps := {|
  b64_encode := λ bs, bs;
  b64_decode := λ s, Some s;
  to_rfc3339 := hex 32;
  parse_from_rfc3339 := λ s, Some (unhex s);
  uuid_fmt := hex 32;
  uuid_parse := λ s, Some (unhex s)
|}.

Lemma hex32_round u : uuid_ok u → unhex (hex 32 u) = u.
Proof. intros Hu. unfold unhex. rewrite unhex_hex. rewrite Z.mod_small; [lia|exact Hu]. Qed.

#[local] Instance ex_tokens_spec : TokenSpec.
Proof.
  constructor.
  - done.
  - intros t Ht. refine (f_equal Some (hex32_round t _)). unfold time_ok, uuid_ok in *. lia.
  - exact (hex_plain 32).
  - intros u Hu. exact (f_equal Some (hex32_round u Hu)).
  - exact (hex_plain 32).
  - intros u v Hu Hv. refine (eq_trans (hex_order 32 u v) _). rewrite !Z.mod_small; [done|exact Hv|exact Hu].
Qed.

Definition ex_query : V2SandboxesGetQueryParams := mkQuery [] false None None None (Some 1) None.

Lemma ex_store_ops_ok : Forall op_ok ex_store_ops.
Proof. repeat constructor; simpl; unfold uuid_ok; (lia || done). Qed.

Definition between (lo x hi : Z) : bool := (lo <=? x) && (x <? hi).

Lemma between_iff lo x hi : between lo x hi = true → lo ≤ x < hi.
Proof. unfold between. rewrite andb_true_iff, Z.leb_le, Z.ltb_lt. done. Qed.

(** Small ids and times. *)
Lemma listable_small l : forallb (λ m, between 0 (id m) 100 && between 0 (created_at m) 1000) l = true →
  Forall (listable 1000) l.
Proof.
  intros Hl. apply Forall_forall. intros m Hm%list_elem_of_In. rewrite forallb_forall in Hl.
  apply Hl, andb_true_iff in Hm as [Hi%between_iff Hc%between_iff].
  unfold listable, uuid_ok, time_ok, UUID_MAX. lia.
Qed.

Lemma ex_listable : Forall (listable 1000)
  (list_sandboxes_filtered (foldl run_op store_new ex_store_ops) (query_filter (λ _, []) ex_query)).
Proof. apply listable_small. vm_compute. reflexivity. Qed.

Lemma one_nonzero : Some 1 ≠ Some 0.
Proof. done. Qed.
Lemma one_limit n : Some 1 = Some n → 0 ≤ n.
Proof. intros [= <-]. lia. Qed.

(** Two sandboxes, one per page. *)
Lemma sandbox_listing_complete_witness :
  let s := foldl run_op store_new ex_store_ops in
  let matching := list_sandboxes_filtered s (query_filter (λ _, []) ex_query) in
  ∃ l, list_all (fetch_sandboxes (λ _, []) s 1000 ex_query) (S (length matching)) None = Some l
    ∧ l ≡ₚ matching
    ∧ StronglySorted (λ a b, compare (negb (q_order_asc ex_query)) (created_at a) (id a) (created_at b) (id b) = Lt) l.
Proof.
  exact (sandbox_listing_complete (λ _, []) ex_store_ops 1000 ex_query ex_store_ops_ok ex_listable one_nonzero one_limit).
Defined.

Definition ex_snapshots : list SnapshotRecord :=
  [mkSnapshot 7 None (SourceSandbox [97]) 5 false; mkSnapshot 3 (Some [98]) (SourceSandbox [97]) 5 false;
   mkSnapshot 4 None (SourceSandbox [97]) 6 true; mkSnapshot 5 None (SourceTemplate Ready) 1 false].

Lemma ex_snapshots_listable :
  Forall (λ r, uuid_ok (sn_id r) ∧ time_ok (created_time r) ∧ created_time r < 9000000)
    (List.filter (visible (sandbox_snapshots (Some [97]) None)) ex_snapshots).
Proof.
  assert (forallb (λ r, between 0 (sn_id r) 100 && between 0 (created_time r) 9000000)
    (List.filter (visible (sandbox_snapshots (Some [97]) None)) ex_snapshots) = true) as Hl by (vm_compute; reflexivity).
  apply Forall_forall. intros r Hr%list_elem_of_In. rewrite forallb_forall in Hl.
  apply Hl, andb_true_iff in Hr as [Hi%between_iff Hc%between_iff]. unfold uuid_ok, time_ok. lia.
Qed.

Lemma ex_snapshots_nodup : NoDup (sn_id <$> ex_snapshots).
Proof. apply (bool_decide_unpack _). vm_compute. exact I. Qed.

Lemma snapshot_listing_complete_witness :
  let matching := List.filter (visible (sandbox_snapshots (Some [97]) None)) ex_snapshots in
  ∃ l, list_all (snapshots_get (Some <$> ex_snapshots) 9000000 (Some [97]) None (Some 1)) (S (length matching)) None = Some l
    ∧ l ≡ₚ matching
    ∧ StronglySorted (λ a b, compare_desc (created_time a) (sn_id a) (created_time b) (sn_id b) = Lt) l.
Proof.
  exact (snapshot_listing_complete ex_snapshots 9000000 (Some [97]) None (Some 1) ex_snapshots_listable ex_snapshots_nodup
    one_nonzero one_limit).
Defined.
