(* ===== verification/CacheMeta.v ===== *)
(** * Metadata of the file cache

    [storage/overlaybd/src/backend/cache/mod.rs] (sizes and rounding) and
    [meta.rs]: the record [meta.bin] that keeps the bitmap of the cached blocks
    of a file, with its byte layout and its checksum.  The serialization of the
    bitmap belongs to the library [roaring] and is a class. *)

From stdpp Require Import gmap.
From S2P Require Import Prelude LsmtIo Text ZFormat.

Open Scope result_scope.

(** ** Sizes *)

Definition META_MAGIC : Z := 0x4f424348.
Definition META_VERSION : Z := 1.
Definition PAGE_SIZE : Z := 4096.
Definition DEFAULT_BLOCK_SIZE : Z := 256 * 1024.
Definition GIB : Z := 1024 * 1024 * 1024.
Definition DEFAULT_DISK_AVAIL_BYTES : Z := 128 * 1024 * 1024.
Definition MAX_PREFETCH_SIZE : Z := 32 * 1024 * 1024.
Definition MAX_FREE_SPACE_BYTES : Z := 50 * GIB.
Definition EVICTION_MARK_BYTES : Z := 5 * GIB.
Definition WATERMARK_RATIO : Z := 90.
Definition DEFAULT_MAX_REFILLING : Z := 128.
Definition O_CACHE_ONLY : Z := 0x01000000.
Definition RW_V2_CACHE_ONLY : Z := 0x00000004.

(** Saturating arithmetic of [u64]. *)
Definition sat_add (a b : Z) : Z := Z.min U64_MAX (a + b).
Definition sat_mul (a b : Z) : Z := Z.min U64_MAX (a * b).

Definition div_round_up (n d : Z) : Z := if n =? 0 then 0 else (n - 1) / d + 1.

Definition align_down (v a : Z) : Z := if a =? 0 then v else v / a * a.

Definition align_up (v a : Z) : Z :=
  if (a =? 0) || (v =? 0) then v else sat_mul (div_round_up v a) a.

(** ** The record *)

Record CacheMetaDiskHeader : Type := {
  mh_magic : Z;
  mh_version : Z;
  mh_source_size : Z;
  mh_block_size : Z;
  mh_last_access : Z;
  mh_hits : Z;
  mh_misses : Z;
  mh_refills : Z
}.

Definition header_size : Z := 56.

Record CacheMetaDisk : Type := {
  md_header : CacheMetaDiskHeader;
  md_key : str;
  md_bitmap : gset Z
}.

(** The serialization of bitmaps over [u32]. *)
Class Roaring : Type := {
  rb_serialize : gset Z → list Z;
  rb_deserialize : list Z → option (gset Z)
}.

Class RoaringSpec `{Roaring} : Prop := {
  rb_roundtrip : ∀ s, (∀ b, b ∈ s → 0 ≤ b ≤ U32_MAX) → rb_deserialize (rb_serialize s) = Some s;
  rb_bytes : ∀ s, Forall is_byte (rb_serialize s)
}.

Inductive meta_error : Type :=
| KeyTooLong | MetaTooShort | MetaMagic | MetaVersion | MetaTruncated | MetaKeyUtf8 | MetaBitmap | MetaChecksum.

Definition header_bytes (h : CacheMetaDiskHeader) : list Z :=
  le_bytes 4 (mh_magic h) ++ le_bytes 4 (mh_version h) ++ le_bytes 8 (mh_source_size h)
  ++ le_bytes 8 (mh_block_size h) ++ le_bytes 8 (mh_last_access h) ++ le_bytes 8 (mh_hits h)
  ++ le_bytes 8 (mh_misses h) ++ le_bytes 8 (mh_refills h).

Definition header_from_bytes (raw : list Z) : CacheMetaDiskHeader := {|
  mh_magic := le_val (slice 0 4 raw); mh_version := le_val (slice 4 4 raw);
  mh_source_size := le_val (slice 8 8 raw); mh_block_size := le_val (slice 16 8 raw);
  mh_last_access := le_val (slice 24 8 raw); mh_hits := le_val (slice 32 8 raw);
  mh_misses := le_val (slice 40 8 raw); mh_refills := le_val (slice 48 8 raw)
|}.

(** [crc32c::crc32c] *)
Definition meta_crc `{Crc32c} (data : list Z) : Z := crc32c_append 0 data.

Definition to_bytes `{Roaring, Crc32c} (m : CacheMetaDisk) : result meta_error (list Z) :=
  let? _ := ensure (zlen (md_key m) <=? U32_MAX) KeyTooLong in
  let out := header_bytes (md_header m) ++ le_bytes 4 (zlen (md_key m)) ++ md_key m
             ++ rb_serialize (md_bitmap m) in
  Ok (out ++ le_bytes 4 (meta_crc out)).

Definition from_bytes `{Roaring, Crc32c} (raw : list Z) : result meta_error CacheMetaDisk :=
  let? _ := ensure (header_size + 4 + 4 <=? zlen raw) MetaTooShort in
  let header := header_from_bytes (ztake header_size raw) in
  let data := zdrop header_size raw in
  let? _ := ensure (mh_magic header =? META_MAGIC) MetaMagic in
  let? _ := ensure (mh_version header =? META_VERSION) MetaVersion in
  let key_len := le_val (ztake 4 data) in
  let data := zdrop 4 data in
  let? _ := ensure (key_len + 4 <=? zlen data) MetaTruncated in
  let key := ztake key_len data in
  let data := zdrop key_len data in
  let? _ := ensure (valid_utf8 key) MetaKeyUtf8 in
  let bitmap_bytes := ztake (zlen data - 4) data in
  let crc_bytes := zdrop (zlen data - 4) data in
  match rb_deserialize bitmap_bytes with
  | None => Err MetaBitmap
  | Some bitmap =>
      let? _ := ensure (le_val crc_bytes =? meta_crc (ztake (zlen raw - 4) raw)) MetaChecksum in
      Ok {| md_header := header; md_key := key; md_bitmap := bitmap |}
  end.

(** ** Rounding *)

Lemma div_round_up_bounds n d : 0 < n → 0 < d → (div_round_up n d - 1) * d < n ≤ div_round_up n d * d.
Proof.
  intros Hn Hd. unfold div_round_up. destruct (Z.eqb_spec n 0); [lia|].
  pose proof (Z.div_mod (n - 1) d ltac:(lia)). pose proof (Z.mod_pos_bound (n - 1) d Hd). nia.
Qed.

Lemma div_round_up_nonneg n d : 0 ≤ n → 0 < d → 0 ≤ div_round_up n d.
Proof. intros Hn Hd. unfold div_round_up. destruct (Z.eqb_spec n 0); [lia|]. pose proof (Z.div_pos (n - 1) d). lia. Qed.

(** Every sector below [n] is in one of the first [div_round_up n d] blocks. *)
Lemma div_round_up_block n d b : 0 ≤ n → 0 < d → 0 ≤ b → (b < div_round_up n d ↔ b * d < n).
Proof.
  intros Hn Hd Hb. unfold div_round_up. destruct (Z.eqb_spec n 0); [nia|].
  pose proof (Z.div_mod (n - 1) d ltac:(lia)). pose proof (Z.mod_pos_bound (n - 1) d Hd). split; intros ?; nia.
Qed.

(** ** The record survives *)

Record wf_meta (m : CacheMetaDisk) : Prop := {
  wm_magic : mh_magic (md_header m) = META_MAGIC;
  wm_version : mh_version (md_header m) = META_VERSION;
  wm_source_size : 0 ≤ mh_source_size (md_header m) ≤ U64_MAX;
  wm_block_size : 0 ≤ mh_block_size (md_header m) ≤ U64_MAX;
  wm_last_access : 0 ≤ mh_last_access (md_header m) ≤ U64_MAX;
  wm_hits : 0 ≤ mh_hits (md_header m) ≤ U64_MAX;
  wm_misses : 0 ≤ mh_misses (md_header m) ≤ U64_MAX;
  wm_refills : 0 ≤ mh_refills (md_header m) ≤ U64_MAX;
  wm_key : valid_utf8 (md_key m) = true ∧ zlen (md_key m) ≤ U32_MAX;
  wm_bitmap : ∀ b, b ∈ md_bitmap m → 0 ≤ b ≤ U32_MAX
}.

Lemma zlen_header_bytes h : zlen (header_bytes h) = header_size.
Proof. unfold header_bytes. rewrite !zlen_app, !zlen_le_bytes. done. Qed.

Lemma header_from_to h rest :
  0 ≤ mh_magic h ≤ U32_MAX → 0 ≤ mh_version h ≤ U32_MAX → 0 ≤ mh_source_size h ≤ U64_MAX →
  0 ≤ mh_block_size h ≤ U64_MAX → 0 ≤ mh_last_access h ≤ U64_MAX → 0 ≤ mh_hits h ≤ U64_MAX →
  0 ≤ mh_misses h ≤ U64_MAX → 0 ≤ mh_refills h ≤ U64_MAX → header_from_bytes (header_bytes h ++ rest) = h.
Proof.
  intros. unfold U32_MAX, U64_MAX in *. unfold header_bytes. rewrite <- !app_assoc.
  destruct h. unfold header_from_bytes. cbn [mh_magic mh_version mh_source_size mh_block_size mh_last_access mh_hits mh_misses mh_refills] in *.
  f_equal; read_field.
Qed.

(** Reading what was written: the fields of the header are read back from
    their bytes, key and bitmap are found as they are. *)
Lemma from_bytes_written `{RoaringSpec, Crc32cSpec} m raw : to_bytes m = Ok raw →
  (∀ b, b ∈ md_bitmap m → 0 ≤ b ≤ U32_MAX) →
  let header := header_from_bytes (header_bytes (md_header m)) in
  from_bytes raw =
    let? _ := ensure (mh_magic header =? META_MAGIC) MetaMagic in
    let? _ := ensure (mh_version header =? META_VERSION) MetaVersion in
    let? _ := ensure (valid_utf8 (md_key m)) MetaKeyUtf8 in
    Ok {| md_header := header; md_key := md_key m; md_bitmap := md_bitmap m |}.
Proof.
  unfold to_bytes. destruct (Z.leb_spec (zlen (md_key m)) U32_MAX) as [Hk|]; [|done].
  cbn [ensure rbind]. intros Hraw Hbm.
  apply (f_equal (λ r, match r with Ok x => x | Err _ => [] end)) in Hraw. cbv beta iota zeta in Hraw. subst raw.
  set (hd := header_bytes (md_header m)). set (L := le_bytes 4 (zlen (md_key m))). set (K := md_key m) in *.
  set (B := rb_serialize (md_bitmap m)). set (C := le_bytes 4 (meta_crc (hd ++ L ++ K ++ B))).
  assert (zlen hd = header_size) as Hhd by apply zlen_header_bytes. assert (zlen L = 4) as HL by apply zlen_le_bytes.
  assert (zlen C = 4) as HC by apply zlen_le_bytes. pose proof (zlen_nonneg K). pose proof (zlen_nonneg B).
  unfold from_bytes. rewrite !zlen_app, Hhd, HL, HC, (proj2 (Z.leb_le _ _)) by (unfold header_size; lia).
  replace (header_size + (4 + (zlen K + zlen B)) + 4 - 4) with (zlen (hd ++ L ++ K ++ B)) by (rewrite !zlen_app; lia).
  rewrite (ztake_app_here (zlen (hd ++ L ++ K ++ B))) by done.
  replace ((hd ++ L ++ K ++ B) ++ C) with (hd ++ L ++ K ++ B ++ C) by (by rewrite <- !app_assoc).
  rewrite (ztake_app_here header_size), (zdrop_app_here header_size) by done.
  rewrite (ztake_app_here 4), (zdrop_app_here 4) by done.
  replace (le_val L) with (zlen K) by (symmetry; apply le_val_le_bytes; unfold U32_MAX in Hk; lia).
  rewrite (ztake_app_here (zlen K)), (zdrop_app_here (zlen K)) by done. rewrite !zlen_app, HC.
  replace (zlen B + 4 - 4) with (zlen B) by lia. rewrite (ztake_app_here (zlen B)), (zdrop_app_here (zlen B)) by done.
  rewrite (proj2 (Z.leb_le (zlen K + 4) _)) by lia. unfold B at 1. rewrite rb_roundtrip by done.
  replace (le_val C) with (meta_crc (hd ++ L ++ K ++ B)).
  2:{ symmetry. apply le_val_le_bytes. apply crc32c_append_range. }
  rewrite Z.eqb_refl. cbn [ensure rbind].
  destruct (mh_magic _ =? _), (mh_version _ =? _); cbn [ensure rbind]; try done; by destruct (valid_utf8 K).
Qed.

(** C25: The metadata of an entry that is written with its checksum is read
    back unchanged: sizes, counters, key and the bitmap of cached blocks. *)
Theorem meta_roundtrip `{RoaringSpec, Crc32cSpec} m : wf_meta m →
  ∃ raw, to_bytes m = Ok raw ∧ from_bytes raw = Ok m.
Proof.
  intros [Hm Hv Hs Hb Hla Hh Hmi Hr [Hu Hk] Hbm].
  assert (∃ raw, to_bytes m = Ok raw) as [raw Hraw].
  { unfold to_bytes. rewrite (proj2 (Z.leb_le _ _) Hk). cbn. eauto. }
  exists raw. split; [done|]. rewrite (from_bytes_written m raw Hraw Hbm).
  rewrite <- (app_nil_r (header_bytes _)), header_from_to by (rewrite ?Hm, ?Hv; done).
  rewrite Hm, Hv, !Z.eqb_refl, Hu. cbn. by destruct m.
Qed.

(** Whatever else the record holds, what is read back lists the same blocks. *)
Lemma meta_reread `{RoaringSpec, Crc32cSpec} m m' raw : to_bytes m = Ok raw → from_bytes raw = Ok m' →
  (∀ b, b ∈ md_bitmap m → 0 ≤ b ≤ U32_MAX) → 0 ≤ mh_block_size (md_header m) ≤ U64_MAX →
  mh_block_size (md_header m') = mh_block_size (md_header m) ∧ md_bitmap m' = md_bitmap m.
Proof.
  intros Hraw Hfrom Hbm Hbs. rewrite (from_bytes_written m raw Hraw Hbm) in Hfrom.
  destruct (mh_magic _ =? _), (mh_version _ =? _), (valid_utf8 _); try done. injection Hfrom as <-.
  cbn [md_header md_bitmap mh_block_size header_from_bytes header_bytes]. split; [|done].
  unfold header_bytes, U64_MAX in *. read_field.
Qed.
