(* ===== verification/CacheEntry.v ===== *)
(** * Entries of the file cache

    [storage/overlaybd/src/backend/cache/full_file_cache/cache_entry.rs]: the
    state of the cache and the operations on one entry.

    Entries are shared objects ([Arc<CacheEntry>]): they live in a heap and the
    map of the pool holds their addresses, so that an entry that leaves the map
    while an operation works on it stays what it was.  The data file of an
    entry is an inode of the file system, its name and [meta.bin] are in the
    directory of the cache id; a memory map shows the bytes of the inode.

    The operations run one at a time.  What the rest of the machine decides is
    the class [CacheEnv], indexed by the number of calls made so far: which
    system calls fail, the clock, the free space, the order in which maps and
    directories are listed, and whether an eviction holds the barrier of an
    entry when it is tried.  The interleavings of concurrent tasks are the
    subject of [CacheConc]. *)

From stdpp Require Import gmap.
From S2P Require Import Prelude LsmtIo Text ZFormat CacheMeta.

Open Scope result_scope.

(** ** State *)

Record Options : Type := {
  opt_cache_dir : str;
  opt_capacity_bytes : Z;
  opt_mmap_capacity_bytes : Z;
  opt_block_size : Z;
  opt_open_evict_idle : Z                    (** nanoseconds *)
}.

Record CacheEntry : Type := {
  ce_cache_id : str;
  ce_key : str;
  ce_block_size : Z;
  ce_index : gset Z;                         (** [RoaringBitmap]: [u32] *)
  ce_block_states : gset Z;                  (** blocks being loaded *)
  ce_inode : Z;                              (** [data_file], mapped by [mem_region] *)
  ce_region_len : Z;
  ce_source_size : Z;
  ce_last_access_nanos : Z;
  ce_hits : Z;
  ce_misses : Z;
  ce_refills : Z;
  ce_dirty : bool;
  ce_open_count : Z
}.

Inductive CacheSlot : Type :=
| Active (a : Z)
| Evicting.

#[export] Instance CacheSlot_eq_dec : EqDecision CacheSlot.
Proof. solve_decision. Defined.

Definition as_active (s : CacheSlot) : option Z :=
  match s with Active a => Some a | Evicting => None end.

Record BackendState : Type := {
  cache_entries : gmap str CacheSlot;
  current_bytes : Z;
  mmap_bytes : Z;
  capacity_bytes : Z;
  mmap_capacity_bytes : Z;
  is_full : bool;
  evict_global_bytes : Z;
  evict_user_bytes : Z;
  active_refills : Z
}.

(** A directory of the cache. *)
Record Dir : Type := {
  dir_data : option Z;
  dir_meta : option (list Z)
}.

(** A file that is cached: [dyn VirtualFile].  A read into a buffer leaves
    bytes in it even when it fails; [Err true] is the error [ENOSPC]. *)
Record Source : Type := {
  so_read_into : nat → Z → Z → list Z * result bool Z;
  so_read_at : nat → Z → Z → result bool (list Z);
  so_size : nat → result bool Z;
  so_sync : nat → bool
}.

Record CachedFile : Type := {
  cf_source : option Source;
  cf_cache_id : str;
  cf_source_size : Z;
  cf_open_flags : Z
}.

Record World : Type := {
  w_opts : Options;
  w_state : BackendState;
  w_heap : gmap Z CacheEntry;
  w_files : gmap Z (list Z);
  w_dirs : gmap str Dir;
  w_handles : gmap Z CachedFile;
  w_next : Z;
  w_tick : nat
}.

(** ** What the machine decides *)

Inductive sysop : Type :=
| SysCreateDir | SysOpenData | SysSetLen | SysMmap | SysExists | SysReadMeta | SysStat
| SysCloneFd | SysRemoveMeta | SysPunch | SysFsync | SysWriteMeta | SysBarrier
| SysReadDir | SysRemoveDir | SysRenameDir.

(** [sys::reserve_space] *)
Inductive reserve_outcome : Type := ReserveDone | ReserveUnsupported | ReserveFailed.

Class CacheEnv : Type := {
  env_ok : sysop → nat → bool;
  env_now : nat → Z;                         (** [now_unix_nanos] *)
  env_space : nat → option (Z * Z);          (** [fs_space]: capacity and available bytes *)
  env_reserve : nat → reserve_outcome;
  env_left : nat → bool * bool;              (** what a failed [remove_dir_all] leaves: data, meta *)
  env_order : nat → list str → list str;     (** order of a listing *)
  env_unmaps : nat → bool;                   (** whether dropping an entry drops its mapping *)
  cache_key_digest : str → str;              (** SHA-256, in hexadecimal *)
  MMAP_PAGE_SIZE : Z
}.

Class CacheEnvSpec `{CacheEnv} : Prop := {
  env_order_perm : ∀ t l, env_order t l ≡ₚ l;
  env_now_range : ∀ t, 0 ≤ env_now t ≤ U64_MAX;
  env_page_pos : 0 < MMAP_PAGE_SIZE
}.

Inductive cache_error : Type :=
| Enospc | PreallocateFailed | MmapRange | SourceFailed | ShortSourceRead | ShortCachedRead
| BadBlockSlice | RangeOverflow | CacheMissNoSource | CacheOnlyMiss | EntryEvicted | BeyondSource
| SizeChange | ZeroSourceSize | NoSource | Unaligned | EmptyKey | EntryNotFound | EntryBusy
| MetaMissing | MetaBroken (e : meta_error) | DataMissing | SizeMismatch | BlockSizeMismatch
| BlockCountExceeded | RangeOutOfBounds | BadOptions | NotSupported
| IoFailed (op : sysop) | WouldBlock | Dangling.

Abbreviation cache := (eff World cache_error).

(** ** Access to the state *)

Definition read_world {A} (f : World → A) : cache A := λ w, (w, Ok (f w)).

Definition set_state (f : BackendState → BackendState) (w : World) : World := {|
  w_opts := w_opts w; w_state := f (w_state w); w_heap := w_heap w; w_files := w_files w;
  w_dirs := w_dirs w; w_handles := w_handles w; w_next := w_next w; w_tick := w_tick w |}.

Definition set_heap (f : gmap Z CacheEntry → gmap Z CacheEntry) (w : World) : World := {|
  w_opts := w_opts w; w_state := w_state w; w_heap := f (w_heap w); w_files := w_files w;
  w_dirs := w_dirs w; w_handles := w_handles w; w_next := w_next w; w_tick := w_tick w |}.

Definition set_files (f : gmap Z (list Z) → gmap Z (list Z)) (w : World) : World := {|
  w_opts := w_opts w; w_state := w_state w; w_heap := w_heap w; w_files := f (w_files w);
  w_dirs := w_dirs w; w_handles := w_handles w; w_next := w_next w; w_tick := w_tick w |}.

Definition set_dirs (f : gmap str Dir → gmap str Dir) (w : World) : World := {|
  w_opts := w_opts w; w_state := w_state w; w_heap := w_heap w; w_files := w_files w;
  w_dirs := f (w_dirs w); w_handles := w_handles w; w_next := w_next w; w_tick := w_tick w |}.

Definition set_handles (f : gmap Z CachedFile → gmap Z CachedFile) (w : World) : World := {|
  w_opts := w_opts w; w_state := w_state w; w_heap := w_heap w; w_files := w_files w;
  w_dirs := w_dirs w; w_handles := f (w_handles w); w_next := w_next w; w_tick := w_tick w |}.

Definition bump_next (w : World) : World := {|
  w_opts := w_opts w; w_state := w_state w; w_heap := w_heap w; w_files := w_files w;
  w_dirs := w_dirs w; w_handles := w_handles w; w_next := w_next w + 1; w_tick := w_tick w |}.

Definition bump_tick (w : World) : World := {|
  w_opts := w_opts w; w_state := w_state w; w_heap := w_heap w; w_files := w_files w;
  w_dirs := w_dirs w; w_handles := w_handles w; w_next := w_next w; w_tick := S (w_tick w) |}.

(** A new name for an object, an inode or a handle. *)
Definition fresh : cache Z := λ w, (bump_next w, Ok (w_next w)).

(** The number of the next call to the machine. *)
Definition tick : cache nat := λ w, (bump_tick w, Ok (w_tick w)).

Definition sys `{CacheEnv} (op : sysop) : cache bool :=
  let! t := tick in eret (env_ok op t).

(** A system call whose failure is returned. *)
Definition sys_try `{CacheEnv} (op : sysop) : cache unit :=
  let! ok := sys op in if ok then eret tt else eerr (IoFailed op).

Definition now_unix_nanos `{CacheEnv} : cache Z := let! t := tick in eret (env_now t).

(** The result of [m] as a value: [let _ = m.await]. *)
Definition catch {A} (m : cache A) : cache (result cache_error A) := λ w,
  let '(w', r) := m w in (w', Ok r).

Definition get_entry (a : Z) : cache CacheEntry := λ w,
  (w, match w_heap w !! a with Some e => Ok e | None => Err Dangling end).

Definition modify_entry (a : Z) (f : CacheEntry → CacheEntry) : cache unit :=
  emodify (set_heap (alter f a)).

Definition get_file (i : Z) : cache (list Z) := λ w,
  (w, match w_files w !! i with Some f => Ok f | None => Err Dangling end).

Definition write_file (i : Z) (f : list Z) : cache unit := emodify (set_files (insert i f)).

Definition set_index (f : gset Z → gset Z) (e : CacheEntry) : CacheEntry := {|
  ce_cache_id := ce_cache_id e; ce_key := ce_key e; ce_block_size := ce_block_size e;
  ce_index := f (ce_index e); ce_block_states := ce_block_states e; ce_inode := ce_inode e;
  ce_region_len := ce_region_len e; ce_source_size := ce_source_size e;
  ce_last_access_nanos := ce_last_access_nanos e; ce_hits := ce_hits e; ce_misses := ce_misses e;
  ce_refills := ce_refills e; ce_dirty := true; ce_open_count := ce_open_count e |}.

Definition set_block_states (f : gset Z → gset Z) (e : CacheEntry) : CacheEntry := {|
  ce_cache_id := ce_cache_id e; ce_key := ce_key e; ce_block_size := ce_block_size e;
  ce_index := ce_index e; ce_block_states := f (ce_block_states e); ce_inode := ce_inode e;
  ce_region_len := ce_region_len e; ce_source_size := ce_source_size e;
  ce_last_access_nanos := ce_last_access_nanos e; ce_hits := ce_hits e; ce_misses := ce_misses e;
  ce_refills := ce_refills e; ce_dirty := ce_dirty e; ce_open_count := ce_open_count e |}.

(** The counters: hits, misses, refills, last access, dirty flag, open count. *)
Definition set_stats (h m r la : Z) (d : bool) (oc : Z) (e : CacheEntry) : CacheEntry := {|
  ce_cache_id := ce_cache_id e; ce_key := ce_key e; ce_block_size := ce_block_size e;
  ce_index := ce_index e; ce_block_states := ce_block_states e; ce_inode := ce_inode e;
  ce_region_len := ce_region_len e; ce_source_size := ce_source_size e;
  ce_last_access_nanos := la; ce_hits := h; ce_misses := m;
  ce_refills := r; ce_dirty := d; ce_open_count := oc |}.

Section Entry.
Context `{CacheEnv, Roaring, Crc32c, FileDiscard}.

(** ** Statistics *)

Definition touch (a : Z) : cache unit :=
  let! t := now_unix_nanos in
  modify_entry a (λ e, set_stats (ce_hits e) (ce_misses e) (ce_refills e) t (ce_dirty e) (ce_open_count e) e).

Definition record_hit (a : Z) : cache unit :=
  let! _ := modify_entry a (λ e, set_stats (wrap64 (ce_hits e + 1)) (ce_misses e) (ce_refills e)
              (ce_last_access_nanos e) (ce_dirty e) (ce_open_count e) e) in
  touch a.

Definition record_miss (a : Z) : cache unit :=
  let! _ := modify_entry a (λ e, set_stats (ce_hits e) (wrap64 (ce_misses e + 1)) (ce_refills e)
              (ce_last_access_nanos e) (ce_dirty e) (ce_open_count e) e) in
  touch a.

Definition record_refill (a : Z) : cache unit :=
  let! _ := modify_entry a (λ e, set_stats (ce_hits e) (ce_misses e) (wrap64 (ce_refills e + 1))
              (ce_last_access_nanos e) (ce_dirty e) (ce_open_count e) e) in
  let! _ := touch a in
  modify_entry a (λ e, set_stats (ce_hits e) (ce_misses e) (ce_refills e)
              (ce_last_access_nanos e) true (ce_open_count e) e).

(** [u64::next_multiple_of] *)
Definition next_multiple_of (n d : Z) : Z := wrap64 (div_ceil n d * d).

Definition entry_mmap_bytes (e : CacheEntry) : Z := next_multiple_of (ce_region_len e) MMAP_PAGE_SIZE.

Definition index_max (s : gset Z) : Z := set_fold Z.max 0 s.

Definition total_cached_bytes (e : CacheEntry) : Z :=
  let block_count := Z.of_nat (size (ce_index e)) in
  if block_count =? 0 then 0
  else
    let full_blocks_bytes := sat_mul (saturating_sub block_count 1) (ce_block_size e) in
    let last_block_offset := sat_mul (index_max (ce_index e)) (ce_block_size e) in
    let last_block_bytes := Z.min (saturating_sub (ce_source_size e) last_block_offset) (ce_block_size e) in
    sat_add full_blocks_bytes last_block_bytes.

(** ** Construction *)

Definition create_dir_all (id : str) : cache unit :=
  let! _ := sys_try SysCreateDir in
  emodify (set_dirs (λ ds, match ds !! id with
                           | Some _ => ds
                           | None => <[id := {| dir_data := None; dir_meta := None |}]> ds
                           end)).

(** [OpenOptions] with [create] and without [truncate]. *)
Definition open_data_file (id : str) : cache Z :=
  let! _ := sys_try SysOpenData in
  let! d := read_world (λ w, w_dirs w !! id) in
  match d with
  | None => eerr (IoFailed SysOpenData)
  | Some d =>
      match dir_data d with
      | Some i => eret i
      | None =>
          let! i := fresh in
          let! _ := write_file i [] in
          let! _ := emodify (set_dirs (insert id {| dir_data := Some i; dir_meta := dir_meta d |})) in
          eret i
      end
  end.

Definition account_mapping (len : Z) : cache unit :=
  let! _ := sys_try SysMmap in
  emodify (set_state (λ s, {| cache_entries := cache_entries s; current_bytes := current_bytes s;
    mmap_bytes := wrap64 (mmap_bytes s + next_multiple_of len MMAP_PAGE_SIZE);
    capacity_bytes := capacity_bytes s; mmap_capacity_bytes := mmap_capacity_bytes s;
    is_full := is_full s; evict_global_bytes := evict_global_bytes s;
    evict_user_bytes := evict_user_bytes s; active_refills := active_refills s |})).

Definition alloc_entry (e : CacheEntry) : cache Z :=
  let! a := fresh in
  let! _ := emodify (set_heap (insert a e)) in
  eret a.

Definition create (cache_id key : str) (source_size : Z) : cache Z :=
  if source_size =? 0 then eerr ZeroSourceSize
  else
    let! _ := create_dir_all cache_id in
    let! i := open_data_file cache_id in
    let! _ := sys_try SysSetLen in
    let! f := get_file i in
    let! _ := write_file i (file_truncate f source_size) in
    let! _ := sys_try SysMmap in
    let! _ := account_mapping source_size in
    let! bs := read_world (λ w, opt_block_size (w_opts w)) in
    let! now := now_unix_nanos in
    alloc_entry {| ce_cache_id := cache_id; ce_key := key; ce_block_size := bs; ce_index := ∅;
      ce_block_states := ∅; ce_inode := i; ce_region_len := source_size; ce_source_size := source_size;
      ce_last_access_nanos := now; ce_hits := 0; ce_misses := 0; ce_refills := 0; ce_dirty := false;
      ce_open_count := 0 |}.

(** The files of a directory, as [try_exists] sees them. *)
Definition try_exists (id : str) (f : Dir → bool) : cache bool :=
  let! _ := sys_try SysExists in
  read_world (λ w, some_and f (w_dirs w !! id)).

Definition has_meta (d : Dir) : bool := match dir_meta d with Some _ => true | None => false end.
Definition has_data (d : Dir) : bool := match dir_data d with Some _ => true | None => false end.

Definition load_meta (id : str) : cache CacheMetaDisk :=
  let! _ := sys_try SysReadMeta in
  let! d := read_world (λ w, w_dirs w !! id) in
  match d with
  | Some {| dir_meta := Some raw |} =>
      match from_bytes raw with Ok m => eret m | Err e => eerr (MetaBroken e) end
  | _ => eerr (IoFailed SysReadMeta)
  end.

(** The data file is opened and has to agree with the metadata. *)
Definition load_data (id : str) (meta : CacheMetaDisk) : cache Z :=
  let! i := open_data_file id in
  let source_size := mh_source_size (md_header meta) in
  let! _ := sys_try SysStat in
  let! f := get_file i in
  if negb (zlen f =? source_size) then eerr SizeMismatch
  else if source_size =? 0 then eerr ZeroSourceSize
  else
    let! bs := read_world (λ w, opt_block_size (w_opts w)) in
    if negb (mh_block_size (md_header meta) =? bs) then eerr BlockSizeMismatch
    else
      let! _ := sys_try SysMmap in
      let! _ := account_mapping source_size in
      alloc_entry {| ce_cache_id := id; ce_key := md_key meta; ce_block_size := bs;
        ce_index := md_bitmap meta; ce_block_states := ∅; ce_inode := i;
        ce_region_len := source_size; ce_source_size := source_size;
        ce_last_access_nanos := mh_last_access (md_header meta); ce_hits := mh_hits (md_header meta);
        ce_misses := mh_misses (md_header meta); ce_refills := mh_refills (md_header meta);
        ce_dirty := false; ce_open_count := 0 |}.

Definition load_from_disk (id : str) : cache Z :=
  let! ex := try_exists id has_meta in
  if negb ex then eerr MetaMissing
  else
    let! meta := load_meta id in
    let! ex := try_exists id has_data in
    if negb ex then eerr DataMissing else load_data id meta.

(** ** Blocks *)

(** [MMapRegion::subslice] and [get_mut]: the range of the region. *)
Definition region_ok (e : CacheEntry) (offset len : Z) : bool := offset + len <=? ce_region_len e.

Definition entry_read_block (a b : Z) : cache (option (list Z)) :=
  let! free := sys SysBarrier in
  if negb free then eret None
  else
    let! e := get_entry a in
    if negb (bool_decide (wrap32 b ∈ ce_index e)) then eret None
    else
      let offset := sat_mul b (ce_block_size e) in
      if ce_source_size e <=? offset then eret None
      else
        let want := Z.min (saturating_sub (ce_source_size e) offset) (ce_block_size e) in
        if region_ok e offset want then
          let! f := get_file (ce_inode e) in
          eret (Some (slice offset want f))
        else eerr MmapRange.

Inductive RangeAllocation : Type := Reserved | Unsupported.

(** The cause of a failed reservation is only kept as text. *)
Definition ensure_range_allocated (offset len : Z) : cache RangeAllocation :=
  if len =? 0 then eret Unsupported
  else
    let! t := tick in
    match env_reserve t with
    | ReserveDone => eret Reserved
    | ReserveUnsupported => eret Unsupported
    | ReserveFailed => eerr PreallocateFailed
    end.

(** [sys::release_space_hint] on the data file. *)
Definition release_space (i offset len : Z) : cache unit :=
  let! _ := sys_try SysPunch in
  let! f := get_file i in
  write_file i (fd_discard f offset len).

(** [ReservedRange]: whether dropping it gives the range back. *)
Definition reserve_range (offset len : Z) : cache bool :=
  let! r := ensure_range_allocated offset len in
  eret (match r with Reserved => true | Unsupported => false end).

Definition drop_reserved (a offset len : Z) (armed : bool) : cache unit :=
  if negb armed then eret tt
  else
    let! e := get_entry a in
    let! _ := catch (release_space (ce_inode e) offset len) in
    eret tt.

(** Run the rest of a function that holds the reservation: it is given back
    when that part fails. *)
Definition with_reserved {A} (a offset len : Z) (armed : bool) (m : cache A) : cache A :=
  let! r := catch m in
  match r with
  | Ok x => eret x
  | Err err => let! _ := drop_reserved a offset len armed in eerr err
  end.

Definition mark_block_cached (a b : Z) : cache unit :=
  modify_entry a (set_index (λ s, {[ wrap32 b ]} ∪ s)).

Definition write_block (a b : Z) (data : list Z) : cache unit :=
  let! e := get_entry a in
  let offset := sat_mul b (ce_block_size e) in
  let! _ := ensure_range_allocated offset (zlen data) in
  if region_ok e offset (zlen data) then
    let! f := get_file (ce_inode e) in
    let! _ := write_file (ce_inode e) (splice f offset data) in
    mark_block_cached a b
  else eerr MmapRange.

(** The range of the region for a block. *)
Definition mmap_mut_for_block (a b source_size : Z) : cache (option (Z * Z)) :=
  let! e := get_entry a in
  let offset := sat_mul b (ce_block_size e) in
  if source_size <=? offset then eret None
  else
    let want := Z.min (source_size - offset) (ce_block_size e) in
    if want =? 0 then eret None
    else if region_ok e offset want then eret (Some (offset, want)) else eerr MmapRange.

(** [std::fs::remove_file] of [meta.bin]; a missing file is no error. *)
Definition remove_meta (id : str) : cache unit :=
  let! _ := sys_try SysRemoveMeta in
  emodify (set_dirs (alter (λ d, {| dir_data := dir_data d; dir_meta := None |}) id)).

Definition entry_evict_all_blocks (a : Z) : cache Z :=
  let! e := get_entry a in
  let bytes_before := total_cached_bytes e in
  let! _ := modify_entry a (set_index (λ _, ∅)) in
  let! _ := sys_try SysCloneFd in
  let! _ := remove_meta (ce_cache_id e) in
  let! _ := (if 0 <? ce_source_size e then release_space (ce_inode e) 0 (ce_source_size e) else eret tt) in
  eret bytes_before.

Definition set_source_size (a new_size : Z) : cache unit :=
  let! e := get_entry a in
  if negb (ce_source_size e =? new_size) then eerr SizeChange else eret tt.

(** ** Loading a block *)

Inductive AcquireRefillResult : Type := InCache | ShouldLoad.

(** The future of [acquire_refill]; [WouldBlock] is a pending poll. *)
Definition acquire_refill (a b : Z) : cache AcquireRefillResult :=
  let! e := get_entry a in
  if bool_decide (wrap32 b ∈ ce_index e) then eret InCache
  else if bool_decide (b ∈ ce_block_states e) then eerr WouldBlock
  else
    let! _ := modify_entry a (set_block_states (λ s, {[ b ]} ∪ s)) in
    eret ShouldLoad.

Definition finish_refill (a b : Z) : cache unit :=
  modify_entry a (set_block_states (λ s, s ∖ {[ b ]})).

(** ** Checkpoints *)

Definition entry_meta (e : CacheEntry) : CacheMetaDisk := {|
  md_header := {| mh_magic := META_MAGIC; mh_version := META_VERSION;
    mh_source_size := ce_source_size e; mh_block_size := ce_block_size e;
    mh_last_access := ce_last_access_nanos e; mh_hits := ce_hits e; mh_misses := ce_misses e;
    mh_refills := ce_refills e |};
  md_key := ce_key e;
  md_bitmap := ce_index e |}.

(** A temporary file is written, synced and renamed to [meta.bin]. *)
Definition write_to_path (id : str) (m : CacheMetaDisk) : cache unit :=
  match to_bytes m with
  | Err e => eerr (MetaBroken e)
  | Ok raw =>
      let! _ := sys_try SysWriteMeta in
      let! d := read_world (λ w, w_dirs w !! id) in
      match d with
      | None => eerr (IoFailed SysWriteMeta)
      | Some d => emodify (set_dirs (insert id {| dir_data := dir_data d; dir_meta := Some raw |}))
      end
  end.

Definition checkpoint (a : Z) : cache unit :=
  let! e := get_entry a in
  let! _ := sys_try SysFsync in
  let! _ := write_to_path (ce_cache_id e) (entry_meta e) in
  modify_entry a (λ e, set_stats (ce_hits e) (ce_misses e) (ce_refills e) (ce_last_access_nanos e)
                         false (ce_open_count e) e).
End Entry.

(** ** One step at a time *)

Section Run.
Context `{CacheEnv}.
Context {B : Type}.

Lemma run_ret {A} (x : A) (k : A → cache B) w : ebind (eret x) k w = k x w.
Proof. done. Qed.

Lemma run_tick (k : nat → cache B) w : ebind tick k w = k (w_tick w) (bump_tick w).
Proof. done. Qed.

Lemma run_fresh (k : Z → cache B) w : ebind fresh k w = k (w_next w) (bump_next w).
Proof. done. Qed.

Lemma run_sys op (k : bool → cache B) w : ebind (sys op) k w = k (env_ok op (w_tick w)) (bump_tick w).
Proof. done. Qed.

Lemma run_sys_try op (k : unit → cache B) w :
  ebind (sys_try op) k w
  = if env_ok op (w_tick w) then k tt (bump_tick w) else (bump_tick w, Err (IoFailed op)).
Proof. unfold sys_try, sys, ebind, tick, eret. cbn. by destruct (env_ok op (w_tick w)). Qed.

Lemma run_now (k : Z → cache B) w : ebind now_unix_nanos k w = k (env_now (w_tick w)) (bump_tick w).
Proof. done. Qed.

Lemma run_read {A} (f : World → A) (k : A → cache B) w : ebind (read_world f) k w = k (f w) w.
Proof. done. Qed.

Lemma run_modify f (k : unit → cache B) w : ebind (emodify f) k w = k tt (f w).
Proof. done. Qed.

Lemma run_get_entry a e (k : CacheEntry → cache B) w : w_heap w !! a = Some e → ebind (get_entry a) k w = k e w.
Proof. intros He. unfold ebind, get_entry. by rewrite He. Qed.

Lemma run_get_file i f (k : list Z → cache B) w : w_files w !! i = Some f → ebind (get_file i) k w = k f w.
Proof. intros Hf. unfold ebind, get_file. by rewrite Hf. Qed.

Lemma run_catch {A} (m : cache A) (k : result cache_error A → cache B) w : ebind (catch m) k w = k (m w).2 (m w).1.
Proof. unfold ebind, catch. by destruct (m w). Qed.

Lemma run_assoc {A C} (m : cache A) (k : A → cache C) (k' : C → cache B) w :
  ebind (ebind m k) k' w = ebind m (λ x, ebind (k x) k') w.
Proof. unfold ebind. by destruct (m w) as [w' [x|e]]. Qed.
End Run.

(** Execute the first operation, as far as the state is known. *)
Ltac run1 := first
  [ rewrite run_assoc | rewrite run_ret | rewrite run_tick | rewrite run_fresh | rewrite run_sys
  | rewrite run_sys_try | rewrite run_now | rewrite run_read | rewrite run_modify
  | rewrite (run_get_entry _ _ _ _ ltac:(eassumption)) | rewrite (run_get_file _ _ _ _ ltac:(eassumption))
  | rewrite run_catch ].
