(* ===== verification/CachePool.v ===== *)
(** * The pool of the file cache

    [storage/overlaybd/src/backend/cache/full_file_cache/cache_pool.rs]: options,
    pressure, eviction, renaming, opening and loading. *)

From stdpp Require Import gmap sorting.
From S2P Require Import Prelude LsmtIo Text ZFormat CacheMeta CacheEntry.

Open Scope result_scope.

(** ** Options *)

Definition is_power_of_two (n : Z) : bool := (0 <? n) && (Z.land n (n - 1) =? 0).

Definition set_opt_block_size (bs : Z) (o : Options) : Options := {|
  opt_cache_dir := opt_cache_dir o; opt_capacity_bytes := opt_capacity_bytes o;
  opt_mmap_capacity_bytes := opt_mmap_capacity_bytes o; opt_block_size := bs;
  opt_open_evict_idle := opt_open_evict_idle o |}.

Definition normalize (o : Options) : result cache_error Options :=
  let? _ := ensure (negb (is_nil (opt_cache_dir o))) BadOptions in
  let o := if opt_block_size o =? 0 then set_opt_block_size DEFAULT_BLOCK_SIZE o else o in
  if (opt_block_size o <? PAGE_SIZE) || negb (is_multiple_of (opt_block_size o) PAGE_SIZE)
     || negb (is_power_of_two (opt_block_size o))
  then Err BadOptions else Ok o.

(** ** Marks *)

Definition calc_water_mark (capacity : Z) : Z :=
  let ratio_mark := sat_mul capacity WATERMARK_RATIO / 100 in
  let free_space_mark := saturating_sub capacity MAX_FREE_SPACE_BYTES in
  Z.max ratio_mark free_space_mark.

(** The product is taken in [u128]. *)
Definition mmap_water_mark (capacity : Z) : Z := wrap64 (capacity * WATERMARK_RATIO / 100).

Definition risk_mark_for_capacity (capacity : Z) : Z :=
  let water_mark := calc_water_mark capacity in
  Z.max (saturating_sub capacity EVICTION_MARK_BYTES) (sat_add water_mark capacity / 2).

Record DiskPressureSnapshot : Type := {
  dp_evict_bytes : Z;
  dp_fs_capacity_bytes : option Z
}.

Definition pressure_evict_target (capacity current : Z) (disk : DiskPressureSnapshot) : Z :=
  let water_mark := calc_water_mark capacity in
  let suppress_cache_pressure :=
    (dp_evict_bytes disk =? 0) && some_and (λ c, c <=? water_mark) (dp_fs_capacity_bytes disk) in
  let evict_by_cache := if suppress_cache_pressure then 0 else saturating_sub current water_mark in
  Z.max evict_by_cache (dp_evict_bytes disk).

(** ** State updates *)

Definition set_entries (f : gmap str CacheSlot → gmap str CacheSlot) (s : BackendState) : BackendState := {|
  cache_entries := f (cache_entries s); current_bytes := current_bytes s; mmap_bytes := mmap_bytes s;
  capacity_bytes := capacity_bytes s; mmap_capacity_bytes := mmap_capacity_bytes s; is_full := is_full s;
  evict_global_bytes := evict_global_bytes s; evict_user_bytes := evict_user_bytes s;
  active_refills := active_refills s |}.

(** Counters that are not the map: bytes, mapped bytes, limits, pressure. *)
Definition set_counters (cb mb cap mcap : Z) (full : bool) (eg eu ar : Z) (s : BackendState) : BackendState := {|
  cache_entries := cache_entries s; current_bytes := cb; mmap_bytes := mb; capacity_bytes := cap;
  mmap_capacity_bytes := mcap; is_full := full; evict_global_bytes := eg; evict_user_bytes := eu;
  active_refills := ar |}.

Definition set_current (cb : Z) (s : BackendState) : BackendState :=
  set_counters cb (mmap_bytes s) (capacity_bytes s) (mmap_capacity_bytes s) (is_full s)
    (evict_global_bytes s) (evict_user_bytes s) (active_refills s) s.

Definition set_full (full : bool) (s : BackendState) : BackendState :=
  set_counters (current_bytes s) (mmap_bytes s) (capacity_bytes s) (mmap_capacity_bytes s) full
    (evict_global_bytes s) (evict_user_bytes s) (active_refills s) s.

Definition put_slot (id : str) (s : CacheSlot) : cache unit := emodify (set_state (set_entries (insert id s))).
Definition remove_slot (id : str) : cache unit := emodify (set_state (set_entries (delete id))).

Inductive EvictionCounter : Type := EvGlobal | EvUser.

Definition count_evicted (counter : EvictionCounter) (bytes : Z) : cache unit :=
  emodify (set_state (λ s,
    let '(eg, eu) := match counter with
                     | EvGlobal => (wrap64 (evict_global_bytes s + bytes), evict_user_bytes s)
                     | EvUser => (evict_global_bytes s, wrap64 (evict_user_bytes s + bytes))
                     end in
    set_counters (current_bytes s) (mmap_bytes s) (capacity_bytes s) (mmap_capacity_bytes s) (is_full s)
      eg eu (active_refills s) s)).

Definition get_slot (id : str) : cache (option CacheSlot) := read_world (λ w, cache_entries (w_state w) !! id).

(** [get_cache_entry] *)
Definition get_cache_entry (id : str) : cache (option Z) :=
  let! s := get_slot id in eret (s ≫= as_active).

Section Pool.
Context `{CacheEnv, Roaring, Crc32c, FileDiscard}.

(** ** Pressure *)

Definition capture_disk_pressure : cache DiskPressureSnapshot :=
  let! t := tick in
  eret (match env_space t with
        | None => {| dp_evict_bytes := 0; dp_fs_capacity_bytes := None |}
        | Some (capacity, avail) =>
            {| dp_evict_bytes := saturating_sub DEFAULT_DISK_AVAIL_BYTES avail;
               dp_fs_capacity_bytes := Some capacity |}
        end).

Definition publish_pressure_locked (disk : DiskPressureSnapshot) : cache unit :=
  emodify (set_state (λ s,
    set_full ((0 <? pressure_evict_target (capacity_bytes s) (current_bytes s) disk)
              || (risk_mark_for_capacity (capacity_bytes s) <=? current_bytes s)) s)).

Definition add_current_bytes (bytes : Z) : cache unit :=
  let! disk := capture_disk_pressure in
  let! _ := emodify (set_state (λ s, set_current (wrap64 (current_bytes s + bytes)) s)) in
  publish_pressure_locked disk.

Definition subtract_current_bytes (bytes : Z) : cache unit :=
  let! disk := capture_disk_pressure in
  let! _ := emodify (set_state (λ s, set_current (wrap64 (current_bytes s - bytes)) s)) in
  publish_pressure_locked disk.

Definition set_capacity_bytes (capacity : Z) : cache unit :=
  let! disk := capture_disk_pressure in
  let! _ := emodify (set_state (λ s, set_counters (current_bytes s) (mmap_bytes s) capacity
              (mmap_capacity_bytes s) (is_full s) (evict_global_bytes s) (evict_user_bytes s)
              (active_refills s) s)) in
  publish_pressure_locked disk.

Definition set_mmap_capacity_bytes (capacity : Z) : cache unit :=
  emodify (set_state (λ s, set_counters (current_bytes s) (mmap_bytes s) (capacity_bytes s)
    capacity (is_full s) (evict_global_bytes s) (evict_user_bytes s) (active_refills s) s)).

(** ** Eviction *)

Definition entry_is_busy (e : CacheEntry) : bool :=
  (0 <? ce_open_count e) || negb (bool_decide (ce_block_states e = ∅)).

(** The entries of the map in the order they are listed. *)
Definition iter_entries : cache (list (str * (Z * CacheEntry))) :=
  let! t := tick in
  read_world (λ w,
    omap (λ id, match cache_entries (w_state w) !! id with
                | Some (Active a) => e ← w_heap w !! a; Some (id, (a, e))
                | _ => None
                end)
         (env_order t (map_to_list (cache_entries (w_state w))).*1)).

Definition access_le (x y : Z * str) : Prop := x.1 ≤ y.1.

#[export] Instance access_le_dec : RelDecision access_le.
Proof. intros x y. unfold access_le. apply _. Defined.

Definition evictable_cache_ids_by_lru : cache (list str) :=
  let! l := iter_entries in
  let candidates := (λ p, (ce_last_access_nanos p.2.2, ce_cache_id p.2.2))
                    <$> List.filter (λ p, negb (entry_is_busy p.2.2)) l in
  eret (merge_sort access_le candidates).*2.

Definition idle_open_cache_ids_by_lru (idle_cutoff : Z) : cache (list str) :=
  let! l := iter_entries in
  let keep (p : str * (Z * CacheEntry)) :=
    negb (ce_open_count p.2.2 =? 0) && negb (idle_cutoff <=? ce_last_access_nanos p.2.2)
    && bool_decide (ce_block_states p.2.2 = ∅) && negb (total_cached_bytes p.2.2 =? 0) in
  let candidates := (λ p, (ce_last_access_nanos p.2.2, ce_cache_id p.2.2)) <$> List.filter keep l in
  eret (merge_sort access_le candidates).*2.

Definition evict_open_entry_blocks (id : str) (counter : EvictionCounter) : cache Z :=
  let! a := get_cache_entry id in
  match a with
  | None => eret 0
  | Some a =>
      let! e := get_entry a in
      if (ce_open_count e =? 0) || negb (bool_decide (ce_block_states e = ∅)) then eret 0
      else
        let! r := catch (entry_evict_all_blocks a) in
        match r with
        | Err _ => eret 0
        | Ok released =>
            let! _ := (if 0 <? released then
                         let! _ := subtract_current_bytes released in
                         count_evicted counter released
                       else eret tt) in
            eret released
        end
  end.

(** [remove_dir_all] with its result ignored. *)
Definition remove_dir_all (id : str) : cache unit :=
  let! t := tick in
  if env_ok SysRemoveDir t then emodify (set_dirs (delete id))
  else
    let '(data, meta) := env_left t in
    emodify (set_dirs (alter (λ d, {| dir_data := if data then dir_data d else None;
                                      dir_meta := if meta then dir_meta d else None |}) id)).

(** The last reference to an entry goes away; returned bytes may still hold
    the mapping. *)
Definition drop_entry (a : Z) : cache unit :=
  let! t := tick in
  let! e := get_entry a in
  if env_unmaps t then
    emodify (set_state (λ s, set_counters (current_bytes s) (wrap64 (mmap_bytes s - entry_mmap_bytes e))
      (capacity_bytes s) (mmap_capacity_bytes s) (is_full s) (evict_global_bytes s)
      (evict_user_bytes s) (active_refills s) s))
  else eret tt.

(** The part [evict_entry] and [force_recycle] share: mark the slot, evict,
    and either put the entry back ([None]) or take it out of the map. *)
Definition retire (id : str) : cache (option (CacheEntry * Z)) :=
  let! s := get_slot id in
  match s ≫= as_active with
  | None => eret None
  | Some a =>
      let! e := get_entry a in
      if entry_is_busy e then eret None
      else
        let! _ := put_slot id Evicting in
        let! r := catch (entry_evict_all_blocks a) in
        match r with
        | Err _ =>
            let! s := get_slot id in
            let! _ := match s with Some _ => put_slot id (Active a) | None => eret tt end in
            eret None
        | Ok released =>
            let! _ := remove_dir_all (ce_cache_id e) in
            let! _ := remove_slot id in
            let! _ := drop_entry a in
            eret (Some (e, released))
        end
  end.

Definition evict_entry (id : str) (counter : EvictionCounter) : cache (Z * Z) :=
  let! r := retire id in
  match r with
  | None => eret (0, 0)
  | Some (e, released) =>
      let! _ := (if 0 <? released then
                   let! _ := subtract_current_bytes released in
                   count_evicted counter released
                 else eret tt) in
      eret (released, entry_mmap_bytes e)
  end.

Definition force_recycle (id : str) : cache Z :=
  let! r := retire id in
  match r with
  | None => eret 0
  | Some (_, released) =>
      let! _ := subtract_current_bytes released in
      eret released
  end.

(** The first tier: idle entries leave the pool. *)
Fixpoint evict_idle_loop (ids : list str) (disk_remaining mmap_remaining : Z) : cache Z :=
  match ids with
  | [] => eret disk_remaining
  | id :: ids' =>
      if (disk_remaining =? 0) && (mmap_remaining =? 0) then eret disk_remaining
      else
        let! ev := evict_entry id EvGlobal in
        evict_idle_loop ids' (saturating_sub disk_remaining ev.1) (saturating_sub mmap_remaining ev.2)
  end.

(** The second tier: open entries that are not used lose their blocks. *)
Fixpoint evict_open_loop (ids : list str) (disk_remaining : Z) : cache unit :=
  match ids with
  | [] => eret tt
  | id :: ids' =>
      if disk_remaining =? 0 then eret tt
      else
        let! bytes := evict_open_entry_blocks id EvGlobal in
        evict_open_loop ids' (saturating_sub disk_remaining bytes)
  end.

Definition eviction_inner : cache unit :=
  let! disk := capture_disk_pressure in
  let! s := read_world w_state in
  let! _ := publish_pressure_locked disk in
  let disk_target := pressure_evict_target (capacity_bytes s) (current_bytes s) disk in
  let mmap_target := saturating_sub (mmap_bytes s) (mmap_water_mark (mmap_capacity_bytes s)) in
  let! _ := (if (0 <? disk_target) || (0 <? mmap_target) then
    let! ids := evictable_cache_ids_by_lru in
    let! disk_remaining := evict_idle_loop ids disk_target mmap_target in
    let! idle := read_world (λ w, opt_open_evict_idle (w_opts w)) in
    if (0 <? disk_remaining) && negb (idle =? 0) then
      let idle_nanos := Z.min idle U64_MAX in
      let! now := now_unix_nanos in
      let! ids := idle_open_cache_ids_by_lru (saturating_sub now idle_nanos) in
      evict_open_loop ids disk_remaining
    else eret tt
  else eret tt) in
  let! final_disk := capture_disk_pressure in
  publish_pressure_locked final_disk.

Fixpoint evict_by_size_loop (ids : list str) (size evicted : Z) : cache Z :=
  match ids with
  | [] => eret evicted
  | id :: ids' =>
      if size =? 0 then eret evicted
      else
        let! bytes := evict_entry id EvUser in
        evict_by_size_loop ids' (saturating_sub size bytes.1) (sat_add evicted bytes.1)
  end.

Definition evict_by_size (size : Z) : cache Z :=
  let! ids := evictable_cache_ids_by_lru in
  evict_by_size_loop ids size 0.

Definition evict_store_key (key : str) : cache unit :=
  let! bytes := force_recycle (cache_key_digest key) in
  if 0 <? bytes then count_evicted EvUser bytes else eret tt.

Fixpoint evict_global_loop (ids : list str) : cache unit :=
  match ids with
  | [] => eret tt
  | id :: ids' =>
      let! _ := evict_entry id EvGlobal in
      evict_global_loop ids'
  end.

Definition evict_global : cache unit :=
  let! l := iter_entries in
  evict_global_loop l.*1.

(** ** Renaming *)

Definition dir_empty (d : Dir) : bool := negb (has_data d) && negb (has_meta d).

(** [rename] of a directory: the target is absent or empty. *)
Definition rename_dir (old new : str) : cache unit :=
  let! _ := sys_try SysRenameDir in
  let! ds := read_world w_dirs in
  match ds !! old with
  | None => eerr (IoFailed SysRenameDir)
  | Some d =>
      if none_or dir_empty (ds !! new) then emodify (set_dirs (λ ds, <[new := d]> (delete old ds)))
      else eerr (IoFailed SysRenameDir)
  end.

Definition rename_store_key (old_key new_key : str) : cache unit :=
  if bool_decide (old_key = new_key) then eret tt
  else
    let old_id := cache_key_digest old_key in
    let new_id := cache_key_digest new_key in
    let! _ := force_recycle new_id in
    let! s := get_slot old_id in
    match s with
    | None => eerr EntryNotFound
    | Some Evicting => eerr EntryBusy
    | Some (Active a) =>
        let! old := get_entry a in
        if 0 <? ce_open_count old then eerr EntryBusy
        else
          let! _ := remove_slot old_id in
          let! ex := try_exists (ce_cache_id old) (λ _, true) in
          let! _ := (if ex then
                       let! _ := remove_dir_all new_id in
                       let! _ := sys_try SysCreateDir in
                       rename_dir (ce_cache_id old) new_id
                     else create_dir_all new_id) in
          let! a' := create new_id new_key (ce_source_size old) in
          let! _ := modify_entry a' (set_index (λ _, ce_index old)) in
          let! _ := modify_entry a (set_index (λ _, ∅)) in
          let! _ := modify_entry a' (λ e, set_stats (ce_hits old) (ce_misses old) (ce_refills old)
                      (ce_last_access_nanos old) true (ce_open_count e) e) in
          let! _ := catch (checkpoint a') in
          let! _ := put_slot new_id (Active a') in
          drop_entry a
    end.

(** ** Opening *)

Definition contains_active_entry (id : str) : cache bool :=
  let! a := get_cache_entry id in eret (match a with Some _ => true | None => false end).

Definition cached_size_by_store_key (key : str) : cache (option Z) :=
  let! a := get_cache_entry (cache_key_digest key) in
  match a with
  | None => eret None
  | Some a => let! e := get_entry a in eret (Some (ce_source_size e))
  end.

Definition add_open_count (n a : Z) : cache unit :=
  modify_entry a (λ e, set_stats (ce_hits e) (ce_misses e) (ce_refills e) (ce_last_access_nanos e)
                         (ce_dirty e) (wrap64 (ce_open_count e + n)) e).

(** A slot that is being evicted is waited for. *)
Definition ensure_open_cache_entry (id key : str) (source_size : Z) : cache Z :=
  let! s := get_slot id in
  match s with
  | Some (Active a) =>
      let! e := get_entry a in
      let! _ := (if ce_source_size e <? source_size
                 then let! _ := catch (set_source_size a source_size) in eret tt
                 else eret tt) in
      let! _ := add_open_count 1 a in
      eret a
  | Some Evicting => eerr WouldBlock
  | None =>
      let! a := create id key source_size in
      let! s := get_slot id in
      match s with
      | None =>
          let! _ := put_slot id (Active a) in
          let! _ := add_open_count 1 a in
          eret a
      | Some (Active a') => let! _ := add_open_count 1 a' in eret a'
      | Some Evicting => eerr WouldBlock
      end
  end.

Definition new_handle (f : CachedFile) : cache Z :=
  let! h := fresh in
  let! _ := emodify (set_handles (insert h f)) in
  eret h.

Definition lift_source {A} (r : result bool A) : cache A :=
  match r with
  | Ok x => eret x
  | Err true => eerr Enospc
  | Err false => eerr SourceFailed
  end.

Definition open_file_with_flags_and_size (key : str) (source : Source) (open_flags : Z)
    (source_size : option Z) : cache Z :=
  if is_nil key then eerr EmptyKey
  else
    let id := cache_key_digest key in
    let! cached := cached_size_by_store_key key in
    let initial_size := default 0 (match cached with Some n => Some n | None => source_size end) in
    let! active := contains_active_entry id in
    let! initial_size := (if (initial_size =? 0) && negb active
                          then let! t := tick in lift_source (so_size source t)
                          else eret initial_size) in
    let! a := ensure_open_cache_entry id key initial_size in
    let! _ := touch a in
    new_handle {| cf_source := Some source; cf_cache_id := id; cf_source_size := initial_size;
                  cf_open_flags := open_flags |}.

Definition open_cache_only_with_flags (key : str) (initial_size open_flags : Z) : cache Z :=
  if is_nil key then eerr EmptyKey
  else
    let id := cache_key_digest key in
    let! a := ensure_open_cache_entry id key initial_size in
    let! _ := touch a in
    new_handle {| cf_source := None; cf_cache_id := id; cf_source_size := initial_size;
                  cf_open_flags := open_flags |}.

Definition remove_open_file (id : str) : cache unit :=
  let! a := get_cache_entry id in
  match a with
  | None => eret tt
  | Some a => let! _ := add_open_count (-1) a in touch a
  end.

(** ** Checkpoints of the worker *)

Fixpoint checkpoint_loop (entries : list Z) : cache unit :=
  match entries with
  | [] => eret tt
  | a :: entries' =>
      let! _ := catch (checkpoint a) in
      checkpoint_loop entries'
  end.

Definition checkpoint_dirty_entries : cache unit :=
  let! l := iter_entries in
  checkpoint_loop ((λ p, p.2.1) <$> List.filter (λ p, ce_dirty p.2.2) l).

(** ** Loading the pool *)

Definition PREMERGED_INDEX_DIR : str := lit "premerged-index".

Fixpoint load_loop (ids : list str) : cache unit :=
  match ids with
  | [] => eret tt
  | id :: ids' =>
      let! _ := sys_try SysReadDir in
      if bool_decide (id = PREMERGED_INDEX_DIR) then load_loop ids'
      else
        let! r := catch (load_from_disk id) in
        let! _ := match r with
                  | Ok a =>
                      let! e := get_entry a in
                      let! _ := emodify (set_state (λ s,
                                  set_current (wrap64 (current_bytes s + total_cached_bytes e)) s)) in
                      put_slot id (Active a)
                  | Err _ => remove_dir_all id
                  end in
        load_loop ids'
  end.

Definition load_pool : cache unit :=
  let! _ := sys_try SysCreateDir in
  let! _ := sys_try SysReadDir in
  let! t := tick in
  let! ids := read_world (λ w, env_order t (map_to_list (w_dirs w)).*1) in
  let! _ := load_loop ids in
  let! disk := capture_disk_pressure in
  publish_pressure_locked disk.

(** The state of a process that has just started. *)
Definition new_state (o : Options) : BackendState := {|
  cache_entries := ∅; current_bytes := 0; mmap_bytes := 0; capacity_bytes := opt_capacity_bytes o;
  mmap_capacity_bytes := opt_mmap_capacity_bytes o; is_full := false; evict_global_bytes := 0;
  evict_user_bytes := 0; active_refills := 0 |}.

(** The memory of the process is lost, the file system stays. *)
Definition lose_memory (o : Options) (w : World) : World := {|
  w_opts := o; w_state := new_state o; w_heap := ∅; w_files := w_files w; w_dirs := w_dirs w;
  w_handles := ∅; w_next := w_next w; w_tick := w_tick w |}.

Definition with_options (o : Options) : cache unit :=
  let! _ := emodify (λ w, lose_memory (w_opts w) w) in
  let! o := elift (normalize o) in
  let! _ := sys_try SysCreateDir in
  let! _ := emodify (lose_memory o) in
  load_pool.
End Pool.
