(* ===== verification/CacheStore.v ===== *)
(** * Reads, refills and writes of the file cache

    [storage/overlaybd/src/backend/cache/full_file_cache/cache_store.rs]. *)

From stdpp Require Import gmap.
From S2P Require Import Prelude LsmtIo Text ZFormat CacheMeta CacheEntry CachePool.

Open Scope result_scope.

Record ReadCtx : Type := {
  rc_source_size : Z;
  rc_open_flags : Z;
  rc_rw_flags : Z
}.

Definition cache_only (ctx : ReadCtx) : bool :=
  negb (Z.land (rc_rw_flags ctx) RW_V2_CACHE_ONLY =? 0) || negb (Z.land (rc_open_flags ctx) O_CACHE_ONLY =? 0).

Definition is_enospc (e : cache_error) : bool := match e with Enospc => true | _ => false end.

(** ** What has to be fetched *)

(** The extents of the cached blocks of [start ..= end], in order. *)
Definition cached_extents (index : gset Z) (bs source_size align_left align_right start_block end_block : Z)
  : list (Z * Z) :=
  omap (λ b,
    if negb (bool_decide (b ∈ index)) then None
    else
      let extent_start := sat_mul b bs in
      let extent_end := Z.min (sat_add extent_start bs) source_size in
      if (extent_end <=? align_left) || (align_right <=? extent_start) then None
      else Some (Z.max extent_start align_left, Z.min extent_end align_right))
    (seqZ (wrap32 start_block) (wrap32 end_block - wrap32 start_block + 1)).

(** The cached suffix is trimmed: the extents come in reverse. *)
Fixpoint trim_suffix (extents : list (Z * Z)) (hole_end : Z) : Z :=
  match extents with
  | [] => hole_end
  | (extent_start, extent_end) :: rest =>
      if extent_start <? hole_end then
        if hole_end <=? extent_end then trim_suffix rest extent_start else hole_end
      else trim_suffix rest hole_end
  end.

Fixpoint trim_prefix (extents : list (Z * Z)) (hole_start : Z) : Z :=
  match extents with
  | [] => hole_start
  | (extent_start, extent_end) :: rest =>
      if hole_start <? extent_end then
        if extent_start <=? hole_start then trim_prefix rest extent_end else hole_start
      else trim_prefix rest hole_start
  end.

Definition query_refill_range_for (index : gset Z) (bs offset size source_size : Z) : option (Z * Z) :=
  if (size =? 0) || (source_size <=? offset) then None
  else
    match checked_add64 offset size with
    | None => None
    | Some e =>
        let req_end := Z.min e source_size in
        if req_end <=? offset then None
        else
          let align_left := align_down offset bs in
          let align_right := Z.min (align_up req_end bs) source_size in
          if align_right <=? align_left then None
          else
            let start_block := align_left / bs in
            let end_block := saturating_sub (div_round_up align_right bs) 1 in
            let extents := cached_extents index bs source_size align_left align_right start_block end_block in
            let hole_end := trim_suffix (rev extents) align_right in
            let hole_start := trim_prefix extents align_left in
            if hole_end <=? hole_start then None else Some (hole_start, hole_end - hole_start)
    end.

Definition query_refill_range (id : str) (offset size source_size : Z) : cache (option (Z * Z)) :=
  let! a := get_cache_entry id in
  match a with
  | None => eret None
  | Some a =>
      let! e := get_entry a in
      let! bs := read_world (λ w, opt_block_size (w_opts w)) in
      eret (query_refill_range_for (ce_index e) bs offset size source_size)
  end.

Definition add_active_refills (n : Z) : cache unit :=
  emodify (set_state (λ s, set_counters (current_bytes s) (mmap_bytes s) (capacity_bytes s)
    (mmap_capacity_bytes s) (is_full s) (evict_global_bytes s) (evict_user_bytes s)
    (wrap32 (active_refills s + n)) s)).

(** Dropping a [RefillGuard]. *)
Definition drop_refill_guard (a b : Z) : cache unit :=
  let! _ := add_active_refills (-1) in
  finish_refill a b.

Section Store.
Context `{CacheEnv, Roaring, Crc32c, FileDiscard}.

(** ** Refilling *)

(** The source reads into the mapped range; what it stored stays there also
    when it fails. *)
Definition read_into_region (a offset len : Z) (source : Source) : cache Z :=
  let! t := tick in
  let '(buf, r) := so_read_into source t offset len in
  let! e := get_entry a in
  let! f := get_file (ce_inode e) in
  let! _ := write_file (ce_inode e) (splice f offset (ztake len buf)) in
  lift_source r.

(** The part of a refill that may fail while the range is reserved. *)
Definition fetch_block (a : Z) (source : Source) (source_size b : Z) : cache unit :=
  let! r := mmap_mut_for_block a b source_size in
  match r with
  | None => eerr BeyondSource
  | Some (buf_off, buf_len) =>
      let! n := read_into_region a buf_off buf_len source in
      if negb (n =? buf_len) then eerr ShortSourceRead else eret tt
  end.

Definition do_refill_block (a : Z) (source : Source) (source_size b : Z) : cache unit :=
  let! bs := read_world (λ w, opt_block_size (w_opts w)) in
  let offset := Z.min (sat_mul b bs) source_size in
  let want := Z.min (saturating_sub source_size offset) bs in
  if want =? 0 then eret tt
  else
    let! s := read_world w_state in
    if capacity_bytes s =? 0 then eerr Enospc
    else if is_full s then eerr Enospc
    else
      let! armed := reserve_range offset want in
      let! _ := with_reserved a offset want armed (fetch_block a source source_size b) in
      let! _ := mark_block_cached a b in
      let! _ := record_refill a in
      add_current_bytes want.

(** One round of the loop for a block: whether to go on, and whether the block
    is to be tried again. *)
Inductive refill_round : Type := RoundDone | RoundRetry | RoundStop.

Definition refill_block_round (a : Z) (source : Source) (source_size b : Z) (retried : bool) : cache refill_round :=
  let! free := sys SysBarrier in
  if negb free then eret RoundStop
  else
    let! r := acquire_refill a b in
    match r with
    | InCache => eret RoundDone
    | ShouldLoad =>
        let! _ := add_active_refills 1 in
        let! r := catch (do_refill_block a source source_size b) in
        let! _ := drop_refill_guard a b in
        match r with
        | Ok _ => eret RoundDone
        | Err err =>
            if negb retried && is_enospc err
            then let! _ := eviction_inner in eret RoundRetry
            else eerr err
        end
    end.

(** A block is tried at most twice; [false] ends the whole refill. *)
Definition refill_one_block (a : Z) (source : Source) (source_size b : Z) : cache bool :=
  let! r := refill_block_round a source source_size b false in
  match r with
  | RoundDone => eret true
  | RoundStop => eret false
  | RoundRetry =>
      let! r := refill_block_round a source source_size b true in
      eret (match r with RoundStop => false | _ => true end)
  end.

Fixpoint refill_blocks (a : Z) (source : Source) (source_size : Z) (blocks : list Z) : cache bool :=
  match blocks with
  | [] => eret true
  | b :: blocks' =>
      let! go := refill_one_block a source source_size b in
      if go then refill_blocks a source source_size blocks' else eret false
  end.

Definition refill_exact_range (id : str) (source : Source) (source_size refill_off refill_size : Z) : cache unit :=
  if refill_size =? 0 then eret tt
  else
    let! a := get_cache_entry id in
    match a with
    | None => eerr EntryEvicted
    | Some a =>
        let! bs := read_world (λ w, opt_block_size (w_opts w)) in
        let group_start := refill_off / bs in
        let group_end := div_round_up (sat_add refill_off refill_size) bs in
        let! go := refill_blocks a source source_size (seqZ group_start (group_end - group_start)) in
        if go then eviction_inner else eret tt
    end.

Definition refill_range (id : str) (source : Source) (source_size miss_offset miss_size : Z) : cache unit :=
  let! r := query_refill_range id miss_offset miss_size source_size in
  match r with
  | None => eret tt
  | Some (refill_off, refill_size) => refill_exact_range id source source_size refill_off refill_size
  end.

(** Every round but the last moves the cursor; [count] rounds are enough. *)
Fixpoint try_refill_loop (fuel : nat) (id : str) (source : Source) (source_size cursor end_ : Z) : cache unit :=
  if end_ <=? cursor then eret tt
  else match fuel with
       | O => eret tt
       | S fuel' =>
           let! r := query_refill_range id cursor (saturating_sub end_ cursor) source_size in
           match r with
           | None => eret tt
           | Some (refill_off, refill_len) =>
               let! _ := refill_exact_range id source source_size refill_off refill_len in
               let next := Z.min (sat_add refill_off refill_len) end_ in
               if next <=? cursor then eret tt
               else try_refill_loop fuel' id source source_size next end_
           end
       end.

Definition try_refill_range (id : str) (source : option Source) (source_size offset count : Z) : cache Z :=
  if (count =? 0) || (source_size <=? offset) then eret 0
  else
    let capped := Z.min (saturating_sub source_size offset) count in
    if capped =? 0 then eret 0
    else
      let! s := read_world w_state in
      if capacity_bytes s =? 0 then eret capped
      else
        match source with
        | None => eerr NoSource
        | Some source =>
            let! _ := try_refill_loop (Z.to_nat capped) id source source_size offset (sat_add offset capped) in
            eret capped
        end.

(** ** Reading *)

Definition read_source (source : Source) (offset want : Z) : cache (list Z) :=
  let! t := tick in
  let! bytes := lift_source (so_read_at source t offset want) in
  if negb (zlen bytes =? want) then eerr ShortSourceRead else eret bytes.

(** [pread_from_source_generic], and [pread_from_source_dedup] of the only
    reader of the block. *)
Definition pread_from_source (source : Source) (source_size b : Z) : cache (list Z) :=
  let! bs := read_world (λ w, opt_block_size (w_opts w)) in
  if U64_MAX <? b * bs then eerr RangeOverflow
  else
    let offset := b * bs in
    if source_size <=? offset then eret []
    else read_source source offset (Z.min (saturating_sub source_size offset) bs).

(** The block of the entry, when it is in the cache. *)
Definition read_cached (id : str) (b : Z) : cache (option (list Z)) :=
  let! a := get_cache_entry id in
  match a with
  | None => eret None
  | Some a =>
      let! r := entry_read_block a b in
      match r with
      | None => eret None
      | Some bytes => let! _ := record_hit a in eret (Some bytes)
      end
  end.

Definition record_miss_of (id : str) : cache unit :=
  let! a := get_cache_entry id in
  match a with Some a => record_miss a | None => eret tt end.

Definition try_preadv2 (id : str) (source : option Source) (ctx : ReadCtx) (enable_refill : bool) (b : Z)
  : cache (list Z) :=
  let! r := read_cached id b in
  match r with
  | Some bytes => eret bytes
  | None =>
      let! _ := record_miss_of id in
      let! s := read_world w_state in
      let! bs := read_world (λ w, opt_block_size (w_opts w)) in
      let! again := (if 0 <? capacity_bytes s then
        match source with
        | None => eerr CacheMissNoSource
        | Some source =>
            let! _ := (if negb (cache_only ctx) && enable_refill then
                         let! _ := catch (refill_range id source (rc_source_size ctx) (sat_mul b bs) bs) in
                         eret tt
                       else eret tt) in
            read_cached id b
        end
      else eret None) in
      match again with
      | Some bytes => eret bytes
      | None =>
          if cache_only ctx then eerr CacheOnlyMiss
          else match source with
               | Some source => pread_from_source source (rc_source_size ctx) b
               | None => eerr CacheMissNoSource
               end
      end
  end.

(** The attempt to refill the range before it is read; the result tells whether
    it was made. *)
Definition prefill (id : str) (source : option Source) (ctx : ReadCtx) (offset want : Z) : cache bool :=
  let! s := read_world w_state in
  if (0 <? capacity_bytes s) && negb (cache_only ctx) && (active_refills s <? DEFAULT_MAX_REFILLING) then
    match source with
    | None => eret false
    | Some source =>
        let! r := query_refill_range id offset want (rc_source_size ctx) in
        let! _ := match r with Some _ => record_miss_of id | None => eret tt end in
        let! _ := catch (refill_range id source (rc_source_size ctx) offset want) in
        eret true
    end
  else eret false.

(** The blocks of a read, one after the other: [written] bytes are in place. *)
Fixpoint read_blocks (id : str) (source : option Source) (ctx : ReadCtx) (enable_refill : bool)
    (offset read_end bs start_block end_block : Z) (blocks : list Z) (out : list Z) (written : Z)
  : cache (list Z * Z) :=
  match blocks with
  | [] => eret (out, written)
  | b :: blocks' =>
      let! block := try_preadv2 id source ctx enable_refill b in
      let block_base := wrap64 (b * bs) in
      let from := if b =? start_block then saturating_sub offset block_base else 0 in
      let to := Z.min (if b =? end_block then saturating_sub read_end block_base else zlen block) (zlen block) in
      if (from <=? to) && (to <=? zlen block) then
        let seg := slice from (to - from) block in
        let end_ := Z.min (sat_add written (zlen seg)) (zlen out) in
        let dst_len := saturating_sub end_ written in
        read_blocks id source ctx enable_refill offset read_end bs start_block end_block blocks'
          (splice out written (ztake dst_len seg)) end_
      else eerr BadBlockSlice
  end.

Definition do_preadv2_generic (id : str) (source : option Source) (ctx : ReadCtx) (offset len : Z) : cache (list Z) :=
  if (len =? 0) || (rc_source_size ctx <=? offset) then eret []
  else
    let want := Z.min (saturating_sub (rc_source_size ctx) offset) len in
    if want =? 0 then eret []
    else
      let! bs := read_world (λ w, opt_block_size (w_opts w)) in
      match checked_add64 offset want with
      | None => eerr RangeOverflow
      | Some read_end =>
          let start_block := offset / bs in
          let end_block := (read_end - 1) / bs in
          let! did_prefill := prefill id source ctx offset want in
          if start_block =? end_block then
            let! block := try_preadv2 id source ctx (negb did_prefill) start_block in
            let block_base := wrap64 (start_block * bs) in
            let from := saturating_sub offset block_base in
            let to := Z.min (saturating_sub read_end block_base) (zlen block) in
            if (from <=? to) && (to <=? zlen block) then eret (slice from (to - from) block)
            else eerr BadBlockSlice
          else
            let! r := read_blocks id source ctx (negb did_prefill) offset read_end bs start_block end_block
                        (seqZ start_block (end_block - start_block + 1)) (zeros want) 0 in
            let '(out, written) := r in
            if negb (written =? want) then
              if cache_only ctx then eerr ShortCachedRead
              else match source with
                   | None => eerr ShortCachedRead
                   | Some source => read_source source offset want
                   end
            else eret (ztake written out)
      end.

(** Into the buffer [dst] of the caller: its new contents and the bytes read. *)
Definition do_preadv2_into_generic (id : str) (source : option Source) (ctx : ReadCtx) (offset : Z) (dst : list Z)
  : cache (list Z * Z) :=
  if is_nil dst || (rc_source_size ctx <=? offset) then eret (dst, 0)
  else
    let want := Z.min (saturating_sub (rc_source_size ctx) offset) (zlen dst) in
    if want =? 0 then eret (dst, 0)
    else
      let! bs := read_world (λ w, opt_block_size (w_opts w)) in
      match checked_add64 offset want with
      | None => eerr RangeOverflow
      | Some read_end =>
          let start_block := offset / bs in
          let end_block := (read_end - 1) / bs in
          let! did_prefill := prefill id source ctx offset want in
          let! r := read_blocks id source ctx (negb did_prefill) offset read_end bs start_block end_block
                      (seqZ start_block (end_block - start_block + 1)) (ztake want dst) 0 in
          let '(out, written) := r in
          if negb (written =? want) then
            if cache_only ctx then eerr ShortCachedRead
            else match source with
                 | None => eerr ShortCachedRead
                 | Some source =>
                     let! t := tick in
                     let '(buf, r) := so_read_into source t offset want in
                     let! n := lift_source r in
                     if negb (n =? want) then eerr ShortSourceRead
                     else eret (splice dst 0 (ztake want buf), n)
                 end
          else eret (splice dst 0 out, written)
      end.
End Store.
