(* ===== verification/CacheFile.v ===== *)
(** * Cached files

    The writes of [cache_store.rs] and its [CachedFile]: the handle through
    which the image reads a remote file, with prefetching, background refills
    of whole chunks and the [VirtualFile] operations. *)

From stdpp Require Import gmap.
From S2P Require Import Prelude LsmtIo Text ZFormat CacheMeta CacheEntry CachePool CacheStore.

Open Scope result_scope.

Section CachedFiles.
Context `{CacheEnv, Roaring, Crc32c, FileDiscard}.

(** ** Writing into the cache *)

(** What a block holds before it is changed: the cached bytes, else those of
    the source, in a buffer of zeros. *)
Definition existing_block (a : Z) (source : option Source) (source_size bs b : Z) : cache (list Z) :=
  let block_start := sat_mul b bs in
  let block := zeros bs in
  let! r := entry_read_block a b in
  match r, source with
  | Some existing, _ => eret (splice block 0 (ztake (Z.min (zlen existing) bs) existing))
  | None, Some source =>
      if block_start <? source_size then
        let want := Z.min (saturating_sub source_size block_start) bs in
        if 0 <? want then
          let! t := tick in
          let! existed := lift_source (so_read_at source t block_start want) in
          eret (splice block 0 (ztake (Z.min (zlen existed) bs) existed))
        else eret block
      else eret block
  | None, None => eret block
  end.

Fixpoint write_blocks (a : Z) (source : option Source) (source_size new_size offset write_end bs : Z)
    (data : list Z) (blocks : list Z) : cache unit :=
  match blocks with
  | [] => eret tt
  | b :: blocks' =>
      let rest := write_blocks a source source_size new_size offset write_end bs data blocks' in
      let block_start := sat_mul b bs in
      let in_write_start := Z.max offset block_start in
      let in_write_end := Z.min write_end (sat_add block_start bs) in
      if in_write_end <=? in_write_start then rest
      else
        let! block := existing_block a source source_size bs b in
        let src_begin := saturating_sub in_write_start offset in
        let src_end := saturating_sub in_write_end offset in
        let dst_begin := saturating_sub in_write_start block_start in
        let dst_end := sat_add dst_begin (saturating_sub src_end src_begin) in
        if (src_begin <=? src_end) && (src_end <=? zlen data) && (dst_end <=? zlen block) then
          let block := splice block dst_begin (slice src_begin (src_end - src_begin) data) in
          let valid := Z.min (Z.min (saturating_sub new_size block_start) bs) (zlen block) in
          if valid =? 0 then rest
          else
            let! s := read_world w_state in
            if capacity_bytes s =? 0 then eerr Enospc
            else if is_full s then eerr Enospc
            else
              let! e := get_entry a in
              let was_cached := bool_decide (wrap32 b ∈ ce_index e) in
              let! _ := write_block a b (ztake valid block) in
              let! _ := (if negb was_cached then add_current_bytes valid else eret tt) in
              rest
        else eerr BadBlockSlice
  end.

Definition cache_refill_with_data (id : str) (source : option Source) (source_size offset : Z) (data : list Z)
  : cache Z :=
  if is_nil data then eret 0
  else
    match checked_add64 offset (zlen data) with
    | None => eerr RangeOverflow
    | Some write_end =>
        let! bs := read_world (λ w, opt_block_size (w_opts w)) in
        let start_block := offset / bs in
        let end_block := (write_end - 1) / bs in
        let new_size := Z.max source_size write_end in
        let! a := get_cache_entry id in
        match a with
        | None => eerr EntryEvicted
        | Some a =>
            let! e := get_entry a in
            let! _ := (if ce_source_size e <? new_size then set_source_size a new_size else eret tt) in
            let! _ := write_blocks a source source_size new_size offset write_end bs data
                        (seqZ start_block (end_block - start_block + 1)) in
            let! _ := record_refill a in
            let! _ := eviction_inner in
            eret (zlen data)
        end
    end.

Definition set_cached_size (id : str) (size : Z) : cache unit :=
  let! a := get_cache_entry id in
  match a with
  | None => eret tt
  | Some a =>
      let! e := get_entry a in
      let old_bytes := total_cached_bytes e in
      let! _ := set_source_size a size in
      let! e := get_entry a in
      let new_bytes := total_cached_bytes e in
      if negb (old_bytes =? new_bytes) then
        if new_bytes <? old_bytes then subtract_current_bytes (old_bytes - new_bytes)
        else add_current_bytes (new_bytes - old_bytes)
      else eret tt
  end.

Definition store_evict_all_blocks (id : str) : cache unit :=
  let! a := get_cache_entry id in
  match a with
  | None => eret tt
  | Some a =>
      let! released := entry_evict_all_blocks a in
      if 0 <? released then subtract_current_bytes released else eret tt
  end.

(** ** Handles *)

Definition get_handle (h : Z) : cache CachedFile := λ w,
  (w, match w_handles w !! h with Some f => Ok f | None => Err Dangling end).

Definition set_handle_size (h size : Z) : cache unit :=
  emodify (set_handles (alter (λ f, {| cf_source := cf_source f; cf_cache_id := cf_cache_id f;
    cf_source_size := size; cf_open_flags := cf_open_flags f |}) h)).

Definition set_source (h : Z) (source : option Source) : cache unit :=
  emodify (set_handles (alter (λ f, {| cf_source := source; cf_cache_id := cf_cache_id f;
    cf_source_size := cf_source_size f; cf_open_flags := cf_open_flags f |}) h)).

(** [Drop] of the handle. *)
Definition drop_handle (h : Z) : cache unit :=
  let! f := get_handle h in
  let! _ := emodify (set_handles (delete h)) in
  remove_open_file (cf_cache_id f).

Definition tryget_size (h offset count : Z) : cache Z :=
  let! f := get_handle h in
  let size := cf_source_size f in
  let req_end := sat_add offset count in
  if ((size <=? offset) || (size <? req_end)) && (Z.land (cf_open_flags f) O_CACHE_ONLY =? 0) then
    match cf_source f with
    | None => eret size
    | Some source =>
        let! t := tick in
        let! latest := lift_source (so_size source t) in
        if negb (latest =? size) then
          let! _ := set_cached_size (cf_cache_id f) latest in
          let! _ := set_handle_size h latest in
          eret latest
        else eret size
    end
  else eret size.

Definition update_size_after_write (h end_ : Z) : cache unit :=
  let! f := get_handle h in
  if cf_source_size f <? end_ then set_handle_size h end_ else eret tt.

Definition query (h offset count : Z) : cache Z :=
  let! size := tryget_size h offset count in
  if (count =? 0) || (size <=? offset) then eret 0
  else
    let! f := get_handle h in
    let! r := query_refill_range (cf_cache_id f) offset count size in
    eret (match r with Some (_, missing) => missing | None => 0 end).

Definition refill_from_slice (h offset : Z) (data : list Z) : cache Z :=
  let! f := get_handle h in
  let! written := cache_refill_with_data (cf_cache_id f) (cf_source f) (cf_source_size f) offset data in
  let! _ := (if 0 <? written then update_size_after_write h (sat_add offset written) else eret tt) in
  eret written.

Definition file_try_refill_range (h offset count : Z) : cache Z :=
  let! f := get_handle h in
  try_refill_range (cf_cache_id f) (cf_source f) (cf_source_size f) offset count.

(** Every round but the last moves on by a whole step. *)
Fixpoint fadvise_loop (fuel : nat) (h cur end_ : Z) : cache unit :=
  if end_ <=? cur then eret tt
  else match fuel with
       | O => eret tt
       | S fuel' =>
           let step := Z.min (end_ - cur) MAX_PREFETCH_SIZE in
           let! ret := file_try_refill_range h cur step in
           if ret =? 0 then eret tt
           else if ret <? step then eret tt
           else fadvise_loop fuel' h (sat_add cur ret) end_
       end.

Definition fadvise (h offset len : Z) : cache unit :=
  let page_size := 4096 in
  let aligned_off := offset / page_size * page_size in
  let end_ := sat_add offset len in
  let! end_ := (if negb (is_multiple_of end_ page_size) then
                  match checked_add64 end_ (page_size - 1) with
                  | None => eerr RangeOverflow
                  | Some e => eret (e / page_size * page_size)
                  end
                else eret end_) in
  if end_ <=? aligned_off then eret tt
  else fadvise_loop (Z.to_nat (end_ - aligned_off)) h aligned_off end_.

Definition read_at_with_flags (h offset len rw_flags : Z) : cache (list Z) :=
  let! size := tryget_size h offset len in
  let! f := get_handle h in
  do_preadv2_generic (cf_cache_id f) (cf_source f)
    {| rc_source_size := size; rc_open_flags := cf_open_flags f; rc_rw_flags := rw_flags |} offset len.

Definition read_at_into (h offset : Z) (dst : list Z) : cache (list Z * Z) :=
  if is_nil dst then eret (dst, 0)
  else
    let! size := tryget_size h offset (zlen dst) in
    let! f := get_handle h in
    do_preadv2_into_generic (cf_cache_id f) (cf_source f)
      {| rc_source_size := size; rc_open_flags := cf_open_flags f; rc_rw_flags := 0 |} offset dst.

Definition write_at_with_flags (h offset : Z) (data : list Z) : cache Z :=
  if is_nil data then eret 0
  else
    let! source_size := tryget_size h offset (zlen data) in
    match checked_add64 offset (zlen data) with
    | None => eerr RangeOverflow
    | Some write_end =>
        if negb (is_multiple_of offset PAGE_SIZE) then eerr Unaligned
        else if source_size <=? offset then eret 0
        else if negb (is_multiple_of (zlen data) PAGE_SIZE) && (write_end <? source_size) then eerr Unaligned
        else
          let write_len := Z.min (saturating_sub source_size offset) (zlen data) in
          if write_len =? 0 then eret 0
          else
            let! f := get_handle h in
            let! written := cache_refill_with_data (cf_cache_id f) (cf_source f) source_size offset
                              (ztake write_len data) in
            let! _ := (if 0 <? written then update_size_after_write h (sat_add offset written) else eret tt) in
            eret written
    end.

Definition sync (h : Z) : cache unit :=
  let! f := get_handle h in
  let! _ := match cf_source f with
            | None => eret tt
            | Some source => let! t := tick in if so_sync source t then eret tt else eerr SourceFailed
            end in
  let! a := get_cache_entry (cf_cache_id f) in
  match a with
  | None => eret tt
  | Some a => let! _ := catch (checkpoint a) in eret tt
  end.

Definition file_evict_all (h : Z) : cache unit :=
  let! f := get_handle h in
  store_evict_all_blocks (cf_cache_id f).

(** Only whole files are evicted. *)
Definition file_evict_range (h offset len : Z) : cache unit := file_evict_all h.

Definition file_size (h : Z) : cache Z := let! f := get_handle h in eret (cf_source_size f).

(** ** Background refills *)

Definition background_source_snapshot (h : Z) : cache (Source * Z) :=
  let! f := get_handle h in
  match cf_source f with
  | None => eerr NoSource
  | Some source => eret (source, cf_source_size f)
  end.

Definition background_block_count (bs source_size : Z) : result cache_error Z :=
  let block_count := div_round_up source_size bs in
  let? _ := ensure (block_count <=? U32_MAX + 1) BlockCountExceeded in
  Ok block_count.

Definition missing_background_blocks (h source_size : Z) : cache (list Z) :=
  let! f := get_handle h in
  let! bs := read_world (λ w, opt_block_size (w_opts w)) in
  let! block_count := elift (background_block_count bs source_size) in
  let! a := get_cache_entry (cf_cache_id f) in
  match a with
  | None => eerr EntryEvicted
  | Some a =>
      let! e := get_entry a in
      eret (List.filter (λ b, negb (bool_decide (b ∈ ce_index e))) (seqZ 0 block_count))
  end.

Definition background_is_complete (h source_size : Z) : cache bool :=
  let! missing := missing_background_blocks h source_size in eret (is_nil missing).

(** The chunks with a missing block; every round takes at least one block. *)
Fixpoint chunk_loop (fuel : nat) (index : gset Z) (start block_count blocks_per_chunk : Z) : list (Z * Z) :=
  if block_count <=? start then []
  else match fuel with
       | O => []
       | S fuel' =>
           let len := Z.min (block_count - start) blocks_per_chunk in
           let rest := chunk_loop fuel' index (start + len) block_count blocks_per_chunk in
           if existsb (λ b, negb (bool_decide (wrap32 b ∈ index))) (seqZ start len)
           then (start, len) :: rest else rest
       end.

Definition actionable_background_chunks (h source_size blocks_per_chunk : Z) : cache (list (Z * Z)) :=
  let blocks_per_chunk := Z.max blocks_per_chunk 1 in
  let! f := get_handle h in
  let! bs := read_world (λ w, opt_block_size (w_opts w)) in
  let! block_count := elift (background_block_count bs source_size) in
  let! a := get_cache_entry (cf_cache_id f) in
  match a with
  | None => eerr EntryEvicted
  | Some a =>
      let! e := get_entry a in
      eret (chunk_loop (Z.to_nat block_count) (ce_index e) 0 block_count blocks_per_chunk)
  end.

(** The blocks of a range that this task is to load, in runs of neighbours. *)
Definition push_run (runs : list (list Z)) (b : Z) : list (list Z) :=
  match rev runs with
  | run :: before =>
      if default 0 (last run) + 1 =? b then rev before ++ [run ++ [b]] else runs ++ [[b]]
  | [] => [[b]]
  end.

Fixpoint acquire_runs (a : Z) (blocks : list Z) (runs : list (list Z)) : cache (list (list Z)) :=
  match blocks with
  | [] => eret runs
  | b :: blocks' =>
      let! r := acquire_refill a b in
      match r with
      | InCache => acquire_runs a blocks' runs
      | ShouldLoad =>
          let! _ := add_active_refills 1 in
          acquire_runs a blocks' (push_run runs b)
      end
  end.

(** The guards of the blocks are dropped. *)
Fixpoint drop_guards (a : Z) (blocks : list Z) : cache unit :=
  match blocks with
  | [] => eret tt
  | b :: blocks' => let! _ := drop_refill_guard a b in drop_guards a blocks'
  end.

(** The blocks of a run are copied out of [scratch] and published; each guard
    goes with its block. *)
Fixpoint publish_run (a source_size bs first : Z) (scratch : list Z) (run : list Z) (committed : Z) : cache Z :=
  match run with
  | [] => eret committed
  | b :: run' =>
      let want := Z.min (saturating_sub source_size (wrap64 (b * bs))) bs in
      if want =? 0 then
        let! _ := drop_refill_guard a b in
        publish_run a source_size bs first scratch run' committed
      else
        let block_off := (b - first) * bs in
        let! r := catch (mmap_mut_for_block a b source_size) in
        match r with
        | Err err => let! _ := drop_guards a (b :: run') in eerr err
        | Ok None => let! _ := drop_guards a (b :: run') in eerr BeyondSource
        | Ok (Some (off, len)) =>
            let! e := get_entry a in
            let! f := get_file (ce_inode e) in
            let! _ := write_file (ce_inode e) (splice f off (slice block_off want scratch)) in
            let! _ := mark_block_cached a b in
            let! _ := record_refill a in
            let! _ := drop_refill_guard a b in
            publish_run a source_size bs first scratch run' (committed + want)
        end
  end.

(** The read of a run and its publication; a failure before the first block is
    published drops all guards. *)
Definition refill_block_run (a : Z) (source : Source) (source_size : Z) (run : list Z) : cache Z :=
  let! bs := read_world (λ w, opt_block_size (w_opts w)) in
  let first := default 0 (head run) in
  let last := default 0 (last run) in
  let fail {A} (err : cache_error) : cache A := let! _ := drop_guards a run in eerr err in
  if U64_MAX <? first * bs then fail RangeOverflow
  else
    let offset := first * bs in
    let read_len := Z.min (saturating_sub source_size offset) (wrap64 ((last - first + 1) * bs)) in
    if read_len =? 0 then let! _ := drop_guards a run in eret 0
    else
      let! t := tick in
      let '(buf, r) := so_read_into source t offset read_len in
      let scratch := splice (zeros read_len) 0 (ztake read_len buf) in
      match r with
      | Err enospc => fail (if enospc : bool then Enospc else SourceFailed)
      | Ok n =>
          if negb (n =? read_len) then fail ShortSourceRead
          else
            let! r := catch (ensure_range_allocated offset read_len) in
            match r with
            | Err err => fail err
            | Ok _ =>
                let! committed := publish_run a source_size bs first scratch run 0 in
                let! _ := (if 0 <? committed then add_current_bytes committed else eret tt) in
                eret read_len
            end
      end.

(** A failed run drops the guards of the runs after it. *)
Fixpoint refill_runs (a : Z) (source : Source) (source_size : Z) (runs : list (list Z)) (read_bytes : Z) : cache Z :=
  match runs with
  | [] => eret read_bytes
  | run :: runs' =>
      let! r := catch (refill_block_run a source source_size run) in
      match r with
      | Err err => let! _ := drop_guards a (mjoin runs') in eerr err
      | Ok n => refill_runs a source source_size runs' (wrap64 (read_bytes + n))
      end
  end.

(** The part of [background_refill_range] before the first source read: the
    missing blocks of the range are acquired, as runs. *)
Definition acquire_range {A} (h source_size start_block len_blocks : Z) (refill : Z → list (list Z) → cache A) : cache A :=
  let! f := get_handle h in
  let! bs := read_world (λ w, opt_block_size (w_opts w)) in
  match checked_add64 start_block len_blocks with
  | None => eerr RangeOverflow
  | Some end_block =>
      let! block_count := elift (background_block_count bs source_size) in
      if negb (end_block <=? block_count) then eerr RangeOutOfBounds
      else
        let! s := read_world w_state in
        if (capacity_bytes s =? 0) || is_full s then eerr Enospc
        else
          let! a := get_cache_entry (cf_cache_id f) in
          match a with
          | None => eerr EntryEvicted
          | Some a =>
              let! runs := acquire_runs a (seqZ start_block len_blocks) [] in
              refill a runs
          end
  end.

Definition background_refill_range (h : Z) (source : Source) (source_size start_block len_blocks : Z) : cache Z :=
  acquire_range h source_size start_block len_blocks (λ a runs, refill_runs a source source_size runs 0).

(** A refill that is dropped while it reads the run after the first [k]: those
    are published, and the guards of the others are dropped. *)
Definition background_refill_dropped (h : Z) (source : Source) (source_size start_block len_blocks : Z) (k : nat) : cache Z :=
  acquire_range h source_size start_block len_blocks (λ a runs,
    let! r := catch (refill_runs a source source_size (take k runs) 0) in
    let! _ := drop_guards a (mjoin (drop k runs)) in
    elift r).
End CachedFiles.
