(* ===== verification/CacheInv.v ===== *)
(** * What the file cache keeps

    The invariant of the cache: every block an entry lists is, in its data
    file, the block of the cached file; metadata on disk lists no block that
    its entry does not list.  The operations of [cache_entry.rs] and the
    eviction of [cache_pool.rs] keep it, whatever the machine does. *)

From stdpp Require Import gmap.
From S2P Require Import Prelude LsmtIo Text ZFormat CacheMeta CacheEntry CachePool.

Open Scope result_scope.

Create HintDb cache.

(** ** Blocks *)

(** Bytes of block [b] of a file of [size] bytes. *)
Definition blk_len (bs size b : Z) : Z := Z.min bs (size - b * bs).

(** Block [b] of [f] is that of [F]. *)
Definition block_good (bs : Z) (F f : list Z) (b : Z) : Prop :=
  0 ≤ b ∧ b * bs < zlen F
  ∧ ∀ p, b * bs ≤ p < b * bs + blk_len bs (zlen F) b → byte_at f p = byte_at F p.

(** [f'] differs from [f] in block [b] only. *)
Definition same_but_block (bs b : Z) (f f' : list Z) : Prop :=
  zlen f' = zlen f ∧ ∀ p, 0 ≤ p → p < b * bs ∨ b * bs + bs ≤ p → byte_at f' p = byte_at f p.

Lemma same_but_block_refl bs b f : same_but_block bs b f f.
Proof. by split. Qed.

Lemma same_but_block_trans bs b f1 f2 f3 :
  same_but_block bs b f1 f2 → same_but_block bs b f2 f3 → same_but_block bs b f1 f3.
Proof. intros [H1 H2] [H3 H4]. split; [congruence|]. intros p H0 Hp. by rewrite H4, H2. Qed.

Lemma block_good_other bs F f f' b b' : 0 < bs → b' ≠ b → same_but_block bs b f f' →
  block_good bs F f b' → block_good bs F f' b'.
Proof.
  intros Hbs Hb [Hl Hp] (H0 & Hlt & Hby). split_and!; [done..|]. intros p Hr. rewrite Hp; [by apply Hby|nia|].
  unfold blk_len in Hr. destruct (Z.lt_total b' b) as [?|[?|?]]; nia.
Qed.

Lemma block_good_slice bs F f b : 0 < bs → zlen f = zlen F → block_good bs F f b →
  slice (b * bs) (blk_len bs (zlen F) b) f = slice (b * bs) (blk_len bs (zlen F) b) F.
Proof.
  intros Hbs Hl (H0 & Hlt & Hby). unfold blk_len in *.
  apply bytes_ext. { rewrite !zlen_slice; nia. }
  intros p Hp. rewrite zlen_slice in Hp by nia. rewrite !byte_at_slice by nia. apply Hby. nia.
Qed.

(** ** The file behind the cache *)

(** The documented behaviour of [VirtualFile]: what a read reports is there. *)
Record honest (F : list Z) (s : Source) : Prop := {
  hs_into : ∀ t off len n, 0 ≤ off → 0 ≤ len → (so_read_into s t off len).2 = Ok n →
    0 ≤ n ≤ len ∧ ztake n (so_read_into s t off len).1 = slice off n F ∧ (0 < n → off + n ≤ zlen F);
  hs_at : ∀ t off len bytes, 0 ≤ off → 0 ≤ len → so_read_at s t off len = Ok bytes →
    ∃ n, 0 ≤ n ≤ len ∧ bytes = slice off n F ∧ (0 < n → off + n ≤ zlen F);
  hs_size : ∀ t n, so_size s t = Ok n → n = zlen F
}.

(** Reads of bytes the file has do not fail. *)
Record reliable (F : list Z) (s : Source) : Prop := {
  rl_at : ∀ t off len, 0 ≤ off → 0 ≤ len → off + len ≤ zlen F → so_read_at s t off len = Ok (slice off len F);
  rl_size : ∀ t, so_size s t = Ok (zlen F)
}.

(** The calls that an eviction removes metadata with never fail. *)
Definition safe `{CacheEnv} : Prop :=
  ∀ t op, op ∈ [SysCloneFd; SysRemoveMeta; SysRemoveDir] → env_ok op t = true.

(** The block size of the pool and the file behind every cache id, of at most
    16 TiB. *)
Class CacheModel `{CacheEnv} : Type := {
  pool_bs : Z;
  content : str → list Z;
  pool_bs_range : 4096 ≤ pool_bs ≤ 2 ^ 63;
  content_small : ∀ id, zlen (content id) ≤ 2 ^ 44
}.

Section Inv.
Context {env : CacheEnv} {env_spec : CacheEnvSpec} {roaring : Roaring} {roaring_spec : RoaringSpec}
  {crc : Crc32c} {crc_spec : Crc32cSpec} {disc : FileDiscard} {disc_spec : FileDiscardSpec}.
Context {model : CacheModel}.

Definition wbs (w : World) : Z := opt_block_size (w_opts w).

Record entry_ok (w : World) (e : CacheEntry) (f : list Z) : Prop := {
  eo_file : w_files w !! ce_inode e = Some f;
  eo_bs : ce_block_size e = wbs w;
  eo_size : ce_source_size e = zlen (content (ce_cache_id e));
  eo_region : ce_region_len e = zlen (content (ce_cache_id e));
  eo_len : zlen f = zlen (content (ce_cache_id e));
  eo_pos : 0 < zlen (content (ce_cache_id e));
  eo_index : ∀ b, b ∈ ce_index e → block_good (wbs w) (content (ce_cache_id e)) f b
}.

(** Metadata agrees with an entry: it lists no other blocks. *)
Definition meta_within (m : CacheMetaDisk) (e : CacheEntry) : Prop :=
  mh_block_size (md_header m) = ce_block_size e ∧ md_bitmap m ⊆ ce_index e.

Definition active (w : World) (id : str) (a : Z) : Prop := cache_entries (w_state w) !! id = Some (Active a).

Record inv (w : World) : Prop := {
  i_pool_bs : wbs w = pool_bs;
  i_slot : ∀ id a, active w id a → ∃ e f d, w_heap w !! a = Some e ∧ ce_cache_id e = id
    ∧ entry_ok w e f ∧ w_dirs w !! id = Some d ∧ dir_data d = Some (ce_inode e);
  i_inj : ∀ id id' d d' i, w_dirs w !! id = Some d → w_dirs w !! id' = Some d' →
    dir_data d = Some i → dir_data d' = Some i → id = id';
  i_data : ∀ id d i, w_dirs w !! id = Some d → dir_data d = Some i → ∃ f, w_files w !! i = Some f;
  i_fresh : ∀ a, w_next w ≤ a → w_heap w !! a = None ∧ w_files w !! a = None ∧ w_handles w !! a = None;
  i_handles : ∀ h f, w_handles w !! h = Some f →
    cf_source_size f = zlen (content (cf_cache_id f))
    ∧ ∀ s, cf_source f = Some s → honest (content (cf_cache_id f)) s;
  i_meta : safe → ∀ id d raw m, id ≠ PREMERGED_INDEX_DIR → w_dirs w !! id = Some d →
    dir_meta d = Some raw → from_bytes raw = Ok m →
    ∃ a e, active w id a ∧ w_heap w !! a = Some e ∧ meta_within m e
}.

Lemma i_bs w : inv w → 4096 ≤ wbs w ≤ 2 ^ 63.
Proof. intros Hi. rewrite (i_pool_bs w Hi). apply pool_bs_range. Qed.

(** An entry an operation works on, whether or not it is in the map: its data
    file is that of no other entry. *)
Definition held (w : World) (p : Z * str) : Prop :=
  ∃ e f, w_heap w !! p.1 = Some e ∧ ce_cache_id e = p.2 ∧ entry_ok w e f
  ∧ (∀ id' a' e', active w id' a' → w_heap w !! a' = Some e' → ce_inode e' = ce_inode e → a' = p.1)
  ∧ (∀ id' d', w_dirs w !! id' = Some d' → dir_data d' = Some (ce_inode e) → id' = p.2).

Record I (hs : list (Z * str)) (w : World) : Prop := {
  I_inv : inv w;
  I_held : ∀ p, p ∈ hs → held w p;
  I_apart : ∀ p q e e', p ∈ hs → q ∈ hs → w_heap w !! p.1 = Some e → w_heap w !! q.1 = Some e' →
    ce_inode e = ce_inode e' → p.1 = q.1
}.

Lemma active_held w id a : inv w → active w id a → held w (a, id).
Proof.
  intros Hi Ha. destruct (i_slot w Hi id a Ha) as (e & f & d & He & Hid & Hok & Hd & Hin).
  exists e, f. split_and!; [done..| |].
  - intros id' a' e' Ha' He' Hino. destruct (i_slot w Hi id' a' Ha') as (e2 & f2 & d2 & He2 & Hid2 & _ & Hd2 & Hin2).
    rewrite He' in He2. injection He2 as <-. rewrite Hino in Hin2.
    pose proof (i_inj w Hi id id' d d2 _ Hd Hd2 Hin Hin2) as <-. cbn. unfold active in *. congruence.
  - intros id' d' Hd' Hin'. cbn. by eapply (i_inj w Hi).
Qed.

Lemma I_drop p hs w : I (p :: hs) w → I hs w.
Proof. intros [Hi Hh Ha]. split; [done|set_solver|]. intros q1 q2 e1 e2 H1 H2. apply Ha; by right. Qed.

Lemma I_add_active hs w id a : I hs w → active w id a → I ((a, id) :: hs) w.
Proof.
  intros [Hi Hh Hap] Ha. pose proof (active_held w id a Hi Ha) as Hl. split; [done| |].
  - intros p [->|Hp]%elem_of_cons; [done|by apply Hh].
  - assert (∀ q e e', q ∈ hs → w_heap w !! a = Some e → w_heap w !! q.1 = Some e' →
      ce_inode e = ce_inode e' → a = q.1) as Hq.
    { intros q e e' Hq He He' Hino. destruct (Hh q Hq) as (e2 & f2 & He2 & _ & _ & Hact & _).
      rewrite He' in He2. injection He2 as <-. by eapply Hact. }
    intros p q e e' [->|Hp]%elem_of_cons [->|Hq']%elem_of_cons He He' Hino; cbn in *; [done|..].
    + by eapply Hq.
    + symmetry. by eapply Hq.
    + by eapply Hap.
Qed.

(** [m] keeps the invariant, and the entries in [hs] among those held. *)
Definition pres {A} (hs : list (Z * str)) (m : cache A) : Prop :=
  ∀ hs' w, hs ⊆ hs' → I hs' w → I hs' (m w).1.

Lemma pres_ret {A} hs (x : A) : pres hs (eret x).
Proof. by intros hs' w _ HI. Qed.

Lemma pres_err {A} hs e : pres (A := A) hs (eerr e).
Proof. by intros hs' w _ HI. Qed.

Lemma pres_lift {A} hs (r : result cache_error A) : pres hs (elift r).
Proof. by intros hs' w _ HI. Qed.

Lemma pres_read {A} hs (f : World → A) : pres hs (read_world f).
Proof. by intros hs' w _ HI. Qed.

Lemma pres_get_entry hs a : pres hs (get_entry a).
Proof. by intros hs' w _ HI. Qed.

Lemma pres_get_file hs i : pres hs (get_file i).
Proof. by intros hs' w _ HI. Qed.

Lemma pres_get_slot hs id : pres hs (get_slot id).
Proof. by intros hs' w _ HI. Qed.

Lemma pres_bind {A B} hs (m : cache A) (k : A → cache B) :
  pres hs m → (∀ x, pres hs (k x)) → pres hs (ebind m k).
Proof.
  intros Hm Hk hs' w Hh HI. specialize (Hm hs' w Hh HI). unfold ebind. destruct (m w) as [w' [x|e]]; [|done].
  by apply Hk.
Qed.

Lemma pres_catch {A} hs (m : cache A) : pres hs m → pres hs (catch m).
Proof. intros Hm hs' w Hh HI. specialize (Hm hs' w Hh HI). unfold catch. by destruct (m w). Qed.

Lemma pres_mono {A} hs hs' (m : cache A) : hs ⊆ hs' → pres hs m → pres hs' m.
Proof. intros Hs Hm hs'' w Hh. apply Hm. set_solver. Qed.

(** What is found in the map is held. *)
Lemma pres_get_cache_entry {B} hs id (k : option Z → cache B) :
  pres hs (k None) → (∀ a, pres ((a, id) :: hs) (k (Some a))) → pres hs (ebind (get_cache_entry id) k).
Proof.
  intros Hn Hs hs' w Hh HI. unfold get_cache_entry, get_slot, read_world, ebind, eret.
  destruct (cache_entries (w_state w) !! id) as [[a|]|] eqn:E; cbn; [|by apply Hn..].
  assert (I ((a, id) :: hs') w) as HI' by by apply I_add_active.
  apply I_drop with (a, id). apply Hs; [set_solver|done].
Qed.

(** ** Changes of the state *)

(** The parts the invariant speaks of. *)
Definition same_core (w w' : World) : Prop :=
  wbs w' = wbs w ∧ cache_entries (w_state w') = cache_entries (w_state w) ∧ w_heap w' = w_heap w
  ∧ w_files w' = w_files w ∧ w_dirs w' = w_dirs w ∧ w_handles w' = w_handles w ∧ w_next w ≤ w_next w'.

Lemma entry_ok_core w w' e f : wbs w' = wbs w → w_files w' !! ce_inode e = w_files w !! ce_inode e →
  entry_ok w e f → entry_ok w' e f.
Proof. intros Hb Hf [E1 E2 E3 E4 E5 E6 E7]. split; try done; rewrite ?Hf, ?Hb; done. Qed.

Lemma held_core w w' p : same_core w w' → held w p → held w' p.
Proof.
  intros (Hb & Hc & Hh & Hf & Hd & _) (e & f & He & Hid & Hok & Hact & Hdir). exists e, f.
  unfold active in *. rewrite Hc, Hh, Hd. split_and!; [done..| |done|done]. by eapply entry_ok_core; [| |done]; rewrite ?Hf.
Qed.

Lemma I_core hs w w' : same_core w w' → I hs w → I hs w'.
Proof.
  intros Hcore [Hi Hl Hap]. split; [|intros p Hp; eapply held_core; by eauto|].
  2:{ destruct Hcore as (_ & _ & -> & _). done. }
  destruct Hcore as (Hb & Hc & Hh & Hf & Hd & Hha & Hn), Hi as [? Hs ? ? Hfr ? ?].
  split; unfold active in *; rewrite ?Hb, ?Hc, ?Hh, ?Hf, ?Hd, ?Hha; try done.
  - intros id a Ha. destruct (Hs id a Ha) as (e & f & d & ? & ? & ? & ? & ?). exists e, f, d.
    split_and!; [done..| |done|done]. by eapply entry_ok_core; [| |done]; rewrite ?Hf.
  - intros a Ha. apply Hfr. lia.
Qed.

Lemma pres_core {A} hs (m : cache A) : (∀ w, same_core w (m w).1) → pres hs m.
Proof. intros Hm hs' w _ HI. by eapply I_core. Qed.

Lemma pres_tick hs : pres hs tick.
Proof. apply pres_core. intros w. by repeat split. Qed.

Lemma pres_counters hs (f : BackendState → BackendState) :
  (∀ s, cache_entries (f s) = cache_entries s) → pres hs (emodify (set_state f)).
Proof. intros Hf. apply pres_core. intros w. repeat split; cbn; [apply Hf|lia]. Qed.

(** An entry keeps what it is. *)
Record same_ident (e e' : CacheEntry) : Prop := {
  si_id : ce_cache_id e' = ce_cache_id e;
  si_bs : ce_block_size e' = ce_block_size e;
  si_inode : ce_inode e' = ce_inode e;
  si_region : ce_region_len e' = ce_region_len e;
  si_size : ce_source_size e' = ce_source_size e
}.

Lemma entry_ok_ident w w' e e' f f' : same_ident e e' → entry_ok w e f → wbs w' = wbs w →
  w_files w' !! ce_inode e = Some f' → zlen f' = zlen f →
  (∀ b, b ∈ ce_index e' → block_good (wbs w) (content (ce_cache_id e)) f' b) → entry_ok w' e' f'.
Proof.
  intros [H1 H2 H3 H4 H5] [E1 E2 E3 E4 E5 E6 E7] Hb Hf Hl Hg. split; rewrite ?H1, ?H2, ?H3, ?H4, ?H5, ?Hb; congruence || done.
Qed.

(** One entry changes, its blocks stay those of the file. *)
Lemma I_entry hs w a id e e' : I hs w → (a, id) ∈ hs → w_heap w !! a = Some e → same_ident e e' →
  (∀ f, entry_ok w e f → ∀ b, b ∈ ce_index e' → block_good (wbs w) (content id) f b) →
  (safe → ce_index e ⊆ ce_index e' ∨ ∀ d, w_dirs w !! id = Some d → dir_meta d = None) →
  I hs (set_heap (insert a e') w).
Proof.
  intros [Hi Hl Hap] Hin He Hsi Hgood Hmeta.
  destruct (Hl _ Hin) as (e0 & f & He0 & Hid & Hok & Hact & Hdir). cbn in *. rewrite He in He0. injection He0 as <-.
  assert (∀ f, entry_ok w e f → entry_ok (set_heap (insert a e') w) e' f) as Hok'.
  { intros f1 Hok1. eapply entry_ok_ident; [done|done|done|apply Hok1|done|]. rewrite Hid. by apply Hgood. }
  assert (∀ a1 e1 f1, w_heap w !! a1 = Some e1 → entry_ok w e1 f1 →
    ∃ e2, w_heap (set_heap (insert a e') w) !! a1 = Some e2 ∧ ce_cache_id e2 = ce_cache_id e1
      ∧ ce_inode e2 = ce_inode e1 ∧ entry_ok (set_heap (insert a e') w) e2 f1) as Hany.
  { intros a1 e1 f1 He1 Hok1. cbn. destruct (decide (a1 = a)) as [->|Hne].
    - exists e'. rewrite lookup_insert_eq. rewrite He in He1. injection He1 as <-. destruct Hsi. split_and!; [done..|]. by apply Hok'.
    - exists e1. rewrite lookup_insert_ne by done. split_and!; [done..|]. by eapply entry_ok_core; [| |done]. }
  assert (∀ a1 e1, w_heap (set_heap (insert a e') w) !! a1 = Some e1 →
    ∃ e2, w_heap w !! a1 = Some e2 ∧ ce_inode e1 = ce_inode e2) as Hback.
  { intros a1 e1. cbn. destruct (decide (a1 = a)) as [->|Hne].
    - rewrite lookup_insert_eq. intros [= <-]. exists e. split; [done|apply Hsi].
    - rewrite lookup_insert_ne by done. by exists e1. }
  split.
  - destruct Hi as [? Hs ? ? Hfr ? Hm]. split; try done.
    + intros id1 a1 Ha1. destruct (Hs id1 a1 Ha1) as (e1 & f1 & d1 & He1 & Hid1 & Hok1 & Hd1 & Hdd1).
      destruct (Hany a1 e1 f1 He1 Hok1) as (e2 & ? & ? & ? & ?). exists e2, f1, d1. split_and!; try done; congruence.
    + intros a1 Ha1. destruct (Hfr a1 Ha1) as (H1 & H2 & H3). split_and!; [|done..]. cbn.
      rewrite lookup_insert_ne; [done|]. intros <-. congruence.
    + intros Hsafe id1 d1 raw m Hpm Hd1 Hraw Hfrom. destruct (Hm Hsafe id1 d1 raw m Hpm Hd1 Hraw Hfrom) as (a1 & e1 & Ha1 & He1 & Hw).
      destruct (decide (a1 = a)) as [->|Hne].
      * rewrite He in He1. injection He1 as <-. exists a, e'. cbn. rewrite lookup_insert_eq. split_and!; [done..|].
        destruct (Hs id1 a Ha1) as (e2 & _ & _ & He2 & Hid2 & _). rewrite He in He2. injection He2 as <-.
        destruct (Hmeta Hsafe) as [Hsub|Hno].
        -- destruct Hw. split; [rewrite (si_bs _ _ Hsi); done|]. set_solver.
        -- exfalso. cbn in Hd1. rewrite (Hno d1) in Hraw; [done|]. congruence.
      * exists a1, e1. cbn. by rewrite lookup_insert_ne.
  - intros p Hp. destruct (Hl p Hp) as (e1 & f1 & He1 & Hid1 & Hok1 & Hact1 & Hdir1).
    destruct (Hany p.1 e1 f1 He1 Hok1) as (e2 & ? & ? & Hino & ?). exists e2, f1. split_and!; try done; [congruence|..].
    + intros id' a' e3 Ha' He3 Hino3. destruct (Hback a' e3 He3) as (e4 & He4 & Hino4).
      apply (Hact1 id' a' e4 Ha' He4). congruence.
    + rewrite Hino. apply Hdir1.
  - intros p q e1 e2 Hp Hq He1 He2 Hino. destruct (Hback _ _ He1) as (e3 & He3 & ?), (Hback _ _ He2) as (e4 & He4 & ?).
    apply (Hap p q e3 e4 Hp Hq He3 He4). congruence.
Qed.

(** The data file of a held entry changes outside the blocks it lists. *)
Lemma I_file hs w a id e f f' : I hs w → (a, id) ∈ hs → w_heap w !! a = Some e → entry_ok w e f →
  zlen f' = zlen f → (∀ b, b ∈ ce_index e → block_good (wbs w) (content id) f' b) →
  I hs (set_files (insert (ce_inode e) f') w).
Proof.
  intros [Hi Hl Hap] Hin He Hok0 Hlen Hgood.
  destruct (Hl _ Hin) as (e0 & f0 & He0 & Hid & Hok & Hact & Hdir). cbn in *. rewrite He in He0. injection He0 as <-.
  assert (∀ a1 e1 f1, w_heap w !! a1 = Some e1 → entry_ok w e1 f1 → (ce_inode e1 = ce_inode e → a1 = a) →
    ∃ f2, entry_ok (set_files (insert (ce_inode e) f') w) e1 f2) as Hany.
  { intros a1 e1 f1 He1 Hok1 Hino. destruct (decide (ce_inode e1 = ce_inode e)) as [Heq|Hne].
    - pose proof (Hino Heq) as ->. rewrite He in He1. injection He1 as <-. exists f'.
      eapply (entry_ok_ident w _ e e f f'); [by split|done|done| |done|rewrite Hid; exact Hgood].
      cbn. by rewrite lookup_insert_eq.
    - exists f1. apply (entry_ok_core w); [done| |done]. cbn. by rewrite lookup_insert_ne. }
  split.
  - destruct Hi as [? Hs ? Hda Hfr ? Hm]. split; try done.
    + intros id1 a1 Ha1. destruct (Hs id1 a1 Ha1) as (e1 & f1 & d1 & He1 & Hid1 & Hok1 & Hd1 & Hdd1).
      destruct (Hany a1 e1 f1 He1 Hok1) as (f2 & ?); [by eapply Hact|]. by exists e1, f2, d1.
    + intros id1 d1 i1 Hd1 Hi1. cbn. destruct (decide (i1 = ce_inode e)) as [->|].
      * rewrite lookup_insert_eq. eauto.
      * rewrite lookup_insert_ne by done. by eapply Hda.
    + intros a1 Ha1. destruct (Hfr a1 Ha1) as (H1 & H2 & H3). split_and!; [done| |done]. cbn.
      rewrite lookup_insert_ne; [done|]. intros <-. pose proof (eo_file _ _ _ Hok). congruence.
  - intros p Hp. destruct (Hl p Hp) as (e1 & f1 & He1 & Hid1 & Hok1 & Hact1 & Hdir1).
    destruct (Hany p.1 e1 f1 He1 Hok1) as (f2 & ?).
    { intros Hino. by eapply (Hap p (a, id)). }
    by exists e1, f2.
  - done.
Qed.

End Inv.

#[export] Hint Resolve pres_ret pres_err pres_lift pres_read pres_get_entry pres_get_file pres_get_slot
  pres_tick : cache.
#[export] Hint Extern 1 ((_, _) ∈ _) => first [eassumption | constructor] : cache.
#[export] Hint Extern 1 (same_ident _ _) => by split : cache.

(** Run through the code: lookups in the map add to what is held. *)
Ltac pres :=
  repeat (intros; cbv beta iota zeta; first
    [ solve [eauto with cache]
    | match goal with
      | |- pres _ (ebind (get_cache_entry _) _) => apply pres_get_cache_entry
      | |- pres _ (ebind _ _) => apply pres_bind
      | |- pres _ (catch _) => apply pres_catch
      | |- pres _ _ => case_match; subst
      end ]).

Section Ops.
Context {env : CacheEnv} {env_spec : CacheEnvSpec} {roaring : Roaring} {roaring_spec : RoaringSpec}
  {crc : Crc32c} {crc_spec : Crc32cSpec} {disc : FileDiscard} {disc_spec : FileDiscardSpec}.
Context {model : CacheModel}.

Lemma alter_Some (f : CacheEntry → CacheEntry) (a : Z) (h : gmap Z CacheEntry) e : h !! a = Some e → alter f a h = <[a := f e]> h.
Proof. intros He. apply map_eq. intros a'. destruct (decide (a' = a)) as [->|]; by simplify_map_eq. Qed.

Lemma pres_modify hs a id f : (a, id) ∈ hs → (∀ e, same_ident e (f e)) → (∀ e, ce_index (f e) = ce_index e) →
  pres hs (modify_entry a f).
Proof.
  intros Hin Hsi Hix hs' w Hh HI. destruct (I_held _ _ HI (a, id)) as (e & f' & He & Hid & Hok & _); [by apply Hh|].
  unfold modify_entry, emodify. cbn in *. unfold set_heap. rewrite (alter_Some _ _ _ _ He).
  apply (I_entry hs' w a id e (f e)); [done|by apply Hh|done|done| |].
  - intros f1 Hok1 b. rewrite Hix, <- Hid. apply Hok1.
  - intros _. left. by rewrite Hix.
Qed.

Lemma pres_sys hs op : pres hs (sys op).
Proof. unfold sys. pres. Qed.

Lemma pres_sys_try hs op : pres hs (sys_try op).
Proof. unfold sys_try, sys. pres. Qed.

Lemma pres_now hs : pres hs now_unix_nanos.
Proof. unfold now_unix_nanos. pres. Qed.
#[local] Hint Resolve pres_modify pres_sys pres_sys_try pres_now : cache.

Lemma pres_touch hs a id : (a, id) ∈ hs → pres hs (touch a).
Proof. intros Hin. unfold touch. pres. Qed.
#[local] Hint Resolve pres_touch : cache.

Lemma pres_record_hit hs a id : (a, id) ∈ hs → pres hs (record_hit a).
Proof. intros Hin. unfold record_hit. pres. Qed.

Lemma pres_record_miss hs a id : (a, id) ∈ hs → pres hs (record_miss a).
Proof. intros Hin. unfold record_miss. pres. Qed.

Lemma pres_record_refill hs a id : (a, id) ∈ hs → pres hs (record_refill a).
Proof. intros Hin. unfold record_refill. pres. Qed.

Lemma pres_finish_refill hs a id b : (a, id) ∈ hs → pres hs (finish_refill a b).
Proof. intros Hin. unfold finish_refill. pres. Qed.

Lemma pres_acquire_refill hs a id b : (a, id) ∈ hs → pres hs (acquire_refill a b).
Proof. intros Hin. unfold acquire_refill. pres. Qed.

Lemma pres_set_source_size hs a n : pres hs (set_source_size a n).
Proof. unfold set_source_size. pres. Qed.
#[local] Hint Resolve pres_record_hit pres_record_miss pres_record_refill pres_finish_refill
  pres_acquire_refill pres_set_source_size : cache.

Lemma pres_ensure_range hs off len : pres hs (ensure_range_allocated off len).
Proof. unfold ensure_range_allocated. pres. Qed.

Lemma pres_read_block hs a b : pres hs (entry_read_block a b).
Proof. unfold entry_read_block. pres. Qed.

Lemma pres_mmap_mut hs a b n : pres hs (mmap_mut_for_block a b n).
Proof. unfold mmap_mut_for_block. pres. Qed.
#[local] Hint Resolve pres_ensure_range pres_read_block pres_mmap_mut : cache.

(** ** Directories *)

(** Files are only removed, and not those of entries in the map. *)
Lemma I_dirs hs w ds' : I hs w →
  (∀ id d', ds' !! id = Some d' → ∃ d, w_dirs w !! id = Some d
    ∧ (dir_data d' = dir_data d ∨ dir_data d' = None) ∧ (dir_meta d' = dir_meta d ∨ dir_meta d' = None)) →
  (∀ id a d, active w id a → w_dirs w !! id = Some d → ∃ d', ds' !! id = Some d' ∧ dir_data d' = dir_data d) →
  I hs (set_dirs (λ _, ds') w).
Proof.
  intros [Hi Hl Hap] Hsub Hkeep.
  assert (∀ id d' i, ds' !! id = Some d' → dir_data d' = Some i → ∃ d, w_dirs w !! id = Some d ∧ dir_data d = Some i) as Hdata.
  { intros id d' i Hd' Hi'. destruct (Hsub id d' Hd') as (d & Hd & [?|?] & _); [|congruence]. exists d. split; [done|congruence]. }
  split; [|intros p Hp; destruct (Hl p Hp) as (e & f & He & Hid & Hok & Hact & Hdir)|done].
  - destruct Hi as [? Hs Hinj Hda Hfr ? Hm]. split; try done.
    + intros id a Ha. destruct (Hs id a Ha) as (e & f & d & He & Hid & Hok & Hd & Hdd).
      destruct (Hkeep id a d Ha Hd) as (d' & Hd' & Hdd'). exists e, f, d'. split_and!; try done; [|congruence].
      by apply (entry_ok_core w).
    + intros id1 id2 d1 d2 i H1 H2 Hi1 Hi2. destruct (Hdata _ _ _ H1 Hi1) as (? & ? & ?), (Hdata _ _ _ H2 Hi2) as (? & ? & ?).
      by eapply Hinj.
    + intros id d i Hd Hdi. destruct (Hdata _ _ _ Hd Hdi) as (? & ? & ?). by eapply Hda.
    + intros Hsafe id d raw m Hpm Hd Hraw. destruct (Hsub id d Hd) as (d0 & Hd0 & _ & [Heq|Heq]); [|congruence].
      apply (Hm Hsafe id d0); [done..|congruence].
  - exists e, f. split_and!; try done; [by apply (entry_ok_core w)|]. intros id' d' Hd' Hi'. destruct (Hdata _ _ _ Hd' Hi') as (? & ? & ?). by eapply Hdir.
Qed.

Lemma I_remove_meta hs w id : I hs w →
  I hs (set_dirs (alter (λ d, {| dir_data := dir_data d; dir_meta := None |}) id) w).
Proof.
  intros HI. apply (I_dirs hs w (alter _ id (w_dirs w)) HI).
  - intros id' d'. destruct (decide (id' = id)) as [->|].
    + rewrite lookup_alter_eq. intros (d & Hd & ->)%fmap_Some. exists d. cbn. auto.
    + rewrite lookup_alter_ne by done. exists d'. auto.
  - intros id' a d _ Hd. destruct (decide (id' = id)) as [->|].
    + rewrite lookup_alter_eq, Hd. cbn. eauto.
    + rewrite lookup_alter_ne by done. eauto.
Qed.

(** [remove_dir_all] of a directory that belongs to no entry of the map. *)
Lemma I_remove_dir hs w id : I hs w → (∀ a, ¬ active w id a) → I hs (remove_dir_all id w).1.
Proof.
  intros HI Hna. assert (I hs (tick w).1) as HI' by (by apply (pres_tick []); [set_solver|]).
  unfold remove_dir_all, ebind, tick, emodify. cbv beta iota zeta.
  destruct (env_ok _ _); [|destruct (env_left _) as [dd dm]]; cbn [fst].
  - apply (I_dirs hs _ (delete id (w_dirs w)) HI').
    + intros id' d' [? ?]%lookup_delete_Some. exists d'. auto.
    + intros id' a d Ha Hd. exists d. split; [|done]. apply lookup_delete_Some. split; [|done]. intros <-. by eapply Hna.
  - apply (I_dirs hs _ (alter _ id (w_dirs w)) HI').
    + intros id' d'. destruct (decide (id' = id)) as [->|].
      * rewrite lookup_alter_eq. intros (d & Hd & ->)%fmap_Some. exists d. cbn. destruct dd, dm; auto.
      * rewrite lookup_alter_ne by done. exists d'. auto.
    + intros id' a d Ha Hd. exists d. split; [|done]. rewrite lookup_alter_ne; [done|]. intros <-. by eapply Hna.
Qed.

(** ** Eviction of the blocks of an entry *)

Lemma I_held_entry hs w a id : I hs w → (a, id) ∈ hs →
  ∃ e f, w_heap w !! a = Some e ∧ ce_cache_id e = id ∧ entry_ok w e f.
Proof. intros HI Hin. destruct (I_held _ _ HI _ Hin) as (e & f & ? & ? & ? & _). eauto. Qed.

Lemma I_clear hs w a id e : I hs w → (a, id) ∈ hs → w_heap w !! a = Some e →
  (safe → ∀ d, w_dirs w !! id = Some d → dir_meta d = None) → I hs (set_heap (alter (set_index (λ _, ∅)) a) w).
Proof.
  intros HI Hin He Hno. unfold set_heap. rewrite (alter_Some _ _ _ _ He).
  apply (I_entry hs w a id e (set_index (λ _, ∅) e)); [done..|by split| |auto]. intros f _ b Hb. cbn in Hb. set_solver.
Qed.

(** A range of the data file of an entry that lists no blocks. *)
Lemma I_discard_all hs w a id e f off len : I hs w → (a, id) ∈ hs → w_heap w !! a = Some e → ce_index e = ∅ →
  w_files w !! ce_inode e = Some f → 0 ≤ off → 0 ≤ len →
  I hs (set_files (insert (ce_inode e) (fd_discard f off len)) w).
Proof.
  intros HI Hin He Hix Hf Ho Hl. destruct (I_held_entry _ _ _ _ HI Hin) as (e0 & f0 & He0 & Hid & Hok).
  rewrite He in He0. injection He0 as <-. pose proof (eo_file _ _ _ Hok) as Hf0. rewrite Hf in Hf0. injection Hf0 as <-.
  apply (I_file hs w a id e f); [done..|by apply fd_size|]. rewrite Hix. set_solver.
Qed.

Lemma same_core_refl w : same_core w w.
Proof. by repeat split. Qed.

(** Ticks are nothing to the invariant. *)
Lemma I_bump hs w : I hs w → I hs (bump_tick w).
Proof. apply I_core. by repeat split. Qed.

Lemma pres_entry_evict hs a id : (a, id) ∈ hs → pres hs (entry_evict_all_blocks a).
Proof.
  intros Hin hs' w Hh HI. assert ((a, id) ∈ hs') as Hin' by set_solver.
  destruct (I_held_entry _ _ _ _ HI Hin') as (e & f & He & Hid & Hok).
  unfold entry_evict_all_blocks, modify_entry, remove_meta, release_space. run1. run1. run1.
  set (clear := set_heap (alter (set_index (λ _, ∅)) a)).
  assert (env_ok SysCloneFd (w_tick (clear w)) = false ∨ env_ok SysRemoveMeta (w_tick (bump_tick (clear w))) = false →
    I hs' (clear w)) as Hfail.
  { intros Hf. apply (I_clear hs' w a id e); [done..|]. intros Hsafe.
    destruct Hf as [Hf|Hf]; by rewrite Hsafe in Hf by set_solver. }
  destruct (env_ok SysCloneFd _) eqn:E1; [|apply I_bump; auto].
  repeat run1. destruct (env_ok SysRemoveMeta _) eqn:E2; [|do 2 apply I_bump; auto]. repeat run1. rewrite Hid.
  set (w2 := set_dirs _ _).
  assert (I hs' w2) as H2.
  { apply (I_core hs' (clear (set_dirs (alter (λ d, {| dir_data := dir_data d; dir_meta := None |}) id) w))).
    { by repeat split. }
    apply (I_clear _ _ a id e); [by apply I_remove_meta|done..|]. intros _ d. cbn. rewrite lookup_alter_eq.
    intros (? & _ & ->)%fmap_Some. done. }
  assert (w_heap w2 !! a = Some (set_index (λ _, ∅) e)) as He2 by (cbn; by rewrite lookup_alter_eq, He).
  assert (w_files w2 !! ce_inode e = Some f) as Hf2 by apply (eo_file _ _ _ Hok).
  destruct (0 <? ce_source_size e) eqn:E3; [|done]. repeat run1.
  destruct (env_ok SysPunch _) eqn:E4; [|by apply I_bump]. apply Z.ltb_lt in E3.
  assert (w_files (bump_tick w2) !! ce_inode e = Some f) as Hf3 by done. repeat run1.
  unfold write_file. repeat run1. cbn [eret emodify fst].
  apply (I_discard_all hs' (bump_tick w2) a id (set_index (λ _, ∅) e) f); [by apply I_bump|done..|lia|lia].
Qed.
#[local] Hint Resolve pres_entry_evict : cache.

(** What else an eviction does: the map is not touched, the entry lists no
    blocks, and when all went well its metadata is gone. *)
Lemma entry_evict_run a e f w : w_heap w !! a = Some e → w_files w !! ce_inode e = Some f →
  let '(w', r) := entry_evict_all_blocks a w in
  w_state w' = w_state w ∧ w_opts w' = w_opts w ∧ w_handles w' = w_handles w
  ∧ w_heap w' = <[a := set_index (λ _, ∅) e]> (w_heap w)
  ∧ (∀ n, r = Ok n → n = total_cached_bytes e
       ∧ ∀ d, w_dirs w' !! ce_cache_id e = Some d → dir_meta d = None).
Proof.
  intros He Hf. unfold entry_evict_all_blocks, modify_entry, remove_meta, release_space. repeat run1.
  set (w1 := set_heap _ w).
  assert (w_heap w1 = <[a := set_index (λ _, ∅) e]> (w_heap w)) as Hh by by apply alter_Some.
  destruct (env_ok SysCloneFd _); [|by split_and!]. repeat run1.
  destruct (env_ok SysRemoveMeta _); [|by split_and!]. repeat run1. set (w2 := set_dirs _ _).
  assert (∀ d, w_dirs w2 !! ce_cache_id e = Some d → dir_meta d = None) as Hno.
  { intros d. cbn. rewrite lookup_alter_eq. by intros (? & _ & ->)%fmap_Some. }
  destruct (0 <? ce_source_size e); repeat run1; [|split_and!; try done; by intros n [= <-]].
  destruct (env_ok SysPunch _); repeat run1; [|by split_and!].
  assert (w_files (bump_tick w2) !! ce_inode e = Some f) as Hf2 by done. repeat run1.
  unfold write_file. repeat run1. split_and!; try done. by intros n [= <-].
Qed.

Lemma evict_state_comm a g w :
  entry_evict_all_blocks a (set_state g w)
  = (set_state g (entry_evict_all_blocks a w).1, (entry_evict_all_blocks a w).2).
Proof.
  unfold entry_evict_all_blocks, modify_entry, remove_meta, release_space, sys_try, sys, ebind, get_entry,
    get_file, write_file, tick, eret, eerr, emodify. cbn.
  destruct (w_heap w !! a) as [e|]; [|done]. cbn.
  destruct (env_ok SysCloneFd _); [|done]. cbn.
  destruct (env_ok SysRemoveMeta _); [|done]. cbn.
  destruct (0 <? ce_source_size e); [|done]. cbn.
  destruct (env_ok SysPunch _); [|done]. cbn. by destruct (w_files w !! ce_inode e).
Qed.

(** Entries leave the map. *)
Lemma I_slots hs w s' : I hs w →
  (∀ id a, s' !! id = Some (Active a) → active w id a) →
  (safe → ∀ id a d, active w id a → s' !! id ≠ Some (Active a) → w_dirs w !! id = Some d → dir_meta d = None) →
  I hs (set_state (set_entries (λ _, s')) w).
Proof.
  intros [Hi Hl Hap] Hsub Hno. split.
  - destruct Hi as [? Hs ? ? ? ? Hm]. split; try done.
    + intros id a Ha. destruct (Hs id a (Hsub id a Ha)) as (e & f & d & ? & ? & ? & ? & ?). exists e, f, d.
      split_and!; try done. by apply (entry_ok_core w).
    + intros Hsafe id d raw m Hpm Hd Hraw Hfrom. destruct (Hm Hsafe id d raw m Hpm Hd Hraw Hfrom) as (a & e & Ha & He & Hw).
      exists a, e. split_and!; try done. destruct (decide (s' !! id = Some (Active a))); [done|].
      exfalso. rewrite (Hno Hsafe id a d Ha) in Hraw; done.
  - intros p Hp. destruct (Hl p Hp) as (e & f & He & Hid & Hok & Hact & Hdir). exists e, f.
    split_and!; try done; [by apply (entry_ok_core w)|]. intros id' a' e' Ha'. apply (Hact id'), Hsub, Ha'.
  - done.
Qed.

(** ** Pressure and eviction of the pool *)

Lemma pres_capture hs : pres hs capture_disk_pressure.
Proof. unfold capture_disk_pressure. pres. Qed.

Lemma pres_publish hs d : pres hs (publish_pressure_locked d).
Proof. by apply pres_counters. Qed.

Lemma pres_add_active_counter hs f : (∀ s, cache_entries (f s) = cache_entries s) → pres hs (emodify (set_state f)).
Proof. apply pres_counters. Qed.
#[local] Hint Resolve pres_capture pres_publish : cache.
#[local] Hint Extern 2 (pres _ (emodify (set_state _))) => apply pres_counters; done : cache.

Lemma pres_add_current hs n : pres hs (add_current_bytes n).
Proof. unfold add_current_bytes. pres. Qed.

Lemma pres_subtract_current hs n : pres hs (subtract_current_bytes n).
Proof. unfold subtract_current_bytes. pres. Qed.

Lemma pres_count_evicted hs c n : pres hs (count_evicted c n).
Proof. apply pres_counters. intros s. by destruct c. Qed.

Lemma pres_iter hs : pres hs iter_entries.
Proof. unfold iter_entries. pres. Qed.
#[local] Hint Resolve pres_add_current pres_subtract_current pres_count_evicted pres_iter : cache.

Lemma pres_set_capacity hs n : pres hs (set_capacity_bytes n).
Proof. unfold set_capacity_bytes. pres. Qed.

Lemma pres_evictable hs : pres hs evictable_cache_ids_by_lru.
Proof. unfold evictable_cache_ids_by_lru. pres. Qed.

Lemma pres_idle_open hs n : pres hs (idle_open_cache_ids_by_lru n).
Proof. unfold idle_open_cache_ids_by_lru. pres. Qed.

Lemma pres_evict_open hs id c : pres hs (evict_open_entry_blocks id c).
Proof. unfold evict_open_entry_blocks. pres. Qed.

Lemma pres_drop_entry hs a : pres hs (drop_entry a).
Proof. unfold drop_entry. pres. Qed.
#[local] Hint Resolve pres_evictable pres_idle_open pres_evict_open pres_drop_entry : cache.

Lemma pres_retire hs id : pres hs (retire id).
Proof.
  intros hs' w Hh HI. unfold retire, get_slot. run1.
  destruct (cache_entries (w_state w) !! id) as [[a|]|] eqn:Ha; [|done..]. cbn [option_bind mbind as_active].
  destruct (i_slot w (I_inv _ _ HI) id a Ha) as (e & f & d & He & Hid & Hok & Hd & Hdd). run1.
  destruct (entry_is_busy e); [done|]. unfold put_slot at 1. run1. run1. rewrite evict_state_comm. cbn [fst snd].
  pose proof (entry_evict_run a e f w He (eo_file _ _ _ Hok)) as Hrun.
  assert (I hs' (entry_evict_all_blocks a w).1) as H1.
  { apply (I_drop (a, id)), (pres_entry_evict [(a, id)]) with (id := id); [set_solver|set_solver|]. by apply I_add_active. }
  destruct (entry_evict_all_blocks a w) as [w1 r]. cbn [fst snd] in *.
  destruct Hrun as (Hst & Ho & Hhd & Hhp & Hok1). set (w2 := set_state _ w1).
  assert (w_heap w2 !! a = Some (set_index (λ _, ∅) e)) as He2 by (cbn; rewrite Hhp; apply lookup_insert_eq).
  destruct r as [n|err].
  - destruct (Hok1 n eq_refl) as [_ Hno]. rewrite Hid in Hno.
    assert (I hs' w2) as H2.
    { apply (I_slots hs' w1 (<[id := Evicting]> (cache_entries (w_state w1)))); [done| |].
      - intros id' a' [[-> ?]|[? ?]]%lookup_insert_Some; done.
      - intros _ id' a' d' Ha' Hne Hd'. destruct (decide (id' = id)) as [->|]; [by eapply Hno|].
        by rewrite lookup_insert_ne in Hne. }
    rewrite Hid. unfold ebind at 1. pose proof (I_remove_dir hs' w2 id H2) as H3.
    assert (∀ a', ¬ active w2 id a') as Hna by (intros a'; unfold active; cbn; by rewrite lookup_insert_eq).
    specialize (H3 Hna). destruct (remove_dir_all id w2) as [w3 [[]|err]] eqn:E3; [|done]. cbn [fst] in H3.
    assert (∀ a', ¬ active w3 id a') as Hna3.
    { unfold remove_dir_all in E3. rewrite run_tick in E3. destruct (env_ok _ _); [|destruct (env_left _)]; injection E3 as <-; apply Hna. }
    unfold remove_slot. run1. apply (pres_bind hs'); [apply pres_drop_entry|intros; apply pres_ret|done|].
    apply (I_slots hs' w3 (delete id (cache_entries (w_state w3)))); [done| |].
    + intros id' a' [_ ?]%lookup_delete_Some. done.
    + intros _ id' a' d' Ha' Hne Hd'. exfalso. apply Hne, lookup_delete_Some. split; [|done]. intros <-. by eapply Hna3.
  - run1. cbn. rewrite lookup_insert_eq. unfold put_slot. cbn.
    assert (set_state (set_entries (insert id (Active a))) w2 = w1) as ->; [|done].
    unfold w2, set_state, set_entries. destruct w1 as [o1 s1 h1 f1 d1 ha1 n1 t1]. cbn in *. subst. f_equal.
    destruct (w_state w). cbn in *. by rewrite insert_insert_eq, insert_id.
Qed.
#[local] Hint Resolve pres_retire : cache.

Lemma pres_evict_entry hs id c : pres hs (evict_entry id c).
Proof. unfold evict_entry. pres. Qed.

Lemma pres_force_recycle hs id : pres hs (force_recycle id).
Proof. unfold force_recycle. pres. Qed.
#[local] Hint Resolve pres_evict_entry pres_force_recycle : cache.

Lemma pres_evict_idle_loop hs ids : ∀ d m, pres hs (evict_idle_loop ids d m).
Proof. induction ids; cbn; pres. Qed.

Lemma pres_evict_open_loop hs ids : ∀ d, pres hs (evict_open_loop ids d).
Proof. induction ids; cbn; pres. Qed.

Lemma pres_evict_size_loop hs ids : ∀ d e, pres hs (evict_by_size_loop ids d e).
Proof. induction ids; cbn; pres. Qed.

Lemma pres_evict_global_loop hs ids : pres hs (evict_global_loop ids).
Proof. induction ids; cbn; pres. Qed.
#[local] Hint Resolve pres_evict_idle_loop pres_evict_open_loop pres_evict_size_loop pres_evict_global_loop : cache.

Lemma pres_eviction_inner hs : pres hs eviction_inner.
Proof. unfold eviction_inner. pres. Qed.

Lemma pres_evict_by_size hs n : pres hs (evict_by_size n).
Proof. unfold evict_by_size. pres. Qed.

Lemma pres_evict_store_key hs k : pres hs (evict_store_key k).
Proof. unfold evict_store_key. pres. Qed.

Lemma pres_evict_global hs : pres hs evict_global.
Proof. unfold evict_global. pres. Qed.
End Ops.

#[export] Hint Resolve
  pres_modify pres_sys pres_sys_try pres_now pres_touch pres_record_hit
  pres_record_miss pres_record_refill pres_finish_refill pres_acquire_refill pres_set_source_size pres_ensure_range
  pres_read_block pres_mmap_mut pres_entry_evict pres_capture pres_publish pres_add_current
  pres_subtract_current pres_count_evicted pres_iter pres_evictable pres_idle_open pres_evict_open
  pres_drop_entry pres_retire pres_evict_entry pres_force_recycle pres_evict_idle_loop pres_evict_open_loop
  pres_evict_size_loop pres_evict_global_loop
  pres_eviction_inner pres_evict_by_size pres_evict_store_key pres_evict_global pres_set_capacity : cache.
#[export] Hint Extern 2 (pres _ (emodify (set_state _))) => apply pres_counters; done : cache.
