(* ===== verification/CacheQuery.v ===== *)
(** * The range to refill

    [query_refill_range_for] of [cache_store.rs] finds the hole of a request by
    trimming the cached blocks at both ends; it is compared with its
    definition by the missing blocks. *)

From stdpp Require Import gmap.
From S2P Require Import Prelude LsmtIo Text ZFormat CacheMeta CacheEntry CachePool CacheStore.

Open Scope result_scope.

(** The blocks of [start ..= last] that are not in the index. *)
Definition missing_blocks (index : gset Z) (start n : Z) : list Z :=
  List.filter (λ b, negb (bool_decide (b ∈ index))) (seqZ start n).

(** From the first missing block of the request to the last one. *)
Definition missing_range (index : gset Z) (bs offset size source_size : Z) : option (Z * Z) :=
  let req_end := Z.min (offset + size) source_size in
  if (size =? 0) || (req_end <=? offset) then None
  else
    let start := offset / bs in
    let missing := missing_blocks index start ((req_end - 1) / bs - start + 1) in
    match head missing, last missing with
    | Some m, Some m' => Some (m * bs, Z.min ((m' + 1) * bs) source_size - m * bs)
    | _, _ => None
    end.

Section Trim.
Context (index : gset Z) (bs ss : Z) (bs_pos : 0 < bs).

Definition extent (b : Z) : Z * Z := (b * bs, Z.min ((b + 1) * bs) ss).
Definition extents_of (l : list Z) : list (Z * Z) := extent <$> List.filter (λ b, bool_decide (b ∈ index)) l.
Definition missing_of (l : list Z) : list Z := List.filter (λ b, negb (bool_decide (b ∈ index))) l.

(** Nothing is trimmed before the first extent. *)
Lemma trim_prefix_stop l h : Forall (λ b, h < b * bs) l → (∀ b, b ∈ l → b * bs < ss) → 0 ≤ h →
  trim_prefix (extents_of l) h = h.
Proof.
  intros Hl Hs Hh. unfold extents_of. induction l as [|b l IH]; [done|]. apply Forall_cons in Hl as [Hb Hl].
  assert (b * bs < ss) by (apply Hs; by left). specialize (IH Hl ltac:(intros; apply Hs; by right)).
  cbn. case_bool_decide; [|done]. cbn. by bcases.
Qed.

Lemma trim_prefix_spec n : ∀ k, 0 ≤ k → (∀ b, b ∈ seqZ k (Z.of_nat n) → b * bs < ss) →
  trim_prefix (extents_of (seqZ k (Z.of_nat n))) (k * bs)
  = match head (missing_of (seqZ k (Z.of_nat n))) with
    | Some m => m * bs
    | None => if (n =? 0)%nat then k * bs else Z.min ((k + Z.of_nat n) * bs) ss
    end.
Proof.
  induction n as [|n IH]; intros k Hk Hs; [done|].
  rewrite seqZ_cons in * by lia. replace (Z.pred (Z.of_nat (S n))) with (Z.of_nat n) in * by lia.
  assert (k * bs < ss) as Hks by (apply Hs; by left).
  assert (∀ b, b ∈ seqZ (Z.succ k) (Z.of_nat n) → b * bs < ss) as Hs' by (intros; apply Hs; by right).
  unfold missing_of, extents_of. cbn [List.filter]. case_bool_decide as Hc; cbn [negb].
  - cbn [fmap list_fmap extent trim_prefix].
    destruct (Z.ltb_spec (k * bs) (Z.min ((k + 1) * bs) ss)); [|nia]. rewrite Z.leb_refl.
    destruct n as [|n]; [cbn; f_equal; lia|].
    assert ((k + 1) * bs < ss) by (apply Hs; right; apply elem_of_seqZ; lia).
    rewrite Z.min_l by lia. rewrite <- Z.add_1_r in *. specialize (IH (k + 1) ltac:(lia) Hs').
    unfold extents_of, missing_of in IH. rewrite IH. cbn [Nat.eqb].
    destruct (head _); [done|]. do 2 f_equal. lia.
  - apply (trim_prefix_stop (seqZ (Z.succ k) (Z.of_nat n))); [|done|apply Z.mul_nonneg_nonneg; lia].
    apply Forall_forall. intros b Hb%elem_of_seqZ. apply Z.mul_lt_mono_pos_r; lia.
Qed.

(** Nothing is trimmed after the last extent. *)
Lemma trim_suffix_stop l h : Forall (λ b, Z.min ((b + 1) * bs) ss < h) l → (∀ b, b ∈ l → b * bs < ss) →
  trim_suffix (extents_of l) h = h.
Proof.
  intros Hl Hs. unfold extents_of. induction l as [|b l IH]; [done|]. apply Forall_cons in Hl as [Hb Hl].
  assert (b * bs < ss) by (apply Hs; by left). specialize (IH Hl ltac:(intros; apply Hs; by right)).
  cbn. case_bool_decide; [|done]. cbn.
  destruct (Z.ltb_spec (b * bs) h); [|nia]. destruct (Z.leb_spec h (Z.min ((b + 1) * bs) ss)); [lia|done].
Qed.

Lemma extents_rev l : rev (extents_of l) = extents_of (rev l).
Proof.
  unfold extents_of. induction l as [|b l IH]; [done|]. cbn. rewrite List.filter_app. cbn.
  case_bool_decide; cbn; [by rewrite IH, fmap_app|by rewrite IH, app_nil_r].
Qed.

Lemma trim_suffix_spec n k : 0 ≤ k → (∀ b, b ∈ seqZ k (Z.of_nat n) → b * bs < ss) →
  trim_suffix (rev (extents_of (seqZ k (Z.of_nat n)))) (if (n =? 0)%nat then k * bs else Z.min ((k + Z.of_nat n) * bs) ss)
  = match last (missing_of (seqZ k (Z.of_nat n))) with
    | Some m => Z.min ((m + 1) * bs) ss
    | None => k * bs
    end.
Proof.
  intros Hk. rewrite extents_rev. induction n as [|n IH]; intros Hs; [done|].
  replace (Z.of_nat (S n)) with (Z.of_nat n + 1) in * by lia. rewrite seqZ_app in * by lia.
  change (seqZ (k + Z.of_nat n) 1) with [0 + (k + Z.of_nat n)] in *. rewrite Z.add_0_l in *.
  assert ((k + Z.of_nat n) * bs < ss) as Hl by (apply Hs, elem_of_app; right; by left).
  assert (∀ b, b ∈ seqZ k (Z.of_nat n) → b * bs < ss) as Hs' by (intros; apply Hs, elem_of_app; by left).
  unfold missing_of in *. rewrite rev_app_distr, List.filter_app. cbn [rev app List.filter Nat.eqb].
  unfold extents_of in *. cbn [List.filter]. case_bool_decide as Hc; cbn [negb].
  - rewrite app_nil_r. cbn [fmap list_fmap extent trim_suffix].
    rewrite (proj2 (Z.ltb_lt _ _)) by nia. rewrite (proj2 (Z.leb_le _ _)) by lia.
    rewrite <- (IH Hs'). f_equal. destruct n as [|n]; [cbn; f_equal; lia|]. cbn [Nat.eqb]. lia.
  - rewrite last_snoc. rewrite Z.add_assoc. apply (trim_suffix_stop (rev (seqZ k (Z.of_nat n)))).
    + apply Forall_forall. intros b Hb%list_elem_of_In%in_rev%list_elem_of_In%elem_of_seqZ.
      assert ((b + 1) * bs ≤ (k + Z.of_nat n) * bs) by (apply Z.mul_le_mono_nonneg_r; lia). lia.
    + intros b Hb%list_elem_of_In%in_rev%list_elem_of_In. auto.
Qed.
End Trim.

(** The extents of a request are those of its cached blocks. *)
Lemma cached_extents_of index bs ss sb n : 0 < bs ≤ 2 ^ 63 → 0 ≤ sb → 0 < n → (sb + n - 1) * bs < ss → ss ≤ 2 ^ 44 →
  sb + n ≤ 2 ^ 32 →
  cached_extents index bs ss (sb * bs) (Z.min ((sb + n) * bs) ss) sb (sb + n - 1)
  = extents_of index bs ss (seqZ sb n).
Proof.
  intros Hbs Hsb Hn Hlt Hss H32. unfold cached_extents. rewrite !wrap32_small by lia.
  replace (sb + n - 1 - sb + 1) with n by lia. unfold extents_of, extent.
  assert (∀ b, b ∈ seqZ sb n → 0 ≤ sb ≤ b ∧ b < sb + n) as Hr by (intros b Hb%elem_of_seqZ; lia).
  induction (seqZ sb n) as [|b l IH]; [done|].
  destruct (Hr b ltac:(by left)) as [Hb1 Hb2]. specialize (IH ltac:(intros; apply Hr; by right)).
  assert (b * bs ≤ (sb + n - 1) * bs) by (apply Z.mul_le_mono_nonneg_r; lia).
  assert (sb * bs ≤ b * bs) by (apply Z.mul_le_mono_nonneg_r; lia).
  assert ((b + 1) * bs ≤ (sb + n) * bs) by (apply Z.mul_le_mono_nonneg_r; lia).
  assert (0 ≤ sb * bs) by (apply Z.mul_nonneg_nonneg; lia).
  cbn [omap list_omap List.filter]. case_bool_decide; cbn [negb]; [|done].
  unfold sat_mul, sat_add, U64_MAX. rewrite (Z.min_r _ (b * bs)) by lia. rewrite (Z.min_r _ (b * bs + bs)) by lia.
  replace (b * bs + bs) with ((b + 1) * bs) by lia.
  destruct (Z.leb_spec (Z.min ((b + 1) * bs) ss) (sb * bs)); [nia|].
  destruct (Z.leb_spec (Z.min ((sb + n) * bs) ss) (b * bs)); [nia|]. cbn [orb fmap list_fmap]. f_equal; [|done].
  f_equal; lia.
Qed.

(** The first of a filtered range is its least element. *)
Lemma filter_head_min (p : Z → bool) n : ∀ k m l, List.filter p (seqZ k (Z.of_nat n)) = m :: l →
  ∀ b, b ∈ m :: l → m ≤ b.
Proof.
  induction n as [|n IH]; [done|]. intros k m l. rewrite seqZ_cons by lia.
  replace (Z.pred (Z.of_nat (S n))) with (Z.of_nat n) by lia. cbn. destruct (p k); [|apply IH].
  intros [= <- <-] b [->|Hb]%elem_of_cons; [lia|]. apply elem_of_lfilter in Hb as [Hb%elem_of_seqZ _]. lia.
Qed.

Lemma div_round_up_eq x bs : 0 < x → div_round_up x bs = (x - 1) / bs + 1.
Proof. intros Hx. unfold div_round_up. by destruct (Z.eqb_spec x 0); [lia|]. Qed.

(** The hole the code finds is the reference. *)
Lemma query_refill_range_missing index bs offset size source_size :
  0 < bs ≤ 2 ^ 63 → 0 ≤ offset → 0 ≤ size → offset + size ≤ U64_MAX →
  0 ≤ source_size ≤ 2 ^ 44 → source_size ≤ 2 ^ 32 * bs →
  query_refill_range_for index bs offset size source_size = missing_range index bs offset size source_size.
Proof.
  intros Hbs Ho Hsz Hsum Hss H32. unfold query_refill_range_for, missing_range.
  destruct (Z.eqb_spec size 0); [done|]. unfold checked_add64. fold U64_MAX.
  destruct (Z.leb_spec source_size offset); cbn [orb].
  { destruct (Z.leb_spec (Z.min (offset + size) source_size) offset); [done|lia]. }
  assert ((offset + size <=? U64_MAX) = true) as -> by (by apply Z.leb_le).
  set (req := Z.min (offset + size) source_size). destruct (Z.leb_spec req offset) as [|Hreq]; [lia|].
  set (sb := offset / bs). set (eb := (req - 1) / bs).
  assert (0 ≤ sb) by (apply Z.div_pos; lia). assert (sb ≤ eb) by (apply Z.div_le_mono; lia).
  pose proof (Z.div_mod offset bs ltac:(lia)) as Hdm. pose proof (Z.mod_pos_bound offset bs ltac:(lia)) as Hmb.
  pose proof (Z.div_mod (req - 1) bs ltac:(lia)) as Hdm2. pose proof (Z.mod_pos_bound (req - 1) bs ltac:(lia)) as Hmb2.
  fold sb in Hdm. fold eb in Hdm2. assert (eb * bs < source_size) as Heb by nia.
  assert (eb < 2 ^ 32) as H32' by (apply (Z.mul_lt_mono_pos_r bs); lia).
  unfold align_down. destruct (Z.eqb_spec bs 0) as [|_]; [lia|]. fold sb.
  assert (Z.min (align_up req bs) source_size = Z.min ((sb + (eb - sb + 1)) * bs) source_size) as ->.
  { unfold align_up. destruct (Z.eqb_spec bs 0), (Z.eqb_spec req 0); [lia..|]. cbn [orb].
    rewrite div_round_up_eq by lia. fold eb. unfold sat_mul, U64_MAX. f_equal. rewrite Z.min_r by nia. f_equal. lia. }
  set (ar := Z.min ((sb + (eb - sb + 1)) * bs) source_size).
  assert (sb * bs ≤ eb * bs) by (apply Z.mul_le_mono_nonneg_r; lia).
  destruct (Z.leb_spec ar (sb * bs)) as [|Har]; [nia|]. rewrite Z.div_mul by lia.
  assert (saturating_sub (div_round_up ar bs) 1 = sb + (eb - sb + 1) - 1) as ->.
  { rewrite div_round_up_eq by nia. unfold saturating_sub. assert ((ar - 1) / bs = eb) as ->; [|lia].
    symmetry. apply (Z.div_unique _ _ _ (ar - 1 - bs * eb)); nia. }
  unfold ar. rewrite cached_extents_of by nia. unfold missing_blocks.
  assert (∀ b, b ∈ seqZ sb (Z.of_nat (Z.to_nat (eb - sb + 1))) → b * bs < source_size) as Hall.
  { intros b [? ?]%elem_of_seqZ. assert (b * bs ≤ eb * bs) by (apply Z.mul_le_mono_nonneg_r; lia). lia. }
  pose proof (trim_prefix_spec index bs source_size ltac:(lia) (Z.to_nat (eb - sb + 1)) sb ltac:(lia) Hall) as Hp.
  pose proof (trim_suffix_spec index bs source_size ltac:(lia) (Z.to_nat (eb - sb + 1)) sb ltac:(lia) Hall) as Hq.
  rewrite Z2Nat.id in Hp, Hq, Hall by lia.
  assert ((Z.to_nat (eb - sb + 1) =? 0)%nat = false) as E0 by (apply Nat.eqb_neq; lia). rewrite E0 in Hp, Hq.
  rewrite Hp, Hq. unfold missing_of. destruct (List.filter _ _) as [|m l] eqn:El; cbn [head last].
  - destruct (Z.leb_spec (sb * bs) (Z.min ((sb + (eb - sb + 1)) * bs) source_size)); [done|lia].
  - assert (∃ m', last (m :: l) = Some m') as [m' Hm'] by (apply last_is_Some; done). cbn [last] in Hm'. rewrite Hm'.
    rewrite <- (Z2Nat.id (eb - sb + 1)) in El by lia. pose proof (filter_head_min _ _ _ _ _ El m') as Hle.
    assert (m' ∈ m :: l) as Hin by (by apply last_Some_elem_of). specialize (Hle Hin).
    assert (m' * bs < source_size).
    { apply Hall. rewrite <- (Z2Nat.id (eb - sb + 1)) by lia. rewrite <- El in Hin. by apply elem_of_lfilter in Hin as [? _]. }
    assert (m * bs ≤ m' * bs) by (apply Z.mul_le_mono_nonneg_r; lia).
    destruct (Z.leb_spec (Z.min ((m' + 1) * bs) source_size) (m * bs)); [lia|done].
Qed.

(** C16: The hole the code finds by trimming the cached extents off both ends
    of a request reaches from the first missing block of the request to the last
    one, and there is none exactly when all blocks of the request are cached. *)
Theorem query_refill_range_exact index bs offset size source_size :
  0 < bs ≤ 2 ^ 63 → 0 ≤ offset → 0 ≤ size → offset + size ≤ U64_MAX →
  0 ≤ source_size ≤ 2 ^ 44 → source_size ≤ 2 ^ 32 * bs →
  query_refill_range_for index bs offset size source_size = missing_range index bs offset size source_size.
Proof. apply query_refill_range_missing. Qed.

Lemma query_refill_range_exact_witness :
  query_refill_range_for {[0; 1; 3; 6]} 4096 0 28000 30000 = missing_range {[0; 1; 3; 6]} 4096 0 28000 30000.
Proof. apply query_refill_range_exact; unfold U64_MAX; lia. Defined.
