(* ===== verification/CacheRefill.v ===== *)
(** * Refills keep the cache right

    Fetching blocks from an honest source, with its failures, its short reads
    and what they leave in the data file, keeps the invariant of [CacheInv]. *)

From stdpp Require Import gmap.
From S2P Require Import Prelude LsmtIo Text ZFormat CacheMeta CacheEntry CachePool CacheStore CacheInv CacheQuery.

Open Scope result_scope.

(** The hole that is found lies in the request. *)
Lemma query_inside index bs offset size ss o n : 0 < bs ≤ 2 ^ 63 → 0 ≤ offset → 0 ≤ size →
  0 ≤ ss ≤ 2 ^ 44 → ss ≤ 2 ^ 32 * bs → query_refill_range_for index bs offset size ss = Some (o, n) →
  offset / bs * bs ≤ o ∧ 0 < n ∧ o + n ≤ ss ∧ o mod bs = 0 ∧ offset < o + n.
Proof.
  intros Hbs Ho Hs Hss H32 Hq. destruct (Z.le_gt_cases (offset + size) U64_MAX).
  2:{ unfold query_refill_range_for, checked_add64 in Hq. fold U64_MAX in Hq.
      destruct (_ || _); [done|]. destruct (Z.leb_spec (offset + size) U64_MAX); [lia|done]. }
  rewrite query_refill_range_missing in Hq by done. unfold missing_range in Hq.
  destruct (_ || _) eqn:E; [done|]. apply orb_false_iff in E as [E1 E2]. apply Z.eqb_neq in E1. apply Z.leb_gt in E2.
  set (req := Z.min (offset + size) ss) in *. set (l := missing_blocks _ _ _) in *.
  assert (∀ m, m ∈ l → offset / bs ≤ m ∧ m * bs < ss) as Hl.
  { intros m Hm. apply elem_of_lfilter in Hm as [Hm%elem_of_seqZ _].
    pose proof (Z.mul_div_le (req - 1) bs ltac:(lia)). split; [lia|].
    assert (m * bs ≤ (req - 1) / bs * bs) by (apply Z.mul_le_mono_nonneg_r; lia). lia. }
  destruct l as [|m l'] eqn:El; [done|]. cbn [head] in Hq. destruct (last (m :: l')) as [m'|] eqn:Em; [|done].
  injection Hq as <- <-. destruct (Hl m ltac:(by left)) as [H1 H2].
  destruct (Hl m' ltac:(by apply last_Some_elem_of)) as [H3 H4].
  assert (0 ≤ offset / bs) by (apply Z.div_pos; lia).
  assert (m ≤ m') as Hmm.
  { unfold l, missing_blocks in El. rewrite <- (Z2Nat.id ((req - 1) / bs - offset / bs + 1)) in El.
    - eapply filter_head_min; [exact El|by apply last_Some_elem_of].
    - pose proof (Z.div_le_mono offset (req - 1) bs). lia. }
  assert (m * bs ≤ m' * bs) by (apply Z.mul_le_mono_nonneg_r; lia).
  assert (offset / bs * bs ≤ m * bs) by (apply Z.mul_le_mono_nonneg_r; lia).
  pose proof (Z.mod_pos_bound offset bs ltac:(lia)). pose proof (Z.div_mod offset bs ltac:(lia)).
  assert (offset / bs * bs ≤ m' * bs) by (apply Z.mul_le_mono_nonneg_r; lia).
  split_and!; [done|lia|lia|by apply Z.mod_mul; lia|lia].
Qed.

Section Refill.
Context {env : CacheEnv} {env_spec : CacheEnvSpec} {roaring : Roaring} {roaring_spec : RoaringSpec}
  {crc : Crc32c} {crc_spec : Crc32cSpec} {disc : FileDiscard} {disc_spec : FileDiscardSpec}.
Context {model : CacheModel}.

(** Sizes of a cached file leave room in 64 bits. *)
Lemma block_arith w id b : inv w → 0 ≤ b → b * wbs w < zlen (content id) →
  sat_mul b (wbs w) = b * wbs w ∧ wrap32 b = b ∧ 0 ≤ b * wbs w.
Proof.
  intros Hi Hb Hlt. pose proof (content_small id). pose proof (i_bs w Hi). assert (0 ≤ b * wbs w) by nia.
  unfold sat_mul, U64_MAX. split_and!; [lia| |done]. apply wrap32_small. split; [done|].
  assert (b * 4096 ≤ b * wbs w) by nia. lia.
Qed.

Lemma same_block_splice bs b f data : 0 < bs → 0 ≤ b → zlen data ≤ bs → b * bs + zlen data ≤ zlen f →
  same_but_block bs b f (splice f (b * bs) data).
Proof.
  intros. split; [apply zlen_splice; nia|]. intros p Hp Hout. rewrite byte_at_splice by nia. bcases; done.
Qed.

Lemma same_block_discard bs b f len : 0 < bs → 0 ≤ b → 0 ≤ len ≤ bs →
  same_but_block bs b f (fd_discard f (b * bs) len).
Proof. intros. split; [apply fd_size; nia|]. intros p Hp Hout. apply fd_outside; nia. Qed.

(** The bytes of a block that is not listed may change. *)
Lemma I_unlisted hs w a id e f f' b : I hs w → (a, id) ∈ hs → w_heap w !! a = Some e → entry_ok w e f →
  b ∉ ce_index e → same_but_block (wbs w) b f f' →
  I hs (set_files (insert (ce_inode e) f') w) ∧ entry_ok (set_files (insert (ce_inode e) f') w) e f'.
Proof.
  intros HI Hin He Hok Hb Hsame. pose proof (i_bs w (I_inv _ _ HI)).
  destruct (I_held_entry _ _ _ _ HI Hin) as (e0 & _ & He0 & Hid & _). rewrite He in He0. injection He0 as <-.
  assert (∀ b', b' ∈ ce_index e → block_good (wbs w) (content id) f' b') as Hg.
  { intros b' Hb'. eapply (block_good_other _ _ f f' b); [lia|set_solver|done|].
    rewrite <- Hid. by apply (eo_index _ _ _ Hok). }
  split; [by apply (I_file hs w a id e f); [..|apply Hsame|]|].
  apply (entry_ok_ident w _ e e f f'); [by split|done|done| |apply Hsame|by rewrite Hid].
  cbn. by rewrite lookup_insert_eq.
Qed.

(** A read of the source into the range of a block: whatever comes of it, only
    this block changes, and it is the block of the file when all of it was read. *)
Lemma region_read hs w a id e f source b : I hs w → (a, id) ∈ hs → w_heap w !! a = Some e → entry_ok w e f →
  b ∉ ce_index e → honest (content id) source → 0 ≤ b → b * wbs w < zlen (content id) →
  let '(w', r) := read_into_region a (b * wbs w) (blk_len (wbs w) (zlen (content id)) b) source w in
  I hs w' ∧ w_heap w' = w_heap w ∧ w_opts w' = w_opts w ∧ w_state w' = w_state w
  ∧ ∃ f', entry_ok w' e f'
    ∧ (r = Ok (blk_len (wbs w) (zlen (content id)) b) → block_good (wbs w) (content id) f' b).
Proof.
  intros HI Hin He Hok Hb Hhon Hb0 Hlt. set (bs := wbs w) in *. set (want := blk_len bs _ b).
  pose proof (i_bs w (I_inv _ _ HI)) as Hbs. fold bs in Hbs.
  destruct (I_held_entry _ _ _ _ HI Hin) as (e0 & _ & He0 & Hid & _). rewrite He in He0. injection He0 as <-.
  assert (zlen f = zlen (content id)) as Hlen by (rewrite <- Hid; apply Hok).
  assert (0 ≤ b * bs) by nia. assert (0 < want ≤ bs ∧ b * bs + want ≤ zlen f) as Hw by (unfold want, blk_len; lia).
  unfold read_into_region. run1. destruct (so_read_into source (w_tick w) (b * bs) want) as [buf r] eqn:Es.
  assert (I hs (bump_tick w)) as HI1 by by apply I_bump.
  assert (entry_ok (bump_tick w) e f) as Hok1 by by apply (entry_ok_core w).
  rewrite (run_get_entry a e) by done. rewrite (run_get_file _ f) by apply Hok1. unfold write_file. run1.
  set (f' := splice f (b * bs) (ztake want buf)). set (w' := set_files _ _).
  assert (zlen (ztake want buf) ≤ want) by (rewrite zlen_ztake; lia).
  destruct (I_unlisted hs (bump_tick w) a id e f f' b HI1 Hin He Hok1 Hb) as [HI' Hok'].
  { apply (same_block_splice bs); lia. }
  assert (lift_source r w' = (w', match r with Ok x => Ok x | Err true => Err Enospc | Err false => Err SourceFailed end)) as ->
    by (destruct r as [?|[|]]; done).
  split_and!; [done..|]. exists f'. split; [done|]. intros Hr.
  assert (r = Ok want) as -> by (destruct r as [?|[|]]; congruence).
  destruct (hs_into _ _ Hhon (w_tick w) (b * bs) want want) as (_ & Hbuf & _); [lia|lia|by rewrite Es|].
  rewrite Es in Hbuf. cbn [fst] in Hbuf.
  assert (zlen (ztake want buf) = want) as Hzl by (rewrite Hbuf; apply zlen_slice; lia).
  split_and!; [done..|]. intros p Hp. unfold f'. rewrite byte_at_splice by lia. rewrite Hzl.
  fold want in Hp. bcases. rewrite Hbuf, byte_at_slice by lia. f_equal. lia.
Qed.

(** Giving the range of a block back. *)
Lemma drop_reserved_I hs w a id e f b len armed : I hs w → (a, id) ∈ hs → w_heap w !! a = Some e → entry_ok w e f →
  b ∉ ce_index e → 0 ≤ b → 0 ≤ len ≤ wbs w → I hs (drop_reserved a (b * wbs w) len armed w).1.
Proof.
  intros HI Hin He Hok Hb Hb0 Hlen. pose proof (i_bs w (I_inv _ _ HI)).
  unfold drop_reserved. destruct armed; [|done]. cbn [negb]. run1. run1. cbn [eret fst]. unfold release_space. run1.
  destruct (env_ok SysPunch _); [|by apply I_bump]. rewrite (run_get_file _ f) by apply Hok.
  apply (I_unlisted hs (bump_tick w) a id e f _ b); [by apply I_bump|done|done|by apply (entry_ok_core w)|done|].
  by apply same_block_discard; [lia|..].
Qed.

Lemma mark_I hs w a id e f b : I hs w → (a, id) ∈ hs → w_heap w !! a = Some e → entry_ok w e f →
  wrap32 b = b → block_good (wbs w) (content id) f b → I hs (mark_block_cached a b w).1.
Proof.
  intros HI Hin He Hok Hwr Hg. unfold mark_block_cached, modify_entry, emodify, set_heap. cbn [fst].
  rewrite (alter_Some _ _ _ _ He), Hwr.
  destruct (I_held_entry _ _ _ _ HI Hin) as (e0 & _ & He0 & Hid & _). rewrite He in He0. injection He0 as <-.
  apply (I_entry hs w a id e (set_index (λ s, {[b]} ∪ s) e)); [done..|by split| |].
  - intros f1 Hok1 b1. pose proof (eo_file _ _ _ Hok) as Hf. rewrite (eo_file _ _ _ Hok1) in Hf. injection Hf as ->.
    cbn. intros [->%elem_of_singleton|Hb1]%elem_of_union; [done|]. rewrite <- Hid. by apply (eo_index _ _ _ Hok).
  - intros _. left. cbn. set_solver.
Qed.

(** ** Refilling blocks *)

(** The range of a block of the file in the mapping of its entry. *)
Lemma mmap_mut_run hs w a id e f b : I hs w → (a, id) ∈ hs → w_heap w !! a = Some e → entry_ok w e f →
  0 ≤ b → b * wbs w < zlen (content id) →
  mmap_mut_for_block a b (zlen (content id)) w = (w, Ok (Some (b * wbs w, blk_len (wbs w) (zlen (content id)) b))).
Proof.
  intros HI Hin He Hok Hb0 Hlt. pose proof (i_bs w (I_inv _ _ HI)).
  destruct (I_held_entry _ _ _ _ HI Hin) as (e0 & _ & He0 & Hid & _). rewrite He in He0. injection He0 as <-.
  destruct (block_arith w id b (I_inv _ _ HI) Hb0 Hlt) as (Hsat & Hwr & Hpos).
  unfold mmap_mut_for_block. run1. rewrite (eo_bs _ _ _ Hok), Hsat.
  destruct (Z.leb_spec (zlen (content id)) (b * wbs w)); [lia|].
  assert (Z.min (zlen (content id) - b * wbs w) (wbs w) = blk_len (wbs w) (zlen (content id)) b) as -> by (unfold blk_len; lia).
  destruct (Z.eqb_spec (blk_len (wbs w) (zlen (content id)) b) 0) as [Hz|]; [unfold blk_len in Hz; lia|]. unfold region_ok.
  by rewrite (eo_region _ _ _ Hok), Hid, (proj2 (Z.leb_le _ _)) by (unfold blk_len; lia).
Qed.

(** The reserved part of a refill: only this block changes, and when the fetch
    succeeds it is that of the file. *)
Lemma fetch_run hs w a id e f source b armed : I hs w → (a, id) ∈ hs → w_heap w !! a = Some e → entry_ok w e f →
  b ∉ ce_index e → honest (content id) source → 0 ≤ b → b * wbs w < zlen (content id) →
  let wnt := blk_len (wbs w) (zlen (content id)) b in
  let '(w', r) := with_reserved a (b * wbs w) wnt armed (fetch_block a source (zlen (content id)) b) w in
  I hs w' ∧ (r = Ok tt → w_heap w' = w_heap w ∧ wbs w' = wbs w
    ∧ ∃ f', entry_ok w' e f' ∧ block_good (wbs w) (content id) f' b).
Proof.
  intros HI Hin He Hok Hb Hhon Hb0 Hlt wnt. pose proof (i_bs w (I_inv _ _ HI)).
  destruct (I_held_entry _ _ _ _ HI Hin) as (e0 & _ & He0 & Hid & _). rewrite He in He0. injection He0 as <-.
  destruct (block_arith w id b (I_inv _ _ HI) Hb0 Hlt) as (Hsat & Hwr & Hpos).
  assert (0 < wnt ≤ wbs w ∧ b * wbs w + wnt ≤ zlen (content id)) as Hwnt by (unfold wnt, blk_len; lia).
  assert (fetch_block a source (zlen (content id)) b w =
    (let! n := read_into_region a (b * wbs w) wnt source in
     if negb (n =? wnt) then eerr ShortSourceRead else eret tt) w) as Hf.
  { unfold fetch_block. by rewrite (ebind_ok _ _ _ _ _ (mmap_mut_run hs w a id e f b HI Hin He Hok Hb0 Hlt)). }
  pose proof (region_read hs w a id e f source b HI Hin He Hok Hb Hhon Hb0 Hlt) as Hread. fold wnt in Hread.
  unfold ebind in Hf. destruct (read_into_region a (b * wbs w) wnt source w) as [w2 r].
  destruct Hread as (HI2 & Hh2 & Ho2 & Hs2 & f2 & Hok2 & Hgood).
  assert (w_heap w2 !! a = Some e) as He2 by by rewrite Hh2.
  assert (wbs w2 = wbs w) as Hbs2 by (unfold wbs; by rewrite Ho2).
  assert (∀ err, let '(w', r) := (let! _ := drop_reserved a (b * wbs w) wnt armed in eerr (A := unit) err) w2 in
    I hs w' ∧ r ≠ Ok tt) as Hdrop.
  { intros err. pose proof (drop_reserved_I hs w2 a id e f2 b wnt armed HI2 Hin He2 Hok2 Hb Hb0) as Hd.
    rewrite Hbs2 in Hd. specialize (Hd ltac:(lia)). unfold ebind. by destruct (drop_reserved _ _ _ _ w2) as [? [?|?]]. }
  unfold with_reserved. run1. rewrite Hf.
  destruct r as [n|err]; [destruct (Z.eqb_spec n wnt) as [Hn|]|]; cbn [negb eret eerr fst snd].
  - split; [done|]. intros _. split_and!; [done..|]. exists f2. split; [done|]. apply Hgood. by rewrite Hn.
  - specialize (Hdrop ShortSourceRead). destruct (ebind _ _ w2). by destruct Hdrop.
  - specialize (Hdrop err). destruct (ebind _ _ w2). by destruct Hdrop.
Qed.

(** What a block of a cached file needs. *)
Lemma refill_want w id b : inv w → 0 ≤ b →
  let want := Z.min (saturating_sub (zlen (content id)) (Z.min (sat_mul b (wbs w)) (zlen (content id)))) (wbs w) in
  if b * wbs w <? zlen (content id)
  then Z.min (sat_mul b (wbs w)) (zlen (content id)) = b * wbs w ∧ want = blk_len (wbs w) (zlen (content id)) b ∧ 0 < want
  else want = 0.
Proof.
  intros Hi Hb0. pose proof (i_bs w Hi). pose proof (content_small id). pose proof (zlen_nonneg (content id)).
  assert (0 ≤ b * wbs w) by nia. unfold sat_mul, saturating_sub, U64_MAX, blk_len.
  destruct (Z.ltb_spec (b * wbs w) (zlen (content id))); lia.
Qed.

Lemma do_refill_I hs w a id source b : I hs w → (a, id) ∈ hs → honest (content id) source → 0 ≤ b →
  (∀ e, w_heap w !! a = Some e → wrap32 b ∉ ce_index e) →
  I hs (do_refill_block a source (zlen (content id)) b w).1.
Proof.
  intros HI Hin Hhon Hb0 Hun. destruct (I_held_entry _ _ _ _ HI Hin) as (e & f & He & Hid & Hok).
  pose proof (refill_want w id b (I_inv _ _ HI) Hb0) as Hwant. cbv zeta in Hwant.
  unfold do_refill_block. run1. fold (wbs w). destruct (Z.ltb_spec (b * wbs w) (zlen (content id))) as [Hlt|].
  2:{ by rewrite Hwant. }
  destruct Hwant as (-> & -> & Hw0). set (wnt := blk_len _ _ b) in *. destruct (Z.eqb_spec wnt 0) as [|_]; [lia|].
  destruct (block_arith w id b (I_inv _ _ HI) Hb0 Hlt) as (Hsat & Hwr & Hpos).
  run1. destruct (capacity_bytes _ =? 0); [done|]. destruct (is_full _); [done|].
  unfold reserve_range, ensure_range_allocated. destruct (Z.eqb_spec wnt 0) as [|_]; [lia|]. repeat run1.
  assert (b ∉ ce_index e) as Hb by (rewrite <- Hwr; by apply Hun).
  assert (I hs (bump_tick w)) as HI1 by by apply I_bump.
  assert (entry_ok (bump_tick w) e f) as Hok1 by by apply (entry_ok_core w).
  assert (∀ armed, I hs ((let! _ := with_reserved a (b * wbs w) wnt armed (fetch_block a source (zlen (content id)) b) in
    let! _ := mark_block_cached a b in let! _ := record_refill a in add_current_bytes wnt) (bump_tick w)).1) as Hmain.
  2:{ destruct (env_reserve _); cbn -[ebind]; repeat run1; [apply Hmain..|done]. }
  intros armed. pose proof (fetch_run hs (bump_tick w) a id e f source b armed HI1 Hin He Hok1 Hb Hhon Hb0 Hlt) as Hf.
  change (wbs (bump_tick w)) with (wbs w) in Hf. cbv zeta in Hf. fold wnt in Hf. unfold ebind at 1.
  destruct (with_reserved _ _ _ _ _ _) as [w2 [[]|err]]; destruct Hf as [HI2 Hf]; [|done].
  destruct (Hf eq_refl) as (Hh2 & Hbs2 & f2 & Hok2 & Hgood).
  assert (I hs (mark_block_cached a b w2).1) as HI3.
  { apply (mark_I hs w2 a id e f2); [done|done|by rewrite Hh2|done|done|by rewrite Hbs2]. }
  assert (pres [(a, id)] (let! _ := record_refill a in add_current_bytes wnt)) as Hp by pres.
  apply (Hp hs (mark_block_cached a b w2).1); [set_solver|done].
Qed.

Lemma pres_drop_guard hs a id b : (a, id) ∈ hs → pres hs (drop_refill_guard a b).
Proof. intros Hin. unfold drop_refill_guard, add_active_refills. pres. Qed.
#[local] Hint Resolve pres_drop_guard : cache.

Lemma pres_round hs a id source b retried : (a, id) ∈ hs → honest (content id) source → 0 ≤ b →
  pres hs (refill_block_round a source (zlen (content id)) b retried).
Proof.
  intros Hin Hhon Hb0 hs' w Hh HI. assert ((a, id) ∈ hs') as Hin' by set_solver.
  unfold refill_block_round. run1. destruct (negb _); [by apply I_bump|].
  apply I_bump in HI. revert HI. generalize (bump_tick w). clear w. intros w HI.
  destruct (I_held_entry _ _ _ _ HI Hin') as (e & f & He & Hid & Hok).
  unfold acquire_refill. run1. run1.
  case_bool_decide as Hc; [done|]. case_bool_decide; [done|]. unfold modify_entry. repeat run1.
  unfold add_active_refills. run1. set (w1 := set_state _ _).
  assert (I hs' w1) as HI1.
  { assert (pres hs' (let! _ := modify_entry a (set_block_states (λ s, {[b]} ∪ s)) in add_active_refills 1)) as Hp.
    { unfold add_active_refills. pres. }
    apply (Hp hs' w); [done|done]. }
  run1. assert (I hs' (do_refill_block a source (zlen (content id)) b w1).1) as HI2.
  { apply do_refill_I; [done..|]. intros e' He'. cbn in He'. rewrite lookup_alter_eq, He in He'. by injection He' as <-. }
  revert HI2. generalize (do_refill_block a source (zlen (content id)) b w1). intros [w2 r] HI2. cbn [fst snd] in *.
  match goal with |- I _ (?m w2).1 => assert (pres hs' m) as Hp by pres; by apply (Hp hs' w2) end.
Qed.
#[local] Hint Resolve pres_round : cache.

Lemma pres_one_block hs a id source b : (a, id) ∈ hs → honest (content id) source → 0 ≤ b →
  pres hs (refill_one_block a source (zlen (content id)) b).
Proof. intros. unfold refill_one_block. pres. Qed.
#[local] Hint Resolve pres_one_block : cache.

Lemma pres_refill_blocks hs a id source l : (a, id) ∈ hs → honest (content id) source → Forall (λ b, 0 ≤ b) l →
  pres hs (refill_blocks a source (zlen (content id)) l).
Proof. intros Hin Hhon Hl. induction Hl; cbn; pres. Qed.
#[local] Hint Resolve pres_refill_blocks : cache.

Lemma seqZ_nonneg k n : 0 ≤ k → Forall (λ b, 0 ≤ b) (seqZ k n).
Proof. intros Hk. apply Forall_forall. intros b Hb%elem_of_seqZ. lia. Qed.

(** Reading the block size of the pool. *)
Lemma pres_read_bs {B} hs (k : Z → cache B) : (∀ bs, 0 < bs → pres hs (k bs)) →
  pres hs (let! bs := read_world (λ w, opt_block_size (w_opts w)) in k bs).
Proof. intros Hk hs' w Hh HI. run1. pose proof (i_bs w (I_inv _ _ HI)). by apply Hk; [unfold wbs in *; lia|..]. Qed.

Lemma pres_exact_range hs id source off n : honest (content id) source → 0 ≤ off →
  pres hs (refill_exact_range id source (zlen (content id)) off n).
Proof.
  intros Hhon Hoff. unfold refill_exact_range. destruct (n =? 0); [apply pres_ret|].
  apply pres_get_cache_entry; [apply pres_err|]. intros a. apply pres_read_bs. intros bs Hbs.
  assert (Forall (λ b, 0 ≤ b) (seqZ (off / bs) (div_round_up (sat_add off n) bs - off / bs)))
    by (apply seqZ_nonneg, Z.div_pos; lia). pres.
Qed.
#[local] Hint Resolve pres_exact_range : cache.

(** What the query returns starts in the file. *)
Lemma pres_query {B} hs id off n (k : option (Z * Z) → cache B) : 0 ≤ off → 0 ≤ n →
  (∀ r, (∀ o m, r = Some (o, m) → 0 ≤ o ∧ 0 < m ∧ off < o + m) → pres hs (k r)) →
  pres hs (let! r := query_refill_range id off n (zlen (content id)) in k r).
Proof.
  intros Ho Hn Hk hs' w Hh HI. unfold query_refill_range, get_cache_entry, get_slot. repeat run1.
  destruct (_ ≫= as_active) as [a|] eqn:Ea; [|by apply Hk].
  unfold ebind at 1, ebind at 1. unfold get_entry. destruct (w_heap w !! a) as [e|]; [|done]. run1. cbn [eret].
  apply Hk; [|done..]. intros o m Hq. pose proof (i_bs w (I_inv _ _ HI)). pose proof (content_small id).
  pose proof (zlen_nonneg (content id)). unfold wbs in *.
  apply query_inside in Hq as (Hq1 & Hq2 & Hq3 & Hq4 & Hq5); [|lia..].
  assert (0 ≤ off / opt_block_size (w_opts w)) by (apply Z.div_pos; lia). nia.
Qed.

Lemma pres_refill_range hs id source off n : honest (content id) source → 0 ≤ off → 0 ≤ n →
  pres hs (refill_range id source (zlen (content id)) off n).
Proof.
  intros Hhon Ho Hn. unfold refill_range. apply pres_query; [done..|]. intros [[o m]|] Hr; [|apply pres_ret].
  destruct (Hr o m eq_refl) as (? & ? & ?). by apply pres_exact_range.
Qed.
#[local] Hint Resolve pres_refill_range : cache.

Lemma pres_try_refill_loop hs id source fuel : ∀ cur end_, honest (content id) source → 0 ≤ cur →
  pres hs (try_refill_loop fuel id source (zlen (content id)) cur end_).
Proof.
  induction fuel as [|fuel IH]; intros cur end_ Hhon Hc; cbn [try_refill_loop].
  { destruct (end_ <=? cur); apply pres_ret. }
  destruct (Z.leb_spec end_ cur); [apply pres_ret|]. apply pres_query; [done|unfold saturating_sub; lia|].
  intros [[o m]|] Hr; [|apply pres_ret]. destruct (Hr o m eq_refl) as (? & ? & ?).
  apply pres_bind; [by apply pres_exact_range|]. intros _. destruct (Z.leb_spec (Z.min (sat_add o m) end_) cur); [apply pres_ret|].
  apply IH; [done|]. lia.
Qed.

Lemma pres_try_refill hs id source off n : (∀ s, source = Some s → honest (content id) s) → 0 ≤ off →
  pres hs (try_refill_range id source (zlen (content id)) off n).
Proof.
  intros Hhon Ho. unfold try_refill_range. pres. apply pres_try_refill_loop; auto.
Qed.
End Refill.

#[export] Hint Resolve pres_drop_guard pres_round pres_one_block pres_refill_blocks pres_exact_range
  pres_refill_range pres_try_refill : cache.
