(* ===== verification/CacheRead.v ===== *)
(** * Reads through the cache

    A read of the cache returns the bytes of the file behind it, or an error;
    it succeeds whenever the file can be read. *)

From stdpp Require Import gmap.
From S2P Require Import Prelude LsmtIo Text ZFormat CacheMeta CacheEntry CachePool CacheStore CacheInv CacheQuery CacheRefill.

Open Scope result_scope.

(** The result is [x]; an error is possible unless [must] holds. *)
Definition right {A} (must : Prop) (x : A) (r : result cache_error A) : Prop :=
  match r with Ok y => y = x | Err _ => ¬ must end.

Section Reads.
Context {env : CacheEnv} {env_spec : CacheEnvSpec} {roaring : Roaring} {roaring_spec : RoaringSpec}
  {crc : Crc32c} {crc_spec : Crc32cSpec} {disc : FileDiscard} {disc_spec : FileDiscardSpec}.
Context {model : CacheModel}.

(** [m] keeps the invariant and its result satisfies [Q]. *)
Definition spec {A} (hs : list (Z * str)) (m : cache A) (Q : result cache_error A → Prop) : Prop :=
  ∀ hs' w, hs ⊆ hs' → I hs' w → I hs' (m w).1 ∧ Q (m w).2.

Lemma spec_pres {A} hs (m : cache A) Q : pres hs m → (∀ hs' w, hs ⊆ hs' → I hs' w → Q (m w).2) → spec hs m Q.
Proof. intros Hp Hq hs' w Hh HI. split; [by apply Hp|by eapply Hq]. Qed.

Lemma pres_spec {A} hs (m : cache A) Q : spec hs m Q → pres hs m.
Proof. intros Hs hs' w Hh HI. by destruct (Hs hs' w Hh HI). Qed.

Lemma spec_weaken {A} hs (m : cache A) (Q Q' : result cache_error A → Prop) :
  spec hs m Q → (∀ r, Q r → Q' r) → spec hs m Q'.
Proof. intros Hs HQ hs' w Hh HI. destruct (Hs hs' w Hh HI). auto. Qed.

Lemma spec_ret {A} hs (x : A) (Q : result cache_error A → Prop) : Q (Ok x) → spec hs (eret x) Q.
Proof. intros HQ hs' w Hh HI. done. Qed.

Lemma spec_err {A} hs e (Q : result cache_error A → Prop) : Q (Err e) → spec hs (eerr e) Q.
Proof. intros HQ hs' w Hh HI. done. Qed.

Lemma spec_bind {A B} hs (m : cache A) (k : A → cache B) Q Q' : spec hs m Q →
  (∀ x, Q (Ok x) → spec hs (k x) Q') → (∀ e, Q (Err e) → Q' (Err e)) → spec hs (ebind m k) Q'.
Proof.
  intros Hm Hk He hs' w Hh HI. destruct (Hm hs' w Hh HI) as [HI' HQ]. unfold ebind.
  destruct (m w) as [w' [x|e]]; cbn [fst snd] in *; [by apply Hk|auto].
Qed.

(** Operations that cannot fail, whose result does not matter. *)
Definition total {A} (hs : list (Z * str)) (m : cache A) : Prop := spec hs m (λ r, is_ok r = true).

Lemma spec_then {A B} hs (m : cache A) (k : A → cache B) Q : total hs m → (∀ x, spec hs (k x) Q) → spec hs (ebind m k) Q.
Proof. intros Hm Hk. eapply spec_bind; [exact Hm|auto|done]. Qed.

Lemma total_catch {A} hs (m : cache A) : pres hs m → total hs (catch m).
Proof. intros Hm. apply spec_pres; [by apply pres_catch|]. intros hs' w _ _. unfold catch. by destruct (m w). Qed.

Lemma spec_get_cache_entry {B} hs id (k : option Z → cache B) Q :
  spec hs (k None) Q → (∀ a, spec ((a, id) :: hs) (k (Some a)) Q) → spec hs (ebind (get_cache_entry id) k) Q.
Proof.
  intros Hn Hs hs' w Hh HI. unfold get_cache_entry, get_slot. repeat run1.
  destruct (cache_entries (w_state w) !! id) as [[a|]|] eqn:E; cbn -[ebind]; [|by apply Hn..].
  assert (I ((a, id) :: hs') w) as HI' by by apply I_add_active.
  destruct (Hs a ((a, id) :: hs') w ltac:(set_solver) HI') as [H1 H2]. split; [|done]. by apply (I_drop (a, id)).
Qed.

(** The state of the pool and its block size are at hand. *)
Lemma spec_read_state {B} hs (k : BackendState → cache B) Q : (∀ s, spec hs (k s) Q) → spec hs (ebind (read_world w_state) k) Q.
Proof. intros Hk hs' w Hh HI. run1. by apply Hk. Qed.

Lemma spec_read_bs {B} hs (k : Z → cache B) Q : spec hs (k pool_bs) Q →
  spec hs (ebind (read_world (λ w, opt_block_size (w_opts w))) k) Q.
Proof. intros Hk hs' w Hh HI. run1. pose proof (i_pool_bs w (I_inv _ _ HI)) as Hb. unfold wbs in Hb. rewrite Hb. by apply Hk. Qed.

(** ** Blocks *)

Definition block_bytes (id : str) (b : Z) : list Z :=
  slice (b * pool_bs) (blk_len pool_bs (zlen (content id)) b) (content id).

Lemma zlen_block_bytes id b : 0 ≤ b → b * pool_bs < zlen (content id) →
  zlen (block_bytes id b) = blk_len pool_bs (zlen (content id)) b.
Proof. intros. pose proof pool_bs_range. apply zlen_slice; unfold blk_len; nia. Qed.

(** A cached block, when there is one, is the block of the file. *)
Definition cached_right (id : str) (b : Z) (r : result cache_error (option (list Z))) : Prop :=
  match r with
  | Ok None => True
  | Ok (Some bytes) => bytes = block_bytes id b
  | Err _ => False
  end.

Lemma read_block_spec hs a id b : (a, id) ∈ hs → 0 ≤ b → spec hs (entry_read_block a b) (cached_right id b).
Proof.
  intros Hin Hb0. apply spec_pres; [eauto with cache|]. intros hs' w Hh HI.
  assert ((a, id) ∈ hs') as Hin' by set_solver. apply I_bump in HI. revert HI.
  unfold entry_read_block. run1. destruct (negb _); [done|]. generalize (bump_tick w). clear w. intros w HI.
  destruct (I_held_entry _ _ _ _ HI Hin') as (e & f & He & Hid & Hok). run1.
  case_bool_decide as Hix; [|done]. cbn [negb].
  pose proof (i_bs w (I_inv _ _ HI)) as Hbs. pose proof (content_small id) as Hsm. pose proof (zlen_nonneg (content id)) as Hz.
  rewrite (eo_bs _ _ _ Hok), (eo_size _ _ _ Hok), Hid.
  destruct (Z.leb_spec (zlen (content id)) (sat_mul b (wbs w))) as [|Hlt]; [done|].
  assert (b * wbs w < zlen (content id)) as Hlt' by (unfold sat_mul, U64_MAX in Hlt; lia).
  destruct (block_arith w id b (I_inv _ _ HI) Hb0 Hlt') as (Hsat & Hwr & Hpos). rewrite Hsat. unfold region_ok.
  assert (Z.min (saturating_sub (zlen (content id)) (b * wbs w)) (wbs w) = blk_len (wbs w) (zlen (content id)) b) as ->
    by (unfold saturating_sub, blk_len; lia).
  rewrite (eo_region _ _ _ Hok), Hid, (proj2 (Z.leb_le _ _)) by (unfold blk_len; lia).
  rewrite (run_get_file _ f) by apply Hok. cbn [eret snd cached_right]. unfold block_bytes.
  rewrite <- (i_pool_bs w (I_inv _ _ HI)). rewrite Hwr in Hix.
  pose proof (eo_len _ _ _ Hok) as Hlen. rewrite Hid in Hlen. apply block_good_slice; [lia|done|].
  rewrite <- Hid. by apply (eo_index _ _ _ Hok).
Qed.

Lemma pres_read_cached hs id b : pres hs (read_cached id b).
Proof. unfold read_cached. pres. Qed.

Lemma total_touch hs a : (∃ id, (a, id) ∈ hs) → total hs (touch a).
Proof. intros [id Hin]. apply spec_pres; [eauto with cache|done]. Qed.

Lemma total_record_hit hs a id : (a, id) ∈ hs → total hs (record_hit a).
Proof. intros Hin. apply spec_pres; [eauto with cache|done]. Qed.

Lemma total_record_miss hs a id : (a, id) ∈ hs → total hs (record_miss a).
Proof. intros Hin. apply spec_pres; [eauto with cache|done]. Qed.

Lemma total_record_miss_of hs id : total hs (record_miss_of id).
Proof.
  unfold record_miss_of. apply spec_get_cache_entry; [by apply spec_ret|]. intros a.
  apply (total_record_miss _ a id). by left.
Qed.

Lemma read_cached_spec hs id b : 0 ≤ b → spec hs (read_cached id b) (cached_right id b).
Proof.
  intros Hb0. unfold read_cached. apply spec_get_cache_entry; [by apply spec_ret|]. intros a.
  eapply spec_bind; [apply (read_block_spec _ a id); [by left|done]| |done].
  intros [bytes|] Hr; [|by apply spec_ret]. apply spec_then; [apply (total_record_hit _ a id); by left|].
  intros _. by apply spec_ret.
Qed.

(** A block read from the source. *)
Lemma pread_from_source_spec hs id source b : honest (content id) source → 0 ≤ b → b * pool_bs < zlen (content id) →
  spec hs (pread_from_source source (zlen (content id)) b) (right (reliable (content id) source) (block_bytes id b)).
Proof.
  intros Hhon Hb0 Hlt. pose proof pool_bs_range. pose proof (content_small id).
  unfold pread_from_source. apply spec_read_bs.
  destruct (Z.ltb_spec U64_MAX (b * pool_bs)) as [Hov|_]; [unfold U64_MAX in Hov; lia|].
  destruct (Z.leb_spec (zlen (content id)) (b * pool_bs)); [lia|].
  assert (Z.min (saturating_sub (zlen (content id)) (b * pool_bs)) pool_bs = blk_len pool_bs (zlen (content id)) b) as ->
    by (unfold saturating_sub, blk_len; lia).
  set (want := blk_len _ _ b). assert (0 < want ∧ b * pool_bs + want ≤ zlen (content id)) as Hw by (unfold want, blk_len; lia).
  apply spec_pres.
  { unfold read_source, lift_source. pres. }
  intros hs' w _ _. unfold read_source. run1. assert (0 ≤ b * pool_bs) by nia.
  destruct (so_read_at source (w_tick w) (b * pool_bs) want) as [bytes|err] eqn:Es.
  - cbn -[Z.eqb]. destruct (Z.eqb_spec (zlen bytes) want) as [Hl|Hl]; cbn [negb eret eerr snd right].
    + destruct (hs_at _ _ Hhon (w_tick w) (b * pool_bs) want bytes ltac:(done) ltac:(lia) Es) as (n & Hn & -> & Hn').
      assert (n = want) as ->; [|done]. destruct (Z.eq_dec n 0) as [->|].
      * unfold slice in Hl. rewrite zlen_ztake in Hl. lia.
      * specialize (Hn' ltac:(lia)). by rewrite zlen_slice in Hl by lia.
    + intros Hrel. rewrite (rl_at _ _ Hrel) in Es by lia. injection Es as <-. apply Hl. apply zlen_slice; lia.
  - cbn. destruct err; cbn; intros Hrel; rewrite (rl_at _ _ Hrel) in Es by lia; done.
Qed.

(** ** One block of a read *)

(** When a read has to succeed: its source can be read and may be used. *)
Definition must_read (id : str) (source : option Source) (ctx : ReadCtx) : Prop :=
  cache_only ctx = false ∧ ∃ s, source = Some s ∧ reliable (content id) s.

Definition source_ok (id : str) (source : option Source) : Prop :=
  ∀ s, source = Some s → honest (content id) s.

Lemma try_preadv2_spec hs id source ctx en b : source_ok id source → rc_source_size ctx = zlen (content id) →
  0 ≤ b → b * pool_bs < zlen (content id) →
  spec hs (try_preadv2 id source ctx en b) (right (must_read id source ctx) (block_bytes id b)).
Proof.
  intros Hsrc Hsize Hb0 Hlt. pose proof pool_bs_range. unfold try_preadv2.
  eapply spec_bind; [by apply read_cached_spec| |done]. intros [bytes|] Hr; [by apply spec_ret|]. clear Hr.
  apply spec_then; [apply total_record_miss_of|]. intros _. apply spec_read_state. intros s. apply spec_read_bs.
  assert (0 ≤ sat_mul b pool_bs) by (unfold sat_mul, U64_MAX; nia).
  eapply (spec_bind _ _ _ (λ r, match r with Ok (Some bytes) => bytes = block_bytes id b | Ok None => True
                                        | Err _ => ¬ must_read id source ctx end)).
  - destruct (0 <? capacity_bytes s); [|by apply spec_ret].
    destruct source as [src|]; [|apply spec_err; by intros (_ & ? & ? & _)].
    apply spec_then.
    + destruct (_ && _); [|by apply spec_ret]. apply spec_then; [|intros _; by apply spec_ret].
      apply total_catch. rewrite Hsize. apply pres_refill_range; [by apply Hsrc|lia..].
    + intros _. eapply spec_weaken; [by apply read_cached_spec|]. by intros [[bytes|]|].
  - intros [bytes|] Hr; [by apply spec_ret|]. destruct (cache_only ctx) eqn:Ec.
    { apply spec_err. intros [? _]. congruence. }
    destruct source as [src|]; [|apply spec_err; by intros (_ & ? & ? & _)]. rewrite Hsize.
    eapply spec_weaken; [by apply (pread_from_source_spec hs id); auto|].
    intros [bytes|err]; [done|]. intros Hq (_ & s' & [= <-] & Hrel). by apply Hq.
  - done.
Qed.

Lemma total_query hs id off n ss : total hs (query_refill_range id off n ss).
Proof.
  apply spec_pres; [unfold query_refill_range; pres|]. intros hs' w Hh HI.
  unfold query_refill_range, get_cache_entry, get_slot. repeat run1.
  destruct (cache_entries (w_state w) !! id) as [[a|]|] eqn:Ea; [|done..]. cbn -[ebind].
  destruct (i_slot w (I_inv _ _ HI) id a Ea) as (e & f & d & He & _). by run1.
Qed.

Lemma total_prefill hs id source ctx off want : source_ok id source → rc_source_size ctx = zlen (content id) →
  0 ≤ off → 0 ≤ want → total hs (prefill id source ctx off want).
Proof.
  intros Hsrc Hsize Ho Hw. unfold prefill. apply spec_read_state. intros s. destruct (_ && _); [|by apply spec_ret].
  destruct source as [src|]; [|by apply spec_ret]. apply spec_then; [apply total_query|]. intros r.
  apply spec_then; [destruct r; [apply total_record_miss_of|by apply spec_ret]|]. intros _.
  apply spec_then; [|intros; by apply spec_ret]. apply total_catch. rewrite Hsize.
  apply pres_refill_range; [by apply Hsrc|done..].
Qed.

(** ** The blocks of a read put together *)

(** Where block [k] starts in a read at [offset]. *)
Definition read_pos (offset k : Z) : Z := Z.max 0 (k * pool_bs - offset).

Lemma read_pos_start offset : 0 ≤ offset → read_pos offset (offset / pool_bs) = 0.
Proof.
  intros Ho. pose proof pool_bs_range as Hr. unfold read_pos. set (bs := pool_bs) in *.
  pose proof (Z.mul_div_le offset bs ltac:(lia)). lia.
Qed.

(** The part of a block a read takes. *)
Lemma segment_geometry ss offset want k : 0 ≤ offset → 0 < want → offset + want ≤ ss → ss ≤ 2 ^ 44 →
  offset / pool_bs ≤ k ≤ (offset + want - 1) / pool_bs →
  let sb := offset / pool_bs in
  let eb := (offset + want - 1) / pool_bs in
  let len := blk_len pool_bs ss k in
  let from := if k =? sb then saturating_sub offset (k * pool_bs) else 0 in
  let to := Z.min (if k =? eb then saturating_sub (offset + want) (k * pool_bs) else len) len in
  0 ≤ k ∧ 0 ≤ k * pool_bs ∧ k * pool_bs < ss ∧ 0 ≤ from ≤ to ∧ to ≤ len ∧ k * pool_bs + from = offset + read_pos offset k
  ∧ read_pos offset k + (to - from) = (if k =? eb then want else read_pos offset (k + 1))
  ∧ read_pos offset k + (to - from) ≤ want.
Proof.
  intros Ho Hw Hss H44 Hk. pose proof pool_bs_range as Hr. cbv zeta. unfold read_pos. set (bs := pool_bs) in *. set (sb := offset / bs) in *. set (eb := (offset + want - 1) / bs) in *.
  pose proof (Z.div_mod offset bs ltac:(lia)) as Hd1. pose proof (Z.mod_pos_bound offset bs ltac:(lia)) as Hm1.
  pose proof (Z.div_mod (offset + want - 1) bs ltac:(lia)) as Hd2.
  pose proof (Z.mod_pos_bound (offset + want - 1) bs ltac:(lia)) as Hm2. fold sb in Hd1. fold eb in Hd2.
  assert (0 ≤ sb) by (apply Z.div_pos; lia).
  assert (sb * bs ≤ k * bs ≤ eb * bs) as Hkk by (split; apply Z.mul_le_mono_nonneg_r; lia).
  assert (0 ≤ sb * bs) by nia. unfold blk_len, saturating_sub.
  assert (k ≠ sb → (sb + 1) * bs ≤ k * bs) by (intros; apply Z.mul_le_mono_nonneg_r; lia).
  assert (k ≠ eb → (k + 1) * bs ≤ eb * bs) by (intros; apply Z.mul_le_mono_nonneg_r; lia).
  assert (k = sb → k * bs = sb * bs) by congruence. assert (k = eb → k * bs = eb * bs) by congruence.
  rewrite Z.mul_add_distr_r in *. destruct (Z.eqb_spec k sb), (Z.eqb_spec k eb); lia.
Qed.

Lemma read_blocks_spec hs id source ctx en offset want n : ∀ k out,
  source_ok id source → rc_source_size ctx = zlen (content id) →
  0 ≤ offset → 0 < want → offset + want ≤ zlen (content id) →
  offset / pool_bs ≤ k → k + Z.of_nat n = (offset + want - 1) / pool_bs + 1 → (0 < n)%nat →
  zlen out = want → ztake (read_pos offset k) out = slice offset (read_pos offset k) (content id) →
  spec hs (read_blocks id source ctx en offset (offset + want) pool_bs (offset / pool_bs)
             ((offset + want - 1) / pool_bs) (seqZ k (Z.of_nat n)) out (read_pos offset k))
    (right (must_read id source ctx) (slice offset want (content id), want)).
Proof.
  induction n as [|n IH]; intros k out Hsrc Hsize Ho Hw Hle Hk Hkn Hn Hout Hpre; [lia|].
  pose proof pool_bs_range. pose proof (content_small id).
  set (sb := offset / pool_bs) in *. set (eb := (offset + want - 1) / pool_bs) in *. set (F := content id) in *.
  destruct (segment_geometry (zlen F) offset want k) as (Hk0 & Hkb & Hks & Hft & Htl & Hfrom & Hnext & Hmax); [done..|fold sb eb; lia|].
  fold sb eb in Hft, Htl, Hfrom, Hnext, Hmax.
  rewrite seqZ_cons by lia. replace (Z.pred (Z.of_nat (S n))) with (Z.of_nat n) by lia. cbn [read_blocks].
  eapply spec_bind; [by apply try_preadv2_spec| |done]. intros block Hblock. cbn [right] in Hblock. subst block. rewrite zlen_block_bytes by done.
  rewrite (wrap64_small (k * pool_bs)) by lia. fold F.
  set (len := blk_len pool_bs (zlen F) k) in *. set (from := if k =? sb then _ else 0) in *. set (to := Z.min _ len) in *.
  rewrite (proj2 (Z.leb_le from to)), (proj2 (Z.leb_le to len)) by lia. cbn [andb].
  assert (slice from (to - from) (block_bytes id k) = slice (offset + read_pos offset k) (to - from) F) as Hseg.
  { unfold block_bytes. rewrite slice_slice by (fold F len; lia). by rewrite Hfrom. }
  rewrite Hseg. assert (0 ≤ read_pos offset k) by (unfold read_pos; lia).
  assert (zlen (slice (offset + read_pos offset k) (to - from) F) = to - from) as Hsl by (apply zlen_slice; lia).
  assert (Z.min (sat_add (read_pos offset k) (to - from)) (zlen out) = read_pos offset k + (to - from)) as Hend
    by (unfold sat_add, U64_MAX; lia).
  rewrite Hsl, Hend. unfold saturating_sub. rewrite (ztake_all _ (slice _ _ F)) by lia.
  set (out' := splice out _ _). set (pos := read_pos offset k) in *.
  assert (zlen out' = want) as Hout' by (unfold out'; rewrite zlen_splice; lia).
  assert (ztake (pos + (to - from)) out' = slice offset (pos + (to - from)) F) as Hpre'.
  { unfold out', splice. rewrite Hpre, app_assoc, ztake_app_here by (rewrite zlen_app, !zlen_slice; lia).
    apply slice_slice_app; lia. }
  rewrite Hnext in *. destruct (Z.eqb_spec k eb) as [->|Hne].
  - destruct n; [|lia]. cbn [seqZ read_blocks]. apply spec_ret. cbn [right]. f_equal.
    by rewrite <- Hpre', ztake_all by lia.
  - rewrite <- Z.add_1_r. apply IH; try done; lia.
Qed.

(** ** Whole reads *)

Lemma slice_past {A} (l : list A) off n : zlen l ≤ off → slice off n l = [].
Proof.
  intros Hp. unfold slice, ztake, zdrop, zlen in *. rewrite drop_ge by lia. by rewrite take_nil.
Qed.

Lemma slice_clip {A} (l : list A) off n : 0 ≤ off → slice off n l = slice off (Z.min (zlen l - off) n) l.
Proof.
  intros Ho. unfold slice, ztake. destruct (Z.le_gt_cases n (zlen l - off)); [by rewrite Z.min_r by lia|].
  rewrite Z.min_l by lia. pose proof (zlen_zdrop off l Ho) as Hz. unfold zlen in *. rewrite !take_ge by lia. done.
Qed.

(** The bytes a read at [offset] of at most [len] bytes returns. *)
Lemma do_preadv2_spec hs id source ctx offset len : source_ok id source → rc_source_size ctx = zlen (content id) →
  0 ≤ offset → 0 ≤ len →
  spec hs (do_preadv2_generic id source ctx offset len)
    (right (must_read id source ctx) (slice offset len (content id))).
Proof.
  intros Hsrc Hsize Ho Hlen. unfold do_preadv2_generic. rewrite Hsize. set (F := content id) in *.
  pose proof pool_bs_range. pose proof (content_small id) as Hsm. fold F in Hsm. pose proof (zlen_nonneg F).
  destruct (Z.eqb_spec len 0) as [->|]; [by apply spec_ret|]. destruct (Z.leb_spec (zlen F) offset); cbn [orb].
  { apply spec_ret. cbn [right]. by rewrite slice_past. }
  rewrite slice_clip by done. unfold saturating_sub. rewrite (Z.max_r 0) by lia.
  set (want := Z.min (zlen F - offset) len). assert (0 < want ∧ offset + want ≤ zlen F) as [Hw Hle] by lia.
  destruct (Z.eqb_spec want 0); [lia|]. apply spec_read_bs. unfold checked_add64. fold U64_MAX.
  rewrite (proj2 (Z.leb_le (offset + want) U64_MAX)) by (unfold U64_MAX; lia).
  apply spec_then; [by apply total_prefill; [..|lia]|]. intros did.
  destruct (Z.eqb_spec (offset / pool_bs) ((offset + want - 1) / pool_bs)) as [Heq|Hne].
  - destruct (segment_geometry (zlen F) offset want (offset / pool_bs)) as (Hk0 & Hkb & Hks & Hft & Htl & Hfrom & Hnext & Hmax); [lia..|].
    eapply spec_bind; [by apply try_preadv2_spec| |done]. intros block Hb. cbn [right] in Hb. subst block.
    rewrite zlen_block_bytes, wrap64_small by (done || lia). fold F. rewrite <- Heq in *.
    rewrite ?Z.eqb_refl in Hft, Htl, Hfrom, Hnext, Hmax. unfold saturating_sub in *.
    set (k := offset / pool_bs) in *. set (blen := blk_len pool_bs (zlen F) k) in *.
    assert (read_pos offset k = 0) as Hp0 by by apply read_pos_start.
    rewrite (proj2 (Z.leb_le _ _)), (proj2 (Z.leb_le _ blen)) by lia. cbn [andb]. apply spec_ret. cbn [right].
    unfold block_bytes. rewrite slice_slice by (fold F blen; lia). fold F. f_equal; lia.
  - eapply spec_bind.
    + assert (read_pos offset (offset / pool_bs) = 0) as Hp0 by by apply read_pos_start.
      assert (offset / pool_bs ≤ (offset + want - 1) / pool_bs) by (apply Z.div_le_mono; lia).
      rewrite <- (Z2Nat.id (_ - offset / pool_bs + 1)) by lia. rewrite <- Hp0 at 1.
      apply read_blocks_spec; [done..|lia|lia|lia|rewrite zlen_zeros; lia|]. by rewrite Hp0.
    + intros [out written] [= -> ->]. rewrite Z.eqb_refl. cbn [negb]. apply spec_ret. cbn [right].
      apply ztake_all. rewrite zlen_slice; lia.
    + done.
Qed.

Lemma do_preadv2_into_spec hs id source ctx offset dst : source_ok id source → rc_source_size ctx = zlen (content id) →
  0 ≤ offset →
  spec hs (do_preadv2_into_generic id source ctx offset dst)
    (right (must_read id source ctx)
       (splice dst 0 (slice offset (zlen dst) (content id)), zlen (slice offset (zlen dst) (content id)))).
Proof.
  intros Hsrc Hsize Ho. unfold do_preadv2_into_generic. rewrite Hsize. set (F := content id) in *.
  pose proof pool_bs_range. pose proof (content_small id) as Hsm. fold F in Hsm. pose proof (zlen_nonneg F).
  pose proof (zlen_nonneg dst).
  assert (splice dst 0 [] = dst) as Hsp by reflexivity.
  destruct dst as [|x dst']; [by apply spec_ret|]. set (dst := x :: dst') in *. cbn [is_nil orb].
  assert (0 < zlen dst) by (unfold dst; rewrite zlen_cons; pose proof (zlen_nonneg dst'); lia).
  destruct (Z.leb_spec (zlen F) offset).
  { apply spec_ret. cbn [right]. by rewrite slice_past, Hsp. }
  rewrite slice_clip by done. unfold saturating_sub. rewrite (Z.max_r 0) by lia.
  set (want := Z.min (zlen F - offset) (zlen dst)). assert (0 < want ∧ offset + want ≤ zlen F) as [Hw Hle] by lia.
  destruct (Z.eqb_spec want 0); [lia|]. apply spec_read_bs. unfold checked_add64. fold U64_MAX.
  rewrite (proj2 (Z.leb_le (offset + want) U64_MAX)) by (unfold U64_MAX; lia).
  apply spec_then; [by apply total_prefill; [..|lia]|]. intros did.
  eapply spec_bind.
  - assert (read_pos offset (offset / pool_bs) = 0) as Hp0 by by apply read_pos_start.
    assert (offset / pool_bs ≤ (offset + want - 1) / pool_bs) by (apply Z.div_le_mono; lia).
    rewrite <- (Z2Nat.id (_ - offset / pool_bs + 1)) by lia. rewrite <- Hp0 at 1.
    apply read_blocks_spec; [done..|lia|lia|lia|rewrite zlen_ztake; lia|]. by rewrite Hp0.
  - intros [out written] [= -> ->]. rewrite Z.eqb_refl. cbn [negb]. apply spec_ret. cbn [right].
    f_equal. rewrite zlen_slice; lia.
  - done.
Qed.
End Reads.
