(* ===== verification/CacheOps.v ===== *)
(** * Background refills, checkpoints and evictions keep the cache right *)

From stdpp Require Import gmap.
From S2P Require Import Prelude LsmtIo Text ZFormat CacheMeta CacheEntry CachePool CacheStore CacheFile CacheInv CacheQuery CacheRefill CacheRead.

Open Scope result_scope.

Section Ops.
Context {env : CacheEnv} {env_spec : CacheEnvSpec} {roaring : Roaring} {roaring_spec : RoaringSpec}
  {crc : Crc32c} {crc_spec : Crc32cSpec} {disc : FileDiscard} {disc_spec : FileDiscardSpec}.
Context {model : CacheModel}.

Lemma pres_set_cached_size hs id n : pres hs (set_cached_size id n).
Proof. unfold set_cached_size. pres. Qed.

Lemma pres_store_evict hs id : pres hs (store_evict_all_blocks id).
Proof. unfold store_evict_all_blocks. pres. Qed.
#[local] Hint Resolve pres_set_cached_size pres_store_evict : cache.

(** ** Checkpoints *)

(** The metadata of an entry of the map is written. *)
Lemma I_write_meta hs w id a e d raw : I hs w → active w id a → w_heap w !! a = Some e →
  w_dirs w !! id = Some d → to_bytes (entry_meta e) = Ok raw →
  I hs (set_dirs (insert id {| dir_data := dir_data d; dir_meta := Some raw |}) w).
Proof.
  intros [Hi Hl Hap] Ha He Hd Hraw.
  destruct (i_slot w Hi id a Ha) as (e0 & f & d0 & He0 & Hid & Hok & Hd0 & Hdd).
  rewrite He in He0. injection He0 as <-. rewrite Hd in Hd0. injection Hd0 as <-.
  pose proof (i_bs w Hi) as Hbs. pose proof (content_small id) as Hsm.
  set (d' := {| dir_data := dir_data d; dir_meta := Some raw |}).
  assert (∀ id' d1, <[id := d']> (w_dirs w) !! id' = Some d1 → ∃ d2, w_dirs w !! id' = Some d2 ∧ dir_data d1 = dir_data d2) as Hdata.
  { intros id' d1 [[<- <-]|[? ?]]%lookup_insert_Some; eauto. }
  split; [|intros p Hp; destruct (Hl p Hp) as (e1 & f1 & He1 & Hid1 & Hok1 & Hact & Hdir)|done].
  - destruct Hi as [? Hs Hinj Hda Hfr ? Hm]. split; try done.
    + intros id' a' Ha'. destruct (Hs id' a' Ha') as (e1 & f1 & d1 & He1 & Hid1 & Hok1 & Hd1 & Hdd1).
      destruct (decide (id' = id)) as [->|Hne].
      * exists e1, f1, d'. cbn. rewrite lookup_insert_eq. split_and!; try done; [by apply (entry_ok_core w)|congruence].
      * exists e1, f1, d1. cbn. rewrite lookup_insert_ne by done. split_and!; try done. by apply (entry_ok_core w).
    + intros id1 id2 d1 d2 i H1 H2 Hi1 Hi2. destruct (Hdata _ _ H1) as (x1 & ? & ?), (Hdata _ _ H2) as (x2 & ? & ?).
      apply (Hinj id1 id2 x1 x2 i); congruence.
    + intros id1 d1 i Hd1 Hi1. destruct (Hdata _ _ Hd1) as (x & ? & ?). apply (Hda id1 x i); congruence.
    + intros Hsafe id' d1 raw1 m Hpm Hd1 Hraw1 Hfrom. cbn in Hd1. destruct (decide (id' = id)) as [->|Hne].
      * rewrite lookup_insert_eq in Hd1. injection Hd1 as <-. injection Hraw1 as <-. exists a, e. split_and!; try done.
        apply (meta_reread (entry_meta e)) in Hfrom; [|done|..].
        -- destruct Hfrom as [Hb Hx]. split; [done|by rewrite Hx].
        -- cbn. intros b Hb. destruct (eo_index _ _ _ Hok b Hb) as (? & ? & _). rewrite Hid in *. unfold U32_MAX. nia.
        -- cbn. rewrite (eo_bs _ _ _ Hok). unfold U64_MAX. lia.
      * rewrite lookup_insert_ne in Hd1 by done. by eapply Hm.
  - exists e1, f1. split_and!; try done; [by apply (entry_ok_core w)|]. intros id' d1 Hd1 Hi1.
    destruct (Hdata _ _ Hd1) as (x & ? & ?). apply (Hdir id' x); congruence.
Qed.

Lemma checkpoint_I hs w id a : I hs w → active w id a →
  I hs (checkpoint a w).1 ∧ w_state (checkpoint a w).1 = w_state w.
Proof.
  intros HI Ha. destruct (i_slot w (I_inv _ _ HI) id a Ha) as (e & f & d & He & Hid & Hok & Hd & Hdd).
  unfold checkpoint, write_to_path. repeat run1. rewrite Hid.
  destruct (env_ok SysFsync _); [|split; [by apply I_bump|done]].
  destruct (to_bytes (entry_meta e)) as [raw|err] eqn:Hraw; [|split; [by apply I_bump|done]]. repeat run1.
  destruct (env_ok SysWriteMeta _); [|split; [by do 2 apply I_bump|done]]. repeat run1. cbn [w_dirs bump_tick]. rewrite Hd. repeat run1.
  set (w1 := set_dirs _ _).
  assert (I hs w1) as HI1 by (apply (I_write_meta hs (bump_tick (bump_tick w)) id a e); [by do 2 apply I_bump|done..]).
  split; [|done]. apply (I_drop (a, id)).
  match goal with |- I _ (?m w1).1 => assert (pres [(a, id)] m) as Hp by pres; apply Hp; [set_solver|] end.
  by apply I_add_active.
Qed.

Lemma pres_sync_checkpoint hs id :
  pres hs (let! a := get_cache_entry id in
           match a with None => eret tt | Some a => let! _ := catch (checkpoint a) in eret tt end).
Proof.
  intros hs' w Hh HI. unfold get_cache_entry, get_slot. repeat run1.
  destruct (cache_entries (w_state w) !! id) as [[a|]|] eqn:Ha; [|done..]. cbn -[ebind catch checkpoint]. run1.
  by apply (checkpoint_I hs' w id a).
Qed.

Lemma checkpoint_loop_I hs l : ∀ w, I hs w → Forall (λ a, ∃ id, active w id a) l → I hs (checkpoint_loop l w).1.
Proof.
  induction l as [|a l IH]; intros w HI Hl; [done|]. apply Forall_cons in Hl as [[id Ha] Hl]. cbn [checkpoint_loop]. run1.
  destruct (checkpoint_I hs w id a HI Ha) as [HI' Hs]. apply IH; [done|]. eapply Forall_impl; [done|].
  intros a' [id' Ha']. exists id'. unfold active in *. by rewrite Hs.
Qed.

(** The entries that are listed are in the map. *)
Lemma iter_entries_run w : ∃ l, iter_entries w = (bump_tick w, Ok l)
  ∧ ∀ id a e, (id, (a, e)) ∈ l → active w id a ∧ w_heap w !! a = Some e.
Proof.
  unfold iter_entries. rewrite run_tick. eexists. split; [done|]. intros id a e. cbn.
  intros (id' & _ & Hx)%list_elem_of_omap.
  destruct (cache_entries (w_state w) !! id') as [[a'|]|] eqn:E; try done.
  destruct (w_heap w !! a') as [e'|] eqn:E2; cbn in Hx; [|done]. by injection Hx as -> -> ->.
Qed.

Lemma pres_checkpoint_dirty hs : pres hs checkpoint_dirty_entries.
Proof.
  intros hs' w Hh HI. unfold checkpoint_dirty_entries. destruct (iter_entries_run w) as (l & Hl & Hin).
  rewrite (ebind_ok _ _ _ _ _ Hl). apply checkpoint_loop_I; [by apply I_bump|]. apply Forall_forall.
  intros a (p & -> & Hp)%list_elem_of_fmap. apply elem_of_lfilter in Hp as [Hp _]. destruct p as [id [a e]].
  exists id. by destruct (Hin id a e Hp).
Qed.

(** ** Background refills *)

(** Neighbouring blocks of [lo .. hi]. *)
Definition good_run (lo hi : Z) (r : list Z) : Prop :=
  ∃ k n, 0 < n ∧ r = seqZ k n ∧ lo ≤ k ∧ k + n ≤ hi.

Lemma last_seqZ k n : 0 < n → last (seqZ k n) = Some (k + n - 1).
Proof.
  intros Hn. replace n with (n - 1 + 1) at 1 by lia. rewrite seqZ_snoc, last_snoc by lia. f_equal. lia.
Qed.

Lemma push_run_good lo hi runs b : Forall (good_run lo hi) runs → lo ≤ b < hi → Forall (good_run lo hi) (push_run runs b).
Proof.
  intros Hr Hb. assert (good_run lo hi [b]) as Hone.
  { exists b, 1. split_and!; [lia|done|lia..]. }
  unfold push_run. destruct (rev runs) as [|run before] eqn:E; [by constructor|].
  assert (runs = rev before ++ [run]) as -> by (by rewrite <- (rev_involutive runs), E).
  apply Forall_app in Hr as [Hbefore Hrun]. apply Forall_singleton in Hrun as (k & n & Hn & -> & Hk & Hkn).
  rewrite last_seqZ by done. change (default 0 (Some (k + n - 1))) with (k + n - 1). destruct (Z.eqb_spec (k + n - 1 + 1) b) as [Heq|].
  - apply Forall_app. split; [done|]. apply Forall_singleton. exists k, (n + 1). split_and!; try lia.
    rewrite seqZ_snoc by lia. do 2 f_equal. lia.
  - repeat (apply Forall_app; split); try done; apply Forall_singleton; [|done]. by exists k, n.
Qed.

Lemma acquire_runs_spec hs a id lo hi blocks : ∀ runs, (a, id) ∈ hs → Forall (λ b, lo ≤ b < hi) blocks →
  Forall (good_run lo hi) runs →
  spec hs (acquire_runs a blocks runs) (λ r, ∀ rs, r = Ok rs → Forall (good_run lo hi) rs).
Proof.
  induction blocks as [|b blocks IH]; intros runs Hin Hbl Hr; cbn [acquire_runs].
  { apply spec_ret. by intros rs [= <-]. }
  apply Forall_cons in Hbl as [Hb Hbl].
  eapply (spec_bind _ _ _ (λ _, True)); [apply spec_pres; [by eauto with cache|done]| |done].
  intros [|] _; [by apply IH|]. eapply (spec_bind _ _ _ (λ _, True)); [|intros _ _|done].
  - apply spec_pres; [unfold add_active_refills; pres|done].
  - apply IH; [done..|]. by apply push_run_good.
Qed.

Lemma pres_drop_guards hs a id l : (a, id) ∈ hs → pres hs (drop_guards a l).
Proof. intros Hin. induction l; cbn; pres. Qed.
#[local] Hint Resolve pres_drop_guards : cache.

(** Writing a block of the file into the data file, listed or not. *)
Lemma write_good_I hs w a id e f b : I hs w → (a, id) ∈ hs → w_heap w !! a = Some e → entry_ok w e f →
  0 ≤ b → b * pool_bs < zlen (content id) →
  let f' := splice f (b * pool_bs) (block_bytes id b) in
  I hs (set_files (insert (ce_inode e) f') w) ∧ entry_ok (set_files (insert (ce_inode e) f') w) e f'
  ∧ block_good pool_bs (content id) f' b.
Proof.
  intros HI Hin He Hok Hb0 Hlt f'. pose proof (i_bs w (I_inv _ _ HI)) as Hbs.
  pose proof (i_pool_bs w (I_inv _ _ HI)) as Hpb.
  destruct (I_held_entry _ _ _ _ HI Hin) as (e0 & _ & He0 & Hid & _). rewrite He in He0. injection He0 as <-.
  pose proof (zlen_block_bytes id b Hb0 Hlt) as Hzb. pose proof (eo_len _ _ _ Hok) as Hlen. rewrite Hid in Hlen.
  rewrite Hpb in Hbs. assert (0 ≤ b * pool_bs) as Hpos by nia.
  set (off := b * pool_bs) in *. assert (off + blk_len pool_bs (zlen (content id)) b ≤ zlen f) as Hfit by (unfold blk_len; lia).
  assert (same_but_block pool_bs b f f') as Hsame by (apply (same_block_splice pool_bs b); unfold blk_len in *; lia).
  assert (block_good pool_bs (content id) f' b) as Hgood.
  { split_and!; [done..|]. intros p Hp. fold off in Hp. unfold f'. rewrite byte_at_splice by lia. rewrite Hzb.
    bcases. unfold block_bytes. rewrite byte_at_slice by lia. f_equal. unfold off. lia. }
  assert (∀ b', b' ∈ ce_index e → block_good (wbs w) (content id) f' b') as Hall.
  { intros b' Hb'. rewrite Hpb. destruct (decide (b' = b)) as [->|]; [done|].
    apply (block_good_other _ _ f f' b); [lia|done..|]. rewrite <- Hpb, <- Hid. by apply (eo_index _ _ _ Hok). }
  split_and!; [by apply (I_file hs w a id e f); [..|apply Hsame|]| |done].
  apply (entry_ok_ident w _ e e f f'); [by split|done|done| |apply Hsame|by rewrite Hid]. cbn. by rewrite lookup_insert_eq.
Qed.

Lemma publish_run_I hs a id first read_len run : ∀ w committed, I hs w → (a, id) ∈ hs → 0 ≤ first → 0 ≤ read_len →
  first * pool_bs + read_len ≤ zlen (content id) →
  Forall (λ b, first ≤ b ∧ b * pool_bs < zlen (content id)
     ∧ (b - first) * pool_bs + blk_len pool_bs (zlen (content id)) b ≤ read_len) run →
  I hs (publish_run a (zlen (content id)) pool_bs first (slice (first * pool_bs) read_len (content id)) run committed w).1.
Proof.
  induction run as [|b run IH]; intros w committed HI Hin Hf0 Hr0 Hfit Hrun; [done|].
  apply Forall_cons in Hrun as [(Hfb & Hlt & Hcov) Hrun]. pose proof (content_small id). pose proof pool_bs_range.
  assert (0 ≤ b) as Hb0 by lia. assert (0 ≤ b * pool_bs) by nia. cbn [publish_run].
  rewrite wrap64_small by lia.
  assert (Z.min (saturating_sub (zlen (content id)) (b * pool_bs)) pool_bs = blk_len pool_bs (zlen (content id)) b) as ->
    by (unfold saturating_sub, blk_len; lia).
  destruct (Z.eqb_spec (blk_len pool_bs (zlen (content id)) b) 0) as [Hz|_]; [unfold blk_len in Hz; lia|].
  destruct (I_held_entry _ _ _ _ HI Hin) as (e & f & He & Hid & Hok). pose proof (i_pool_bs w (I_inv _ _ HI)) as Hpb.
  run1. rewrite (mmap_mut_run hs w a id e f b) by (done || by rewrite Hpb). cbn [fst snd]. rewrite Hpb.
  repeat run1. rewrite (run_get_file _ f) by apply Hok. unfold write_file. run1.
  assert (slice ((b - first) * pool_bs) (blk_len pool_bs (zlen (content id)) b) (slice (first * pool_bs) read_len (content id))
    = block_bytes id b) as ->.
  { rewrite slice_slice by nia. unfold block_bytes. f_equal. lia. }
  destruct (write_good_I hs w a id e f b HI Hin He Hok Hb0 Hlt) as (HI1 & Hok1 & Hg1).
  set (w1 := set_files _ w) in *.
  assert (I hs (mark_block_cached a b w1).1) as HI2.
  { eapply (mark_I hs w1 a id e); [done..|exact Hok1| |].
    - apply (block_arith w id b (I_inv _ _ HI) Hb0). by rewrite Hpb.
    - change (wbs w1) with (wbs w). by rewrite Hpb. }
  unfold ebind at 1. destruct (mark_block_cached a b w1) as [w2 [[]|err]]; [|done]. cbn [fst] in HI2.
  assert (pres [(a, id)] (let! _ := record_refill a in drop_refill_guard a b)) as Hp by pres.
  specialize (Hp hs w2 ltac:(set_solver) HI2). rewrite <- run_assoc. unfold ebind at 1.
  destruct ((let! _ := record_refill a in drop_refill_guard a b) w2) as [w3 [[]|err]]; [|done]. cbn [fst] in Hp.
  by apply IH.
Qed.

(** What a complete read leaves in the scratch buffer. *)
Lemma scratch_slice F source t off len : honest F source → 0 ≤ off → 0 ≤ len → off + len ≤ zlen F →
  (so_read_into source t off len).2 = Ok len →
  splice (zeros len) 0 (ztake len (so_read_into source t off len).1) = slice off len F.
Proof.
  intros Hs Ho Hl Hfit Hr. destruct (hs_into _ _ Hs t off len len Ho Hl Hr) as (_ & -> & _).
  assert (zlen (slice off len F) = len) as Hz by (apply zlen_slice; lia).
  apply bytes_ext; [rewrite zlen_splice; rewrite ?zlen_zeros, ?Hz; lia|].
  rewrite zlen_splice by (rewrite ?zlen_zeros, ?Hz; lia). rewrite zlen_zeros by lia. intros p Hp.
  rewrite byte_at_splice by (rewrite ?zlen_zeros, ?Hz; lia). rewrite Hz. bcases. f_equal. lia.
Qed.

(** A run whose blocks are in the file is read and published as the file has it. *)
Lemma pres_refill_block_run hs a id source run : (a, id) ∈ hs → honest (content id) source →
  good_run 0 (div_round_up (zlen (content id)) pool_bs) run →
  pres hs (refill_block_run a source (zlen (content id)) run).
Proof.
  intros Hin Hsrc (k & n & Hn & -> & Hk & Hkn) hs' w Hh HI. apply Hh in Hin. clear Hh hs. rename hs' into hs.
  pose proof (content_small id). pose proof pool_bs_range. pose proof (i_pool_bs w (I_inv _ _ HI)) as Hpb.
  unfold refill_block_run. run1. change (opt_block_size (w_opts w)) with (wbs w). rewrite Hpb, last_seqZ by done.
  assert (head (seqZ k n) = Some k) as -> by (by rewrite seqZ_cons by done).
  change (default 0 (Some k)) with k. change (default 0 (Some (k + n - 1))) with (k + n - 1).
  assert (∀ A (err : cache_error) w, I hs w → I hs ((let! _ := drop_guards a (seqZ k n) in eerr (A := A) err) w).1) as Hfail.
  { intros A err w0 HI0. assert (pres hs (let! _ := drop_guards a (seqZ k n) in eerr (S := World) (A := A) err)) as Hp by pres.
    by apply Hp. }
  assert (0 ≤ zlen (content id)) by (unfold zlen; lia).
  assert ((k + n - 1) * pool_bs < zlen (content id)) as Hlast by (apply div_round_up_block; lia).
  assert (0 ≤ k * pool_bs ≤ (k + n - 1) * pool_bs) as Hkb by nia.
  destruct (Z.ltb_spec U64_MAX (k * pool_bs)); [unfold U64_MAX in *; lia|].
  replace (k + n - 1 - k + 1) with n by lia.
  assert (n * pool_bs = (k + n - 1) * pool_bs - k * pool_bs + pool_bs) as Hnb by ring.
  assert (0 ≤ n * pool_bs) by nia. assert (wrap64 (n * pool_bs) = n * pool_bs) as -> by (apply wrap64_small; lia).
  set (read_len := Z.min _ _). assert (0 < read_len ∧ k * pool_bs + read_len ≤ zlen (content id)) as [Hrl Hfit]
    by (unfold read_len, saturating_sub; lia).
  destruct (Z.eqb_spec read_len 0); [lia|]. run1. apply I_bump in HI.
  destruct (so_read_into source (w_tick w) (k * pool_bs) read_len) as [buf r] eqn:Er.
  destruct r as [m|enospc]; [|by apply Hfail]. destruct (Z.eqb_spec m read_len) as [->|]; [|by apply Hfail]. cbn [negb].
  pose proof (scratch_slice (content id) source (w_tick w) (k * pool_bs) read_len Hsrc (proj1 Hkb) (Z.lt_le_incl _ _ Hrl) Hfit) as Hsc.
  rewrite Er in Hsc. cbn [fst] in Hsc. rewrite (Hsc eq_refl). run1.
  pose proof (pres_ensure_range hs (k * pool_bs) read_len hs _ ltac:(done) HI) as HI1.
  destruct (ensure_range_allocated _ _ _) as [w1 [x|err]]; cbn [fst snd] in HI1 |- *; [|by apply Hfail].
  apply (publish_run_I hs a id k read_len (seqZ k n) w1 0) in HI1; [|done|lia..|].
  - unfold ebind at 1. destruct (publish_run _ _ _ _ _ _ _ _) as [w2 [c|err]]; [|done]. cbn [fst] in HI1.
    assert (pres hs (let! _ := (if 0 <? c then add_current_bytes c else eret tt) in eret (S := World) (E := cache_error) read_len)) as Hp
      by (destruct (0 <? c); pres).
    by apply Hp.
  - apply Forall_forall. intros b Hb%elem_of_seqZ. assert (b * pool_bs ≤ (k + n - 1) * pool_bs) by nia.
    split_and!; [lia..|]. unfold read_len, blk_len, saturating_sub. nia.
Qed.

Lemma pres_refill_runs hs a id source runs : ∀ n, (a, id) ∈ hs → honest (content id) source →
  Forall (good_run 0 (div_round_up (zlen (content id)) pool_bs)) runs →
  pres hs (refill_runs a source (zlen (content id)) runs n).
Proof.
  induction runs as [|run runs IH]; intros n Hin Hs Hr; cbn [refill_runs]; [pres|].
  apply Forall_cons in Hr as [Hrun Hr]. apply pres_bind; [by apply pres_catch, pres_refill_block_run|].
  intros [m|err]; [by apply IH|pres].
Qed.
End Ops.

(** ** The chunks of a background download *)

(** A chunk inside [lo .. hi) with a block that is not in the bitmap. *)
Definition chunk_wanted (index : gset Z) (lo hi per_chunk : Z) (c : Z * Z) : Prop :=
  lo ≤ c.1 ∧ 0 < c.2 ≤ per_chunk ∧ c.1 + c.2 ≤ hi ∧ ∃ b, c.1 ≤ b < c.1 + c.2 ∧ wrap32 b ∉ index.

Lemma any_missing (index : gset Z) start len :
  existsb (λ b, negb (bool_decide (wrap32 b ∈ index))) (seqZ start len) = true
  ↔ ∃ b, start ≤ b < start + len ∧ wrap32 b ∉ index.
Proof.
  rewrite existsb_exists. split.
  - intros (b & Hb%list_elem_of_In%elem_of_seqZ & Hn%negb_true_iff%bool_decide_eq_false). exists b. split; [lia|done].
  - intros (b & Hb & Hn). exists b. split; [apply list_elem_of_In, elem_of_seqZ; lia|].
    by apply negb_true_iff, bool_decide_eq_false.
Qed.

Lemma chunk_loop_spec fuel : ∀ index start n per_chunk, 0 < per_chunk → n - start ≤ Z.of_nat fuel →
  let cs := chunk_loop fuel index start n per_chunk in
  Forall (chunk_wanted index start n per_chunk) cs
  ∧ StronglySorted (λ c c', c.1 + c.2 ≤ c'.1) cs
  ∧ ∀ b, start ≤ b < n → wrap32 b ∉ index → ∃ c, c ∈ cs ∧ c.1 ≤ b < c.1 + c.2.
Proof.
  induction fuel as [|fuel IH]; intros index start n per_chunk Hp Hf; cbn [chunk_loop]; destruct (Z.leb_spec n start).
  1-3: split_and!; [by constructor..|intros b Hb; exfalso; lia].
  remember (Z.min (n - start) per_chunk) as len eqn:Hlen.
  destruct (IH index (start + len) n per_chunk Hp ltac:(lia)) as (Hw & Hs & Hc). set (rest := chunk_loop fuel _ _ _ _) in *.
  assert (Forall (chunk_wanted index start n per_chunk) rest) as Hw'.
  { eapply Forall_impl; [exact Hw|]. intros c (? & ? & ? & ?). split_and!; [lia..|done]. }
  destruct (existsb _ _) eqn:E.
  - apply any_missing in E. split_and!.
    + constructor; [|done]. unfold chunk_wanted. cbn [fst snd]. split_and!; [lia..|done].
    + constructor; [done|]. eapply Forall_impl; [exact Hw|]. intros c (? & _). cbn. lia.
    + intros b Hb Hn. destruct (Z.lt_ge_cases b (start + len)).
      * exists (start, len). split; [left|cbn; lia].
      * destruct (Hc b) as (c & Hin & ?); [lia|done|]. exists c. split; [by right|done].
  - split_and!; [done..|]. intros b Hb Hn. apply Hc; [|done]. destruct (Z.lt_ge_cases b (start + len)); [|lia].
    exfalso. apply not_true_iff_false in E. apply E, any_missing. exists b. split; [lia|done].
Qed.

Section Chunks.
Context `{CacheEnv}.

(** The chunks of a background download. *)
Lemma actionable_chunks_spec w h f source_size per_chunk cs w' :
  w_handles w !! h = Some f → 0 ≤ source_size → 0 < opt_block_size (w_opts w) →
  actionable_background_chunks h source_size per_chunk w = (w', Ok cs) →
  w' = w ∧ ∃ a e, cache_entries (w_state w) !! cf_cache_id f = Some (Active a) ∧ w_heap w !! a = Some e
  ∧ Forall (chunk_wanted (ce_index e) 0 (div_round_up source_size (opt_block_size (w_opts w))) (Z.max per_chunk 1)) cs
  ∧ StronglySorted (λ c c', c.1 + c.2 ≤ c'.1) cs
  ∧ ∀ b, 0 ≤ b → b * opt_block_size (w_opts w) < source_size → b ∉ ce_index e → ∃ c, c ∈ cs ∧ c.1 ≤ b < c.1 + c.2.
Proof.
  intros Hf Hss Hbs. unfold actionable_background_chunks, get_handle, ebind at 1. rewrite Hf. run1.
  unfold background_block_count. set (n := div_round_up _ _). destruct (Z.leb_spec n (U32_MAX + 1)) as [Hn|]; [|done].
  rewrite (ebind_ok _ _ w w n) by done. unfold get_cache_entry, get_slot. repeat run1.
  destruct (cache_entries (w_state w) !! cf_cache_id f) as [[a|]|] eqn:Ea; try done. cbn [as_active mbind option_bind].
  unfold get_entry, ebind at 1. destruct (w_heap w !! a) as [e|] eqn:He; [|done]. intros [= <- <-]. split; [done|].
  exists a, e. pose proof (div_round_up_nonneg source_size _ Hss Hbs) as Hn0. fold n in Hn0.
  destruct (chunk_loop_spec (Z.to_nat n) (ce_index e) 0 n (Z.max per_chunk 1)) as (Hw & Hs & Hc); [lia..|].
  split_and!; [done..|]. intros b Hb Hlt Hin. apply Hc; [split; [done|by apply div_round_up_block]|].
  rewrite wrap32_small; [done|]. apply (div_round_up_block source_size) in Hlt; [|done..]. fold n in Hlt. unfold U32_MAX in *. lia.
Qed.

(** C18: The chunks a background download works on are in order, do not
    overlap, are not longer than asked for, each have a block that is missing,
    and together have every missing block of the file. *)
Theorem background_chunks_cover w h f source_size per_chunk cs w' :
  w_handles w !! h = Some f → 0 ≤ source_size → 0 < opt_block_size (w_opts w) →
  actionable_background_chunks h source_size per_chunk w = (w', Ok cs) →
  w' = w ∧ ∃ a e, cache_entries (w_state w) !! cf_cache_id f = Some (Active a) ∧ w_heap w !! a = Some e
  ∧ Forall (chunk_wanted (ce_index e) 0 (div_round_up source_size (opt_block_size (w_opts w))) (Z.max per_chunk 1)) cs
  ∧ StronglySorted (λ c c', c.1 + c.2 ≤ c'.1) cs
  ∧ ∀ b, 0 ≤ b → b * opt_block_size (w_opts w) < source_size → b ∉ ce_index e → ∃ c, c ∈ cs ∧ c.1 ≤ b < c.1 + c.2.
Proof. apply actionable_chunks_spec. Qed.
End Chunks.
