(* ===== verification/CacheHandle.v ===== *)
(** * What the operations of a cached file keep and return

    The handles of [CacheFile]: reads through a handle return the bytes of the
    file behind it, and the refills, prefetches, checkpoints and evictions a
    handle starts keep the invariant of [CacheInv]. *)

From stdpp Require Import gmap.
From S2P Require Import Prelude LsmtIo Text ZFormat CacheMeta CacheEntry CachePool CacheStore CacheFile CacheInv CacheQuery CacheRefill CacheRead CacheOps.

Open Scope result_scope.

Section Handles.
Context {env : CacheEnv} {env_spec : CacheEnvSpec} {roaring : Roaring} {roaring_spec : RoaringSpec}
  {crc : Crc32c} {crc_spec : Crc32cSpec} {disc : FileDiscard} {disc_spec : FileDiscardSpec}.
Context {model : CacheModel}.

(** A handle knows the size of its file. *)
Definition handle_ok (f : CachedFile) : Prop :=
  cf_source_size f = zlen (content (cf_cache_id f)) ∧ source_ok (cf_cache_id f) (cf_source f).

Lemma I_handle hs w h f : I hs w → w_handles w !! h = Some f → handle_ok f.
Proof. intros HI Hf. apply (i_handles w (I_inv _ _ HI) h f Hf). Qed.

Lemma run_get_handle {B} h f (k : CachedFile → cache B) w : w_handles w !! h = Some f → ebind (get_handle h) k w = k f w.
Proof. intros Hf. unfold ebind, get_handle. by rewrite Hf. Qed.

Lemma pres_get_handle {B} hs h (k : CachedFile → cache B) : (∀ f, handle_ok f → pres hs (k f)) →
  pres hs (ebind (get_handle h) k).
Proof.
  intros Hk hs' w Hh HI. unfold ebind, get_handle. destruct (w_handles w !! h) as [f|] eqn:Ef; [|done].
  apply Hk; [by eapply I_handle|done..].
Qed.

(** The size a handle reports is that of the file, which is asked again for
    ranges past it. *)
Lemma tryget_run hs w h f offset count : I hs w → w_handles w !! h = Some f →
  ∃ w', (w' = w ∨ w' = bump_tick w) ∧
    (tryget_size h offset count w = (w', Ok (zlen (content (cf_cache_id f))))
     ∨ ∃ err s, tryget_size h offset count w = (w', Err err) ∧ cf_source f = Some s
         ∧ ¬ reliable (content (cf_cache_id f)) s).
Proof.
  intros HI Hf. destruct (I_handle hs w h f HI Hf) as [Hsz Hsrc]. unfold tryget_size.
  setoid_rewrite (run_get_handle h f); [|done..]. rewrite <- Hsz. destruct (_ && _); [|exists w; by eauto].
  destruct (cf_source f) as [s|] eqn:Es; [|exists w; by eauto]. exists (bump_tick w). split; [by right|].
  setoid_rewrite run_tick.
  destruct (so_size s (w_tick w)) as [n|err] eqn:En.
  - left. pose proof (hs_size _ _ (Hsrc s eq_refl) _ _ En) as ->. rewrite Hsz. cbn [lift_source]. run1. by rewrite Z.eqb_refl.
  - right. destruct err; eexists _, s; (split_and!; [done..|]); intros Hr; rewrite (rl_size _ _ Hr) in En; done.
Qed.

Lemma tryget_I hs w h offset count : I hs w → I hs (tryget_size h offset count w).1.
Proof.
  intros HI. destruct (w_handles w !! h) as [f|] eqn:Ef.
  - destruct (tryget_run hs w h f offset count HI Ef) as (w' & Hw' & [->|(err & s & -> & _)]);
      destruct Hw' as [->| ->]; by try apply I_bump.
  - unfold tryget_size, get_handle, ebind at 1. by rewrite Ef.
Qed.

Lemma pres_tryget hs h offset count : pres hs (tryget_size h offset count).
Proof. intros hs' w _ HI. by apply tryget_I. Qed.
#[local] Hint Resolve pres_tryget : cache.

(** When a read has to succeed: reads of the source do not fail, and nothing
    says that only the cache is read. *)
Definition must_read_at (f : CachedFile) (rw_flags : Z) : Prop :=
  must_read (cf_cache_id f) (cf_source f)
    {| rc_source_size := cf_source_size f; rc_open_flags := cf_open_flags f; rc_rw_flags := rw_flags |}.

(** The size, and then an operation on the handle with that size. *)
Lemma sized_spec {B} hs w h f offset count (k : Z → CachedFile → cache B) must x :
  I hs w → w_handles w !! h = Some f → (must → ∀ s, cf_source f = Some s → reliable (content (cf_cache_id f)) s) →
  spec hs (k (zlen (content (cf_cache_id f))) f) (right must x) →
  let r := (let! size := tryget_size h offset count in let! f := get_handle h in k size f) w in
  I hs r.1 ∧ right must x r.2.
Proof.
  intros HI Hf Hmust Hk. destruct (tryget_run hs w h f offset count HI Hf) as (w' & Hw' & Hrun).
  assert (I hs w' ∧ w_handles w' !! h = Some f) as [HI' Hf'] by (destruct Hw' as [->| ->]; by try (split; [apply I_bump|])).
  destruct Hrun as [Hrun|(err & s & Hrun & Hs & Hnot)]; unfold ebind at 1; rewrite Hrun; cbn [fst snd].
  - unfold ebind, get_handle. rewrite Hf'. by apply Hk.
  - split; [done|]. cbn. intros Hm. by apply Hnot, Hmust.
Qed.

Lemma must_read_source id source ctx : must_read id source ctx → ∀ s, source = Some s → reliable (content id) s.
Proof. intros (_ & s & -> & Hr) s' [= <-]. done. Qed.

Lemma read_at_right hs w h f offset len rw_flags : I hs w → w_handles w !! h = Some f → 0 ≤ offset → 0 ≤ len →
  let r := read_at_with_flags h offset len rw_flags w in
  I hs r.1 ∧ right (must_read_at f rw_flags) (slice offset len (content (cf_cache_id f))) r.2.
Proof.
  intros HI Hf Ho Hl. destruct (I_handle hs w h f HI Hf) as [Hsz Hsrc]. unfold must_read_at. rewrite Hsz.
  unfold read_at_with_flags. apply (sized_spec hs w h f offset len (λ size f, do_preadv2_generic (cf_cache_id f) (cf_source f)
    {| rc_source_size := size; rc_open_flags := cf_open_flags f; rc_rw_flags := rw_flags |} offset len)); [done..| |].
  - apply must_read_source.
  - by apply do_preadv2_spec.
Qed.

Lemma read_at_into_right hs w h f offset dst : I hs w → w_handles w !! h = Some f → 0 ≤ offset →
  let r := read_at_into h offset dst w in
  I hs r.1 ∧ right (must_read_at f 0) (splice dst 0 (slice offset (zlen dst) (content (cf_cache_id f))),
    zlen (slice offset (zlen dst) (content (cf_cache_id f)))) r.2.
Proof.
  intros HI Hf Ho. destruct (I_handle hs w h f HI Hf) as [Hsz Hsrc]. unfold read_at_into.
  destruct dst as [|x dst]; [done|]. cbn [is_nil]. unfold must_read_at. rewrite Hsz.
  apply (sized_spec hs w h f offset _ (λ size f, do_preadv2_into_generic (cf_cache_id f) (cf_source f)
    {| rc_source_size := size; rc_open_flags := cf_open_flags f; rc_rw_flags := 0 |} offset (x :: dst))); [done..| |].
  - apply must_read_source.
  - by apply do_preadv2_into_spec.
Qed.

(** ** The other operations of a handle *)

Lemma pres_query_file hs h offset count : pres hs (query h offset count).
Proof.
  unfold query. apply pres_bind; [apply pres_tryget|]. intros size. destruct (_ || _); [pres|].
  apply pres_get_handle. intros f _. apply pres_bind; [eapply pres_spec, total_query|]. intros r. pres.
Qed.

Lemma pres_file_try_refill hs h offset count : 0 ≤ offset → 0 ≤ count → pres hs (file_try_refill_range h offset count).
Proof. intros Ho Hc. apply pres_get_handle. intros f [Hsz Hsrc]. rewrite Hsz. by apply pres_try_refill. Qed.

Lemma pres_fadvise_loop fuel : ∀ hs h cur end_, 0 ≤ cur → pres hs (fadvise_loop fuel h cur end_).
Proof.
  induction fuel as [|fuel IH]; intros hs h cur end_ Hc; cbn [fadvise_loop]; destruct (Z.leb_spec end_ cur); [pres..|].
  apply pres_bind; [by apply pres_file_try_refill; unfold MAX_PREFETCH_SIZE; lia|]. intros ret.
  destruct (Z.eqb_spec ret 0); [pres|]. destruct (Z.ltb_spec ret (Z.min (end_ - cur) MAX_PREFETCH_SIZE)); [pres|].
  apply IH. unfold sat_add, MAX_PREFETCH_SIZE, U64_MAX in *. lia.
Qed.

Lemma pres_fadvise hs h offset len : 0 ≤ offset → pres hs (fadvise h offset len).
Proof.
  intros Ho. unfold fadvise. apply pres_bind.
  { destruct (negb _); [|pres]. destruct (checked_add64 _ _); pres. }
  intros end_. destruct (_ <=? _); [pres|]. apply pres_fadvise_loop.
  pose proof (Z.div_pos offset 4096). lia.
Qed.

Lemma pres_sync hs h : pres hs (sync h).
Proof.
  apply pres_get_handle. intros f _. apply pres_bind.
  { destruct (cf_source f) as [s|]; [|pres]. apply pres_bind; [apply pres_tick|]. intros t. destruct (so_sync s t); pres. }
  intros _. apply pres_sync_checkpoint.
Qed.

Lemma pres_file_evict hs h : pres hs (file_evict_all h).
Proof. apply pres_get_handle. intros f _. apply pres_store_evict. Qed.

Lemma I_handles hs w g : I hs w → (∀ h f, g (w_handles w) !! h = Some f → handle_ok f ∧ h < w_next w) →
  I hs (set_handles g w).
Proof.
  intros [Hi Hl Hap] Hg. split; [destruct Hi as [? Hs ? ? Hfr Hha ?]; split; try done| |done].
  - intros id a Ha. destruct (Hs id a Ha) as (e & f & d & ? & ? & ? & ? & ?). exists e, f, d.
    split_and!; try done. by apply (entry_ok_core w).
  - intros a Ha. destruct (Hfr a Ha) as (? & ? & ?). split_and!; [done..|]. apply eq_None_not_Some. intros [f Hf].
    destruct (Hg a f Hf) as [_ Hlt]. cbn in Ha. lia.
  - intros h f Hf. apply (Hg h f Hf).
  - intros p Hp. destruct (Hl p Hp) as (e & f & ? & ? & ? & ? & ?). exists e, f. split_and!; try done. by apply (entry_ok_core w).
Qed.

(** The handles there are have been given names. *)
Lemma I_handle_next hs w h f : I hs w → w_handles w !! h = Some f → h < w_next w.
Proof.
  intros HI Hf. destruct (Z.lt_ge_cases h (w_next w)); [done|].
  destruct (i_fresh w (I_inv _ _ HI) h) as (_ & _ & Hn); [done|congruence].
Qed.

Lemma pres_set_handles_delete hs h : pres hs (emodify (set_handles (delete h))).
Proof.
  intros hs' w _ HI. apply I_handles; [done|]. intros h' f [_ Hf]%lookup_delete_Some.
  split; [by eapply I_handle|by eapply I_handle_next].
Qed.

Lemma pres_close hs h : pres hs (drop_handle h).
Proof.
  apply pres_get_handle. intros f _. apply pres_bind; [apply pres_set_handles_delete|]. intros _.
  unfold remove_open_file, add_open_count. pres.
Qed.

(** What is done with the runs of a range, with the source and the size that the
    handle has. *)
Lemma pres_range {A} hs h start len (k : Source → Z → Z → list (list Z) → cache A) : 0 ≤ start → 0 ≤ len →
  (∀ hs id s a runs, (a, id) ∈ hs → honest (content id) s → Forall (good_run 0 (div_round_up (zlen (content id)) pool_bs)) runs →
     pres hs (k s (zlen (content id)) a runs)) →
  pres hs (let! p := background_source_snapshot h in acquire_range h p.2 start len (k p.1 p.2)).
Proof.
  intros Hs Hl Hk hs' w Hh HI. clear Hh hs. rename hs' into hs.
  unfold background_source_snapshot, acquire_range, get_handle. unfold ebind at 1 2.
  destruct (w_handles w !! h) as [f|] eqn:Ef; [|done]. destruct (I_handle hs w h f HI Ef) as [Hsz Hsrc].
  destruct (cf_source f) as [s|] eqn:Es; [|done]. cbn [eret fst snd]. unfold ebind at 1. rewrite Ef, Hsz.
  set (id := cf_cache_id f) in *. specialize (Hsrc s eq_refl).
  match goal with |- I hs (?m w).1 => assert (spec hs m (λ _, True)) as Hp; [|by apply Hp] end.
  assert (∀ A (m : cache A), pres hs m → spec hs m (λ _, True)) as Hany by (intros A' m Hm; by apply spec_pres).
  apply spec_read_bs. destruct (checked_add64 start len) as [end_block|] eqn:Ec; [|apply Hany; pres].
  unfold checked_add64 in Ec. destruct (start + len <=? U64_MAX); [|done]. injection Ec as <-.
  unfold background_block_count. set (n := div_round_up (zlen (content id)) pool_bs).
  destruct (Z.leb_spec n (U32_MAX + 1)); [|by apply Hany, pres_err]. cbn [ensure elift].
  eapply (spec_bind _ _ _ (λ r, r = Ok n)); [by intros hs' w' _ HI'| |done]. intros x [= ->].
  destruct (Z.leb_spec (start + len) n); [|by apply Hany, pres_err]. cbn [negb].
  apply spec_read_state. intros st. destruct (_ || _); [by apply Hany, pres_err|].
  apply spec_get_cache_entry; [by apply Hany, pres_err|]. intros a.
  eapply spec_bind; [apply (acquire_runs_spec _ a id 0 n)| |done]; [set_solver| |done|].
  - apply Forall_forall. intros b Hb%elem_of_seqZ. lia.
  - intros runs Hr. apply spec_pres; [|done]. apply Hk; [set_solver|done|by apply Hr].
Qed.

Lemma pres_background hs h start len : 0 ≤ start → 0 ≤ len →
  pres hs (let! p := background_source_snapshot h in background_refill_range h p.1 p.2 start len).
Proof. intros. apply (pres_range _ _ _ _ (λ s ss a runs, refill_runs a s ss runs 0)); [done..|]. intros. by apply pres_refill_runs. Qed.

Lemma pres_background_dropped hs h start len k : 0 ≤ start → 0 ≤ len →
  pres hs (let! p := background_source_snapshot h in background_refill_dropped h p.1 p.2 start len k).
Proof.
  intros. apply (pres_range _ _ _ _ (λ s ss a runs, let! r := catch (refill_runs a s ss (take k runs) 0) in
    let! _ := drop_guards a (mjoin (drop k runs)) in elift r)); [done..|]. intros hs' id s a runs Hin Hs Hr.
  apply pres_bind; [apply pres_catch, pres_refill_runs; [done..|by apply Forall_take]|]. intros r.
  apply pres_bind; [by eapply pres_drop_guards|]. intros _. destruct r; [apply pres_ret|apply pres_err].
Qed.
End Handles.
