(* ===== verification/CacheOpen.v ===== *)
(** * Opening files and starting the pool

    A file that is opened gets an entry whose data file is its own; a pool that
    is started takes over the entries whose metadata and data file agree, and
    removes the others.  While the pool is loaded, the directories that are
    still to be looked at are [pending]. *)

From stdpp Require Import gmap.
From S2P Require Import Prelude LsmtIo Text ZFormat CacheMeta CacheEntry CachePool CacheStore CacheFile CacheInv CacheQuery CacheRefill CacheRead CacheOps CacheHandle.

Open Scope result_scope.

Section Open.
Context {env : CacheEnv} {env_spec : CacheEnvSpec} {roaring : Roaring} {roaring_spec : RoaringSpec}
  {crc : Crc32c} {crc_spec : Crc32cSpec} {disc : FileDiscard} {disc_spec : FileDiscardSpec}.
Context {model : CacheModel}.

(** The blocks the metadata of a directory lists are in its data file. *)
Definition disk_good (w : World) (id : str) (d : Dir) (m : CacheMetaDisk) : Prop :=
  ∃ i f, dir_data d = Some i ∧ w_files w !! i = Some f ∧ zlen f = zlen (content id)
  ∧ ∀ b, b ∈ md_bitmap m → block_good (mh_block_size (md_header m)) (content id) f b.

Record loading (pending : str → Prop) (w : World) : Prop := {
  l_pool_bs : wbs w = pool_bs;
  l_slot : ∀ id a, active w id a → ∃ e f d, w_heap w !! a = Some e ∧ ce_cache_id e = id
    ∧ entry_ok w e f ∧ w_dirs w !! id = Some d ∧ dir_data d = Some (ce_inode e);
  l_inj : ∀ id id' d d' i, w_dirs w !! id = Some d → w_dirs w !! id' = Some d' →
    dir_data d = Some i → dir_data d' = Some i → id = id';
  l_data : ∀ id d i, w_dirs w !! id = Some d → dir_data d = Some i → ∃ f, w_files w !! i = Some f;
  l_fresh : ∀ a, w_next w ≤ a → w_heap w !! a = None ∧ w_files w !! a = None ∧ w_handles w !! a = None;
  l_handles : ∀ h f, w_handles w !! h = Some f →
    cf_source_size f = zlen (content (cf_cache_id f))
    ∧ ∀ s, cf_source f = Some s → honest (content (cf_cache_id f)) s;
  l_meta : safe → ∀ id d raw m, id ≠ PREMERGED_INDEX_DIR → w_dirs w !! id = Some d →
    dir_meta d = Some raw → from_bytes raw = Ok m →
    (∃ a e, active w id a ∧ w_heap w !! a = Some e ∧ meta_within m e) ∨ (pending id ∧ disk_good w id d m)
}.

Lemma inv_loading w : inv w → loading (λ _, False) w.
Proof. intros [? ? ? ? ? ? Hm]. split; [done..|]. intros. left. by eapply Hm. Qed.

Lemma loading_I P w : loading P w → (∀ id, P id → id = PREMERGED_INDEX_DIR) → I [] w.
Proof.
  intros [? ? ? ? ? ? Hm] HP. split; [split; try done|set_solver|set_solver].
  intros Hs id d raw m Hpre Hd Hr Hf. destruct (Hm Hs id d raw m Hpre Hd Hr Hf) as [?|[Hx _]]; [done|by apply HP in Hx].
Qed.

Lemma L_core P w w' : same_core w w' → loading P w → loading P w'.
Proof.
  intros (Hb & Hc & Hh & Hf & Hd & Hha & Hn) [? Hs ? ? Hfr ? Hm].
  split; unfold active in *; rewrite ?Hb, ?Hc, ?Hh, ?Hf, ?Hd, ?Hha; try done.
  - intros id a Ha. destruct (Hs id a Ha) as (e & f & d & ? & ? & ? & ? & ?). exists e, f, d.
    split_and!; [done..| |done|done]. by eapply entry_ok_core; [| |done]; rewrite ?Hf.
  - intros a Ha. apply Hfr. lia.
  - intros Hsafe id d raw m ? ? ? ?. unfold disk_good. rewrite Hf. by eapply Hm.
Qed.

Lemma L_bump P w : loading P w → loading P (bump_tick w).
Proof. apply L_core. by repeat split. Qed.

(** The directory of an id that is not in the map changes, its metadata stays
    or goes. *)
Lemma L_dir P w id d' : loading P w → (∀ a, ¬ active w id a) → ¬ P id →
  (dir_meta d' = None ∨ ∃ d, w_dirs w !! id = Some d ∧ dir_meta d' = dir_meta d) →
  (∀ i, dir_data d' = Some i → (∃ f, w_files w !! i = Some f)
     ∧ ∀ id2 d2, id2 ≠ id → w_dirs w !! id2 = Some d2 → dir_data d2 ≠ Some i) →
  loading P (set_dirs (insert id d') w).
Proof.
  intros [? Hs Hinj Hda Hfr ? Hm] Hna HP Hmeta Hdata. split; try done; cbn.
  - intros id2 a Ha. destruct (Hs id2 a Ha) as (e & f & d & ? & ? & ? & ? & ?). exists e, f, d.
    assert (id2 ≠ id) by (intros ->; by eapply Hna). cbn. rewrite lookup_insert_ne by done.
    split_and!; try done. by apply (entry_ok_core w).
  - intros id1 id2 d1 d2 i [[<- <-]|[Hn1 H1]]%lookup_insert_Some [[<- <-]|[Hn2 H2]]%lookup_insert_Some Hi1 Hi2; try done.
    + destruct (Hdata i Hi1) as [_ Hno]. exfalso. by eapply (Hno id2 d2).
    + destruct (Hdata i Hi2) as [_ Hno]. exfalso. by eapply (Hno id1 d1).
    + by eapply Hinj.
  - intros id1 d1 i [[<- <-]|[Hn1 H1]]%lookup_insert_Some Hi1; [by apply Hdata|by eapply Hda].
  - intros Hsafe id1 d1 raw m Hpre [[<- <-]|[Hn1 H1]]%lookup_insert_Some Hraw Hfrom; [|by eapply Hm].
    exfalso. destruct Hmeta as [Hx|(d & Hd & Hx)]; [congruence|]. rewrite Hx in Hraw.
    destruct (Hm Hsafe id d raw m Hpre Hd Hraw Hfrom) as [(a & e & Ha & _)|[? _]]; [by eapply Hna|done].
Qed.

(** The data file of an id that is not in the map changes. *)
Lemma L_file P w id i f' : loading P w → (∀ a, ¬ active w id a) → ¬ P id → i < w_next w →
  (∀ id2 d2, id2 ≠ id → w_dirs w !! id2 = Some d2 → dir_data d2 ≠ Some i) →
  loading P (set_files (insert i f') w).
Proof.
  intros [? Hs Hinj Hda Hfr ? Hm] Hna HP Hi Hno. split; try done; cbn.
  - intros id2 a Ha. destruct (Hs id2 a Ha) as (e & f & d & ? & ? & ? & Hd & Hdd). exists e, f, d. split_and!; try done.
    assert (id2 ≠ id) by (intros ->; by eapply Hna). apply (entry_ok_core w); [done| |done]. cbn.
    rewrite lookup_insert_ne; [done|]. intros ->. by eapply Hno.
  - intros id1 d1 i1 H1 Hi1. destruct (decide (i1 = i)) as [->|]; [rewrite lookup_insert_eq; eauto|].
    rewrite lookup_insert_ne by done. by eapply Hda.
  - intros a Ha. rewrite lookup_insert_ne by lia. by apply Hfr.
  - intros Hsafe id1 d1 raw m Hpre H1 Hraw Hfrom. destruct (Hm Hsafe id1 d1 raw m Hpre H1 Hraw Hfrom) as [?|[HP1 Hg]]; [by left|].
    right. split; [done|]. destruct Hg as (i1 & f1 & Hd1 & Hf1 & ? & ?). exists i1, f1. split_and!; try done. cbn.
    rewrite lookup_insert_ne; [done|]. intros <-. eapply (Hno id1); [|done..]. by intros ->.
Qed.

(** A new entry, not yet in the map. *)
Lemma L_alloc P w e : loading P w → loading P (set_heap (insert (w_next w) e) (bump_next w)).
Proof.
  intros [? Hs Hinj Hda Hfr ? Hm].
  assert (∀ a e', w_heap w !! a = Some e' → <[w_next w:=e]> (w_heap w) !! a = Some e') as Hkeep.
  { intros a e' He'. rewrite lookup_insert_ne; [done|]. intros <-. destruct (Hfr (w_next w)) as [? _]; [lia|congruence]. }
  split; try done; cbn.
  - intros id a Ha. destruct (Hs id a Ha) as (e1 & f & d & ? & ? & ? & ? & ?). exists e1, f, d. split_and!; try done.
    + by apply Hkeep.
    + by apply (entry_ok_core w).
  - intros a Ha. rewrite lookup_insert_ne by lia. apply Hfr. lia.
  - intros Hsafe id d raw m ? ? ? ?. destruct (Hm Hsafe id d raw m) as [(a & e1 & ? & ? & ?)|?]; [done..| |by right].
    left. exists a, e1. split_and!; try done. by apply Hkeep.
Qed.

(** The entry is put into the map. *)
Lemma L_activate P w id a e f d : loading P w → (∀ a, ¬ active w id a) → w_heap w !! a = Some e → ce_cache_id e = id →
  entry_ok w e f → w_dirs w !! id = Some d → dir_data d = Some (ce_inode e) →
  (safe → id ≠ PREMERGED_INDEX_DIR → ∀ raw m, dir_meta d = Some raw → from_bytes raw = Ok m → meta_within m e) →
  loading (λ x, P x ∧ x ≠ id) (put_slot id (Active a) w).1.
Proof.
  intros [? Hs Hinj Hda Hfr ? Hm] Hna He Hid Hok Hd Hdd Hmeta. split; try done; cbn; unfold active; cbn.
  - intros id1 a1 [[<- [= <-]]|[Hn H1]]%lookup_insert_Some.
    + exists e, f, d. split_and!; try done. by apply (entry_ok_core w).
    + destruct (Hs id1 a1 H1) as (e1 & f1 & d1 & ? & ? & ? & ? & ?). exists e1, f1, d1. split_and!; try done.
      by apply (entry_ok_core w).
  - intros Hsafe id1 d1 raw m Hpre H1 Hraw Hfrom. destruct (decide (id1 = id)) as [->|Hne].
    + left. exists a, e. rewrite lookup_insert_eq. split_and!; try done. rewrite Hd in H1. injection H1 as <-. by eapply Hmeta.
    + destruct (Hm Hsafe id1 d1 raw m Hpre H1 Hraw Hfrom) as [(a1 & e1 & ? & ? & ?)|[? ?]]; [left|by right].
      exists a1, e1. by rewrite lookup_insert_ne.
Qed.

(** A directory that is given up. *)
Lemma L_remove P w id : safe → loading P w → (∀ a, ¬ active w id a) →
  loading (λ x, P x ∧ x ≠ id) (remove_dir_all id w).1.
Proof.
  intros Hsafe HL Hna. unfold remove_dir_all. run1. rewrite Hsafe by set_solver. cbn [emodify fst].
  apply L_bump in HL. destruct HL as [? Hs Hinj Hda Hfr ? Hm]. split; try done; cbn.
  - intros id1 a1 H1. destruct (Hs id1 a1 H1) as (e1 & f1 & d1 & ? & ? & ? & ? & ?). exists e1, f1, d1.
    assert (id1 ≠ id) by (intros ->; by eapply Hna). cbn. rewrite lookup_delete_ne by done.
    split_and!; try done. by apply (entry_ok_core (bump_tick w)).
  - intros id1 id2 d1 d2 i [? ?]%lookup_delete_Some [? ?]%lookup_delete_Some. by eapply Hinj.
  - intros id1 d1 i [? ?]%lookup_delete_Some. by eapply Hda.
  - intros _ id1 d1 raw m Hpre [Hne H1]%lookup_delete_Some Hraw Hfrom.
    destruct (Hm Hsafe id1 d1 raw m Hpre H1 Hraw Hfrom) as [?|[? ?]]; [by left|]. right. done.
Qed.

(** ** Creating an entry *)

(** What [create] and [load_from_disk] hand over. *)
Definition prepared (w : World) (id : str) (a : Z) (e : CacheEntry) : Prop :=
  ∃ f d, w_heap w !! a = Some e ∧ ce_cache_id e = id ∧ entry_ok w e f ∧ w_dirs w !! id = Some d
  ∧ dir_data d = Some (ce_inode e).

Lemma create_dir_run P w id : loading P w → (∀ a, ¬ active w id a) → ¬ P id →
  let '(w', r) := create_dir_all id w in
  loading P w' ∧ w_state w' = w_state w ∧ (r = Ok tt → is_Some (w_dirs w' !! id)).
Proof.
  intros HL Hna HP. unfold create_dir_all. run1. apply L_bump in HL.
  destruct (env_ok SysCreateDir _); [|by split_and!]. unfold emodify.
  destruct (w_dirs w !! id) as [d|] eqn:Ed.
  - split_and!; [|done|]; [|intros _; cbn; by rewrite Ed]. eapply L_core; [|exact HL]. repeat split; cbn; [|lia]. by rewrite Ed.
  - split_and!; [|done|intros _; cbn; rewrite Ed; by rewrite lookup_insert_eq].
    eapply L_core, (L_dir P _ id {| dir_data := None; dir_meta := None |}); [|done..| | ]; [|by left|done].
    repeat split; cbn; [|lia]. by rewrite Ed.
Qed.

(** The inode is the data file of the directory and of no other. *)
Definition own_inode (w : World) (id : str) (i : Z) : Prop :=
  i < w_next w ∧ (∃ f, w_files w !! i = Some f) ∧ (∃ d, w_dirs w !! id = Some d ∧ dir_data d = Some i)
  ∧ ∀ id2 d2, id2 ≠ id → w_dirs w !! id2 = Some d2 → dir_data d2 ≠ Some i.

Lemma file_next P w i f : loading P w → w_files w !! i = Some f → i < w_next w.
Proof.
  intros HL Hf. destruct (Z.lt_ge_cases i (w_next w)); [done|].
  destruct (l_fresh P w HL i) as (_ & Hn & _); [done|congruence].
Qed.

Lemma own_existing P w id d i : loading P w → w_dirs w !! id = Some d → dir_data d = Some i → own_inode w id i.
Proof.
  intros HL Hd Hi. destruct (l_data P w HL id d i Hd Hi) as [f Hf]. split_and!; [by eapply file_next|by eauto..|].
  intros id2 d2 Hne H2 Hi2. apply Hne. symmetry. by eapply (l_inj P w HL id id2).
Qed.

Lemma open_data_run P w id d : loading P w → (∀ a, ¬ active w id a) → ¬ P id → w_dirs w !! id = Some d →
  let '(w', r) := open_data_file id w in
  loading P w' ∧ w_state w' = w_state w ∧ ∀ i, r = Ok i → own_inode w' id i.
Proof.
  intros HL Hna HP Hd. unfold open_data_file. run1. apply L_bump in HL.
  destruct (env_ok SysOpenData _); [|by split_and!]. run1. change (w_dirs (bump_tick w)) with (w_dirs w). rewrite Hd.
  destruct (dir_data d) as [i|] eqn:Ei.
  { split_and!; [done..|]. intros i' [= <-]. by eapply own_existing. }
  run1. unfold write_file. repeat run1. set (w1 := bump_tick w) in *. set (i := w_next w1).
  assert (∀ id2 d2, w_dirs w1 !! id2 = Some d2 → dir_data d2 ≠ Some i) as Hnone.
  { intros id2 d2 H2 Hi2. destruct (l_data P w1 HL id2 d2 i H2 Hi2) as [f Hf].
    pose proof (file_next P w1 i f HL Hf). unfold i in *. lia. }
  assert (loading P (bump_next w1)) as HL1 by (eapply L_core; [|exact HL]; repeat split; cbn; lia).
  apply (L_file P _ id i []) in HL1; [|done|done|cbn; lia|by intros id2 d2 _; apply Hnone].
  apply (L_dir P _ id {| dir_data := Some i; dir_meta := dir_meta d |}) in HL1; [|done..| |].
  - split_and!; [done..|]. intros i' [= <-]. split_and!.
    + cbn. unfold i. cbn. lia.
    + exists []. cbn. by rewrite lookup_insert_eq.
    + eexists. cbn. by rewrite lookup_insert_eq.
    + intros id2 d2 Hne. cbn. rewrite lookup_insert_ne by done. apply Hnone.
  - right. by exists d.
  - intros i' [= <-]. split; [|by intros id2 d2 _; apply Hnone]. exists []. cbn. by rewrite lookup_insert_eq.
Qed.

Lemma account_core n w : same_core w (account_mapping n w).1.
Proof. unfold account_mapping. run1. destruct (env_ok SysMmap _); repeat split; cbn; lia. Qed.

Lemma own_core w w' id i : same_core w w' → own_inode w id i → own_inode w' id i.
Proof.
  intros (_ & _ & _ & Hf & Hd & _ & Hn) (? & ? & ? & ?). unfold own_inode. rewrite Hf, Hd. split_and!; [lia|done..].
Qed.

(** An entry for a data file; it is not in the map yet. *)
Lemma alloc_run P w id f e : loading P w → own_inode w id (ce_inode e) → ce_cache_id e = id → entry_ok w e f →
  let '(w', r) := alloc_entry e w in
  loading P w' ∧ cache_entries (w_state w') = cache_entries (w_state w) ∧ w_dirs w' = w_dirs w
  ∧ ∀ a, r = Ok a → prepared w' id a e.
Proof.
  intros HL (_ & _ & (d & Hd & Hdd) & _) Hid Hok.
  unfold alloc_entry. repeat run1. split_and!; [by apply L_alloc|done..|]. intros a [= <-].
  exists f, d. cbn. rewrite lookup_insert_eq. split_and!; [done..| |done|congruence]. by apply (entry_ok_core w).
Qed.

(** An entry is created for a file that has none. *)
Lemma create_run P w id key : loading P w → (∀ a, ¬ active w id a) → ¬ P id →
  let '(w', r) := create id key (zlen (content id)) w in
  loading P w' ∧ cache_entries (w_state w') = cache_entries (w_state w) ∧ ∀ a, r = Ok a → ∃ e, prepared w' id a e.
Proof.
  intros HL Hna HP. unfold create. pose proof (zlen_nonneg (content id)).
  destruct (Z.eqb_spec (zlen (content id)) 0) as [|Hpos]; [by split_and!|].
  pose proof (create_dir_run P w id HL Hna HP) as H1. unfold ebind at 1.
  destruct (create_dir_all id w) as [w1 [[]|err]]; destruct H1 as (HL1 & Hs1 & Hd1); [|split_and!; by rewrite ?Hs1].
  destruct (Hd1 eq_refl) as [d Hd]. assert (∀ a, ¬ active w1 id a) as Hna1 by (unfold active; by rewrite Hs1).
  pose proof (open_data_run P w1 id d HL1 Hna1 HP Hd) as H2. unfold ebind at 1.
  destruct (open_data_file id w1) as [w2 [i|err]]; destruct H2 as (HL2 & Hs2 & Ho2); [|split_and!; by rewrite ?Hs2, ?Hs1].
  specialize (Ho2 i eq_refl). assert (∀ a, ¬ active w2 id a) as Hna2 by (unfold active; by rewrite Hs2).
  run1. apply L_bump in HL2. destruct (env_ok SysSetLen _); [|cbn; split_and!; by rewrite ?Hs2, ?Hs1].
  destruct Ho2 as (Hlt & [f Hf] & (d2 & Hd2 & Hdd2) & Hno). rewrite (run_get_file _ f) by done.
  unfold write_file. run1. set (f' := file_truncate f (zlen (content id))).
  apply (L_file P _ id i f') in HL2; [|done..]. run1. apply L_bump in HL2. set (w3 := bump_tick _) in *.
  assert (cache_entries (w_state w3) = cache_entries (w_state w)) as Hs3 by (cbn; by rewrite Hs2, Hs1).
  destruct (env_ok SysMmap _); [|by split_and!]. pose proof (account_core (zlen (content id)) w3) as Hc.
  unfold ebind at 1. destruct (account_mapping _ w3) as [w4 r4]. cbn [fst] in Hc.
  pose proof (L_core P w3 w4 Hc HL2) as HL4. pose proof Hc as (_ & Hs4 & _ & Hf4 & _).
  destruct r4 as [[]|err]; [|split_and!; congruence || done]. run1. run1. apply L_bump in HL4.
  assert (zlen f' = zlen (content id)) as Hlen by (apply zlen_file_truncate; lia).
  match goal with |- let '(_, _) := alloc_entry ?e ?w in _ => pose proof (alloc_run P w id f' e HL4) as Ha end.
  destruct (alloc_entry _ _) as [w5 r5]. destruct Ha as (HL5 & Hs5 & _ & Hp5); [| |split| ].
  - apply (own_core w4); [by repeat split|]. apply (own_core w3); [done|]. split_and!; [done| |by exists d2|done].
    exists f'. cbn. by rewrite lookup_insert_eq.
  - done.
  - cbn. rewrite Hf4. cbn. by rewrite lookup_insert_eq.
  - done.
  - done.
  - done.
  - done.
  - cbn; lia.
  - done.
  - split_and!; [done|rewrite Hs5; cbn; congruence|]. intros a Hr. eexists. by apply Hp5.
Qed.

(** ** Opening *)

Lemma I_prepared w id a e : I [] w → (∀ a, ¬ active w id a) → prepared w id a e → I [] (put_slot id (Active a) w).1.
Proof.
  intros HI Hna (f & d & He & Hid & Hok & Hd & Hdd). pose proof (inv_loading w (I_inv _ _ HI)) as HL.
  apply (loading_I (λ x, False ∧ x ≠ id)); [|tauto]. eapply L_activate; [done..|].
  intros Hsafe Hpre raw m Hraw Hfrom. exfalso.
  destruct (l_meta _ w HL Hsafe id d raw m Hpre Hd Hraw Hfrom) as [(a1 & e1 & Ha1 & _)|[[] _]]. by eapply Hna.
Qed.

(** The invariant holds at the end, and a result is as [Q] says. *)
Definition ends {A} (x : World * result cache_error A) (Q : World → A → Prop) : Prop :=
  I [] x.1 ∧ ∀ y, x.2 = Ok y → Q x.1 y.

Lemma ends_bind {A B} (m : cache A) (k : A → cache B) w Q Q' : ends (m w) Q →
  (∀ w' x, I [] w' → Q w' x → ends (k x w') Q') → ends (ebind m k w) Q'.
Proof.
  intros [HI HQ] Hk. unfold ebind. destruct (m w) as [w' [x|e]]; cbn [fst snd] in *; [apply Hk; auto|by split].
Qed.

(** What is done to the entry of an id keeps the map as it is. *)
Lemma ends_entry {A} (m : cache A) w id a : I [] w → active w id a → pres [(a, id)] m →
  w_state (m w).1 = w_state w → ends (m w) (λ w' _, active w' id a).
Proof.
  intros HI Ha Hp Hs. split; [|intros; unfold active; by rewrite Hs]. apply (I_drop (a, id)).
  apply Hp; [done|by apply I_add_active].
Qed.

Lemma ensure_open_I w id key : I [] w →
  ends (ensure_open_cache_entry id key (zlen (content id)) w) (λ w' a, active w' id a).
Proof.
  intros HI. unfold ensure_open_cache_entry, get_slot. run1.
  assert (∀ a w', I [] w' → active w' id a → ends ((let! _ := add_open_count 1 a in eret a) w') (λ w' a, active w' id a)) as Hfin.
  { intros a w' HI' Ha. eapply ends_bind; [apply (ends_entry _ w' id a)|]; [done..|unfold add_open_count; pres|done|].
    intros w2 [] HI2 Ha2. split; [done|]. by intros a' [= <-]. }
  destruct (cache_entries (w_state w) !! id) as [[a|]|] eqn:Es; [|done|].
  - destruct (i_slot w (I_inv _ _ HI) id a Es) as (e & f & d & He & Hid & Hok & _). run1.
    rewrite (eo_size _ _ _ Hok), Hid, Z.ltb_irrefl. run1. by apply Hfin.
  - assert (∀ a, ¬ active w id a) as Hna by (unfold active; by rewrite Es).
    pose proof (create_run _ w id key (inv_loading w (I_inv _ _ HI)) Hna ltac:(tauto)) as Hc. unfold ebind at 1.
    destruct (create id key _ w) as [w1 [a|err]]; destruct Hc as (HL1 & Hs1 & Hp1).
    2: { split; [by apply (loading_I _ w1 HL1)|done]. }
    destruct (Hp1 a eq_refl) as [e He]. run1. rewrite Hs1, Es.
    assert (I [] (put_slot id (Active a) w1).1) as HI2.
    { eapply I_prepared; [by apply (loading_I _ w1 HL1)| |exact He]. unfold active. by rewrite Hs1, Es. }
    unfold put_slot in *. run1. apply Hfin; [done|]. unfold active. cbn. by rewrite lookup_insert_eq.
Qed.

(** A handle for a file of which the size is known. *)
Lemma new_handle_I w f : I [] w → handle_ok f → ends (new_handle f w) (λ w' h, w_handles w' !! h = Some f).
Proof.
  intros HI Hf. unfold new_handle. repeat run1. split.
  - cbn [eret fst]. apply I_handles; [eapply I_core; [|done]; repeat split; cbn; lia|]. cbn.
    intros h f' [[<- <-]|[_ Hf']]%lookup_insert_Some; [split; [done|lia]|].
    split; [by eapply I_handle|]. pose proof (I_handle_next [] w h f' HI Hf'). lia.
  - intros h [= <-]. cbn. by rewrite lookup_insert_eq.
Qed.

(** The common end of both ways to open a file. *)
Lemma open_tail_I w id key source flags : I [] w → source_ok id source →
  let f := {| cf_source := source; cf_cache_id := id; cf_source_size := zlen (content id); cf_open_flags := flags |} in
  ends ((let! a := ensure_open_cache_entry id key (zlen (content id)) in let! _ := touch a in new_handle f) w)
    (λ w' h, w_handles w' !! h = Some f).
Proof.
  intros HI Hsrc f. eapply ends_bind; [by apply ensure_open_I|]. intros w1 a HI1 Ha. cbn beta in Ha.
  eapply ends_bind; [apply (ends_entry _ w1 id a)|]; [done..|by eauto with cache|done|]. intros w2 [] HI2 _. by apply new_handle_I.
Qed.

(** A source is opened with the size of the file, or with none. *)
Lemma open_file_I w key source flags known : I [] w → honest (content (cache_key_digest key)) source →
  (∀ n, known = Some n → n = 0 ∨ n = zlen (content (cache_key_digest key))) →
  ends (open_file_with_flags_and_size key source flags known w) (λ w' h, w_handles w' !! h = Some
    {| cf_source := Some source; cf_cache_id := cache_key_digest key;
       cf_source_size := zlen (content (cache_key_digest key)); cf_open_flags := flags |}).
Proof.
  intros HI Hsrc Hknown. unfold open_file_with_flags_and_size. destruct (is_nil key); [done|].
  set (id := cache_key_digest key) in *.
  assert (source_ok id (Some source)) as Hok by (by intros s [= <-]).
  unfold cached_size_by_store_key, contains_active_entry, get_cache_entry, get_slot. fold id.
  assert (default 0 known = 0 ∨ default 0 known = zlen (content id)) as Hdef by (destruct known as [n|]; [by apply Hknown|by left]).
  repeat run1. destruct (cache_entries (w_state w) !! id) as [[a|]|] eqn:Es; cbn -[ebind ensure_open_cache_entry touch new_handle].
  1: destruct (i_slot w (I_inv _ _ HI) id a Es) as (e & f & d & He & Hid & Hk & _); repeat run1; rewrite Es;
    cbn -[ebind ensure_open_cache_entry touch new_handle]; rewrite andb_false_r, (eo_size _ _ _ Hk), Hid; repeat run1;
    by apply open_tail_I.
  all: repeat run1; rewrite Es; cbn -[ebind ensure_open_cache_entry touch new_handle]; rewrite andb_true_r.
  all: apply (ends_bind _ _ _ (λ _ n, n = zlen (content id))); [|intros w' n HI' ->; by apply open_tail_I].
  all: destruct (Z.eqb_spec (default 0 known) 0) as [|Hne]; [|split; [done|intros n [= <-]; by destruct Hdef]].
  all: run1; (split; [destruct (so_size source _) as [n|[]]; by apply I_bump|]).
  all: intros n; destruct (so_size source _) as [n'|[]] eqn:En; cbn; intros [= <-]; by apply (hs_size _ _ Hsrc) in En.
Qed.

(** Without a source only what is cached can be read. *)
Lemma open_cache_only_I w key flags : I [] w →
  ends (open_cache_only_with_flags key (zlen (content (cache_key_digest key))) flags w) (λ w' h, w_handles w' !! h = Some
    {| cf_source := None; cf_cache_id := cache_key_digest key;
       cf_source_size := zlen (content (cache_key_digest key)); cf_open_flags := flags |}).
Proof.
  intros HI. unfold open_cache_only_with_flags. destruct (is_nil key); [done|]. by apply open_tail_I.
Qed.

Lemma set_source_I hs w h source : I hs w →
  (∀ f s, w_handles w !! h = Some f → source = Some s → honest (content (cf_cache_id f)) s) →
  I hs (set_source h source w).1.
Proof.
  intros HI Hs. apply I_handles; [done|]. intros h' f Hf. destruct (decide (h' = h)) as [->|].
  - rewrite lookup_alter_eq in Hf. destruct (w_handles w !! h) as [f0|] eqn:E; [|done]. injection Hf as <-.
    destruct (I_handle hs w h f0 HI E) as [Hsz _]. split; [|by eapply I_handle_next]. split; [done|].
    intros s Hs'. by apply (Hs f0 s).
  - rewrite lookup_alter_ne in Hf by done. split; [by eapply I_handle|by eapply I_handle_next].
Qed.

(** ** Loading the pool *)

(** What the file system holds for a pool that is started later. *)
Record disk (w : World) : Prop := {
  d_inj : ∀ id id' d d' i, w_dirs w !! id = Some d → w_dirs w !! id' = Some d' →
    dir_data d = Some i → dir_data d' = Some i → id = id';
  d_data : ∀ id d i, w_dirs w !! id = Some d → dir_data d = Some i → ∃ f, w_files w !! i = Some f;
  d_fresh : ∀ i, w_next w ≤ i → w_files w !! i = None;
  d_meta : ∀ id d raw m, id ≠ PREMERGED_INDEX_DIR → w_dirs w !! id = Some d →
    dir_meta d = Some raw → from_bytes raw = Ok m → disk_good w id d m
}.

Lemma loading_disk P w : safe → loading P w → disk w.
Proof.
  intros Hsafe [? Hs ? ? Hfr ? Hm]. split; [done..|intros i Hi; by apply Hfr|].
  intros id d raw m Hpre Hd Hraw Hfrom. destruct (Hm Hsafe id d raw m Hpre Hd Hraw Hfrom) as [(a & e & Ha & He & Hb & Hx)|[_ ?]]; [|done].
  destruct (Hs id a Ha) as (e1 & f & d1 & He1 & Hid & Hok & Hd1 & Hdd). rewrite He in He1. injection He1 as <-.
  rewrite Hd in Hd1. injection Hd1 as <-. exists (ce_inode e), f. rewrite <- Hid. split_and!; [done|apply Hok..|].
  intros b Hbm. rewrite Hb, (eo_bs _ _ _ Hok). by apply (eo_index _ _ _ Hok), Hx.
Qed.

Lemma disk_same w w' : w_dirs w' = w_dirs w → w_files w' = w_files w → w_next w' = w_next w → disk w → disk w'.
Proof. intros Hd Hf Hn [? ? ? Hm]. split; unfold disk_good; rewrite ?Hd, ?Hf, ?Hn; done. Qed.

Lemma L_weaken (P Q : str → Prop) w : (∀ x, x ≠ PREMERGED_INDEX_DIR → P x → Q x) → loading P w → loading Q w.
Proof.
  intros HPQ [? ? ? ? ? ? Hm]. split; try done. intros Hsafe id d raw m Hpre Hd Hraw Hfrom.
  destruct (Hm Hsafe id d raw m Hpre Hd Hraw Hfrom) as [?|[? ?]]; [by left|right; auto].
Qed.

(** What loading an entry leaves, and gives to the caller. *)
Definition loaded (P : str → Prop) (w : World) (id : str) (x : World * result cache_error Z) : Prop :=
  let '(w', r) := x in
  loading P w' ∧ cache_entries (w_state w') = cache_entries (w_state w) ∧ w_dirs w' = w_dirs w
  ∧ ∀ a, r = Ok a → ∃ e, prepared w' id a e
      ∧ ∀ d raw m, w_dirs w !! id = Some d → dir_meta d = Some raw → from_bytes raw = Ok m → meta_within m e.

Lemma loaded_err P w w' id err : same_core w w' → loading P w → loaded P w id (w', Err err).
Proof. intros Hc HL. pose proof Hc as (_ & Hs & _ & _ & Hd & _). split_and!; [by eapply L_core|done..]. Qed.

Lemma load_data_run P w id i raw m : loading P w → w_dirs w !! id = Some {| dir_data := Some i; dir_meta := Some raw |} →
  from_bytes raw = Ok m → disk_good w id {| dir_data := Some i; dir_meta := Some raw |} m →
  loaded P w id (load_data id m w).
Proof.
  intros HL Hd Hfrom (i' & f & [= <-] & Hf & Hlen & Hgood). unfold load_data, open_data_file. run1. run1.
  destruct (env_ok SysOpenData _); [|by apply loaded_err]. run1. run1. change (w_dirs (bump_tick w)) with (w_dirs w).
  rewrite Hd. cbn [dir_data]. run1. run1. destruct (env_ok SysStat _); [|by apply loaded_err].
  rewrite (run_get_file _ f) by done. destruct (Z.eqb_spec (zlen f) (mh_source_size (md_header m))) as [Hss|]; [|by apply loaded_err].
  cbn [negb]. rewrite <- Hss. destruct (Z.eqb_spec (zlen f) 0); [by apply loaded_err|]. run1.
  destruct (Z.eqb_spec (mh_block_size (md_header m)) (opt_block_size (w_opts (bump_tick (bump_tick w))))) as [Hbs|];
    [|by apply loaded_err].
  cbn [negb]. run1. destruct (env_ok SysMmap _); [|by apply loaded_err]. set (w1 := bump_tick (bump_tick (bump_tick w))).
  pose proof (account_core (zlen f) w1) as Hc. unfold ebind at 1. destruct (account_mapping _ w1) as [w2 r2]. cbn [fst] in Hc.
  assert (same_core w w2) as Hc2 by exact Hc.
  destruct r2 as [[]|err]; [|by apply loaded_err]. pose proof (L_core P w w2 Hc2 HL) as HL2.
  match goal with |- loaded _ _ _ (alloc_entry ?e _) => pose proof (alloc_run P w2 id f e HL2) as Ha end.
  assert (own_inode w2 id i) as Hown by (apply (own_core w); [done|]; by eapply own_existing).
  assert (wbs w2 = wbs w ∧ w_files w2 = w_files w ∧ w_dirs w2 = w_dirs w
    ∧ cache_entries (w_state w2) = cache_entries (w_state w)) as (Hb2 & Hf2 & Hd2 & Hs2) by (by destruct Hc2 as (? & ? & ? & ? & ? & _)).
  destruct (alloc_entry _ _) as [w3 r3]. destruct Ha as (HL3 & Hs3 & Hd3 & Hp3); [done|done| |].
  { split; cbn; try done; [by rewrite Hf2|congruence..|pose proof (zlen_nonneg f); lia|].
    intros b Hb. rewrite Hb2. unfold wbs. change (w_opts w) with (w_opts (bump_tick (bump_tick w))). rewrite <- Hbs. auto. }
  split_and!; [done|congruence..|]. intros a Hr. eexists. split; [by apply Hp3|]. intros d raw' m' Hd' Hraw' Hfrom'.
  rewrite Hd in Hd'. injection Hd' as <-. injection Hraw' as <-. rewrite Hfrom in Hfrom'. injection Hfrom' as <-. by split.
Qed.

(** An entry is loaded only when its metadata, which the data file bears out,
    is for the block size of the pool. *)
Lemma load_run P w id : safe → loading P w → (∀ a, ¬ active w id a) → id ≠ PREMERGED_INDEX_DIR →
  loaded P w id (load_from_disk id w).
Proof.
  intros Hsafe HL Hna Hpre. unfold load_from_disk, try_exists. run1. run1.
  destruct (env_ok SysExists _); [|by apply loaded_err]. run1. change (w_dirs (bump_tick w)) with (w_dirs w).
  destruct (some_and has_meta (w_dirs w !! id)) eqn:Em; [|by apply loaded_err]. cbn [negb].
  unfold load_meta. run1. run1. destruct (env_ok SysReadMeta _); [|by apply loaded_err]. run1. run1.
  change (w_dirs (bump_tick (bump_tick w))) with (w_dirs w).
  destruct (w_dirs w !! id) as [[dd [raw|]]|] eqn:Ed; [|by apply loaded_err..].
  destruct (from_bytes raw) as [m|err] eqn:Ef; [|by apply loaded_err]. run1. run1. run1.
  destruct (env_ok SysExists _); [|by apply loaded_err]. run1.
  change (w_dirs (bump_tick (bump_tick (bump_tick w)))) with (w_dirs w). rewrite Ed.
  destruct dd as [i|]; [|by apply loaded_err]. cbn [some_and has_data dir_data negb].
  destruct (l_meta P w HL Hsafe id _ raw m Hpre Ed eq_refl Ef) as [(a & e & Ha & _)|[_ Hg]]; [by destruct (Hna a)|].
  by apply (load_data_run P (bump_tick (bump_tick (bump_tick w))) id i raw m); [do 3 apply L_bump|..].
Qed.

(** Every entry that is put into the map is right; every other directory with
    metadata goes. *)
Lemma load_loop_run ids : ∀ w, safe → NoDup ids → loading (λ x, x ∈ ids) w → (∀ id a, id ∈ ids → ¬ active w id a) →
  let '(w', r) := load_loop ids w in ∃ P, loading P w' ∧ (r = Ok tt → ∀ x, ¬ P x).
Proof.
  induction ids as [|id ids IH]; intros w Hsafe Hnd HL Hna; cbn [load_loop].
  { exists (λ x, x ∈ []). split; [done|]. intros _ x. set_solver. }
  apply NoDup_cons in Hnd as [Hnin Hnd]. run1. apply L_bump in HL.
  destruct (env_ok SysReadDir _); [|by exists (λ x, x ∈ id :: ids)]. destruct (bool_decide_reflect (id = PREMERGED_INDEX_DIR)) as [Hpre|Hpre].
  { apply IH; [done..| |set_solver]. eapply L_weaken; [|exact HL]. set_solver. }
  run1. pose proof (load_run _ _ id Hsafe HL ltac:(set_solver) Hpre) as Hload. set (w1 := bump_tick w) in *.
  destruct (load_from_disk id w1) as [w2 r]. destruct Hload as (HL2 & Hs2 & Hd2 & Hp2). cbn [fst snd].
  assert (∀ x a, x ∈ id :: ids → ¬ active w2 x a) as Hna2 by (unfold active; rewrite Hs2; exact Hna).
  destruct r as [a|err].
  - destruct (Hp2 a eq_refl) as (e & (f & d & He & Hid & Hok & Hd & Hdd) & Hm). run1. run1. run1. unfold put_slot. run1.
    set (w3 := set_state _ w2). assert (loading (λ x, x ∈ id :: ids) w3) as HL3
      by (eapply L_core; [|exact HL2]; repeat split; cbn; lia).
    apply (L_activate _ w3 id a e f d) in HL3; [|set_solver|done..|by apply (entry_ok_core w2)|done|done|].
    + apply IH; [done..| |].
      * eapply L_weaken; [|exact HL3]. set_solver.
      * intros x a' Hx. unfold active. cbn. rewrite lookup_insert_ne by set_solver. by apply Hna2; right.
    + intros _ _ raw m Hraw Hfrom. eapply Hm; [|done..]. by rewrite <- Hd2.
  - apply (L_remove _ w2 id Hsafe) in HL2; [|set_solver].
    assert (∃ w3, remove_dir_all id w2 = (w3, Ok tt) ∧ w_state w3 = w_state w2) as (w3 & Hr & Hs3).
    { unfold remove_dir_all. run1. destruct (env_ok SysRemoveDir _); [by eexists|]. destruct (env_left _). by eexists. }
    rewrite (ebind_ok _ _ _ _ _ Hr). rewrite Hr in HL2. cbn [fst] in HL2. apply IH; [done..| |].
    + eapply L_weaken; [|exact HL2]. set_solver.
    + intros x a' Hx. unfold active. rewrite Hs3. by apply Hna2; right.
Qed.

(** A directory from which a pool can be started. *)
Definition fit (w : World) : Prop := disk w ∧ (safe ∨ w_dirs w = ∅).

Lemma fit_same w w' : w_dirs w' = w_dirs w → w_files w' = w_files w → w_next w' = w_next w → fit w → fit w'.
Proof. intros Hd Hf Hn [? ?]. split; [by eapply disk_same|by rewrite Hd]. Qed.

Lemma I_fit w : I [] w → safe ∨ w_dirs w = ∅ → fit w.
Proof.
  intros HI [Hs|He]; [split; [by eapply loading_disk, inv_loading, I_inv|by left]|]. split; [|by right].
  destruct (I_inv _ _ HI) as [? ? ? ? Hfr ? ?]. split; [done..|intros i Hi; by apply Hfr|]. intros id d. by rewrite He.
Qed.

Lemma load_pool_run w : fit w → wbs w = pool_bs → cache_entries (w_state w) = ∅ → w_heap w = ∅ → w_handles w = ∅ →
  let '(w', r) := load_pool w in match r with Ok _ => I [] w' | Err _ => fit w' end.
Proof.
  intros Hfit Hbs Hslot Hheap Hhand.
  unfold load_pool. run1. destruct (env_ok SysCreateDir _); [|by apply (fit_same w)].
  run1. destruct (env_ok SysReadDir _); [|by apply (fit_same w)].
  run1. run1. set (w1 := bump_tick (bump_tick (bump_tick w))). apply (fit_same w w1) in Hfit; [|done..]. set (ids := env_order _ _).
  assert (ids ≡ₚ (map_to_list (w_dirs w1)).*1) as Hperm by apply env_order_perm.
  assert (loading (λ x, x ∈ ids) w1) as HL.
  { destruct Hfit as [[? ? Hfr Hm] _]. split; try done; unfold active; cbn; rewrite ?Hslot, ?Hheap, ?Hhand; try done.
    - intros a Ha. split_and!; [done|by apply Hfr|done].
    - intros _ id d raw m Hpre Hd Hraw Hfrom. right. split; [|by eapply Hm]. rewrite Hperm.
      apply list_elem_of_fmap. exists (id, d). split; [done|]. by apply elem_of_map_to_list. }
  assert (let '(w', r) := load_loop ids w1 in
    ∃ P, loading P w' ∧ match r with Ok _ => ∀ x, ¬ P x | Err _ => safe end) as Hloop.
  { destruct Hfit as [_ [Hsafe|He]].
    - assert (let '(w', r) := load_loop ids w1 in ∃ P, loading P w' ∧ (r = Ok tt → ∀ x, ¬ P x)) as Hl.
      { apply load_loop_run; [done| |done|by unfold active; cbn; rewrite Hslot].
        rewrite Hperm. apply NoDup_fst_map_to_list. }
      destruct (load_loop ids w1) as [w2 [[]|err]]; destruct Hl as (P & HP & Hx); exists P; auto.
    - rewrite He, map_to_list_empty in Hperm. apply Permutation_nil_r in Hperm. rewrite Hperm in *.
      exists (λ x, x ∈ []). split; [done|]. set_solver. }
  unfold ebind at 1. destruct (load_loop ids w1) as [w2 [[]|err]]; destruct Hloop as (P & HP & Hdone).
  2: { assert (disk w2) by by eapply loading_disk. change (fit w2). by split; [|left]. }
  assert (I [] w2) as HI by (apply (loading_I P); [done|]; intros x Hx; by destruct (Hdone x)).
  assert (pres [] (let! d := capture_disk_pressure in publish_pressure_locked d)) as Hp by pres. by apply (Hp [] w2).
Qed.

(** A pool that is started has taken over entries whose blocks are those of
    the files; when the start fails, the directory stays fit for another. *)
Lemma with_options_run o w : fit w → (∀ o', normalize o = Ok o' → opt_block_size o' = pool_bs) →
  let '(w', r) := with_options o w in match r with Ok _ => I [] w' | Err _ => fit w' end.
Proof.
  intros Hd Hbs. unfold with_options. run1. unfold elift, ebind at 1.
  destruct (normalize o) as [o'|err]; [|by apply (fit_same w)]. run1.
  destruct (env_ok SysCreateDir _); [|by apply (fit_same w)]. run1.
  apply load_pool_run; [by apply (fit_same w)|by apply Hbs|done..].
Qed.
End Open.
