(* ===== verification/CacheBackground.v ===== *)
(** * Background downloads make progress

    A background refill that reports success leaves every block of its range
    in the bitmap of the entry, whatever the source and the machine do: blocks
    that were there stay, and no block of a run is skipped. *)

From stdpp Require Import gmap.
From S2P Require Import Prelude LsmtIo Text ZFormat CacheMeta CacheEntry CachePool CacheStore CacheFile CacheOps.

Open Scope result_scope.

Section Background.
Context {env : CacheEnv} {roaring : Roaring} {crc : Crc32c} {disc : FileDiscard}.

(** What a background refill leaves as it is: the options, the handles, and the
    map of the pool. *)
Record frame : Type := { fr_opts : Options; fr_handles : gmap Z CachedFile; fr_entries : gmap str CacheSlot }.

Definition frame_of (w : World) : frame :=
  {| fr_opts := w_opts w; fr_handles := w_handles w; fr_entries := cache_entries (w_state w) |}.

Definition index_of (a : Z) (w : World) : option (gset Z) := ce_index <$> w_heap w !! a.

(** Blocks stay in the bitmap of the entry, and a result is as [Q] says of it. *)
Definition yields {A} (o : frame) (a : Z) (X0 : gset Z) (m : cache A) (Q : A → gset Z → Prop) : Prop :=
  ∀ w X, frame_of w = o → index_of a w = Some X → X0 ⊆ X →
  frame_of (m w).1 = o ∧ ∃ X', index_of a (m w).1 = Some X' ∧ X ⊆ X' ∧ ∀ x, (m w).2 = Ok x → Q x X'.

Definition grows {A} (a : Z) (m : cache A) : Prop := ∀ o X0, yields o a X0 m (λ _ _, True).

Lemma yields_bind {A B} o a X0 (m : cache A) (k : A → cache B) Q Q' : yields o a X0 m Q →
  (∀ x X1, X0 ⊆ X1 → Q x X1 → yields o a X1 (k x) Q') → yields o a X0 (ebind m k) Q'.
Proof.
  intros Hm Hk w X Ho Hi HX. destruct (Hm w X Ho Hi HX) as (Ho1 & X1 & Hi1 & HX1 & HQ). unfold ebind.
  destruct (m w) as [w1 [x|e]]; cbn [fst snd] in *; [|by split; [|exists X1]].
  destruct (Hk x X1 ltac:(set_solver) (HQ x eq_refl) w1 X1 Ho1 Hi1 ltac:(done)) as (Ho2 & X2 & Hi2 & HX2 & HQ2).
  split; [done|]. exists X2. split_and!; [done|set_solver|done].
Qed.

Lemma yields_ret {A} o a X0 (x : A) (Q : A → gset Z → Prop) : (∀ X, X0 ⊆ X → Q x X) → yields o a X0 (eret x) Q.
Proof. intros HQ w X Ho Hi HX. split; [done|]. exists X. split_and!; [done..|]. intros y [= <-]. auto. Qed.

Lemma yields_err {A} o a X0 e (Q : A → gset Z → Prop) : yields o a X0 (eerr e) Q.
Proof. intros w X Ho Hi HX. split; [done|]. by exists X. Qed.

(** What does not touch the bitmap of the entry. *)
Lemma grows_frame {A} a (m : cache A) : (∀ w, frame_of (m w).1 = frame_of w ∧ index_of a (m w).1 = index_of a w) → grows a m.
Proof. intros Hf o X0 w X Ho Hi HX. destruct (Hf w) as [H1 H2]. rewrite H1, H2. split; [done|]. by exists X. Qed.

Lemma grows_yields {A B} o a X0 (m : cache A) (k : A → cache B) Q : grows a m →
  (∀ x X1, X0 ⊆ X1 → yields o a X1 (k x) Q) → yields o a X0 (ebind m k) Q.
Proof. intros Hm Hk. eapply yields_bind; [apply Hm|]. intros x X1 HX _. by apply Hk. Qed.

Lemma grows_bind {A B} a (m : cache A) (k : A → cache B) : grows a m → (∀ x, grows a (k x)) → grows a (ebind m k).
Proof. intros Hm Hk o X0. eapply grows_yields; [done|]. intros x X1 _. apply Hk. Qed.

Lemma grows_ret {A} a (x : A) : grows a (eret x).
Proof. by apply grows_frame. Qed.

Lemma grows_err {A} a e : grows (A := A) a (eerr e).
Proof. by apply grows_frame. Qed.

Lemma grows_catch {A} a (m : cache A) : grows a m → grows a (catch m).
Proof.
  intros Hm o X0 w X Ho Hi HX. destruct (Hm o X0 w X Ho Hi HX) as (Ho1 & X1 & Hi1 & HX1 & _). unfold catch.
  destruct (m w) as [w1 r]. split; [done|]. by exists X1.
Qed.

(** A change of an entry that keeps its bitmap. *)
Lemma grows_entry a a' g : (∀ e, ce_index (g e) = ce_index e) → grows a (modify_entry a' g).
Proof.
  intros Hg. apply grows_frame. intros w. split; [done|]. unfold index_of. cbn. destruct (decide (a = a')) as [->|].
  - rewrite lookup_alter_eq. destruct (w_heap w !! a') as [e|]; [|done]. cbn. by rewrite Hg.
  - by rewrite lookup_alter_ne.
Qed.

Lemma mark_yields o a X0 b : yields o a X0 (mark_block_cached a b) (λ _ X, wrap32 b ∈ X).
Proof.
  intros w X Ho Hi HX. split; [done|]. exists ({[wrap32 b]} ∪ X). split_and!; [|set_solver|set_solver].
  revert Hi. unfold index_of. cbn. rewrite lookup_alter_eq. destruct (w_heap w !! a) as [e|]; [|done]. by intros [= <-].
Qed.
End Background.

Create HintDb cache_grows.
#[export] Hint Resolve grows_ret grows_err grows_catch : cache_grows.
#[export] Hint Extern 1 (grows _ (ebind _ _)) => apply grows_bind; [|intros] : cache_grows.
#[export] Hint Extern 2 (grows _ (modify_entry _ _)) => apply grows_entry; done : cache_grows.
#[export] Hint Extern 3 (grows _ _) => apply grows_frame; done : cache_grows.
#[export] Hint Extern 4 (grows _ (if ?c then _ else _)) => destruct c : cache_grows.
#[export] Hint Extern 4 (grows _ (match ?x with _ => _ end)) => destruct x : cache_grows.

Section Refill.
Context {env : CacheEnv} {roaring : Roaring} {crc : Crc32c} {disc : FileDiscard}.

Lemma grows_record_refill a a' : grows a (record_refill a').
Proof. unfold record_refill, touch. eauto 10 with cache_grows. Qed.

Lemma grows_drop_guard a a' b : grows a (drop_refill_guard a' b).
Proof. unfold drop_refill_guard, add_active_refills, finish_refill. eauto 10 with cache_grows. Qed.
#[local] Hint Resolve grows_record_refill grows_drop_guard : cache_grows.

Lemma grows_drop_guards a a' l : grows a (drop_guards a' l).
Proof. induction l; cbn [drop_guards]; eauto with cache_grows. Qed.

Lemma grows_reserve a off len : grows a (ensure_range_allocated off len).
Proof. unfold ensure_range_allocated. eauto 10 with cache_grows. Qed.

Lemma grows_mmap_mut a a' b n : grows a (mmap_mut_for_block a' b n).
Proof.
  apply grows_frame. intros w. unfold mmap_mut_for_block, get_entry, ebind.
  destruct (w_heap w !! a') as [e|]; [|done]. repeat case_match; done.
Qed.
#[local] Hint Resolve grows_drop_guards grows_reserve grows_mmap_mut : cache_grows.

Lemma grows_add_current a n : grows a (add_current_bytes n).
Proof. unfold add_current_bytes, capture_disk_pressure, publish_pressure_locked. eauto 10 with cache_grows. Qed.
#[local] Hint Resolve grows_add_current : cache_grows.

(** Every block of a run that is in the file is published. *)
Lemma publish_run_all o a ss bs first scratch run : ∀ X0 n, 0 < bs → ss + bs ≤ 2 ^ 64 →
  Forall (λ b, 0 ≤ b ∧ b * bs < ss) run →
  yields o a X0 (publish_run a ss bs first scratch run n) (λ _ X, ∀ b, b ∈ run → wrap32 b ∈ X).
Proof.
  induction run as [|b run IH]; intros X0 n Hbs Hss Hrun; cbn [publish_run].
  { apply yields_ret. intros X _ b Hb. by apply elem_of_nil in Hb. }
  apply Forall_cons in Hrun as [[Hb0 Hlt] Hrun]. rewrite wrap64_small by nia.
  destruct (Z.eqb_spec (Z.min (saturating_sub ss (b * bs)) bs) 0) as [Hz|_]; [unfold saturating_sub in Hz; lia|].
  apply grows_yields; [eauto with cache_grows|]. intros r X1 HX1.
  destruct r as [[[off len]|]|err]; [|apply grows_yields; [apply (grows_drop_guards a a (b :: run))|intros; apply yields_err]..].
  apply grows_yields; [by apply grows_frame|]. intros e X2 HX2. apply grows_yields; [by apply grows_frame|]. intros f X3 HX3.
  apply grows_yields; [by apply grows_frame|]. intros _ X4 HX4.
  eapply yields_bind; [apply mark_yields|]. intros [] X5 HX5 Hin. cbn beta in Hin.
  apply grows_yields; [eauto with cache_grows|]. intros _ X6 HX6. apply grows_yields; [eauto with cache_grows|]. intros _ X7 HX7.
  intros w X Ho Hi HX. destruct (IH X7 (n + Z.min (saturating_sub ss (b * bs)) bs) Hbs Hss Hrun w X Ho Hi HX) as (Ho' & X' & Hi' & HX' & HQ).
  split; [done|]. exists X'. split_and!; [done..|]. intros x Hx b' [->|Hb']%elem_of_cons; [set_solver|by eapply HQ].
Qed.

Lemma block_run_all o a source ss run : ∀ X0, 0 < opt_block_size (fr_opts o) → ss + opt_block_size (fr_opts o) ≤ 2 ^ 64 → 0 ≤ ss →
  good_run 0 (div_round_up ss (opt_block_size (fr_opts o))) run →
  yields o a X0 (refill_block_run a source ss run) (λ _ X, ∀ b, b ∈ run → wrap32 b ∈ X).
Proof.
  intros X0 Hbs Hss Hss0 (k & n & Hn & -> & Hk & Hkn). set (bs := opt_block_size (fr_opts o)) in *.
  assert ((k + n - 1) * bs < ss) as Hlast by (apply div_round_up_block; lia).
  assert (0 ≤ k * bs ≤ (k + n - 1) * bs) as Hkb by nia.
  intros w X Ho Hi HX. unfold refill_block_run. run1. assert (opt_block_size (w_opts w) = bs) as -> by (unfold bs; by rewrite <- Ho).
  rewrite last_seqZ by done. assert (head (seqZ k n) = Some k) as -> by (by rewrite seqZ_cons by done).
  change (default 0 (Some k)) with k. change (default 0 (Some (k + n - 1))) with (k + n - 1).
  destruct (Z.ltb_spec U64_MAX (k * bs)); [unfold U64_MAX in *; lia|]. replace (k + n - 1 - k + 1) with n by lia.
  assert (n * bs = (k + n - 1) * bs - k * bs + bs) as Hnb by ring. assert (0 < n * bs) by nia.
  rewrite (wrap64_small (n * bs)) by lia. set (read_len := Z.min _ _).
  destruct (Z.eqb_spec read_len 0) as [Hz|_]; [unfold read_len, saturating_sub in Hz; lia|].
  match goal with |- frame_of (?m w).1 = o ∧ _ => assert (yields o a X0 m (λ _ X, ∀ b, b ∈ seqZ k n → wrap32 b ∈ X)) as Hy; [|by apply Hy] end.
  assert (∀ A (err : cache_error) X1 Q, yields o a X1 (let! _ := drop_guards a (seqZ k n) in eerr (A := A) err) Q) as Hfail
    by (intros; apply grows_yields; [eauto with cache_grows|intros; apply yields_err]).
  apply grows_yields; [by apply grows_frame|]. intros t X1 HX1. destruct (so_read_into source t (k * bs) read_len) as [buf r].
  destruct r as [m|enospc]; [|apply Hfail]. destruct (negb (m =? read_len)); [apply Hfail|].
  apply grows_yields; [eauto with cache_grows|]. intros [x|err] X2 HX2; [|apply Hfail].
  eapply yields_bind; [apply publish_run_all; [done..|]|].
  - apply Forall_forall. intros b Hb%elem_of_seqZ. split; nia.
  - intros c X3 HX3 Hall. apply grows_yields; [destruct (0 <? c); eauto with cache_grows|]. intros _ X4 HX4.
    apply yields_ret. intros X5 HX5 b Hb. cbn beta in Hall. set_solver.
Qed.

Lemma refill_runs_all o a source ss runs : ∀ X0 n, 0 < opt_block_size (fr_opts o) → ss + opt_block_size (fr_opts o) ≤ 2 ^ 64 → 0 ≤ ss →
  Forall (good_run 0 (div_round_up ss (opt_block_size (fr_opts o)))) runs →
  yields o a X0 (refill_runs a source ss runs n) (λ _ X, ∀ b, b ∈ mjoin runs → wrap32 b ∈ X).
Proof.
  induction runs as [|run runs IH]; intros X0 n Hbs Hss Hss0 Hr; cbn [refill_runs].
  { apply yields_ret. intros X _ b Hb. by apply elem_of_nil in Hb. }
  apply Forall_cons in Hr as [Hrun Hr].
  assert (yields o a X0 (catch (refill_block_run a source ss run)) (λ r X, ∀ m, r = Ok m → ∀ b, b ∈ run → wrap32 b ∈ X)) as Hc.
  { intros w X Ho Hi HX. destruct (block_run_all o a source ss run X0 Hbs Hss Hss0 Hrun w X Ho Hi HX) as (Ho' & X' & Hi' & HX' & HQ).
    unfold catch. destruct (refill_block_run a source ss run w) as [w' r]. cbn [fst snd] in *. split; [done|]. exists X'.
    split_and!; [done..|]. intros x [= <-] m ->. by apply (HQ m). }
  eapply yields_bind; [exact Hc|]. intros [m|err] X1 HX1 Hq; [|apply grows_yields; [eauto with cache_grows|intros; apply yields_err]].
  specialize (Hq m eq_refl). intros w X Ho Hi HX.
  destruct (IH X1 (wrap64 (n + m)) Hbs Hss Hss0 Hr w X Ho Hi HX) as (Ho' & X' & Hi' & HX' & HQ). split; [done|]. exists X'.
  split_and!; [done..|]. intros x Hx b Hb. change (mjoin (run :: runs)) with (run ++ mjoin runs) in Hb.
  apply elem_of_app in Hb as [Hb|Hb]; [set_solver|by eapply HQ].
Qed.

Lemma join_push runs b : mjoin (push_run runs b) = mjoin runs ++ [b].
Proof.
  unfold push_run. destruct (rev runs) as [|run before] eqn:E.
  - assert (runs = []) as -> by (by rewrite <- (rev_involutive runs), E). done.
  - assert (runs = rev before ++ [run]) as -> by (by rewrite <- (rev_involutive runs), E).
    destruct (_ =? b); rewrite !join_app; cbn; by rewrite ?app_nil_r, ?app_assoc.
Qed.

Lemma get_entry_yields o a X0 : yields o a X0 (get_entry a) (λ e X, ce_index e = X).
Proof.
  intros w X Ho Hi HX. split; [done|]. exists X. split_and!; [done..|]. intros e. unfold get_entry, index_of in *. cbn.
  destruct (w_heap w !! a) as [e'|]; [|done]. intros [= <-]. by injection Hi.
Qed.

Lemma acquire_yields o a X0 b : yields o a X0 (acquire_refill a b) (λ r X, r = InCache → wrap32 b ∈ X).
Proof.
  eapply yields_bind; [apply get_entry_yields|]. intros e X1 HX1 He. cbn beta in He.
  destruct (bool_decide_reflect (wrap32 b ∈ ce_index e)); [apply yields_ret; intros X HX _; set_solver|].
  destruct (bool_decide (b ∈ ce_block_states e)); [apply yields_err|].
  apply grows_yields; [by apply grows_entry|]. intros. by apply yields_ret.
Qed.

(** A block that is not in a run is already there. *)
Lemma acquire_runs_all o a lo hi blocks : ∀ X0 runs, Forall (λ b, lo ≤ b < hi) blocks → Forall (good_run lo hi) runs →
  yields o a X0 (acquire_runs a blocks runs) (λ rs X, Forall (good_run lo hi) rs
    ∧ (∀ b, b ∈ mjoin runs → b ∈ mjoin rs) ∧ ∀ b, b ∈ blocks → wrap32 b ∈ X ∨ b ∈ mjoin rs).
Proof.
  induction blocks as [|b blocks IH]; intros X0 runs Hbl Hr; cbn [acquire_runs].
  { apply yields_ret. intros X _. split_and!; [done..|]. intros b Hb. by apply elem_of_nil in Hb. }
  apply Forall_cons in Hbl as [Hb Hbl]. eapply yields_bind; [apply acquire_yields|]. intros r X1 HX1 Hin. destruct r.
  - specialize (Hin eq_refl). intros w X Ho Hi HX. destruct (IH X1 runs Hbl Hr w X Ho Hi HX) as (Ho' & X' & Hi' & HX' & HQ).
    split; [done|]. exists X'. split_and!; [done..|]. intros rs Hrs. destruct (HQ rs Hrs) as (H1 & H2 & H3).
    split_and!; [done..|]. intros b' [->|Hb']%elem_of_cons; [left; set_solver|by apply H3].
  - apply grows_yields; [by apply grows_frame|]. intros _ X2 HX2 w X Ho Hi HX.
    destruct (IH X2 (push_run runs b) Hbl ltac:(by apply push_run_good) w X Ho Hi HX) as (Ho' & X' & Hi' & HX' & HQ).
    split; [done|]. exists X'. split_and!; [done..|]. intros rs Hrs. destruct (HQ rs Hrs) as (H1 & H2 & H3).
    rewrite join_push in H2. split_and!; [done|intros; apply H2; set_solver|].
    intros b' [->|Hb']%elem_of_cons; [right; apply H2; set_solver|by apply H3].
Qed.

(** The blocks of a range are in the bitmap or in the runs that are acquired. *)
Lemma acquire_range_yields {A} o a h f ss start len (k : Z → list (list Z) → cache A) Q X0 :
  fr_handles o !! h = Some f → fr_entries o !! cf_cache_id f = Some (Active a) → 0 ≤ start → 0 ≤ len →
  let nb := div_round_up ss (opt_block_size (fr_opts o)) in
  (∀ rs X1, nb ≤ 2 ^ 32 → start + len ≤ nb → Forall (good_run 0 nb) rs →
     (∀ b, start ≤ b < start + len → b ∈ X1 ∨ b ∈ mjoin rs) → yields o a X1 (k a rs) Q) →
  yields o a X0 (acquire_range h ss start len k) Q.
Proof.
  intros Hf Ha Hs Hl nb Hk w X Ho Hi HX. rewrite <- Ho in Hf, Ha. cbn in Hf, Ha.
  assert (div_round_up ss (opt_block_size (w_opts w)) = nb) as Hnb by (unfold nb; by rewrite <- Ho).
  assert (∀ w' (r : result cache_error A) e, (w, Err e) = (w', r) →
    frame_of w' = o ∧ ∃ X', index_of a w' = Some X' ∧ X ⊆ X' ∧ ∀ x, r = Ok x → Q x X') as Hfail.
  { intros w' r e [= <- <-]. split; [done|]. by exists X. }
  destruct (acquire_range h ss start len k w) as [w' r] eqn:Hrun. cbn [fst snd].
  unfold acquire_range, get_handle, ebind at 1 in Hrun. rewrite Hf, run_read in Hrun.
  unfold checked_add64, background_block_count in Hrun. rewrite Hnb in Hrun.
  destruct (Z.leb_spec (start + len) U64_MAX); [|exact (Hfail _ _ _ Hrun)].
  destruct (Z.leb_spec nb (U32_MAX + 1)) as [Hn|]; [|exact (Hfail _ _ _ Hrun)]. unfold U32_MAX in Hn.
  rewrite (ebind_ok _ _ w w nb) in Hrun by done. destruct (Z.leb_spec (start + len) nb); [|exact (Hfail _ _ _ Hrun)]. cbn [negb] in Hrun.
  rewrite run_read in Hrun. destruct (_ || _); [exact (Hfail _ _ _ Hrun)|]. unfold get_cache_entry, get_slot in Hrun.
  rewrite !run_assoc, run_read, run_ret, Ha in Hrun. cbn [as_active mbind option_bind] in Hrun.
  assert (yields o a X0 (let! runs := acquire_runs a (seqZ start len) [] in k a runs) Q) as Hy.
  { eapply yields_bind; [apply (acquire_runs_all _ a 0 nb); [|done]|].
    - apply Forall_forall. intros b Hb%elem_of_seqZ. lia.
    - intros rs X1 _ (Hgood & _ & Hall). apply Hk; [lia|done|done|]. intros b Hb.
      destruct (Hall b ltac:(apply elem_of_seqZ; lia)) as [Hin|]; [left|by right]. by rewrite wrap32_small in Hin by lia. }
  specialize (Hy w X Ho Hi HX). by rewrite Hrun in Hy.
Qed.

Lemma refill_range_yields o a h f source ss start len X0 :
  fr_handles o !! h = Some f → fr_entries o !! cf_cache_id f = Some (Active a) → 0 ≤ start → 0 ≤ len → 0 ≤ ss →
  0 < opt_block_size (fr_opts o) → ss + opt_block_size (fr_opts o) ≤ 2 ^ 64 →
  yields o a X0 (background_refill_range h source ss start len) (λ _ X, ∀ b, start ≤ b < start + len → b ∈ X).
Proof.
  intros Hf Ha Hs Hl Hss Hbs Hfit. apply (acquire_range_yields o a h f); [done..|]. intros rs X1 Hnb Hle Hgood Hall w X Ho Hi HX.
  destruct (refill_runs_all o a source ss rs X1 0 Hbs Hfit Hss Hgood w X Ho Hi HX) as (Ho' & X' & Hi' & HX' & HQ).
  split; [done|]. exists X'. split_and!; [done..|]. intros x Hx b Hb. destruct (Hall b Hb); [set_solver|].
  specialize (HQ x Hx b ltac:(done)). by rewrite wrap32_small in HQ by lia.
Qed.

(** C17: When the refill of a range of blocks in the background reports
    success, every block of the range is in the bitmap of the entry. *)
Theorem background_refill_complete w h f a e source source_size start len n w' :
  w_handles w !! h = Some f → cache_entries (w_state w) !! cf_cache_id f = Some (Active a) → w_heap w !! a = Some e →
  0 ≤ start → 0 ≤ len → 0 ≤ source_size → 0 < opt_block_size (w_opts w) → source_size + opt_block_size (w_opts w) ≤ 2 ^ 64 →
  background_refill_range h source source_size start len w = (w', Ok n) →
  ∃ e', w_heap w' !! a = Some e' ∧ ce_index e ⊆ ce_index e' ∧ ∀ b, start ≤ b < start + len → b ∈ ce_index e'.
Proof.
  intros Hf Ha He Hs Hl Hss Hbs Hfit Hrun.
  destruct (refill_range_yields (frame_of w) a h f source source_size start len ∅ Hf Ha Hs Hl Hss Hbs Hfit w (ce_index e))
    as (_ & X' & Hi & HX & HQ); [done|unfold index_of; by rewrite He|set_solver|].
  rewrite Hrun in Hi, HQ. unfold index_of in Hi. cbn [fst snd] in Hi, HQ.
  destruct (w_heap w' !! a) as [e'|]; [|done]. injection Hi as <-. exists e'. split_and!; [done..|]. by apply HQ with n.
Qed.
End Refill.
