(* ===== verification/CacheList.v ===== *)
(** * What the pool reports

    The statistics and the listing of [cache_pool.rs].  Listing the cache page
    by page, with the last key of a page as the marker of the next, gives every
    key once. *)

From stdpp Require Import gmap sorting.
From S2P Require Import Prelude LsmtIo Text ZFormat CacheMeta CacheEntry CachePool.

Open Scope result_scope.

(** ** The order of keys *)

Definition str_lt (a b : str) : Prop := str_cmp a b = Lt.
Definition str_le (a b : str) : Prop := str_cmp a b ≠ Gt.

#[export] Instance str_le_dec : RelDecision str_le.
Proof. intros a b. unfold str_le. solve_decision. Defined.

#[export] Instance str_lt_dec : RelDecision str_lt.
Proof. intros a b. unfold str_lt. solve_decision. Defined.

Lemma str_cmp_eq a b : str_cmp a b = Eq ↔ a = b.
Proof.
  revert b. induction a as [|x a IH]; intros [|y b]; cbn [str_cmp]; try done.
  destruct (Z.compare_spec x y) as [->|Hl|Hl]; [rewrite IH; naive_solver|..]; (split; [done|intros [= -> ->]; lia]).
Qed.

Lemma str_cmp_flip a b : str_cmp b a = CompOpp (str_cmp a b).
Proof.
  revert b. induction a as [|x a IH]; intros [|y b]; cbn [str_cmp]; try done. rewrite (Z.compare_antisym x y).
  destruct (x ?= y); cbn; [apply IH|done..].
Qed.

Lemma str_lt_trans a b c : str_lt a b → str_lt b c → str_lt a c.
Proof.
  unfold str_lt. revert b c. induction a as [|x a IH]; intros [|y b] [|z c]; cbn [str_cmp]; try done.
  destruct (Z.compare_spec x y), (Z.compare_spec y z), (Z.compare_spec x z); try done; try lia. apply IH.
Qed.

Lemma str_lt_irrefl a : ¬ str_lt a a.
Proof. unfold str_lt. by rewrite (proj2 (str_cmp_eq a a) eq_refl). Qed.

Lemma str_le_lt a b : str_le a b ↔ str_lt a b ∨ a = b.
Proof. unfold str_le, str_lt. rewrite <- str_cmp_eq. destruct (str_cmp a b); naive_solver. Qed.

#[export] Instance str_le_total : Total str_le.
Proof. intros a b. unfold str_le. rewrite (str_cmp_flip a b). destruct (str_cmp a b); cbn; auto. Qed.

#[export] Instance str_le_trans : Transitive str_le.
Proof. intros a b c. rewrite !str_le_lt. intros [?|<-] [?|<-]; eauto using str_lt_trans. Qed.

(** ** Reports *)

Record CacheStats : Type := {
  cs_entries : Z;
  cs_bytes_used : Z;
  cs_mmap_bytes : Z;
  cs_hits : Z;
  cs_misses : Z;
  cs_refills : Z
}.

Record CachedFileStats : Type := {
  fs_key : str;
  fs_bytes_used : Z;
  fs_hits : Z;
  fs_misses : Z;
  fs_refills : Z
}.

Inductive CacheListType : Type := All | Files | Dirs.

Record CachePoolStat : Type := {
  ps_refill_unit : Z;
  ps_total_size : Z;
  ps_used_size : Z;
  ps_evict_other : Z;
  ps_evict_global : Z;
  ps_evict_user : Z
}.

Section Reports.
Context `{CacheEnv}.

Definition count_entry (s : CacheStats) (p : str * (Z * CacheEntry)) : CacheStats := {|
  cs_entries := cs_entries s + 1; cs_bytes_used := cs_bytes_used s; cs_mmap_bytes := cs_mmap_bytes s;
  cs_hits := sat_add (cs_hits s) (ce_hits p.2.2); cs_misses := sat_add (cs_misses s) (ce_misses p.2.2);
  cs_refills := sat_add (cs_refills s) (ce_refills p.2.2) |}.

Definition stats : cache CacheStats :=
  let! s := read_world w_state in
  let! l := iter_entries in
  eret (fold_left count_entry l {| cs_entries := 0; cs_bytes_used := current_bytes s; cs_mmap_bytes := mmap_bytes s;
                                   cs_hits := 0; cs_misses := 0; cs_refills := 0 |}).

Definition file_stats (key : str) : cache (option CachedFileStats) :=
  let! a := get_cache_entry (cache_key_digest key) in
  match a with
  | None => eret None
  | Some a =>
      let! e := get_entry a in
      eret (Some {| fs_key := ce_key e; fs_bytes_used := total_cached_bytes e; fs_hits := ce_hits e;
                    fs_misses := ce_misses e; fs_refills := ce_refills e |})
  end.

Definition contains_store_key (key : str) : cache bool :=
  let! a := get_cache_entry (cache_key_digest key) in eret (match a with Some _ => true | None => false end).

(** The function that makes the key of a file of its name, if there is one. *)
Definition transform_store_key (fn_trans_func : option (str → option str)) (src_name : str) : str :=
  match fn_trans_func with
  | Some func =>
      match func src_name with
      | Some store_key => if is_nil store_key then src_name else store_key
      | None => src_name
      end
  | None => src_name
  end.

Definition stat_path (fn_trans_func : option (str → option str)) (pathname : option str) : cache CachePoolStat :=
  let! bs := read_world (λ w, opt_block_size (w_opts w)) in
  let! s := read_world w_state in
  let refill_unit := Z.min bs U32_MAX in
  let! sizes :=
    match pathname with
    | None => eret (current_bytes s, capacity_bytes s)
    | Some path =>
        if bool_decide (path = [47]) then eret (current_bytes s, capacity_bytes s)
        else
          let! slot := get_slot (cache_key_digest (transform_store_key fn_trans_func path)) in
          match slot with
          | None => eerr EntryNotFound
          | Some Evicting => eerr EntryBusy
          | Some (Active a) => let! e := get_entry a in eret (total_cached_bytes e, ce_source_size e)
          end
    end in
  let unit := Z.max refill_unit 1 in
  eret {| ps_refill_unit := refill_unit; ps_total_size := Z.min (div_round_up sizes.2 unit) U32_MAX;
          ps_used_size := Z.min (div_round_up sizes.1 unit) U32_MAX; ps_evict_other := 0;
          ps_evict_global := evict_global_bytes s; ps_evict_user := evict_user_bytes s |}.

Definition keep_key (dirname : str) (list_type : CacheListType) (key : str) : bool :=
  let is_dir := ends_with_char 47 key in
  negb (negb (is_nil dirname) && negb (bool_decide (dirname = [47])) && negb (starts_with dirname key))
  && match list_type with All => true | Files => negb is_dir | Dirs => is_dir end.

(** The loop over the sorted keys; it stops when [count] keys are out. *)
Fixpoint list_loop (dirname : str) (list_type : CacheListType) (marker : str) (count : Z) (keys out : list str)
  : list str :=
  match keys with
  | [] => out
  | key :: keys' =>
      if negb (is_nil dirname) && negb (bool_decide (dirname = [47])) && negb (starts_with dirname key)
      then list_loop dirname list_type marker count keys' out
      else if negb (is_nil marker) && bool_decide (str_le key marker)
      then list_loop dirname list_type marker count keys' out
      else
        let is_dir := ends_with_char 47 key in
        let keep := match list_type with All => true | Files => negb is_dir | Dirs => is_dir end in
        let out := if keep then out ++ [key] else out in
        if (0 <? count) && (count <=? zlen out) then out
        else list_loop dirname list_type marker count keys' out
  end.

Definition cache_list (dirname : str) (list_type : CacheListType) (marker : option str) (count : Z) : cache (list str) :=
  let! l := iter_entries in
  let keys := merge_sort str_le ((λ p, ce_key p.2.2) <$> l) in
  eret (list_loop dirname list_type (default [] marker) count keys []).

(** ** Paging *)

(** A client that asks for the next page with the last key it got. *)
Fixpoint list_pages (fuel : nat) (dirname : str) (list_type : CacheListType) (marker : option str) (count : Z)
  : cache (list str) :=
  match fuel with
  | O => eret []
  | S fuel' =>
      let! page := cache_list dirname list_type marker count in
      match last page with
      | None => eret []
      | Some key =>
          let! rest := list_pages fuel' dirname list_type (Some key) count in
          eret (page ++ rest)
      end
  end.
End Reports.

Definition after (marker key : str) : bool := is_nil marker || negb (bool_decide (str_le key marker)).

Definition limit {A} (count : Z) (l : list A) : list A := if 0 <? count then ztake count l else l.

(** The loop is a filter that stops. *)
Lemma list_loop_filter dirname lt marker count keys : ∀ out, (0 < count → zlen out < count) →
  list_loop dirname lt marker count keys out
  = limit count (out ++ List.filter (λ k, keep_key dirname lt k && after marker k) keys).
Proof.
  assert (∀ l : list str, (0 < count → zlen l < count) → limit count l = l) as Hlim.
  { intros l Hl. unfold limit. destruct (Z.ltb_spec 0 count); [|done]. unfold ztake, zlen in *. apply take_ge. lia. }
  induction keys as [|key keys IH]; intros out Hout; cbn [list_loop List.filter]; [by rewrite app_nil_r, Hlim|].
  unfold keep_key at 1, after at 1. destruct (negb (is_nil dirname) && _ && _); cbn [negb andb]; [by apply IH|].
  set (keep := match lt with All => _ | Files => _ | Dirs => _ end).
  assert (is_nil marker || negb (bool_decide (str_le key marker)) = negb (negb (is_nil marker) && bool_decide (str_le key marker))) as ->
    by (by destruct (is_nil marker), (bool_decide _)).
  destruct (negb (is_nil marker) && _); cbn [negb]; [rewrite andb_false_r; by apply IH|]. rewrite andb_true_r.
  destruct keep.
  - assert (zlen (out ++ [key]) = zlen out + 1) as Hz by (rewrite zlen_app; done). rewrite Hz.
    set (rest := List.filter _ keys). assert (out ++ key :: rest = (out ++ [key]) ++ rest) as -> by (by rewrite <- app_assoc).
    destruct (Z.ltb_spec 0 count); cbn [andb].
    + destruct (Z.leb_spec count (zlen out + 1)); [|apply IH; lia]. unfold limit. rewrite (proj2 (Z.ltb_lt 0 count)) by done.
      rewrite ztake_app_here; [done|]. rewrite Hz. lia.
    + apply IH. lia.
  - destruct (Z.ltb_spec 0 count); cbn [andb]; [|by apply IH]. destruct (Z.leb_spec count (zlen out)); [lia|by apply IH].
Qed.

Lemma filter_true {A} (p : A → bool) l : Forall (λ x, p x = true) l → List.filter p l = l.
Proof. induction 1 as [|x l Hx _ IH]; cbn; [done|]. by rewrite Hx, IH. Qed.

Lemma not_le_lt a b : negb (bool_decide (str_le a b)) = true ↔ str_lt b a.
Proof.
  rewrite negb_true_iff, bool_decide_eq_false. unfold str_le, str_lt. rewrite (str_cmp_flip a b).
  destruct (str_cmp a b); naive_solver.
Qed.

(** In a list without repetitions, what follows the [n]-th key is the rest. *)
Lemma rest_after (l : list str) : ∀ n x, StronglySorted str_lt l → last (take n l) = Some x →
  List.filter (λ k, negb (bool_decide (str_le k x))) l = drop n l.
Proof.
  induction l as [|k l IH]; intros [|n] x Hs Hl; try done. apply StronglySorted_inv in Hs as [Hs Hf].
  cbn [take drop List.filter] in *. destruct (take n l) as [|y l'] eqn:Et.
  - injection Hl as <-. rewrite bool_decide_eq_true_2 by (apply str_le_lt; by right). cbn [negb].
    assert (drop n l = l) as -> by (destruct n, l; done). apply filter_true.
    eapply Forall_impl; [exact Hf|]. intros z Hz. by apply not_le_lt.
  - change (last (y :: l') = Some x) in Hl. rewrite <- Et in Hl. rewrite (IH n x Hs Hl).
    apply last_Some_elem_of, elem_of_take in Hl as (i & Hi%list_elem_of_lookup_2 & _).
    rewrite bool_decide_eq_true_2; [done|]. apply str_le_lt. left. by eapply Forall_forall in Hf.
Qed.

Lemma sorted_filter {A} (R : A → A → Prop) (p : A → bool) l : StronglySorted R l → StronglySorted R (List.filter p l).
Proof.
  induction 1 as [|x l Hs IH Hf]; cbn [List.filter]; [constructor|]. destruct (p x); [|done]. constructor; [done|].
  apply Forall_forall. intros y [Hy _]%elem_of_lfilter. by eapply Forall_forall in Hf.
Qed.

(** The marker of the next page takes what the page has left. *)
Lemma next_page (keys : list str) (keep : str → bool) marker n x : StronglySorted str_lt keys → x ≠ [] →
  let l := List.filter (λ k, keep k && after marker k) keys in
  last (take n l) = Some x → List.filter (λ k, keep k && after x k) keys = drop n l.
Proof.
  intros Hs Hx l Hl. rewrite <- (rest_after l n x) by (done || by apply sorted_filter).
  pose proof Hl as (i & Hi%list_elem_of_lookup_2 & _)%last_Some_elem_of%elem_of_take.
  apply elem_of_lfilter in Hi as [_ Hm%andb_true_iff]. destruct Hm as [_ Hm].
  unfold l. clear Hl l Hs i. induction keys as [|k keys IH]; cbn [List.filter]; [done|].
  assert (keep k && after x k = keep k && after marker k && negb (bool_decide (str_le k x))) as ->.
  { destruct (keep k); [|done]. cbn [andb]. unfold after at 1. destruct x as [|c x']; [done|]. cbn [is_nil orb].
    destruct (negb (bool_decide (str_le k _))) eqn:E; [|by rewrite andb_false_r]. rewrite andb_true_r. symmetry.
    unfold after in *. destruct (is_nil marker); [done|]. cbn [orb] in *. rewrite not_le_lt in *. by eapply str_lt_trans. }
  destruct (keep k && after marker k); cbn [andb List.filter]; [destruct (negb _); by rewrite IH|done].
Qed.

#[export] Instance str_le_antisymm : AntiSymm (=) str_le.
Proof.
  intros a b. rewrite !str_le_lt. intros [H1|?] [H2|?]; try done. exfalso. by apply (str_lt_irrefl a), (str_lt_trans a b a).
Qed.

Section Paging.
Context {env : CacheEnv} {env_spec : CacheEnvSpec}.

(** The keys of the entries in the map. *)
Definition entry_keys (w : World) : list str :=
  omap (λ id, match cache_entries (w_state w) !! id with
              | Some (Active a) => ce_key <$> w_heap w !! a
              | _ => None
              end) (map_to_list (cache_entries (w_state w))).*1.

(** However the entries are listed, the keys come in the same order. *)
Lemma cache_list_run w dirname lt marker count : cache_list dirname lt marker count w
  = (bump_tick w, Ok (limit count (List.filter (λ k, keep_key dirname lt k && after (default [] marker) k)
                                     (merge_sort str_le (entry_keys w))))).
Proof.
  unfold cache_list, iter_entries. rewrite run_assoc, run_tick, run_read. unfold eret. do 2 f_equal.
  rewrite list_loop_filter by (unfold zlen; cbn; lia). rewrite app_nil_l. do 2 f_equal.
  apply (StronglySorted_unique str_le); [apply (StronglySorted_merge_sort str_le)..|].
  rewrite !merge_sort_Permutation. unfold entry_keys. cbn [w_state bump_tick w_heap].
  set (ids := (map_to_list _).*1). pose proof (env_order_perm (w_tick w) ids) as Hp.
  set (l := env_order (w_tick w) ids) in *. rewrite <- Hp. clearbody l. clear Hp ids. induction l as [|id l IH]; [done|]. cbn [omap list_omap].
  destruct (cache_entries (w_state w) !! id) as [[a|]|]; [|exact IH..].
  destruct (w_heap w !! a) as [e|]; cbn; [by constructor|exact IH].
Qed.

Lemma list_pages_run dirname lt count fuel : ∀ w marker, 0 ≤ count →
  StronglySorted str_lt (merge_sort str_le (entry_keys w)) → Forall (λ k, k ≠ []) (entry_keys w) →
  let l := List.filter (λ k, keep_key dirname lt k && after (default [] marker) k) (merge_sort str_le (entry_keys w)) in
  (length l < fuel)%nat → (list_pages fuel dirname lt marker count w).2 = Ok l.
Proof.
  induction fuel as [|fuel IH]; intros w marker Hc Hs Hne l Hf; [lia|]. cbn [list_pages].
  rewrite (ebind_ok _ _ _ _ _ (cache_list_run w dirname lt marker count)). fold l.
  assert (∃ n, limit count l = take n l ∧ (l ≠ [] → (0 < n)%nat)) as (n & -> & Hn).
  { unfold limit. destruct (Z.ltb_spec 0 count); [exists (Z.to_nat count); unfold ztake; split; [done|lia]|].
    exists (S (length l)). rewrite take_ge by lia. split; [done|lia]. }
  destruct (last (take n l)) as [x|] eqn:El.
  - assert (x ∈ entry_keys w) as Hx.
    { apply last_Some_elem_of, elem_of_take in El as (i & Hi%list_elem_of_lookup_2 & _).
      apply elem_of_lfilter in Hi as [Hi _]. by rewrite merge_sort_Permutation in Hi. }
    assert (x ≠ []) as Hxne by (by eapply Forall_forall in Hne).
    pose proof (next_page _ (keep_key dirname lt) (default [] marker) n x Hs Hxne El) as Hnext. fold l in Hnext.
    specialize (IH (bump_tick w) (Some x) Hc Hs Hne). change (default [] (Some x)) with x in IH.
    change (entry_keys (bump_tick w)) with (entry_keys w) in IH. rewrite Hnext in IH.
    assert (0 < n)%nat by (apply Hn; intros E; by rewrite E, take_nil in El).
    assert (0 < length l)%nat by (destruct l; [by rewrite take_nil in El|cbn; lia]).
    specialize (IH ltac:(rewrite length_drop; lia)). unfold ebind.
    destruct (list_pages fuel dirname lt (Some x) count (bump_tick w)) as [w' r]. cbn [snd] in IH. rewrite IH. cbn.
    by rewrite take_drop.
  - apply last_None in El. destruct l as [|y l']; [done|]. destruct n; [by specialize (Hn ltac:(done)); lia|done].
Qed.

(** C24: A client that lists the cache page by page, each page starting after
    the last key of the one before, gets every key that matches exactly once and
    in order, for every page size and in whatever order the map is walked. *)
Theorem listing_complete w dirname lt count : NoDup (entry_keys w) → Forall (λ k, k ≠ []) (entry_keys w) → 0 ≤ count →
  (list_pages (S (length (entry_keys w))) dirname lt None count w).2
  = Ok (List.filter (keep_key dirname lt) (merge_sort str_le (entry_keys w))).
Proof.
  intros Hnd Hne Hc. assert (StronglySorted str_lt (merge_sort str_le (entry_keys w))) as Hs.
  { assert (NoDup (merge_sort str_le (entry_keys w))) as Hn by (by rewrite merge_sort_Permutation).
    induction (StronglySorted_merge_sort str_le (entry_keys w)) as [|k l Hl IH Hf]; [constructor|].
    apply NoDup_cons in Hn as [Hk Hn]. constructor; [by apply IH|]. apply Forall_forall. intros x Hx.
    eapply Forall_forall in Hf; [|done]. apply str_le_lt in Hf as [?| ->]; [done|by destruct Hk]. }
  assert (∀ l, List.filter (λ k, keep_key dirname lt k && after (default [] None) k) l = List.filter (keep_key dirname lt) l) as Hall.
  { induction l as [|k l IH]; [done|]. cbn [List.filter]. rewrite IH. cbn. by rewrite andb_true_r. }
  rewrite list_pages_run; rewrite ?Hall; [done..|]. apply Nat.lt_succ_r.
  etransitivity; [apply List.filter_length_le|]. by rewrite merge_sort_Permutation.
Qed.
End Paging.
