(* ===== verification/CacheHistory.v ===== *)
(** * Histories of the file cache

    A machine runs the cache: its operations follow each other in any order,
    every call to the machine can fail, and the process can be started again,
    with other options, on what its directory holds.  In every state that is
    reached this way a read returns the bytes of the file behind the cache.

    A history records whether a process has been started on a directory that
    holds something: what such a process finds there is only right when the
    calls that an eviction removes metadata with have not failed ([safe]; the
    end of [CacheConc] shows what happens otherwise).  Sources are honest;
    nothing else writes to the cached files, so the writes and the renaming of
    [CacheFile] and [CachePool] are not operations of a history. *)

From stdpp Require Import gmap.
From S2P Require Import Prelude LsmtIo Text ZFormat ZFile CacheMeta CacheEntry CachePool CacheStore CacheFile CacheInv CacheQuery CacheRefill CacheRead CacheOps CacheHandle CacheOpen CacheBackground CacheList.

Open Scope result_scope.

(** ** Operations *)

Inductive cache_op : Type :=
| OpOpen (key : str) (source : Source) (flags : Z) (known : option Z)
| OpOpenCacheOnly (key : str) (size flags : Z)
| OpClose (h : Z)
| OpSetSource (h : Z) (source : option Source)
| OpRead (h offset len flags : Z)
| OpReadInto (h offset : Z) (dst : list Z)
| OpQuery (h offset count : Z)
| OpRefill (h offset count : Z)
| OpFadvise (h offset len : Z)
| OpBackground (h start len : Z)
| OpBackgroundDropped (h start len : Z) (k : nat)
| OpSync (h : Z)
| OpEvictFile (h : Z)
| OpEvictRange (h offset len : Z)
| OpEvictKey (key : str)
| OpEvictBySize (size : Z)
| OpEvictGlobal
| OpEviction
| OpCheckpoint
| OpSetCapacity (n : Z)
| OpSetMmapCapacity (n : Z)
| OpRestart (o : Options).

Section Run.
Context {env : CacheEnv} {roaring : Roaring} {crc : Crc32c} {disc : FileDiscard}.

Definition void {A} (m : cache A) : cache unit := let! _ := m in eret tt.

(** What an operation does to the pool. *)
Definition exec (op : cache_op) : cache unit :=
  match op with
  | OpOpen key source flags known => void (open_file_with_flags_and_size key source flags known)
  | OpOpenCacheOnly key size flags => void (open_cache_only_with_flags key size flags)
  | OpClose h => drop_handle h
  | OpSetSource h source => set_source h source
  | OpRead h offset len flags => void (read_at_with_flags h offset len flags)
  | OpReadInto h offset dst => void (read_at_into h offset dst)
  | OpQuery h offset count => void (query h offset count)
  | OpRefill h offset count => void (file_try_refill_range h offset count)
  | OpFadvise h offset len => fadvise h offset len
  | OpBackground h start len =>
      void (let! p := background_source_snapshot h in background_refill_range h p.1 p.2 start len)
  | OpBackgroundDropped h start len k =>
      void (let! p := background_source_snapshot h in background_refill_dropped h p.1 p.2 start len k)
  | OpSync h => sync h
  | OpEvictFile h => file_evict_all h
  | OpEvictRange h offset len => file_evict_range h offset len
  | OpEvictKey key => evict_store_key key
  | OpEvictBySize size => void (evict_by_size size)
  | OpEvictGlobal => evict_global
  | OpEviction => eviction_inner
  | OpCheckpoint => checkpoint_dirty_entries
  | OpSetCapacity n => set_capacity_bytes n
  | OpSetMmapCapacity n => set_mmap_capacity_bytes n
  | OpRestart o => with_options o
  end.

(** A pool whose start has failed does nothing until it is started again. *)
Definition step (s : World * bool) (op : cache_op) : World * bool :=
  match op with
  | OpRestart o => let '(w, r) := with_options o s.1 in (w, is_ok r)
  | _ => if s.2 then ((exec op s.1).1, true) else s
  end.

(** Nothing has been stored yet. *)
Definition no_pool : World := {|
  w_opts := {| opt_cache_dir := []; opt_capacity_bytes := 0; opt_mmap_capacity_bytes := 0; opt_block_size := 0;
               opt_open_evict_idle := 0 |};
  w_state := {| cache_entries := ∅; current_bytes := 0; mmap_bytes := 0; capacity_bytes := 0;
    mmap_capacity_bytes := 0; is_full := false; evict_global_bytes := 0; evict_user_bytes := 0; active_refills := 0 |};
  w_heap := ∅; w_files := ∅; w_dirs := ∅; w_handles := ∅; w_next := 0; w_tick := 0 |}.
End Run.

Section History.
Context {env : CacheEnv} {env_spec : CacheEnvSpec} {roaring : Roaring} {roaring_spec : RoaringSpec}
  {crc : Crc32c} {crc_spec : Crc32cSpec} {disc : FileDiscard} {disc_spec : FileDiscardSpec}.
Context {model : CacheModel}.

(** Offsets are unsigned, sources honest, and sizes that are given are right. *)
Definition allowed (w : World) (op : cache_op) : Prop :=
  match op with
  | OpOpen key source _ known => honest (content (cache_key_digest key)) source
      ∧ ∀ n, known = Some n → n = 0 ∨ n = zlen (content (cache_key_digest key))
  | OpOpenCacheOnly key size _ => size = zlen (content (cache_key_digest key))
  | OpSetSource h source =>
      ∀ f s, w_handles w !! h = Some f → source = Some s → honest (content (cf_cache_id f)) s
  | OpRead _ offset len _ => 0 ≤ offset ∧ 0 ≤ len
  | OpReadInto _ offset _ => 0 ≤ offset
  | OpRefill _ offset count => 0 ≤ offset ∧ 0 ≤ count
  | OpFadvise _ offset _ => 0 ≤ offset
  | OpBackground _ start len | OpBackgroundDropped _ start len _ => 0 ≤ start ∧ 0 ≤ len
  | OpRestart o => 0 ≤ opt_block_size o ≤ U64_MAX
  | _ => True
  end.

(** A process starts on a directory that holds something. *)
Definition resumes (w : World) (op : cache_op) : Prop :=
  match op with OpRestart _ => w_dirs w ≠ ∅ | _ => False end.

(** The second index: some process of the history has started like this. *)
Inductive reachable : World * bool → Prop → Prop :=
| reach_start : reachable (no_pool, false) False
| reach_step s op resumed : reachable s resumed → allowed s.1 op → reachable (step s op) (resumed ∨ resumes s.1 op).

(** ** The invariant of a history *)

Lemma pres_void {A} hs (m : cache A) : pres hs m → pres hs (void m).
Proof. intros Hm. apply pres_bind; [done|]. intros. apply pres_ret. Qed.

Lemma void_fst {A} (m : cache A) w : (void m w).1 = (m w).1.
Proof. unfold void, ebind. by destruct (m w) as [w' [x|e]]. Qed.

Lemma read_any {A} (m : cache A) w h : I [] w → (∀ f, w_handles w !! h = Some f → I [] (m w).1) →
  (w_handles w !! h = None → (m w).1 = w) → I [] (m w).1.
Proof. intros HI Hs Hn. destruct (w_handles w !! h) as [f|] eqn:E; [by eapply Hs|by rewrite Hn]. Qed.

Lemma no_handle_tryget w h o n : w_handles w !! h = None → tryget_size h o n w = (w, Err Dangling).
Proof. intros Hn. unfold tryget_size, ebind, get_handle. by rewrite Hn. Qed.

Lemma exec_I w op : I [] w → allowed w op → (∀ o, op ≠ OpRestart o) → I [] (exec op w).1.
Proof.
  intros HI Hal Hnr. assert (∀ A (m : cache A), pres [] m → I [] (m w).1) as Hp by (intros A m Hm; by apply Hm).
  destruct op; cbn [exec allowed] in *; rewrite ?void_fst.
  - destruct Hal. by apply open_file_I.
  - subst. by apply open_cache_only_I.
  - apply Hp, pres_close.
  - by apply set_source_I.
  - apply (read_any _ w h HI); [intros f Hf; by destruct (read_at_right [] w h f offset len flags HI Hf); [apply Hal..|]|].
    intros Hn. unfold read_at_with_flags, ebind at 1. by rewrite no_handle_tryget.
  - apply (read_any _ w h HI); [intros f Hf; by destruct (read_at_into_right [] w h f offset dst HI Hf)|].
    intros Hn. unfold read_at_into. destruct (is_nil dst); [done|]. unfold ebind at 1. by rewrite no_handle_tryget.
  - apply Hp, pres_query_file.
  - apply Hp, pres_file_try_refill; apply Hal.
  - by apply Hp, pres_fadvise.
  - apply Hp, pres_background; apply Hal.
  - apply Hp, pres_background_dropped; apply Hal.
  - apply Hp, pres_sync.
  - apply Hp, pres_file_evict.
  - apply Hp, pres_file_evict.
  - apply Hp, pres_evict_store_key.
  - apply Hp, pres_evict_by_size.
  - apply Hp, pres_evict_global.
  - apply Hp, pres_eviction_inner.
  - apply Hp, pres_checkpoint_dirty.
  - apply Hp, pres_set_capacity.
  - by apply Hp, pres_counters.
  - by destruct (Hnr o).
Qed.

(** The block size is one that [normalize] lets pass. *)
Lemma normalize_bs o o' : normalize o = Ok o' → 0 ≤ opt_block_size o ≤ U64_MAX → 4096 ≤ opt_block_size o' ≤ 2 ^ 63.
Proof.
  intros Hn Ho. unfold normalize in Hn. destruct (negb _); [|done]. cbn [ensure] in Hn. cbn -[Z.ltb is_multiple_of is_power_of_two] in Hn.
  set (o1 := if opt_block_size o =? 0 then _ else o) in Hn.
  assert (0 ≤ opt_block_size o1 ≤ U64_MAX) as H1.
  { unfold o1. destruct (opt_block_size o =? 0); [cbn; unfold DEFAULT_BLOCK_SIZE, U64_MAX; lia|done]. }
  destruct (Z.ltb_spec (opt_block_size o1) PAGE_SIZE); [done|].
  destruct (is_power_of_two (opt_block_size o1)) eqn:Ep; [|by rewrite !orb_true_r in Hn].
  destruct (_ || _) in Hn; [done|]. injection Hn as <-. split; [unfold PAGE_SIZE in *; lia|].
  unfold is_power_of_two in Ep. apply andb_true_iff in Ep as [_ Hl%Z.eqb_eq].
  destruct (Z.le_gt_cases (opt_block_size o1) (2 ^ 63)) as [|Hgt]; [done|]. exfalso.
  assert (∀ x, 2 ^ 63 ≤ x < 2 ^ 64 → Z.testbit x 63 = true) as Hbit.
  { intros x Hx. assert (Z.log2 x = 63) as <- by (apply Z.log2_unique; lia). apply Z.bit_log2. lia. }
  apply (f_equal (λ x, Z.testbit x 63)) in Hl. cbn beta in Hl.
  by rewrite Z.land_spec, !Hbit in Hl by (unfold U64_MAX in *; lia).
Qed.
End History.

(** The files and the machine stay, the block size is another. *)
Definition with_bs `{env : CacheEnv} (M : CacheModel) (bs : Z) (Hbs : 4096 ≤ bs ≤ 2 ^ 63) : CacheModel := {|
  pool_bs := bs; content := @content _ M; pool_bs_range := Hbs; content_small := @content_small _ M |}.

Section Reached.
Context {env : CacheEnv} {env_spec : CacheEnvSpec} {roaring : Roaring} {roaring_spec : RoaringSpec}
  {crc : Crc32c} {crc_spec : Crc32cSpec} {disc : FileDiscard} {disc_spec : FileDiscardSpec}.
Context {model : CacheModel}.

(** What a directory holds does not depend on the block size of the pool. *)
Lemma fit_with_bs bs Hbs w : fit (model := with_bs model bs Hbs) w ↔ fit w.
Proof. split; intros [[? ? ? ?] ?]; (split; [by split|done]). Qed.

(** A pool that runs keeps the invariant of its block size. *)
Definition good (s : World * bool) : Prop :=
  if s.2 then ∃ bs Hbs, I (model := with_bs model bs Hbs) [] s.1 else fit s.1.

Lemma restart_good w o : fit w → 0 ≤ opt_block_size o ≤ U64_MAX →
  good (let '(w', r) := with_options o w in (w', is_ok r)).
Proof.
  intros Hfit Ho. destruct (normalize o) as [o'|err] eqn:En.
  - pose proof (normalize_bs o o' En Ho) as Hbs.
    pose proof (with_options_run (model := with_bs model _ Hbs) o w (proj2 (fit_with_bs _ Hbs w) Hfit)) as Hr.
    specialize (Hr ltac:(intros o2 E2; rewrite En in E2; by injection E2 as <-)).
    destruct (with_options o w) as [w' [[]|err]]; cbn in *; [by eexists _, Hbs|by apply fit_with_bs in Hr].
  - unfold with_options. rewrite run_modify. unfold elift, ebind at 1. rewrite En. by apply (fit_same w).
Qed.

Lemma step_good s op : good s → allowed s.1 op → (resumes s.1 op → safe) → good (step s op).
Proof.
  intros Hg Hal Hres. destruct s as [w up].
  assert ((∀ o, op ≠ OpRestart o) → good (if up then ((exec op w).1, true) else (w, up))) as Hexec.
  { intros Hnr. destruct up; [|done]. destruct Hg as (bs & Hbs & HI). exists bs, Hbs.
    cbn [fst] in HI |- *. exact (exec_I (model := with_bs model bs Hbs) w op HI Hal Hnr). }
  destruct op; try (by apply Hexec). apply restart_good; [|done].
  destruct up; [|done]. destruct Hg as (bs & Hbs & HI). apply (fit_with_bs bs Hbs), I_fit; [done|].
  cbn in Hres. destruct (decide (w_dirs w = ∅)) as [|Hne]; [by right|by left; apply Hres].
Qed.

Lemma reachable_good s resumed : reachable s resumed → (resumed → safe) → good s.
Proof.
  induction 1 as [|s op resumed Hs IH Hal]; intros Hsafe; [|by apply step_good; auto]. split; [|by right]. by split; intros; try done.
Qed.

(** C5: In every state a history of the cache reaches, through evictions and
    refills in the foreground and in the background, with any system call
    failing at any time, a read through a handle that succeeds returns exactly
    the bytes of the file behind it, and it succeeds when the source of the
    handle does not fail and the read is not restricted to the cache; a read
    into a buffer puts those bytes at its start and keeps the rest.  The history
    may start the process again: always on an empty directory, and on what an
    earlier process has left there under the condition that copying a
    descriptor, removing [meta.bin] and removing a directory never fail. *)
Theorem reachable_read_right w resumed h f offset : reachable (w, true) resumed → (resumed → safe) →
  w_handles w !! h = Some f → 0 ≤ offset →
  (∀ len flags, 0 ≤ len → right (must_read_at f flags) (slice offset len (content (cf_cache_id f)))
     (read_at_with_flags h offset len flags w).2)
  ∧ ∀ dst, right (must_read_at f 0)
     (splice dst 0 (slice offset (zlen dst) (content (cf_cache_id f))), zlen (slice offset (zlen dst) (content (cf_cache_id f))))
     (read_at_into h offset dst w).2.
Proof.
  intros Hr Hsafe Hf Ho. apply reachable_good in Hr as (bs & Hbs & HI); [|done]. split.
  - intros len flags Hl. exact (proj2 (read_at_right (model := with_bs model bs Hbs) [] w h f offset len flags HI Hf Ho Hl)).
  - intros dst. exact (proj2 (read_at_into_right (model := with_bs model bs Hbs) [] w h f offset dst HI Hf Ho)).
Qed.

(** Opening a file in a reached state gives a handle on the file of its
    key, whose size is that of the file, whatever the pool knew of it. *)
Theorem reachable_open w resumed key source flags known h : reachable (w, true) resumed → (resumed → safe) →
  honest (content (cache_key_digest key)) source →
  (∀ n, known = Some n → n = 0 ∨ n = zlen (content (cache_key_digest key))) →
  (open_file_with_flags_and_size key source flags known w).2 = Ok h →
  w_handles (open_file_with_flags_and_size key source flags known w).1 !! h = Some
    {| cf_source := Some source; cf_cache_id := cache_key_digest key;
       cf_source_size := zlen (content (cache_key_digest key)); cf_open_flags := flags |}.
Proof.
  intros Hr Hsafe Hs Hk Hh. apply reachable_good in Hr as (bs & Hbs & HI); [|done].
  exact (proj2 (open_file_I (model := with_bs model bs Hbs) w key source flags known HI Hs Hk) h Hh).
Qed.
End Reached.

(** ** A cache that is started again *)

Fixpoint words (fuel : nat) (raw : list Z) : list Z :=
  match fuel with
  | O => []
  | S fuel' => if is_nil raw then [] else le_val (ztake 4 raw) :: words fuel' (zdrop 4 raw)
  end.

(** A bitmap as the list of its members. *)
#[local] Instance plain_roaring : Roaring := {|
  rb_serialize s := mjoin (le_bytes 4 <$> elements s);
  rb_deserialize raw := Some (list_to_set (words (length raw) raw)) |}.

Lemma words_le l : ∀ fuel, Forall (λ b, 0 ≤ b ≤ U32_MAX) l → (length l ≤ fuel)%nat → words fuel (mjoin (le_bytes 4 <$> l)) = l.
Proof.
  induction l as [|b l IH]; intros fuel Hl Hf; [by destruct fuel|]. destruct fuel as [|fuel]; [cbn in Hf; lia|].
  apply Forall_cons in Hl as [Hb Hl]. change (mjoin (le_bytes 4 <$> b :: l)) with (le_bytes 4 b ++ mjoin (le_bytes 4 <$> l)).
  assert (zlen (le_bytes 4 b) = 4) as Hz by apply zlen_le_bytes. cbn [words]. destruct (is_nil _) eqn:E; [by destruct l|].
  rewrite ztake_app_here, zdrop_app_here by done. f_equal.
  - apply le_val_le_bytes. unfold U32_MAX in Hb. lia.
  - apply IH; [done|]. cbn in Hf. lia.
Qed.

Lemma length_words l : (length l ≤ length (mjoin (le_bytes 4 <$> l)))%nat.
Proof.
  induction l as [|b l IH]; [done|]. change (mjoin (le_bytes 4 <$> b :: l)) with (le_bytes 4 b ++ mjoin (le_bytes 4 <$> l)).
  rewrite length_app. assert (length (le_bytes 4 b) = 4%nat) as -> by done. cbn [length]. lia.
Qed.

#[local] Instance plain_roaring_spec : RoaringSpec.
Proof.
  split.
  - intros s Hs. cbn. rewrite words_le; [by rewrite list_to_set_elements_L| |apply length_words].
    apply Forall_forall. intros b Hb%elem_of_elements. by apply Hs.
  - intros s. cbn [rb_serialize plain_roaring]. induction (elements s) as [|b l IH]; [by constructor|]. apply Forall_app. split; [apply le_bytes_bytes|done].
Qed.

(** A machine without failures, with a file of five bytes. *)
#[local] Instance sunny : CacheEnv := {|
  env_ok _ _ := true; env_now _ := 17; env_space _ := None; env_reserve _ := ReserveDone; env_left _ := (false, false);
  env_order _ l := l; env_unmaps _ := true; cache_key_digest k := k; MMAP_PAGE_SIZE := 4096 |}.

#[local] Instance sunny_spec : CacheEnvSpec.
Proof. split; [done|cbn; unfold U64_MAX; lia|done]. Qed.

Definition five (id : str) : list Z := if bool_decide (id = [97]) then [1; 2; 3; 4; 5] else [].

#[local] Program Instance sunny_model : CacheModel := {| pool_bs := 4096; content := five |}.
Next Obligation. lia. Qed.
Next Obligation. intros id. unfold five. by case_bool_decide. Qed.

Lemma sunny_safe : safe.
Proof. done. Qed.

Definition five_source : Source := {|
  so_read_into _ off len := (slice off len (five [97]), Ok (zlen (slice off len (five [97]))));
  so_read_at _ off len := Ok (slice off len (five [97]));
  so_size _ := Ok 5; so_sync _ := true |}.

Lemma slice_all {A} (F : list A) off len : 0 ≤ off → 0 ≤ len →
  0 ≤ zlen (slice off len F) ≤ len ∧ slice off (zlen (slice off len F)) F = slice off len F
  ∧ (0 < zlen (slice off len F) → off + zlen (slice off len F) ≤ zlen F).
Proof.
  intros Ho Hl. assert (zlen (slice off len F) = Z.max 0 (Z.min len (zlen F - off))) as Hz.
  { unfold slice. rewrite zlen_ztake, zlen_zdrop by lia. lia. }
  rewrite Hz. split_and!; [lia..| |lia]. destruct (Z.le_gt_cases (zlen F) off); [by rewrite !slice_past|].
  rewrite (slice_clip F off len) by done. f_equal. lia.
Qed.

Lemma five_honest : honest (five [97]) five_source.
Proof.
  split.
  - intros t off len n Ho Hl [= <-]. destruct (slice_all (five [97]) off len Ho Hl) as (H1 & H2 & H3). split_and!; [lia..| |done].
    cbn [so_read_into five_source fst]. rewrite H2. unfold ztake, zlen. apply take_ge. lia.
  - intros t off len bytes Ho Hl [= <-]. destruct (slice_all (five [97]) off len Ho Hl) as (H1 & H2 & H3).
    exists (zlen (slice off len (five [97]))). split_and!; [lia..|done|done].
  - by intros t n [= <-].
Qed.

#[local] Existing Instances crc32c_table_free crc32c_table_free_spec.
#[local] Existing Instances punch_hole punch_hole_spec.

Definition small_options : Options := {| opt_cache_dir := [99]; opt_capacity_bytes := 2 ^ 40;
  opt_mmap_capacity_bytes := 2 ^ 40; opt_block_size := 4096; opt_open_evict_idle := 0 |}.

(** The file is read and checkpointed, the process starts again, and the file
    is opened without a source. *)
Definition warm : World * bool :=
  fold_left step [OpRestart small_options; OpOpen [97] five_source 0 None; OpRead 2 1 3 0; OpSync 2;
                  OpRestart small_options; OpOpenCacheOnly [97] 5 0] (no_pool, false).

Example warm_read : (read_at_with_flags 4 1 3 0 warm.1).2 = Ok [2; 3; 4].
Proof. vm_compute. reflexivity. Qed.

Definition cold : World * bool :=
  fold_left step [OpRestart small_options; OpOpen [97] five_source 0 None] (no_pool, false).

Lemma cold_reachable : ∃ resumed, reachable (cold.1, true) resumed.
Proof.
  assert (cold.2 = true) as <- by (vm_compute; reflexivity). rewrite <- surjective_pairing.
  unfold cold. cbn [fold_left]. eexists. apply reach_step; [apply reach_step; [apply reach_start|done]|].
  split; [apply five_honest|done].
Qed.

Lemma warm_reachable : ∃ resumed, reachable (warm.1, true) resumed.
Proof.
  assert (warm.2 = true) as <- by (vm_compute; reflexivity). rewrite <- surjective_pairing.
  unfold warm. cbn [fold_left]. eexists. repeat apply reach_step; [apply reach_start|..]; try done.
  split; [apply five_honest|done].
Qed.

Lemma reachable_read_right_witness :
  let f := {| cf_source := None; cf_cache_id := [97]; cf_source_size := 5; cf_open_flags := 0 |} in
  right (must_read_at f 0) (slice 1 3 (content (cf_cache_id f))) (read_at_with_flags 4 1 3 0 warm.1).2.
Proof.
  intros f. assert (w_handles warm.1 !! 4 = Some f) as Hf by (vm_compute; reflexivity).
  destruct warm_reachable as [resumed Hr].
  destruct (reachable_read_right warm.1 resumed 4 f 1 Hr (λ _, sunny_safe) Hf ltac:(lia)) as [Hread _]. exact (Hread 3 0 ltac:(lia)).
Defined.

Lemma reachable_open_witness :
  w_handles (open_file_with_flags_and_size [97] five_source 0 None warm.1).1 !! 5 = Some
    {| cf_source := Some five_source; cf_cache_id := [97]; cf_source_size := 5; cf_open_flags := 0 |}.
Proof.
  destruct warm_reachable as [resumed Hr].
  apply (reachable_open warm.1 resumed [97] five_source 0 None 5 Hr (λ _, sunny_safe) five_honest); [done|vm_compute; reflexivity].
Defined.

Lemma background_chunks_cover_witness : ∃ a e, cache_entries (w_state cold.1) !! [97] = Some (Active a)
  ∧ w_heap cold.1 !! a = Some e ∧ ∀ b, 0 ≤ b → b * 4096 < 5 → b ∉ ce_index e → ∃ c, c ∈ [(0, 1)] ∧ c.1 ≤ b < c.1 + c.2.
Proof.
  destruct (background_chunks_cover cold.1 2 {| cf_source := Some five_source; cf_cache_id := [97]; cf_source_size := 5;
    cf_open_flags := 0 |} 5 1 [(0, 1)] cold.1) as (_ & a & e & Ha & He & _ & _ & Hc);
    [vm_compute; reflexivity|lia|vm_compute; reflexivity..|]. exists a, e. auto.
Defined.

Lemma background_refill_complete_witness :
  let w' := (background_refill_range 2 five_source 5 0 1 cold.1).1 in
  ∃ e', w_heap w' !! 1 = Some e' ∧ ∀ b, 0 ≤ b < 0 + 1 → b ∈ ce_index e'.
Proof.
  intros w'. destruct (w_heap cold.1 !! 1) as [e|] eqn:He; [|vm_compute in He; discriminate].
  destruct (background_refill_complete cold.1 2 {| cf_source := Some five_source; cf_cache_id := [97]; cf_source_size := 5;
    cf_open_flags := 0 |} 1 e five_source 5 0 1 5 w') as (e' & He' & _ & Hall);
    [vm_compute; reflexivity|vm_compute; reflexivity|exact He|lia..|vm_compute; reflexivity| | |exists e'; auto].
  - vm_compute. discriminate.
  - vm_compute. reflexivity.
Defined.

Lemma listing_complete_witness :
  (list_pages 2 [] All None 1 warm.1).2 = Ok (List.filter (keep_key [] All) (merge_sort str_le (entry_keys warm.1))).
Proof.
  apply (listing_complete warm.1 [] All 1); [|vm_compute; repeat constructor; discriminate|lia].
  vm_compute. repeat constructor. set_solver.
Defined.

Lemma meta_roundtrip_witness :
  let m := {| md_header := {| mh_magic := META_MAGIC; mh_version := META_VERSION; mh_source_size := 5; mh_block_size := 4096;
    mh_last_access := 17; mh_hits := 1; mh_misses := 2; mh_refills := 3 |}; md_key := [97]; md_bitmap := {[0; 7]} |} in
  ∃ raw, to_bytes m = Ok raw ∧ from_bytes raw = Ok m.
Proof.
  apply meta_roundtrip. split; try (cbn; unfold U64_MAX; lia); try done.
  cbn. intros b Hb. unfold U32_MAX. set_solver by lia.
Defined.
