(* ===== verification/CacheConc.v ===== *)
(** * Concurrent tasks on one entry

    Readers, refills, checkpoints and evictions of one [CacheEntry] as a step
    relation: a step is what a task does between two points at which another
    task can run, and the process can end between any two steps.  The tasks
    share the bitmap, the bytes of the blocks, [meta.bin], the set of blocks
    that are being loaded and the refill/eviction barrier, of which readers,
    refills and checkpoints hold the read side and an eviction the write side.

    Blocks are numbered; [content] has the bytes of each block of the file.  A
    fetch writes into the mapped file piece by piece, and what a hole leaves is
    left open: both put any bytes into a block.

    Every call of an eviction can fail, and its future can be dropped while its
    closure runs.  Two of these outcomes defeat the barrier and the order of the
    eviction; the state records when they have happened ([es_kept], [es_lost]),
    and the end of the file shows what they lead to. *)

From stdpp Require Import gmap functions.
From S2P Require Import Prelude CacheEntry.

(** Where a task is.  An eviction is [Spawned] while its closure has not yet
    removed [meta.bin].  [Detached] is an eviction whose future was dropped: its
    closure still runs, without the barrier. *)
Inductive task : Type :=
| Reading (b : Z)
| Refilling (b : Z)
| Loading (b : Z)
| Loaded (b : Z)
| Published (b : Z)
| Snapshot (X : gset Z)
| Locked
| Cleared
| Spawned
| Unlisted
| Detached
| DetachedUnlisted.

Definition holds_read (t : task) : bool :=
  match t with Reading _ | Refilling _ | Loading _ | Loaded _ | Published _ | Snapshot _ => true | _ => false end.

Definition holds_write (t : task) : bool :=
  match t with Locked | Cleared | Spawned | Unlisted => true | _ => false end.

(** [es_kept]: an eviction has failed to remove [meta.bin], which has not been
    written or removed since.  [es_lost]: an eviction was dropped while its
    closure ran, or a process has started on such a [meta.bin]. *)
Record EntryState : Type := {
  es_index : gset Z;
  es_data : Z → list Z;
  es_meta : option (gset Z);
  es_loading : gset Z;
  es_tasks : gmap Z task;
  es_kept : bool;
  es_lost : bool
}.

Definition no_writer (s : EntryState) : Prop := ∀ i t, es_tasks s !! i = Some t → holds_write t = false.
Definition no_reader (s : EntryState) : Prop := ∀ i t, es_tasks s !! i = Some t → holds_read t = false.

Definition with_task (i : Z) (t : option task) (s : EntryState) : EntryState := {|
  es_index := es_index s; es_data := es_data s; es_meta := es_meta s; es_loading := es_loading s;
  es_tasks := match t with Some t => <[i := t]> (es_tasks s) | None => delete i (es_tasks s) end;
  es_kept := es_kept s; es_lost := es_lost s |}.

Definition with_index (X : gset Z) (s : EntryState) : EntryState := {|
  es_index := X; es_data := es_data s; es_meta := es_meta s; es_loading := es_loading s; es_tasks := es_tasks s;
  es_kept := es_kept s; es_lost := es_lost s |}.

Definition with_data (d : Z → list Z) (s : EntryState) : EntryState := {|
  es_index := es_index s; es_data := d; es_meta := es_meta s; es_loading := es_loading s; es_tasks := es_tasks s;
  es_kept := es_kept s; es_lost := es_lost s |}.

Definition with_meta (m : option (gset Z)) (s : EntryState) : EntryState := {|
  es_index := es_index s; es_data := es_data s; es_meta := m; es_loading := es_loading s; es_tasks := es_tasks s;
  es_kept := false; es_lost := es_lost s |}.

(** [meta.bin] outlives an eviction that fails. *)
Definition keep_meta (s : EntryState) : EntryState := {|
  es_index := es_index s; es_data := es_data s; es_meta := es_meta s; es_loading := es_loading s; es_tasks := es_tasks s;
  es_kept := true; es_lost := es_lost s |}.

Definition lose (s : EntryState) : EntryState := {|
  es_index := es_index s; es_data := es_data s; es_meta := es_meta s; es_loading := es_loading s; es_tasks := es_tasks s;
  es_kept := es_kept s; es_lost := true |}.

Definition with_loading (X : gset Z) (s : EntryState) : EntryState := {|
  es_index := es_index s; es_data := es_data s; es_meta := es_meta s; es_loading := X; es_tasks := es_tasks s;
  es_kept := es_kept s; es_lost := es_lost s |}.

(** A process that starts takes over the bitmap of [meta.bin]. *)
Definition restarted (s : EntryState) : EntryState := {|
  es_index := default ∅ (es_meta s); es_data := es_data s; es_meta := es_meta s; es_loading := ∅; es_tasks := ∅;
  es_kept := es_kept s; es_lost := es_lost s || es_kept s |}.

(** An entry that has just been created, on a data file with any bytes. *)
Definition created (d : Z → list Z) : EntryState := {|
  es_index := ∅; es_data := d; es_meta := None; es_loading := ∅; es_tasks := ∅; es_kept := false; es_lost := false |}.

Section Conc.
Context (content : Z → list Z).

(** [CacheEntry::read_block]; the bytes it returns keep the permit. *)
Inductive read_step : EntryState → EntryState → Prop :=
| read_begin s i b : es_tasks s !! i = None → no_writer s → b ∈ es_index s →
    read_step s (with_task i (Some (Reading b)) s)
| read_end s i b : es_tasks s !! i = Some (Reading b) → read_step s (with_task i None s).

(** A refill of one block: the permit, the election of the loader, the fetch
    into the mapping, the publication, and the end of the election.  A fetch
    that fails or is dropped gives the block back. *)
Inductive refill_step : EntryState → EntryState → Prop :=
| refill_begin s i b : es_tasks s !! i = None → no_writer s → refill_step s (with_task i (Some (Refilling b)) s)
| refill_leave s i b : es_tasks s !! i = Some (Refilling b) → refill_step s (with_task i None s)
| refill_elect s i b : es_tasks s !! i = Some (Refilling b) → b ∉ es_index s → b ∉ es_loading s →
    refill_step s (with_task i (Some (Loading b)) (with_loading ({[b]} ∪ es_loading s) s))
| refill_fetch s i b x : es_tasks s !! i = Some (Loading b) → refill_step s (with_data (<[b := x]> (es_data s)) s)
| refill_fetched s i b : es_tasks s !! i = Some (Loading b) →
    refill_step s (with_task i (Some (Loaded b)) (with_data (<[b := content b]> (es_data s)) s))
| refill_failed s i b x : es_tasks s !! i = Some (Loading b) →
    refill_step s (with_task i None (with_loading (es_loading s ∖ {[b]}) (with_data (<[b := x]> (es_data s)) s)))
| refill_publish s i b : es_tasks s !! i = Some (Loaded b) →
    refill_step s (with_task i (Some (Published b)) (with_index ({[b]} ∪ es_index s) s))
| refill_finish s i b : es_tasks s !! i = Some (Published b) →
    refill_step s (with_task i None (with_loading (es_loading s ∖ {[b]}) s)).

(** [CacheEntry::checkpoint]: the snapshot under the permit, then the rename
    that puts it in place. *)
Inductive checkpoint_step : EntryState → EntryState → Prop :=
| checkpoint_begin s i : es_tasks s !! i = None → no_writer s →
    checkpoint_step s (with_task i (Some (Snapshot (es_index s))) s)
| checkpoint_write s i X : es_tasks s !! i = Some (Snapshot X) →
    checkpoint_step s (with_task i None (with_meta (Some X) s))
| checkpoint_failed s i X : es_tasks s !! i = Some (Snapshot X) → checkpoint_step s (with_task i None s).

(** [CacheEntry::evict_all_blocks]: the write side of the barrier, the bitmap,
    the copy of the descriptor, and the closure that removes [meta.bin] and
    makes the hole.  Each of the calls can fail, and so can the closure itself;
    the future can be dropped while it waits for the closure, which goes on. *)
Inductive evict_step : EntryState → EntryState → Prop :=
| evict_begin s i : es_tasks s !! i = None → no_writer s → no_reader s → evict_step s (with_task i (Some Locked) s)
| evict_clear s i : es_tasks s !! i = Some Locked → evict_step s (with_task i (Some Cleared) (with_index ∅ s))
| evict_clone_failed s i : es_tasks s !! i = Some Cleared → evict_step s (with_task i None (keep_meta s))
| evict_spawn s i : es_tasks s !! i = Some Cleared → evict_step s (with_task i (Some Spawned) s)
| evict_unlist s i : es_tasks s !! i = Some Spawned → evict_step s (with_task i (Some Unlisted) (with_meta None s))
| evict_unlist_failed s i : es_tasks s !! i = Some Spawned → evict_step s (with_task i None (keep_meta s))
| evict_punch s i d : es_tasks s !! i = Some Unlisted → evict_step s (with_task i None (with_data d s))
| evict_unpunched s i : es_tasks s !! i = Some Unlisted → evict_step s (with_task i None s)
| evict_dropped s i : es_tasks s !! i = Some Spawned → evict_step s (with_task i (Some Detached) (lose s))
| evict_dropped_late s i : es_tasks s !! i = Some Unlisted → evict_step s (with_task i (Some DetachedUnlisted) (lose s))
| detached_unlist s i : es_tasks s !! i = Some Detached →
    evict_step s (with_task i (Some DetachedUnlisted) (with_meta None s))
| detached_unlist_failed s i : es_tasks s !! i = Some Detached → evict_step s (with_task i None (keep_meta s))
| detached_punch s i d : es_tasks s !! i = Some DetachedUnlisted → evict_step s (with_task i None (with_data d s))
| detached_unpunched s i : es_tasks s !! i = Some DetachedUnlisted → evict_step s (with_task i None s).

(** The tasks, and the end of the process. *)
Inductive conc_step : EntryState → EntryState → Prop :=
| step_read s s' : read_step s s' → conc_step s s'
| step_refill s s' : refill_step s s' → conc_step s s'
| step_checkpoint s s' : checkpoint_step s s' → conc_step s s'
| step_evict s s' : evict_step s s' → conc_step s s'
| step_crash s : conc_step s (restarted s).

Inductive conc_reachable : EntryState → Prop :=
| conc_start d : conc_reachable (created d)
| conc_next s s' : conc_reachable s → conc_step s s' → conc_reachable s'.

(** ** The invariant *)

(** What each task relies on. *)
Definition task_ok (s : EntryState) (t : task) : Prop :=
  match t with
  | Reading b => b ∈ es_index s
  | Refilling _ => True
  | Loading b => b ∈ es_loading s ∧ b ∉ es_index s
  | Loaded b => b ∈ es_loading s ∧ es_data s b = content b
  | Published b => b ∈ es_loading s ∧ b ∈ es_index s
  | Snapshot X => X ⊆ es_index s
  | Locked => True
  | Cleared | Spawned => es_index s = ∅
  | Unlisted => es_index s = ∅ ∧ es_meta s = None
  | Detached | DetachedUnlisted => False
  end.

(** The block a task has been elected for. *)
Definition elected (t : task) : option Z :=
  match t with Loading b | Loaded b | Published b => Some b | _ => None end.

(** An eviction has cleared the bitmap and not yet removed [meta.bin]. *)
Definition clears (t : task) : bool := match t with Cleared | Spawned => true | _ => false end.
Definition clearing (s : EntryState) : Prop := ∃ i t, es_tasks s !! i = Some t ∧ clears t = true.

Record conc_inv (s : EntryState) : Prop := {
  ci_index : ∀ b, b ∈ es_index s → es_data s b = content b;
  ci_meta : es_kept s = false → ∀ X b, es_meta s = Some X → b ∈ X → es_data s b = content b ∧ (b ∈ es_index s ∨ clearing s);
  ci_tasks : ∀ i t, es_tasks s !! i = Some t → task_ok s t;
  ci_elected : ∀ i j t t' b, es_tasks s !! i = Some t → es_tasks s !! j = Some t' →
    elected t = Some b → elected t' = Some b → i = j;
  ci_barrier : ∀ i j t t', es_tasks s !! i = Some t → es_tasks s !! j = Some t' → holds_write t = true → i = j
}.

(** A reader and an eviction exclude each other. *)
Lemma reader_no_writer s i t : conc_inv s → es_tasks s !! i = Some t → holds_read t = true → no_writer s.
Proof.
  intros [_ _ _ _ Hb] Ht Hr j t' Ht'. destruct (holds_write t') eqn:Hw; [|done].
  pose proof (Hb j i t' t Ht' Ht Hw) as ->. rewrite Ht in Ht'. injection Ht' as <-. by destruct t.
Qed.

Lemma no_writer_clearing s : no_writer s → ¬ clearing s.
Proof. intros Hn (i & t & Hi & Hc). specialize (Hn i t Hi). by destruct t. Qed.

(** A block that is loaded is neither in the bitmap nor in [meta.bin]. *)
Lemma loading_unlisted s i b : conc_inv s → es_tasks s !! i = Some (Loading b) →
  (b ∉ es_index s) ∧ (es_kept s = false → ∀ X, es_meta s = Some X → b ∉ X).
Proof.
  intros Hi Ht. pose proof (no_writer_clearing s (reader_no_writer s i _ Hi Ht eq_refl)) as Hc.
  destruct (ci_tasks s Hi i _ Ht) as [_ Hn]. split; [done|]. intros Hk X HX Hb.
  destruct (ci_meta s Hi Hk X b HX Hb) as [_ [?|?]]; done.
Qed.

(** A task comes, moves on or goes; the rest of the state stays. *)
Lemma task_step s i t : conc_inv s →
  (∀ t', t = Some t' → task_ok s t' ∧ (∀ b, elected t' = Some b → ∀ j u, es_tasks s !! j = Some u → elected u = Some b → j = i)
     ∧ (holds_write t' = true → ∀ j u, es_tasks s !! j = Some u → j = i)
     ∧ (∀ j u, es_tasks s !! j = Some u → holds_write u = true → j = i)) →
  (∀ u, es_tasks s !! i = Some u → clears u = false) ∨ es_kept s = true →
  conc_inv (with_task i t s).
Proof.
  intros Hi Ht Hcl. destruct Hi as [Hx Hm Hok He Hb].
  assert (∀ j u, es_tasks (with_task i t s) !! j = Some u →
    (j = i ∧ t = Some u) ∨ (j ≠ i ∧ es_tasks s !! j = Some u)) as Hlook.
  { intros j u. cbn. destruct t as [t'|].
    - intros [[<- <-]|[? ?]]%lookup_insert_Some; auto.
    - intros [? ?]%lookup_delete_Some; auto. }
  assert (∀ j u, (j ≠ i ∧ es_tasks s !! j = Some u) → es_tasks (with_task i t s) !! j = Some u) as Hkeep.
  { intros j u [Hne Hj]. cbn. destruct t; [by rewrite lookup_insert_ne|by rewrite lookup_delete_ne]. }
  split; [done|..].
  - cbn [es_kept with_task]. intros Hk X b HX Hbx. destruct Hcl as [Hcl|Hcl]; [|congruence].
    destruct (Hm Hk X b HX Hbx) as [Hd [Hin|(j & u & Hj & Hu)]]; split; try done; [by left|right]. exists j, u.
    split; [|done]. destruct (decide (j = i)) as [->|]; [|by apply Hkeep]. by rewrite (Hcl u Hj) in Hu.
  - intros j u [[-> Hu]|[_ Hj]]%Hlook; [by apply Ht|by apply (Hok j u)].
  - intros j k u v b [[-> Hu]|[Hne Hj]]%Hlook [[-> Hv]|[Hne' Hk]]%Hlook Eu Ev; try done; [..|by eapply He].
    + destruct (Ht u Hu) as (_ & He' & _). symmetry. exact (He' b Eu k v Hk Ev).
    + destruct (Ht v Hv) as (_ & He' & _). exact (He' b Ev j u Hj Eu).
  - intros j k u v [[-> Hu]|[Hne Hj]]%Hlook [[-> Hv]|[Hne' Hk]]%Hlook Hw; try done; [..|by eapply Hb].
    + destruct (Ht u Hu) as (_ & _ & Hw' & _). symmetry. exact (Hw' Hw k v Hk).
    + destruct (Ht v Hv) as (_ & _ & _ & Hw'). exact (Hw' j u Hj Hw).
Qed.

Lemma task_gone s i t : conc_inv s → es_tasks s !! i = Some t → clears t = false ∨ es_kept s = true →
  conc_inv (with_task i None s).
Proof.
  intros Hi Ht Hc. apply task_step; [done|done|]. destruct Hc as [Hc|Hc]; [left|by right]. intros u Hu. congruence.
Qed.

(** A task that holds neither side of the barrier starts to read. *)
Lemma reader_comes s i t : conc_inv s → no_writer s → holds_read t = true → elected t = None → task_ok s t →
  es_tasks s !! i = None → conc_inv (with_task i (Some t) s).
Proof.
  intros Hi Hw Hr He Hok Hn. apply task_step; [done| |left; congruence]. intros t' [= <-]. split_and!; [done|by rewrite He|..].
  - by destruct t.
  - intros j u Hj Hu. by rewrite (Hw j u Hj) in Hu.
Qed.

(** A task with a permit moves on, for a block it alone is elected for. *)
Lemma reader_moves s i t t' : conc_inv s → es_tasks s !! i = Some t → holds_read t = true → holds_read t' = true →
  task_ok s t' → (∀ b, elected t' = Some b → ∀ j u, es_tasks s !! j = Some u → elected u = Some b → j = i) →
  conc_inv (with_task i (Some t') s).
Proof.
  intros Hi Ht Hr Hr' Hok He. pose proof (reader_no_writer s i t Hi Ht Hr) as Hw.
  apply task_step; [done| |left; intros u Hu; rewrite Ht in Hu; injection Hu as <-; by destruct t]. intros u [= <-]. split_and!; [done..| |].
  - by destruct t'.
  - intros j v Hj Hv. by rewrite (Hw j v Hj) in Hv.
Qed.

(** The bytes of a block that is being loaded change. *)
Lemma data_loading s i b x : conc_inv s → es_tasks s !! i = Some (Loading b) →
  conc_inv (with_data (<[b := x]> (es_data s)) s).
Proof.
  intros Hi Ht. destruct (loading_unlisted s i b Hi Ht) as [Hn Hm]. destruct Hi as [Hx Hmeta Hok He Hb].
  split; [..|done|done]; cbn.
  - intros b' Hb'. rewrite fn_lookup_insert_ne by (intros <-; done). by apply Hx.
  - intros Hk X b' HX Hb'. rewrite fn_lookup_insert_ne by (intros <-; by eapply Hm). by apply (Hmeta Hk X b').
  - intros j t Hj. pose proof (Hok j t Hj) as Hj'. destruct t; try done. destruct Hj' as [Hl Hd]. split; [done|]. cbn.
    destruct (decide (b0 = b)) as [->|]; [|by rewrite fn_lookup_insert_ne].
    pose proof (He i j _ _ b Ht Hj eq_refl eq_refl) as <-. by rewrite Ht in Hj.
Qed.

(** The election of a block ends. *)
Lemma election_ends s b : conc_inv s → (∀ i t, es_tasks s !! i = Some t → elected t ≠ Some b) →
  conc_inv (with_loading (es_loading s ∖ {[b]}) s).
Proof.
  intros [Hx Hmeta Hok He Hb] Hno. split; try done. intros i t Ht. pose proof (Hok i t Ht) as Hi.
  specialize (Hno i t Ht). destruct t; cbn in *; try done.
  all: destruct Hi as [Hl ?]; (split; [|done]); apply elem_of_difference; (split; [done|]); by intros ->%elem_of_singleton.
Qed.

(** The elected task goes. *)
Lemma leave_election s i t b : conc_inv s → es_tasks s !! i = Some t → elected t = Some b →
  conc_inv (with_task i None (with_loading (es_loading s ∖ {[b]}) s)).
Proof.
  intros Hi Ht He. assert (conc_inv (with_task i None s)) as Hi' by (eapply task_gone; [done|exact Ht|left; by destruct t]).
  apply (election_ends _ b) in Hi'; [exact Hi'|]. intros j u Hj Hu. cbn in Hj. apply lookup_delete_Some in Hj as [Hne Hj].
  apply Hne. by apply (ci_elected s Hi i j t u b).
Qed.

Lemma election_starts s b : conc_inv s → conc_inv (with_loading ({[b]} ∪ es_loading s) s).
Proof.
  intros [Hx Hmeta Hok He Hb]. split; try done. intros i t Ht. pose proof (Hok i t Ht) as Hi.
  destruct t; cbn in *; try done. all: destruct Hi as [Hl ?]; (split; [|done]); apply elem_of_union; by right.
Qed.

(** A block that is there is listed. *)
Lemma index_add s i b : conc_inv s → es_tasks s !! i = Some (Loaded b) → conc_inv (with_index ({[b]} ∪ es_index s) s).
Proof.
  intros Hi Ht. pose proof (reader_no_writer s i _ Hi Ht eq_refl) as Hw. destruct (ci_tasks s Hi i _ Ht) as [_ Hd].
  destruct Hi as [Hx Hmeta Hok He Hb]. split; [..|done|done]; cbn.
  - intros b' [->%elem_of_singleton|Hb']%elem_of_union; [done|by apply Hx].
  - intros Hk X b' HX Hb'. destruct (Hmeta Hk X b' HX Hb') as [? [?|?]]; split; try done; [left; set_solver|by right].
  - intros j t Hj. pose proof (Hok j t Hj) as Hj'. pose proof (Hw j t Hj) as Hwj. destruct t; cbn in *; try done.
    + apply elem_of_union. by right.
    + split; [by apply Hj'|]. intros [->%elem_of_singleton|?]%elem_of_union; [|by apply Hj'].
      pose proof (He i j _ _ b Ht Hj eq_refl eq_refl) as <-. by rewrite Ht in Hj.
    + split; [by apply Hj'|]. apply elem_of_union. right. by apply Hj'.
    + intros b' Hb'. apply elem_of_union. right. by apply Hj'.
Qed.

(** ** The steps keep the invariant *)

Lemma read_step_inv s s' : conc_inv s → read_step s s' → conc_inv s'.
Proof.
  intros Hi Hs. destruct Hs as [s i b Hn Hw Hb|s i b Ht]; [|eapply task_gone; [done|exact Ht|by left]].
  by apply reader_comes.
Qed.

Lemma refill_step_inv s s' : conc_inv s → refill_step s s' → conc_inv s'.
Proof.
  intros Hi Hs. destruct Hs as [s i b Hn Hw|s i b Ht|s i b Ht Hx Hl|s i b x Ht|s i b Ht|s i b x Ht|s i b Ht|s i b Ht].
  - by apply reader_comes.
  - eapply task_gone; [done|exact Ht|by left].
  - apply (reader_moves _ i (Refilling b)); [by apply election_starts|done..| |].
    + cbn. split; [apply elem_of_union; left; by apply elem_of_singleton|done].
    + intros b' [= <-] j u Hj Hu. exfalso. apply Hl. pose proof (ci_tasks s Hi j u Hj) as Ho.
      destruct u; cbn in *; try done; injection Hu as ->; apply Ho.
  - by apply (data_loading s i).
  - apply (reader_moves _ i (Loading b)); [by apply (data_loading s i)|done..| |].
    + cbn. split; [by apply (ci_tasks s Hi i _ Ht)|by rewrite fn_lookup_insert].
    + intros b' [= <-] j u Hj Hu. by apply (ci_elected s Hi j i u (Loading b) b).
  - apply (leave_election (with_data (<[b := x]> (es_data s)) s) i (Loading b)); [by apply (data_loading s i)|done..].
  - apply (reader_moves _ i (Loaded b)); [by apply (index_add s i)|done..| |].
    + cbn. split; [by apply (ci_tasks s Hi i _ Ht)|apply elem_of_union; left; by apply elem_of_singleton].
    + intros b' [= <-] j u Hj Hu. by apply (ci_elected s Hi j i u (Loaded b) b).
  - by apply (leave_election s i (Published b)).
Qed.

Lemma checkpoint_step_inv s s' : conc_inv s → checkpoint_step s s' → conc_inv s'.
Proof.
  intros Hi Hs. destruct Hs as [s i Hn Hw|s i X Ht|s i X Ht].
  - apply reader_comes; [done|done|done|done|cbn; reflexivity|done].
  - eapply task_gone; [|cbn; exact Ht|by left]. pose proof (ci_tasks s Hi i _ Ht) as HX. cbn in HX.
    pose proof (reader_no_writer s i _ Hi Ht eq_refl) as Hw. destruct Hi as [Hx Hm Hok He Hb]. split; try done; cbn.
    + intros _ Y b [= <-] Hb'. split; [by apply Hx, HX|left; by apply HX].
    + intros j t Hj. pose proof (Hok j t Hj) as Hj'. pose proof (Hw j t Hj). by destruct t.
  - eapply task_gone; [done|exact Ht|by left].
Qed.

(** An eviction that has the barrier is the only task. *)
Lemma writer_alone s i t j u : conc_inv s → es_tasks s !! i = Some t → holds_write t = true → es_tasks s !! j = Some u →
  j = i ∧ u = t.
Proof.
  intros Hi Ht Hw Hj. pose proof (ci_barrier s Hi i j t u Ht Hj Hw) as <-. rewrite Ht in Hj. by injection Hj as <-.
Qed.

(** The one task of an eviction moves on. *)
Lemma writer_moves s s' i t t' : conc_inv s → es_tasks s !! i = Some t → holds_write t = true → elected t' = None →
  es_tasks s' = <[i := t']> (es_tasks s) → (∀ b, b ∈ es_index s' → es_data s' b = content b) →
  (es_kept s' = false → ∀ X b, es_meta s' = Some X → b ∈ X → es_data s' b = content b ∧ (b ∈ es_index s' ∨ clears t' = true)) →
  task_ok s' t' → conc_inv s'.
Proof.
  intros Hi Ht Hw He Htasks Hx Hm Hok.
  assert (∀ j u, es_tasks s' !! j = Some u → j = i ∧ u = t') as Hone.
  { intros j u. rewrite Htasks. intros [[<- <-]|[Hne Hj]]%lookup_insert_Some; [done|].
    destruct (writer_alone s i t j u Hi Ht Hw Hj) as [-> _]. done. }
  split; [done|..].
  - intros Hk X b HX Hb. destruct (Hm Hk X b HX Hb) as [Hd [?|Hc]]; split; try done; [by left|right].
    exists i, t'. rewrite Htasks. by rewrite lookup_insert_eq.
  - intros j u [-> ->]%Hone. done.
  - intros j k u v b [-> ->]%Hone [-> ->]%Hone. done.
  - intros j k u v [-> ->]%Hone [-> ->]%Hone. done.
Qed.

(** The eviction returns with [meta.bin] still there. *)
Lemma kept_gone s i t : conc_inv s → es_tasks s !! i = Some t → holds_write t = true → conc_inv (with_task i None (keep_meta s)).
Proof.
  intros Hi Ht Hw. eapply task_gone; [|cbn; exact Ht|by right]. destruct Hi as [Hx Hm Hok He Hb]. by split.
Qed.

Lemma evict_step_inv s s' : es_lost s' = false → conc_inv s → evict_step s s' → conc_inv s'.
Proof.
  intros Hl Hi Hs. destruct Hs as [s i Hn Hw Hr|s i Ht|s i Ht|s i Ht|s i Ht|s i Ht|s i d Ht|s i Ht
    |s i Ht|s i Ht|s i Ht|s i Ht|s i d Ht|s i Ht]; try done;
    try (by destruct (ci_tasks s Hi i _ Ht)).
  - apply task_step; [done| |left; congruence]. intros t [= <-]. split_and!; [done..| |].
    + intros _ j u Hj. pose proof (Hw j u Hj). pose proof (Hr j u Hj). pose proof (ci_tasks s Hi j u Hj). by destruct u.
    + intros j u Hj Hu. by rewrite (Hw j u Hj) in Hu.
  - apply (writer_moves s _ i Locked Cleared); try done. intros Hk X b HX Hb. cbn. split; [|by right]. by apply (ci_meta s Hi Hk X b).
  - by eapply kept_gone.
  - apply (writer_moves s _ i Cleared Spawned); try done; cbn; [by apply ci_index| |by apply (ci_tasks s Hi i _ Ht)].
    intros Hk X b HX Hb. split; [|by right]. by apply (ci_meta s Hi Hk X b).
  - apply (writer_moves s _ i Spawned Unlisted); try done; cbn; [by apply ci_index|]. split; [|done].
    apply (ci_tasks s Hi i _ Ht).
  - by eapply kept_gone.
  - destruct (ci_tasks s Hi i _ Ht) as [Hx Hm].
    assert (conc_inv (with_data d s)) as Hi'; [|eapply task_gone; [done|cbn; exact Ht|by left]].
    split; cbn; [by rewrite Hx|by rewrite Hm| |apply Hi..]. intros j u Hj.
    destruct (writer_alone s i _ j u Hi Ht eq_refl Hj) as [-> ->]. done.
  - eapply task_gone; [done|exact Ht|by left].
Qed.

(** What has been lost stays lost. *)
Lemma lost_step s s' : conc_step s s' → es_lost s' = false → es_lost s = false.
Proof.
  intros Hs. destruct Hs as [s1 s2 Hs|s1 s2 Hs|s1 s2 Hs|s1 s2 Hs|s1]; [by destruct Hs..|]. cbn. by intros [? _]%orb_false_iff.
Qed.

Lemma conc_step_inv s s' : es_lost s' = false → conc_inv s → conc_step s s' → conc_inv s'.
Proof.
  intros Hl Hi Hs. destruct Hs as [s1 s2 Hs|s1 s2 Hs|s1 s2 Hs|s1 s2 Hs|s1];
    [exact (read_step_inv s1 s2 Hi Hs)|exact (refill_step_inv s1 s2 Hi Hs)|exact (checkpoint_step_inv s1 s2 Hi Hs)
    |exact (evict_step_inv s1 s2 Hl Hi Hs)|].
  cbn in Hl. apply orb_false_iff in Hl as [_ Hk].
  assert (∀ b, b ∈ default ∅ (es_meta s1) → es_data s1 b = content b) as Hm.
  { intros b Hb. destruct (es_meta s1) as [X|] eqn:HX; [|by apply not_elem_of_empty in Hb]. by apply (ci_meta s1 Hi Hk X b). }
  split; cbn; [done| |done..]. intros _ X b HX Hb. rewrite HX in *. split; [by apply Hm|by left].
Qed.

Lemma conc_reachable_inv s : conc_reachable s → es_lost s = false → conc_inv s.
Proof.
  induction 1 as [d|s s' Hs IH Hst]; [by split|]. intros Hl. eapply conc_step_inv; [done| |done]. by eapply IH, lost_step.
Qed.

(** A refill of one block from its beginning to its end. *)
Lemma refill_block_steps (R : EntryState → Prop) s i b : (∀ s s', R s → refill_step s s' → R s') →
  R s → es_tasks s !! i = None → no_writer s → b ∉ es_index s → b ∉ es_loading s →
  ∃ s', R s' ∧ es_index s' = {[b]} ∪ es_index s ∧ es_data s' = <[b := content b]> (es_data s)
    ∧ es_meta s' = es_meta s ∧ es_loading s' = es_loading s ∧ es_tasks s' = es_tasks s ∧ es_lost s' = es_lost s.
Proof.
  intros HR Hs Hi Hw Hx Hl. eapply HR in Hs; [|by apply (refill_begin s i b)].
  eapply HR in Hs; [|apply (refill_elect _ i b); [cbn; by rewrite lookup_insert_eq|done..]].
  eapply HR in Hs; [|apply (refill_fetched _ i b); cbn; by rewrite lookup_insert_eq].
  eapply HR in Hs; [|apply (refill_publish _ i b); cbn; by rewrite lookup_insert_eq].
  eapply HR in Hs; [|apply (refill_finish _ i b); cbn; by rewrite lookup_insert_eq].
  eexists. split; [exact Hs|]. cbn. split_and!; try done; [set_solver|].
  rewrite !insert_insert_eq, delete_insert_id; done.
Qed.

(** C6: However readers, refills, checkpoints and evictions of an entry
    interleave, whichever of their calls fail, and whenever the process ends and
    starts again: as long as no eviction has been dropped while its closure was
    running, and no process has started on a [meta.bin] that a failed eviction
    left behind, every block in the bitmap has the bytes of the file, and the
    bytes a reader has been given stay those of the file for as long as it holds
    them; and unless a failed eviction has left its [meta.bin] behind, a process
    that started at this very moment would take over no block that is not
    right. *)
Theorem entry_tasks_safe s : conc_reachable s → es_lost s = false →
  (∀ b, b ∈ es_index s → es_data s b = content b)
  ∧ (∀ i b, es_tasks s !! i = Some (Reading b) → es_data s b = content b)
  ∧ (es_kept s = false → ∀ b, b ∈ es_index (restarted s) → es_data (restarted s) b = content b).
Proof.
  intros Hs Hl. pose proof (conc_reachable_inv s Hs Hl) as Hi. split_and!; [apply Hi|..].
  - intros i b Ht. by apply (ci_index s Hi), (ci_tasks s Hi i _ Ht).
  - intros Hk. apply (ci_index (restarted s)), conc_reachable_inv; [eapply conc_next; [done|apply step_crash]|].
    cbn. by rewrite Hl, Hk.
Qed.
End Conc.

(** ** What the barrier does not cover *)

Section Faults.
Context (content : Z → list Z).

Lemma next_refill s s' : conc_reachable content s → refill_step content s s' → conc_reachable content s'.
Proof. intros Hs Hst. eapply conc_next; [done|]. by apply step_refill. Qed.

Lemma next_evict s s' : conc_reachable content s → evict_step s s' → conc_reachable content s'.
Proof. intros Hs Hst. eapply conc_next; [done|]. by apply step_evict. Qed.

Lemma next_checkpoint s s' : conc_reachable content s → checkpoint_step s s' → conc_reachable content s'.
Proof. intros Hs Hst. eapply conc_next; [done|]. by apply step_checkpoint. Qed.

(** A dropped eviction makes a hole where a refill has published a block. *)
Lemma dropped_eviction_punches_published b x : x ≠ content b →
  ∃ s, conc_reachable content s ∧ b ∈ es_index s ∧ es_data s b ≠ content b.
Proof.
  intros Hx. pose proof (conc_start content (λ _, x)) as Hs.
  eapply next_evict in Hs; [|apply (evict_begin _ 0); try done; intros i t; cbn; by rewrite lookup_empty].
  eapply next_evict in Hs; [|apply (evict_clear _ 0); cbn; by rewrite lookup_insert_eq].
  eapply next_evict in Hs; [|apply (evict_spawn _ 0); cbn; by rewrite lookup_insert_eq].
  eapply next_evict in Hs; [|apply (evict_dropped _ 0); cbn; by rewrite lookup_insert_eq].
  eapply (refill_block_steps content (conc_reachable content) _ 1 b next_refill) in Hs;
    [|cbn; by rewrite !lookup_insert_ne| |set_solver|set_solver].
  - destruct Hs as (s & Hs & Hi & Hd & Hm & Hl & Ht & _). cbn in Ht.
    eapply next_evict in Hs; [|apply (detached_unlist _ 0); rewrite Ht; cbn; by rewrite lookup_insert_eq].
    eapply next_evict in Hs; [|apply (detached_punch _ 0 (λ _, x)); cbn; by rewrite lookup_insert_eq].
    eexists. split; [exact Hs|]. cbn. split; [rewrite Hi; set_solver|done].
  - intros i t. cbn. rewrite !insert_insert_eq. intros [[<- <-]|[_ Hi]]%lookup_insert_Some; [done|by rewrite lookup_empty in Hi].
Qed.

(** A [meta.bin] that outlives the eviction lists a block that a refill is
    writing when the process ends. *)
Lemma kept_meta_lists_lost_block b x : x ≠ content b →
  ∃ s, conc_reachable content s ∧ b ∈ es_index s ∧ es_data s b ≠ content b.
Proof.
  intros Hx. pose proof (conc_start content (λ _, x)) as Hs.
  eapply (refill_block_steps content (conc_reachable content) _ 1 b next_refill) in Hs;
    [|done|intros i t; cbn; by rewrite lookup_empty|set_solver|set_solver].
  destruct Hs as (s & Hs & Hi & Hd & Hm & Hl & Ht & _). cbn in Ht, Hl.
  assert (no_writer s) as Hw by (intros i t; by rewrite Ht, lookup_empty).
  assert (no_reader s) as Hr by (intros i t; by rewrite Ht, lookup_empty).
  eapply next_checkpoint in Hs; [|apply (checkpoint_begin s 0); [by rewrite Ht|done]].
  eapply next_checkpoint in Hs; [|apply (checkpoint_write _ 0 (es_index s)); cbn; by rewrite lookup_insert_eq].
  eapply next_evict in Hs; [|apply (evict_begin _ 0); cbn; rewrite ?Ht; try done; intros i t; cbn; by rewrite Ht].
  eapply next_evict in Hs; [|apply (evict_clear _ 0); cbn; by rewrite lookup_insert_eq].
  eapply next_evict in Hs; [|apply (evict_spawn _ 0); cbn; by rewrite lookup_insert_eq].
  eapply next_evict in Hs; [|apply (evict_unlist_failed _ 0); cbn; by rewrite lookup_insert_eq].
  eapply next_refill in Hs; [|apply (refill_begin content _ 1 b)].
  - eapply next_refill in Hs; [|apply (refill_elect content _ 1 b); [cbn; by rewrite lookup_insert_eq|cbn; set_solver|cbn; set_solver]].
    eapply next_refill in Hs; [|apply (refill_fetch content _ 1 b x); cbn; by rewrite lookup_insert_eq].
    eapply conc_next in Hs; [|apply step_crash].
    eexists. split; [exact Hs|]. cbn. rewrite Hi, fn_lookup_insert. split; [set_solver|done].
  - cbn [with_task with_index with_meta keep_meta es_tasks]. by rewrite Ht.
  - intros i t Hj. cbn [with_task with_index with_meta keep_meta es_tasks] in Hj.
    repeat first [apply lookup_delete_Some in Hj as [? Hj] | apply lookup_insert_Some in Hj as [[<- <-]|[_ Hj]]; [done|]].
    by rewrite Ht, lookup_empty in Hj.
Qed.
End Faults.

(** Block 3 has been refilled and is being read. *)
Lemma entry_tasks_safe_witness : ∃ s, es_tasks s !! 0 = Some (Reading 3) ∧ es_data s 3 = [3].
Proof.
  pose proof (conc_start (λ b, [b]) (λ _, [])) as Hs.
  eapply (refill_block_steps (λ b, [b]) (conc_reachable (λ b, [b])) _ 0 3) in Hs;
    [|intros s s' H1 H2; eapply conc_next; [done|by apply step_refill]|done|intros i t; cbn; by rewrite lookup_empty|set_solver..].
  destruct Hs as (s & Hs & Hi & _ & _ & _ & Ht & Hlost). cbn in Ht, Hlost.
  assert (conc_reachable (λ b, [b]) (with_task 0 (Some (Reading 3)) s)) as Hr.
  { eapply conc_next; [exact Hs|]. apply step_read, read_begin; [by rewrite Ht|intros i t; by rewrite Ht, lookup_empty|].
    rewrite Hi. set_solver. }
  exists (with_task 0 (Some (Reading 3)) s). destruct (entry_tasks_safe (λ b, [b]) _ Hr) as (_ & Hread & _); [cbn; exact Hlost|].
  split; [by cbn; rewrite lookup_insert_eq|]. apply (Hread 0). cbn. by rewrite lookup_insert_eq.
Defined.
