(* ===== verification/BkQueue.v ===== *)
(** * The ready queue of background downloads

    [FairReadyQueue] of [storage/overlaybd/src/backend/cache/bk_download.rs]:
    ready tasks are grouped by device and drained group by group.  A group is
    served in the order of arrival, and a task waits for at most one turn of
    every other device per task of its own device before it. *)

From S2P Require Import Prelude.

Section Queue.
Context {K T : Type} `{!EqDecision K}.

(** [groups]: the devices in the order of their next turn. *)
Definition FairReadyQueue : Type := list (K * list T).

Fixpoint push_existing (device_key : K) (item : T) (groups : FairReadyQueue) : option FairReadyQueue :=
  match groups with
  | [] => None
  | (key, queue) :: rest =>
      if bool_decide (key = device_key) then Some ((key, queue ++ [item]) :: rest)
      else cons (key, queue) <$> push_existing device_key item rest
  end.

Definition fq_push (device_key : K) (item : T) (groups : FairReadyQueue) : FairReadyQueue :=
  match push_existing device_key item groups with
  | Some groups' => groups'
  | None => groups ++ [(device_key, [item])]
  end.

Definition fq_pop (groups : FairReadyQueue) : FairReadyQueue * option T :=
  match groups with
  | [] => ([], None)
  | (device_key, queue) :: rest =>
      match queue with
      | [] => (rest, None)
      | item :: queue' => (if is_nil queue' then rest else rest ++ [(device_key, queue')], Some item)
      end
  end.

(** ** What the queue holds *)

(** The tasks of a device, in order. *)
Fixpoint tasks_of (device_key : K) (groups : FairReadyQueue) : list T :=
  match groups with
  | [] => []
  | (key, queue) :: rest => if bool_decide (key = device_key) then queue else tasks_of device_key rest
  end.

Definition fq_keys (groups : FairReadyQueue) : list K := groups.*1.

Definition fq_wf (groups : FairReadyQueue) : Prop := NoDup (fq_keys groups) ∧ Forall (λ g, g.2 ≠ []) groups.

(** ** Use of the queue *)

Inductive fq_op : Type :=
| Push (device_key : K) (item : T)
| Pop.

(** The tasks popped by a sequence of operations, with their devices. *)
Fixpoint fq_run (ops : list fq_op) (groups : FairReadyQueue) : FairReadyQueue * list (K * T) :=
  match ops with
  | [] => (groups, [])
  | Push k x :: ops' => fq_run ops' (fq_push k x groups)
  | Pop :: ops' =>
      let '(groups', r) := fq_pop groups in
      let '(final, popped) := fq_run ops' groups' in
      (final, match groups, r with (k, _) :: _, Some x => (k, x) :: popped | _, _ => popped end)
  end.

Definition popped_of (device_key : K) (popped : list (K * T)) : list T :=
  (filter (λ p, p.1 = device_key) popped).*2.

Definition pushed_of (device_key : K) (ops : list fq_op) : list T :=
  omap (λ op, match op with Push k x => if bool_decide (k = device_key) then Some x else None | Pop => None end) ops.

Definition pops (ops : list fq_op) : nat := length (List.filter (λ op, match op with Pop => true | _ => false end) ops).

(** ** The operations keep the queue well formed *)

Lemma push_existing_some k x q q' : push_existing k x q = Some q' →
  ∃ q1 l q2, q = q1 ++ (k, l) :: q2 ∧ (k ∉ q1.*1) ∧ q' = q1 ++ (k, l ++ [x]) :: q2.
Proof.
  revert q'. induction q as [|[k' l] q IH]; intros q' H; [done|]. cbn in H. case_bool_decide as E.
  - simplify_eq. by exists [], l, q; split_and!; try done; apply not_elem_of_nil.
  - apply fmap_Some in H as (r & Hr & ->). destruct (IH _ Hr) as (q1 & l' & q2 & -> & Hn & ->).
    exists ((k', l) :: q1), l', q2. split_and!; try done. cbn. by apply not_elem_of_cons.
Qed.

Lemma push_existing_none k x q : push_existing k x q = None → k ∉ q.*1.
Proof.
  induction q as [|[k' l] q IH]; cbn; [intros; apply not_elem_of_nil|]. case_bool_decide; [done|].
  intros Hn%fmap_None. apply not_elem_of_cons. split; [done|auto].
Qed.

(** A push adds to the group of the device, or adds a last group. *)
Lemma fq_push_cases k x q :
  (∃ q1 l q2, q = q1 ++ (k, l) :: q2 ∧ (k ∉ q1.*1) ∧ fq_push k x q = q1 ++ (k, l ++ [x]) :: q2)
  ∨ ((k ∉ q.*1) ∧ fq_push k x q = q ++ [(k, [x])]).
Proof.
  unfold fq_push. destruct (push_existing k x q) eqn:E.
  - left. by apply push_existing_some.
  - right. split; [by eapply push_existing_none|done].
Qed.

Lemma fq_push_wf k x q : fq_wf q → fq_wf (fq_push k x q).
Proof.
  unfold fq_wf, fq_keys. intros [Hnd Hne].
  destruct (fq_push_cases k x q) as [(q1 & l & q2 & -> & Hk & ->)|[Hk ->]].
  - rewrite fmap_app in *. cbn in *. split; [done|].
    apply Forall_app in Hne as [H1 [_ H2]%Forall_cons]. apply Forall_app. split; [done|]. constructor; [by destruct l|done].
  - rewrite fmap_app. split; [apply NoDup_app; split_and!; cbn; [done|set_solver|apply NoDup_singleton]|].
    apply Forall_app. split; [done|]. by repeat constructor.
Qed.

Lemma fq_pop_wf q : fq_wf q → fq_wf (fq_pop q).1.
Proof.
  unfold fq_wf, fq_keys. destruct q as [|[k l] q]; [done|]. intros [[Hk Hnd]%NoDup_cons [Hl Hne]%Forall_cons].
  cbn in *. destruct l as [|x [|y l]]; cbn; [done|done|]. rewrite fmap_app. split.
  - apply NoDup_app. split_and!; cbn; [done|set_solver|apply NoDup_singleton].
  - apply Forall_app. split; [done|]. by repeat constructor.
Qed.

(** A well-formed queue is empty exactly when nothing can be popped. *)
Lemma fq_pop_none q : fq_wf q → (fq_pop q).2 = None → q = [].
Proof. intros [_ Hne]. destruct q as [|[k [|x l]] q]; [done| |done]. by inversion Hne. Qed.

(** ** Each device is a queue of its own *)

Lemma tasks_of_app k q1 q2 : k ∉ q1.*1 → tasks_of k (q1 ++ q2) = tasks_of k q2.
Proof.
  induction q1 as [|[k' l] q1 IH]; [done|]. cbn. intros [Hn H]%not_elem_of_cons. rewrite bool_decide_false by done. auto.
Qed.

Lemma tasks_of_absent k q : k ∉ q.*1 → tasks_of k q = [].
Proof. intros H. by rewrite <- (app_nil_r q), tasks_of_app by done. Qed.

Lemma tasks_of_other k k' l l' q1 q2 : k ≠ k' → tasks_of k (q1 ++ (k', l) :: q2) = tasks_of k (q1 ++ (k', l') :: q2).
Proof.
  intros Hk. induction q1 as [|[k1 l1] q1 IH]; cbn; [by rewrite bool_decide_false by done|]. by case_bool_decide.
Qed.

Lemma tasks_of_push k k' x q :
  tasks_of k (fq_push k' x q) = tasks_of k q ++ (if bool_decide (k' = k) then [x] else []).
Proof.
  destruct (fq_push_cases k' x q) as [(q1 & l & q2 & -> & Hk & ->)|[Hk ->]]; case_bool_decide as E; subst.
  - rewrite !tasks_of_app by done. cbn. by rewrite bool_decide_true.
  - rewrite app_nil_r. by apply tasks_of_other.
  - rewrite tasks_of_app, (tasks_of_absent _ q) by done. cbn. by rewrite bool_decide_true.
  - rewrite app_nil_r. induction q as [|[k1 l1] q IH]; cbn; [by rewrite bool_decide_false|].
    case_bool_decide; [done|]. apply IH. cbn in Hk. set_solver.
Qed.

Lemma tasks_of_pop k q : fq_wf q →
  tasks_of k q = (match q, (fq_pop q).2 with (k', _) :: _, Some x => if bool_decide (k' = k) then [x] else [] | _, _ => [] end)
                 ++ tasks_of k (fq_pop q).1.
Proof.
  destruct q as [|[k' l] q]; [done|]. intros [[Hk _]%NoDup_cons [Hl _]%Forall_cons]. cbn in Hk, Hl.
  destruct l as [|x l]; [done|]. cbn. case_bool_decide as E; subst.
  - destruct l as [|y l]; cbn [is_nil].
    + by rewrite tasks_of_absent.
    + rewrite tasks_of_app by done. cbn. by rewrite bool_decide_true.
  - destruct l as [|y l]; cbn [is_nil]; [done|]. clear Hk. cbn.
    induction q as [|[k1 l1] q IH]; cbn; [by rewrite bool_decide_false|]. by case_bool_decide.
Qed.

Lemma popped_of_cons k p popped : popped_of k (p :: popped) = (if bool_decide (p.1 = k) then [p.2] else []) ++ popped_of k popped.
Proof. unfold popped_of. rewrite filter_cons. case_decide; by rewrite ?bool_decide_true, ?bool_decide_false by done. Qed.

Lemma pushed_of_cons k k' x ops : pushed_of k (Push k' x :: ops) = (if bool_decide (k' = k) then [x] else []) ++ pushed_of k ops.
Proof. cbn. by case_bool_decide. Qed.

(** Nothing is lost, and each device is served in the order of arrival. *)
Lemma fq_run_fifo ops : ∀ q, fq_wf q → fq_wf (fq_run ops q).1
  ∧ ∀ k, popped_of k (fq_run ops q).2 ++ tasks_of k (fq_run ops q).1 = tasks_of k q ++ pushed_of k ops.
Proof.
  induction ops as [|[k' x|] ops IH]; intros q Hq.
  - split; [done|]. intros k. cbn. by rewrite app_nil_r.
  - destruct (IH _ (fq_push_wf k' x q Hq)) as [Hwf Hf]. cbn [fq_run]. split; [done|]. intros k.
    by rewrite Hf, tasks_of_push, pushed_of_cons, <- app_assoc.
  - destruct (IH _ (fq_pop_wf q Hq)) as [Hwf Hf]. pose proof (λ k, tasks_of_pop k q Hq) as Ht. cbn [fq_run].
    destruct q as [|[k' l] q]; [cbn in *; by destruct (fq_run ops [])|].
    destruct (fq_pop ((k', l) :: q)) as [q' r] eqn:Ep. cbn [fst snd] in *.
    destruct (fq_run ops q') as [final popped]. cbn [fst snd] in *. split; [done|]. intros k.
    change (pushed_of k (Pop :: ops)) with (pushed_of k ops). rewrite (Ht k), <- app_assoc, <- Hf.
    destruct r as [x|]; [|done]. rewrite popped_of_cons. cbn. by rewrite <- app_assoc.
Qed.

(** The [p]-th task of the [g]-th device is reached. *)
Lemma fq_run_reaches keys k ops : ∀ q g p, fq_wf q →
  (∀ k', k' ∈ fq_keys q → k' ∈ keys) → (∀ k' x, Push k' x ∈ ops → k' ∈ keys) →
  fq_keys q !! g = Some k → (p < length (tasks_of k q))%nat → (g + 1 + p * length keys ≤ pops ops)%nat →
  (p < length (popped_of k (fq_run ops q).2))%nat.
Proof.
  induction ops as [|[k' x|] ops IH]; intros q g p Hq Hks Hps Hg Hp Hn; [cbn in Hn; lia|..].
  - cbn [fq_run]. apply (IH _ g); [by apply fq_push_wf|..|done].
    + intros k1. destruct (fq_push_cases k' x q) as [(q1 & l & q2 & -> & _ & ->)|[_ ->]]; unfold fq_keys in *;
        rewrite !fmap_app; [set_solver|]. intros [?|Hk]%elem_of_app; [auto|]. apply (Hps _ x). set_solver.
    + intros k1 x1 H1. apply (Hps _ x1). set_solver.
    + destruct (fq_push_cases k' x q) as [(q1 & l & q2 & -> & _ & ->)|[_ ->]]; unfold fq_keys in *;
        rewrite !fmap_app in *; [done|]. by apply lookup_app_l_Some.
    + rewrite tasks_of_push, length_app. lia.
  - destruct q as [|[k0 l0] q]; [done|]. pose proof (tasks_of_pop k _ Hq) as Ht.
    pose proof (fq_pop_wf _ Hq) as Hwf'. destruct Hq as [Hnd [Hl0 _]%Forall_cons]. cbn in Hl0.
    assert (length q < length keys)%nat as Hlen.
    { pose proof (submseteq_length _ _ (NoDup_submseteq _ _ Hnd Hks)) as Hle. unfold fq_keys in Hle.
      rewrite length_fmap in Hle. cbn in Hle. lia. }
    destruct l0 as [|x l0]; [done|]. cbn [fq_pop fst snd] in Ht, Hwf'. cbn [fq_run fq_pop].
    set (q' := if is_nil l0 then q else q ++ [(k0, l0)]) in *.
    specialize (IH q'). destruct (fq_run ops q') as [final popped] eqn:Hrun. cbn [snd] in *.
    assert (∀ k', k' ∈ fq_keys q' → k' ∈ keys) as Hks'.
    { intros k1 H1. apply Hks. subst q'. unfold fq_keys in *. destruct (is_nil l0); [set_solver|].
      rewrite fmap_app in H1. set_solver. }
    assert (∀ k' x, Push k' x ∈ ops → k' ∈ keys) as Hps' by (intros k1 x1 H1; apply (Hps _ x1); set_solver).
    change (pops (Pop :: ops)) with (S (pops ops)) in Hn. rewrite popped_of_cons, length_app. cbn [fst snd].
    destruct g as [|g]; cbn in Hg.
    + simplify_eq. rewrite bool_decide_true in * by done. cbn [length app]. destruct p as [|p]; [lia|].
      cut (p < length (popped_of k popped))%nat; [lia|]. rewrite Ht in Hp. cbn in Hp.
      destruct l0 as [|y l0]; [subst q'; cbn in *; rewrite tasks_of_absent in Hp; [cbn in Hp; lia|]; by apply NoDup_cons in Hnd as [? _]|].
      apply (IH (length q)); try done; [|lia|nia]. subst q'. cbn. unfold fq_keys. rewrite fmap_app.
      rewrite lookup_app_r; rewrite length_fmap; [|lia]. by rewrite Nat.sub_diag.
    + assert (k0 ≠ k) as Hk0.
      { intros ->. apply NoDup_cons in Hnd as [Hnd _]. apply Hnd. by apply list_elem_of_lookup_2 in Hg. }
      rewrite bool_decide_false in * by done. cbn [length app] in *. rewrite Ht in Hp.
      apply (IH g); try done; [|lia]. subst q'. destruct (is_nil l0); [done|]. unfold fq_keys. rewrite fmap_app.
      by apply lookup_app_l_Some.
Qed.

(** C26: Over any sequence of pushes and pops the tasks of a device are popped
    in the order in which they were pushed and none is lost; and with [n]
    devices a task that has [p] tasks of its device and [g] devices before it
    is popped by the [g + 1 + p * n]-th pop at the latest, however many tasks
    the other devices have. *)
Theorem fair_queue_serves (keys : list K) k ops groups : fq_wf groups →
  (∀ k', k' ∈ fq_keys groups → k' ∈ keys) → (∀ k' x, Push k' x ∈ ops → k' ∈ keys) →
  popped_of k (fq_run ops groups).2 ++ tasks_of k (fq_run ops groups).1 = tasks_of k groups ++ pushed_of k ops
  ∧ ∀ g p x, fq_keys groups !! g = Some k → tasks_of k groups !! p = Some x →
      (g + 1 + p * length keys ≤ pops ops)%nat → popped_of k (fq_run ops groups).2 !! p = Some x.
Proof.
  intros Hq Hks Hps. destruct (fq_run_fifo ops groups Hq) as [_ Hf]. split; [done|]. intros g p x Hg Hx Hn.
  pose proof (fq_run_reaches keys k ops groups g p Hq Hks Hps Hg (lookup_lt_Some _ _ _ Hx) Hn) as Hlt.
  rewrite <- (lookup_app_l _ (tasks_of k (fq_run ops groups).1)), Hf by done. by apply lookup_app_l_Some.
Qed.

End Queue.
Arguments FairReadyQueue : clear implicits.
Arguments fq_op : clear implicits.

(** Two tasks of one device and one of another: the third pop gives the second task of the first device. *)
Lemma fair_queue_serves_witness :
  popped_of 1 (fq_run [Pop; Push 2 30; Pop; Pop] [(1, [10; 11]); (2, [20])]).2 !! 1%nat = Some 11.
Proof.
  refine (proj2 (fair_queue_serves [1; 2] 1 [Pop; Push 2 30; Pop; Pop] [(1, [10; 11]); (2, [20])] _ _ _) 0%nat 1%nat 11 _ _ _).
  - split; [|by repeat constructor]. apply (bool_decide_unpack _). by vm_compute.
  - cbn. set_solver.
  - intros k x. set_solver.
  - done.
  - done.
  - cbn. lia.
Defined.
