(* ===== verification/BkSched.v ===== *)
(** * The scheduler of background downloads

    [BkDownloadScheduler] of [storage/overlaybd/src/backend/cache/bk_download.rs]
    with the life cycle of [StartupPackTask] of [startup_pack_task.rs]: the
    registry of downloads, the ready queue, the slots, start-up packs and their
    handles, the dispatcher, the tasks that read the chunks of downloads and of
    packs, shutdown.

    The scheduler is a set of futures and callers over shared state.  A step is
    one access to the shared state by one of them, so that every interleaving
    of the accesses is a run.  The lock of the ready queue is not modelled: the
    futures that hold it interleave with more steps here than they can in the
    code.  What a download does to the cache is not part of the state either; a
    run ends in any of its outcomes at any time, and has any number of chunks in
    flight. *)

From stdpp Require Import gmap.
From S2P Require Import Prelude Text BkQueue.

(** ** Tasks *)

(** [bt_ref] is the identity of the [Arc]; the fields that the scheduler only
    hands on are left out. *)
Record BkDownloadTask : Type := {
  bt_ref : Z;
  bt_cache_id : str;
  bt_device_key : option str
}.

Inductive StartupPackPhase : Type := Queued | Running | Done | Failed | Canceled.

Record StartupPackTask : Type := {
  sp_phase : StartupPackPhase;
  sp_holders : Z;
  sp_canceled : bool
}.

Definition startup_new : StartupPackTask := {| sp_phase := Queued; sp_holders := 1; sp_canceled := false |}.

Definition is_terminal (p : StartupPackTask) : bool :=
  match sp_phase p with Done | Failed | Canceled => true | Queued | Running => false end.

Definition set_phase (ph : StartupPackPhase) (p : StartupPackTask) : StartupPackTask :=
  {| sp_phase := ph; sp_holders := sp_holders p; sp_canceled := sp_canceled p |}.

Definition retain (p : StartupPackTask) : StartupPackTask :=
  {| sp_phase := sp_phase p; sp_holders := sp_holders p + 1; sp_canceled := sp_canceled p |}.

(** The task without one holder, and whether it was the last of a live task. *)
Definition release_holder (p : StartupPackTask) : StartupPackTask * bool :=
  ({| sp_phase := sp_phase p; sp_holders := sp_holders p - 1; sp_canceled := sp_canceled p |},
   (sp_holders p =? 1) && negb (is_terminal p)).

Definition cancel (p : StartupPackTask) : StartupPackTask :=
  {| sp_phase := sp_phase p; sp_holders := sp_holders p; sp_canceled := true |}.

(** ** Shared state *)

(** A future of [ready_notify] that is enabled: not yet notified, notified by
    [notify_one], or complete. *)
Inductive waiter : Type := Armed | NotifiedOne | Complete.

Record Sched : Type := {
  sc_tasks : gmap str BkDownloadTask;
  sc_ready : FairReadyQueue (option str) BkDownloadTask;
  sc_permit : bool;                        (** stored by [ready_notify.notify_one] *)
  sc_waiter : option waiter;
  sc_startup_tasks : gmap str Z;
  sc_startup_ready : list Z;
  sc_startup_waiting : Z;
  sc_packs : gmap Z StartupPackTask;       (** the start-up tasks by their [Arc] *)
  sc_closed : bool;
  sc_running : bool;
  sc_active : Z;
  sc_file_slots : Z;                       (** permits that are left *)
  sc_startup_slots : Z;
  sc_block_slots : Z;
  sc_slots_closed : bool;
  sc_aborted : bool;                       (** the set of runs has been dropped *)
  sc_down : bool;                          (** a call of [shutdown] has returned *)
  sc_refs : Z                              (** next [Arc] *)
}.

(** Where the dispatcher is in its loop. *)
Inductive dispatcher : Type :=
| DTop                                     (** before the test of [running] *)
| DStartup                                 (** before [startup_ready.pop_front] *)
| DDeadline (a : Z)
| DExpired                                 (** before the count of an expired pack is given back *)
| DStartupSlot (a : Z)
| DStartupFile (a : Z)                     (** with the start-up permit *)
| DStartupCheck (a : Z)                    (** with both permits *)
| DStartupGo (a : Z)
| DStartupSpawn (a : Z)
| DReady                                   (** before [ready_notify.notified] *)
| DPop
| DWait
| DPopped (t : BkDownloadTask)
| DTask (t : BkDownloadTask)
| DTaskCheck (t : BkDownloadTask)          (** with the permit *)
| DTaskGo (t : BkDownloadTask)
| DLeave                                   (** out of the loop *)
| DAbort.                                  (** before the set of runs is dropped *)

(** Where a run is in the loop of [download_chunks]. *)
Inductive run_pc : Type :=
| RLoop                                    (** at the loop, or anywhere else in [run_task] *)
| RAdmit                                   (** before the test of [startup_waiting] *)
| RSpawn
| RYield.                                  (** the set of its chunks has been dropped *)

(** Where a task that reads chunks is: a task of [download_chunks], or a worker
    of [execute_manifest_prefetch]. *)
Inductive read_pc : Type :=
| RTop                                     (** between two reads *)
| RSlot                                    (** before its block slot *)
| RRead.                                   (** with its block slot *)

Inductive future : Type :=
| FDispatcher (d : dispatcher)
| FTimer (t : BkDownloadTask)              (** [wait_then_mark_ready] *)
| FTimerLocked (t : BkDownloadTask)        (** before the second test of [running] *)
| FPush (t : BkDownloadTask)               (** [running] has been tested *)
| FRemove (t : BkDownloadTask)
| FRun (t : BkDownloadTask) (pc : run_pc)  (** a run with its guard and permit *)
| FChunk (t : BkDownloadTask) (attempt : Z) (pc : read_pc)
| FGuard (t : BkDownloadTask)              (** the guard is being dropped *)
| FDefused                                 (** a run that has requeued its task, with its permit *)
| FRequeue (t : BkDownloadTask)
| FPushed                                  (** before [ready_notify.notify_one] *)
| FLeaving                                 (** before [active] is given back *)
| FStartup (a : Z)                         (** a run of a start-up pack with its permits *)
| FWorker (a : Z) (pc : read_pc)
| FStartupLeaving
| FStartupPermits                          (** before the permits are given back *)
(** Callers *)
| FSubmit (t : BkDownloadTask)
| FSubmitPack (key : str)
| FAttach (key : str) (a : Z)
| FPackQueued (key : str) (a : Z)          (** before [startup_waiting] counts the pack *)
| FPackCounted (key : str) (a : Z)
| FHandle (key : str) (for_task : Z)       (** a handle, and the task it was made for *)
| FCancel (key : str) (a : Z)              (** the last holder is gone *)
| FUnqueued (key : str) (a : Z) (removed : Z)
| FStop (then_wait : bool)
| FStopping (then_wait : bool)
| FWaking (then_wait : bool)
| FShutdown.                               (** waits for [active] to be zero *)

Definition set_tasks (f : gmap str BkDownloadTask → gmap str BkDownloadTask) (s : Sched) : Sched := {|
  sc_tasks := f (sc_tasks s); sc_ready := sc_ready s; sc_permit := sc_permit s; sc_waiter := sc_waiter s;
  sc_startup_tasks := sc_startup_tasks s; sc_startup_ready := sc_startup_ready s;
  sc_startup_waiting := sc_startup_waiting s; sc_packs := sc_packs s; sc_closed := sc_closed s;
  sc_running := sc_running s; sc_active := sc_active s; sc_file_slots := sc_file_slots s;
  sc_startup_slots := sc_startup_slots s; sc_block_slots := sc_block_slots s; sc_slots_closed := sc_slots_closed s;
  sc_aborted := sc_aborted s; sc_down := sc_down s; sc_refs := sc_refs s |}.

Definition set_ready (q : FairReadyQueue (option str) BkDownloadTask) (s : Sched) : Sched := {|
  sc_tasks := sc_tasks s; sc_ready := q; sc_permit := sc_permit s; sc_waiter := sc_waiter s;
  sc_startup_tasks := sc_startup_tasks s; sc_startup_ready := sc_startup_ready s;
  sc_startup_waiting := sc_startup_waiting s; sc_packs := sc_packs s; sc_closed := sc_closed s;
  sc_running := sc_running s; sc_active := sc_active s; sc_file_slots := sc_file_slots s;
  sc_startup_slots := sc_startup_slots s; sc_block_slots := sc_block_slots s; sc_slots_closed := sc_slots_closed s;
  sc_aborted := sc_aborted s; sc_down := sc_down s; sc_refs := sc_refs s |}.

Definition set_notify (p : bool) (w : option waiter) (s : Sched) : Sched := {|
  sc_tasks := sc_tasks s; sc_ready := sc_ready s; sc_permit := p; sc_waiter := w;
  sc_startup_tasks := sc_startup_tasks s; sc_startup_ready := sc_startup_ready s;
  sc_startup_waiting := sc_startup_waiting s; sc_packs := sc_packs s; sc_closed := sc_closed s;
  sc_running := sc_running s; sc_active := sc_active s; sc_file_slots := sc_file_slots s;
  sc_startup_slots := sc_startup_slots s; sc_block_slots := sc_block_slots s; sc_slots_closed := sc_slots_closed s;
  sc_aborted := sc_aborted s; sc_down := sc_down s; sc_refs := sc_refs s |}.

Definition set_startup_tasks (f : gmap str Z → gmap str Z) (s : Sched) : Sched := {|
  sc_tasks := sc_tasks s; sc_ready := sc_ready s; sc_permit := sc_permit s; sc_waiter := sc_waiter s;
  sc_startup_tasks := f (sc_startup_tasks s); sc_startup_ready := sc_startup_ready s;
  sc_startup_waiting := sc_startup_waiting s; sc_packs := sc_packs s; sc_closed := sc_closed s;
  sc_running := sc_running s; sc_active := sc_active s; sc_file_slots := sc_file_slots s;
  sc_startup_slots := sc_startup_slots s; sc_block_slots := sc_block_slots s; sc_slots_closed := sc_slots_closed s;
  sc_aborted := sc_aborted s; sc_down := sc_down s; sc_refs := sc_refs s |}.

Definition set_startup_ready (l : list Z) (s : Sched) : Sched := {|
  sc_tasks := sc_tasks s; sc_ready := sc_ready s; sc_permit := sc_permit s; sc_waiter := sc_waiter s;
  sc_startup_tasks := sc_startup_tasks s; sc_startup_ready := l; sc_startup_waiting := sc_startup_waiting s;
  sc_packs := sc_packs s; sc_closed := sc_closed s; sc_running := sc_running s; sc_active := sc_active s;
  sc_file_slots := sc_file_slots s; sc_startup_slots := sc_startup_slots s; sc_block_slots := sc_block_slots s;
  sc_slots_closed := sc_slots_closed s; sc_aborted := sc_aborted s; sc_down := sc_down s; sc_refs := sc_refs s |}.

Definition add_startup_waiting (n : Z) (s : Sched) : Sched := {|
  sc_tasks := sc_tasks s; sc_ready := sc_ready s; sc_permit := sc_permit s; sc_waiter := sc_waiter s;
  sc_startup_tasks := sc_startup_tasks s; sc_startup_ready := sc_startup_ready s;
  sc_startup_waiting := wrap64 (sc_startup_waiting s + n); sc_packs := sc_packs s; sc_closed := sc_closed s;
  sc_running := sc_running s; sc_active := sc_active s; sc_file_slots := sc_file_slots s;
  sc_startup_slots := sc_startup_slots s; sc_block_slots := sc_block_slots s; sc_slots_closed := sc_slots_closed s;
  sc_aborted := sc_aborted s; sc_down := sc_down s; sc_refs := sc_refs s |}.

Definition set_packs (f : gmap Z StartupPackTask → gmap Z StartupPackTask) (s : Sched) : Sched := {|
  sc_tasks := sc_tasks s; sc_ready := sc_ready s; sc_permit := sc_permit s; sc_waiter := sc_waiter s;
  sc_startup_tasks := sc_startup_tasks s; sc_startup_ready := sc_startup_ready s;
  sc_startup_waiting := sc_startup_waiting s; sc_packs := f (sc_packs s); sc_closed := sc_closed s;
  sc_running := sc_running s; sc_active := sc_active s; sc_file_slots := sc_file_slots s;
  sc_startup_slots := sc_startup_slots s; sc_block_slots := sc_block_slots s; sc_slots_closed := sc_slots_closed s;
  sc_aborted := sc_aborted s; sc_down := sc_down s; sc_refs := sc_refs s |}.

Definition set_closed (s : Sched) : Sched := {|
  sc_tasks := sc_tasks s; sc_ready := sc_ready s; sc_permit := sc_permit s; sc_waiter := sc_waiter s;
  sc_startup_tasks := sc_startup_tasks s; sc_startup_ready := sc_startup_ready s;
  sc_startup_waiting := sc_startup_waiting s; sc_packs := sc_packs s; sc_closed := true; sc_running := false;
  sc_active := sc_active s; sc_file_slots := sc_file_slots s; sc_startup_slots := sc_startup_slots s;
  sc_block_slots := sc_block_slots s; sc_slots_closed := sc_slots_closed s; sc_aborted := sc_aborted s;
  sc_down := sc_down s; sc_refs := sc_refs s |}.

Definition add_active (n : Z) (s : Sched) : Sched := {|
  sc_tasks := sc_tasks s; sc_ready := sc_ready s; sc_permit := sc_permit s; sc_waiter := sc_waiter s;
  sc_startup_tasks := sc_startup_tasks s; sc_startup_ready := sc_startup_ready s;
  sc_startup_waiting := sc_startup_waiting s; sc_packs := sc_packs s; sc_closed := sc_closed s;
  sc_running := sc_running s; sc_active := sc_active s + n; sc_file_slots := sc_file_slots s;
  sc_startup_slots := sc_startup_slots s; sc_block_slots := sc_block_slots s; sc_slots_closed := sc_slots_closed s;
  sc_aborted := sc_aborted s; sc_down := sc_down s; sc_refs := sc_refs s |}.

Definition add_file_slots (n : Z) (s : Sched) : Sched := {|
  sc_tasks := sc_tasks s; sc_ready := sc_ready s; sc_permit := sc_permit s; sc_waiter := sc_waiter s;
  sc_startup_tasks := sc_startup_tasks s; sc_startup_ready := sc_startup_ready s;
  sc_startup_waiting := sc_startup_waiting s; sc_packs := sc_packs s; sc_closed := sc_closed s;
  sc_running := sc_running s; sc_active := sc_active s; sc_file_slots := sc_file_slots s + n;
  sc_startup_slots := sc_startup_slots s; sc_block_slots := sc_block_slots s; sc_slots_closed := sc_slots_closed s;
  sc_aborted := sc_aborted s; sc_down := sc_down s; sc_refs := sc_refs s |}.

Definition add_startup_slots (n : Z) (s : Sched) : Sched := {|
  sc_tasks := sc_tasks s; sc_ready := sc_ready s; sc_permit := sc_permit s; sc_waiter := sc_waiter s;
  sc_startup_tasks := sc_startup_tasks s; sc_startup_ready := sc_startup_ready s;
  sc_startup_waiting := sc_startup_waiting s; sc_packs := sc_packs s; sc_closed := sc_closed s;
  sc_running := sc_running s; sc_active := sc_active s; sc_file_slots := sc_file_slots s;
  sc_startup_slots := sc_startup_slots s + n; sc_block_slots := sc_block_slots s;
  sc_slots_closed := sc_slots_closed s; sc_aborted := sc_aborted s; sc_down := sc_down s; sc_refs := sc_refs s |}.

Definition add_block_slots (n : Z) (s : Sched) : Sched := {|
  sc_tasks := sc_tasks s; sc_ready := sc_ready s; sc_permit := sc_permit s; sc_waiter := sc_waiter s;
  sc_startup_tasks := sc_startup_tasks s; sc_startup_ready := sc_startup_ready s;
  sc_startup_waiting := sc_startup_waiting s; sc_packs := sc_packs s; sc_closed := sc_closed s;
  sc_running := sc_running s; sc_active := sc_active s; sc_file_slots := sc_file_slots s;
  sc_startup_slots := sc_startup_slots s; sc_block_slots := sc_block_slots s + n;
  sc_slots_closed := sc_slots_closed s; sc_aborted := sc_aborted s; sc_down := sc_down s; sc_refs := sc_refs s |}.

Definition close_slots (s : Sched) : Sched := {|
  sc_tasks := sc_tasks s; sc_ready := sc_ready s; sc_permit := sc_permit s; sc_waiter := sc_waiter s;
  sc_startup_tasks := sc_startup_tasks s; sc_startup_ready := sc_startup_ready s;
  sc_startup_waiting := sc_startup_waiting s; sc_packs := sc_packs s; sc_closed := sc_closed s;
  sc_running := sc_running s; sc_active := sc_active s; sc_file_slots := sc_file_slots s;
  sc_startup_slots := sc_startup_slots s; sc_block_slots := sc_block_slots s; sc_slots_closed := true;
  sc_aborted := sc_aborted s; sc_down := sc_down s; sc_refs := sc_refs s |}.

Definition set_aborted (s : Sched) : Sched := {|
  sc_tasks := sc_tasks s; sc_ready := sc_ready s; sc_permit := sc_permit s; sc_waiter := sc_waiter s;
  sc_startup_tasks := sc_startup_tasks s; sc_startup_ready := sc_startup_ready s;
  sc_startup_waiting := sc_startup_waiting s; sc_packs := sc_packs s; sc_closed := sc_closed s;
  sc_running := sc_running s; sc_active := sc_active s; sc_file_slots := sc_file_slots s;
  sc_startup_slots := sc_startup_slots s; sc_block_slots := sc_block_slots s; sc_slots_closed := sc_slots_closed s;
  sc_aborted := true; sc_down := sc_down s; sc_refs := sc_refs s |}.

Definition set_down (s : Sched) : Sched := {|
  sc_tasks := ∅; sc_ready := []; sc_permit := sc_permit s; sc_waiter := sc_waiter s;
  sc_startup_tasks := sc_startup_tasks s; sc_startup_ready := sc_startup_ready s;
  sc_startup_waiting := sc_startup_waiting s; sc_packs := sc_packs s; sc_closed := sc_closed s;
  sc_running := sc_running s; sc_active := sc_active s; sc_file_slots := sc_file_slots s;
  sc_startup_slots := sc_startup_slots s; sc_block_slots := sc_block_slots s; sc_slots_closed := sc_slots_closed s;
  sc_aborted := sc_aborted s; sc_down := true; sc_refs := sc_refs s |}.

Definition next_ref (s : Sched) : Sched := {|
  sc_tasks := sc_tasks s; sc_ready := sc_ready s; sc_permit := sc_permit s; sc_waiter := sc_waiter s;
  sc_startup_tasks := sc_startup_tasks s; sc_startup_ready := sc_startup_ready s;
  sc_startup_waiting := sc_startup_waiting s; sc_packs := sc_packs s; sc_closed := sc_closed s;
  sc_running := sc_running s; sc_active := sc_active s; sc_file_slots := sc_file_slots s;
  sc_startup_slots := sc_startup_slots s; sc_block_slots := sc_block_slots s; sc_slots_closed := sc_slots_closed s;
  sc_aborted := sc_aborted s; sc_down := sc_down s; sc_refs := sc_refs s + 1 |}.

(** ** Operations *)

Definition remove_task (t : BkDownloadTask) (m : gmap str BkDownloadTask) : gmap str BkDownloadTask :=
  match m !! bt_cache_id t with
  | Some existing => if bt_ref existing =? bt_ref t then delete (bt_cache_id t) m else m
  | None => m
  end.

(** The registration of a request of [submit], and whether it got a task. *)
Definition register (t : BkDownloadTask) (s : Sched) : Sched * bool :=
  if sc_closed s then (s, false)
  else match sc_tasks s !! bt_cache_id t with
       | Some _ => (s, false)
       | None => (add_active 1 (set_tasks <[bt_cache_id t := t]> s), true)
       end.

Definition push_ready (t : BkDownloadTask) (s : Sched) : Sched :=
  set_ready (fq_push (bt_device_key t) t (sc_ready s)) s.

(** [Notify::notify_one], [notify_waiters], a [Notified] that is enabled and
    one that is dropped: a notification it has not consumed goes back. *)
Definition notify_one (s : Sched) : Sched :=
  match sc_waiter s with
  | Some Armed => set_notify (sc_permit s) (Some NotifiedOne) s
  | w => set_notify true w s
  end.

Definition notify_waiters (s : Sched) : Sched :=
  match sc_waiter s with
  | Some Armed => set_notify (sc_permit s) (Some Complete) s
  | _ => s
  end.

Definition enable (s : Sched) : Sched := set_notify false (Some (if sc_permit s then Complete else Armed)) s.

Definition drop_notified (s : Sched) : Sched :=
  match sc_waiter s with
  | Some NotifiedOne => set_notify true None s
  | _ => set_notify (sc_permit s) None s
  end.

Definition set_pack (a : Z) (p : StartupPackTask) (s : Sched) : Sched := set_packs <[a := p]> s.

(** The part of [submit_startup_pack] that makes a task. *)
Definition queue_pack (key : str) (s : Sched) : Sched :=
  let a := sc_refs s in
  next_ref (set_startup_ready (sc_startup_ready s ++ [a]) (set_startup_tasks <[key := a]> (set_pack a startup_new s))).

(** [DashMap::remove_if] with [Arc::ptr_eq]. *)
Definition deregister_pack (key : str) (a : Z) (m : gmap str Z) : gmap str Z :=
  match m !! key with Some a' => if a' =? a then delete key m else m | None => m end.

Definition unqueue (a : Z) (l : list Z) : list Z := filter (λ a', a' ≠ a) l.

(** ** Steps *)

Inductive dispatch_step : Sched → dispatcher → Sched → list future → Prop :=
| d_stopped s : sc_running s = false → dispatch_step s DTop s [FDispatcher DLeave]
| d_running s : sc_running s = true → dispatch_step s DTop s [FDispatcher DStartup]
| d_pack s a l : sc_startup_ready s = a :: l →
    dispatch_step s DStartup (set_startup_ready l s) [FDispatcher (DDeadline a)]
| d_no_pack s : sc_startup_ready s = [] → dispatch_step s DStartup s [FDispatcher DReady]
| d_late s a p : sc_packs s !! a = Some p →
    dispatch_step s (DDeadline a) (set_pack a (if is_terminal p then p else set_phase Failed p) s) [FDispatcher DExpired]
| d_in_time s a p : sc_packs s !! a = Some p → is_terminal p = false →
    dispatch_step s (DDeadline a) s [FDispatcher (DStartupSlot a)]
| d_expired s : dispatch_step s DExpired (add_startup_waiting (-1) s) [FDispatcher DTop]
| d_startup_slot s a : sc_slots_closed s = false → 0 < sc_startup_slots s →
    dispatch_step s (DStartupSlot a) (add_startup_slots (-1) s) [FDispatcher (DStartupFile a)]
| d_startup_slot_closed s a : sc_slots_closed s = true → dispatch_step s (DStartupSlot a) s [FDispatcher DLeave]
| d_startup_file s a : sc_slots_closed s = false → 0 < sc_file_slots s →
    dispatch_step s (DStartupFile a) (add_file_slots (-1) s) [FDispatcher (DStartupCheck a)]
| d_startup_file_closed s a : sc_slots_closed s = true →
    dispatch_step s (DStartupFile a) (add_startup_slots 1 s) [FDispatcher DLeave]
| d_startup_check s a : sc_running s = true → dispatch_step s (DStartupCheck a) s [FDispatcher (DStartupGo a)]
| d_startup_check_stopped s a : sc_running s = false →
    dispatch_step s (DStartupCheck a) (add_file_slots 1 (add_startup_slots 1 s)) [FDispatcher DLeave]
| d_startup_go s a : dispatch_step s (DStartupGo a) (add_startup_waiting (-1) s) [FDispatcher (DStartupSpawn a)]
| d_startup_spawn s a : dispatch_step s (DStartupSpawn a) (add_active 1 s) [FDispatcher DTop; FStartup a]
| d_ready s : dispatch_step s DReady (enable s) [FDispatcher DPop]
| d_pop s q t : fq_pop (sc_ready s) = (q, Some t) → dispatch_step s DPop (set_ready q s) [FDispatcher (DPopped t)]
| d_pop_none s q : fq_pop (sc_ready s) = (q, None) → dispatch_step s DPop (set_ready q s) [FDispatcher DWait]
| d_popped s t : dispatch_step s (DPopped t) (drop_notified s) [FDispatcher (DTask t)]
| d_woken s w : sc_waiter s = Some w → w ≠ Armed →
    dispatch_step s DWait (set_notify (sc_permit s) None s) [FDispatcher DTop]
| d_task s t : sc_slots_closed s = false → 0 < sc_file_slots s →
    dispatch_step s (DTask t) (add_file_slots (-1) s) [FDispatcher (DTaskCheck t)]
| d_task_closed s t : sc_slots_closed s = true → dispatch_step s (DTask t) s [FDispatcher DLeave]
| d_task_check s t : sc_running s = true → dispatch_step s (DTaskCheck t) s [FDispatcher (DTaskGo t)]
| d_task_check_stopped s t : sc_running s = false →
    dispatch_step s (DTaskCheck t) (add_file_slots 1 s) [FDispatcher DLeave]
| d_task_go s t : dispatch_step s (DTaskGo t) (add_active 1 s) [FDispatcher DTop; FRun t RLoop]
| d_leave s : dispatch_step s DLeave (add_active (-1) s) [FDispatcher DAbort]
| d_abort s : dispatch_step s DAbort (set_aborted s) [].

(** [wait_then_mark_ready], and how the futures of a task end. *)
Inductive timer_step : Sched → future → Sched → list future → Prop :=
| r_timer_ready s t : sc_running s = true → timer_step s (FTimer t) s [FTimerLocked t]
| r_timer_stopped s t : sc_running s = false → timer_step s (FTimer t) s [FRemove t]
| r_locked_ready s t : sc_running s = true → timer_step s (FTimerLocked t) s [FPush t]
| r_locked_stopped s t : sc_running s = false → timer_step s (FTimerLocked t) s [FRemove t]
| r_push s t : timer_step s (FPush t) (push_ready t s) [FPushed]
| r_remove s t : timer_step s (FRemove t) (set_tasks (remove_task t) s) [FLeaving]
| r_pushed s : timer_step s FPushed (notify_one s) [FLeaving]
| r_leaving s : timer_step s FLeaving (add_active (-1) s) [].

(** The future of a download, with its guard, and the one that queues its task
    again: a run ends, or waits for pending imports, at any time. *)
Inductive run_step : Sched → future → Sched → list future → Prop :=
| r_done s t : run_step s (FRun t RLoop) (add_file_slots 1 s) [FGuard t]
| r_requeue s t : run_step s (FRun t RLoop) (add_active 1 s) [FRequeue t; FDefused]
| r_yield_running s t : sc_running s = true → run_step s (FRun t RYield) (add_active 1 s) [FRequeue t; FDefused]
| r_yield_stopped s t : sc_running s = false → run_step s (FRun t RYield) (add_file_slots 1 s) [FGuard t]
| r_defused s : run_step s FDefused (add_file_slots 1 s) []
| r_guard s t : run_step s (FGuard t) (set_tasks (remove_task t) s) [FLeaving]
| r_requeue_ready s t : sc_running s = true → run_step s (FRequeue t) s [FPush t]
| r_requeue_stopped s t : sc_running s = false → run_step s (FRequeue t) s [FRemove t].

Definition hedge_max_attempts : Z := 3.

(** [download_chunks] and [refill_chunk_with_hedge]: a run starts the tasks of
    its chunks, and yields to a waiting pack.  The set of the tasks is dropped
    when the run ends: they are told to end, not waited for, and end at an await
    of theirs, where they give their slot back. *)
Inductive chunk_step : Sched → future → Sched → list future → Prop :=
| k_admit s t : sc_running s = true → chunk_step s (FRun t RLoop) s [FRun t RAdmit]
| k_admitted s t : sc_startup_waiting s = 0 → chunk_step s (FRun t RAdmit) s [FRun t RSpawn]
| k_yield s t : sc_startup_waiting s ≠ 0 → chunk_step s (FRun t RAdmit) s [FRun t RYield]
| k_spawn s t : chunk_step s (FRun t RSpawn) s [FRun t RLoop; FChunk t 1 RSlot]
| k_slot s t n : sc_slots_closed s = false → 0 < sc_block_slots s →
    chunk_step s (FChunk t n RSlot) (add_block_slots (-1) s) [FChunk t n RRead]
| k_slot_end s t n : chunk_step s (FChunk t n RSlot) s []
| k_read s t n : chunk_step s (FChunk t n RRead) (add_block_slots 1 s) [FChunk t n RTop]
| k_again s t n : sc_running s = true → n < hedge_max_attempts → chunk_step s (FChunk t n RTop) s [FChunk t (n + 1) RSlot]
| k_end s t n : chunk_step s (FChunk t n RTop) s [].

(** A worker of [execute_manifest_prefetch]; their set is dropped the same way. *)
Inductive worker_step : Sched → future → Sched → list future → Prop :=
| w_start s a : worker_step s (FStartup a) s [FStartup a; FWorker a RTop]
| w_next s a : sc_running s = true → worker_step s (FWorker a RTop) s [FWorker a RSlot]
| w_end s a : worker_step s (FWorker a RTop) s []
| w_slot s a : sc_slots_closed s = false → 0 < sc_block_slots s →
    worker_step s (FWorker a RSlot) (add_block_slots (-1) s) [FWorker a RRead]
| w_slot_end s a : worker_step s (FWorker a RSlot) s []
| w_read s a : worker_step s (FWorker a RRead) (add_block_slots 1 s) [FWorker a RTop].

(** The future of a start-up pack: [run_startup_pack_task] and what follows it. *)
Inductive pack_step : Sched → future → Sched → list future → Prop :=
| r_startup_begin s a p : sc_packs s !! a = Some p → pack_step s (FStartup a) (set_pack a (set_phase Running p) s) [FStartup a]
| r_startup_end s a p ph : sc_packs s !! a = Some p → ph ∈ [Done; Failed; Canceled] → (ph = Canceled → sp_canceled p = true) →
    pack_step s (FStartup a) (set_pack a (set_phase ph p) s) [FStartupLeaving]
| r_startup_aborted s a : sc_aborted s = true → pack_step s (FStartup a) s [FStartupPermits]
| r_startup_leaving s : pack_step s FStartupLeaving (add_active (-1) s) [FStartupPermits]
| r_startup_permits s : pack_step s FStartupPermits (add_file_slots 1 (add_startup_slots 1 s)) [].

(** [submit] and [submit_startup_pack]. *)
Inductive submit_step : Sched → future → Sched → list future → Prop :=
| c_submit s t : submit_step s (FSubmit t) (register t s).1 (if (register t s).2 then [FTimer t] else [])
| c_pack_closed s key : sc_closed s = true → submit_step s (FSubmitPack key) s []
| c_pack_attach s key a p : sc_closed s = false → sc_startup_tasks s !! key = Some a → sc_packs s !! a = Some p →
    is_terminal p = false → submit_step s (FSubmitPack key) s [FAttach key a]
| c_pack_replace s key a p : sc_closed s = false → sc_startup_tasks s !! key = Some a → sc_packs s !! a = Some p →
    is_terminal p = true → submit_step s (FSubmitPack key) (queue_pack key s) [FPackQueued key (sc_refs s)]
| c_pack_new s key : sc_closed s = false → sc_startup_tasks s !! key = None →
    submit_step s (FSubmitPack key) (queue_pack key s) [FPackQueued key (sc_refs s)]
| c_attached s key a p : sc_packs s !! a = Some p → submit_step s (FAttach key a) (set_pack a (retain p) s) [FHandle key a]
| c_pack_count s key a : submit_step s (FPackQueued key a) (add_startup_waiting 1 s) [FPackCounted key a]
| c_pack_notify s key a : submit_step s (FPackCounted key a) (notify_one s) [FHandle key a].

(** Cloning and dropping a handle of a start-up pack. *)
Inductive handle_step : Sched → future → Sched → list future → Prop :=
| c_clone s key a a' p : sc_startup_tasks s !! key = Some a' → sc_packs s !! a' = Some p →
    handle_step s (FHandle key a) (set_pack a' (retain p) s) [FHandle key a; FHandle key a]
| c_clone_none s key a : sc_startup_tasks s !! key = None → handle_step s (FHandle key a) s [FHandle key a; FHandle key a]
| c_drop_none s key a : sc_startup_tasks s !! key = None → handle_step s (FHandle key a) s []
| c_drop_terminal s key a a' p : sc_startup_tasks s !! key = Some a' → sc_packs s !! a' = Some p → is_terminal p = true →
    handle_step s (FHandle key a) (set_startup_tasks (deregister_pack key a') s) []
| c_drop s key a a' p : sc_startup_tasks s !! key = Some a' → sc_packs s !! a' = Some p → is_terminal p = false →
    handle_step s (FHandle key a) (set_pack a' (release_holder p).1 s) (if (release_holder p).2 then [FCancel key a'] else [])
| c_cancel s key a p : sc_packs s !! a = Some p → is_terminal p = false →
    handle_step s (FCancel key a) (set_startup_ready (unqueue a (sc_startup_ready s)) (set_pack a (cancel p) s))
      [FUnqueued key a (zlen (sc_startup_ready s) - zlen (unqueue a (sc_startup_ready s)))]
| c_cancel_late s key a p : sc_packs s !! a = Some p → is_terminal p = true →
    handle_step s (FCancel key a) s [FUnqueued key a 0]
| c_unqueued s key a n :
    handle_step s (FUnqueued key a n) (set_startup_tasks (deregister_pack key a) (add_startup_waiting (- n) s)) [].

(** [stop] and [shutdown]. *)
Inductive stop_step : Sched → future → Sched → list future → Prop :=
| c_stop s b : stop_step s (FStop b) (set_closed s) [FStopping b]
| c_stopping s b : stop_step s (FStopping b) (close_slots s) [FWaking b]
| c_waking s b : stop_step s (FWaking b) (notify_waiters s) (if b then [FShutdown] else [])
| c_shutdown s : sc_active s = 0 → stop_step s FShutdown (set_down s) [].

Inductive fut_step : Sched → future → Sched → list future → Prop :=
| fut_dispatch s d s' fs : dispatch_step s d s' fs → fut_step s (FDispatcher d) s' fs
| fut_timer s f s' fs : timer_step s f s' fs → fut_step s f s' fs
| fut_run s f s' fs : run_step s f s' fs → fut_step s f s' fs
| fut_chunk s f s' fs : chunk_step s f s' fs → fut_step s f s' fs
| fut_worker s f s' fs : worker_step s f s' fs → fut_step s f s' fs
| fut_pack s f s' fs : pack_step s f s' fs → fut_step s f s' fs
| fut_submit s f s' fs : submit_step s f s' fs → fut_step s f s' fs
| fut_handle s f s' fs : handle_step s f s' fs → fut_step s f s' fs
| fut_stop s f s' fs : stop_step s f s' fs → fut_step s f s' fs.

(** A step of one of the futures, or a new call. *)
Inductive sched_step : Sched * list future → Sched * list future → Prop :=
| step_future s l f l' s' fs : l ≡ₚ f :: l' → fut_step s f s' fs → sched_step (s, l) (s', fs ++ l')
| step_submit s l cache_id device_key : sched_step (s, l)
    (next_ref s, FSubmit {| bt_ref := sc_refs s; bt_cache_id := cache_id; bt_device_key := device_key |} :: l)
| step_submit_pack s l key : sched_step (s, l) (s, FSubmitPack key :: l)
| step_stop s l b : sched_step (s, l) (s, FStop b :: l).

(** The arguments of [BkDownloadScheduler::new] that the state depends on. *)
Record SchedConfig : Type := { max_concurrent_files : Z; max_inflight_blocks : Z }.

Definition file_cap (c : SchedConfig) : Z := Z.max (max_concurrent_files c) 1.
Definition startup_cap (c : SchedConfig) : Z := Z.max (Z.max (max_concurrent_files c) 1 / 4) 1.
Definition block_cap (c : SchedConfig) : Z := Z.max (max_inflight_blocks c) 1.

Definition sched_new (c : SchedConfig) : Sched := {|
  sc_tasks := ∅; sc_ready := []; sc_permit := false; sc_waiter := None; sc_startup_tasks := ∅; sc_startup_ready := [];
  sc_startup_waiting := 0; sc_packs := ∅; sc_closed := false; sc_running := true; sc_active := 1;
  sc_file_slots := file_cap c; sc_startup_slots := startup_cap c; sc_block_slots := block_cap c;
  sc_slots_closed := false; sc_aborted := false; sc_down := false; sc_refs := 0 |}.

Inductive sched_reachable (c : SchedConfig) : Sched * list future → Prop :=
| sched_start : sched_reachable c (sched_new c, [FDispatcher DTop])
| sched_next x y : sched_reachable c x → sched_step x y → sched_reachable c y.

(** ** What a future holds *)

(** Whether [active] counts the future. *)
Definition counted (f : future) : Z :=
  match f with
  | FDispatcher DAbort => 0
  | FDispatcher _ | FTimer _ | FTimerLocked _ | FPush _ | FRemove _ | FRun _ _ | FGuard _ | FRequeue _ | FPushed | FLeaving | FStartup _ | FStartupLeaving => 1
  | _ => 0
  end.

Definition file_held (f : future) : Z :=
  match f with
  | FDispatcher (DStartupCheck _ | DStartupGo _ | DStartupSpawn _ | DTaskCheck _ | DTaskGo _)
  | FRun _ _ | FDefused | FStartup _ | FStartupLeaving | FStartupPermits => 1
  | _ => 0
  end.

Definition startup_held (f : future) : Z :=
  match f with
  | FDispatcher (DStartupFile _ | DStartupCheck _ | DStartupGo _ | DStartupSpawn _)
  | FStartup _ | FStartupLeaving | FStartupPermits => 1
  | _ => 0
  end.

Definition block_held (f : future) : Z :=
  match f with FChunk _ _ RRead | FWorker _ RRead => 1 | _ => 0 end.

(** The packs a future has taken from the queue without giving their count
    back; a pack that is queued before it is counted is taken off. *)
Definition pack_held (f : future) : Z :=
  match f with
  | FDispatcher (DDeadline _ | DExpired | DStartupSlot _ | DStartupFile _ | DStartupCheck _ | DStartupGo _) => 1
  | FPackQueued _ _ => -1
  | FUnqueued _ _ n => n
  | _ => 0
  end.

(** The task a future is responsible for. *)
Definition token (f : future) : list BkDownloadTask :=
  match f with
  | FDispatcher (DPopped t | DTask t | DTaskCheck t | DTaskGo t) | FTimer t | FTimerLocked t | FPush t | FRemove t
  | FRun t _ | FGuard t | FRequeue t => [t]
  | _ => []
  end.

Fixpoint total (w : future → Z) (l : list future) : Z :=
  match l with [] => 0 | f :: l' => w f + total w l' end.

Definition ready_tasks (q : FairReadyQueue (option str) BkDownloadTask) : list BkDownloadTask := mjoin q.*2.
Definition live_tasks (s : Sched) (l : list future) : list BkDownloadTask := ready_tasks (sc_ready s) ++ (l ≫= token).

Lemma total_app w l1 l2 : total w (l1 ++ l2) = total w l1 + total w l2.
Proof. induction l1; cbn in *; lia. Qed.

Lemma total_perm w l1 l2 : l1 ≡ₚ l2 → total w l1 = total w l2.
Proof. induction 1; cbn in *; lia. Qed.

Lemma total_nonneg w l : (∀ f, 0 ≤ w f) → 0 ≤ total w l.
Proof. intros Hw. induction l as [|f l IH]; cbn; [lia|]. specialize (Hw f). lia. Qed.

Lemma total_elem w l f : (∀ f, 0 ≤ w f) → f ∈ l → w f ≤ total w l.
Proof.
  intros Hw. induction 1 as [f l|f g l _ IH]; cbn; [pose proof (total_nonneg w l Hw); lia|]. specialize (Hw g). lia.
Qed.

Ltac future_cases f := destruct f; try match goal with d : dispatcher |- _ => destruct d | pc : read_pc |- _ => destruct pc end.

Lemma counted_nonneg f : 0 ≤ counted f.
Proof. by future_cases f. Qed.

(** The cases of a step. *)
Ltac step_cases H :=
  let H1 := fresh in
  inversion H as [? ? ? ? H1|? ? ? ? H1|? ? ? ? H1|? ? ? ? H1|? ? ? ? H1|? ? ? ? H1|? ? ? ? H1|? ? ? ? H1|? ? ? ? H1]; subst; clear H; inversion H1; subst; clear H1;
  unfold register, push_ready, notify_one, notify_waiters, drop_notified, release_holder in *;
  repeat case_match; cbn [fst snd] in *; try discriminate.

(** A step changes the counters by what its futures hold. *)
Lemma step_active s f s' fs : fut_step s f s' fs → total counted fs - counted f ≤ sc_active s' - sc_active s.
Proof. intros H. step_cases H; cbn; lia. Qed.

Lemma step_file s f s' fs : fut_step s f s' fs → 0 ≤ sc_file_slots s → 0 ≤ sc_file_slots s'
  ∧ sc_file_slots s' + total file_held fs = sc_file_slots s + file_held f.
Proof. intros H. step_cases H; cbn; lia. Qed.

Lemma step_startup s f s' fs : fut_step s f s' fs → 0 ≤ sc_startup_slots s → 0 ≤ sc_startup_slots s'
  ∧ sc_startup_slots s' + total startup_held fs = sc_startup_slots s + startup_held f.
Proof. intros H. step_cases H; cbn; lia. Qed.

Lemma step_block s f s' fs : fut_step s f s' fs → 0 ≤ sc_block_slots s → 0 ≤ sc_block_slots s'
  ∧ sc_block_slots s' + total block_held fs = sc_block_slots s + block_held f.
Proof. intros H. step_cases H; cbn; lia. Qed.

(** Once the slots are closed no read begins. *)
Lemma step_reads s f s' fs : fut_step s f s' fs → sc_slots_closed s = true →
  sc_slots_closed s' = true ∧ total block_held fs ≤ block_held f.
Proof. intros H. step_cases H; cbn; intros Hc; try congruence; split; done || lia. Qed.

(** Stopping is for good. *)
Definition stopping (f : future) : bool :=
  match f with FStopping _ | FWaking _ | FShutdown => true | _ => false end.

Lemma step_stopped s f s' fs : fut_step s f s' fs →
  (sc_running s = negb (sc_closed s) → sc_running s' = negb (sc_closed s'))
  ∧ (sc_closed s = true → sc_closed s' = true)
  ∧ ((stopping f = true → sc_closed s = true) → (sc_slots_closed s = true → sc_closed s = true) →
     (existsb stopping fs = true → sc_closed s' = true) ∧ (sc_slots_closed s' = true → sc_closed s' = true)).
Proof. intros H. step_cases H; cbn; split_and!; try done;
  try match goal with Hc : sc_closed _ = _ |- _ => rewrite Hc in * end; cbn in *; intuition congruence. Qed.

(** Whether the slots are closed once the future is there. *)
Definition closing (f : future) : bool := match f with FWaking _ | FShutdown => true | _ => false end.

Lemma step_closing s f s' fs : fut_step s f s' fs → (closing f = true → sc_slots_closed s = true) →
  (sc_slots_closed s = true → sc_slots_closed s' = true) ∧ (existsb closing fs = true → sc_slots_closed s' = true)
  ∧ (sc_down s' = true → sc_down s = true ∨ sc_slots_closed s' = true).
Proof. intros H. step_cases H; cbn; intuition congruence. Qed.

(** The count of the packs: [startup_waiting] follows the packs that are queued
    or held, as long as the dispatcher does not leave. *)
Lemma step_waiting s f s' fs : fut_step s f s' fs → sc_running s = negb (sc_closed s) →
  (sc_slots_closed s = true → sc_closed s = true) → sc_running s' = true →
  let d := zlen (sc_startup_ready s') + total pack_held fs - zlen (sc_startup_ready s) - pack_held f in
  (sc_startup_waiting s' = sc_startup_waiting s ∧ d = 0) ∨ sc_startup_waiting s' = wrap64 (sc_startup_waiting s + d).
Proof.
  intros H. step_cases H; cbn; intros Hr Hc Hr'; try (by rewrite Hr' in *); try (left; split; [done|lia]);
    try (right; f_equal; lia).
  - left. split; [done|]. rewrite H, zlen_cons. lia.
  - left. split; [done|]. rewrite zlen_app, zlen_cons, zlen_nil. lia.
  - left. split; [done|]. rewrite zlen_app, zlen_cons, zlen_nil. lia.
Qed.

(** ** Tasks *)

#[local] Arguments ready_tasks : simpl never.

Lemma ready_tasks_app q1 q2 : ready_tasks (q1 ++ q2) = ready_tasks q1 ++ ready_tasks q2.
Proof. unfold ready_tasks. by rewrite fmap_app, join_app. Qed.

Lemma ready_tasks_push k t q : ready_tasks (fq_push k t q) ≡ₚ t :: ready_tasks q.
Proof.
  destruct (fq_push_cases k t q) as [(q1 & l & q2 & -> & _ & ->)|[_ ->]]; rewrite !ready_tasks_app; unfold ready_tasks; cbn.
  - solve_Permutation.
  - solve_Permutation.
Qed.

Lemma ready_tasks_pop q : ready_tasks q ≡ₚ option_list (fq_pop q).2 ++ ready_tasks (fq_pop q).1.
Proof.
  destruct q as [|[k [|t l]] q]; [done|done|]. destruct l as [|t' l]; [done|].
  change (fq_pop _) with (q ++ [(k, t' :: l)], Some t). cbn [fst snd]. rewrite ready_tasks_app. unfold ready_tasks. cbn.
  rewrite app_nil_r. solve_Permutation.
Qed.

(** What a step does to the registry and to the tasks that futures and the
    queue are responsible for. *)
Inductive task_change (s : Sched) (f : future) (s' : Sched) (fs : list future) : Prop :=
| moved : sc_tasks s' = sc_tasks s → ready_tasks (sc_ready s') ++ (fs ≫= token) ⊆+ ready_tasks (sc_ready s) ++ token f →
    task_change s f s' fs
| registered t : sc_closed s = false → sc_tasks s !! bt_cache_id t = None → sc_tasks s' = <[bt_cache_id t := t]> (sc_tasks s) →
    sc_ready s' = sc_ready s → token f = [] → fs ≫= token = [t] → task_change s f s' fs
| removed t : token f = [t] → sc_tasks s' = remove_task t (sc_tasks s) → sc_ready s' = sc_ready s → fs ≫= token = [] →
    task_change s f s' fs
| cleared : f = FShutdown → sc_active s = 0 → sc_tasks s' = ∅ → sc_ready s' = [] → fs = [] → task_change s f s' fs.

Lemma step_tasks s f s' fs : fut_step s f s' fs → task_change s f s' fs.
Proof.
  intros H. step_cases H; cbn; try (by apply moved; [done|cbn; rewrite ?app_nil_r]);
    try (by eapply removed); try (by eapply registered); try (by eapply cleared).
  all: apply moved; [done|]; cbn; rewrite ?app_nil_r, ?ready_tasks_push.
  all: try (by apply submseteq_inserts_r); try (apply Permutation_submseteq; solve_Permutation).
  all: pose proof (ready_tasks_pop (sc_ready s)) as Hp; rewrite H in Hp; cbn in Hp; rewrite Hp; try done.
  apply Permutation_submseteq. solve_Permutation.
Qed.

(** ** The invariant *)

Record sched_inv (c : SchedConfig) (s : Sched) (l : list future) : Prop := {
  si_active : total counted l ≤ sc_active s;
  si_file : 0 ≤ sc_file_slots s ∧ sc_file_slots s + total file_held l = file_cap c;
  si_startup : 0 ≤ sc_startup_slots s ∧ sc_startup_slots s + total startup_held l = startup_cap c;
  si_block : 0 ≤ sc_block_slots s ∧ sc_block_slots s + total block_held l = block_cap c;
  si_running : sc_running s = negb (sc_closed s);
  si_stopping : ∀ f, f ∈ l → stopping f = true → sc_closed s = true;
  si_slots : sc_slots_closed s = true → sc_closed s = true;
  si_closing : (∀ f, f ∈ l → closing f = true → sc_slots_closed s = true) ∧ (sc_down s = true → sc_slots_closed s = true);
  si_waiting : sc_running s = true → sc_startup_waiting s = wrap64 (zlen (sc_startup_ready s) + total pack_held l);
  si_distinct : NoDup (bt_cache_id <$> live_tasks s l);
  si_registered : ∀ t, t ∈ live_tasks s l → sc_tasks s !! bt_cache_id t = Some t;
  si_down : sc_down s = true → sc_closed s = true ∧ total counted l = 0 ∧ sc_tasks s = ∅ ∧ sc_ready s = []
}.

Lemma inv_start n : sched_inv n (sched_new n) [FDispatcher DTop].
Proof.
  constructor; cbn; try done; unfold file_cap, startup_cap, block_cap; try lia; try by apply NoDup_nil.
  - intros f ->%list_elem_of_singleton. done.
  - split; [|done]. intros f ->%list_elem_of_singleton. done.
  - intros t. unfold live_tasks. cbn. by intros ?%not_elem_of_nil.
Qed.

Lemma inv_perm n s l l' : l ≡ₚ l' → sched_inv n s l → sched_inv n s l'.
Proof.
  intros Hl [Ha Hf Hs Hb Hr Hst Hsl [Hcl Hcd] Hw Hd Hreg Hdown].
  assert (live_tasks s l ≡ₚ live_tasks s l') as Hlive by (unfold live_tasks; by rewrite Hl).
  constructor; rewrite <- ?(total_perm _ _ _ Hl); try done.
  - intros f. rewrite <- Hl. apply Hst.
  - split; [|done]. intros f. rewrite <- Hl. apply Hcl.
  - by rewrite <- Hlive.
  - intros t. rewrite <- Hlive. apply Hreg.
Qed.

(** After [shutdown] has returned nothing is counted again. *)
Lemma step_down s f s' fs : fut_step s f s' fs → sc_down s' = true →
  (sc_down s = true ∧ (sc_closed s = true → counted f = 0 →
     total counted fs = 0 ∧ sc_tasks s' = sc_tasks s ∧ sc_ready s' = sc_ready s))
  ∨ (f = FShutdown ∧ sc_active s = 0 ∧ fs = [] ∧ sc_tasks s' = ∅ ∧ sc_ready s' = [] ∧ sc_closed s' = sc_closed s).
Proof. intros H. step_cases H; cbn; intros Hd; try (left; split; [done|]; intros; try done; try congruence); right; done. Qed.

Lemma uncounted_token f : counted f = 0 → token f = [].
Proof. by future_cases f. Qed.

Lemma total_counted_0 l : total counted l = 0 → l ≫= token = [].
Proof.
  induction l as [|f l IH]; cbn; [done|]. intros H. pose proof (counted_nonneg f).
  pose proof (total_nonneg counted l counted_nonneg). rewrite uncounted_token by lia. apply IH. lia.
Qed.

Lemma wrap64_add x d : wrap64 (wrap64 x + d) = wrap64 (x + d).
Proof. unfold wrap64. by rewrite Zplus_mod_idemp_l. Qed.

Lemma NoDup_submseteq_2 {A} (l1 l2 : list A) : l1 ⊆+ l2 → NoDup l2 → NoDup l1.
Proof. intros [k ->]%submseteq_Permutation [H _]%NoDup_app. done. Qed.

(** The tasks stay distinct and registered. *)
Lemma step_live n s f l s' fs : fut_step s f s' fs → sched_inv n s (f :: l) →
  NoDup (bt_cache_id <$> live_tasks s' (fs ++ l)) ∧ ∀ t, t ∈ live_tasks s' (fs ++ l) → sc_tasks s' !! bt_cache_id t = Some t.
Proof.
  intros H Hinv. pose proof (si_distinct _ _ _ Hinv) as Hd. pose proof (si_registered _ _ _ Hinv) as Hr.
  pose proof (si_active _ _ _ Hinv) as Ha. unfold live_tasks in *. rewrite bind_app. cbn [mbind list_bind] in Hd, Hr.
  destruct (step_tasks _ _ _ _ H) as [Ht Hs|t Hc Ht Ht' Hq Hf Hfs|t Hf Ht Hq Hfs| -> H0 Ht Hq -> ].
  - assert (ready_tasks (sc_ready s') ++ (fs ≫= token) ++ (l ≫= token) ⊆+ ready_tasks (sc_ready s) ++ token f ++ (l ≫= token)) as Hl.
    { rewrite !app_assoc. by apply submseteq_app. }
    split; [|intros t Hin; rewrite Ht; apply Hr; by eapply elem_of_submseteq].
    eapply NoDup_submseteq_2; [|exact Hd]. by apply fmap_submseteq.
  - rewrite Hq, Ht', Hfs. rewrite Hf in Hd, Hr. cbn [app] in *.
    assert (ready_tasks (sc_ready s) ++ t :: (l ≫= token) ≡ₚ t :: ready_tasks (sc_ready s) ++ (l ≫= token)) as Hp by solve_Permutation.
    assert (bt_cache_id t ∉ bt_cache_id <$> ready_tasks (sc_ready s) ++ (l ≫= token)) as Hn.
    { intros (t' & Ht1 & Hin)%list_elem_of_fmap. apply Hr in Hin. congruence. }
    split; [rewrite Hp; by apply NoDup_cons|]. intros t'. rewrite Hp. intros [->|Hin]%elem_of_cons; [apply lookup_insert_eq|].
    rewrite lookup_insert_ne; [by apply Hr|]. intros E. apply Hn. rewrite E. by apply list_elem_of_fmap_2.
  - rewrite Hq, Ht, Hfs. rewrite Hf in Hd, Hr. cbn [app] in *.
    assert (ready_tasks (sc_ready s) ++ t :: (l ≫= token) ≡ₚ t :: ready_tasks (sc_ready s) ++ (l ≫= token)) as Hp by solve_Permutation.
    rewrite Hp in Hd. cbn in Hd. apply NoDup_cons in Hd as [Hn Hd]. split; [done|]. intros t' Hin.
    unfold remove_task. rewrite (Hr t) by (rewrite Hp; by left). rewrite Z.eqb_refl.
    rewrite lookup_delete_ne; [apply Hr; rewrite Hp; by right|]. intros E. apply Hn. rewrite E. by apply list_elem_of_fmap_2.
  - assert (l ≫= token = []) as Hl.
    { apply total_counted_0. cbn in Ha. pose proof (total_nonneg counted l counted_nonneg). lia. }
    rewrite Hq, Hl. cbn. split; [apply NoDup_nil_2|]. by intros t ?%not_elem_of_nil.
Qed.

Lemma existsb_elem {A} (p : A → bool) x l : x ∈ l → p x = true → existsb p l = true.
Proof. intros Hx Hp. apply existsb_exists. exists x. split; [by apply list_elem_of_In|done]. Qed.

Lemma inv_step n s f l s' fs : sched_inv n s (f :: l) → fut_step s f s' fs → sched_inv n s' (fs ++ l).
Proof.
  intros Hinv H. destruct (step_live _ _ _ _ _ _ H Hinv) as [Hd' Hr']. destruct Hinv as [Ha [Hf0 Hf] [Hs0 Hs] [Hb0 Hb] Hr Hst Hsl [Hcl Hcd] Hw _ _ Hdown].
  pose proof (step_active _ _ _ _ H) as Ha'. destruct (step_file _ _ _ _ H Hf0) as [Hf0' Hf'].
  destruct (step_startup _ _ _ _ H Hs0) as [Hs0' Hs']. destruct (step_block _ _ _ _ H Hb0) as [Hb0' Hb'].
  destruct (step_closing _ _ _ _ H) as (Hcm & Hcf & Hcd'); [apply Hcl; by left|].
  destruct (step_stopped _ _ _ _ H) as (Hrun & Hmono & Hstop).
  destruct Hstop as [Hst' Hsl']; [apply Hst; by left|done|]. cbn [total] in *.
  assert (total counted (fs ++ l) ≤ sc_active s' ∧ sc_file_slots s' + total file_held (fs ++ l) = file_cap n
    ∧ sc_startup_slots s' + total startup_held (fs ++ l) = startup_cap n
    ∧ sc_block_slots s' + total block_held (fs ++ l) = block_cap n) as (Ha1 & Hf1 & Hs1 & Hb1).
  { rewrite !total_app. clear -Ha Ha' Hf Hf' Hs Hs' Hb Hb'. lia. }
  constructor; try done; [by apply Hrun|..].
  - intros g [Hg|Hg]%elem_of_app Hg'; [by apply Hst', (existsb_elem _ g)|].
    apply Hmono, (Hst g); [by right|done].
  - split; [|intros [Hd|Hd]%Hcd'; auto]. intros g [Hg|Hg]%elem_of_app Hg'; [by apply Hcf, (existsb_elem _ g)|].
    apply Hcm, (Hcl g); [by right|done].
  - intros Hrs'. assert (sc_running s = true) as Hrs.
    { rewrite Hr. rewrite Hrun in Hrs' by done. destruct (sc_closed s); [|done]. by rewrite Hmono in Hrs'. }
    specialize (Hw Hrs). rewrite total_app. destruct (step_waiting _ _ _ _ H Hr Hsl Hrs') as [[-> Hz]|Hz].
    + rewrite Hw. f_equal. clear -Hz. lia.
    + rewrite Hz, Hw, wrap64_add. f_equal. clear. lia.
  - intros Hds'. pose proof (counted_nonneg f) as Hc0. pose proof (total_nonneg counted l counted_nonneg) as Hl0. rewrite total_app.
    destruct (step_down _ _ _ _ H Hds') as [[Hds Hc]|(-> & H0 & -> & Ht & Hq & Hc)].
    + destruct (Hdown Hds) as (Hcl0 & Ht0 & Ht & Hq).
      destruct (Hc Hcl0) as (Hfs0 & -> & ->); [clear -Ht0 Hc0 Hl0; lia|]. rewrite Hfs0. split_and!; [auto| |done|done].
      clear -Ht0 Hc0 Hl0. lia.
    + rewrite Hc. split_and!; [by apply (Hst FShutdown); [left|]| |done|done]. cbn in Ha |- *. clear -Ha H0 Hl0. lia.
Qed.

Lemma inv_spawn n s s' f l : sched_inv n s l → s' = s ∨ s' = next_ref s →
  counted f = 0 → file_held f = 0 → startup_held f = 0 → block_held f = 0 → pack_held f = 0 → stopping f = false → closing f = false → sched_inv n s' (f :: l).
Proof.
  intros [Ha Hf Hs Hb Hr Hst Hsl [Hcl Hcd] Hw Hd Hreg Hdown] Hs' H1 H2 H3 H4 H5 H6 H7.
  assert (live_tasks s' (f :: l) = live_tasks s l) as Hl.
  { unfold live_tasks. cbn. rewrite uncounted_token by done. by destruct Hs' as [->| ->]. }
  constructor; rewrite ?Hl; cbn [total]; rewrite ?H1, ?H2, ?H3, ?H4, ?H5; destruct Hs' as [->| ->]; cbn; try done.
  all: try (split; [|done]); intros g [->|Hg]%elem_of_cons Hg'; [congruence|by eauto].
Qed.

Lemma reachable_inv n x : sched_reachable n x → sched_inv n x.1 x.2.
Proof.
  induction 1 as [|x y _ IH Hst]; [apply inv_start|]. inversion Hst as [s l f l' s' fs Hl H|s l c d|s l k|s l b]; subst; cbn in *.
  - eapply inv_step; [|exact H]. by eapply inv_perm.
  - by eapply inv_spawn; auto.
  - by eapply inv_spawn; auto.
  - by eapply inv_spawn; auto.
Qed.

(** ** What the scheduler promises *)

Definition downloading (l : list future) : list BkDownloadTask := l ≫= λ f, match f with FRun t _ => [t] | _ => [] end.
Definition is_download (f : future) : Z := match f with FRun _ _ => 1 | _ => 0 end.
Definition is_pack (f : future) : Z := match f with FStartup _ => 1 | _ => 0 end.

Lemma total_le (w1 w2 : future → Z) l : (∀ f, w1 f ≤ w2 f) → total w1 l ≤ total w2 l.
Proof. intros Hw. induction l as [|f l IH]; cbn; [done|]. specialize (Hw f). lia. Qed.

Lemma total_add (w1 w2 : future → Z) l : total w1 l + total w2 l = total (λ f, w1 f + w2 f) l.
Proof. induction l; cbn; lia. Qed.

Lemma held_slots f : is_download f + is_pack f ≤ file_held f ∧ is_pack f ≤ startup_held f.
Proof. future_cases f; cbn; lia. Qed.

Lemma downloading_live s l : downloading l ⊆+ live_tasks s l.
Proof.
  unfold live_tasks, downloading. apply submseteq_inserts_l. induction l as [|f l IH]; [done|].
  change (match f with FRun t _ => [t] | _ => [] end ++ (l ≫= λ f, match f with FRun t _ => [t] | _ => [] end) ⊆+ token f ++ (l ≫= token)).
  apply submseteq_app; [|done]. destruct f; try apply submseteq_nil_l. done.
Qed.

(** C7: In every interleaving, no two downloads of one cached file run at a
    time, and each is the one that is registered; downloads and start-up packs
    together take no more than the file slots, start-up packs no more than a
    quarter of them or one, and the reads of their chunks no more than the
    block slots, reads that a run has left behind included; while the scheduler
    runs, the count of waiting start-up packs, to which downloads yield, is
    that of the packs that are queued or about to be started; and when a call
    of [shutdown] has returned, the registry and the ready queue are empty and
    stay so, no future that [active] counts is left or starts again (the
    dispatcher in its loop, timers, runs and their requeueing, packs), and no
    read begins.  What [active] does not count can be left: reads that have
    begun and tasks that wait to read, a dispatcher that is dropping its runs,
    futures that are giving back their permits, callers and handles. *)
Theorem scheduler_safe n s l : sched_reachable n (s, l) →
  NoDup (bt_cache_id <$> downloading l)
  ∧ (∀ t, t ∈ downloading l → sc_tasks s !! bt_cache_id t = Some t)
  ∧ total is_download l + total is_pack l ≤ file_cap n
  ∧ total is_pack l ≤ startup_cap n
  ∧ total block_held l ≤ block_cap n
  ∧ (sc_running s = true → sc_startup_waiting s = wrap64 (zlen (sc_startup_ready s) + total pack_held l))
  ∧ (sc_down s = true → sc_tasks s = ∅ ∧ sc_ready s = [] ∧ (∀ f, f ∈ l → counted f = 0)
     ∧ ∀ f s' fs, f ∈ l → fut_step s f s' fs → total block_held fs ≤ block_held f).
Proof.
  intros Hr%reachable_inv. cbn in Hr. pose proof (downloading_live s l) as Hl.
  destruct Hr as [_ [Hf0 Hf] [Hs0 Hs] [Hb0 Hb] _ _ _ [_ Hcd] Hw Hd Hreg Hdown].
  split_and!; try done.
  - eapply NoDup_submseteq_2; [by apply fmap_submseteq|done].
  - intros t Ht. apply Hreg. by eapply elem_of_submseteq.
  - rewrite total_add. pose proof (total_le (λ f, is_download f + is_pack f) file_held l (λ f, proj1 (held_slots f))). lia.
  - pose proof (total_le is_pack startup_held l (λ f, proj2 (held_slots f))). lia.
  - lia.
  - intros Hds. destruct (Hdown Hds) as (_ & H0 & Ht & Hq). split_and!; [done|done| |].
    + intros f Hf'. pose proof (total_elem counted l f counted_nonneg Hf'). pose proof (counted_nonneg f). lia.
    + intros f s' fs _ H. by apply (step_reads _ _ _ _ H), Hcd.
Qed.

(** ** Runs *)

(** A step of the future [f], wherever it is in the list. *)
Ltac fire H rest rule :=
  eapply sched_next in H; [|eapply (step_future _ _ _ rest); [|rule]; solve_Permutation]; cbn [app] in H.

Section Runs.
Context (n : SchedConfig) (cid key : str).

Definition first_task : BkDownloadTask := {| bt_ref := 0; bt_cache_id := cid; bt_device_key := None |}.

Lemma cap_pos : 0 < file_cap n ∧ 0 < startup_cap n ∧ 0 < block_cap n.
Proof. unfold file_cap, startup_cap, block_cap. lia. Qed.

(** A run to the point where the first download is being made. *)
Lemma first_download : ∃ s, sched_reachable n (s, [FDispatcher DTop; FRun first_task RLoop])
  ∧ sc_active s = 2 ∧ sc_waiter s = None ∧ sc_down s = false ∧ sc_startup_waiting s = 0 ∧ sc_running s = true
  ∧ sc_slots_closed s = false ∧ sc_block_slots s = block_cap n.
Proof.
  pose proof cap_pos as (Hcap & _ & _). pose proof (sched_start n) as H.
  eapply sched_next in H; [|apply (step_submit _ _ cid None)].
  fire H [FDispatcher DTop] ltac:(apply fut_submit, c_submit).
  unfold register in H at 1 2. cbn [sc_closed sc_tasks next_ref sched_new bt_cache_id] in H. rewrite lookup_empty in H. cbn [fst snd app] in H.
  fire H [FDispatcher DTop] ltac:(by apply fut_timer, r_timer_ready).
  fire H [FDispatcher DTop] ltac:(by apply fut_timer, r_locked_ready).
  fire H [FDispatcher DTop] ltac:(apply fut_timer, r_push).
  fire H [FDispatcher DTop] ltac:(apply fut_timer, r_pushed).
  fire H [FDispatcher DTop] ltac:(apply fut_timer, r_leaving).
  fire H (@nil future) ltac:(by apply fut_dispatch, d_running).
  fire H (@nil future) ltac:(by apply fut_dispatch, d_no_pack).
  fire H (@nil future) ltac:(apply fut_dispatch, d_ready).
  fire H (@nil future) ltac:(by eapply fut_dispatch, d_pop).
  fire H (@nil future) ltac:(by apply fut_dispatch, d_popped).
  fire H (@nil future) ltac:(by apply fut_dispatch, d_task; [|cbn; lia]).
  fire H (@nil future) ltac:(by apply fut_dispatch, d_task_check).
  fire H (@nil future) ltac:(by apply fut_dispatch, d_task_go).
  eexists. split; [exact H|]. cbn. split_and!; done.
Qed.

(** A run to the point where the first start-up pack is being fetched. *)
Lemma first_pack : ∃ s, sched_reachable n (s, [FDispatcher DTop; FStartup 0; FHandle key 0])
  ∧ sc_active s = 2 ∧ sc_refs s = 1 ∧ sc_closed s = false ∧ sc_waiter s = None ∧ sc_down s = false
  ∧ sc_startup_tasks s !! key = Some 0 ∧ sc_packs s !! 0 = Some startup_new.
Proof.
  pose proof cap_pos as (Hcap1 & Hcap2 & _). pose proof (sched_start n) as H.
  eapply sched_next in H; [|apply (step_submit_pack _ _ key)].
  fire H [FDispatcher DTop] ltac:(by apply fut_submit, c_pack_new; [|apply lookup_empty]).
  fire H [FDispatcher DTop] ltac:(apply fut_submit, c_pack_count).
  fire H [FDispatcher DTop] ltac:(apply fut_submit, c_pack_notify).
  fire H [FHandle key 0] ltac:(by apply fut_dispatch, d_running).
  fire H [FHandle key 0] ltac:(by eapply fut_dispatch, d_pack).
  fire H [FHandle key 0] ltac:(by eapply fut_dispatch, d_in_time; [apply lookup_insert_eq|]).
  fire H [FHandle key 0] ltac:(by apply fut_dispatch, d_startup_slot; [|cbn; lia]).
  fire H [FHandle key 0] ltac:(by apply fut_dispatch, d_startup_file; [|cbn; lia]).
  fire H [FHandle key 0] ltac:(by apply fut_dispatch, d_startup_check).
  fire H [FHandle key 0] ltac:(apply fut_dispatch, d_startup_go).
  fire H [FHandle key 0] ltac:(apply fut_dispatch, d_startup_spawn).
  eexists. split; [exact H|]. cbn. split_and!; try done; apply lookup_insert_eq.
Qed.

(** A call of [shutdown] up to the point where it waits. *)
Lemma shutdown_called s l : sched_reachable n (s, l) → sc_waiter s = None →
  sched_reachable n (close_slots (set_closed s), FShutdown :: l).
Proof.
  intros H Hw. eapply sched_next in H; [|apply (step_stop _ _ true)].
  fire H l ltac:(apply fut_stop, c_stop). fire H l ltac:(apply fut_stop, c_stopping). fire H l ltac:(apply fut_stop, c_waking).
  unfold notify_waiters in H. cbn in H. by rewrite Hw in H.
Qed.

(** A scheduler without futures whose [active] is not zero waits for ever. *)
Lemma shutdown_stuck x y : rtc sched_step x y → sc_closed x.1 = true → total counted x.2 = 0 → sc_active x.1 ≠ 0 →
  sc_down x.1 = false → sc_down y.1 = false.
Proof.
  induction 1 as [x|x y z Hst _ IH]; [done|]. intros Hc H0 Ha Hd. pose proof (counted_nonneg) as Hnn.
  inversion Hst as [s l f l' s' fs Hl H|s l c d|s l k|s l b]; subst; cbn in *; try by apply IH.
  rewrite (total_perm _ _ _ Hl) in H0. cbn in H0. pose proof (Hnn f). pose proof (total_nonneg counted l' Hnn).
  assert (counted f = 0) as Hf by lia. rewrite total_app in IH.
  assert (sc_closed s' = true ∧ total counted fs = 0 ∧ sc_active s' = sc_active s ∧ sc_down s' = sc_down s) as (E1 & E2 & E3 & E4).
  { clear - H Hf Hc Ha. step_cases H; cbn in *; try done; congruence. }
  apply IH; [done|lia|congruence|congruence].
Qed.

(** A download that yields is counted twice in [active] and given back once. *)
Lemma requeued_task_blocks_shutdown : ∃ s, sched_reachable n (s, [FShutdown]) ∧
  ∀ y, rtc sched_step (s, [FShutdown]) y → sc_down y.1 = false.
Proof.
  destruct first_download as (s & H & Ha & Hw & Hd & _ & _ & _ & _).
  fire H [FDispatcher DTop] ltac:(apply fut_run, r_requeue).
  apply shutdown_called in H; [|done].
  fire H [FShutdown; FRequeue first_task; FDispatcher DTop] ltac:(apply fut_run, r_defused).
  fire H [FShutdown; FDispatcher DTop] ltac:(by apply fut_run, r_requeue_stopped).
  fire H [FShutdown; FDispatcher DTop] ltac:(apply fut_timer, r_remove).
  fire H [FShutdown; FDispatcher DTop] ltac:(apply fut_timer, r_leaving).
  fire H [FShutdown] ltac:(by apply fut_dispatch, d_stopped).
  fire H [FShutdown] ltac:(apply fut_dispatch, d_leave).
  fire H [FShutdown] ltac:(apply fut_dispatch, d_abort).
  eexists. split; [exact H|]. intros y Hy. eapply shutdown_stuck; [exact Hy|done|done| |done]. cbn. by rewrite Ha.
Qed.

(** The read of a chunk goes on after its run has ended and [shutdown] has
    returned. *)
Lemma chunk_read_outlives_shutdown : ∃ s, sched_reachable n (s, [FChunk first_task 1 RRead]) ∧ sc_down s = true.
Proof.
  pose proof cap_pos as (_ & _ & Hcap). destruct first_download as (s & H & Ha & Hw & Hd & Hq & Hrun & Hsl & Hb).
  fire H [FDispatcher DTop] ltac:(by apply fut_chunk, k_admit).
  fire H [FDispatcher DTop] ltac:(by apply fut_chunk, k_admitted).
  fire H [FDispatcher DTop] ltac:(apply fut_chunk, k_spawn).
  fire H [FDispatcher DTop; FRun first_task RLoop] ltac:(apply fut_chunk, k_slot; [done|lia]).
  apply shutdown_called in H; [|done].
  fire H [FShutdown; FDispatcher DTop; FChunk first_task 1 RRead] ltac:(apply fut_run, r_done).
  fire H [FShutdown; FDispatcher DTop; FChunk first_task 1 RRead] ltac:(apply fut_run, r_guard).
  fire H [FShutdown; FDispatcher DTop; FChunk first_task 1 RRead] ltac:(apply fut_timer, r_leaving).
  fire H [FShutdown; FChunk first_task 1 RRead] ltac:(by apply fut_dispatch, d_stopped).
  fire H [FShutdown; FChunk first_task 1 RRead] ltac:(apply fut_dispatch, d_leave).
  fire H [FShutdown; FChunk first_task 1 RRead] ltac:(apply fut_dispatch, d_abort).
  fire H [FChunk first_task 1 RRead] ltac:(apply fut_stop, c_shutdown; cbn; lia).
  eexists. by split; [exact H|].
Qed.

(** A start-up pack that is dropped with the set of runs stays counted in
    [active]. *)
Lemma aborted_pack_blocks_shutdown : ∃ s l, sched_reachable n (s, FShutdown :: l) ∧
  ∀ y, rtc sched_step (s, FShutdown :: l) y → sc_down y.1 = false.
Proof.
  destruct first_pack as (s & H & Ha & _ & _ & Hw & Hd & _ & _).
  apply shutdown_called in H; [|done].
  fire H [FShutdown; FStartup 0; FHandle key 0] ltac:(by apply fut_dispatch, d_stopped).
  fire H [FShutdown; FStartup 0; FHandle key 0] ltac:(apply fut_dispatch, d_leave).
  fire H [FShutdown; FStartup 0; FHandle key 0] ltac:(apply fut_dispatch, d_abort).
  fire H [FShutdown; FHandle key 0] ltac:(by apply fut_pack, r_startup_aborted).
  fire H [FShutdown; FHandle key 0] ltac:(apply fut_pack, r_startup_permits).
  do 2 eexists. split; [exact H|]. intros y Hy. eapply shutdown_stuck; [exact Hy|done|done| |done]. cbn. by rewrite Ha.
Qed.

(** [stop] between the dispatcher's test of [running] and its wait: the
    dispatcher sleeps, [shutdown] waits for it, and no future can move. *)
Lemma stop_missed_by_dispatcher : ∃ s, sched_reachable n (s, [FDispatcher DWait; FShutdown]) ∧ sc_closed s = true
  ∧ ∀ f s' fs, f ∈ [FDispatcher DWait; FShutdown] → ¬ fut_step s f s' fs.
Proof.
  pose proof (sched_start n) as H.
  fire H (@nil future) ltac:(by apply fut_dispatch, d_running).
  fire H (@nil future) ltac:(by apply fut_dispatch, d_no_pack).
  apply shutdown_called in H; [|done].
  fire H [FShutdown] ltac:(apply fut_dispatch, d_ready).
  fire H [FShutdown] ltac:(by eapply fut_dispatch, d_pop_none).
  eexists. split; [exact H|]. split; [done|]. intros f s' fs Hf Hst.
  apply elem_of_cons in Hf as [->|Hf%list_elem_of_singleton]; [|subst f]; step_cases Hst; cbn in *; congruence.
Qed.

Lemma notify_one_packs s : sc_startup_tasks (notify_one s) = sc_startup_tasks s ∧ sc_packs (notify_one s) = sc_packs s.
Proof. unfold notify_one. by repeat case_match. Qed.

(** The pack is done, and another one of the same key is submitted. *)
Lemma second_pack : ∃ s a, sched_reachable n (s, [FHandle key a; FStartupLeaving; FDispatcher DTop; FHandle key 0])
  ∧ sc_startup_tasks s !! key = Some a ∧ sc_packs s !! a = Some startup_new.
Proof.
  destruct first_pack as (s & H & Ha & Hrefs & Hc & Hw & Hd & Hk & Hp).
  fire H [FDispatcher DTop; FHandle key 0] ltac:(by apply fut_pack, (r_startup_end _ _ _ Done Hp); [set_solver|]).
  eapply sched_next in H; [|apply (step_submit_pack _ _ key)].
  fire H [FStartupLeaving; FDispatcher DTop; FHandle key 0]
    ltac:(by eapply fut_submit, c_pack_replace; [|exact Hk|apply lookup_insert_eq|]).
  fire H [FStartupLeaving; FDispatcher DTop; FHandle key 0] ltac:(apply fut_submit, c_pack_count).
  fire H [FStartupLeaving; FDispatcher DTop; FHandle key 0] ltac:(apply fut_submit, c_pack_notify).
  do 2 eexists. split; [exact H|]. rewrite (proj1 (notify_one_packs _)), (proj2 (notify_one_packs _)).
  split; apply lookup_insert_eq.
Qed.

(** The handle of the pack that is done cancels the new pack, whose own handle
    is still held. *)
Lemma stale_handle_cancels : ∃ s l a p, sched_reachable n (s, l) ∧ FHandle key a ∈ l
  ∧ sc_packs s !! a = Some p ∧ sp_canceled p = true ∧ sp_phase p = Queued ∧ a ∉ sc_startup_ready s.
Proof.
  destruct second_pack as (s & a & H & Hk & Hp).
  fire H [FHandle key a; FStartupLeaving; FDispatcher DTop] ltac:(by eapply fut_handle, (c_drop _ key 0 a _ Hk Hp)).
  cbn [snd release_holder sp_holders is_terminal startup_new sp_phase Z.eqb Pos.eqb andb negb app] in H.
  fire H [FHandle key a; FStartupLeaving; FDispatcher DTop] ltac:(by eapply fut_handle, c_cancel; [apply lookup_insert_eq|]).
  do 2 eexists. exists a. eexists. split; [exact H|]. split; [set_solver|]. split; [apply lookup_insert_eq|]. split; [done|]. split; [done|].
  unfold unqueue. by intros [? _]%list_elem_of_filter.
Qed.
End Runs.

(** The safety of the scheduler, in the middle of a download. *)
Lemma scheduler_safe_witness :
  ∃ s, sched_reachable (Build_SchedConfig 4 8) (s, [FDispatcher DTop; FRun (first_task [97]) RLoop])
  ∧ sc_tasks s !! [97] = Some (first_task [97]).
Proof.
  destruct (first_download (Build_SchedConfig 4 8) [97]) as (s & H & _). exists s. split; [exact H|].
  destruct (scheduler_safe _ s _ H) as (_ & Hr & _). apply (Hr (first_task [97])). set_solver.
Defined.
