(* ===== verification/BkDownload.v ===== *)
(** * The runs of background downloads

    What a task of the scheduler does with the file cache:
    [submit], [run_task], [download_chunks] and [refill_chunk_with_hedge] of
    [storage/overlaybd/src/backend/cache/bk_download.rs], and the gate of
    [storage/overlaybd/src/download_gate.rs].

    The chunks of a run are fetched by concurrent futures; a future does its
    work when it finishes, and the futures finish in any order.  What the rest
    of the node decides is the class [BkEnv]: whether the scheduler still runs,
    whether a start-up pack is waiting, whether a slot and the gate are granted,
    whether a read takes too long, and how far a future got that is dropped.  A
    run is alone with the cache: no eviction, foreground read or other download
    comes between its accesses. *)

From stdpp Require Import gmap.
From S2P Require Import Prelude LsmtIo Text ZFormat ZFile CacheMeta CacheEntry CachePool CacheStore CacheFile CacheInv CacheOps CacheBackground CacheHistory.

Open Scope result_scope.

(** ** Configuration *)

Record DownloadConfig : Type := {
  dc_try_cnt : Z;
  dc_block_size : Z;
  dc_concurrency : Z;
  dc_delay : Z;
  dc_delay_extra : Z
}.

Record BkTask : Type := {
  bk_cache_key : str;
  bk_source : Source;
  bk_source_size : Z;
  bk_config : DownloadConfig;
  bk_blocks_per_chunk : Z
}.

(** The part of [submit] that sizes the chunks of a task. *)
Definition blocks_per_chunk (chunk_size config_block_size cache_block_size : Z) : Z :=
  let cache_block_size := Z.max cache_block_size 1 in
  let max_chunk_blocks := chunk_size / cache_block_size in
  let blocks := config_block_size / cache_block_size in
  let blocks := if Z.max max_chunk_blocks 1 <? blocks then max_chunk_blocks else blocks in
  Z.max (if U32_MAX <? blocks then U32_MAX else blocks) 1.

Definition normalized (c : DownloadConfig) : DownloadConfig := {|
  dc_try_cnt := Z.max (dc_try_cnt c) 1;
  dc_block_size := dc_block_size c;
  dc_concurrency := Z.max (dc_concurrency c) 1;
  dc_delay := dc_delay c;
  dc_delay_extra := dc_delay_extra c
|}.

(** [background_download_delay], in seconds, of the clock's nanoseconds. *)
Definition background_download_delay (c : DownloadConfig) (nanos : Z) : Z :=
  let base := Z.max (dc_delay c) 0 in
  let extra := Z.max (dc_delay_extra c) 1 in
  sat_add base (nanos mod extra).

Definition FNV_OFFSET : Z := 0xcbf29ce484222325.
Definition FNV_PRIME : Z := 0x100000001b3.

Definition fnv (bytes : list Z) : Z :=
  fold_left (λ hash byte, wrap64 (Z.lxor hash byte * FNV_PRIME)) bytes FNV_OFFSET.

(** [retry_backoff], in milliseconds. *)
Definition retry_backoff (attempt : Z) (seed : str) : Z :=
  let shift := saturating_sub attempt 1 in
  let base := Z.min (if shift <? 64 then wrap64 (Z.shiftl 1 shift) else U64_MAX) 30 in
  base * 1000 + fnv (seed ++ le_bytes 4 attempt) mod 1000.

(** ** The gate *)

Record Gate : Type := { fg_inflight : Z; bk_inflight : Z }.

Definition BK_FLOOR_INFLIGHT : Z := 1.
Definition STARTUP_FLOOR_INFLIGHT : Z := 8.

Definition try_admit_block_read (running : bool) (floor : Z) (g : Gate) : option Gate :=
  if negb running then None
  else if negb (0 <? fg_inflight g) then Some {| fg_inflight := fg_inflight g; bk_inflight := bk_inflight g + 1 |}
  else if bk_inflight g <? floor then Some {| fg_inflight := fg_inflight g; bk_inflight := bk_inflight g + 1 |}
  else None.

(** ** Runs *)

Class BkEnv : Type := {
  bk_running : nat → bool;
  bk_startup_waiting : nat → bool;
  bk_slot : nat → bool;
  bk_gate : nat → bool;
  bk_elapsed : nat → option nat;   (** the runs that are refilled when the read times out *)
  bk_next : nat → nat;             (** which of the futures is the next to finish *)
  bk_progress : nat → option nat   (** the runs a dropped future has refilled, once it has begun *)
}.

Inductive download_error : Type := DlCache (e : cache_error) | DlSlotsClosed | DlCanceled | DlElapsed.
Inductive ChunksOutcome : Type := ChunksDone | ChunksYield | ChunksFailed (e : download_error).
Inductive RunOutcome : Type := RunDone | WaitPending | YieldStartup.

Definition HEDGE_MAX_ATTEMPTS : Z := 3.

Definition ask {A} (f : nat → A) : cache A := let! t := tick in eret (f t).

Section Runs.
Context {env : CacheEnv} {roaring : Roaring} {crc : Crc32c} {disc : FileDiscard} {bk : BkEnv}.
Context (h : Z) (source : Source) (source_size concurrency : Z).

(** One chunk, with at most three attempts. *)
Fixpoint hedge_loop (fuel : nat) (chunk : Z * Z) (attempt : Z) : cache (result download_error Z) :=
  match fuel with
  | O => eret (Err DlElapsed)
  | S fuel' =>
      let! slot := ask bk_slot in
      if negb slot then eret (Err DlSlotsClosed)
      else
        let! gate := ask bk_gate in
        if negb gate then eret (Err DlCanceled)
        else
          let! elapsed := ask bk_elapsed in
          match elapsed with
          | None =>
              let! r := catch (background_refill_range h source source_size chunk.1 chunk.2) in
              eret (match r with Ok n => Ok n | Err e => Err (DlCache e) end)
          | Some k =>
              let! r := catch (background_refill_dropped h source source_size chunk.1 chunk.2 k) in
              match r with
              | Err e => eret (Err (DlCache e))
              | Ok _ =>
                  if attempt <? HEDGE_MAX_ATTEMPTS then
                    let! running := ask bk_running in
                    if running then hedge_loop fuel' chunk (attempt + 1) else eret (Err DlElapsed)
                  else eret (Err DlElapsed)
              end
          end
  end.

Definition refill_chunk_with_hedge (chunk : Z * Z) : cache (result download_error Z) :=
  hedge_loop (Z.to_nat HEDGE_MAX_ATTEMPTS) chunk 1.

(** The chunks that are started, until enough are in flight; [true] when a
    start-up pack is waiting. *)
Fixpoint launch (pending in_flight : list (Z * Z)) : cache (bool * list (Z * Z) * list (Z * Z)) :=
  let! running := ask bk_running in
  if negb running || negb (zlen in_flight <? concurrency) then eret (false, pending, in_flight)
  else
    let! waiting := ask bk_startup_waiting in
    if waiting then eret (true, pending, in_flight)
    else match pending with
         | [] => eret (false, [], in_flight)
         | c :: pending' => launch pending' (in_flight ++ [c])
         end.

(** The futures in flight are dropped. *)
Fixpoint drop_in_flight (in_flight : list (Z * Z)) : cache unit :=
  match in_flight with
  | [] => eret tt
  | c :: rest =>
      let! progress := ask bk_progress in
      let! _ := match progress with
                | None => eret tt
                | Some k =>
                    let! _ := catch (background_refill_dropped h source source_size c.1 c.2 k) in eret tt
                end in
      drop_in_flight rest
  end.

Definition download_round (next : list (Z * Z) → list (Z * Z) → option download_error → cache ChunksOutcome)
    (pending in_flight : list (Z * Z)) (first_error : option download_error) : cache ChunksOutcome :=
  let! r := (match first_error with None => launch pending in_flight | Some _ => eret (false, pending, in_flight) end) in
  let '(yield, pending, in_flight) := r in
  if yield : bool then let! _ := drop_in_flight in_flight in eret ChunksYield
  else
    match in_flight with
    | [] => eret (match first_error with Some e => ChunksFailed e | None => ChunksDone end)
    | c0 :: _ =>
        let! n := ask bk_next in
        let i := (n mod length in_flight)%nat in
        let! r := refill_chunk_with_hedge (nth i in_flight c0) in
        next pending (delete i in_flight)
          (match first_error, r with Some e, _ => Some e | None, Err e => Some e | None, Ok _ => None end)
    end.

(** Every round but the last finishes a chunk. *)
Fixpoint download_loop (fuel : nat) (pending in_flight : list (Z * Z)) (first_error : option download_error)
  : cache ChunksOutcome :=
  match fuel with
  | O => eret (ChunksFailed DlCanceled)
  | S fuel' => download_round (download_loop fuel') pending in_flight first_error
  end.

Definition download_chunks (chunks : list (Z * Z)) : cache ChunksOutcome :=
  download_loop (S (length chunks)) chunks [] None.
End Runs.

(** What an attempt of [run_task] comes to. *)
Inductive attempt_result : Type :=
| Stopped | OpenFailed | BadRange | AlreadyComplete | Pending | Fetched | Yielded | FetchFailed.

Definition outcome_of (r : attempt_result) : RunOutcome :=
  match r with Pending => WaitPending | Yielded => YieldStartup | _ => RunDone end.

Section Task.
Context {env : CacheEnv} {roaring : Roaring} {crc : Crc32c} {disc : FileDiscard} {bk : BkEnv}.

(** The body of the loop after the file is open. *)
Definition fetch_missing (task : BkTask) (h : Z) : cache attempt_result :=
  let! r := catch (actionable_background_chunks h (bk_source_size task) (bk_blocks_per_chunk task)) in
  match r with
  | Err _ => eret BadRange
  | Ok [] =>
      let! r := catch (background_is_complete h (bk_source_size task)) in
      eret (match r with Ok true => AlreadyComplete | _ => Pending end)
  | Ok chunks =>
      let! outcome := download_chunks h (bk_source task) (bk_source_size task) (dc_concurrency (bk_config task)) chunks in
      let! running := ask bk_running in
      eret (if negb running then Stopped
            else match outcome with ChunksDone => Fetched | ChunksYield => Yielded | ChunksFailed _ => FetchFailed end)
  end.

Fixpoint run_attempts (task : BkTask) (attempts : nat) : cache attempt_result :=
  match attempts with
  | O => eret FetchFailed
  | S attempts' =>
      let! running := ask bk_running in
      if negb running then eret Stopped
      else
        let! r := catch (open_file_with_flags_and_size (bk_cache_key task) (bk_source task) 0 (Some (bk_source_size task))) in
        match r with
        | Err _ => match attempts' with O => eret OpenFailed | S _ => run_attempts task attempts' end
        | Ok h =>
            let! result := fetch_missing task h in
            let! _ := drop_handle h in
            match result with
            | FetchFailed => run_attempts task attempts'
            | _ => eret result
            end
        end
  end.

Definition run_task (task : BkTask) : cache RunOutcome :=
  let! r := run_attempts task (Z.to_nat (dc_try_cnt (bk_config task))) in
  eret (outcome_of r).
End Task.

(** ** Sizes *)

(** One source request of a task has at most the chunk size of the scheduler,
    or one cache block. *)
Lemma chunk_within_budget chunk_size config_block_size bs : 0 ≤ chunk_size → 0 ≤ config_block_size → 0 < bs →
  1 ≤ blocks_per_chunk chunk_size config_block_size bs ∧ blocks_per_chunk chunk_size config_block_size bs * bs ≤ Z.max chunk_size bs.
Proof.
  intros Hc Hb Hbs. unfold blocks_per_chunk. rewrite (Z.max_l bs 1) by lia.
  pose proof (Z.mul_div_le chunk_size bs Hbs). pose proof (Z.div_pos chunk_size bs Hc Hbs).
  set (m := chunk_size / bs) in *. set (k := config_block_size / bs).
  assert (U32_MAX = 4294967295) as HU by done.
  split; [lia|]. destruct (Z.ltb_spec (Z.max m 1) k); destruct (Z.ltb_spec U32_MAX m); destruct (Z.ltb_spec U32_MAX k); nia.
Qed.

(** While foreground reads are in flight a read is admitted only up to the floor. *)
Lemma gate_floor running floor g g' : try_admit_block_read running floor g = Some g' → 0 < fg_inflight g →
  bk_inflight g' ≤ floor ∧ fg_inflight g' = fg_inflight g.
Proof. unfold try_admit_block_read. intros H Hf. repeat case_match; simplify_eq/=; lia. Qed.

(** ** What a run fetches *)

Section Fetch.
Context {env : CacheEnv} {roaring : Roaring} {crc : Crc32c} {disc : FileDiscard} {bk : BkEnv}.

Lemma yields_catch {A} o a X0 (m : cache A) Q : yields o a X0 m Q →
  yields o a X0 (catch m) (λ r X, ∀ x, r = Ok x → Q x X).
Proof.
  intros Hm w X Ho Hi HX. destruct (Hm w X Ho Hi HX) as (Ho1 & X1 & Hi1 & HX1 & HQ). unfold catch.
  destruct (m w) as [w1 r]. split; [done|]. exists X1. split_and!; [done..|]. intros r' [= <-] x ->. by apply HQ.
Qed.

Lemma yields_weaken {A} o a X0 (m : cache A) (Q Q' : A → gset Z → Prop) : yields o a X0 m Q →
  (∀ x X, X0 ⊆ X → Q x X → Q' x X) → yields o a X0 m Q'.
Proof.
  intros Hm HQ w X Ho Hi HX. destruct (Hm w X Ho Hi HX) as (Ho1 & X1 & Hi1 & HX1 & H1). split; [done|]. exists X1.
  split_and!; [done..|]. intros x Hx. apply HQ; [set_solver|auto].
Qed.

Lemma grows_ask {A} a (f : nat → A) : grows a (ask f).
Proof. by apply grows_frame. Qed.

Lemma ask_yields {A} o a X0 (f : nat → A) : yields o a X0 (ask f) (λ x _, ∃ t, x = f t).
Proof. intros w X Ho Hi HX. split; [done|]. exists X. split_and!; [done..|]. intros x [= <-]. by eexists. Qed.

(** The blocks of a chunk are in the bitmap. *)
Definition has_chunk (X : gset Z) (c : Z * Z) : Prop := ∀ b, c.1 ≤ b < c.1 + c.2 → b ∈ X.
Definition valid_chunk (c : Z * Z) : Prop := 0 ≤ c.1 ∧ 0 ≤ c.2.

Lemma has_chunk_mono X X' c : X ⊆ X' → has_chunk X c → has_chunk X' c.
Proof. intros HX Hc b Hb. specialize (Hc b Hb). set_solver. Qed.

Context (o : frame) (a h : Z) (f : CachedFile) (source : Source) (source_size concurrency : Z).
Context (Hhandle : fr_handles o !! h = Some f) (Hentry : fr_entries o !! cf_cache_id f = Some (Active a)).
Context (Hsize : 0 ≤ source_size) (Hbs : 0 < opt_block_size (fr_opts o))
  (Hfit : source_size + opt_block_size (fr_opts o) ≤ 2 ^ 64).

Lemma dropped_yields start len k X0 : 0 ≤ start → 0 ≤ len →
  yields o a X0 (background_refill_dropped h source source_size start len k) (λ _ _, True).
Proof.
  intros Hs Hl. apply (acquire_range_yields o a h f); [done..|]. intros rs X1 _ _ Hgood _.
  eapply yields_bind; [apply yields_catch, refill_runs_all; [done..|by apply Forall_take]|]. intros r X2 _ _.
  apply grows_yields; [apply grows_drop_guards|]. intros _ X3 _. destruct r; [by apply yields_ret|apply yields_err].
Qed.

Lemma hedge_yields fuel c : valid_chunk c → ∀ attempt X0,
  yields o a X0 (hedge_loop h source source_size fuel c attempt) (λ r X, ∀ n, r = Ok n → has_chunk X c).
Proof.
  intros [Hs Hl]. induction fuel as [|fuel IH]; intros attempt X0; cbn [hedge_loop]; [by apply yields_ret|].
  apply grows_yields; [apply grows_ask|]. intros slot X1 _. destruct slot; [|by apply yields_ret]. cbn [negb].
  apply grows_yields; [apply grows_ask|]. intros gate X2 _. destruct gate; [|by apply yields_ret]. cbn [negb].
  apply grows_yields; [apply grows_ask|]. intros [k|] X3 _.
  - eapply yields_bind; [by apply yields_catch, dropped_yields|]. intros [n|e] X4 _ _; [|by apply yields_ret].
    destruct (attempt <? HEDGE_MAX_ATTEMPTS); [|by apply yields_ret].
    apply grows_yields; [apply grows_ask|]. intros running X5 _. destruct running; [apply IH|by apply yields_ret].
  - eapply yields_bind; [apply yields_catch, (refill_range_yields o a h f); done|]. intros r X4 _ Hr.
    apply yields_ret. intros X HX n Hn. destruct r as [m|e]; [|done]. eapply has_chunk_mono; [exact HX|]. intros b Hb. by eapply Hr.
Qed.

(** Every chunk is pending or in flight; when the scheduler runs, nothing is
    pending once nothing is in flight. *)
Lemma launch_yields : (∀ t, bk_running t = true) → 0 < concurrency → ∀ pending in_flight X0,
  yields o a X0 (launch concurrency pending in_flight) (λ r _, r.2 ++ r.1.2 = in_flight ++ pending
    ∧ (r.1.1 = false → r.2 = [] → r.1.2 = [])).
Proof.
  intros Hrun Hc. induction pending as [|c pending IH]; intros in_flight X0; cbn [launch];
    (eapply yields_bind; [apply ask_yields|]; intros running X1 _ [t ->]; rewrite Hrun; cbn [negb orb]).
  - destruct (negb _); [by apply yields_ret|]. apply grows_yields; [apply grows_ask|]. intros [] X2 _; by apply yields_ret.
  - destruct (Z.ltb_spec (zlen in_flight) concurrency) as [Hlt|Hge]; cbn [negb].
    + apply grows_yields; [apply grows_ask|]. intros [] X2 _; [by apply yields_ret|].
      eapply yields_weaken; [apply IH|]. cbn beta. by rewrite <- app_assoc.
    + apply yields_ret. intros X _. split; [done|]. cbn. intros _ ->. rewrite zlen_nil in Hge. lia.
Qed.

Lemma drop_in_flight_grows l : Forall valid_chunk l → ∀ X0, yields o a X0 (drop_in_flight h source source_size l) (λ _ _, True).
Proof.
  induction 1 as [|c l [Hs Hl] _ IH]; intros X0; cbn [drop_in_flight]; [by apply yields_ret|].
  apply grows_yields; [apply grows_ask|]. intros progress X1 _.
  eapply yields_bind; [|intros _ X2 _ _; apply IH]. destruct progress as [k|]; [|by apply (yields_ret _ _ _ _ (λ _ _, True))].
  eapply yields_bind; [by apply yields_catch, dropped_yields|]. intros. by apply yields_ret.
Qed.

(** A pass that is done has fetched every chunk. *)
Lemma loop_yields : (∀ t, bk_running t = true) → 0 < concurrency → ∀ fuel pending in_flight first_error X0,
  Forall valid_chunk (in_flight ++ pending) →
  yields o a X0 (download_loop h source source_size concurrency fuel pending in_flight first_error)
    (λ r X, r = ChunksDone → first_error = None ∧ Forall (has_chunk X) (in_flight ++ pending)).
Proof.
  intros Hrun Hc. induction fuel as [|fuel IH]; intros pending in_flight first_error X0 Hv; cbn [download_loop]; [by apply yields_ret|]. unfold download_round.
  eapply (yields_bind _ _ _ _ _ (λ r _, r.2 ++ r.1.2 = in_flight ++ pending
    ∧ (first_error = None → r.1.1 = false → r.2 = [] → r.1.2 = []))).
  { destruct first_error; [by apply yields_ret|]. eapply yields_weaken; [by apply launch_yields|]. naive_solver. }
  intros [[yield pending'] in_flight'] X1 _ [Hsplit Hnone]. cbn [fst snd] in Hsplit, Hnone. rewrite <- Hsplit in *.
  destruct yield.
  { eapply yields_bind; [apply drop_in_flight_grows; by apply Forall_app in Hv as [? _]|]. intros. by apply yields_ret. }
  destruct in_flight' as [|c0 rest] eqn:Ein.
  { apply yields_ret. intros X _ Hdone. destruct first_error; [done|]. split; [done|]. by rewrite (Hnone eq_refl eq_refl eq_refl). }
  rewrite <- Ein in *. assert (length in_flight' ≠ 0%nat) as Hn by (by subst).
  apply grows_yields; [apply grows_ask|]. intros n X2 _. set (i := (n mod length in_flight')%nat).
  assert (i < length in_flight')%nat as Hi by (by apply Nat.mod_upper_bound).
  destruct (lookup_lt_is_Some_2 _ _ Hi) as [c Hlook]. rewrite nth_lookup, Hlook. cbn [default from_option].
  pose proof (delete_Permutation _ _ _ Hlook) as Hp.
  assert (in_flight' ++ pending' ≡ₚ c :: delete i in_flight' ++ pending') as Hp' by exact (Permutation_app_tail pending' Hp).
  rewrite Hp' in Hv. apply Forall_cons in Hv as [Hvc Hv].
  eapply yields_bind; [by apply hedge_yields|]. intros r X3 _ Hr. cbn beta in Hr.
  eapply yields_weaken; [by apply IH|]. cbn beta. intros x X HX HQ Hd. destruct (HQ Hd) as [He Hall].
  destruct first_error as [e|]; [done|]. destruct r as [m|e]; [|done]. split; [done|]. rewrite Hp'.
  apply Forall_cons. split; [|done]. eapply has_chunk_mono; [exact HX|]. by eapply Hr.
Qed.

End Fetch.

Section Fuel.
Context {env : CacheEnv} {roaring : Roaring} {crc : Crc32c} {disc : FileDiscard} {bk : BkEnv}.
Context (h : Z) (source : Source) (source_size concurrency : Z).

Lemma launch_split pending : ∀ in_flight w w' r, launch concurrency pending in_flight w = (w', Ok r) →
  r.2 ++ r.1.2 = in_flight ++ pending.
Proof.
  induction pending as [|c pending IH]; intros in_flight w w' r; cbn [launch]; unfold ask; rewrite !run_assoc, run_tick, run_ret;
    (destruct (_ || _); [by intros [= <- <-]|]); rewrite !run_assoc, run_tick, run_ret; (destruct (bk_startup_waiting _); [by intros [= <- <-]|]).
  - by intros [= <- <-].
  - intros ->%IH. by rewrite <- app_assoc.
Qed.

Lemma ebind_ext {S E A B} (m : eff S E A) (k1 k2 : A → eff S E B) s :
  (∀ a s', m s = (s', Ok a) → k1 a s' = k2 a s') → ebind m k1 s = ebind m k2 s.
Proof. intros Hk. unfold ebind. destruct (m s) as [s' [a|e]]; [by apply Hk|done]. Qed.

Lemma download_round_ext k1 k2 pending in_flight first_error w :
  (∀ p l e w, (length (l ++ p) < length (in_flight ++ pending))%nat → k1 p l e w = k2 p l e w) →
  download_round h source source_size concurrency k1 pending in_flight first_error w
  = download_round h source source_size concurrency k2 pending in_flight first_error w.
Proof.
  intros Hk. unfold download_round. apply ebind_ext. intros [[yield p] l] w' E.
  assert (l ++ p = in_flight ++ pending) as Hs.
  { destruct first_error; [by injection E as _ _ -> ->|by apply launch_split in E]. }
  destruct yield; [done|]. destruct l as [|c0 rest] eqn:El; [done|]. rewrite <- El in *.
  apply ebind_ext. intros n w1 _. set (i := (n mod _)%nat).
  assert (i < length l)%nat as Hi by (apply Nat.mod_upper_bound; by subst).
  apply ebind_ext. intros r w2 _. apply Hk. rewrite <- Hs, !length_app.
  pose proof (length_delete l i (lookup_lt_is_Some_2 _ _ Hi)). lia.
Qed.

(** The fuel of a pass is enough: more of it changes nothing. *)
Lemma download_loop_fuel fuel : ∀ fuel' pending in_flight first_error w,
  (length (in_flight ++ pending) < fuel)%nat → (length (in_flight ++ pending) < fuel')%nat →
  download_loop h source source_size concurrency fuel pending in_flight first_error w
  = download_loop h source source_size concurrency fuel' pending in_flight first_error w.
Proof.
  induction fuel as [|fuel IH]; intros fuel' pending in_flight first_error w H1 H2; [lia|]. destruct fuel' as [|fuel']; [lia|].
  cbn [download_loop]. apply download_round_ext. intros p l e w' Hlt. apply IH; lia.
Qed.
End Fuel.

Section Complete.
Context {env : CacheEnv} {roaring : Roaring} {crc : Crc32c} {disc : FileDiscard} {bk : BkEnv}.

(** Every block of the file is in the bitmap of the entry of [id]. *)
Definition complete (id : str) (source_size : Z) (w : World) : Prop :=
  ∃ a e, cache_entries (w_state w) !! id = Some (Active a) ∧ w_heap w !! a = Some e
  ∧ ∀ b, 0 ≤ b → b * opt_block_size (w_opts w) < source_size → b ∈ ce_index e.

Lemma grows_is_complete a h ss : grows a (background_is_complete h ss).
Proof.
  unfold background_is_complete, missing_background_blocks, get_handle, get_cache_entry, get_slot, get_entry.
  eauto 15 with cache_grows.
Qed.

(** A frame and a bitmap that has all blocks. *)
Lemma complete_of o a X id ss w : frame_of w = o → index_of a w = Some X → fr_entries o !! id = Some (Active a) →
  (∀ b, 0 ≤ b → b * opt_block_size (fr_opts o) < ss → b ∈ X) → complete id ss w.
Proof.
  intros <- Hi Ha Hall. unfold index_of in Hi. destruct (w_heap w !! a) as [e|] eqn:He; [|done]. injection Hi as <-. by exists a, e.
Qed.

Lemma fetch_missing_complete task h f w w' r : (∀ t, bk_running t = true) → 0 < dc_concurrency (bk_config task) →
  w_handles w !! h = Some f → 0 ≤ bk_source_size task → 0 < opt_block_size (w_opts w) →
  bk_source_size task + opt_block_size (w_opts w) ≤ 2 ^ 64 →
  fetch_missing task h w = (w', Ok r) → r = Fetched ∨ r = AlreadyComplete → complete (cf_cache_id f) (bk_source_size task) w'.
Proof.
  intros Hrun Hc Hf Hss Hbs Hfit. unfold fetch_missing. rewrite run_catch.
  destruct (actionable_background_chunks h (bk_source_size task) (bk_blocks_per_chunk task) w) as [w1 [cs|e]] eqn:E;
    [|intros [= <- <-]; by intros [?|?]].
  destruct (actionable_chunks_spec w h f _ _ cs w1 Hf Hss Hbs E) as (-> & a & e & Ha & He & Hw & _ & Hall).
  set (o := frame_of w). assert (index_of a w = Some (ce_index e)) as Hi by (unfold index_of; by rewrite He).
  destruct cs as [|c cs]; cbn [fst snd]; intros Hr Hres.
  - destruct (grows_bind a (catch (background_is_complete h (bk_source_size task))) _ (grows_catch _ _ (grows_is_complete a _ _))
      (λ r, grows_ret a (match r with Ok true => AlreadyComplete | _ => Pending end)) o ∅ w (ce_index e) eq_refl Hi ltac:(set_solver))
      as (Ho' & X' & Hi' & HX' & _). rewrite Hr in Ho', Hi'. eapply (complete_of o); [done..|]. intros b Hb Hlt.
    destruct (decide (b ∈ ce_index e)); [set_solver|]. destruct (Hall b Hb Hlt ltac:(done)) as (c & Hin & _). by apply not_elem_of_nil in Hin.
  - assert (Forall valid_chunk (c :: cs)) as Hv.
    { eapply Forall_impl; [exact Hw|]. intros c' (H1 & H2 & _). split; lia. }
    assert (yields o a ∅ (let! outcome := download_chunks h (bk_source task) (bk_source_size task) (dc_concurrency (bk_config task)) (c :: cs) in
      let! running := ask bk_running in
      eret (if negb running then Stopped
            else match outcome with ChunksDone => Fetched | ChunksYield => Yielded | ChunksFailed _ => FetchFailed end))
      (λ r X, r = Fetched ∨ r = AlreadyComplete → Forall (has_chunk X) (c :: cs))) as Hy.
    { eapply yields_bind; [apply (loop_yields o a h f); done|]. intros out X1 _ Hout. apply grows_yields; [apply grows_ask|].
      intros running X2 HX2. apply yields_ret. intros X HX Hcase. destruct running; [|by destruct Hcase]. cbn [negb] in Hcase.
      destruct out; try by destruct Hcase. eapply Forall_impl; [exact (proj2 (Hout eq_refl))|]. intros c' Hc'. eapply has_chunk_mono; [|exact Hc']. set_solver. }
    destruct (Hy w (ce_index e) eq_refl Hi ltac:(set_solver)) as (Ho' & X' & Hi' & HX' & HQ). rewrite Hr in Ho', Hi', HQ.
    specialize (HQ r eq_refl Hres). eapply (complete_of o); [done..|]. intros b Hb Hlt.
    destruct (decide (b ∈ ce_index e)); [set_solver|]. destruct (Hall b Hb Hlt ltac:(done)) as (c' & Hin & Hin').
    rewrite Forall_forall in HQ. by apply (HQ c' Hin).
Qed.

(** A file that is open has the cache id of its key. *)
Lemma open_handle key source flags known w w' h : open_file_with_flags_and_size key source flags known w = (w', Ok h) →
  ∃ f, w_handles w' !! h = Some f ∧ cf_cache_id f = cache_key_digest key.
Proof.
  unfold open_file_with_flags_and_size. destruct (is_nil key); [done|].
  intros (w1 & c & _ & H)%ebind_inv. apply ebind_inv in H as (w2 & act & _ & H). apply ebind_inv in H as (w3 & n & _ & H).
  apply ebind_inv in H as (w4 & a & _ & H). apply ebind_inv in H as (w5 & u & _ & H). injection H as <- <-.
  eexists. split; [apply lookup_insert_eq|done].
Qed.

(** Closing a file keeps what is cached. *)
Lemma drop_handle_complete h id ss w w' : drop_handle h w = (w', Ok tt) → complete id ss w → complete id ss w'.
Proof.
  intros H (a & e & Ha & He & Hall). unfold drop_handle, get_handle, ebind at 1 in H.
  destruct (w_handles w !! h) as [f|]; [|done]. rewrite run_modify in H. set (w1 := set_handles _ _) in H.
  assert (grows a (remove_open_file (cf_cache_id f))) as Hg.
  { unfold remove_open_file, get_cache_entry, get_slot, add_open_count, touch, now_unix_nanos. eauto 15 with cache_grows. }
  destruct (Hg (frame_of w1) ∅ w1 (ce_index e)) as (Ho & X & Hi & HX & _); [done|unfold index_of; cbn; by rewrite He|set_solver|].
  rewrite H in Ho, Hi. eapply (complete_of (frame_of w1)); [done..|]. intros b Hb Hlt. specialize (Hall b Hb Hlt). set_solver.
Qed.
End Complete.

(** ** The options of the pool stay *)

Definition keeps {A} (m : cache A) : Prop := ∀ w, w_opts (m w).1 = w_opts w.

Lemma keeps_bind {A B} (m : cache A) (k : A → cache B) : keeps m → (∀ x, keeps (k x)) → keeps (ebind m k).
Proof. intros Hm Hk w. specialize (Hm w). unfold ebind. destruct (m w) as [w1 [x|e]]; [|done]. by rewrite (Hk x w1). Qed.

Lemma keeps_catch {A} (m : cache A) : keeps m → keeps (catch m).
Proof. intros Hm w. specialize (Hm w). unfold catch. by destruct (m w). Qed.

Create HintDb cache_keeps.
#[export] Hint Resolve keeps_catch : cache_keeps.
#[export] Hint Extern 1 (keeps (ebind _ _)) => apply keeps_bind; [|intros] : cache_keeps.
#[export] Hint Extern 2 (keeps _) => intros ?; reflexivity : cache_keeps.
#[export] Hint Extern 3 (keeps (if ?c then _ else _)) => destruct c : cache_keeps.
#[export] Hint Extern 3 (keeps (match ?x with _ => _ end)) => destruct x : cache_keeps.

Section Keeps.
Context {env : CacheEnv} {roaring : Roaring} {crc : Crc32c} {disc : FileDiscard} {bk : BkEnv}.

Lemma keeps_create id key ss : keeps (create id key ss).
Proof. unfold create, create_dir_all, open_data_file, account_mapping, alloc_entry, sys_try, sys, now_unix_nanos. eauto 30 with cache_keeps. Qed.

Lemma keeps_open key source flags known : keeps (open_file_with_flags_and_size key source flags known).
Proof.
  unfold open_file_with_flags_and_size, cached_size_by_store_key, contains_active_entry, get_cache_entry, ensure_open_cache_entry, get_slot,
    set_source_size, lift_source, touch, now_unix_nanos, new_handle. pose proof keeps_create. eauto 30 with cache_keeps.
Qed.

Lemma keeps_guards a l : keeps (drop_guards a l).
Proof. induction l; cbn [drop_guards]; unfold drop_refill_guard, add_active_refills, finish_refill; eauto 10 with cache_keeps. Qed.

Lemma keeps_publish a ss bs first scratch run : ∀ n, keeps (publish_run a ss bs first scratch run n).
Proof.
  induction run as [|b run IH]; intros n; cbn [publish_run]; [eauto with cache_keeps|].
  pose proof (keeps_guards a (b :: run)). unfold drop_refill_guard, add_active_refills, finish_refill, mmap_mut_for_block,
    get_entry, get_file, write_file, mark_block_cached, record_refill, touch, now_unix_nanos in *. eauto 40 with cache_keeps.
Qed.

Lemma keeps_run a source ss run : keeps (refill_block_run a source ss run).
Proof.
  pose proof (keeps_guards a run). unfold refill_block_run, ensure_range_allocated, add_current_bytes, capture_disk_pressure,
    publish_pressure_locked. pose proof (λ bs f s n, keeps_publish a ss bs f s run n). eauto 40 with cache_keeps.
Qed.

Lemma keeps_runs a source ss runs : ∀ n, keeps (refill_runs a source ss runs n).
Proof.
  induction runs as [|run runs IH]; intros n; cbn [refill_runs]; [eauto with cache_keeps|].
  pose proof (keeps_run a source ss run). pose proof (keeps_guards a (mjoin runs)). eauto 10 with cache_keeps.
Qed.

Lemma keeps_acquire a blocks : ∀ runs, keeps (acquire_runs a blocks runs).
Proof. induction blocks; intros runs; cbn [acquire_runs]; unfold acquire_refill, get_entry, add_active_refills; eauto 20 with cache_keeps. Qed.

Lemma keeps_range {A} h ss start len (k : Z → list (list Z) → cache A) : (∀ a runs, keeps (k a runs)) → keeps (acquire_range h ss start len k).
Proof.
  intros Hk. pose proof keeps_acquire. unfold acquire_range, get_handle, get_cache_entry, get_slot. eauto 20 with cache_keeps.
Qed.

Lemma keeps_refill h source ss start len : keeps (background_refill_range h source ss start len).
Proof. apply keeps_range. intros. apply keeps_runs. Qed.

Lemma keeps_dropped h source ss start len k : keeps (background_refill_dropped h source ss start len k).
Proof. apply keeps_range. intros a runs. pose proof keeps_runs. pose proof (keeps_guards a). eauto 10 with cache_keeps. Qed.
#[local] Hint Resolve keeps_refill keeps_dropped : cache_keeps.

Lemma keeps_hedge h source ss c fuel : ∀ attempt, keeps (hedge_loop h source ss fuel c attempt).
Proof. induction fuel; intros attempt; cbn [hedge_loop]; unfold ask; eauto 20 with cache_keeps. Qed.

Lemma keeps_launch n pending : ∀ in_flight, keeps (launch n pending in_flight).
Proof. induction pending; intros in_flight; cbn [launch]; unfold ask; eauto 20 with cache_keeps. Qed.

Lemma keeps_drop_in_flight h source ss l : keeps (drop_in_flight h source ss l).
Proof. induction l; cbn [drop_in_flight]; unfold ask; eauto 20 with cache_keeps. Qed.

Lemma keeps_loop h source ss n fuel : ∀ pending in_flight e, keeps (download_loop h source ss n fuel pending in_flight e).
Proof.
  pose proof (keeps_launch n). pose proof (keeps_drop_in_flight h source ss).
  pose proof (λ c, keeps_hedge h source ss c (Z.to_nat HEDGE_MAX_ATTEMPTS) 1).
  induction fuel; intros pending in_flight e; cbn [download_loop]; [eauto with cache_keeps|].
  unfold download_round, refill_chunk_with_hedge, ask. eauto 20 with cache_keeps.
Qed.

Lemma keeps_fetch task h : keeps (fetch_missing task h).
Proof.
  unfold fetch_missing, download_chunks, actionable_background_chunks, background_is_complete, missing_background_blocks,
    get_handle, get_cache_entry, get_slot, ask. pose proof keeps_loop. eauto 40 with cache_keeps.
Qed.

Lemma keeps_drop_handle h : keeps (drop_handle h).
Proof.
  unfold drop_handle, get_handle, remove_open_file, get_cache_entry, get_slot, add_open_count, touch, now_unix_nanos. eauto 20 with cache_keeps.
Qed.

(** C8: When a run of a background download ends because every chunk was
    fetched, or because nothing was missing, every block of the file is in the
    cache; this holds whichever attempt it was, in whatever order the chunks
    were finished, and whatever timed out, failed or was dropped before.  The run
    is that of the only task that changes the cache: nothing is evicted between
    its chunks. *)
Theorem download_completes task attempts : ∀ w w' r, (∀ t, bk_running t = true) → 0 < dc_concurrency (bk_config task) →
  0 ≤ bk_source_size task → 0 < opt_block_size (w_opts w) → bk_source_size task + opt_block_size (w_opts w) ≤ 2 ^ 64 →
  run_attempts task attempts w = (w', Ok r) → r = Fetched ∨ r = AlreadyComplete →
  complete (cache_key_digest (bk_cache_key task)) (bk_source_size task) w'.
Proof.
  induction attempts as [|n IH]; intros w w' r Hrun Hc Hss Hbs Hfit; cbn [run_attempts]; [intros [= <- <-]; by intros [?|?]|].
  unfold ask. rewrite !run_assoc, run_tick, run_ret, Hrun. cbn [negb]. set (w1 := bump_tick w).
  assert (w_opts w1 = w_opts w) as H1 by done. rewrite <- H1 in Hbs, Hfit. clearbody w1. rewrite run_catch.
  pose proof (keeps_open (bk_cache_key task) (bk_source task) 0 (Some (bk_source_size task)) w1) as Hk.
  destruct (open_file_with_flags_and_size _ _ _ _ w1) as [w2 [h|e]] eqn:Eo; cbn [fst snd] in *; rewrite <- Hk in Hbs, Hfit.
  - destruct (open_handle _ _ _ _ _ _ _ Eo) as (f & Hf & Hid). intros (w3 & res & Ef & H)%ebind_inv Hres.
    pose proof (keeps_fetch task h w2) as Hk2. rewrite Ef in Hk2. cbn in Hk2. apply ebind_inv in H as (w4 & [] & Ed & H).
    pose proof (keeps_drop_handle h w3) as Hk3. rewrite Ed in Hk3. cbn in Hk3.
    assert (res = Fetched ∨ res = AlreadyComplete → complete (cache_key_digest (bk_cache_key task)) (bk_source_size task) w4) as Hdone.
    { intros Hr. eapply drop_handle_complete; [exact Ed|]. rewrite <- Hid. by eapply fetch_missing_complete. }
    destruct res; try (injection H as <- <-; by apply Hdone). eapply IH; [..|exact H|exact Hres]; try done; congruence.
  - intros H Hres. destruct n as [|n]; [injection H as <- <-; by destruct Hres|]. by eapply IH.
Qed.
End Keeps.

(** ** A run *)

#[local] Existing Instances sunny plain_roaring crc32c_table_free punch_hole.

(** The first read of a chunk times out. *)
#[local] Instance steady : BkEnv := {|
  bk_running _ := true; bk_startup_waiting _ := false; bk_slot _ := true; bk_gate _ := true;
  bk_elapsed t := if (t <? 14)%nat then Some O else None; bk_next t := t; bk_progress _ := None |}.

Definition five_task : BkTask := {|
  bk_cache_key := [97]; bk_source := five_source; bk_source_size := 5;
  bk_config := normalized {| dc_try_cnt := 2; dc_block_size := 16777216; dc_concurrency := 0; dc_delay := 0; dc_delay_extra := 0 |};
  bk_blocks_per_chunk := blocks_per_chunk 16777216 16777216 4096 |}.

Lemma five_run : (run_attempts five_task 2 cold.1).2 = Ok Fetched.
Proof. vm_compute. reflexivity. Qed.

Lemma five_sizes : 0 < opt_block_size (w_opts cold.1) ∧ 5 + opt_block_size (w_opts cold.1) ≤ 2 ^ 64.
Proof. by vm_compute. Qed.

Lemma download_completes_witness :
  complete (cache_key_digest (bk_cache_key five_task)) (bk_source_size five_task) (run_attempts five_task 2 cold.1).1.
Proof.
  refine (download_completes five_task 2 cold.1 (run_attempts five_task 2 cold.1).1 Fetched (λ _, eq_refl) _ _
    (proj1 five_sizes) (proj2 five_sizes) _ (or_introl eq_refl)).
  - cbn. lia.
  - cbn. lia.
  - rewrite <- five_run. apply surjective_pairing.
Defined.
