(* ===== verification/StartupManifest.v ===== *)
(** * Start-up traces and manifests

    [storage/overlaybd/src/startup_pack.rs] and
    [storage/overlaybd/src/startup_manifest.rs].  A trace is the list of the
    memory pages that a machine touched while it started, in that order; a
    manifest has them merged into ranges, the range of the first page first.
    Both have a binary format, which is exact: what is decoded is what was
    encoded, and no other bytes decode to it. *)

From S2P Require Import Prelude.

Open Scope result_scope.

(** ** Traces *)

Definition PACK_PAGE_BYTES : Z := 4096.

Definition TRACE_MAGIC : list Z := [65; 69; 78; 86; 84; 82; 67; 49].
Definition TRACE_FORMAT_VERSION : Z := 1.
Definition TRACE_HEADER_BYTES : Z := 32.
Definition MAX_TRACE_PAGES : Z := 2 ^ 20.

Inductive startup_error : Type :=
| ListEmpty | TooMany | NotAligned | OffsetOverflow | OutOfImage | TooShort | MagicMismatch | VersionUnsupported
| HeaderSize | ReservedNonZero | CountRange | LengthMismatch | RangesOverlap | RangeLength | RangeOverflow.

Definition validate_trace_offset (mem_virtual_size offset : Z) : result startup_error unit :=
  let? _ := ensure (is_multiple_of offset PACK_PAGE_BYTES) NotAligned in
  match checked_add64 offset PACK_PAGE_BYTES with
  | None => Err OffsetOverflow
  | Some end_ => ensure (end_ <=? mem_virtual_size) OutOfImage
  end.

Fixpoint encode_offsets (mem_virtual_size : Z) (page_offsets : list Z) : result startup_error (list Z) :=
  match page_offsets with
  | [] => Ok []
  | offset :: rest =>
      let? _ := validate_trace_offset mem_virtual_size offset in
      let? out := encode_offsets mem_virtual_size rest in
      Ok (le_bytes 8 offset ++ out)
  end.

Definition encode_trace (mem_virtual_size : Z) (page_offsets : list Z) : result startup_error (list Z) :=
  let? _ := ensure (negb (is_nil page_offsets)) ListEmpty in
  let? _ := ensure (zlen page_offsets <=? MAX_TRACE_PAGES) TooMany in
  let? offsets := encode_offsets mem_virtual_size page_offsets in
  Ok (TRACE_MAGIC ++ le_bytes 4 TRACE_FORMAT_VERSION ++ le_bytes 4 TRACE_HEADER_BYTES ++ le_bytes 8 mem_virtual_size
      ++ le_bytes 4 (zlen page_offsets) ++ le_bytes 4 0 ++ offsets).

(** The loop that reads [n] offsets, each of which is validated. *)
Fixpoint read_offsets (validate : Z → result startup_error unit) (n : nat) (bytes : list Z) : result startup_error (list Z) :=
  match n with
  | O => Ok []
  | S n' =>
      let offset := le_val (ztake 8 bytes) in
      let? _ := validate offset in
      let? rest := read_offsets validate n' (zdrop 8 bytes) in
      Ok (offset :: rest)
  end.

Definition decode_trace (bytes : list Z) : result startup_error (Z * list Z) :=
  let? _ := ensure (TRACE_HEADER_BYTES <=? zlen bytes) TooShort in
  let? _ := ensure (bool_decide (slice 0 8 bytes = TRACE_MAGIC)) MagicMismatch in
  let? _ := ensure (le_val (slice 8 4 bytes) =? TRACE_FORMAT_VERSION) VersionUnsupported in
  let? _ := ensure (le_val (slice 12 4 bytes) =? TRACE_HEADER_BYTES) HeaderSize in
  let mem_virtual_size := le_val (slice 16 8 bytes) in
  let page_count := le_val (slice 24 4 bytes) in
  let? _ := ensure (forallb (Z.eqb 0) (slice 28 4 bytes)) ReservedNonZero in
  let? _ := ensure ((0 <? page_count) && (page_count <=? MAX_TRACE_PAGES)) CountRange in
  let? _ := ensure (zlen bytes =? TRACE_HEADER_BYTES + page_count * 8) LengthMismatch in
  let body := zdrop TRACE_HEADER_BYTES bytes in
  let? offsets := read_offsets (validate_trace_offset mem_virtual_size) (Z.to_nat (zlen body / 8)) body in
  Ok (mem_virtual_size, offsets).

(** ** Manifests *)

Definition MANIFEST_MAGIC : list Z := [65; 69; 78; 86; 77; 70; 48; 49].
Definition MANIFEST_FORMAT_VERSION : Z := 4.
Definition MANIFEST_HEADER_BYTES : Z := 32.
Definition MAX_PREFIX_PAGES : Z := 2 ^ 20.
Definition MAX_RANGES : Z := 2 ^ 20.
Definition PAGE_BYTES : Z := PACK_PAGE_BYTES.

Record StartupManifest : Type := {
  sm_mem_virtual_size : Z;
  sm_prefix_pages : list Z;
  sm_ranges : list (Z * Z)
}.

Definition validate_page_offset (mem_virtual_size offset : Z) : result startup_error unit :=
  let? _ := ensure (is_multiple_of offset PAGE_BYTES) NotAligned in
  match checked_add64 offset PAGE_BYTES with
  | None => Err OffsetOverflow
  | Some end_ => ensure (end_ <=? mem_virtual_size) OutOfImage
  end.

(** The order of pairs of [u64]. *)
Definition pair_le (a b : Z * Z) : Prop := a.1 < b.1 ∨ (a.1 = b.1 ∧ a.2 ≤ b.2).
#[export] Instance pair_le_dec : RelDecision pair_le := λ a b, ltac:(unfold pair_le; apply _).

Fixpoint validate_sorted (mem_virtual_size last_end : Z) (sorted : list (Z * Z)) : result startup_error unit :=
  match sorted with
  | [] => Ok tt
  | (start, len) :: rest =>
      let? _ := ensure (last_end <=? start) RangesOverlap in
      let? _ := ensure ((0 <? len) && is_multiple_of len PAGE_BYTES) RangeLength in
      let? _ := validate_page_offset mem_virtual_size start in
      match checked_add64 start len with
      | None => Err RangeOverflow
      | Some end_ =>
          let? _ := ensure (end_ <=? mem_virtual_size) OutOfImage in
          validate_sorted mem_virtual_size end_ rest
      end
  end.

Definition validate_ranges (mem_virtual_size : Z) (ranges : list (Z * Z)) : result startup_error unit :=
  validate_sorted mem_virtual_size 0 (merge_sort pair_le ranges).

Fixpoint validate_pages (mem_virtual_size : Z) (page_offsets : list Z) : result startup_error unit :=
  match page_offsets with
  | [] => Ok tt
  | offset :: rest => let? _ := validate_page_offset mem_virtual_size offset in validate_pages mem_virtual_size rest
  end.

(** A page is added to the last range when it follows it. *)
Definition merge_page (merged : list (Z * Z * Z)) (item : Z * Z) : list (Z * Z * Z) :=
  let '(offset, rank) := item in
  match rev merged with
  | (start, len, r) :: before =>
      if start + len =? offset then rev before ++ [(start, len + PAGE_BYTES, Z.min r rank)]
      else merged ++ [(offset, PAGE_BYTES, rank)]
  | [] => [(offset, PAGE_BYTES, rank)]
  end.

Definition by_offset (a b : Z * Z) : Prop := a.1 ≤ b.1.
#[export] Instance by_offset_dec : RelDecision by_offset := λ a b, ltac:(unfold by_offset; apply _).
Definition by_rank {A} (a b : A * Z) : Prop := a.2 ≤ b.2.
#[export] Instance by_rank_dec {A} : RelDecision (@by_rank A) := λ a b, ltac:(unfold by_rank; apply _).

Definition ranked {A} (l : list A) : list (A * Z) := imap (λ rank x, (x, Z.of_nat rank)) l.

Definition build_manifest (mem_virtual_size : Z) (page_offsets : list Z) : result startup_error StartupManifest :=
  let? _ := ensure (negb (is_nil page_offsets)) ListEmpty in
  let? _ := validate_pages mem_virtual_size page_offsets in
  let merged := fold_left merge_page (merge_sort by_offset (ranked page_offsets)) [] in
  Ok {| sm_mem_virtual_size := mem_virtual_size; sm_prefix_pages := []; sm_ranges := (merge_sort by_rank merged).*1 |}.

Definition encode_manifest (manifest : StartupManifest) : result startup_error (list Z) :=
  let? _ := ensure (zlen (sm_prefix_pages manifest) <=? MAX_PREFIX_PAGES) TooMany in
  let? _ := ensure (zlen (sm_ranges manifest) <=? MAX_RANGES) TooMany in
  let? _ := validate_pages (sm_mem_virtual_size manifest) (sm_prefix_pages manifest) in
  let? _ := validate_ranges (sm_mem_virtual_size manifest) (sm_ranges manifest) in
  Ok (MANIFEST_MAGIC ++ le_bytes 4 MANIFEST_FORMAT_VERSION ++ le_bytes 4 MANIFEST_HEADER_BYTES
      ++ le_bytes 8 (sm_mem_virtual_size manifest) ++ le_bytes 4 (zlen (sm_prefix_pages manifest))
      ++ le_bytes 4 (zlen (sm_ranges manifest)) ++ (sm_prefix_pages manifest ≫= le_bytes 8)
      ++ (sm_ranges manifest ≫= λ r, le_bytes 8 r.1 ++ le_bytes 8 r.2)).

Fixpoint read_ranges (n : nat) (bytes : list Z) : list (Z * Z) :=
  match n with
  | O => []
  | S n' => (le_val (slice 0 8 bytes), le_val (slice 8 8 bytes)) :: read_ranges n' (zdrop 16 bytes)
  end.

Definition decode_manifest (bytes : list Z) : result startup_error StartupManifest :=
  let? _ := ensure (MANIFEST_HEADER_BYTES <=? zlen bytes) TooShort in
  let? _ := ensure (bool_decide (slice 0 8 bytes = MANIFEST_MAGIC)) MagicMismatch in
  let? _ := ensure (le_val (slice 8 4 bytes) =? MANIFEST_FORMAT_VERSION) VersionUnsupported in
  let? _ := ensure (le_val (slice 12 4 bytes) =? MANIFEST_HEADER_BYTES) HeaderSize in
  let mem_virtual_size := le_val (slice 16 8 bytes) in
  let prefix_page_count := le_val (slice 24 4 bytes) in
  let range_count := le_val (slice 28 4 bytes) in
  let? _ := ensure ((prefix_page_count <=? MAX_PREFIX_PAGES) && (range_count <=? MAX_RANGES)) CountRange in
  let? _ := ensure (zlen bytes =? MANIFEST_HEADER_BYTES + prefix_page_count * 8 + range_count * 16) LengthMismatch in
  let body := zdrop MANIFEST_HEADER_BYTES bytes in
  let? prefix_pages := read_offsets (validate_page_offset mem_virtual_size) (Z.to_nat prefix_page_count) body in
  let ranges := read_ranges (Z.to_nat range_count) (zdrop (prefix_page_count * 8) body) in
  let? _ := validate_ranges mem_virtual_size ranges in
  Ok {| sm_mem_virtual_size := mem_virtual_size; sm_prefix_pages := prefix_pages; sm_ranges := ranges |}.

(** ** Reading and writing fields *)

Definition u64 (z : Z) : Prop := 0 ≤ z ≤ U64_MAX.

Lemma rbind_inv {E A B} (m : result E A) (k : A → result E B) b : rbind m k = Ok b → ∃ a, m = Ok a ∧ k a = Ok b.
Proof. destruct m as [a|e]; cbn; [by exists a|done]. Qed.

Lemma Ok_inj {E A} (a b : A) : @Ok E A a = Ok b → a = b.
Proof. by intros [=]. Qed.

(** The tests and steps that a result went through. *)
Ltac steps H :=
  repeat match type of H with
  | rbind (ensure ?b ?e) _ = Ok _ =>
      let Hb := fresh "Hok" in destruct b eqn:Hb; [|discriminate H]; cbn [ensure rbind] in H
  | rbind _ _ = Ok _ => let x := fresh "x" in let Hx := fresh "Hx" in apply rbind_inv in H as (x & Hx & H)
  end.

Lemma to_nat_zlen {A} (l : list A) : Z.to_nat (zlen l) = length l.
Proof. unfold zlen. lia. Qed.

Lemma field_bytes n off bytes : Forall is_byte bytes → 0 ≤ off → off + Z.of_nat n ≤ zlen bytes →
  le_bytes n (le_val (slice off (Z.of_nat n) bytes)) = slice off (Z.of_nat n) bytes.
Proof.
  intros Hb Ho Hl. pose proof (zlen_slice off (Z.of_nat n) bytes Ho ltac:(lia) Hl) as Hn. unfold zlen in Hn.
  replace n with (length (slice off (Z.of_nat n) bytes)) at 1 by lia. apply le_bytes_le_val.
  by apply Forall_take, Forall_drop.
Qed.

Lemma field_range n off bytes : Forall is_byte bytes → 0 ≤ off → off + Z.of_nat n ≤ zlen bytes →
  0 ≤ le_val (slice off (Z.of_nat n) bytes) < 2 ^ (8 * Z.of_nat n).
Proof.
  intros Hb Ho Hl. pose proof (le_val_bound (slice off (Z.of_nat n) bytes)) as H. rewrite zlen_slice in H by lia.
  by apply H, Forall_take, Forall_drop.
Qed.

Lemma header_split (bytes : list Z) : 32 ≤ zlen bytes → bytes = slice 0 8 bytes ++ slice 8 4 bytes ++ slice 12 4 bytes
  ++ slice 16 8 bytes ++ slice 24 4 bytes ++ slice 28 4 bytes ++ zdrop 32 bytes.
Proof.
  intros Hl. rewrite !app_assoc. pose proof (λ a b, slice_slice_app bytes 0 a b (Z.le_refl 0)) as Hs.
  etrans; [symmetry; apply (ztake_zdrop 32)|]. f_equal. rewrite <- (zdrop_0 0 bytes) at 1 by done.
  change (ztake 32 (zdrop 0 bytes)) with (slice 0 (8 + 4 + 4 + 8 + 4 + 4) bytes). by rewrite <- !Hs.
Qed.

Lemma ztake_app_past {A} n m (l : list A) : 0 ≤ n → 0 ≤ m → ztake n l ++ ztake m (zdrop n l) = ztake (n + m) l.
Proof. intros. pose proof (slice_slice_app l 0 n m) as H1. unfold slice in H1. rewrite !(zdrop_0 0) in H1 by done. by apply H1. Qed.

Lemma read_offsets_inv v n : ∀ bytes ws, read_offsets v n bytes = Ok ws → Forall is_byte bytes → 8 * Z.of_nat n ≤ zlen bytes →
  length ws = n ∧ ws ≫= le_bytes 8 = ztake (8 * Z.of_nat n) bytes ∧ Forall (λ w, v w = Ok tt ∧ u64 w) ws.
Proof.
  induction n as [|n IH]; intros bytes ws H Hb Hl; cbn [read_offsets] in H; [by injection H as <-|].
  steps H. injection H as <-. destruct x. apply IH in Hx0 as (<- & He & Hf); [|by apply Forall_drop|rewrite zlen_zdrop; lia].
  pose proof (field_bytes 8 0 bytes Hb ltac:(lia) ltac:(lia)) as H8. pose proof (field_range 8 0 bytes Hb ltac:(lia) ltac:(lia)) as Hr.
  unfold slice in H8, Hr. rewrite (zdrop_0 0) in H8, Hr by done. split; [done|]. split.
  - cbn [mbind list_bind]. rewrite He. change (Z.of_nat 8) with 8 in H8. rewrite H8, ztake_app_past by lia. f_equal. cbn [length]. lia.
  - constructor; [|done]. split; [done|]. unfold u64, U64_MAX. change (2 ^ (8 * Z.of_nat 8)) with (2 ^ 64) in Hr. change (Z.of_nat 8) with 8 in Hr. lia.
Qed.

Lemma read_offsets_written v ws rest : Forall (λ w, v w = Ok tt) ws → Forall u64 ws →
  read_offsets v (length ws) ((ws ≫= le_bytes 8) ++ rest) = Ok ws.
Proof.
  induction 1 as [|w ws Hw _ IH]; [done|]. intros [Hu Hus]%Forall_cons. cbn [length read_offsets mbind list_bind].
  rewrite <- app_assoc, ztake_app_here, zdrop_app_here by apply zlen_le_bytes. unfold u64, U64_MAX in Hu.
  rewrite le_val_le_bytes by (cbn; lia). rewrite Hw. cbn [rbind]. by rewrite IH.
Qed.

Lemma read_ranges_inv n : ∀ bytes, Forall is_byte bytes → 16 * Z.of_nat n ≤ zlen bytes →
  length (read_ranges n bytes) = n ∧ (read_ranges n bytes ≫= λ r, le_bytes 8 r.1 ++ le_bytes 8 r.2) = ztake (16 * Z.of_nat n) bytes
  ∧ Forall (λ r, u64 r.1 ∧ u64 r.2) (read_ranges n bytes).
Proof.
  induction n as [|n IH]; intros bytes Hb Hl; [done|]. cbn [read_ranges length mbind list_bind fst snd].
  destruct (IH (zdrop 16 bytes)) as (Hn & He & Hf); [by apply Forall_drop|rewrite zlen_zdrop; lia|].
  pose proof (field_bytes 8 0 bytes Hb ltac:(lia) ltac:(lia)) as H0. pose proof (field_bytes 8 8 bytes Hb ltac:(lia) ltac:(lia)) as H8.
  pose proof (field_range 8 0 bytes Hb ltac:(lia) ltac:(lia)) as R0. pose proof (field_range 8 8 bytes Hb ltac:(lia) ltac:(lia)) as R8.
  change (Z.of_nat 8) with 8 in *. rewrite H0, H8, He, Hn. split; [done|]. split.
  - change 8 with (0 + 8) at 2. rewrite slice_slice_app by lia. unfold slice. rewrite (zdrop_0 0) by done. rewrite ztake_app_past by lia. f_equal. lia.
  - constructor; [|done]. unfold u64, U64_MAX. change (2 ^ (8 * 8)) with (2 ^ 64) in *. cbn [fst snd]. lia.
Qed.

Lemma read_ranges_written rs : Forall (λ r, u64 r.1 ∧ u64 r.2) rs →
  read_ranges (length rs) (rs ≫= λ r, le_bytes 8 r.1 ++ le_bytes 8 r.2) = rs.
Proof.
  induction 1 as [|[a b] rs [Ha Hb] _ IH]; [done|]. cbn [length read_ranges mbind list_bind fst snd] in *.
  unfold u64, U64_MAX in *. rewrite <- app_assoc. f_equal.
  - f_equal; read_field.
  - rewrite app_assoc, zdrop_app_here by (by rewrite zlen_app, !zlen_le_bytes). done.
Qed.

Lemma zlen_words ws : zlen (ws ≫= le_bytes 8) = 8 * zlen ws.
Proof.
  induction ws as [|w ws IH]; [done|]. rewrite bind_cons, zlen_app, IH, zlen_le_bytes, zlen_cons. lia.
Qed.

Lemma zlen_range_words (rs : list (Z * Z)) : zlen (rs ≫= λ r, le_bytes 8 r.1 ++ le_bytes 8 r.2) = 16 * zlen rs.
Proof.
  induction rs as [|r rs IH]; [done|]. rewrite bind_cons, !zlen_app, IH, !zlen_le_bytes, zlen_cons. lia.
Qed.

Lemma validate_pages_all mem l : validate_pages mem l = Ok tt ↔ Forall (λ w, validate_page_offset mem w = Ok tt) l.
Proof.
  induction l as [|w l IH]; [done|]. cbn [validate_pages]. rewrite Forall_cons, <- IH.
  destruct (validate_page_offset mem w) as [[]|]; cbn; naive_solver.
Qed.

Lemma encode_offsets_all mem l out : encode_offsets mem l = Ok out ↔
  Forall (λ w, validate_trace_offset mem w = Ok tt) l ∧ out = l ≫= le_bytes 8.
Proof.
  revert out. induction l as [|w l IH]; intros out; cbn [encode_offsets mbind list_bind]; [split; [by intros [= <-]|by intros [_ ->]]|].
  rewrite Forall_cons. destruct (validate_trace_offset mem w) as [[]|]; cbn [rbind]; [|split; [done|by intros [[??] _]]].
  destruct (encode_offsets mem l) as [o|e]; cbn [rbind].
  - destruct (proj1 (IH o) eq_refl) as [Hf ->]. split; [intros [= <-]; done|]. by intros [_ ->].
  - split; [done|]. intros [[_ Hf] _]. by discriminate (proj2 (IH _) (conj Hf eq_refl)).
Qed.

(** ** The formats are exact *)

Record wf_manifest (m : StartupManifest) : Prop := {
  wf_mem : u64 (sm_mem_virtual_size m);
  wf_prefix : Forall u64 (sm_prefix_pages m);
  wf_ranges : Forall (λ r, u64 r.1 ∧ u64 r.2) (sm_ranges m)
}.

(** Skip the magic and the fields before the one that is read. *)
Ltac read_header :=
  rewrite ?(slice_app_skip _ _ MANIFEST_MAGIC), ?(slice_app_skip _ _ TRACE_MAGIC) by done;
  change (zlen MANIFEST_MAGIC) with 8; change (zlen TRACE_MAGIC) with 8; read_field.

Lemma manifest_written m bytes : wf_manifest m → encode_manifest m = Ok bytes → decode_manifest bytes = Ok m.
Proof.
  intros [Hm Hp Hr] H. unfold encode_manifest in H. steps H. destruct x, x0. apply Ok_inj in H. rewrite Z.leb_le in *.
  unfold MAX_PREFIX_PAGES, MAX_RANGES, MANIFEST_HEADER_BYTES, MANIFEST_FORMAT_VERSION, u64, U64_MAX in *.
  pose proof (zlen_nonneg (sm_prefix_pages m)). pose proof (zlen_nonneg (sm_ranges m)).
  set (pages := sm_prefix_pages m ≫= le_bytes 8) in *. set (ranges := sm_ranges m ≫= _) in *.
  assert (zlen bytes = 32 + zlen (sm_prefix_pages m) * 8 + zlen (sm_ranges m) * 16) as Hl.
  { rewrite <- H. rewrite !zlen_app, !zlen_le_bytes. unfold pages, ranges. rewrite zlen_words, zlen_range_words.
    change (zlen MANIFEST_MAGIC) with 8. lia. }
  assert (le_val (slice 8 4 bytes) = 4) as E1 by (rewrite <- H; read_header).
  assert (le_val (slice 12 4 bytes) = 32) as E2 by (rewrite <- H; read_header).
  assert (le_val (slice 16 8 bytes) = sm_mem_virtual_size m) as E3 by (rewrite <- H; read_header).
  assert (le_val (slice 24 4 bytes) = zlen (sm_prefix_pages m)) as E4 by (rewrite <- H; read_header).
  assert (le_val (slice 28 4 bytes) = zlen (sm_ranges m)) as E5 by (rewrite <- H; read_header).
  assert (zdrop 32 bytes = pages ++ ranges) as Eb.
  { rewrite <- H. rewrite !app_assoc. rewrite <- (app_assoc _ pages). apply zdrop_app_here. by rewrite !zlen_app, !zlen_le_bytes. }
  unfold decode_manifest, MANIFEST_HEADER_BYTES, MANIFEST_FORMAT_VERSION, MAX_PREFIX_PAGES, MAX_RANGES. rewrite Hl, E1, E2, E3, E4, E5, Eb.
  rewrite bool_decide_true by (rewrite <- H; by apply slice_app_here). rewrite !Z.eqb_refl.
  rewrite (proj2 (Z.leb_le 32 _)), !(proj2 (Z.leb_le _ (2 ^ 20))) by lia. cbn [ensure rbind Z.eqb Pos.eqb andb].
  apply validate_pages_all in Hx. rewrite !to_nat_zlen. unfold pages. rewrite read_offsets_written by done. cbn [rbind].
  rewrite zdrop_app_here by (rewrite zlen_words; lia). unfold ranges.
  rewrite read_ranges_written by done. rewrite Hx0. by destruct m.
Qed.

Lemma manifest_read m bytes : Forall is_byte bytes → decode_manifest bytes = Ok m → wf_manifest m ∧ encode_manifest m = Ok bytes.
Proof.
  intros Hb H. unfold decode_manifest in H. cbv zeta in H. steps H. destruct x0. injection H as <-.
  apply andb_true_iff in Hok3 as [Hc1 Hc2]. rewrite Z.leb_le, ?Z.eqb_eq, bool_decide_eq_true in *.
  unfold MANIFEST_HEADER_BYTES in *.
  pose proof (field_range 4 24 bytes Hb ltac:(lia) ltac:(lia)) as Rp. pose proof (field_range 4 28 bytes Hb ltac:(lia) ltac:(lia)) as Rr.
  pose proof (field_range 8 16 bytes Hb ltac:(lia) ltac:(lia)) as Rm.
  change (Z.of_nat 4) with 4 in *. change (Z.of_nat 8) with 8 in *.
  set (np := le_val (slice 24 4 bytes)) in *. set (nr := le_val (slice 28 4 bytes)) in *. set (mem := le_val (slice 16 8 bytes)) in *.
  apply read_offsets_inv in Hx as (Hn & He & Hf); [|by apply Forall_drop|rewrite zlen_zdrop; lia].
  destruct (read_ranges_inv (Z.to_nat nr) (zdrop (np * 8) (zdrop 32 bytes))) as (Hn' & He' & Hf');
    [by do 2 apply Forall_drop|rewrite !zlen_zdrop; lia|].
  rewrite Forall_and in Hf. destruct Hf as [Hv Hu]. split.
  { split; cbn; [|done|done]. unfold u64, U64_MAX. change (2 ^ (8 * 8)) with (2 ^ 64) in Rm. lia. }
  unfold encode_manifest. cbn [sm_mem_virtual_size sm_prefix_pages sm_ranges]. unfold zlen. rewrite Hn, Hn', !Z2Nat.id by lia.
  rewrite (proj2 (Z.leb_le _ _) Hc1), (proj2 (Z.leb_le _ _) Hc2). cbn [ensure rbind].
  rewrite (proj2 (validate_pages_all _ _) Hv), Hx0. cbn [rbind]. f_equal.
  etrans; [|symmetry; apply header_split; lia]. rewrite He, He'. rewrite <- Hok0. unfold MANIFEST_HEADER_BYTES.
  rewrite <- Hok1 at 1. rewrite <- Hok2 at 1. unfold np, nr, mem.
  pose proof (λ off, field_bytes 4 off bytes Hb) as F4. pose proof (field_bytes 8 16 bytes Hb) as F8.
  change (Z.of_nat 4) with 4 in F4. change (Z.of_nat 8) with 8 in F8. rewrite (F4 8), (F4 12), F8, (F4 24), (F4 28) by lia.
  do 6 f_equal. fold np nr. rewrite Z2Nat.id, (Z.mul_comm 8) by lia. rewrite Z2Nat.id by lia.
  rewrite (ztake_all (16 * nr)) by (rewrite !zlen_zdrop; lia). apply ztake_zdrop.
Qed.

Lemma trace_written mem pages bytes : u64 mem → Forall u64 pages → encode_trace mem pages = Ok bytes → decode_trace bytes = Ok (mem, pages).
Proof.
  intros Hm Hp H. unfold encode_trace in H. steps H. apply Ok_inj in H. apply encode_offsets_all in Hx as [Hv ->]. rewrite Z.leb_le in *.
  assert (0 < zlen pages) as H0 by (destruct pages; [done|rewrite zlen_cons; pose proof (zlen_nonneg pages); lia]).
  unfold MAX_TRACE_PAGES, TRACE_HEADER_BYTES, TRACE_FORMAT_VERSION, u64, U64_MAX in *. set (offsets := pages ≫= le_bytes 8) in *.
  assert (zlen bytes = 32 + zlen pages * 8) as Hl.
  { rewrite <- H. rewrite !zlen_app, !zlen_le_bytes. unfold offsets. rewrite zlen_words. change (zlen TRACE_MAGIC) with 8. lia. }
  assert (le_val (slice 8 4 bytes) = 1) as E1 by (rewrite <- H; read_header).
  assert (le_val (slice 12 4 bytes) = 32) as E2 by (rewrite <- H; read_header).
  assert (le_val (slice 16 8 bytes) = mem) as E3 by (rewrite <- H; read_header).
  assert (le_val (slice 24 4 bytes) = zlen pages) as E4 by (rewrite <- H; read_header).
  assert (slice 28 4 bytes = [0; 0; 0; 0]) as E5.
  { rewrite <- H, slice_app_skip by done. change (zlen TRACE_MAGIC) with 8.
    repeat (erewrite field_skip; [|cbv; reflexivity|lia]). by apply slice_app_here. }
  assert (zdrop 32 bytes = offsets) as Eb.
  { rewrite <- H. rewrite !app_assoc. apply zdrop_app_here. by rewrite !zlen_app, !zlen_le_bytes. }
  unfold decode_trace, TRACE_HEADER_BYTES, TRACE_FORMAT_VERSION, MAX_TRACE_PAGES. rewrite Hl, E1, E2, E3, E4, E5, Eb.
  rewrite bool_decide_true by (rewrite <- H; by apply slice_app_here).
  rewrite !Z.eqb_refl, (proj2 (Z.leb_le 32 _)), (proj2 (Z.leb_le _ (2 ^ 20))), (proj2 (Z.ltb_lt 0 _)) by lia. cbn [ensure rbind forallb Z.eqb andb].
  unfold offsets at 1. rewrite zlen_words, Z.mul_comm, Z.div_mul, to_nat_zlen by done. unfold offsets.
  rewrite <- (app_nil_r (pages ≫= le_bytes 8)). by rewrite read_offsets_written.
Qed.

Lemma trace_read mem pages bytes : Forall is_byte bytes → decode_trace bytes = Ok (mem, pages) →
  (u64 mem ∧ Forall u64 pages) ∧ encode_trace mem pages = Ok bytes.
Proof.
  intros Hb H. unfold decode_trace in H. cbv zeta in H. steps H. injection H as <- <-.
  apply andb_true_iff in Hok4 as [Hc1 Hc2]. rewrite Z.leb_le, Z.ltb_lt, ?Z.eqb_eq, bool_decide_eq_true in *.
  unfold TRACE_HEADER_BYTES in *. set (n := le_val (slice 24 4 bytes)) in *. rewrite zlen_zdrop, Hok5 in Hx by lia.
  replace (Z.max 0 (32 + n * 8 - 32)) with (n * 8) in Hx by lia. rewrite Z.div_mul in Hx by done.
  apply read_offsets_inv in Hx as (Hn & He & Hf); [|by apply Forall_drop|rewrite zlen_zdrop; lia].
  rewrite Forall_and in Hf. destruct Hf as [Hv Hu]. pose proof (field_range 8 16 bytes Hb ltac:(lia) ltac:(lia)) as Rm.
  change (2 ^ (8 * Z.of_nat 8)) with (2 ^ 64) in Rm. change (Z.of_nat 8) with 8 in Rm.
  split; [split; [unfold u64, U64_MAX; lia|done]|].
  assert (slice 28 4 bytes = le_bytes 4 0) as Hz.
  { etrans; [symmetry; apply (field_bytes 4 28 bytes Hb); lia|]. f_equal. change (Z.of_nat 4) with 4. revert Hok3. clear.
    induction (slice 28 4 bytes) as [|b l IH]; [done|]. cbn [forallb le_val]. intros [<-%Z.eqb_eq H]%andb_true_iff. by rewrite IH. }
  unfold encode_trace. assert (is_nil x = false) as -> by (destruct x; [cbn in Hn; lia|done]). cbn [negb ensure rbind].
  assert (zlen x = n) as -> by (unfold zlen; lia). rewrite (proj2 (Z.leb_le _ _) Hc2). cbn [ensure rbind].
  rewrite (proj2 (encode_offsets_all _ _ _) (conj Hv eq_refl)). cbn [rbind]. f_equal.
  etrans; [|symmetry; apply header_split; lia]. rewrite He, Hz, <- Hok0. unfold TRACE_HEADER_BYTES. rewrite <- Hok1 at 1. rewrite <- Hok2 at 1. unfold n.
  pose proof (λ off, field_bytes 4 off bytes Hb) as F4. pose proof (field_bytes 8 16 bytes Hb) as F8.
  change (Z.of_nat 4) with 4 in F4. change (Z.of_nat 8) with 8 in F8. rewrite (F4 8), (F4 12), F8, (F4 24) by lia.
  do 6 f_equal. apply ztake_all. rewrite zlen_zdrop, Z2Nat.id; lia.
Qed.

(** ** Merging in the order of first need

    Items with a rank are grouped into runs; a run has the least rank of its
    items, and the runs are sorted by rank. *)

#[export] Instance by_rank_trans {A} : Transitive (@by_rank A).
Proof. intros x y z. unfold by_rank. lia. Qed.
#[export] Instance by_rank_total {A} : Total (@by_rank A).
Proof. intros x y. unfold by_rank. lia. Qed.
#[export] Instance by_offset_trans : Transitive by_offset.
Proof. intros x y z. unfold by_offset. lia. Qed.
#[export] Instance by_offset_total : Total by_offset.
Proof. intros x y. unfold by_offset. lia. Qed.
#[export] Instance pair_le_trans : Transitive pair_le.
Proof. intros x y z. unfold pair_le. lia. Qed.
#[export] Instance pair_le_total : Total pair_le.
Proof. intros x y. unfold pair_le. lia. Qed.

Lemma sorted_strict {A} (f : A → Z) l : StronglySorted (λ x y, f x ≤ f y) l → NoDup (f <$> l) → StronglySorted (λ x y, f x < f y) l.
Proof.
  induction 1 as [|x l _ IH Hx]; [constructor|]. rewrite fmap_cons. intros [Hn Hd]%NoDup_cons. constructor; [by apply IH|].
  rewrite Forall_forall in *. intros y Hy. specialize (Hx y Hy). assert (f x ≠ f y); [|lia].
  intros E. apply Hn. rewrite E. by apply list_elem_of_fmap_2.
Qed.

Lemma elem_of_ranked {A} (l : list A) x r : (x, r) ∈ ranked l ↔ ∃ i, l !! i = Some x ∧ r = Z.of_nat i.
Proof.
  unfold ranked. rewrite list_elem_of_lookup. setoid_rewrite list_lookup_imap_Some.
  split; [intros (i & y & Hy & [= -> ->])|intros (i & Hi & ->)]; eauto.
Qed.

Lemma ranked_fst {A} (l : list A) : (ranked l).*1 = l.
Proof. unfold ranked. apply list_eq. intros i. rewrite list_lookup_fmap, list_lookup_imap. by destruct (l !! i). Qed.

Lemma ranked_NoDup {A} (l : list A) : NoDup (ranked l).*2.
Proof.
  apply NoDup_alt. intros i j r. rewrite !list_lookup_fmap. unfold ranked. rewrite !list_lookup_imap.
  destruct (l !! i), (l !! j); cbn; intros; simplify_eq; lia.
Qed.

Section Merge.
Context {K R : Type} (keys : R → list K).

Record run_of (run : R * Z) (g : list (K * Z)) : Prop := {
  ro_keys : g.*1 = keys run.1;
  ro_min : ∃ x, x ∈ g ∧ x.2 = run.2;
  ro_least : ∀ x, x ∈ g → run.2 ≤ x.2
}.

Definition grouped (items : list (K * Z)) (runs : list (R * Z)) : Prop :=
  ∃ groups, mjoin groups = items ∧ Forall2 run_of runs groups.

Lemma grouped_snoc items runs run g : grouped items runs → run_of run g → grouped (items ++ g) (runs ++ [run]).
Proof.
  intros (gs & <- & Hf) Hr. exists (gs ++ [g]). split; [by rewrite join_app; cbn; rewrite app_nil_r|].
  by apply Forall2_app; [|constructor].
Qed.

Lemma grouped_snoc_inv items runs run : grouped items (runs ++ [run]) →
  ∃ items' g, items = items' ++ g ∧ grouped items' runs ∧ run_of run g.
Proof.
  intros (gs & <- & Hf). apply Forall2_app_inv_l in Hf as (gs' & l & Hf & Hl & ->).
  apply Forall2_cons_inv_l in Hl as (g & l' & Hg & Hl & ->). apply Forall2_nil_inv_l in Hl as ->.
  exists (mjoin gs'), g. rewrite join_app. cbn. rewrite app_nil_r. split; [done|]. split; [by exists gs'|done].
Qed.

Lemma grouped_keys items runs : grouped items runs → mjoin (keys <$> runs.*1) = items.*1.
Proof.
  intros (gs & <- & Hf). induction Hf as [|run g runs gs Hr _ IH]; [done|].
  change (keys run.1 ++ mjoin (keys <$> runs.*1) = (g ++ mjoin gs).*1). by rewrite IH, fmap_app, (ro_keys _ _ Hr).
Qed.

Lemma grouped_elem items runs run : grouped items runs → run ∈ runs → ∃ g, run_of run g ∧ g ⊆ items.
Proof.
  intros (gs & <- & Hf) [i Hi]%list_elem_of_lookup. destruct (Forall2_lookup_l _ _ _ _ _ Hf Hi) as (g & Hg & Hr).
  exists g. split; [done|]. intros x Hx. apply list_elem_of_join. exists g. split; [done|]. by eapply list_elem_of_lookup_2.
Qed.

Lemma grouped_ranks items runs : grouped items runs → NoDup items.*2 → NoDup runs.*2.
Proof.
  intros (gs & <- & Hf). induction Hf as [|run g runs gs Hr Hf IH]; [done|]. cbn. rewrite fmap_app.
  intros (_ & Hd & Hn)%NoDup_app. apply NoDup_cons. split; [|by apply IH].
  intros (run' & E & Hrun)%list_elem_of_fmap. destruct (grouped_elem (mjoin gs) runs run') as (g' & Hr' & Hg); [by exists gs|done|].
  destruct (ro_min _ _ Hr) as (x & Hx & Ex). destruct (ro_min _ _ Hr') as (y & Hy & Ey).
  apply (Hd x.2); [by apply list_elem_of_fmap_2|]. rewrite Ex, E, <- Ey. by apply list_elem_of_fmap_2, Hg.
Qed.

(** The runs of a list of keys without duplicates, in the order of first need:
    each run has a key that comes before all keys of the runs after it. *)
Definition first_need (ks : list K) (r r' : R) : Prop :=
  ∃ a k, ks !! a = Some k ∧ k ∈ keys r ∧ ∀ b k', ks !! b = Some k' → k' ∈ keys r' → (a < b)%nat.

Lemma grouped_first_need ks items runs : NoDup ks → items ≡ₚ ranked ks → grouped items runs →
  mjoin (keys <$> (merge_sort by_rank runs).*1) ≡ₚ ks ∧ StronglySorted (first_need ks) (merge_sort by_rank runs).*1.
Proof.
  intros Hks Hp Hg. pose proof (merge_sort_Permutation by_rank runs) as Hs. split.
  { rewrite Hs, (grouped_keys items) by done. by rewrite Hp, ranked_fst. }
  assert (NoDup runs.*2) as Hd by (eapply grouped_ranks; [done|]; rewrite Hp; apply ranked_NoDup).
  assert (StronglySorted (λ x y : R * Z, x.2 < y.2) (merge_sort by_rank runs)) as Hss.
  { apply (sorted_strict snd); [|by rewrite Hs]. apply (StronglySorted_merge_sort by_rank). }
  assert (∀ run, run ∈ merge_sort by_rank runs →
    (∃ a k, ks !! a = Some k ∧ k ∈ keys run.1 ∧ run.2 = Z.of_nat a) ∧ ∀ b k, ks !! b = Some k → k ∈ keys run.1 → run.2 ≤ Z.of_nat b) as Hrk.
  { intros run Hrun. rewrite Hs in Hrun. destruct (grouped_elem _ _ _ Hg Hrun) as (g & Hr & Hin). split.
    - destruct (ro_min _ _ Hr) as ([k r] & Hx & Ex). cbn in Ex. pose proof (Hin _ Hx) as Hi. rewrite Hp in Hi.
      apply elem_of_ranked in Hi as (a & Ha & ->). exists a, k. rewrite <- (ro_keys _ _ Hr). split; [done|]. split; [|done].
      by apply (list_elem_of_fmap_2 fst) in Hx.
    - intros b k Hb Hk. rewrite <- (ro_keys _ _ Hr) in Hk. apply list_elem_of_fmap in Hk as ([k' r] & E & Hx). cbn in E. subst k'.
      pose proof (Hin _ Hx) as Hi. rewrite Hp in Hi. apply elem_of_ranked in Hi as (a & Ha & ->).
      rewrite (NoDup_lookup _ _ _ _ Hks Hb Ha). apply (ro_least _ _ Hr _ Hx). }
  clear Hs. induction Hss as [|run l _ IH Hlt]; [constructor|]. rewrite fmap_cons. constructor.
  - apply IH. intros run' Hrun'. apply Hrk. by right.
  - rewrite Forall_forall in Hlt. apply Forall_forall. intros r' (run' & -> & Hrun')%list_elem_of_fmap. specialize (Hlt _ Hrun').
    destruct (proj1 (Hrk run (list_elem_of_here _ _))) as (a & k & Ha & Hk & E). exists a, k. split; [done|]. split; [done|].
    intros b k' Hb Hk'. pose proof (proj2 (Hrk run' (list_elem_of_further _ _ _ Hrun')) b k' Hb Hk'). lia.
Qed.
End Merge.

(** ** Building a manifest *)

Definition pages_of (r : Z * Z) : list Z := (λ k, r.1 + PAGE_BYTES * k) <$> seqZ 0 (r.2 / PAGE_BYTES).

Lemma elem_of_pages r p : p ∈ pages_of r ↔ ∃ k, p = r.1 + PAGE_BYTES * k ∧ 0 ≤ k < r.2 / PAGE_BYTES.
Proof.
  unfold pages_of. rewrite list_elem_of_fmap. setoid_rewrite elem_of_seqZ. split; intros (k & -> & Hk); exists k; (split; [done|lia]).
Qed.

(** A run of whole pages. *)
Definition whole (run : Z * Z * Z) : Prop := 0 < run.1.2 ∧ run.1.2 mod PAGE_BYTES = 0.
Definition apart (run run' : Z * Z * Z) : Prop := run.1.1 < run'.1.1 ∧ run.1.1 + run.1.2 < run'.1.1.

Record merged_of (items : list (Z * Z)) (runs : list (Z * Z * Z)) : Prop := {
  mo_grouped : grouped pages_of items runs;
  mo_whole : Forall whole runs;
  mo_apart : StronglySorted apart runs
}.

Lemma pages_of_snoc s len : 0 < len → len mod PAGE_BYTES = 0 → pages_of (s, len + PAGE_BYTES) = pages_of (s, len) ++ [s + len].
Proof.
  intros Hl Hm. unfold pages_of, PAGE_BYTES, PACK_PAGE_BYTES in *. cbn [fst snd]. replace ((len + 4096) / 4096) with (len / 4096 + 1) by dlia.
  rewrite seqZ_snoc, fmap_app by dlia. cbn. do 2 f_equal. dlia.
Qed.

Lemma pages_of_one s : pages_of (s, PAGE_BYTES) = [s].
Proof.
  unfold pages_of. change (seqZ 0 ((s, PAGE_BYTES).2 / PAGE_BYTES)) with [0]. change ([s + PAGE_BYTES * 0] = [s]). f_equal. lia.
Qed.

(** Runs end before a page that comes after all their pages. *)
Lemma run_ends items runs run offset : merged_of items runs → run ∈ runs →
  (∀ x, x ∈ items → x.1 < offset ∧ (offset - x.1) mod PAGE_BYTES = 0) → run.1.1 < offset ∧ run.1.1 + run.1.2 ≤ offset.
Proof.
  intros [Hg Hw _] Hrun Hx. rewrite Forall_forall in Hw. destruct (Hw _ Hrun) as [H0 Hm].
  destruct (grouped_elem _ _ _ _ Hg Hrun) as (g & Hr & Hin). unfold PAGE_BYTES, PACK_PAGE_BYTES in *.
  assert (∀ k, 0 ≤ k < run.1.2 / 4096 → run.1.1 + 4096 * k < offset ∧ (offset - (run.1.1 + 4096 * k)) mod 4096 = 0) as Hk.
  { intros k Hk. assert (run.1.1 + 4096 * k ∈ g.*1) as He by (rewrite (ro_keys _ _ _ Hr); apply elem_of_pages; by exists k).
    apply list_elem_of_fmap in He as (x & -> & Hxg). by apply Hx, Hin. }
  pose proof (Hk 0 ltac:(dlia)). pose proof (Hk (run.1.2 / 4096 - 1) ltac:(dlia)). split; dlia.
Qed.

Lemma merge_page_inv items runs offset rank : merged_of items runs →
  (∀ x, x ∈ items → x.1 < offset ∧ (offset - x.1) mod PAGE_BYTES = 0) →
  merged_of (items ++ [(offset, rank)]) (merge_page runs (offset, rank)).
Proof.
  intros Hinv Hx. pose proof (λ run Hr, run_ends _ _ run offset Hinv Hr Hx) as Hend. destruct Hinv as [Hg Hw Ha].
  assert (run_of pages_of (offset, PAGE_BYTES, rank) [(offset, rank)]) as H1.
  { split; cbn [fst snd]; [by rewrite pages_of_one|by exists (offset, rank); split; [left|]|by intros x ->%list_elem_of_singleton]. }
  unfold merge_page. destruct runs as [|[[s len] r] runs _] using rev_ind; cbn [rev].
  { split; [|repeat constructor|repeat constructor]. by apply (grouped_snoc _ _ []). }
  rewrite rev_app_distr. cbn [rev app]. rewrite rev_involutive. apply Forall_app in Hw as [Hw Hl]. rewrite Forall_singleton in Hl.
  destruct Hl as [Hl0 Hlm]. cbn [fst snd] in Hl0, Hlm. destruct (Z.eqb_spec (s + len) offset) as [E|E].
  - apply grouped_snoc_inv in Hg as (items' & g & -> & Hg & [Hk (y & Hy & Ey) Hmin]). split.
    + rewrite <- app_assoc. apply grouped_snoc; [done|]. split; cbn [fst snd] in *.
      * by rewrite fmap_app, Hk, pages_of_snoc, E.
      * destruct (Z.min_spec r rank) as [[_ ->]|[_ ->]]; [exists y|exists (offset, rank)]; (split; [apply elem_of_app|done]); [by left|right; by left].
      * intros x [Hxg| ->%list_elem_of_singleton]%elem_of_app; [specialize (Hmin x Hxg)|]; cbn; lia.
    + apply Forall_app. split; [done|]. apply Forall_singleton. unfold whole, PAGE_BYTES, PACK_PAGE_BYTES in *. cbn [fst snd]. dlia.
    + apply StronglySorted_app in Ha as (Ha1 & Ha2 & _). apply StronglySorted_app. split; [|split; [done|repeat constructor]].
      intros x1 x2 Hx1 ->%list_elem_of_singleton. apply (Ha1 x1 (s, len, r)); [done|by left].
  - split.
    + by apply grouped_snoc.
    + apply Forall_app. split; [apply Forall_app; split; [done|by constructor]|]. by repeat constructor.
    + apply StronglySorted_app. split; [|split; [done|repeat constructor]]. intros x1 x2 Hx1 ->%list_elem_of_singleton.
      unfold apart. cbn [fst snd]. destruct (Hend (s, len, r)) as [Hs1 Hs2]; [apply elem_of_app; right; by left|]. cbn [fst snd] in Hs1, Hs2.
      apply elem_of_app in Hx1 as [Hx1|Hx1%list_elem_of_singleton]; [|subst x1; cbn; lia].
      apply StronglySorted_app in Ha as (Ha & _). specialize (Ha x1 _ Hx1 (list_elem_of_here _ _)). unfold apart in Ha. cbn in Ha. lia.
Qed.

Lemma merge_pages items : StronglySorted (λ x y, x.1 < y.1) items → Forall (λ x, x.1 mod PAGE_BYTES = 0) items →
  merged_of items (fold_left merge_page items []).
Proof.
  induction items as [|[offset rank] items IH] using rev_ind; intros Hs Hm; [by split; [exists []|constructor|constructor]|].
  rewrite fold_left_app. cbn [fold_left]. apply StronglySorted_app in Hs as (Hlt & Hs & _). apply Forall_app in Hm as [Hm Hm1].
  rewrite Forall_singleton in Hm1. cbn in Hm1. apply merge_page_inv; [by apply IH|]. intros x Hx.
  rewrite Forall_forall in Hm. specialize (Hm x Hx). specialize (Hlt x _ Hx (list_elem_of_here _ _)). cbn in Hlt.
  split; [done|]. unfold PAGE_BYTES, PACK_PAGE_BYTES in *. dlia.
Qed.

Lemma valid_page mem p : mem ≤ U64_MAX → validate_page_offset mem p = Ok tt ↔ p mod PAGE_BYTES = 0 ∧ p + PAGE_BYTES ≤ mem.
Proof.
  intros Hm. unfold validate_page_offset, checked_add64, is_multiple_of, ensure.
  destruct (Z.eqb_spec (p mod PAGE_BYTES) 0); cbn [rbind]; [|naive_solver].
  destruct (Z.leb_spec (p + PAGE_BYTES) U64_MAX); [|split; [done|lia]]. destruct (Z.leb_spec (p + PAGE_BYTES) mem); split; try done; lia.
Qed.

Lemma runs_valid mem runs : mem ≤ U64_MAX → StronglySorted apart runs → Forall whole runs → ∀ last_end,
  Forall (λ run, last_end ≤ run.1.1 ∧ run.1.1 mod PAGE_BYTES = 0 ∧ run.1.1 + run.1.2 ≤ mem) runs →
  validate_sorted mem last_end runs.*1 = Ok tt.
Proof.
  intros Hm Hs Hw. induction Hs as [|[[s len] r] runs _ IH Ha]; intros last_end Hf; [done|].
  apply Forall_cons in Hw as [[Hl0 Hlm] Hw], Hf as [(Hle & Hal & Hend) Hf]. cbn [fst snd] in *. rewrite fmap_cons. cbn [fst validate_sorted].
  unfold ensure, checked_add64, is_multiple_of. rewrite (proj2 (Z.leb_le _ _) Hle), (proj2 (Z.ltb_lt _ _) Hl0), Hlm. cbn [andb rbind Z.eqb].
  rewrite (proj2 (valid_page mem s Hm)) by (unfold PAGE_BYTES, PACK_PAGE_BYTES in *; split; [done|dlia]). cbn [rbind].
  rewrite (proj2 (Z.leb_le _ U64_MAX)), (proj2 (Z.leb_le _ mem)) by lia. cbn [rbind]. apply (IH Hw).
  rewrite Forall_forall in *. intros run Hrun. specialize (Ha run Hrun). destruct (Hf run Hrun) as (_ & ? & ?).
  unfold apart in Ha. cbn in Ha. split; [lia|done].
Qed.

Lemma grouped_length {K R} (keys : R → list K) items runs : grouped keys items runs → zlen runs ≤ zlen items.
Proof.
  intros (gs & <- & Hf). induction Hf as [|run g runs gs Hr _ IH]; [done|]. change (mjoin (g :: gs)) with (g ++ mjoin gs).
  rewrite zlen_cons, zlen_app. destruct (ro_min _ _ _ Hr) as (x & Hx & _). destruct g; [by apply not_elem_of_nil in Hx|].
  rewrite zlen_cons. pose proof (zlen_nonneg g). lia.
Qed.

Section Build.
Context (mem : Z) (offs : list Z).
Hypotheses (Hmem : u64 mem) (Hoffs : Forall u64 offs) (Hd : NoDup offs).
Hypothesis Hvalid : Forall (λ p, p mod PAGE_BYTES = 0 ∧ p + PAGE_BYTES ≤ mem) offs.

Let items := merge_sort by_offset (ranked offs).
Let runs := fold_left merge_page items [].

Lemma items_perm : items ≡ₚ ranked offs.
Proof. apply merge_sort_Permutation. Qed.

Lemma build_merged : merged_of items runs.
Proof.
  apply merge_pages.
  - apply (sorted_strict fst); [apply (StronglySorted_merge_sort by_offset)|]. by rewrite items_perm, ranked_fst.
  - apply Forall_forall. intros [p r] Hx. rewrite items_perm in Hx. apply elem_of_ranked in Hx as (i & Hi & _).
    rewrite Forall_forall in Hvalid. by apply (Hvalid p), (list_elem_of_lookup_2 _ i).
Qed.

Lemma runs_bounds : Forall (λ run, 0 ≤ run.1.1 ∧ run.1.1 mod PAGE_BYTES = 0 ∧ run.1.1 + run.1.2 ≤ mem) runs.
Proof.
  pose proof build_merged as [Hg Hw _]. apply Forall_forall. intros run Hrun. rewrite Forall_forall in Hw. destruct (Hw _ Hrun) as [H0 Hm].
  assert (∀ p, p ∈ pages_of run.1 → u64 p ∧ p mod PAGE_BYTES = 0 ∧ p + PAGE_BYTES ≤ mem) as Hp.
  { intros p Hp. assert (p ∈ items.*1) as Hi.
    { rewrite <- (grouped_keys _ _ _ Hg). apply list_elem_of_join. exists (pages_of run.1). split; [done|]. by do 2 apply list_elem_of_fmap_2. }
    rewrite items_perm, ranked_fst in Hi. rewrite Forall_forall in Hoffs, Hvalid. split; [by apply Hoffs|by apply Hvalid]. }
  unfold u64, PAGE_BYTES, PACK_PAGE_BYTES in *.
  destruct (Hp run.1.1) as (? & ? & ?); [apply elem_of_pages; exists 0; unfold PAGE_BYTES, PACK_PAGE_BYTES; dlia|].
  destruct (Hp (run.1.1 + (run.1.2 - 4096))) as (? & ? & ?); [|lia].
  apply elem_of_pages. exists (run.1.2 / 4096 - 1). unfold PAGE_BYTES, PACK_PAGE_BYTES. dlia.
Qed.

Lemma ranges_valid ranges : ranges ≡ₚ runs.*1 → validate_ranges mem ranges = Ok tt.
Proof.
  intros Hp. destruct build_merged as [_ Hw Ha]. unfold validate_ranges. rewrite (merge_sort_perm pair_le runs.*1 ranges); [| |  |done].
  - apply runs_valid; [unfold u64 in Hmem; lia|done|done|apply runs_bounds].
  - intros [a b] [a' b'] _ _. unfold pair_le. cbn. intros ??. f_equal; lia.
  - eapply StronglySorted_fmap; [|exact Ha]. intros x y [Hxy _]. by left.
Qed.

Lemma ranges_not_adjacent r r' : r ∈ runs.*1 → r' ∈ runs.*1 → r.1 + r.2 ≠ r'.1.
Proof.
  destruct build_merged as [_ Hw Ha]. rewrite Forall_forall in Hw.
  intros (x & -> & Hx)%list_elem_of_fmap (y & -> & Hy)%list_elem_of_fmap. destruct (Hw x Hx) as [H0 _].
  apply list_elem_of_lookup in Hx as [i Hi], Hy as [j Hj]. pose proof (StronglySorted_lookup _ _ Ha) as Hlt. unfold apart in Hlt.
  destruct (Nat.lt_trichotomy i j) as [Hij|[ ->|Hij]].
  - specialize (Hlt i j x y Hij Hi Hj). lia.
  - assert (x = y) as -> by congruence. lia.
  - specialize (Hlt j i y x Hij Hj Hi). lia.
Qed.

Lemma build_ok : offs ≠ [] → ∃ m, build_manifest mem offs = Ok m ∧ wf_manifest m
  ∧ mjoin (pages_of <$> sm_ranges m) ≡ₚ offs ∧ StronglySorted (first_need pages_of offs) (sm_ranges m)
  ∧ (∀ r r', r ∈ sm_ranges m → r' ∈ sm_ranges m → r.1 + r.2 ≠ r'.1)
  ∧ (zlen offs ≤ MAX_RANGES → ∃ bytes, encode_manifest m = Ok bytes).
Proof.
  intros Hne. unfold build_manifest. assert (is_nil offs = false) as -> by (clear -Hne; by destruct offs). cbn [negb ensure rbind].
  rewrite (proj2 (validate_pages_all mem offs)); cycle 1.
  { eapply Forall_impl; [exact Hvalid|]. intros p Hp. apply valid_page; [unfold u64 in Hmem; lia|done]. }
  cbn [rbind]. fold items runs. eexists. split; [done|]. cbn [sm_ranges]. pose proof build_merged as [Hg Hw _].
  assert ((merge_sort by_rank runs).*1 ≡ₚ runs.*1) as Hp by (by rewrite merge_sort_Permutation). pose proof runs_bounds as Hb.
  destruct (grouped_first_need _ _ _ _ Hd items_perm Hg) as [H1 H2]. split_and!; [|done|done| |].
  - split; cbn; [done|done|]. rewrite Hp. apply Forall_fmap. rewrite Forall_forall in *. intros run Hrun. specialize (Hb run Hrun).
    destruct (Hw run Hrun) as [? _]. unfold compose, u64 in *. lia.
  - intros r r'. rewrite !Hp. apply ranges_not_adjacent.
  - intros Hl. unfold encode_manifest. cbn [sm_prefix_pages sm_ranges sm_mem_virtual_size].
    pose proof (grouped_length _ _ _ Hg) as Hlen. unfold zlen in Hlen, Hl. rewrite items_perm in Hlen. unfold ranked in Hlen. rewrite length_imap in Hlen.
    assert ((zlen (merge_sort by_rank runs).*1 <=? MAX_RANGES) = true) as ->.
    { apply Z.leb_le. unfold zlen. rewrite Hp, length_fmap. lia. }
    cbn [zlen length Z.of_nat Z.leb Z.compare MAX_PREFIX_PAGES ensure rbind validate_pages].
    rewrite ranges_valid by done. by eexists.
Qed.
End Build.

(** C30: The formats are exact: bytes decode to a manifest, or to a trace, if
    and only if they are what encoding it gives. *)
Theorem startup_codecs_exact bytes : Forall is_byte bytes →
  (∀ m, wf_manifest m ∧ encode_manifest m = Ok bytes ↔ decode_manifest bytes = Ok m)
  ∧ (∀ mem pages, (u64 mem ∧ Forall u64 pages) ∧ encode_trace mem pages = Ok bytes ↔ decode_trace bytes = Ok (mem, pages)).
Proof.
  intros Hb. split.
  - intros m. split; [intros [Hm He]; by apply manifest_written|by apply manifest_read].
  - intros mem pages. split; [intros [[Hm Hp] He]; by apply trace_written|by apply trace_read].
Qed.

(** C29: A recorded trace without duplicates can be published: a manifest is
    built and encoded from it, and decodes to itself; its ranges have exactly
    the pages of the trace, each once; no two could be merged; and each range
    has a page that was touched before all pages of the ranges after it. *)
Theorem manifest_of_trace raw mem pages : Forall is_byte raw → decode_trace raw = Ok (mem, pages) → NoDup pages →
  ∃ m bytes, build_manifest mem pages = Ok m ∧ encode_manifest m = Ok bytes ∧ decode_manifest bytes = Ok m
    ∧ mjoin (pages_of <$> sm_ranges m) ≡ₚ pages
    ∧ StronglySorted (first_need pages_of pages) (sm_ranges m)
    ∧ (∀ r r', r ∈ sm_ranges m → r' ∈ sm_ranges m → r.1 + r.2 ≠ r'.1).
Proof.
  intros Hb [[Hmem Hp] He]%trace_read Hd; [|done]. unfold encode_trace in He. steps He. apply encode_offsets_all in Hx as [Hv _].
  destruct (build_ok mem pages Hmem Hp Hd) as (m & Hm & Hwf & H1 & H2 & H3 & H4).
  { eapply Forall_impl; [exact Hv|]. intros p Hx. apply valid_page; [unfold u64 in Hmem; lia|done]. }
  { intros ->. done. }
  destruct H4 as [bytes Hbytes]; [by apply Z.leb_le|]. exists m, bytes. split_and!; try done. by apply manifest_written.
Qed.

(** Five pages touched in three ranges. *)
Definition five_pages : list Z := [0x8000; 0x1000; 0x2000; 0x3000; 0xA000].

Lemma five_pages_built : build_manifest (2 ^ 30) five_pages
  = Ok {| sm_mem_virtual_size := 2 ^ 30; sm_prefix_pages := []; sm_ranges := [(0x8000, 0x1000); (0x1000, 0x3000); (0xA000, 0x1000)] |}.
Proof. by vm_compute. Qed.

Definition five_raw : list Z := match encode_trace (2 ^ 30) five_pages with Ok raw => raw | Err _ => [] end.

Lemma five_raw_facts : Forall is_byte five_raw ∧ decode_trace five_raw = Ok (2 ^ 30, five_pages) ∧ NoDup five_pages.
Proof.
  split; [|split; [by vm_compute|apply (bool_decide_unpack _); by vm_compute]].
  unfold is_byte. apply (bool_decide_unpack _). by vm_compute.
Qed.

Lemma manifest_of_trace_witness : ∃ m, build_manifest (2 ^ 30) five_pages = Ok m ∧ mjoin (pages_of <$> sm_ranges m) ≡ₚ five_pages.
Proof.
  destruct five_raw_facts as (Hb & Hdec & Hd).
  destruct (manifest_of_trace five_raw (2 ^ 30) five_pages Hb Hdec Hd) as (m & bytes & Hm & _ & _ & Hp & _). by exists m.
Defined.

Lemma startup_codecs_exact_witness : encode_trace (2 ^ 30) five_pages = Ok five_raw.
Proof.
  destruct five_raw_facts as (Hb & Hdec & _). exact (proj2 (proj2 (proj2 (startup_codecs_exact five_raw Hb) _ _) Hdec)).
Defined.
