(* ===== verification/PackPlanner.v ===== *)
(** * Planning a start-up prefetch

    [storage/overlaybd/src/pack_planner.rs]: the spans of memory that a machine
    touches while it starts are mapped to blocks of 256 KiB of the objects that
    hold its layers, through the merged index of the layers and, where a layer
    is compressed, through its jump table.  A block is planned once, in the
    order of first need, with the blocks of the metadata of its layer before it,
    as long as the budget lasts.

    A layer is what [open_layer] makes of a final object: its layout, the size
    of the layer file and the place of its index. *)

From stdpp Require Import gmap.
From S2P Require Import Prelude Text LsmtSegment LsmtIndex LsmtLookup LsmtIo LsmtHelper LsmtFile LsmtRead LsmtStack LsmtSeal ZFormat ZRead.

Open Scope result_scope.

Definition OBJECT_BLOCK_BYTES : Z := Z.shiftl 256 10.
Definition PLAN_PAGE_BYTES : Z := 4096.
Definition SECTOR_BYTES : Z := 512.
Definition PLAN_HEADER_BYTES : Z := 64.
Definition ENTRY_BYTES : Z := 8.
Definition OBJECT_ENTRY_FIXED_BYTES : Z := 10.
Definition FRAME_BYTES : Z := Z.shiftl 1 20.

Inductive plan_error : Type :=
| PlanZFile (e : zfile_error) | EmptyExtent | BlockIdOverflow | NoFinalLayers | TooManyLayers | ZeroSize | OutOfRange | PlanPanic.

Inductive LayerLayout : Type :=
| LRaw (tar_base : Z)
| LZFile (zfile : ZFileRO) (tar_base : Z).

(** [FinalLayerSource] and [OpenedLayer]. *)
Record FinalLayer : Type := {
  fl_digest : str;
  fl_size : Z;
  fl_layout : LayerLayout;
  fl_file_size : Z;
  fl_index_offset : Z
}.

Record PlannedBlock : Type := { pb_object : Z; pb_block_id : Z; pb_metadata : bool }.
Record PlannedObject : Type := { po_digest : str; po_size : Z; po_layer : nat }.

Record PlanStats : Type := {
  ps_pages_total : Z;
  ps_pages_backed : Z;
  ps_pages_zero_hole : Z;
  ps_data_blocks : Z;
  ps_metadata_blocks : Z;
  ps_unique_blocks : Z;
  ps_payload_bytes : Z;
  ps_pages_truncated : Z;
  ps_gap_runs : Z;
  ps_gap_blocks : Z
}.

Record PackPlan : Type := { pp_objects : list PlannedObject; pp_blocks : list PlannedBlock; pp_stats : PlanStats }.

(** ** Blocks of an extent *)

Definition push_aligned_blocks (offset len object_size : Z) (out : list Z) : result plan_error (list Z) :=
  let? _ := ensure (0 <? len) EmptyExtent in
  let object_blocks := div_ceil object_size OBJECT_BLOCK_BYTES in
  let first := offset / OBJECT_BLOCK_BYTES in
  let last := wrap64 (offset + len - 1) / OBJECT_BLOCK_BYTES in
  let blocks := seqZ first (Z.min last (saturating_sub object_blocks 1) - first + 1) in
  let? _ := ensure (forallb (λ block, block <=? U32_MAX) blocks) BlockIdOverflow in
  Ok (out ++ blocks).

Fixpoint map_zfile_blocks (zfile : ZFileRO) (tar_base object_size : Z) (idxs : list Z) (out : list Z) : result plan_error (list Z) :=
  match idxs with
  | [] => Ok out
  | idx :: rest =>
      match compressed_block_extent zfile (wrap64 (idx * co_block_size (ro_options zfile))) with
      | Err e => Err (PlanZFile e)
      | Ok (c_off, c_len) =>
          let? out := push_aligned_blocks (wrap64 (c_off + tar_base)) c_len object_size out in
          map_zfile_blocks zfile tar_base object_size rest out
      end
  end.

Definition map_extent_blocks (layout : LayerLayout) (logical_offset logical_len object_size : Z) (out : list Z)
  : result plan_error (list Z) :=
  if logical_len =? 0 then Ok out
  else match layout with
       | LRaw tar_base => push_aligned_blocks (wrap64 (logical_offset + tar_base)) logical_len object_size out
       | LZFile zfile tar_base =>
           let zblock := co_block_size (ro_options zfile) in
           let? _ := ensure (negb (zblock =? 0)) (PlanZFile BadBlockSize) in
           let first := logical_offset / zblock in
           let last := wrap64 (logical_offset + logical_len - 1) / zblock in
           map_zfile_blocks zfile tar_base object_size (seqZ first (last - first + 1)) out
       end.

(** ** The planner *)

Record Planner : Type := {
  pl_spent : Z;
  pl_stats : PlanStats;
  pl_objects : list PlannedObject;
  pl_object_of_layer : list (option Z);
  pl_blocks : list PlannedBlock;
  pl_seen : gmap (Z * Z) Z;
  pl_metadata_emitted : list bool
}.

Definition set_stats (f : PlanStats → PlanStats) (p : Planner) : Planner := {|
  pl_spent := pl_spent p; pl_stats := f (pl_stats p); pl_objects := pl_objects p;
  pl_object_of_layer := pl_object_of_layer p; pl_blocks := pl_blocks p; pl_seen := pl_seen p;
  pl_metadata_emitted := pl_metadata_emitted p |}.

Definition set_objects (objects : list PlannedObject) (of_layer : list (option Z)) (p : Planner) : Planner := {|
  pl_spent := pl_spent p; pl_stats := pl_stats p; pl_objects := objects;
  pl_object_of_layer := of_layer; pl_blocks := pl_blocks p; pl_seen := pl_seen p;
  pl_metadata_emitted := pl_metadata_emitted p |}.

Definition set_emitted (emitted : list bool) (p : Planner) : Planner := {|
  pl_spent := pl_spent p; pl_stats := pl_stats p; pl_objects := pl_objects p;
  pl_object_of_layer := pl_object_of_layer p; pl_blocks := pl_blocks p; pl_seen := pl_seen p;
  pl_metadata_emitted := emitted |}.

Definition add_spent (n : Z) (p : Planner) : Planner := {|
  pl_spent := pl_spent p + n; pl_stats := pl_stats p; pl_objects := pl_objects p;
  pl_object_of_layer := pl_object_of_layer p; pl_blocks := pl_blocks p; pl_seen := pl_seen p;
  pl_metadata_emitted := pl_metadata_emitted p |}.

Definition commit_block (s : Z * Z * bool) (p : Planner) : Planner := {|
  pl_spent := pl_spent p; pl_stats := pl_stats p; pl_objects := pl_objects p;
  pl_object_of_layer := pl_object_of_layer p;
  pl_blocks := pl_blocks p ++ [{| pb_object := s.1.1; pb_block_id := s.1.2; pb_metadata := s.2 |}];
  pl_seen := <[s.1 := zlen (pl_blocks p)]> (pl_seen p);
  pl_metadata_emitted := pl_metadata_emitted p |}.

Definition stats_new : PlanStats := {|
  ps_pages_total := 0; ps_pages_backed := 0; ps_pages_zero_hole := 0; ps_data_blocks := 0; ps_metadata_blocks := 0;
  ps_unique_blocks := 0; ps_payload_bytes := 0; ps_pages_truncated := 0; ps_gap_runs := 0; ps_gap_blocks := 0 |}.

(** The counters of pages and of blocks. *)
Definition add_pages (total backed hole truncated : Z) (s : PlanStats) : PlanStats := {|
  ps_pages_total := ps_pages_total s + total; ps_pages_backed := ps_pages_backed s + backed;
  ps_pages_zero_hole := ps_pages_zero_hole s + hole; ps_data_blocks := ps_data_blocks s;
  ps_metadata_blocks := ps_metadata_blocks s; ps_unique_blocks := ps_unique_blocks s;
  ps_payload_bytes := ps_payload_bytes s; ps_pages_truncated := ps_pages_truncated s + truncated;
  ps_gap_runs := ps_gap_runs s; ps_gap_blocks := ps_gap_blocks s |}.

Definition set_block_counts (data metadata : Z) (s : PlanStats) : PlanStats := {|
  ps_pages_total := ps_pages_total s; ps_pages_backed := ps_pages_backed s;
  ps_pages_zero_hole := ps_pages_zero_hole s; ps_data_blocks := data;
  ps_metadata_blocks := metadata; ps_unique_blocks := ps_unique_blocks s;
  ps_payload_bytes := ps_payload_bytes s; ps_pages_truncated := ps_pages_truncated s;
  ps_gap_runs := ps_gap_runs s; ps_gap_blocks := ps_gap_blocks s |}.

Definition add_blocks (data metadata : Z) (s : PlanStats) : PlanStats :=
  set_block_counts (ps_data_blocks s + data) (ps_metadata_blocks s + metadata) s.

Definition add_gap (n : Z) (s : PlanStats) : PlanStats := {|
  ps_pages_total := ps_pages_total s; ps_pages_backed := ps_pages_backed s;
  ps_pages_zero_hole := ps_pages_zero_hole s; ps_data_blocks := ps_data_blocks s;
  ps_metadata_blocks := ps_metadata_blocks s; ps_unique_blocks := ps_unique_blocks s;
  ps_payload_bytes := ps_payload_bytes s; ps_pages_truncated := ps_pages_truncated s;
  ps_gap_runs := ps_gap_runs s + 1; ps_gap_blocks := ps_gap_blocks s + n |}.

Definition set_unique (n : Z) (s : PlanStats) : PlanStats := {|
  ps_pages_total := ps_pages_total s; ps_pages_backed := ps_pages_backed s;
  ps_pages_zero_hole := ps_pages_zero_hole s; ps_data_blocks := ps_data_blocks s;
  ps_metadata_blocks := ps_metadata_blocks s; ps_unique_blocks := n;
  ps_payload_bytes := n * OBJECT_BLOCK_BYTES; ps_pages_truncated := ps_pages_truncated s;
  ps_gap_runs := ps_gap_runs s; ps_gap_blocks := ps_gap_blocks s |}.

Definition plan (A : Type) : Type := eff Planner plan_error A.

Definition planner {A} (f : Planner → A) : plan A := λ p, (p, Ok (f p)).

Section Planner.
Context {I : Type} `{!LogIndex I} (layers : list FinalLayer) (index : I) (budget_bytes : Z).

Definition get_layer (layer_idx : nat) : result plan_error FinalLayer :=
  match layers !! layer_idx with Some l => Ok l | None => Err PlanPanic end.

(** The object of a layer, made when the layer has none. *)
Definition object_for (layer_idx : nat) : plan Z :=
  let! of_layer := planner pl_object_of_layer in
  match of_layer !! layer_idx with
  | None => eerr PlanPanic
  | Some (Some idx) => eret idx
  | Some None =>
      let! objects := planner pl_objects in
      let idx := zlen objects in
      let! _ := elift (ensure (idx <? 2 ^ 16) PlanPanic) in
      let! layer := elift (get_layer layer_idx) in
      let object := {| po_digest := fl_digest layer; po_size := fl_size layer; po_layer := layer_idx |} in
      let! _ := emodify (set_objects (objects ++ [object]) (<[layer_idx := Some idx]> of_layer)) in
      eret idx
  end.

Definition stage_block (layer_idx : nat) (block_id : Z) (staged : list (Z * Z * bool)) : plan (option (Z * Z * bool)) :=
  let! object_idx := object_for layer_idx in
  let! seen := planner pl_seen in
  if bool_decide (is_Some (seen !! (object_idx, block_id)))
     || existsb (λ s, bool_decide (s.1 = (object_idx, block_id))) staged
  then eret None
  else eret (Some (object_idx, block_id, false)).

Fixpoint resolve_span_blocks (mappings : list SegmentMapping) (out : list (nat * Z)) (backed : bool)
  : result plan_error (list (nat * Z) * bool) :=
  match mappings with
  | [] => Ok (out, backed)
  | mapping :: rest =>
      if negb (has_physical_range mapping) then resolve_span_blocks rest out backed
      else
        let? _ := ensure (tag mapping <? zlen layers) PlanPanic in
        let layer_idx := Z.to_nat (zlen layers - 1 - tag mapping) in
        let? layer := get_layer layer_idx in
        let? raw_blocks := map_extent_blocks (fl_layout layer) (wrap64 (moffset mapping * SECTOR_BYTES))
                             (sm_length mapping * SECTOR_BYTES) (fl_size layer) [] in
        resolve_span_blocks rest (out ++ ((λ block_id, (layer_idx, block_id)) <$> raw_blocks)) true
  end.

Fixpoint stage_metadata_loop (layer_idx : nat) (blocks : list Z) (staged : list (Z * Z * bool)) : plan (list (Z * Z * bool)) :=
  match blocks with
  | [] => eret staged
  | block_id :: rest =>
      let! s := stage_block layer_idx block_id staged in
      match s with
      | None => stage_metadata_loop layer_idx rest staged
      | Some s =>
          let! _ := emodify (set_stats (add_blocks 0 1)) in
          stage_metadata_loop layer_idx rest (staged ++ [(s.1, true)])
      end
  end.

Definition metadata_blocks (layer : FinalLayer) : result plan_error (list Z) :=
  let? meta_raw := map_extent_blocks (fl_layout layer) 0 PLAN_PAGE_BYTES (fl_size layer) [] in
  let tail_len := saturating_sub (fl_file_size layer) (fl_index_offset layer) in
  if 0 <? tail_len then map_extent_blocks (fl_layout layer) (fl_index_offset layer) tail_len (fl_size layer) meta_raw
  else Ok meta_raw.

Definition stage_metadata (layer_idx : nat) (staged : list (Z * Z * bool)) : plan (list (Z * Z * bool)) :=
  let! emitted := planner pl_metadata_emitted in
  match emitted !! layer_idx with
  | None => eerr PlanPanic
  | Some true => eret staged
  | Some false =>
      let! _ := emodify (set_emitted (<[layer_idx := true]> emitted)) in
      let! layer := elift (get_layer layer_idx) in
      let! meta_raw := elift (metadata_blocks layer) in
      stage_metadata_loop layer_idx meta_raw staged
  end.

(** The metadata of the layers of a span. *)
Fixpoint stage_layers (span_blocks : list (nat * Z)) (staged_layers : list nat) (staged : list (Z * Z * bool))
  : plan (list (Z * Z * bool)) :=
  match span_blocks with
  | [] => eret staged
  | (layer_idx, _) :: rest =>
      if bool_decide (layer_idx ∈ staged_layers) then stage_layers rest staged_layers staged
      else
        let! staged := stage_metadata layer_idx staged in
        stage_layers rest (staged_layers ++ [layer_idx]) staged
  end.

Fixpoint stage_data (span_blocks : list (nat * Z)) (staged : list (Z * Z * bool)) : plan (list (Z * Z * bool)) :=
  match span_blocks with
  | [] => eret staged
  | (layer_idx, block_id) :: rest =>
      let! s := stage_block layer_idx block_id staged in
      match s with
      | None => stage_data rest staged
      | Some s =>
          let! _ := emodify (set_stats (add_blocks 1 0)) in
          stage_data rest (staged ++ [s])
      end
  end.

(** The bytes that new objects and blocks add to the file. *)
Definition staged_bytes (new_objects : list PlannedObject) (staged : list (Z * Z * bool)) : Z :=
  foldr Z.add 0 ((λ o, OBJECT_ENTRY_FIXED_BYTES + zlen (po_digest o)) <$> new_objects)
  + zlen staged * (OBJECT_BLOCK_BYTES + ENTRY_BYTES)
  + 4 * div_ceil (zlen staged * OBJECT_BLOCK_BYTES) FRAME_BYTES.

Definition resolved (span_blocks : list (nat * Z)) (p : Planner) : list (Z * Z * Z) :=
  omap (λ b : nat * Z,
    match pl_object_of_layer p !! b.1 with
    | Some (Some object_idx) => (λ position, (object_idx, b.2, position)) <$> pl_seen p !! (object_idx, b.2)
    | _ => None
    end) span_blocks.

Definition stage_span (span_blocks : list (nat * Z)) : plan (option (list (Z * Z * Z))) :=
  let! stage_start_objects := planner (λ p, length (pl_objects p)) in
  let! stage_stats := planner pl_stats in
  let! staged := stage_layers span_blocks [] [] in
  let! staged := stage_data span_blocks staged in
  let! p := planner id in
  let new_bytes := staged_bytes (drop stage_start_objects (pl_objects p)) staged in
  if budget_bytes <? pl_spent p + new_bytes then
    let! _ := emodify (λ p, set_stats (set_block_counts (ps_data_blocks stage_stats) (ps_metadata_blocks stage_stats))
      (set_objects (take stage_start_objects (pl_objects p))
        ((λ entry, match entry with Some idx => if Z.of_nat stage_start_objects <=? idx then None else Some idx | None => None end)
           <$> pl_object_of_layer p) p)) in
    eret None
  else
    let! _ := emodify (λ p, fold_left (λ p s, commit_block s p) staged (add_spent new_bytes p)) in
    let! p := planner id in
    eret (Some (resolved span_blocks p)).

(** ** Gaps *)

(** The gaps before the selected blocks, and the last one. *)
Fixpoint gap_loop (selected : list Z) (cursor : Z) (s : PlanStats) : Z * PlanStats :=
  match selected with
  | [] => (cursor, s)
  | b :: rest => gap_loop rest (b + 1) (if cursor <? b then add_gap (b - cursor) s else s)
  end.

Definition selected_blocks (object_idx : Z) (seen : gmap (Z * Z) Z) : list Z :=
  merge_sort Z.le ((filter (λ k : Z * Z, k.1 = object_idx) (map_to_list seen).*1).*2).

Definition gap_layer (p : Planner) (layer_idx : nat) (source : FinalLayer) (s : PlanStats) : PlanStats :=
  match pl_object_of_layer p !! layer_idx with
  | Some (Some object_idx) =>
      let total := div_ceil (fl_size source) OBJECT_BLOCK_BYTES in
      let '(cursor, s) := gap_loop (selected_blocks object_idx (pl_seen p)) 0 s in
      if cursor <? total then add_gap (total - cursor) s else s
  | _ => s
  end.

Fixpoint gap_stats (p : Planner) (layer_idx : nat) (sources : list FinalLayer) (s : PlanStats) : PlanStats :=
  match sources with
  | [] => s
  | source :: rest => gap_stats p (S layer_idx) rest (gap_layer p layer_idx source s)
  end.

Definition finish (p : Planner) : PackPlan := {|
  pp_objects := pl_objects p;
  pp_blocks := pl_blocks p;
  pp_stats := gap_stats p 0 layers (set_unique (Z.of_nat (size (pl_seen p))) (pl_stats p))
|}.

(** ** Plans *)

Definition planner_new : Planner := {|
  pl_spent := PLAN_HEADER_BYTES; pl_stats := stats_new; pl_objects := [];
  pl_object_of_layer := replicate (length layers) None; pl_blocks := []; pl_seen := ∅;
  pl_metadata_emitted := replicate (length layers) false
|}.

(** One span; [true] when the budget does not last. *)
Definition plan_span (voffset vlen span_pages : Z) : plan (option (list (Z * Z * Z)) * bool) :=
  let mappings := (li_lookup index (mkSeg (voffset / SECTOR_BYTES) (wrap32 (vlen / SECTOR_BYTES))) []).1 in
  let! r := elift (resolve_span_blocks mappings [] false) in
  let '(span_blocks, backed) := r in
  if negb backed then
    let! _ := emodify (set_stats (add_pages 0 0 span_pages 0)) in
    eret (None, false)
  else
    let! r := stage_span span_blocks in
    match r with
    | Some resolved =>
        let! _ := emodify (set_stats (add_pages 0 span_pages 0 0)) in
        eret (Some resolved, false)
    | None =>
        let! _ := emodify (set_stats (add_pages 0 0 0 span_pages)) in
        eret (None, true)
    end.

Fixpoint ranges_loop (ranges : list (Z * Z)) (mem_virtual_size : Z) (truncated : bool) : plan unit :=
  match ranges with
  | [] => eret tt
  | (voffset, vlen) :: rest =>
      let! _ := elift (ensure ((0 <? vlen) && is_multiple_of voffset PLAN_PAGE_BYTES && is_multiple_of vlen PLAN_PAGE_BYTES
                               && (wrap64 (voffset + vlen) <=? mem_virtual_size)) OutOfRange) in
      let span_pages := vlen / PLAN_PAGE_BYTES in
      let! _ := emodify (set_stats (add_pages span_pages 0 0 0)) in
      if truncated then
        let! _ := emodify (set_stats (add_pages 0 0 0 span_pages)) in
        ranges_loop rest mem_virtual_size true
      else
        let! r := plan_span voffset vlen span_pages in
        ranges_loop rest mem_virtual_size r.2
  end.

(** The loop over pages, with what it reports of each. *)
Fixpoint pages_loop (pages : list Z) (mem_virtual_size : Z) (truncated : bool) (observed : list (Z * list (Z * Z * Z)))
  : plan (list (Z * list (Z * Z * Z))) :=
  match pages with
  | [] => eret observed
  | page :: rest =>
      if truncated then
        let! _ := emodify (set_stats (add_pages 0 0 0 1)) in
        pages_loop rest mem_virtual_size true observed
      else
        let voffset := page * PLAN_PAGE_BYTES in
        let! _ := elift (ensure (voffset + PLAN_PAGE_BYTES <=? mem_virtual_size) OutOfRange) in
        let! r := plan_span voffset PLAN_PAGE_BYTES 1 in
        match r with
        | (Some resolved, _) => pages_loop rest mem_virtual_size false (observed ++ [(page, resolved)])
        | (None, false) => pages_loop rest mem_virtual_size false (observed ++ [(page, [])])
        | (None, true) => pages_loop rest mem_virtual_size true observed
        end
  end.

(** The checks before a plan is made. *)
Definition plan_checks : result plan_error unit :=
  let? _ := ensure (negb (is_nil layers)) NoFinalLayers in
  let? _ := ensure (zlen layers <=? 2 ^ 16) TooManyLayers in
  ensure (forallb (λ l, 0 <? fl_size l) layers) ZeroSize.

Definition plan_ranges (ranges : list (Z * Z)) (mem_virtual_size : Z) : result plan_error PackPlan :=
  let? _ := plan_checks in
  match ranges_loop ranges mem_virtual_size false planner_new with
  | (p, Ok _) => Ok (finish p)
  | (_, Err e) => Err e
  end.

Definition plan_blocks_with_observer (pages : list Z) (mem_virtual_size : Z)
  : result plan_error (PackPlan * list (Z * list (Z * Z * Z))) :=
  let? _ := plan_checks in
  match (let! _ := emodify (set_stats (add_pages (zlen pages) 0 0 0)) in pages_loop pages mem_virtual_size false []) planner_new with
  | (p, Ok observed) => Ok (finish p, observed)
  | (_, Err e) => Err e
  end.
End Planner.

(** ** What a plan is for *)

(** The bytes of the object that hold the byte [p] of the layer file. *)
Definition object_extent (l : FinalLayer) (p : Z) : option (Z * Z) :=
  match fl_layout l with
  | LRaw tar_base => Some (p + tar_base, 1)
  | LZFile zfile tar_base =>
      match compressed_block_extent zfile p with
      | Ok (c_off, c_len) => Some (c_off + tar_base, c_len)
      | Err _ => None
      end
  end.

Definition holds (l : FinalLayer) (p b : Z) : Prop :=
  ∃ o n q, object_extent l p = Some (o, n) ∧ o ≤ q < o + n ∧ b = q / OBJECT_BLOCK_BYTES.

(** A layer whose bytes lie in its object. *)
Record layer_fits (l : FinalLayer) : Prop := {
  lf_size : 0 < fl_size l ≤ 2 ^ 50;
  lf_file : PLAN_PAGE_BYTES ≤ fl_file_size l < 2 ^ 63;
  lf_index : 0 ≤ fl_index_offset l;
  lf_zblock : ∀ z tar_base, fl_layout l = LZFile z tar_base → 0 < co_block_size (ro_options z);
  lf_tar : 0 ≤ match fl_layout l with LRaw tar_base | LZFile _ tar_base => tar_base end;
  lf_extent : ∀ p, 0 ≤ p < fl_file_size l → ∃ o n, object_extent l p = Some (o, n) ∧ 0 ≤ o ∧ 0 < n ∧ o + n ≤ fl_size l
}.

Lemma push_aligned_spec off len size out : 0 ≤ off → 0 < len → off + len ≤ size → 0 < size ≤ 2 ^ 50 →
  ∃ bl, push_aligned_blocks off len size out = Ok (out ++ bl) ∧ ∀ b, b ∈ bl ↔ ∃ q, off ≤ q < off + len ∧ b = q / OBJECT_BLOCK_BYTES.
Proof.
  intros Ho Hl Hin Hs. unfold push_aligned_blocks. rewrite (proj2 (Z.ltb_lt 0 len)) by done. cbn [ensure rbind]. rewrite wrap64_small by lia.
  change OBJECT_BLOCK_BYTES with 262144. pose proof (div_ceil_bounds size 262144 ltac:(done)) as Hc. unfold saturating_sub.
  set (n := Z.min _ _ - _ + 1).
  assert (n = (off + len - 1) / 262144 - off / 262144 + 1) as En.
  { unfold n. rewrite Z.min_l; [done|]. apply Z.max_le_iff. right. dlia. }
  assert (∀ b, b ∈ seqZ (off / 262144) n ↔ ∃ q, off ≤ q < off + len ∧ b = q / 262144) as Hb.
  { intros b. rewrite elem_of_seqZ, En. split.
    - intros Hb. exists (Z.max off (b * 262144)). dlia.
    - intros (q & Hq & ->). dlia. }
  exists (seqZ (off / 262144) n). split; [|done].
  assert (forallb (λ block, block <=? U32_MAX) (seqZ (off / 262144) n) = true) as ->; [|done].
  apply forallb_forall. intros b Hb'%list_elem_of_In. apply Hb in Hb' as (q & Hq & ->). apply Z.leb_le. unfold U32_MAX. dlia.
Qed.

Lemma extent_same_block z p q : p / co_block_size (ro_options z) = q / co_block_size (ro_options z) →
  compressed_block_extent z p = compressed_block_extent z q.
Proof. intros E. unfold compressed_block_extent. by rewrite E. Qed.

Lemma map_zfile_spec l z tar_base idxs : layer_fits l → fl_layout l = LZFile z tar_base →
  Forall (λ idx, 0 ≤ idx * co_block_size (ro_options z) < fl_file_size l) idxs → ∀ out,
  ∃ bl, map_zfile_blocks z tar_base (fl_size l) idxs out = Ok (out ++ bl)
    ∧ ∀ b, b ∈ bl ↔ ∃ idx, idx ∈ idxs ∧ holds l (idx * co_block_size (ro_options z)) b.
Proof.
  intros Hl Hz. induction 1 as [|idx idxs Hi _ IH]; intros out; cbn [map_zfile_blocks].
  { exists []. rewrite app_nil_r. split; [done|]. intros b. split; [by intros ?%not_elem_of_nil|by intros (? & ?%not_elem_of_nil & _)]. }
  destruct (lf_extent l Hl _ Hi) as (o & n & He & Ho & Hn & Hon). pose proof (lf_file l Hl). pose proof (lf_size l Hl).
  pose proof He as He'. unfold object_extent in He'. rewrite Hz in He'. rewrite wrap64_small by lia.
  destruct (compressed_block_extent _ _) as [[c_off c_len]|]; [|done]. injection He' as <- <-. rewrite wrap64_small by lia.
  destruct (push_aligned_spec (c_off + tar_base) c_len (fl_size l) out) as (bl & -> & Hb); [done..|]. cbn [rbind].
  destruct (IH (out ++ bl)) as (bl' & -> & Hb'). exists (bl ++ bl'). rewrite app_assoc. split; [done|].
  intros b. rewrite elem_of_app, Hb, Hb'. setoid_rewrite elem_of_cons. split.
  - intros [(q & Hq & ->)|(i & Hi' & Hh)]; [|by exists i; auto]. exists idx. split; [by left|]. by exists (c_off + tar_base), c_len, q.
  - intros (i & [->|Hi'] & Hh); [left|right; by exists i]. destruct Hh as (o & n & q & He' & Hq & ->). rewrite He in He'.
    injection He' as <- <-. by exists q.
Qed.

(** Mapping an extent gives the blocks that hold its bytes. *)
Lemma map_extent_spec l off len out : layer_fits l → 0 ≤ off → 0 < len → off + len ≤ fl_file_size l →
  ∃ bl, map_extent_blocks (fl_layout l) off len (fl_size l) out = Ok (out ++ bl)
    ∧ ∀ b, b ∈ bl ↔ ∃ p, off ≤ p < off + len ∧ holds l p b.
Proof.
  intros Hl Ho Hlen Hend. unfold map_extent_blocks. destruct (Z.eqb_spec len 0) as [E0|E0]; [lia|]. pose proof (lf_size l Hl). pose proof (lf_file l Hl).
  destruct (fl_layout l) as [tb|z tb] eqn:Hlay.
  - assert (∀ p, object_extent l p = Some (p + tb, 1)) as He by (intros; unfold object_extent; by rewrite Hlay).
    pose proof (lf_tar l Hl) as Ht. rewrite Hlay in Ht.
    assert (off + len + tb ≤ fl_size l) as Hin.
    { destruct (lf_extent l Hl (off + len - 1)) as (o & n & E & _ & _ & Hs); [lia|]. rewrite He in E. injection E as <- <-. lia. }
    rewrite wrap64_small by lia. destruct (push_aligned_spec (off + tb) len (fl_size l) out) as (bl & -> & Hb); [lia..|].
    exists bl. split; [done|]. intros b. rewrite Hb. unfold holds. setoid_rewrite He. split.
    + intros (q & Hq & ->). exists (q - tb). split; [lia|]. exists (q - tb + tb), 1, q. split; [done|]. split; [lia|done].
    + intros (p & Hp & o & n & q & [= <- <-] & Hq & ->). exists q. split; [lia|done].
  - pose proof (lf_zblock l Hl z tb Hlay) as Hz. destruct (Z.eqb_spec (co_block_size (ro_options z)) 0) as [Ez|Ez]; [lia|]. cbn [negb ensure rbind].
    rewrite (wrap64_small (off + len - 1)) by lia. set (bs := co_block_size (ro_options z)) in *.
    assert (∀ i, i ∈ seqZ (off / bs) ((off + len - 1) / bs - off / bs + 1) ↔ ∃ p, off ≤ p < off + len ∧ p / bs = i) as Hi.
    { intros i. rewrite elem_of_seqZ. split.
      - intros Hi. exists (Z.max off (i * bs)). pose proof (Z.mul_div_le (off + len - 1) bs Hz).
        pose proof (Z.mul_succ_div_gt off bs Hz). split; [split; [lia|]; apply Z.max_lub_lt; nia|].
        destruct (Z.max_spec off (i * bs)) as [[? ->]|[? ->]]; [by apply Z.div_mul; lia|].
        pose proof (Z.div_le_mono (i * bs) off bs Hz ltac:(lia)) as Hd. rewrite Z.div_mul in Hd by lia. lia.
      - intros (p & Hp & <-). pose proof (Z.div_le_mono off p bs Hz ltac:(lia)). pose proof (Z.div_le_mono p (off + len - 1) bs Hz ltac:(lia)). lia. }
    destruct (map_zfile_spec l z tb (seqZ (off / bs) ((off + len - 1) / bs - off / bs + 1)) Hl Hlay) with (out := out) as (bl & -> & Hb).
    { apply Forall_forall. intros i (p & Hp & <-)%Hi. fold bs. pose proof (Z.mul_div_le p bs Hz). pose proof (Z.div_pos p bs). nia. }
    exists bl. split; [done|]. intros b. rewrite Hb. setoid_rewrite Hi. fold bs.
    assert (∀ p, holds l (p / bs * bs) b ↔ holds l p b) as Hsame.
    { intros p. unfold holds, object_extent. rewrite Hlay. rewrite (extent_same_block z (p / bs * bs) p); [done|]. fold bs. by rewrite Z.div_mul by lia. }
    split; [intros (i & (p & Hp & <-) & Hh); exists p; split; [done|by apply Hsame]|].
    intros (p & Hp & Hh). exists (p / bs). split; [by exists p|by apply Hsame].
Qed.

(** ** The blocks of a span *)

Section Plan.
Context {I : Type} `{HI : !LogIndex I, !LogIndexSpec I} (layers : list FinalLayer) (index : I) (budget : Z).
Context (Hfits : Forall layer_fits layers) (Hindex : li_wf index).

(** The layer of a tag: tags count from the top. *)
Definition layer_of (t : Z) : nat := Z.to_nat (zlen layers - 1 - t).

(** What the index finds lies in the layer files. *)
Definition index_fits : Prop := ∀ x loc ph, li_view index x = Some loc → loc_phys loc = Some ph →
  0 ≤ loc_tag loc < zlen layers ∧ 0 ≤ ph ∧ ∃ l, layers !! layer_of (loc_tag loc) = Some l ∧ (ph + 1) * SECTOR_BYTES ≤ fl_file_size l.
Context (Hphys : index_fits).

(** The block [b] of the object of a layer holds a byte that reading the sectors [a .. e) needs. *)
Definition sector_needs (a e : Z) (li : nat) (b : Z) : Prop :=
  ∃ x loc ph l p, a ≤ x < e ∧ li_view index x = Some loc ∧ loc_phys loc = Some ph ∧ li = layer_of (loc_tag loc)
    ∧ layers !! li = Some l ∧ ph * SECTOR_BYTES ≤ p < (ph + 1) * SECTOR_BYTES ∧ holds l p b.

Definition needed (r : Z * Z) : nat → Z → Prop := sector_needs (r.1 / SECTOR_BYTES) (r.1 / SECTOR_BYTES + r.2 / SECTOR_BYTES).

Lemma sector_needs_empty a li b : ¬ sector_needs a a li b.
Proof. intros (x & loc & ph & l & p & Hx & _). lia. Qed.

Lemma sector_needs_split a m e li b : a ≤ m ≤ e → sector_needs a e li b ↔ sector_needs a m li b ∨ sector_needs m e li b.
Proof.
  intros Hm. split.
  - intros (x & loc & ph & l & p & Hx & H). destruct (decide (x < m)); [left|right]; exists x, loc, ph, l, p; (split; [lia|done]).
  - intros [(x & loc & ph & l & p & Hx & H)|(x & loc & ph & l & p & Hx & H)]; exists x, loc, ph, l, p; (split; [lia|done]).
Qed.

(** One mapping. *)
Lemma mapping_needs m li b : wf_mapping m → (∀ x, covers m x = true → li_view index x = Some (loc_at m x)) →
  sector_needs (sm_offset m) (sm_offset m + sm_length m) li b
  ↔ has_physical_range m = true ∧ li = layer_of (tag m) ∧ ∃ l p, layers !! li = Some l
    ∧ moffset m * SECTOR_BYTES ≤ p < (moffset m + sm_length m) * SECTOR_BYTES ∧ holds l p b.
Proof.
  intros Hm Hv. split.
  - intros (x & loc & ph & l & p & Hx & E & Eph & -> & El & Hp & Hh). rewrite Hv in E by (apply covers_iff; lia). injection E as <-.
    cbn in *. destruct (has_physical_range m); [|done]. injection Eph as <-. split; [done|]. split; [done|]. exists l, p.
    split; [done|]. split; [unfold SECTOR_BYTES in *; lia|done].
  - intros (Hph & -> & l & p & El & Hp & Hh). unfold SECTOR_BYTES in *. exists (sm_offset m + (p / 512 - moffset m)), (loc_at m (sm_offset m + (p / 512 - moffset m))), (p / 512), l, p.
    assert (moffset m ≤ p / 512 < moffset m + sm_length m) as Hb by dlia. split; [lia|].
    split; [apply Hv, covers_iff; lia|]. cbn. rewrite Hph. split; [f_equal; lia|]. split; [done|]. split; [done|]. split; [unfold SECTOR_BYTES; dlia|done].
Qed.

Lemma resolve_spec mappings : ∀ a e out backed, a ≤ e → tiles (li_view index) a e mappings →
  ∃ blocks, resolve_span_blocks layers mappings out backed = Ok (out ++ blocks, backed || existsb has_physical_range mappings)
    ∧ ∀ li b, (li, b) ∈ blocks ↔ sector_needs a e li b.
Proof.
  induction mappings as [|m mappings IH]; intros a e out backed Hae Ht.
  { exists []. rewrite app_nil_r, orb_false_r. split; [done|]. intros li b. split; [by intros ?%not_elem_of_nil|].
    intros (x & loc & ph & l & p & Hx & E & _). destruct Ht as (_ & _ & Hv). by rewrite <- Hv in E by lia. }
  pose proof Ht as (_ & _ & Hvall). apply tiles_cons in Ht as (Hm & Ho & He & Hv & Ht).
  assert (∀ li b, sector_needs a e li b ↔ sector_needs (sm_offset m) (sm_offset m + sm_length m) li b
    ∨ sector_needs (sm_offset m + sm_length m) e li b) as Hsplit.
  { intros li b. wf_facts. rewrite (sector_needs_split a (sm_offset m) e), (sector_needs_split (sm_offset m) (sm_offset m + sm_length m) e) by lia.
    split; [intros [Hn|?]; [|done]|by right]. destruct Hn as (x & loc & ph & l & p & Hx & E & _). exfalso.
    rewrite <- Hvall in E by lia. cbn [view] in E. destruct (covers m x) eqn:Ec; [apply covers_iff in Ec; lia|].
    rewrite view_below in E; [done|]. intros m' Hm'. destruct Ht as (_ & Hin & _). specialize (Hin m' Hm'). lia. }
  cbn [resolve_span_blocks existsb]. wf_facts. destruct (has_physical_range m) eqn:Hph; cbn [negb].
  - assert (∀ x, covers m x = true → 0 ≤ tag m < zlen layers ∧ 0 ≤ moffset m + (x - sm_offset m) ∧
      ∃ l, layers !! layer_of (tag m) = Some l ∧ (moffset m + (x - sm_offset m) + 1) * SECTOR_BYTES ≤ fl_file_size l) as Hx.
    { intros x Hx. apply (Hphys x (loc_at m x) _ (Hv x Hx)). cbn. by rewrite Hph. }
    destruct (Hx (sm_offset m)) as (Htag & Hm0 & _); [apply covers_iff; lia|].
    destruct (Hx (sm_offset m + sm_length m - 1)) as (_ & _ & l & El & Hend); [apply covers_iff; lia|].
    rewrite (proj2 (Z.ltb_lt (tag m) _)) by lia. cbn [ensure rbind]. unfold get_layer. fold (layer_of (tag m)). rewrite El. cbn [rbind].
    rewrite Forall_forall in Hfits. assert (layer_fits l) as Hl by (by eapply Hfits, list_elem_of_lookup_2).
    pose proof (lf_file l Hl). rewrite wrap64_small by (unfold SECTOR_BYTES in *; lia).
    destruct (map_extent_spec l (moffset m * SECTOR_BYTES) (sm_length m * SECTOR_BYTES) []) as (bl & -> & Hb);
      [done|unfold SECTOR_BYTES in *; lia..|]. cbn [rbind app].
    destruct (IH (sm_offset m + sm_length m) e (out ++ ((λ b, (layer_of (tag m), b)) <$> bl)) true He Ht) as (blocks & -> & Hbl).
    exists (((λ b, (layer_of (tag m), b)) <$> bl) ++ blocks). rewrite app_assoc, !orb_true_r. split; [done|]. intros li b.
    rewrite elem_of_app, Hbl, Hsplit. apply or_iff_compat_r. rewrite mapping_needs, list_elem_of_fmap by done. split.
    + intros (b' & [= -> ->] & Hb')%id. apply Hb in Hb' as (p & Hp & Hh). split; [done|]. split; [done|]. exists l, p. split; [done|]. split; [lia|done].
    + intros (_ & -> & l' & p & El' & Hp & Hh). assert (l' = l) as -> by congruence. exists b. split; [done|]. apply Hb. exists p. split; [lia|done].
  - destruct (IH (sm_offset m + sm_length m) e out backed He Ht) as (blocks & -> & Hbl). exists blocks. split; [done|].
    intros li b. rewrite Hbl, Hsplit, mapping_needs by done. rewrite Hph. naive_solver.
Qed.

(** ** Staging *)

Context (Hcount : zlen layers ≤ 2 ^ 16).

Definition key_of (blk : PlannedBlock) : Z * Z := (pb_object blk, pb_block_id blk).
Definition keys (p : Planner) : list (Z * Z) := key_of <$> pl_blocks p.

(** The object [idx] is that of the layer [li]. *)
Definition object_at (p : Planner) (idx : Z) (li : nat) : Prop := pl_object_of_layer p !! li = Some (Some idx).

Definition has (p : Planner) (ks : list (Z * Z)) (li : nat) (b : Z) : Prop := ∃ idx, object_at p idx li ∧ (idx, b) ∈ ks.

Record pinv (p : Planner) : Prop := {
  pi_len : length (pl_object_of_layer p) = length layers;
  pi_emitted : length (pl_metadata_emitted p) = length layers;
  pi_object : ∀ li idx, object_at p idx li ↔ 0 ≤ idx ∧ ∃ o, pl_objects p !! Z.to_nat idx = Some o ∧ po_layer o = li;
  pi_seen : ∀ k, is_Some (pl_seen p !! k) ↔ k ∈ keys p;
  pi_digest : Forall (λ o, fl_digest <$> layers !! po_layer o = Some (po_digest o)) (pl_objects p)
}.

Record staging (p : Planner) (staged : list (Z * Z * bool)) : Prop := {
  sg_inv : pinv p;
  sg_once : NoDup (keys p ++ staged.*1);
  sg_object : ∀ k, k ∈ keys p ++ staged.*1 → ∃ li, object_at p k.1 li
}.

Record ext (p p' : Planner) : Prop := {
  ex_blocks : pl_blocks p' = pl_blocks p;
  ex_seen : pl_seen p' = pl_seen p;
  ex_spent : pl_spent p' = pl_spent p;
  ex_truncated : ps_pages_truncated (pl_stats p') = ps_pages_truncated (pl_stats p);
  ex_objects : ∃ new, pl_objects p' = pl_objects p ++ new;
  ex_at : ∀ idx li, object_at p idx li → object_at p' idx li
}.

Lemma ext_refl p : ext p p.
Proof. split; try done. exists []. by rewrite app_nil_r. Qed.

Lemma ext_trans p1 p2 p3 : ext p1 p2 → ext p2 p3 → ext p1 p3.
Proof.
  intros [B1 S1 P1 T1 (n1 & O1) A1] [B2 S2 P2 T2 (n2 & O2) A2]. split; try congruence; [|eauto].
  exists (n1 ++ n2). by rewrite O2, O1, app_assoc.
Qed.

Lemma ext_keys p p' : ext p p' → keys p' = keys p.
Proof. intros [B _ _ _ _ _]. unfold keys. by rewrite B. Qed.

Lemma object_at_inj p idx li li' : pinv p → object_at p idx li → object_at p idx li' → li = li'.
Proof.
  intros Hp (H0 & o & Ho & <-)%(pi_object _ Hp) (_ & o' & Ho' & <-)%(pi_object _ Hp). congruence.
Qed.

(** Blocks keep their layers. *)
Lemma has_ext p p' ks li b : pinv p' → ext p p' → (∀ k, k ∈ ks → ∃ li, object_at p k.1 li) → has p ks li b ↔ has p' ks li b.
Proof.
  intros Hp' He Hks. split; intros (idx & Ha & Hin); exists idx; (split; [|done]); [by apply (ex_at _ _ He)|].
  destruct (Hks _ Hin) as [li' Ha']. cbn in Ha'. by rewrite (object_at_inj p' idx li li' Hp' Ha (ex_at _ _ He _ _ Ha')).
Qed.

Lemma object_at_lookup p i o : pinv p → pl_objects p !! i = Some o → object_at p (Z.of_nat i) (po_layer o).
Proof. intros Hp Ho. apply (pi_object _ Hp). split; [lia|]. exists o. by rewrite Nat2Z.id. Qed.

(** Objects have different layers. *)
Lemma objects_distinct p : pinv p → NoDup (po_layer <$> pl_objects p).
Proof.
  intros Hp. apply NoDup_alt. intros i j x. rewrite !list_lookup_fmap.
  destruct (_ !! i) as [o|] eqn:Ei, (_ !! j) as [o'|] eqn:Ej; cbn; try done. intros [= <-] [= E].
  apply (object_at_lookup p) in Ei, Ej; [|done..]. rewrite E in Ej. unfold object_at in *. assert (Z.of_nat i = Z.of_nat j) by congruence. lia.
Qed.

(** There are fewer objects than layers while a layer has none. *)
Lemma objects_fewer p li : pinv p → pl_object_of_layer p !! li = Some None → zlen (pl_objects p) < zlen layers.
Proof.
  intros Hp Hli. pose proof (lookup_lt_Some _ _ _ Hli) as Hlt. rewrite (pi_len _ Hp) in Hlt.
  pose proof (λ i o, object_at_lookup p i o Hp) as Hat.
  assert (NoDup (li :: (po_layer <$> pl_objects p))) as Hnd.
  { apply NoDup_cons. split; [|by apply objects_distinct].
    intros (o & -> & [i Ho]%list_elem_of_lookup)%list_elem_of_fmap. apply Hat in Ho. unfold object_at in Ho. congruence. }
  apply NoDup_ListNoDup in Hnd. apply (List.NoDup_incl_length (l' := seq 0 (length layers))) in Hnd; [|intros x Hx].
  - cbn in Hnd. rewrite length_fmap, length_seq in Hnd. unfold zlen. lia.
  - apply list_elem_of_In in Hx. apply list_elem_of_In, elem_of_seq. cbn. split; [lia|].
    apply elem_of_cons in Hx as [->|(o & -> & [i Ho]%list_elem_of_lookup)%list_elem_of_fmap]; [done|].
    apply Hat in Ho. apply lookup_lt_Some in Ho. by rewrite (pi_len _ Hp) in Ho.
Qed.

Lemma object_for_spec p li : pinv p → (li < length layers)%nat →
  ∃ p' idx, object_for layers li p = (p', Ok idx) ∧ pinv p' ∧ ext p p' ∧ object_at p' idx li
    ∧ pl_metadata_emitted p' = pl_metadata_emitted p ∧ (∀ idx' li', object_at p' idx' li' → object_at p idx' li' ∨ li' = li).
Proof.
  intros Hp Hli. unfold object_for, planner, ebind. destruct (lookup_lt_is_Some_2 (pl_object_of_layer p) li) as [[idx|] Ho]; [by rewrite (pi_len _ Hp)|..];
    rewrite Ho.
  { exists p, idx. split_and!; [done|done|apply ext_refl|done|done|by left]. }
  pose proof (objects_fewer p li Hp Ho) as Hfew. rewrite (proj2 (Z.ltb_lt _ (2 ^ 16))) by lia. cbn [elift ensure].
  unfold get_layer, elift. destruct (lookup_lt_is_Some_2 layers li Hli) as [l El]. rewrite El. unfold emodify, eret.
  eexists _, _. split; [done|]. assert (pl_object_of_layer p !! li = Some None) as Ho' by done. set (p' := set_objects _ _ p).
  assert (∀ idx li', object_at p' idx li' ↔ (li' = li ∧ idx = zlen (pl_objects p)) ∨ object_at p idx li') as Hat.
  { intros idx li'. unfold object_at, p'. cbn. destruct (decide (li' = li)) as [->|Hne].
    - rewrite list_lookup_insert_eq by (by apply lookup_lt_Some in Ho). rewrite Ho'. naive_solver.
    - rewrite list_lookup_insert_ne by done. naive_solver. }
  split_and!; [| |by apply Hat; left|done|intros idx' li' [[? _]|?]%Hat; auto].
  - split; [unfold p'; cbn; rewrite length_insert; apply (pi_len _ Hp)|apply (pi_emitted _ Hp)| |apply (pi_seen _ Hp)|].
    2: { apply Forall_app. split; [apply (pi_digest _ Hp)|]. constructor; [cbn; by rewrite El|done]. }
    intros li' idx. rewrite Hat, (pi_object _ Hp). unfold p'. cbn [pl_objects set_objects]. split.
    + intros [[-> ->]|(H0 & o & Hlk & Hl)]; [|split; [done|]; exists o; split; [by apply lookup_app_l_Some|done]].
      split; [apply zlen_nonneg|]. eexists. rewrite lookup_app_r by (unfold zlen; lia). unfold zlen. rewrite Nat2Z.id, Nat.sub_diag. by split.
    + intros (H0 & o & Hlk & Hl). destruct (decide (Z.to_nat idx < length (pl_objects p))%nat) as [Hlt|Hge].
      * right. split; [done|]. exists o. by rewrite lookup_app_l in Hlk by done.
      * left. rewrite lookup_app_r in Hlk by lia. apply list_lookup_singleton_Some in Hlk as [E <-]. cbn in Hl. split; [done|]. unfold zlen. lia.
  - split; try done; [by eexists|]. intros idx li' Ha. apply Hat. by right.
Qed.

(** The step from [p] and [staged] to [p'] and [staged'] stages the blocks [S]. *)
Record stages (S : nat → Z → Prop) (p : Planner) (staged : list (Z * Z * bool)) (p' : Planner) (staged' : list (Z * Z * bool)) : Prop := {
  st_staging : staging p' staged';
  st_ext : ext p p';
  st_prefix : ∀ k, k ∈ staged.*1 → k ∈ staged'.*1;
  st_covers : ∀ li b, S li b → has p' (keys p' ++ staged'.*1) li b;
  st_only : ∀ k, k ∈ staged'.*1 → k ∈ staged.*1 ∨ ∃ li, object_at p' k.1 li ∧ S li k.2;
  st_layers : ∀ idx li, object_at p' idx li → object_at p idx li ∨ ∃ b, S li b
}.

Lemma stages_nil p staged : staging p staged → stages (λ _ _, False) p staged p staged.
Proof. intros H. split; try done; [apply ext_refl|by left|by left]. Qed.

Lemma stages_stats f S p staged p' staged' : (∀ s, ps_pages_truncated (f s) = ps_pages_truncated s) → stages S p staged p' staged' → stages S p staged (set_stats f p') staged'.
Proof. intros Hf [[[? ? ? ? ?] ? ?] [? ? ? ? ? ?] ? ? ? ?]. split; try done; split; try done. cbn. by rewrite Hf. Qed.

Lemma has_mono p p' ks ks' li b : (∀ idx li, object_at p idx li → object_at p' idx li) → ks ⊆ ks' → has p ks li b → has p' ks' li b.
Proof. intros Ha Hks (idx & Hat & Hin). exists idx. split; [by apply Ha|by apply Hks]. Qed.

Lemma stages_trans S1 S2 p s p1 s1 p2 s2 : stages S1 p s p1 s1 → stages S2 p1 s1 p2 s2 → stages (λ li b, S1 li b ∨ S2 li b) p s p2 s2.
Proof.
  intros [G1 E1 P1 C1 O1 L1] [G2 E2 P2 C2 O2 L2]. split; [done|by eapply ext_trans|auto| | |].
  - intros li b [H1|H2]; [|by apply C2]. eapply has_mono; [apply (ex_at _ _ E2)| |by apply C1].
    rewrite (ext_keys _ _ E2). intros k. rewrite !elem_of_app. intros [?|?]; [by left|right; auto].
  - intros k [Hk|(li & Ha & Hs)]%O2; [|right; exists li; auto]. apply O1 in Hk as [Hk|(li & Ha & Hs)]; [by left|].
    right. exists li. split; [by apply (ex_at _ _ E2)|by left].
  - intros idx li [[?|[b ?]]%L1|[b ?]]%L2; [by left|right; exists b; by left|right; exists b; by right].
Qed.

Lemma stages_iff S S' p s p' s' : (∀ li b, S li b ↔ S' li b) → stages S p s p' s' → stages S' p s p' s'.
Proof.
  intros HS [G E P C O L]. split; try done; [intros li b ?%HS; by apply C| |].
  - intros k [Hk|(li & Ha & Hs)]%O; [by left|]. right. exists li. split; [done|by apply HS].
  - intros idx li [?|[b ?%HS]]%L; [by left|right; by exists b].
Qed.

Lemma stage_block_spec p staged li b : staging p staged → (li < length layers)%nat →
  ∃ p' r, stage_block layers li b staged p = (p', Ok r) ∧ pl_metadata_emitted p' = pl_metadata_emitted p
    ∧ ∀ md, stages (λ li' b', li' = li ∧ b' = b) p staged p' (staged ++ match r with Some s => [(s.1, md)] | None => [] end).
Proof.
  intros [Hp Hnd Hobj] Hli. destruct (object_for_spec p li Hp Hli) as (p' & idx & E & Hp' & He & Ha & Hem & Hnew).
  unfold stage_block. rewrite (ebind_ok _ _ _ _ _ E). unfold planner at 1, ebind. pose proof (ext_keys _ _ He) as Hk.
  set (t := bool_decide _ || existsb _ _).
  assert (t = true ↔ (idx, b) ∈ keys p ++ staged.*1) as Ht.
  { unfold t. rewrite orb_true_iff, bool_decide_eq_true, (pi_seen _ Hp'), Hk, elem_of_app, existsb_exists. apply or_iff_compat_l.
    rewrite list_elem_of_fmap. split; [intros (s & Hs%list_elem_of_In & E1%bool_decide_eq_true); by exists s|].
    intros (s & -> & Hs%list_elem_of_In). exists s. by rewrite bool_decide_true. }
  assert (∀ k, k ∈ keys p' ++ staged.*1 → ∃ li, object_at p' k.1 li) as Hobj'.
  { intros k. rewrite Hk. intros [li' Ha']%Hobj. exists li'. by apply (ex_at _ _ He). }
  assert (∀ idx' li', object_at p' idx' li' → object_at p idx' li' ∨ ∃ b', li' = li ∧ b' = b) as Hlay.
  { intros idx' li' [?| ->]%Hnew; [by left|right; by exists b]. }
  destruct t.
  - exists p', None. split; [done|]. split; [done|]. intros md. rewrite app_nil_r.
    split; [by split; [|rewrite Hk|]|done|done| |by left|done]. intros li' b' [-> ->]. exists idx. split; [done|]. rewrite Hk. by apply Ht.
  - exists p', (Some (idx, b, false)). split; [done|]. split; [done|]. intros md. cbn [fst].
    assert ((idx, b) ∉ keys p ++ staged.*1) as Hni by (intros Hin; by apply Ht in Hin).
    assert (keys p' ++ (staged ++ [(idx, b, md)]).*1 ≡ₚ (idx, b) :: keys p ++ staged.*1) as Hperm.
    { rewrite Hk, fmap_app. cbn. solve_Permutation. }
    split; [split; [done|by rewrite Hperm; apply NoDup_cons|]|done| | | |done].
    + intros k. rewrite Hperm. intros [->|Hin]%elem_of_cons; [by exists li|]. apply Hobj'. by rewrite Hk.
    + intros k Hin. rewrite fmap_app. apply elem_of_app. by left.
    + intros li' b' [-> ->]. exists idx. split; [done|]. rewrite Hperm. by left.
    + intros k. rewrite fmap_app. intros [?|Hk'%list_elem_of_singleton]%elem_of_app; [by left|]. right. exists li. by rewrite Hk'.
Qed.

Lemma stage_data_spec span : Forall (λ x : nat * Z, (x.1 < length layers)%nat) span → ∀ p staged, staging p staged →
  ∃ p' staged', stage_data layers span staged p = (p', Ok staged') ∧ pl_metadata_emitted p' = pl_metadata_emitted p
    ∧ stages (λ li b, (li, b) ∈ span) p staged p' staged'.
Proof.
  induction 1 as [|[li b] span Hli _ IH]; intros p staged Hs; cbn [stage_data].
  { exists p, staged. split; [done|]. split; [done|]. eapply stages_iff; [|by apply stages_nil]. intros. split; [done|by intros ?%not_elem_of_nil]. }
  destruct (stage_block_spec p staged li b Hs Hli) as (p1 & r & E & Hem & H1). rewrite (ebind_ok _ _ _ _ _ E). specialize (H1 false).
  destruct r as [[k md]|]; [unfold emodify, ebind; set (p1' := set_stats _ p1)|rewrite app_nil_r in H1; set (p1' := p1)].
  - assert (md = false) as ->.
    { unfold stage_block in E. apply ebind_inv in E as (? & idx & _ & E). unfold planner, eret, ebind in E. destruct (_ || _); congruence. }
    destruct (IH p1' (staged ++ [(k, false)])) as (p2 & s2 & -> & Hem2 & H2); [by apply (stages_stats (add_blocks 1 0)) in H1 as [? _]|].
    exists p2, s2. split; [done|]. split; [by rewrite Hem2|]. eapply stages_iff; [|eapply stages_trans; [|exact H2]; by apply stages_stats, H1].
    intros li' b'. cbn. rewrite elem_of_cons. naive_solver.
  - destruct (IH p1' staged) as (p2 & s2 & -> & Hem2 & H2); [apply H1|]. exists p2, s2. split; [done|]. split; [by rewrite Hem2|].
    eapply stages_iff; [|by eapply stages_trans]. intros li' b'. cbn. rewrite elem_of_cons. naive_solver.
Qed.

Lemma stage_metadata_loop_spec li blocks : (li < length layers)%nat → ∀ p staged, staging p staged →
  ∃ p' staged', stage_metadata_loop layers li blocks staged p = (p', Ok staged') ∧ pl_metadata_emitted p' = pl_metadata_emitted p
    ∧ stages (λ li' b, li' = li ∧ b ∈ blocks) p staged p' staged'.
Proof.
  intros Hli. induction blocks as [|b blocks IH]; intros p staged Hs; cbn [stage_metadata_loop].
  { exists p, staged. split; [done|]. split; [done|]. eapply stages_iff; [|by apply stages_nil]. intros. split; [done|by intros [_ ?%not_elem_of_nil]]. }
  destruct (stage_block_spec p staged li b Hs Hli) as (p1 & r & E & Hem & H1). rewrite (ebind_ok _ _ _ _ _ E). specialize (H1 true).
  destruct r as [s|]; [unfold emodify, ebind; set (p1' := set_stats _ p1)|rewrite app_nil_r in H1; set (p1' := p1)].
  - destruct (IH p1' (staged ++ [(s.1, true)])) as (p2 & s2 & -> & Hem2 & H2); [by apply (stages_stats (add_blocks 0 1)) in H1 as [? _]|].
    exists p2, s2. split; [done|]. split; [by rewrite Hem2|]. eapply stages_iff; [|eapply stages_trans; [|exact H2]; by apply stages_stats, H1].
    intros li' b'. cbn. rewrite elem_of_cons. naive_solver.
  - destruct (IH p1' staged) as (p2 & s2 & -> & Hem2 & H2); [apply H1|]. exists p2, s2. split; [done|]. split; [by rewrite Hem2|].
    eapply stages_iff; [|by eapply stages_trans]. intros li' b'. cbn. rewrite elem_of_cons. naive_solver.
Qed.

(** The metadata of a layer: its first page and what follows its data. *)
Definition meta (li : nat) (b : Z) : Prop :=
  ∃ l p, layers !! li = Some l ∧ (0 ≤ p < PLAN_PAGE_BYTES ∨ fl_index_offset l ≤ p < fl_file_size l) ∧ holds l p b.

Lemma metadata_blocks_spec li l : layers !! li = Some l → ∃ bl, metadata_blocks l = Ok bl ∧ ∀ b, b ∈ bl ↔ meta li b.
Proof.
  intros El. rewrite Forall_forall in Hfits. assert (layer_fits l) as Hl by (by eapply Hfits, list_elem_of_lookup_2).
  pose proof (lf_file l Hl) as Hf. pose proof (lf_index l Hl) as Hi. unfold metadata_blocks, saturating_sub.
  destruct (map_extent_spec l 0 PLAN_PAGE_BYTES [] Hl) as (bl & -> & Hb); [done|done|lia|]. cbn [rbind app].
  assert (∀ b, meta li b ↔ (∃ p, 0 ≤ p < PLAN_PAGE_BYTES ∧ holds l p b) ∨ (∃ p, fl_index_offset l ≤ p < fl_file_size l ∧ holds l p b)) as Hm.
  { intros b. split; [intros (l' & p & El' & [Hp|Hp] & Hh); assert (l' = l) as -> by congruence; [left|right]; by exists p|].
    intros [(p & Hp & Hh)|(p & Hp & Hh)]; exists l, p; auto. }
  destruct (Z.ltb_spec 0 (Z.max 0 (fl_file_size l - fl_index_offset l))).
  - destruct (map_extent_spec l (fl_index_offset l) (Z.max 0 (fl_file_size l - fl_index_offset l)) bl Hl) as (bl' & -> & Hb'); [lia..|].
    exists (bl ++ bl'). split; [done|]. intros b. rewrite elem_of_app, Hb, Hb', Hm. apply or_iff_compat_l.
    split; intros (p & Hp & Hh); exists p; (split; [lia|done]).
  - exists bl. split; [done|]. intros b. rewrite Hb, Hm. split; [by left|]. intros [?|(p & Hp & _)]; [done|lia].
Qed.

Lemma staging_emitted e p staged : length e = length layers → staging p staged → staging (set_emitted e p) staged.
Proof. intros He [[? ? ? ? ?] ? ?]. split; try done. Qed.

Lemma stage_metadata_spec p staged li : staging p staged → (li < length layers)%nat →
  ∃ p' staged', stage_metadata layers li staged p = (p', Ok staged') ∧ pl_metadata_emitted p' = <[li := true]> (pl_metadata_emitted p)
    ∧ stages (λ li' b, li' = li ∧ pl_metadata_emitted p !! li = Some false ∧ meta li b) p staged p' staged'.
Proof.
  intros Hs Hli. pose proof (pi_emitted _ (sg_inv _ _ Hs)) as Hlen. unfold stage_metadata, planner, ebind.
  destruct (lookup_lt_is_Some_2 (pl_metadata_emitted p) li) as [[] E]; [by rewrite Hlen|..]; rewrite E.
  { exists p, staged. split; [done|]. split; [by rewrite list_insert_id|]. eapply stages_iff; [|by apply stages_nil]. intros. split; [done|naive_solver]. }
  unfold emodify, elift, get_layer. destruct (lookup_lt_is_Some_2 layers li Hli) as [l El]. rewrite El.
  destruct (metadata_blocks_spec li l El) as (bl & -> & Hb). set (p0 := set_emitted _ p).
  assert (staging p0 staged) as Hs0 by (apply staging_emitted; [by rewrite length_insert|done]).
  destruct (stage_metadata_loop_spec li bl Hli p0 staged Hs0) as (p' & s' & -> & Hem & H). exists p', s'. split; [done|]. split; [done|].
  assert (stages (λ li' b, li' = li ∧ b ∈ bl) p staged p' s') as H'.
  { destruct H as [? [? ? ? ? ? ?] ? ? ? ?]. split; try done. }
  eapply stages_iff; [|exact H']. intros li' b. cbn beta. rewrite Hb. naive_solver.
Qed.

Lemma stage_layers_spec span : Forall (λ x : nat * Z, (x.1 < length layers)%nat) span → ∀ sl p staged, staging p staged →
  (∀ li, li ∈ sl → pl_metadata_emitted p !! li = Some true) →
  ∃ p' staged', stage_layers layers span sl staged p = (p', Ok staged')
    ∧ (∀ li, pl_metadata_emitted p' !! li = Some true ↔ pl_metadata_emitted p !! li = Some true ∨ li ∈ span.*1)
    ∧ stages (λ li b, li ∈ span.*1 ∧ pl_metadata_emitted p !! li = Some false ∧ meta li b) p staged p' staged'.
Proof.
  induction 1 as [|[li b] span Hli _ IH]; intros sl p staged Hs Hsl; cbn [stage_layers].
  { exists p, staged. split; [done|]. split; [intros; split; [by left|by intros [?|?%not_elem_of_nil]]|].
    eapply stages_iff; [|by apply stages_nil]. intros. split; [done|by intros [?%not_elem_of_nil _]]. }
  cbn [fst] in Hli. case_bool_decide as Hin.
  - destruct (IH sl p staged Hs Hsl) as (p' & s' & -> & Hem & H). exists p', s'. split; [done|]. specialize (Hsl li Hin). split.
    + intros li'. rewrite Hem, fmap_cons, elem_of_cons. naive_solver.
    + eapply stages_iff; [|exact H]. intros li' b'. cbn. rewrite elem_of_cons. split; [naive_solver|]. intros ([->|?] & Hf & Hm); [congruence|done].
  - destruct (stage_metadata_spec p staged li Hs Hli) as (p1 & s1 & E1 & Hem1 & H1). rewrite (ebind_ok _ _ _ _ _ E1).
    pose proof (pi_emitted _ (sg_inv _ _ Hs)) as Hlen.
    assert (∀ li', pl_metadata_emitted p1 !! li' = if decide (li' = li) then Some true else pl_metadata_emitted p !! li') as Hlk.
    { intros li'. rewrite Hem1. case_decide as E; [subst li'; apply list_lookup_insert_eq; by rewrite Hlen|by apply list_lookup_insert_ne]. }
    destruct (IH (sl ++ [li]) p1 s1) as (p2 & s2 & -> & Hem2 & H2); [apply H1| |].
    { intros li' [Hl|Hl%list_elem_of_singleton]%elem_of_app; rewrite Hlk; case_decide; auto. done. }
    exists p2, s2. split; [done|]. split.
    + intros li'. rewrite Hem2, Hlk, fmap_cons, elem_of_cons. cbn. case_decide; naive_solver.
    + eapply stages_iff; [|by eapply stages_trans]. intros li' b'. cbn. rewrite elem_of_cons, Hlk. case_decide; naive_solver.
Qed.

(** ** Committing and rolling back *)

Definition planned_block (s : Z * Z * bool) : PlannedBlock := {| pb_object := s.1.1; pb_block_id := s.1.2; pb_metadata := s.2 |}.

Lemma commit_spec staged : ∀ p, let p' := fold_left (λ p s, commit_block s p) staged p in
  pl_blocks p' = pl_blocks p ++ (planned_block <$> staged) ∧ pl_objects p' = pl_objects p
  ∧ pl_object_of_layer p' = pl_object_of_layer p ∧ pl_metadata_emitted p' = pl_metadata_emitted p
  ∧ pl_spent p' = pl_spent p ∧ pl_stats p' = pl_stats p
  ∧ ((∀ k, is_Some (pl_seen p !! k) ↔ k ∈ keys p) → ∀ k, is_Some (pl_seen p' !! k) ↔ k ∈ keys p').
Proof.
  induction staged as [|x staged IH]; intros p; cbn [fold_left]; [by rewrite app_nil_r; split_and!|].
  destruct (IH (commit_block x p)) as (-> & -> & -> & -> & -> & -> & Hs). split_and!; try done; [cbn; by rewrite <- app_assoc|].
  intros Hk. apply Hs. intros k. cbn [commit_block pl_seen keys pl_blocks]. unfold keys. cbn. rewrite fmap_app, elem_of_app.
  rewrite <- (Hk k). cbn. rewrite list_elem_of_singleton. unfold key_of. cbn. destruct x as [[o b] md]. cbn.
  destruct (decide (k = (o, b))) as [->|Hne]; [rewrite lookup_insert_eq; naive_solver|]. rewrite lookup_insert_ne by done. naive_solver.
Qed.

(** What a span leads to. *)
Definition span_wants (p : Planner) (span : list (nat * Z)) (li : nat) (b : Z) : Prop :=
  (li, b) ∈ span ∨ (li ∈ span.*1 ∧ pl_metadata_emitted p !! li = Some false ∧ meta li b).

Record committed (p p' : Planner) (span : list (nat * Z)) (staged : list (Z * Z * bool)) : Prop := {
  cm_staging : staging p' [];
  cm_blocks : pl_blocks p' = pl_blocks p ++ (planned_block <$> staged);
  cm_at : ∀ idx li, object_at p idx li → object_at p' idx li;
  cm_has : ∀ li b, has p' (keys p') li b ↔ has p (keys p) li b ∨ span_wants p span li b;
  cm_emitted : ∀ li, pl_metadata_emitted p' !! li = Some true ↔ pl_metadata_emitted p !! li = Some true ∨ li ∈ span.*1;
  cm_truncated : ps_pages_truncated (pl_stats p') = ps_pages_truncated (pl_stats p);
  cm_staged : ∃ p2 new, stages (span_wants p span) p [] p2 staged ∧ pl_objects p2 = pl_objects p ++ new
    ∧ pl_objects p' = pl_objects p2 ∧ pl_object_of_layer p' = pl_object_of_layer p2
    ∧ pl_spent p' = pl_spent p + staged_bytes new staged;
  cm_budget : pl_spent p' ≤ budget
}.

Record rolled_back (p p' : Planner) (span : list (nat * Z)) : Prop := {
  rb_staging : staging p' [];
  rb_blocks : pl_blocks p' = pl_blocks p;
  rb_at : ∀ idx li, object_at p' idx li ↔ object_at p idx li;
  rb_objects : pl_objects p' = pl_objects p;
  rb_spent : pl_spent p' = pl_spent p;
  rb_truncated : ps_pages_truncated (pl_stats p') = ps_pages_truncated (pl_stats p);
  rb_over : ∃ p2 staged new, stages (span_wants p span) p [] p2 staged ∧ pl_objects p2 = pl_objects p ++ new
    ∧ budget < pl_spent p + staged_bytes new staged
}.

Lemma span_staged p span : Forall (λ x : nat * Z, (x.1 < length layers)%nat) span → staging p [] →
  ∃ p1 s1 p2 s2, stage_layers layers span [] [] p = (p1, Ok s1) ∧ stage_data layers span s1 p1 = (p2, Ok s2)
    ∧ stages (span_wants p span) p [] p2 s2
    ∧ (∀ li, pl_metadata_emitted p2 !! li = Some true ↔ pl_metadata_emitted p !! li = Some true ∨ li ∈ span.*1).
Proof.
  intros Hspan Hs. destruct (stage_layers_spec span Hspan [] p [] Hs) as (p1 & s1 & E1 & Hem1 & H1); [by intros li ?%not_elem_of_nil|].
  destruct (stage_data_spec span Hspan p1 s1) as (p2 & s2 & E2 & Hem2 & H2); [apply H1|].
  exists p1, s1, p2, s2. split_and!; try done; [|by rewrite Hem2].
  eapply stages_iff; [|by eapply stages_trans]. intros li b. unfold span_wants. cbn. tauto.
Qed.

(** The staged blocks are committed. *)
Lemma commit_staged_ok p p2 span staged new : staging p [] → stages (span_wants p span) p [] p2 staged →
  (∀ li, pl_metadata_emitted p2 !! li = Some true ↔ pl_metadata_emitted p !! li = Some true ∨ li ∈ span.*1) →
  pl_objects p2 = pl_objects p ++ new → pl_spent p2 + staged_bytes new staged ≤ budget →
  committed p (fold_left (λ p s, commit_block s p) staged (add_spent (staged_bytes new staged) p2)) span staged.
Proof.
  intros Hs Hst Hem Ho Hfit. pose proof Hst as [[Hp Hnd Hobj] [Hb Hse Hsp Ht _ Hat] _ Hcov Honly _].
  destruct (commit_spec staged (add_spent (staged_bytes new staged) p2)) as (Cb & Co & Cl & Ce & Cs & Ct & Ck).
  set (p' := fold_left _ _ _) in *. cbn [add_spent pl_blocks pl_objects pl_object_of_layer pl_metadata_emitted pl_spent pl_stats] in *.
  assert (keys p' = keys p2 ++ staged.*1) as Hk.
  { unfold keys. rewrite Cb, fmap_app. f_equal. rewrite <- list_fmap_compose. apply list_fmap_ext. by intros i [[o b] md] _. }
  assert (∀ idx li, object_at p' idx li ↔ object_at p2 idx li) as Hat' by (intros; unfold object_at; by rewrite Cl).
  assert (keys p2 = keys p) as Hk2 by (unfold keys; by rewrite Hb).
  split; [| |by intros idx li Ha; apply Hat', Hat| | | | |].
  - split; [|by rewrite app_nil_r, Hk|].
    + split; [by rewrite Cl, (pi_len _ Hp)|by rewrite Ce, (pi_emitted _ Hp)| |apply Ck, (pi_seen _ Hp)|rewrite Co; apply (pi_digest _ Hp)].
      intros li idx. by rewrite Hat', (pi_object _ Hp), Co.
    + intros k. rewrite app_nil_r, Hk. intros [li Ha]%Hobj. exists li. by apply Hat'.
  - by rewrite Cb, Hb.
  - intros li b. rewrite Hk. split.
    + intros (idx & Ha%Hat' & [Hin|Hin]%elem_of_app).
      * left. rewrite Hk2 in Hin. destruct (sg_object _ _ Hs (idx, b)) as [li' Ha']; [apply elem_of_app; by left|]. cbn in Ha'.
        rewrite (object_at_inj p2 idx li li' Hp Ha (Hat _ _ Ha')). by exists idx.
      * apply Honly in Hin as [?%not_elem_of_nil|(li' & Ha' & Hw)]; [done|]. right. cbn in *. by rewrite (object_at_inj p2 idx li li' Hp Ha Ha').
    + intros [(idx & Ha & Hin)|Hw%Hcov]; [exists idx; split; [by apply Hat', Hat|]; rewrite Hk2; apply elem_of_app; by left|].
      destruct Hw as (idx & Ha & Hin). exists idx. split; [by apply Hat'|done].
  - intros li. by rewrite Ce, Hem.
  - by rewrite Ct.
  - exists p2, new. split_and!; try done. rewrite Cs. cbn. by rewrite Hsp.
  - rewrite Cs. cbn. lia.
Qed.

(** The staging is undone. *)
Definition undo (p p2 : Planner) : Planner :=
  set_stats (set_block_counts (ps_data_blocks (pl_stats p)) (ps_metadata_blocks (pl_stats p)))
    (set_objects (take (length (pl_objects p)) (pl_objects p2))
      ((λ entry, match entry with Some idx => if Z.of_nat (length (pl_objects p)) <=? idx then None else Some idx | None => None end)
         <$> pl_object_of_layer p2) p2).

Lemma rollback_ok p p2 span staged new : staging p [] → stages (span_wants p span) p [] p2 staged →
  pl_objects p2 = pl_objects p ++ new → budget < pl_spent p2 + staged_bytes new staged → rolled_back p (undo p p2) span.
Proof.
  intros Hs Hst Ho Hover. pose proof Hst as [[Hp Hnd Hobj] [Hb Hse Hsp Ht _ Hat] _ Hcov Honly _]. set (p' := undo p p2).
  assert (∀ idx li, object_at p' idx li ↔ object_at p idx li) as Hat'.
  { intros idx li. rewrite (pi_object _ (sg_inv _ _ Hs)). unfold object_at, p'. cbn. rewrite list_lookup_fmap. split.
    - intros Hl. destruct (pl_object_of_layer p2 !! li) as [[idx'|]|] eqn:El; cbn in Hl; try done.
      destruct (Z.leb_spec (Z.of_nat (length (pl_objects p))) idx'); [done|]. injection Hl as ->.
      apply (pi_object _ Hp) in El as (H0 & o & Hlk & Hl). rewrite Ho, lookup_app_l in Hlk by lia. split; [done|]. by exists o.
    - intros (H0 & o & Hlk & Hl). assert (object_at p2 idx li) as Ha by (apply Hat, (pi_object _ (sg_inv _ _ Hs)); by eauto).
      unfold object_at in Ha. rewrite Ha. cbn. apply lookup_lt_Some in Hlk. by destruct (Z.leb_spec (Z.of_nat (length (pl_objects p))) idx); [lia|]. }
  assert (pl_objects p' = pl_objects p) as Ho' by (unfold p'; cbn; by rewrite Ho, take_app_length).
  assert (keys p' = keys p) as Hk by (unfold keys, p'; cbn; by rewrite Hb).
  split; [|by unfold p'|done|done|by unfold p'|done|exists p2, staged, new; by rewrite Hsp in Hover].
  destruct Hs as [Hpi Hnd0 Hobj0]. split.
  - split; [unfold p'; cbn; rewrite length_fmap; apply (pi_len _ Hp)|apply (pi_emitted _ Hp)| | |rewrite Ho'; apply (pi_digest _ Hpi)].
    + intros li idx. by rewrite Hat', (pi_object _ Hpi), Ho'.
    + intros k. rewrite Hk, <- (pi_seen _ Hpi). unfold p'. cbn. by rewrite Hse.
  - by rewrite Hk.
  - intros k. rewrite Hk. intros [li Ha]%Hobj0. exists li. by apply Hat'.
Qed.

Lemma stage_span_spec p span : Forall (λ x : nat * Z, (x.1 < length layers)%nat) span → staging p [] →
  (∃ p' r staged, stage_span layers budget span p = (p', Ok (Some r)) ∧ committed p p' span staged)
  ∨ (∃ p', stage_span layers budget span p = (p', Ok None) ∧ rolled_back p p' span).
Proof.
  intros Hspan Hs. destruct (span_staged p span Hspan Hs) as (p1 & s1 & p2 & s2 & E1 & E2 & H & Hem).
  assert (stage_span layers budget span p = stage_span layers budget span p) as E by done. revert E. unfold stage_span at 2.
  unfold planner at 1 2, ebind at 1 2. rewrite (ebind_ok _ _ _ _ _ E1), (ebind_ok _ _ _ _ _ E2). unfold planner at 1, ebind at 1. cbn [id].
  destruct (ex_objects _ _ (st_ext _ _ _ _ _ H)) as (new & Ho).
  assert (drop (length (pl_objects p)) (pl_objects p2) = new) as -> by (by rewrite Ho, drop_app_length).
  destruct (Z.ltb_spec budget (pl_spent p2 + staged_bytes new s2)) as [Hover|Hfit]; intros E.
  - right. exists (undo p p2). split; [exact E|by eapply rollback_ok].
  - left. eexists _, _, s2. split; [exact E|by eapply commit_staged_ok].
Qed.

(** ** Plans *)

(** What the spans [rs] want: the blocks of their sectors, and the metadata of
    the layers they read from. *)
Definition wanted (rs : list (Z * Z)) (li : nat) (b : Z) : Prop :=
  (∃ r, r ∈ rs ∧ needed r li b) ∨ (meta li b ∧ ∃ r b', r ∈ rs ∧ needed r li b').

(** What the span [r] adds to the size of the file when the spans [done] are in
    it: an entry for each layer it is the first to read from, and the payload,
    an entry and the frames of the blocks it is the first to want. *)
Definition layer_bytes (li : nat) : Z :=
  match layers !! li with Some l => OBJECT_ENTRY_FIXED_BYTES + zlen (fl_digest l) | None => 0 end.

Definition span_bytes (done : list (Z * Z)) (r : Z * Z) (bytes : Z) : Prop := ∃ (lis : list nat) (blocks : list (nat * Z)),
  NoDup lis ∧ (∀ li, li ∈ lis ↔ (∃ b, wanted (done ++ [r]) li b) ∧ ¬ ∃ b, wanted done li b)
  ∧ NoDup blocks ∧ (∀ li b, (li, b) ∈ blocks ↔ wanted (done ++ [r]) li b ∧ ¬ wanted done li b)
  ∧ bytes = foldr Z.add 0 (layer_bytes <$> lis) + zlen blocks * (OBJECT_BLOCK_BYTES + ENTRY_BYTES)
            + 4 * div_ceil (zlen blocks * OBJECT_BLOCK_BYTES) FRAME_BYTES.

(** What the spans take of the budget. *)
Inductive spends : list (Z * Z) → Z → Prop :=
| spends_header : spends [] PLAN_HEADER_BYTES
| spends_span done r spent bytes : spends done spent → span_bytes done r bytes → spends (done ++ [r]) (spent + bytes).

(** The spans determine what they take. *)
Lemma spends_unique rs c1 c2 : spends rs c1 → spends rs c2 → c1 = c2.
Proof.
  intros H. revert c2. induction H as [|done r c b _ IH Hb]; intros c2 H2.
  { inversion H2 as [|? ? ? ? _ _ E]; [done|]. by apply app_nil in E as [_ ?]. }
  inversion H2 as [E|done' r' c' b' Hs' Hb' E]; subst; [by apply (eq_sym (x := [])), app_nil in E as [_ ?]|]. apply app_inj_tail in E as [-> ->].
  rewrite (IH _ Hs'). f_equal. destruct Hb as (l1 & k1 & Hn1 & Hl1 & Hm1 & Hk1 & ->), Hb' as (l2 & k2 & Hn2 & Hl2 & Hm2 & Hk2 & ->).
  assert (k1 ≡ₚ k2) as Hk by (apply NoDup_Permutation; [done..|]; intros [li b]; by rewrite Hk1, Hk2).
  assert (l1 ≡ₚ l2) as Hl by (apply NoDup_Permutation; [done..|]; intros li; by rewrite Hl1, Hl2).
  unfold zlen. rewrite Hk. do 2 f_equal. apply (foldr_permutation_proper' (=) Z.add 0). by rewrite Hl.
Qed.

Lemma span_bytes_nonneg done r c : span_bytes done r c → 0 ≤ c.
Proof.
  intros (lis & blocks & _ & _ & _ & _ & ->). assert (0 ≤ foldr Z.add 0 (layer_bytes <$> lis)) as Hl.
  { induction lis as [|li lis IH]; cbn; [done|]. assert (0 ≤ layer_bytes li); [|lia]. unfold layer_bytes.
    destruct (layers !! li) as [l|]; [|done]. pose proof (zlen_nonneg (fl_digest l)). unfold OBJECT_ENTRY_FIXED_BYTES. lia. }
  change OBJECT_BLOCK_BYTES with 262144. change FRAME_BYTES with 1048576. unfold ENTRY_BYTES.
  pose proof (zlen_nonneg blocks). pose proof (div_ceil_bounds (zlen blocks * 262144) 1048576 ltac:(done)). lia.
Qed.

(** Fewer spans take no more. *)
Lemma spends_prefix rs1 rs2 : ∀ c, spends (rs1 ++ rs2) c → ∃ c1, spends rs1 c1 ∧ c1 ≤ c.
Proof.
  induction rs2 as [|r rs2 IH] using rev_ind; intros c; [rewrite app_nil_r; by exists c|]. rewrite app_assoc. intros H.
  inversion H as [E|done r' c' b Hs Hb E]; [by destruct (rs1 ++ rs2)|]. subst. apply app_inj_tail in E as [-> ->].
  destruct (IH _ Hs) as (c1 & H1 & Hle). exists c1. split; [done|]. pose proof (span_bytes_nonneg _ _ _ Hb). lia.
Qed.

(** The size of the file that a plan describes. *)
Definition plan_bytes (objects : list PlannedObject) (blocks : Z) : Z :=
  PLAN_HEADER_BYTES + foldr Z.add 0 ((λ o, OBJECT_ENTRY_FIXED_BYTES + zlen (po_digest o)) <$> objects)
  + blocks * (OBJECT_BLOCK_BYTES + ENTRY_BYTES) + 4 * div_ceil (blocks * OBJECT_BLOCK_BYTES) FRAME_BYTES.

Record good (p : Planner) (done : list (Z * Z)) : Prop := {
  gd_staging : staging p [];
  gd_has : ∀ li b, has p (keys p) li b ↔ wanted done li b;
  gd_order : ∀ j, (j ≤ length done)%nat → ∃ n, ∀ li b, has p (take n (keys p)) li b ↔ wanted (take j done) li b;
  gd_layers : ∀ li, (∃ idx, object_at p idx li) ↔ ∃ b, wanted done li b;
  gd_spent : spends done (pl_spent p);
  gd_bytes : plan_bytes (pl_objects p) (zlen (pl_blocks p)) ≤ pl_spent p ≤ Z.max budget PLAN_HEADER_BYTES
}.

(** The metadata of the layers marked as emitted is planned. *)
Definition emitted_has (p : Planner) : Prop :=
  ∀ li b, pl_metadata_emitted p !! li = Some true → meta li b → has p (keys p) li b.

Lemma good_stats f p done : good p done → good (set_stats f p) done.
Proof. intros [[[? ? ? ? ?] ? ?] ? ? ? ? ?]. split; try done. Qed.

Lemma plan_bytes_add objects new n m : 0 ≤ n → 0 ≤ m → ∀ staged : list (Z * Z * bool), zlen staged = m →
  plan_bytes (objects ++ new) (n + m) ≤ plan_bytes objects n + staged_bytes new staged.
Proof.
  intros Hn Hm staged <-. unfold plan_bytes, staged_bytes. rewrite fmap_app, foldr_app.
  assert (∀ l z, foldr Z.add z l = foldr Z.add 0 l + z) as Hf by (intros l z; induction l; cbn; lia). rewrite Hf.
  change OBJECT_BLOCK_BYTES with 262144. change FRAME_BYTES with 1048576. unfold ENTRY_BYTES.
  pose proof (div_ceil_bounds (n * 262144) 1048576 ltac:(done)). pose proof (div_ceil_bounds (zlen staged * 262144) 1048576 ltac:(done)).
  pose proof (div_ceil_bounds ((n + zlen staged) * 262144) 1048576 ltac:(done)). nia.
Qed.

Lemma wanted_snoc done r li b : wanted (done ++ [r]) li b
  ↔ wanted done li b ∨ needed r li b ∨ (meta li b ∧ ∃ b', needed r li b').
Proof. unfold wanted. setoid_rewrite elem_of_app. setoid_rewrite list_elem_of_singleton. naive_solver. Qed.

(** What is wanted after a span: what was, and what the span leads to. *)
Lemma wanted_span p span done r : good p done → emitted_has p → (∀ li b, (li, b) ∈ span ↔ needed r li b) →
  (∀ li, li ∈ span.*1 → pl_metadata_emitted p !! li = Some true ∨ pl_metadata_emitted p !! li = Some false)
  ∧ ∀ li b, wanted (done ++ [r]) li b ↔ wanted done li b ∨ span_wants p span li b.
Proof.
  intros Hg Hem Hspan.
  assert (∀ li, li ∈ span.*1 ↔ ∃ b, needed r li b) as Hli.
  { intros li. rewrite list_elem_of_fmap. split; [intros ([li' b] & -> & Hin); exists b; by apply Hspan|].
    intros [b Hb'%Hspan]. by exists (li, b). }
  assert (∀ li, li ∈ span.*1 → pl_metadata_emitted p !! li = Some true ∨ pl_metadata_emitted p !! li = Some false) as Hbool.
  { intros li [b (x & loc & ph & l & q & _ & _ & _ & _ & El & _)]%Hli. apply lookup_lt_Some in El.
    rewrite <- (pi_emitted _ (sg_inv _ _ (gd_staging _ _ Hg))) in El. apply lookup_lt_is_Some_2 in El as [[] El]; auto. }
  split; [done|]. intros li b. rewrite wanted_snoc. unfold span_wants. rewrite Hspan. split.
  - intros [?|[?|(Hm & Hex)]]; [by left|by right; left|]. apply Hli in Hex. destruct (Hbool li Hex) as [Ht|Hf]; [|auto].
    left. by apply (gd_has _ _ Hg), Hem.
  - intros [?|[?|(Hin & _ & Hm)]]; [by left|by right; left|]. right; right. split; [done|]. by apply Hli.
Qed.

(** The blocks that are staged are those that were not wanted before. *)
Lemma staged_wanted p p2 span staged done r : good p done → emitted_has p → (∀ li b, (li, b) ∈ span ↔ needed r li b) →
  stages (span_wants p span) p [] p2 staged →
  (∀ li b, has p2 staged.*1 li b ↔ wanted (done ++ [r]) li b ∧ ¬ wanted done li b)
  ∧ (∀ li, (∃ idx, object_at p2 idx li) ↔ ∃ b, wanted (done ++ [r]) li b).
Proof.
  intros Hg Hem Hspan [[Hp Hnd Hobj] He _ Hcov Honly Hlay]. destruct (wanted_span p span done r Hg Hem Hspan) as [_ Hw].
  pose proof (ext_keys _ _ He) as Hk. rewrite Hk in *. apply NoDup_app in Hnd as (_ & Hdis & _). split.
  - intros li b. rewrite Hw, <- (gd_has _ _ Hg). split.
    + intros (idx & Ha & Hin). pose proof (Honly _ Hin) as [?%not_elem_of_nil|(li' & Ha' & Hs)]; [done|]. cbn in *.
      rewrite <- (object_at_inj p2 idx li li' Hp Ha Ha') in Hs. split; [by right|]. intros (idx' & Hb & Hin').
      apply (ex_at _ _ He) in Hb. unfold object_at in Ha, Hb. assert (idx' = idx) as -> by congruence. by apply (Hdis _ Hin').
    + intros [[?|Hs] Hn]; [done|]. destruct (Hcov _ _ Hs) as (idx & Ha & [Hin|Hin]%elem_of_app); [|by exists idx].
      destruct Hn. destruct (sg_object _ _ (gd_staging _ _ Hg) (idx, b)) as [li' Ha']; [apply elem_of_app; by left|]. cbn in Ha'.
      rewrite (object_at_inj p2 idx li li' Hp Ha (ex_at _ _ He _ _ Ha')). by exists idx.
  - intros li. setoid_rewrite Hw. split.
    + intros (idx & [Ha|[b Hs]]%Hlay); [|exists b; by right]. destruct (proj1 (gd_layers _ _ Hg li)) as [b ?]; [by exists idx|]. exists b. by left.
    + intros (b & [Hb|Hs]); [|destruct (Hcov _ _ Hs) as (idx & Ha & _); by exists idx].
      destruct (proj2 (gd_layers _ _ Hg li)) as [idx Ha]; [by exists b|]. exists idx. by apply (ex_at _ _ He).
Qed.

(** The layers of the blocks [ks]. *)
Lemma blocks_of p ks : NoDup ks → (∀ k, k ∈ ks → ∃ li, object_at p k.1 li) →
  ∃ blocks : list (nat * Z), length blocks = length ks ∧ (pinv p → NoDup blocks ∧ ∀ li b, (li, b) ∈ blocks ↔ has p ks li b).
Proof.
  intros Hnd Hks. induction ks as [|k ks IH].
  { exists []. split; [done|]. intros _. split; [apply NoDup_nil_2|]. intros li b.
    split; [by intros ?%not_elem_of_nil|by intros (? & _ & ?%not_elem_of_nil)]. }
  apply NoDup_cons in Hnd as [Hn Hnd]. destruct IH as (blocks & Hl & Hb); [done|intros; apply Hks; by right|].
  destruct (Hks k) as [li Ha]; [by left|]. exists ((li, k.2) :: blocks). split; [cbn; by rewrite Hl|]. intros Hp. destruct (Hb Hp) as [Hd Hin].
  assert (∀ li' idx, object_at p idx li' → li' = li → idx = k.1) as Hfun by (intros li' idx Ha' ->; unfold object_at in *; congruence).
  split.
  - apply NoDup_cons. split; [|done]. intros (idx & Ha' & Hin')%Hin. apply Hn. rewrite (Hfun _ _ Ha' eq_refl) in Hin'. by destruct k.
  - intros li' b. rewrite elem_of_cons, Hin. unfold has. setoid_rewrite elem_of_cons. split.
    + intros [[= -> ->]|(idx & ? & ?)]; [exists k.1; split; [done|left; by destruct k]|exists idx; auto].
    + intros (idx & Ha' & [<-|?]); [left|right; by exists idx]. cbn in Ha. by rewrite (object_at_inj p idx li' li Hp Ha' Ha).
Qed.

Lemma staged_cost p p2 span staged new done r : good p done → emitted_has p → (∀ li b, (li, b) ∈ span ↔ needed r li b) →
  stages (span_wants p span) p [] p2 staged → pl_objects p2 = pl_objects p ++ new → span_bytes done r (staged_bytes new staged).
Proof.
  intros Hg Hem Hspan Hst Ho. destruct (staged_wanted p p2 span staged done r Hg Hem Hspan Hst) as [Hb Hl].
  pose proof (st_staging _ _ _ _ _ Hst) as [Hp Hnd Hobj]. apply NoDup_app in Hnd as (_ & _ & Hnd).
  destruct (blocks_of p2 staged.*1) as (blocks & Hlen & Hbl); [done|intros; apply Hobj, elem_of_app; by right|]. destruct (Hbl Hp) as [Hbd Hbi].
  rewrite length_fmap in Hlen. pose proof (objects_distinct p2 Hp) as Hd. rewrite Ho, fmap_app in Hd. apply NoDup_app in Hd as (_ & Hdis & Hd).
  exists (po_layer <$> new), blocks. split; [done|]. split; [|split; [done|split]].
  - intros li. rewrite <- Hl, <- (gd_layers _ _ Hg). split.
    + intros (o & -> & [i Hi]%list_elem_of_lookup)%list_elem_of_fmap. split.
      * exists (Z.of_nat (length (pl_objects p) + i)). apply object_at_lookup; [done|]. rewrite Ho, lookup_app_r by lia. by replace (_ - _)%nat with i by lia.
      * intros (idx & (_ & o' & Ho' & E)%(pi_object _ (sg_inv _ _ (gd_staging _ _ Hg)))). apply (Hdis (po_layer o)); apply list_elem_of_fmap.
        { exists o'. split; [done|by eapply list_elem_of_lookup_2]. } { exists o. split; [done|by eapply list_elem_of_lookup_2]. }
    + intros [(idx & (H0 & o & Hlk & El)%(pi_object _ Hp)) Hn]. rewrite Ho in Hlk. apply lookup_app_Some in Hlk as [Hlk|[_ Hlk]].
      * destruct Hn. exists idx. apply (pi_object _ (sg_inv _ _ (gd_staging _ _ Hg))). by eauto.
      * apply list_elem_of_fmap. exists o. split; [done|by eapply list_elem_of_lookup_2].
  - intros li b. by rewrite Hbi, Hb.
  - unfold staged_bytes, zlen. rewrite Hlen, <- list_fmap_compose. do 3 f_equal. pose proof (pi_digest _ Hp) as Hdg.
    rewrite Ho in Hdg. apply Forall_app in Hdg as [_ Hdg]. apply list_fmap_ext. intros i o Hi. cbn. unfold layer_bytes.
    rewrite Forall_lookup in Hdg. specialize (Hdg i o Hi). cbn in Hdg. destruct (layers !! po_layer o) as [l|]; [|done]. by injection Hdg as <-.
Qed.

Lemma committed_good p p' span staged done r : good p done → emitted_has p → committed p p' span staged →
  (∀ li b, (li, b) ∈ span ↔ needed r li b) → good p' (done ++ [r]) ∧ emitted_has p'.
Proof.
  intros Hg Hem [Cs Cb Ca Ch Ce _ (p2 & new & Hst & Co & Co2 & Cl & Csp) Cbud] Hspan.
  destruct (wanted_span p span done r Hg Hem Hspan) as [Hbool Hw].
  pose proof (staged_cost p p2 span staged new done r Hg Hem Hspan Hst Co) as Hcost.
  destruct (staged_wanted p p2 span staged done r Hg Hem Hspan Hst) as [_ Hlay]. destruct Hg as [Hs Hh Hord Hl Hsp Hb].
  assert (∀ li b, has p' (keys p') li b ↔ wanted (done ++ [r]) li b) as Hh' by (intros li b; by rewrite Ch, Hh, Hw).
  assert (keys p' = keys p ++ (key_of <$> (planned_block <$> staged))) as Hk by (unfold keys; by rewrite Cb, fmap_app).
  split; [split; [done|done| | | |]|].
  - intros j Hj. rewrite length_app in Hj. cbn in Hj. destruct (decide (j ≤ length done)%nat) as [Hle|].
    + destruct (Hord j Hle) as (n & Hn). exists (Nat.min n (length (keys p))). intros li b. rewrite take_app_le by done. rewrite <- Hn, Hk.
      rewrite take_app_le by lia. rewrite <- (firstn_firstn (keys p)) at 1. rewrite (take_ge (keys p)) by done.
      split; intros (idx & Ha & Hin); exists idx; (split; [|done]); [|by apply Ca].
      destruct (sg_object _ _ Hs (idx, b)) as [li' Ha'].
      { apply elem_of_app. left. by eapply (subseteq_take n). }
      cbn in Ha'. by rewrite (object_at_inj p' idx li li' (sg_inv _ _ Cs) Ha (Ca _ _ Ha')).
    + exists (length (keys p')). intros li b. rewrite (take_ge (keys p')) by done. rewrite take_ge by (rewrite length_app; cbn; lia). apply Hh'.
  - intros li. rewrite <- Hlay. unfold object_at. by rewrite Cl.
  - rewrite Csp. by apply spends_span.
  - split; [|lia]. rewrite Co2, Co, Csp, Cb, zlen_app, zlen_fmap. pose proof (zlen_nonneg (pl_blocks p)). pose proof (zlen_nonneg staged).
    etrans; [by apply (plan_bytes_add _ _ _ (zlen staged))|]. lia.
  - intros li b [Ht|Hin]%Ce Hm; apply Ch; [left; by apply Hem|]. destruct (Hbool li Hin) as [Ht|Hf]; [left; by apply Hem|].
    right; right. done.
Qed.

Lemma rolled_back_good p p' span done r : good p done → emitted_has p → (∀ li b, (li, b) ∈ span ↔ needed r li b) → rolled_back p p' span →
  good p' done ∧ ∃ c, spends (done ++ [r]) c ∧ budget < c.
Proof.
  intros Hg Hem Hspan [Rs Rb Ra Ro Rsp _ (p2 & staged & new & Hst & Ho & Hover)]. split.
  - destruct Hg as [Hs Hh Hord Hl Hsp Hb]. assert (keys p' = keys p) as Hk by (unfold keys; by rewrite Rb).
    assert (∀ ks li b, has p' ks li b ↔ has p ks li b) as Hhas by (intros ks li b; unfold has; by setoid_rewrite Ra).
    split; [done| | | |by rewrite Rsp|by rewrite Ro, Rb, Rsp].
    + intros li b. by rewrite Hhas, Hk.
    + intros j Hj. destruct (Hord j Hj) as (n & Hn). exists n. intros li b. by rewrite Hhas, Hk.
    + intros li. rewrite <- Hl. by setoid_rewrite Ra.
  - eexists. split; [|exact Hover]. apply spends_span; [apply (gd_spent _ _ Hg)|]. by eapply staged_cost.
Qed.

Lemma resolve_hole mappings : ∀ out, existsb has_physical_range mappings = false →
  resolve_span_blocks layers mappings out false = Ok (out, false).
Proof. induction mappings as [|m ms IH]; intros out; cbn; [done|]. destruct (has_physical_range m); [done|]. apply IH. Qed.

(** A span inside the memory image. *)
Definition span_ok (mem : Z) (r : Z * Z) : Prop :=
  0 ≤ r.1 ∧ 0 < r.2 < 2 ^ 41 ∧ r.1 mod PLAN_PAGE_BYTES = 0 ∧ r.2 mod PLAN_PAGE_BYTES = 0 ∧ r.1 + r.2 ≤ mem.

Lemma range_checked mem vo vl : mem < 2 ^ 64 → span_ok mem (vo, vl) →
  (0 <? vl) && is_multiple_of vo PLAN_PAGE_BYTES && is_multiple_of vl PLAN_PAGE_BYTES && (wrap64 (vo + vl) <=? mem) = true.
Proof.
  intros Hmem (H0 & Hl & Ha1 & Ha2 & Hend). cbn [fst snd] in *. unfold is_multiple_of.
  by rewrite Ha1, Ha2, wrap64_small, (proj2 (Z.ltb_lt 0 vl)), (proj2 (Z.leb_le (vo + vl) mem)) by lia.
Qed.

(** A span that reads nothing takes nothing. *)
Lemma hole_good p done r : good p done → (∀ j li b, wanted (take j (done ++ [r])) li b ↔ wanted (take j done) li b) → good p (done ++ [r]).
Proof.
  intros [Hs Hh Hord Hl Hsp Hb] Hw.
  assert (∀ li b, wanted (done ++ [r]) li b ↔ wanted done li b) as Hall.
  { intros li b. specialize (Hw (length (done ++ [r])) li b). by rewrite !take_ge in Hw by (rewrite ?length_app; cbn; lia). }
  split; [done| | | | |done].
  - intros li b. by rewrite Hh, Hall.
  - intros j _. destruct (Hord (Nat.min j (length done))) as (n' & Hn'); [lia|]. exists n'. intros li b. rewrite Hn', Hw.
    by rewrite <- firstn_firstn, (take_ge done (length done)) by done.
  - intros li. rewrite Hl. by setoid_rewrite Hall.
  - rewrite <- (Z.add_0_r (pl_spent p)). apply spends_span; [done|]. exists [], []. split; [apply NoDup_nil_2|]. setoid_rewrite Hall.
    split; [|split; [apply NoDup_nil_2|split; [|done]]]; intros; (split; [by intros ?%not_elem_of_nil|naive_solver]).
Qed.

Lemma plan_span_spec mem r n p done : mem < 2 ^ 64 → span_ok mem r → good p done → emitted_has p →
  ∃ p' out t, plan_span layers index budget r.1 r.2 n p = (p', Ok (out, t))
    ∧ if t : bool then good p' done ∧ ps_pages_truncated (pl_stats p') = ps_pages_truncated (pl_stats p) + n
        ∧ ∃ c, spends (done ++ [r]) c ∧ budget < c
      else good p' (done ++ [r]) ∧ emitted_has p' ∧ ps_pages_truncated (pl_stats p') = ps_pages_truncated (pl_stats p).
Proof.
  intros Hmem (H0 & Hl & Ha1 & Ha2 & Hend) Hg Hem. unfold plan_span, SECTOR_BYTES. set (q := mkSeg _ _).
  assert (wf_query q ∧ seg_offset q = r.1 / 512 ∧ seg_length q = r.2 / 512) as (Hq & Eo & El).
  { assert (wrap32 (r.2 / 512) = r.2 / 512) as Ew by (apply wrap32_small; dlia). unfold q. rewrite Ew. split; [split; cbn; dlia|done]. }
  destruct (li_lookup_spec index q [] Hindex Hq) as (ms & -> & Ht). cbn [app fst]. rewrite Eo, El in Ht.
  destruct (resolve_spec ms (r.1 / 512) (r.1 / 512 + r.2 / 512) [] false) as (blocks & Er & Hbl); [dlia|done|]. cbn [app orb] in Er.
  assert (∀ li b, (li, b) ∈ blocks ↔ needed r li b) as Hspan by (intros; apply Hbl).
  unfold elift. unfold ebind at 1. rewrite Er. destruct (existsb has_physical_range ms) eqn:Ebk; cbn [negb].
  - assert (Forall (λ x : nat * Z, (x.1 < length layers)%nat) blocks) as Hlt.
    { apply Forall_forall. intros [li b] (x & loc & ph & l & pp & _ & _ & _ & _ & Elk & _)%Hspan. by apply lookup_lt_Some in Elk. }
    destruct (stage_span_spec p blocks Hlt (gd_staging _ _ Hg)) as [(p' & res & staged & E & Hc)|(p' & E & Hr)]; rewrite (ebind_ok _ _ _ _ _ E).
    + destruct (committed_good p p' blocks staged done r Hg Hem Hc Hspan) as [Hg' Hem']. unfold emodify, ebind, eret. eexists _, _, false.
      split; [done|]. split; [by apply good_stats|]. split; [exact Hem'|]. cbn. rewrite (cm_truncated _ _ _ _ Hc). lia.
    + destruct (rolled_back_good p p' blocks done r Hg Hem Hspan Hr) as [Hg' Hover]. unfold emodify, ebind, eret. eexists _, _, true.
      split; [done|]. split; [by apply good_stats|]. split; [|exact Hover]. cbn. by rewrite (rb_truncated _ _ _ Hr).
  - rewrite (resolve_hole ms [] Ebk) in Er. injection Er as <-. unfold emodify, ebind, eret. eexists _, _, false. split; [done|].
    assert (∀ li b, ¬ needed r li b) as Hno by (intros li b Hn%Hspan; by apply not_elem_of_nil in Hn).
    assert (∀ j li b, wanted (take j (done ++ [r])) li b ↔ wanted (take j done) li b) as Hw.
    { intros j li b. destruct (decide (j ≤ length done)%nat); [by rewrite take_app_le|]. rewrite !take_ge by (rewrite ?length_app; cbn; lia).
      rewrite wanted_snoc. naive_solver. }
    split; [apply good_stats, hole_good; [done|]|split; [exact Hem|cbn; lia]]. intros j li b. apply Hw.
Qed.

Lemma span_pages_pos mem r : span_ok mem r → 0 < r.2 / PLAN_PAGE_BYTES.
Proof. intros (_ & Hl & _ & Ha & _). unfold PLAN_PAGE_BYTES in *. dlia. Qed.

(** The pages of spans. *)
Definition pages (rs : list (Z * Z)) : Z := foldr Z.add 0 ((λ r : Z * Z, r.2 / PLAN_PAGE_BYTES) <$> rs).

Lemma pages_0 mem rs : Forall (span_ok mem) rs → 0 ≤ pages rs ∧ (pages rs = 0 → rs = []).
Proof.
  unfold pages. induction 1 as [|r rs Hr _ [IH1 IH2]]; cbn; [done|]. pose proof (span_pages_pos mem r Hr). split; [lia|]. intros ?. lia.
Qed.

(** The plan ends after [k] of the spans: these are within the budget, and with
    the next one they are not. *)
Definition cut (ranges : list (Z * Z)) (k : nat) : Prop :=
  (k ≤ length ranges)%nat ∧ (∃ c, spends (take k ranges) c ∧ c ≤ Z.max budget PLAN_HEADER_BYTES)
  ∧ ((k < length ranges)%nat → ∃ c, spends (take (S k) ranges) c ∧ budget < c).

Lemma cut_all ranges k c : cut ranges k → spends ranges c → c ≤ budget → take k ranges = ranges.
Proof.
  intros (Hk & _ & Hover) Hc Hb. destruct (decide (k < length ranges)%nat) as [Hlt|]; [|by apply take_ge; lia].
  destruct (Hover Hlt) as (c1 & H1 & Hgt). rewrite <- (take_drop (S k) ranges) in Hc. apply spends_prefix in Hc as (c2 & H2 & Hle).
  rewrite (spends_unique _ _ _ H1 H2) in Hgt. lia.
Qed.

(** A loop that has been truncated only counts pages. *)
Lemma truncated_loop mem ranges : mem < 2 ^ 64 → Forall (span_ok mem) ranges → ∀ p done, good p done →
  ∃ p', ranges_loop layers index budget ranges mem true p = (p', Ok tt) ∧ good p' done
    ∧ ps_pages_truncated (pl_stats p') = ps_pages_truncated (pl_stats p) + pages ranges.
Proof.
  intros Hmem. induction 1 as [|[vo vl] ranges Hr _ IH]; intros p done Hg; cbn [ranges_loop].
  { exists p. split_and!; try done. cbn. lia. }
  rewrite (range_checked mem vo vl Hmem Hr). unfold elift, ensure, emodify, ebind.
  edestruct IH as (p' & E & Hg' & Ht); [do 2 apply good_stats; exact Hg|]. exists p'. split; [exact E|]. split; [done|].
  rewrite Ht. unfold pages. cbn. lia.
Qed.

Lemma ranges_loop_spec mem ranges : mem < 2 ^ 64 → Forall (span_ok mem) ranges → ∀ p done, good p done → emitted_has p →
  ∃ p' k, ranges_loop layers index budget ranges mem false p = (p', Ok tt) ∧ (k ≤ length ranges)%nat ∧ good p' (done ++ take k ranges)
    ∧ ps_pages_truncated (pl_stats p') = ps_pages_truncated (pl_stats p) + pages (drop k ranges)
    ∧ ((k < length ranges)%nat → ∃ c, spends (done ++ take (S k) ranges) c ∧ budget < c).
Proof.
  intros Hmem. induction 1 as [|[vo vl] ranges Hr Hrs IH]; intros p done Hg Hem; cbn [ranges_loop].
  { exists p, O. cbn. rewrite app_nil_r. split_and!; try done; lia. }
  rewrite (range_checked mem vo vl Hmem Hr). unfold elift, ensure. unfold ebind at 1. unfold emodify at 1. unfold ebind at 1.
  set (p1 := set_stats _ p). set (n := vl / PLAN_PAGE_BYTES) in *.
  assert (ps_pages_truncated (pl_stats p1) = ps_pages_truncated (pl_stats p)) as Ht1 by (cbn; lia).
  destruct (plan_span_spec mem (vo, vl) n p1 done Hmem Hr) as (p2 & out & t & E & H2); [by apply good_stats|done|]. cbn [fst snd] in E.
  rewrite (ebind_ok _ _ _ _ _ E). cbn [snd]. destruct t.
  - destruct H2 as (Hg2 & Ht2 & Hover). destruct (truncated_loop mem ranges Hmem Hrs p2 done Hg2) as (p' & -> & Hg' & Ht'). exists p', O.
    rewrite take_0, app_nil_r, drop_0. split_and!; [done|lia|done| |done]. rewrite Ht', Ht2, Ht1. unfold pages. cbn. lia.
  - destruct H2 as (Hg2 & Hem2 & Ht2). destruct (IH p2 (done ++ [(vo, vl)]) Hg2 Hem2) as (p' & k & -> & Hk & Hg' & Ht & Hover).
    exists p', (S k). rewrite <- app_assoc in Hg'. split_and!; [done|cbn; lia|done|cbn [drop]; congruence|].
    intros Hlt. cbn in Hlt. destruct Hover as (c & Hc & Hb); [lia|]. exists c. split; [|done]. by rewrite <- app_assoc in Hc.
Qed.

Lemma good_new : good (planner_new layers) [] ∧ emitted_has (planner_new layers).
Proof.
  assert (∀ idx li, ¬ object_at (planner_new layers) idx li) as Hno.
  { intros idx li. unfold object_at. cbn. rewrite lookup_replicate. by intros [? _]. }
  assert (∀ ks li b, ¬ has (planner_new layers) ks li b) as Hnh by (intros ks li b (idx & Ha & _); by apply Hno in Ha).
  assert (∀ li b, ¬ wanted [] li b) as Hnw.
  { intros li b [(r & ?%not_elem_of_nil & _)|(_ & r & b' & ?%not_elem_of_nil & _)]; done. }
  split; [split|].
  - split; cbn; [|apply NoDup_nil_2|by intros k ?%not_elem_of_nil].
    split; cbn; [by rewrite length_replicate|by rewrite length_replicate| | |done].
    + intros li idx. split; [by intros ?%Hno|]. intros (_ & o & Ho & _). by rewrite lookup_nil in Ho.
    + intros k. rewrite lookup_empty. split; [by intros [? ?]|by intros ?%not_elem_of_nil].
  - intros li b. split; [by intros ?%Hnh|by intros ?%Hnw].
  - intros j _. exists O. intros li b. rewrite take_nil. split; [by intros ?%Hnh|by intros ?%Hnw].
  - intros li. split; [by intros (idx & ?%Hno)|by intros (b & ?%Hnw)].
  - apply spends_header.
  - cbn. unfold PLAN_HEADER_BYTES. vm_compute (plan_bytes _ _). lia.
  - intros li b Ht. cbn in Ht. rewrite lookup_replicate in Ht. by destruct Ht.
Qed.

(** The counters of gaps leave the others alone. *)
Lemma gap_loop_truncated selected : ∀ cursor st, ps_pages_truncated (gap_loop selected cursor st).2 = ps_pages_truncated st.
Proof. induction selected as [|b selected IH]; intros cursor st; cbn; [done|]. rewrite IH. by destruct (_ <? _). Qed.

Lemma gap_stats_truncated p sources : ∀ li st, ps_pages_truncated (gap_stats p li sources st) = ps_pages_truncated st.
Proof.
  induction sources as [|l sources IH]; intros li st; cbn [gap_stats]; [done|]. rewrite IH. unfold gap_layer.
  destruct (_ !! li) as [[idx|]|]; try done. pose proof (gap_loop_truncated (selected_blocks idx (pl_seen p)) 0 st) as Hg.
  destruct (gap_loop _ _ _) as [cursor st']. cbn in Hg. by destruct (_ <? _).
Qed.

(** The block [b] of the object of the layer [li] is one of [blocks]. *)
Definition planned (objects : list PlannedObject) (blocks : list PlannedBlock) (li : nat) (b : Z) : Prop :=
  ∃ blk o, blk ∈ blocks ∧ pb_block_id blk = b ∧ 0 ≤ pb_object blk ∧ objects !! Z.to_nat (pb_object blk) = Some o ∧ po_layer o = li.

Lemma planned_has p blocks li b : pinv p → planned (pl_objects p) blocks li b ↔ has p (key_of <$> blocks) li b.
Proof.
  intros Hp. unfold planned, has. setoid_rewrite (pi_object _ Hp). setoid_rewrite list_elem_of_fmap. split.
  - intros (blk & o & Hin & <- & H0 & Ho & <-). exists (pb_object blk). split; [by eauto|]. by exists blk.
  - intros (idx & (H0 & o & Ho & Hl) & blk & [= -> ->] & Hin). by exists blk, o.
Qed.

Lemma plan_ranges_spec mem ranges : layers ≠ [] → mem < 2 ^ 64 → Forall (span_ok mem) ranges →
  ∃ pl k, plan_ranges layers index budget ranges mem = Ok pl ∧ cut ranges k
    ∧ ps_pages_truncated (pp_stats pl) = pages (drop k ranges)
    ∧ (∀ blk, blk ∈ pp_blocks pl → 0 ≤ pb_object blk ∧ is_Some (pp_objects pl !! Z.to_nat (pb_object blk)))
    ∧ NoDup (po_layer <$> pp_objects pl)
    ∧ NoDup (key_of <$> pp_blocks pl)
    ∧ (∀ li b, planned (pp_objects pl) (pp_blocks pl) li b ↔ wanted (take k ranges) li b)
    ∧ (∀ j, (j ≤ k)%nat → ∃ n, ∀ li b, planned (pp_objects pl) (take n (pp_blocks pl)) li b ↔ wanted (take j ranges) li b)
    ∧ plan_bytes (pp_objects pl) (zlen (pp_blocks pl)) ≤ Z.max budget PLAN_HEADER_BYTES.
Proof.
  intros Hne Hmem Hr. destruct good_new as [Hg0 Hem0].
  destruct (ranges_loop_spec mem ranges Hmem Hr (planner_new layers) [] Hg0 Hem0) as (p & k & E & Hk & Hg & Ht & Hover).
  assert (plan_checks layers = Ok tt) as Hc.
  { unfold plan_checks. assert (is_nil layers = false) as -> by (by destruct layers). rewrite (proj2 (Z.leb_le _ _) Hcount). cbn [negb ensure rbind].
    assert (forallb (λ l, 0 <? fl_size l) layers = true) as ->; [|done]. apply forallb_forall. intros l Hl%list_elem_of_In.
    rewrite Forall_forall in Hfits. apply Z.ltb_lt. apply (lf_size l). by apply Hfits. }
  exists (finish layers p), k. unfold plan_ranges. rewrite Hc, E. cbn [rbind app] in *. destruct Hg as [[Hp Hnd Hobj] Hh Hord _ Hsp Hb].
  rewrite app_nil_r in Hnd. split_and!; try done; cbn [finish pp_objects pp_blocks pp_stats].
  - split; [done|]. split; [|done]. exists (pl_spent p). split; [done|lia].
  - rewrite gap_stats_truncated. exact Ht.
  - intros blk Hblk. destruct (Hobj (key_of blk)) as [li Ha]; [rewrite app_nil_r; by apply list_elem_of_fmap_2|].
    apply (pi_object _ Hp) in Ha as (H0 & o & Ho & _). split; [done|by exists o].
  - by apply objects_distinct.
  - intros li b. rewrite planned_has by done. apply Hh.
  - intros j Hj. destruct (Hord j) as (n & Hn); [rewrite length_take; lia|]. exists n. intros li b. rewrite planned_has, fmap_take by done.
    rewrite Hn. by rewrite take_take, Nat.min_l.
  - lia.
Qed.

(** C28: A plan for spans inside the memory image is always made.  It has
    exactly the blocks of the layer objects that hold the bytes which reading
    the first [k] spans takes, and the metadata of the layers they are read
    from.  [k] is where the budget ends: the entries of the layers, the entries
    and payloads of the blocks and the frames that these spans are the first to
    need are within the budget, with the next span they are not; the pages of
    the spans after [k] are those reported as truncated.  No block is planned
    twice, what an earlier span needs comes first, and the file the plan
    describes is within the budget, unless that does not hold a header. *)
Theorem plan_exact mem ranges : layers ≠ [] → mem < 2 ^ 64 → Forall (span_ok mem) ranges →
  ∃ pl k, plan_ranges layers index budget ranges mem = Ok pl ∧ cut ranges k
    ∧ ps_pages_truncated (pp_stats pl) = pages (drop k ranges)
    ∧ NoDup (key_of <$> pp_blocks pl)
    ∧ (∀ li b, planned (pp_objects pl) (pp_blocks pl) li b ↔ wanted (take k ranges) li b)
    ∧ (∀ j, (j ≤ k)%nat → ∃ n, ∀ li b, planned (pp_objects pl) (take n (pp_blocks pl)) li b ↔ wanted (take j ranges) li b)
    ∧ plan_bytes (pp_objects pl) (zlen (pp_blocks pl)) ≤ Z.max budget PLAN_HEADER_BYTES.
Proof.
  intros Hne Hmem Hr. destruct (plan_ranges_spec mem ranges Hne Hmem Hr) as (pl & k & E & Hk & Ht & _ & _ & H). by exists pl, k.
Qed.
End Plan.

(** ** Stacks of sealed layers *)

(** The merged index of sealed layers finds bytes in their files. *)
Lemma stack_index_fits ls layers : Forall layer_ok ls → zlen ls ≤ MAX_STACK_LAYERS →
  Forall2 (λ L l, fl_file_size l = zlen (ly_file L)) ls layers → index_fits layers (mkReadOnly (merged_index ls)).
Proof.
  intros Hls Hlen Hf x loc ph Hv Hph. cbn in Hv. pose proof (Forall2_length _ _ _ Hf) as Hl.
  destruct (merged_byte ls Hls Hlen (x * ALIGNMENT)) as [[E _]|(l0 & E & Ht & _ & Hd)]; rewrite Z.div_mul, Hv in E by done; [done|].
  injection E as <-. destruct (merged_spec ls Hls Hlen) as [Hwf Hvs].
  assert (loc_zeroed loc = false) as Hz.
  { rewrite Hvs in Hv. destruct (stack_view _ _ x) as [l|]; [|done]. injection Hv as <-. unfold norm_loc in *. by destruct (loc_zeroed l) eqn:Ez. }
  destruct (Hd Hz) as (ph' & layer & Eph & Elk & Hin). assert (ph' = ph) as -> by congruence.
  assert (zlen ls = zlen layers) as Hzl by (unfold zlen; lia). split; [lia|]. split.
  { apply view_Some in Hv as (m & Hm & Hc & ->). destruct Hwf as [Hwf _]. rewrite Forall_forall in Hwf. specialize (Hwf m Hm). wf_facts.
    apply covers_iff in Hc. cbn in Hph. unfold has_physical_range in Hph. destruct (Z.eqb_spec (moffset m) NO_PHYSICAL_OFFSET); [done|].
    cbn in Hph. injection Hph as <-. destruct (wf_phys m Hwf); [done|]. lia. }
  rewrite list_lookup_fmap in Elk. destruct (rev ls !! Z.to_nat (loc_tag loc)) as [L|] eqn:EL; [|done]. injection Elk as <-.
  assert (ls !! layer_of layers (loc_tag loc) = Some L) as HL.
  { rewrite rev_alt in EL. fold (reverse ls) in EL. apply reverse_lookup_Some in EL as [EL _]. rewrite <- EL. f_equal. unfold layer_of, zlen in *. lia. }
  destruct (Forall2_lookup_l _ _ _ _ _ Hf HL) as (l & El & Hs). exists l. split; [done|]. by rewrite Hs.
Qed.

(** The sealed layer of [LsmtSeal] as an object. *)
Definition ex_final : FinalLayer := {|
  fl_digest := [97]; fl_size := 12288; fl_layout := LRaw 0; fl_file_size := 12288; fl_index_offset := 4608 |}.

Definition ex_index : ReadOnlyIndex := mkReadOnly (merged_index [ex_layer]).

Lemma ex_layer_size : zlen (ly_file ex_layer) = 12288.
Proof. by vm_compute. Qed.

Lemma ex_final_fits : Forall layer_fits [ex_final].
Proof.
  constructor; [|done]. split; cbn; unfold PLAN_PAGE_BYTES; try lia; [done|].
  intros p Hp. exists (p + 0), 1. split; [done|]. lia.
Qed.

Lemma ex_index_wf : li_wf ex_index.
Proof. exact (proj1 (merged_spec [ex_layer] ex_layers_ok ltac:(done))). Qed.

Lemma ex_index_fits : index_fits [ex_final] ex_index.
Proof. apply stack_index_fits; [apply ex_layers_ok|done|]. constructor; [by rewrite ex_layer_size|constructor]. Qed.

(** The first page needs the only block. *)
Lemma ex_needed : needed [ex_final] ex_index (0, 4096) 0 0.
Proof.
  exists 1, (mkLoc (Some 8) false 0), 8, ex_final, 4096. cbn [fst snd]. unfold SECTOR_BYTES. change (0 / 512) with 0. change (4096 / 512) with 8.
  split; [lia|]. split; [by vm_compute|]. split; [done|]. split; [done|]. split; [done|]. split; [lia|].
  exists (4096 + 0), 1, 4096. split; [done|]. split; [lia|done].
Qed.

(** The budget of the example is just enough for one block. *)
Definition ex_budget : Z := 64 + (10 + 1) + (262144 + 8) + 4.

Definition untruncated (r : result plan_error PackPlan) : bool :=
  match r with Ok pl => ps_pages_truncated (pp_stats pl) =? 0 | Err _ => false end.

Lemma ex_untruncated : untruncated (plan_ranges [ex_final] ex_index ex_budget [(0, 4096)] 8192) = true
  ∧ untruncated (plan_ranges [ex_final] ex_index (ex_budget - 1) [(0, 4096)] 8192) = false.
Proof. by vm_compute. Qed.

Lemma ex_all_planned b pl k mem rs : plan_ranges [ex_final] ex_index b rs mem = Ok pl → Forall (span_ok mem) rs →
  untruncated (plan_ranges [ex_final] ex_index b rs mem) = true →
  ps_pages_truncated (pp_stats pl) = pages (drop k rs) → take k rs = rs.
Proof.
  intros -> Hrs Hu%Z.eqb_eq Hp. rewrite Hu in Hp. destruct (pages_0 mem (drop k rs)) as [_ H0]; [by apply Forall_drop|].
  rewrite <- (take_drop k rs) at 2. by rewrite H0, app_nil_r.
Qed.

Lemma ex_span_ok : Forall (span_ok 8192) [(0, 4096)].
Proof. constructor; [cbv; by split_and!|done]. Qed.

Lemma plan_exact_witness : ∃ pl, plan_ranges [ex_final] ex_index ex_budget [(0, 4096)] 8192 = Ok pl
  ∧ planned (pp_objects pl) (pp_blocks pl) 0 0.
Proof.
  destruct (plan_exact [ex_final] ex_index ex_budget ex_final_fits ex_index_wf ex_index_fits ltac:(done) 8192 [(0, 4096)])
    as (pl & k & E & _ & Ht & _ & Hp & _); [done|done|apply ex_span_ok|].
  exists pl. split; [exact E|]. apply Hp. rewrite (ex_all_planned _ _ _ _ _ E ex_span_ok (proj1 ex_untruncated) Ht).
  left. exists (0, 4096). split; [by left|apply ex_needed].
Defined.
