(* ===== verification/PackRuns.v ===== *)
(** * The requests of a start-up prefetch

    [merge_runs_by_first_need] of
    [storage/overlaybd/src/backend/cache/startup_pack_task.rs]: the blocks of a
    plan are merged into runs of adjacent blocks of a layer, each of which is one
    request, and the run of the block that is needed first comes first. *)

From stdpp Require Import gmap.
From S2P Require Import Prelude Text LsmtSegment LsmtIndex LsmtLookup LsmtIo LsmtStack LsmtSeal ZFormat ZRead CacheMeta CacheEntry CachePool CacheStore CacheFile StartupManifest PackPlanner.

Definition RUN_BLOCKS : Z := 64.

(** A run: the layer, the first block and the number of blocks. *)
Definition merge_block (runs : list (nat * Z * Z * Z)) (item : nat * Z * Z) : list (nat * Z * Z * Z) :=
  let '(layer_idx, block, rank) := item in
  match rev runs with
  | (l, b, n, r) :: before =>
      if bool_decide (l = layer_idx) && (b + n =? block) && (n + 1 <=? RUN_BLOCKS)
      then rev before ++ [(l, b, n + 1, Z.min r rank)]
      else runs ++ [(layer_idx, block, 1, rank)]
  | [] => [(layer_idx, block, 1, rank)]
  end.

(** The layers and blocks of a plan; [None] is an object out of range. *)
Definition plan_items (pl : PackPlan) : option (list (nat * Z)) :=
  mapM (λ blk, (λ o, (po_layer o, pb_block_id blk)) <$> pp_objects pl !! Z.to_nat (pb_object blk)) (pp_blocks pl).

Definition by_layer_block (x y : nat * Z * Z) : Prop :=
  (x.1.1 < y.1.1)%nat ∨ (x.1.1 = y.1.1 ∧ x.1.2 ≤ y.1.2).
#[export] Instance by_layer_block_dec : RelDecision by_layer_block := λ x y, ltac:(unfold by_layer_block; apply _).

Definition merge_runs_by_first_need (pl : PackPlan) : option (list (nat * Z * Z)) :=
  items ← plan_items pl;
  let runs := fold_left merge_block (merge_sort by_layer_block (ranked items)) [] in
  Some (merge_sort by_rank runs).*1.

(** ** Runs *)

Definition run_blocks (run : nat * Z * Z) : list (nat * Z) := (λ k, (run.1.1, run.1.2 + k)) <$> seqZ 0 run.2.

Lemma elem_of_run_blocks run li b : (li, b) ∈ run_blocks run ↔ li = run.1.1 ∧ run.1.2 ≤ b < run.1.2 + run.2.
Proof.
  unfold run_blocks. rewrite list_elem_of_fmap. setoid_rewrite elem_of_seqZ. split.
  - intros (k & [= -> ->] & Hk). split; [done|lia].
  - intros [-> Hb]. exists (b - run.1.2). split; [f_equal; lia|lia].
Qed.

Definition run_size_ok (run : nat * Z * Z * Z) : Prop := 1 ≤ run.1.2 ≤ RUN_BLOCKS.

Lemma merge_block_inv items runs item : grouped run_blocks items runs → Forall run_size_ok runs →
  grouped run_blocks (items ++ [item]) (merge_block runs item) ∧ Forall run_size_ok (merge_block runs item).
Proof.
  intros Hg Hs. destruct item as [[li b] rank].
  assert (run_of run_blocks (li, b, 1, rank) [(li, b, rank)]) as H1.
  { split; cbn [fst snd]; [unfold run_blocks; change ([(li, b)] = [(li, b + 0)]); by rewrite Z.add_0_r|by exists (li, b, rank); split; [left|]|by intros x ->%list_elem_of_singleton]. }
  assert (grouped run_blocks (items ++ [(li, b, rank)]) (runs ++ [(li, b, 1, rank)]) ∧ Forall run_size_ok (runs ++ [(li, b, 1, rank)])) as Hpush.
  { split; [by apply grouped_snoc|]. apply Forall_app. split; [done|]. by constructor. }
  unfold merge_block. destruct runs as [|[[[l b0] n] r] runs _] using rev_ind; cbn [rev]; [done|].
  rewrite rev_app_distr. cbn [rev app]. rewrite rev_involutive. case_bool_decide as El; [|done].
  destruct (Z.eqb_spec (b0 + n) b) as [Eb|]; [|done]. destruct (Z.leb_spec (n + 1) RUN_BLOCKS) as [Hn|]; [|done]. cbn [andb]. subst l.
  apply Forall_app in Hs as [Hs Hl]. rewrite Forall_singleton in Hl. unfold run_size_ok in Hl. cbn in Hl. split.
  - apply grouped_snoc_inv in Hg as (items' & g & -> & Hg & [Hk (y & Hy & Ey) Hmin]). rewrite <- app_assoc. apply grouped_snoc; [done|].
    split; cbn [fst snd] in *.
    + rewrite fmap_app, Hk. unfold run_blocks. cbn [fst snd]. rewrite seqZ_snoc, fmap_app by lia. by rewrite <- Eb.
    + destruct (Z.min_spec r rank) as [[_ ->]|[_ ->]]; [exists y|exists (li, b, rank)]; (split; [apply elem_of_app|done]); [by left|right; by left].
    + intros x [Hx| ->%list_elem_of_singleton]%elem_of_app; [specialize (Hmin x Hx)|]; cbn; lia.
  - apply Forall_app. split; [done|]. constructor; [|done]. unfold run_size_ok. cbn. lia.
Qed.

Lemma merge_blocks_inv items : grouped run_blocks items (fold_left merge_block items []) ∧ Forall run_size_ok (fold_left merge_block items []).
Proof.
  induction items as [|item items [IH1 IH2]] using rev_ind; [split; [by exists []|constructor]|].
  rewrite fold_left_app. by apply merge_block_inv.
Qed.

Lemma plan_items_ok pl : (∀ blk, blk ∈ pp_blocks pl → 0 ≤ pb_object blk ∧ is_Some (pp_objects pl !! Z.to_nat (pb_object blk))) →
  NoDup (po_layer <$> pp_objects pl) → NoDup (key_of <$> pp_blocks pl) →
  ∃ items, plan_items pl = Some items ∧ NoDup items ∧ ∀ li b, (li, b) ∈ items ↔ planned (pp_objects pl) (pp_blocks pl) li b.
Proof.
  intros Hok Hl Hk. unfold plan_items, planned. induction (pp_blocks pl) as [|blk blocks IH].
  { exists []. split; [done|]. split; [apply NoDup_nil_2|]. intros li b. split; [by intros ?%not_elem_of_nil|by intros (blk & o & ?%not_elem_of_nil & _)]. }
  rewrite fmap_cons in Hk. apply NoDup_cons in Hk as [Hnk Hk]. destruct IH as (items & Ei & Hnd & Hi); [intros; apply Hok; by right|done|].
  destruct (Hok blk) as [H0 [o Ho]]; [by left|]. exists ((po_layer o, pb_block_id blk) :: items). cbn. rewrite Ho. cbn. rewrite Ei. split; [done|]. split.
  - apply NoDup_cons. split; [|done]. rewrite Hi. intros (blk' & o' & Hin & Eb & H0' & Ho' & El). apply Hnk.
    assert (Z.to_nat (pb_object blk') = Z.to_nat (pb_object blk)) as En.
    { eapply NoDup_lookup; [exact Hl|rewrite list_lookup_fmap, Ho'; cbn; by rewrite El|by rewrite list_lookup_fmap, Ho]. }
    apply list_elem_of_fmap. exists blk'. split; [unfold key_of; f_equal; [lia|done]|done].
  - intros li b. rewrite elem_of_cons, Hi. setoid_rewrite elem_of_cons. split.
    + intros [[= -> ->]|(blk' & o' & Hin & H)]; [exists blk, o; auto|exists blk', o'; auto].
    + intros (blk' & o' & [->|Hin] & Eb & H0' & Ho' & El); [left; congruence|right; by exists blk', o'].
Qed.

(** ** The requests of a plan *)

Section Requests.
Context {I : Type} `{HI : !LogIndex I, !LogIndexSpec I} (layers : list FinalLayer) (index : I) (budget : Z).
Context (Hfits : Forall layer_fits layers) (Hindex : li_wf index) (Hphys : index_fits layers index) (Hcount : zlen layers ≤ 2 ^ 16).

(** C27: The requests that are made for the spans of a manifest have exactly the
    blocks that reading the spans takes, with the metadata of their layers: of
    as many of the spans, in order, as the budget lasts for, and of all of them
    when what they take is within the budget.  No block is in two requests; each
    has 1 to 64 adjacent blocks of one layer; and each has a block that is needed
    before all blocks of the requests after it. *)
Theorem prefetch_requests_exact mem ranges : layers ≠ [] → mem < 2 ^ 64 → Forall (span_ok mem) ranges →
  ∃ pl items runs k, plan_ranges layers index budget ranges mem = Ok pl ∧ plan_items pl = Some items
    ∧ merge_runs_by_first_need pl = Some runs
    ∧ cut layers index budget ranges k
    ∧ (∀ c, spends layers index ranges c → c ≤ budget → take k ranges = ranges)
    ∧ ps_pages_truncated (pp_stats pl) = pages (drop k ranges)
    ∧ (∀ li b, (li, b) ∈ mjoin (run_blocks <$> runs) ↔ wanted layers index (take k ranges) li b)
    ∧ mjoin (run_blocks <$> runs) ≡ₚ items ∧ NoDup items
    ∧ Forall (λ run, 1 ≤ run.2 ≤ RUN_BLOCKS) runs
    ∧ StronglySorted (first_need run_blocks items) runs.
Proof.
  intros Hne Hmem Hr. destruct (plan_ranges_spec layers index budget Hfits Hindex Hphys Hcount mem ranges Hne Hmem Hr)
    as (pl & k & E & Hcut & Ht & Hok & Hl & Hk & Hp & _ & _).
  destruct (plan_items_ok pl Hok Hl Hk) as (items & Ei & Hnd & Hi). exists pl, items.
  set (sorted := merge_sort by_layer_block (ranked items)). destruct (merge_blocks_inv sorted) as [Hg Hs].
  destruct (grouped_first_need run_blocks items sorted (fold_left merge_block sorted []) Hnd) as [H1 H2]; [apply merge_sort_Permutation|done|].
  exists (merge_sort by_rank (fold_left merge_block sorted [])).*1, k. unfold merge_runs_by_first_need. rewrite Ei. split_and!; try done.
  - intros c. by apply cut_all.
  - intros li b. by rewrite H1, Hi, Hp.
  - apply Forall_fmap. rewrite merge_sort_Permutation. exact Hs.
Qed.
End Requests.

(** With the budget the prefetch is made with. *)
Lemma ex_prefetch_untruncated : untruncated (plan_ranges [ex_final] ex_index U64_MAX [(0, 4096)] 8192) = true.
Proof. by vm_compute. Qed.

Lemma prefetch_requests_exact_witness : ∃ pl runs, plan_ranges [ex_final] ex_index U64_MAX [(0, 4096)] 8192 = Ok pl
  ∧ merge_runs_by_first_need pl = Some runs ∧ (0%nat, 0) ∈ mjoin (run_blocks <$> runs).
Proof.
  destruct (prefetch_requests_exact [ex_final] ex_index U64_MAX ex_final_fits ex_index_wf ex_index_fits ltac:(done) 8192 [(0, 4096)])
    as (pl & items & runs & k & E & _ & Er & _ & _ & Ht & Hw & _); [done|done|apply ex_span_ok|].
  exists pl, runs. split; [exact E|]. split; [exact Er|]. apply Hw.
  rewrite (ex_all_planned _ _ _ _ _ E ex_span_ok ex_prefetch_untruncated Ht). left. exists (0, 4096). split; [by left|apply ex_needed].
Defined.

(** Blocks are planned in units of 256 KiB and requested in blocks of the cache:
    with another block size, a block of the plan can lie past the end. *)
Lemma other_block_size_rejected `{CacheEnv, Roaring, Crc32c, FileDiscard} h source w f : get_handle h w = (w, Ok f) →
  opt_block_size (w_opts w) = 2 ^ 20 →
  push_aligned_blocks (3 * OBJECT_BLOCK_BYTES) 1 (2 ^ 20) [] = Ok [3]
  ∧ (background_refill_range h source (2 ^ 20) 3 1 w).2 = Err RangeOutOfBounds.
Proof.
  intros Hh Hbs. split; [by vm_compute|]. unfold background_refill_range, acquire_range. rewrite (ebind_ok _ _ _ _ _ Hh).
  unfold read_world, ebind. rewrite Hbs. reflexivity.
Qed.
